(* ===== verification/_CoqProject ===== *)
-Q . S2P
Prelude.v
Text.v
Keys.v
Store.v
Datum.v
Float.v
Chars.v
DateTimeBin.v
ExtArith.v
ExtModel.v
DateTime.v
Numeric.v
NumericFn.v
Ops.v
Cast.v
OpsProps.v
RowEnc.v
Mvcc.v
StateMachine.v
Durable.v
RaftLog.v
Catalog.v
Errors.v
Scope.v
XidAlloc.v
LockMgr.v
Exec.v
ScanLive.v
RowHistory.v
RowHistoryKv.v
RowSnapshot.v
Engine.v
Wire.v
Scram.v
Lexer.v
Ast.v
EvalOps.v
Like.v
Func.v
Parser.v
ParserDepth.v
ParserTotal.v
ParserExpr.v
Calendar.v
DateTimeFmt.v
DateTimeFn.v
FormatFn.v
AggCall.v
Eval.v
Project.v
Join.v
Aggregate.v
Values.v
SetOps.v
ScanBounds.v
Describe.v
Query.v
RangeMap.v
Act.v
Write.v
Session.v
LibModel.v
SessionProps.v
Connection.v
ConnectionProps.v
Router.v
TwoPc.v
Recovery.v
JoinSpec.v
OrderBy.v
IntervalProps.v
Grouping.v
TypeSim.v
DescribeAgrees.v
RouterReads.v
RouterProps.v
TwoPcProps.v
Pushdown.v
KafkaTypes.v
KafkaScan.v
