(* ===== verification/Prelude.v ===== *)
(** * crabgresql: a verification development

    crabgresql is a PostgreSQL-compatible SQL database in Rust: a wire-protocol
    server, a SQL parser and executor, multi-version storage over an ordered
    key-value store, and a Raft-replicated, range-partitioned cluster with
    two-phase commit across ranges. This library models it in Rocq by shallow
    embedding, file by file, and proves what makes the parts correct.

    A statement takes this way through the program. A connection (pgwire) decodes
    messages and hands the SQL text to an engine. The engine's session (executor)
    parses it (pgparser) and runs it: a query reads row versions under a snapshot
    (mvcc, kv), a write locks rows, re-checks them and commits a batch of store
    operations. In a cluster the batch is an entry of a Raft log that every replica
    applies (cluster/src/store.rs, durable.rs); a gateway (cluster/src/range) sends
    each statement to the range of its tables and ends a transaction that spans
    ranges by one decision in range 0; a new leader settles what it inherited
    before it serves writes. A foreign table is read from a Kafka topic (kafka_fdw).

    Every definition that translates code is preceded by a comment
    [[path:first-last] symbol] naming the lines under src/crates/ it models.

    ** Conventions

    Machine integers are [Z] with their width's predicate ([u64_ok], [i32_ok],
    ...) and wrap-around written out; bytes are [list Z]; Rust strings are
    Rocq strings of UTF-8 bytes ([str_ok]); [Result] is [result] with the
    source's error types; a Rust panic or failed assertion is [None], [Panicked]
    of [fault], or a constructor of its own. Hash maps are [gmap]; where code
    iterates over one, the order is a parameter. Concurrent code is modelled at the
    granularity of its locks: one step per critical section, with every
    interleaving of the steps (LockMgr, RowHistory), or as an action on the shared
    state in which every await is an operation of a class ([Awaits], [Gateway]), so
    that the theorems hold whatever other sessions do meanwhile (Act, Write,
    Session, Router, TwoPc, Recovery).

    Third-party code appears as classes of operations, with the laws the program
    relies on in classes of their own: jiff and bigdecimal ([Ext], [ExtArith],
    [ExtCal], [ExtPow]; [ExtLaws], [ExtArithLaws], [ExtCalLaws]), Unicode tables and
    floating-point functions ([Unicode], [MathLib]), openraft's ids and serde_json
    ([Raft], [Serde]), the fjall storage engine ([KvLaws]), hashes and base64
    ([Crypto], [CryptoLaws]), and the Avro, JSON and Protobuf libraries
    ([KafkaLibs]). ExtModel, LibModel, Calendar and the ends of StateMachine, Scram
    and KafkaScan give instances, on which the witnesses are evaluated.

    ** Files

    Values and storage
    - Prelude, Text, Chars, Float: results, integers, bytes, UTF-8, decimal text,
      stable sorting; what the sources use of Rust's strings and floats.
    - Keys, Store: kv/src/key.rs, keyenc.rs, store.rs. Keys and the ordered store.
    - Datum, DateTimeBin, DateTime, DateTimeFmt, Numeric, NumericFn, Ops, Cast:
      pgtypes/src. SQL values, their text and binary forms, operators and casts.
      OpsProps, IntervalProps: the order of values, integer arithmetic, interval text.
    - ExtArith, Calendar, ExtModel, LibModel: the third-party classes, instances.
    - RowEnc: kv/src/rowenc.rs. Mvcc: mvcc/src. Catalog: catalog/src.
    - StateMachine, Durable, RaftLog: cluster/src/store.rs, durable.rs.

    Executor (executor/src)
    - Errors: error.rs. Scope: scope.rs. XidAlloc: procarray.rs, gtm.rs, seq.rs.
      LockMgr: lockmgr.rs. Engine: lib.rs.
    - Exec: exec.rs on the versions of a row and a table. ScanLive: the table scan.
      RowHistory, RowHistoryKv, RowSnapshot: one row over all interleavings of
      transactions and crashes, as an abstract machine and on the store.
    - EvalOps, Like, Func, DateTimeFn, FormatFn, Eval: eval.rs, func.rs,
      datetime_fn.rs, format_fn.rs. AggCall: equality and height of expressions.
    - Project, Join, Aggregate, Values, SetOps, ScanBounds, Query: the read path of
      exec.rs, join.rs, agg.rs, values.rs, cte.rs, setops.rs, query.rs, subquery.rs.
      Describe: the schema-only passes. JoinSpec, Grouping, OrderBy, TypeSim,
      DescribeAgrees, Pushdown: what queries return.
    - Act, Write, Session, SessionProps: session.rs and the writes of exec.rs, over
      the state that sessions share.

    Parser (pgparser/src)
    - Lexer, Ast, Parser. ParserTotal, ParserDepth, ParserExpr: that parsing ends,
      how deep expressions nest, that expressions read back.

    Connections (pgwire/src)
    - Wire: messages. Scram: scram.rs. Connection, ConnectionProps: session.rs,
      server.rs, engine.rs, stub.rs.

    Cluster (cluster/src)
    - RangeMap: range/map.rs, range/meta.rs. Router, RouterReads, RouterProps:
      range/router.rs. TwoPc, TwoPcProps: twopc.rs, transport/server.rs.
      Recovery: recovery_gate.rs and the leadership tasks of server_node.rs.

    Kafka (kafka_fdw/src)
    - KafkaTypes: types.rs, decode.rs, config.rs. KafkaScan: source.rs, scan.rs, lib.rs.

    ** What the theorems show

    - Row versions: every reader finds at most one live version of a row, a
      snapshot reads the same row for as long as it lives, and the re-check under
      the row lock works on the newest version.
    - Sessions: the end of a transaction leaves neither a running id nor a lock; a
      block reads through one snapshot; an error aborts a block; settings made in a
      block follow its outcome.
    - Connections: nothing is served before the password is proved; every message
      is answered as the protocol says with what the engine gives; packet boundaries
      do not matter.
    - Cluster: a routed query reads one range; COMMIT and ROLLBACK across ranges
      report the recorded decision; a gate opens only when nothing inherited is in
      doubt; a participant gives up only what is decided; decisions are write-once
      and atomic over ranges.
    - Replication: the durable state machine and log refine the in-memory ones, with
      restarts anywhere; ids survive failover.
    - Locks: exclusive locks exclude, also beside recovery's (on every row that
      recovery did not lock over another holder), and blocked sessions progress.
    - Parser: every text is parsed to an answer within the model's fuel; expressions
      are bounded in depth, and too deep ones refused; expressions read back.
    - Queries: scans, joins, grouping and ordering against independent definitions;
      Describe announces the columns a query returns; pushed-down offsets and
      imported Avro columns are right.
    - Values: rows survive storage, grouping equality agrees with hashing, integer
      arithmetic is exact or an error.

    Some theorems state where the code departs from what it means to do: a failed
    statement does not abort a transaction that spans ranges, one cancel stops two
    queries, and the recovery sweep can free rows that are in doubt.

    ** Fuel

    Loops that are not structural take fuel. Proved to be enough: [decode_row] (the
    input's length), [check_cycle] (the number of waiting sessions), [dec_go], binary
    search, the lexer (the text's length), the parser (three calls per token), LIKE
    (the product of the lengths), [infer_type] (the expression's height), the turns
    of a connection (the bytes received), and the fetch loop of a partition (the
    offsets planned, which each turn that goes on reduces). The template loops of
    to_char and to_timestamp and the row loop of a scan take an element off their
    list per turn and get its length; the printing of floats gets 700 steps for the
    decimal exponent, which is within 324 of zero, and 17 digits.

    ** Not modelled

    Sockets, TLS, task spawning, connection pools and process wiring
    (cluster/src/node.rs, network.rs, forward.rs, transport/client.rs, starting a
    node in server_node.rs, crabgresql/src/main.rs) are I/O over third-party crates,
    as are the byte proxy (route.rs), the frames of the node port
    (transport/frame.rs, a length in front of serde_json text) and the fjall store
    (kv/src/fjall_store.rs). I/O errors of the storage engine are not modelled. The
    Raft protocol itself is openraft's. *)
From Stdlib Require Import ZArith Lia.
From stdpp Require Import base list gmap strings pretty sorting.


#[export] Set Default Goal Selector "!".
Open Scope Z_scope.

Create HintDb crab.
Create Rewrite HintDb crab_len.

(** ** Results: Rust's [Result<A, E>] *)

Inductive result (E A : Type) : Type :=
| Ok (a : A)
| Err (e : E).
Arguments Ok {E A} a.
Arguments Err {E A} e.

#[export] Instance result_ret E : MRet (result E) := fun A a => Ok a.
#[export] Instance result_bind E : MBind (result E) :=
  fun A B f r => match r with Ok a => f a | Err e => Err e end.
#[export] Instance result_fmap E : FMap (result E) :=
  fun A B f r => match r with Ok a => Ok (f a) | Err e => Err e end.

(** [Result::ok] *)
Definition res_ok {E A} (r : result E A) : option A :=
  match r with Ok a => Some a | Err _ => None end.

(** [Result::map_err] *)
Definition map_err {E F A} (f : E -> F) (r : result E A) : result F A :=
  match r with Ok a => Ok a | Err e => Err (f e) end.

(** [Option::ok_or] *)
Definition ok_or {E A} (o : option A) (e : E) : result E A :=
  match o with Some a => Ok a | None => Err e end.

(** Errors of code that may also panic. *)
Inductive fault (E : Type) : Type :=
| Raised (e : E)
| Panicked.
Arguments Raised {E} e.
Arguments Panicked {E}.

(** A value as an outcome: an error of the callee, or its panic as [None]. *)
Definition lift {E A} (r : result E A) : result (fault E) A := map_err Raised r.
Definition panic_or {E A} (o : option A) : result (fault E) A := ok_or o Panicked.
Definition map_fault {E F A} (f : E -> F) (r : result (fault E) A) : result (fault F) A :=
  map_err (fun x => match x with Raised e => Raised (f e) | Panicked => Panicked end) r.

Lemma bind_Ok {E A B} (f : A -> result E B) (r : result E A) (b : B) :
  (r ≫= f) = Ok b <-> exists a, r = Ok a /\ f a = Ok b.
Proof. destruct r; simpl; naive_solver. Qed.

(** Reduction of monadic glue only: the encoders stay folded. *)
Ltac rsimpl :=
  cbn beta iota zeta delta [mbind result_bind option_bind mret result_ret option_ret
    fmap result_fmap option_fmap option_map res_ok map_err ok_or fst snd
    orb andb negb].

(** A fallible left fold: a Rust [for] loop whose body uses [?]. *)
Fixpoint foldM {E A S} (f : S -> A -> result E S) (s : S) (l : list A)
  : result E S :=
  match l with
  | [] => Ok s
  | x :: l => s ← f s x; foldM f s l
  end.

(** A fallible map: [iter().map(..).collect::<Result<Vec<_>, _>>()]. *)
Fixpoint mapR {E A B} (f : A -> result E B) (l : list A) : result E (list B) :=
  match l with
  | [] => Ok []
  | x :: l => y ← f x; ys ← mapR f l; Ok (y :: ys)
  end.

Lemma mapR_Ok_length {E A B} (f : A -> result E B) l l' :
  mapR f l = Ok l' -> length l' = length l.
Proof.
  revert l'; induction l as [|x l IH]; intros l'; simpl.
  - by intros [= <-].
  - intros (y & _ & (ys & Hys & [= <-])%bind_Ok)%bind_Ok. simpl. f_equal; auto.
Qed.

Lemma mapR_Ok_Forall2 {E A B} (f : A -> result E B) l l' :
  mapR f l = Ok l' -> Forall2 (fun x y => f x = Ok y) l l'.
Proof.
  revert l'; induction l as [|x l IH]; intros l'; simpl.
  - intros [= <-]. constructor.
  - intros (y & Hy & (ys & Hys & [= <-])%bind_Ok)%bind_Ok. constructor; auto.
Qed.

(** ** Machine integers

    An integer of width w is a [Z]; arithmetic that can leave the width is
    written with its wrap-around where the release build wraps. *)

Definition u8_ok (x : Z) : Prop := 0 <= x < 256.
Definition u16_ok (x : Z) : Prop := 0 <= x < 65536.
Definition u32_ok (x : Z) : Prop := 0 <= x < 4294967296.
Definition u64_ok (x : Z) : Prop := 0 <= x < 18446744073709551616.
Definition i16_ok (x : Z) : Prop := -32768 <= x < 32768.
Definition i32_ok (x : Z) : Prop := -2147483648 <= x < 2147483648.
Definition i64_ok (x : Z) : Prop :=
  -9223372036854775808 <= x < 9223372036854775808.

Definition u64_max : Z := 18446744073709551615.

#[export] Instance u8_ok_dec x : Decision (u8_ok x).
Proof. unfold u8_ok; apply _. Defined.
#[export] Instance u32_ok_dec x : Decision (u32_ok x).
Proof. unfold u32_ok; apply _. Defined.
#[export] Instance u64_ok_dec x : Decision (u64_ok x).
Proof. unfold u64_ok; apply _. Defined.
#[export] Instance i16_ok_dec x : Decision (i16_ok x).
Proof. unfold i16_ok; apply _. Defined.
#[export] Instance i32_ok_dec x : Decision (i32_ok x).
Proof. unfold i32_ok; apply _. Defined.
#[export] Instance i64_ok_dec x : Decision (i64_ok x).
Proof. unfold i64_ok; apply _. Defined.

(** The value of an n-byte integer read as signed (two's complement), and the
    unsigned pattern of a signed one. *)
Definition to_signed (bits v : Z) : Z :=
  if v <? 2 ^ (bits - 1) then v else v - 2 ^ bits.
Definition to_unsigned (bits v : Z) : Z := v mod 2 ^ bits.

(** Rust's [as iN] truncation. *)
Definition wrap_signed (bits v : Z) : Z := to_signed bits (v mod 2 ^ bits).

Ltac unfold_widths :=
  unfold u8_ok, u16_ok, u32_ok, u64_ok, i16_ok, i32_ok, i64_ok, u64_max in *.
Ltac width_lia := unfold_widths; lia.

Lemma signed_unsigned_32 v : i32_ok v -> to_signed 32 (to_unsigned 32 v) = v.
Proof.
  unfold to_signed, to_unsigned, i32_ok; intros H.
  change (2 ^ 32) with 4294967296. change (2 ^ (32 - 1)) with 2147483648.
  destruct (Z.ltb_spec (v mod 4294967296) 2147483648);
    Z.div_mod_to_equations; lia.
Qed.

Lemma signed_unsigned_64 v : i64_ok v -> to_signed 64 (to_unsigned 64 v) = v.
Proof.
  unfold to_signed, to_unsigned, i64_ok; intros H.
  change (2 ^ 64) with 18446744073709551616.
  change (2 ^ (64 - 1)) with 9223372036854775808.
  destruct (Z.ltb_spec (v mod 18446744073709551616) 9223372036854775808);
    Z.div_mod_to_equations; lia.
Qed.

Lemma signed_unsigned_16 v : i16_ok v -> to_signed 16 (to_unsigned 16 v) = v.
Proof.
  unfold to_signed, to_unsigned, i16_ok; intros H.
  change (2 ^ 16) with 65536. change (2 ^ (16 - 1)) with 32768.
  destruct (Z.ltb_spec (v mod 65536) 32768); Z.div_mod_to_equations; lia.
Qed.

(** ** Bytes *)

(** A [Vec<u8>] or [&[u8]]: a list of integers that [bytes_ok] keeps in
    0..255. *)
Definition bytes : Type := list Z.
Definition bytes_ok (b : bytes) : Prop := Forall u8_ok b.

#[export] Instance bytes_eq_dec : EqDecision bytes := _.
#[export] Instance bytes_countable : Countable bytes := _.

(** Big-endian encoding on [n] bytes ([to_be_bytes]) and its inverse. *)
Fixpoint be_bytes (n : nat) (v : Z) : bytes :=
  match n with
  | O => []
  | S n => (v / 256 ^ Z.of_nat n) mod 256 :: be_bytes n v
  end.

Fixpoint be_val (b : bytes) : Z :=
  match b with
  | [] => 0
  | x :: b => x * 256 ^ Z.of_nat (length b) + be_val b
  end.

Lemma be_bytes_length n v : length (be_bytes n v) = n.
Proof. induction n; simpl; auto. Qed.

Lemma be_bytes_ok n v : bytes_ok (be_bytes n v).
Proof.
  unfold bytes_ok; induction n; simpl; constructor; auto.
  unfold u8_ok; apply Z.mod_pos_bound; lia.
Qed.

Lemma pow256_pos n : 0 < 256 ^ Z.of_nat n.
Proof. apply Z.pow_pos_nonneg; lia. Qed.

Lemma pow256_S n : 256 ^ Z.of_nat (S n) = 256 * 256 ^ Z.of_nat n.
Proof. rewrite Nat2Z.inj_succ, Z.pow_succ_r; lia. Qed.

Lemma be_val_bound b : bytes_ok b -> 0 <= be_val b < 256 ^ Z.of_nat (length b).
Proof.
  induction 1 as [|x b Hx _ IH]; simpl length; [simpl; lia|].
  rewrite pow256_S. simpl. pose proof (pow256_pos (length b)).
  unfold u8_ok in Hx. nia.
Qed.

Lemma be_val_be_bytes_mod n v : be_val (be_bytes n v) = v mod 256 ^ Z.of_nat n.
Proof.
  induction n as [|n IH]; [simpl; by rewrite Z.mod_1_r|].
  simpl be_val. rewrite be_bytes_length, IH, pow256_S.
  pose proof (pow256_pos n).
  rewrite (Z.mul_comm 256), Z.rem_mul_r by lia. lia.
Qed.

Lemma be_val_be_bytes n v :
  0 <= v < 256 ^ Z.of_nat n -> be_val (be_bytes n v) = v.
Proof. intros. rewrite be_val_be_bytes_mod. by apply Z.mod_small. Qed.

Lemma be_bytes_mod n v : be_bytes n (v mod 256 ^ Z.of_nat n) = be_bytes n v.
Proof.
  assert (forall m, (m <= n)%nat ->
    be_bytes m (v mod 256 ^ Z.of_nat n) = be_bytes m v) as H; [|by apply H].
  induction m as [|m IH]; simpl; intros; [done|].
  f_equal; [|apply IH; lia].
  replace (Z.of_nat n) with (Z.of_nat m + 1 + (Z.of_nat n - Z.of_nat m - 1)) by lia.
  pose proof (pow256_pos m).
  assert (0 < 256 ^ (Z.of_nat n - Z.of_nat m - 1)) by (apply Z.pow_pos_nonneg; lia).
  rewrite !Z.pow_add_r, Z.pow_1_r by lia.
  rewrite <- (Z.mul_assoc (256 ^ Z.of_nat m)), Z.rem_mul_r by lia.
  rewrite (Z.mul_comm (256 ^ Z.of_nat m)), Z.div_add by lia.
  rewrite Z.div_small by (apply Z.mod_pos_bound; lia). rewrite Z.add_0_l.
  rewrite Z.rem_mul_r by lia.
  rewrite Z.mul_comm, Z.mod_add by lia. by apply Z.mod_mod.
Qed.

Lemma be_bytes_be_val b : bytes_ok b -> be_bytes (length b) (be_val b) = b.
Proof.
  induction 1 as [|x b Hx Hb IH]; simpl; [done|].
  pose proof (be_val_bound b Hb). pose proof (pow256_pos (length b)).
  f_equal.
  - rewrite Z.div_add_l by lia. rewrite (Z.div_small (be_val b)) by lia.
    rewrite Z.add_0_r. apply Z.mod_small. exact Hx.
  - rewrite <- be_bytes_mod, (Z.add_comm (_ * _)), Z.mod_add by lia.
    by rewrite Z.mod_small by lia.
Qed.

Lemma be_val_inj a b :
  length a = length b -> bytes_ok a -> bytes_ok b -> be_val a = be_val b -> a = b.
Proof.
  intros Hl Ha Hb Hv.
  rewrite <- (be_bytes_be_val a), <- (be_bytes_be_val b) by done. congruence.
Qed.

Lemma be_bytes_inj n x y :
  0 <= x < 256 ^ Z.of_nat n -> 0 <= y < 256 ^ Z.of_nat n ->
  be_bytes n x = be_bytes n y -> x = y.
Proof.
  intros Hx Hy E. rewrite <- (be_val_be_bytes n x Hx), <- (be_val_be_bytes n y Hy).
  by rewrite E.
Qed.

(** *** The lexicographic order of byte strings: [Ord] for [Vec<u8>] *)

Fixpoint lex_leb (a b : bytes) : bool :=
  match a, b with
  | [], _ => true
  | _ :: _, [] => false
  | x :: a, y :: b => if x <? y then true else if y <? x then false else lex_leb a b
  end.

Definition lex_ltb (a b : bytes) : bool := negb (lex_leb b a).

Definition lex_le (a b : bytes) : Prop := lex_leb a b = true.
Definition lex_lt (a b : bytes) : Prop := lex_ltb a b = true.

#[export] Instance lex_le_dec : RelDecision lex_le.
Proof. intros a b. unfold lex_le. apply _. Defined.
#[export] Instance lex_lt_dec : RelDecision lex_lt.
Proof. intros a b. unfold lex_lt. apply _. Defined.

Ltac lex_case :=
  repeat match goal with
  | |- context [?x <? ?y] => destruct (Z.ltb_spec x y)
  | H : context [?x <? ?y] |- _ => destruct (Z.ltb_spec x y)
  end.

#[export] Instance lex_le_refl : Reflexive lex_le.
Proof.
  intros a. unfold lex_le. induction a as [|x a IH]; simpl; auto.
  by rewrite Z.ltb_irrefl.
Qed.

#[export] Instance lex_le_trans : Transitive lex_le.
Proof.
  intros a. unfold lex_le.
  induction a as [|x a IH]; intros [|y b] [|z c]; simpl; auto; try discriminate.
  intros H1 H2. lex_case; auto; try lia; try discriminate. by apply (IH b).
Qed.

#[export] Instance lex_le_preorder : PreOrder lex_le.
Proof. split; apply _. Qed.

#[export] Instance lex_le_antisym : AntiSymm (=) lex_le.
Proof.
  intros a. unfold lex_le. induction a as [|x a IH]; intros [|y b]; simpl; auto;
    try discriminate.
  intros H1 H2. lex_case; try discriminate; try lia.
  f_equal; [lia|auto].
Qed.

#[export] Instance lex_le_total : Total lex_le.
Proof.
  intros a. unfold lex_le. induction a as [|x a IH]; intros [|y b]; simpl; auto.
  lex_case; auto; lia.
Qed.

Lemma lex_lt_iff a b : lex_lt a b <-> ~ lex_le b a.
Proof. unfold lex_lt, lex_ltb, lex_le. by destruct (lex_leb b a). Qed.

Lemma lex_lt_le a b : lex_lt a b -> lex_le a b.
Proof. rewrite lex_lt_iff. destruct (total lex_le a b); naive_solver. Qed.

Lemma lex_le_lt_trans a b c : lex_le a b -> lex_lt b c -> lex_lt a c.
Proof. rewrite !lex_lt_iff. intros Hab Hbc Hca. apply Hbc. by etrans. Qed.

Lemma lex_lt_le_trans a b c : lex_lt a b -> lex_le b c -> lex_lt a c.
Proof. rewrite !lex_lt_iff. intros Hab Hbc Hca. apply Hab. by etrans. Qed.

Lemma lex_lt_irrefl a : ~ lex_lt a a.
Proof. rewrite lex_lt_iff. intros H. by apply H. Qed.

Lemma lex_le_app_same p a b : lex_leb (p ++ a) (p ++ b) = lex_leb a b.
Proof. induction p as [|x p IH]; simpl; auto. by rewrite Z.ltb_irrefl. Qed.

(** The order of strings bounds the order of their equally long heads. *)
Lemma lex_lt_heads a a' b b' :
  length a = length a' -> lex_lt (a ++ b) (a' ++ b') -> lex_le a a'.
Proof.
  unfold lex_lt, lex_ltb, lex_le. revert a'; induction a as [|x a IH]; intros [|y a'] Hl;
    simpl; try done. intros Hlt. destruct (Z.ltb_spec x y); [done|].
  destruct (Z.ltb_spec y x); [done|]. apply IH; [by injection Hl|done].
Qed.

Lemma lex_le_prefix p a : lex_le p (p ++ a).
Proof.
  unfold lex_le. rewrite <- (app_nil_r p) at 1. by rewrite lex_le_app_same.
Qed.

(** On equal lengths the order of big-endian encodings is the order of the
    values. *)
Lemma lex_leb_be_val a b :
  length a = length b -> bytes_ok a -> bytes_ok b ->
  lex_leb a b = (be_val a <=? be_val b).
Proof.
  revert b; induction a as [|x a IH]; intros [|y b]; try done.
  intros [= Hl] [Hx Ha]%Forall_cons [Hy Hb]%Forall_cons.
  simpl. rewrite Hl, IH by done. unfold u8_ok in *.
  pose proof (be_val_bound a Ha) as Ba. pose proof (be_val_bound b Hb) as Bb.
  rewrite Hl in Ba. set (P := 256 ^ Z.of_nat (length b)) in *.
  destruct (Z.ltb_spec x y); [symmetry; apply Z.leb_le; nia|].
  destruct (Z.ltb_spec y x); [symmetry; apply Z.leb_gt; nia|].
  assert (x = y) as -> by lia.
  destruct (Z.leb_spec (be_val a) (be_val b)); symmetry;
    [apply Z.leb_le | apply Z.leb_gt]; lia.
Qed.

Lemma lex_leb_be_bytes n x y :
  0 <= x < 256 ^ Z.of_nat n -> 0 <= y < 256 ^ Z.of_nat n ->
  lex_leb (be_bytes n x) (be_bytes n y) = (x <=? y).
Proof.
  intros. rewrite lex_leb_be_val by (rewrite ?be_bytes_length; auto using be_bytes_ok).
  by rewrite !be_val_be_bytes.
Qed.

(** [slice::starts_with] *)
Fixpoint starts_with (p k : bytes) : bool :=
  match p, k with
  | [], _ => true
  | x :: p, y :: k => bool_decide (x = y) && starts_with p k
  | _ :: _, [] => false
  end.

Lemma starts_with_spec p k : starts_with p k = true <-> exists s, k = p ++ s.
Proof.
  revert k; induction p as [|x p IH]; intros k; simpl; [naive_solver|].
  destruct k as [|y k]; [naive_solver|].
  rewrite andb_true_iff, bool_decide_eq_true, IH. naive_solver.
Qed.

Lemma starts_with_app p s : starts_with p (p ++ s) = true.
Proof. rewrite starts_with_spec. eauto. Qed.

(** Between a prefix and a key that does not carry it there is no key that
    does: the reason a range scan with [take_while] finds every match. *)
Lemma starts_with_convex p a b :
  lex_le p a -> lex_le a b -> starts_with p b = true -> starts_with p a = true.
Proof.
  unfold lex_le. revert a b; induction p as [|x p IH]; intros a b; simpl; auto.
  destruct a as [|y a]; [discriminate|]. destruct b as [|z b]; simpl; [discriminate|].
  rewrite !andb_true_iff, !bool_decide_eq_true. intros H1 H2 [-> H3].
  lex_case; try discriminate; try lia. split; [lia|]. by apply (IH a b).
Qed.

#[export] Hint Resolve be_bytes_ok lex_lt_le lex_le_prefix starts_with_app : crab.
#[export] Hint Rewrite @length_app @length_cons be_bytes_length : crab_len.

(** ** Strings

    A Rust [String] or [&str] is its UTF-8 bytes, kept in a [string] whose
    characters are those bytes. *)

Definition byte_of_ascii (c : Ascii.ascii) : Z := Z.of_N (Ascii.N_of_ascii c).
Definition ascii_of_byte (b : Z) : Ascii.ascii := Ascii.ascii_of_N (Z.to_N b).

(** [str::as_bytes] *)
Fixpoint str_bytes (s : string) : bytes :=
  match s with
  | EmptyString => []
  | String c s => byte_of_ascii c :: str_bytes s
  end.

Fixpoint str_of_bytes (b : bytes) : string :=
  match b with
  | [] => EmptyString
  | x :: b => String (ascii_of_byte x) (str_of_bytes b)
  end.

(** [core::str::from_utf8]'s validity: the well-formed byte sequences of the
    Unicode standard (no overlong forms, no surrogates, at most U+10FFFF). *)
Definition in_range (lo hi b : Z) : bool := (lo <=? b) && (b <=? hi).
Definition utf8_cont (b : Z) : bool := in_range 128 191 b.

Fixpoint utf8_valid (b : bytes) : bool :=
  match b with
  | [] => true
  | b0 :: t0 =>
      if in_range 0 127 b0 then utf8_valid t0 else
      match t0 with
      | [] => false
      | b1 :: t1 =>
          if in_range 194 223 b0 then utf8_cont b1 && utf8_valid t1 else
          match t1 with
          | [] => false
          | b2 :: t2 =>
              if in_range 224 239 b0 then
                in_range (if b0 =? 224 then 160 else 128)
                         (if b0 =? 237 then 159 else 191) b1
                && utf8_cont b2 && utf8_valid t2
              else
              match t2 with
              | [] => false
              | b3 :: t3 =>
                  in_range 240 244 b0
                  && in_range (if b0 =? 240 then 144 else 128)
                              (if b0 =? 244 then 143 else 191) b1
                  && utf8_cont b2 && utf8_cont b3 && utf8_valid t3
              end
          end
      end
  end.

(** [String::from_utf8(..).ok()] *)
Definition from_utf8 (b : bytes) : option string :=
  if utf8_valid b then Some (str_of_bytes b) else None.

(** The invariant every Rust string has. *)
Definition str_ok (s : string) : Prop := utf8_valid (str_bytes s) = true.

#[export] Instance str_ok_dec s : Decision (str_ok s).
Proof. unfold str_ok; apply _. Defined.

Lemma byte_of_ascii_ok c : u8_ok (byte_of_ascii c).
Proof.
  unfold u8_ok, byte_of_ascii. pose proof (Ascii.N_ascii_bounded c). lia.
Qed.

Lemma ascii_of_byte_of c : ascii_of_byte (byte_of_ascii c) = c.
Proof.
  unfold ascii_of_byte, byte_of_ascii. rewrite N2Z.id. apply Ascii.ascii_N_embedding.
Qed.

Lemma byte_of_ascii_of b : u8_ok b -> byte_of_ascii (ascii_of_byte b) = b.
Proof.
  unfold u8_ok, ascii_of_byte, byte_of_ascii. intros.
  rewrite Ascii.N_ascii_embedding; lia.
Qed.

Lemma str_bytes_ok s : bytes_ok (str_bytes s).
Proof.
  unfold bytes_ok; induction s; simpl; constructor; auto using byte_of_ascii_ok.
Qed.

Lemma str_of_str_bytes s : str_of_bytes (str_bytes s) = s.
Proof. induction s as [|c s IH]; simpl; [done|]. by rewrite ascii_of_byte_of, IH. Qed.

Lemma str_bytes_str_of b : bytes_ok b -> str_bytes (str_of_bytes b) = b.
Proof.
  induction 1 as [|x b Hx _ IH]; simpl; [done|]. by rewrite byte_of_ascii_of, IH.
Qed.

Lemma str_bytes_inj s t : str_bytes s = str_bytes t -> s = t.
Proof. intros E. rewrite <- (str_of_str_bytes s), E. apply str_of_str_bytes. Qed.

Lemma from_utf8_str_bytes s : str_ok s -> from_utf8 (str_bytes s) = Some s.
Proof. unfold from_utf8, str_ok. intros ->. by rewrite str_of_str_bytes. Qed.

Lemma str_bytes_app s t : str_bytes (s +:+ t) = str_bytes s ++ str_bytes t.
Proof.
  induction s as [|c s IH]; [done|].
  change (str_bytes (String c (s +:+ t)) = byte_of_ascii c :: str_bytes s ++ str_bytes t).
  simpl. by rewrite IH.
Qed.

#[export] Hint Resolve str_bytes_ok byte_of_ascii_ok : crab.

(** The value of a decimal literal's digits. *)
Definition is_digit (c : Ascii.ascii) : bool := in_range 48 57 (byte_of_ascii c).
Fixpoint digits_ok (s : string) : bool :=
  match s with
  | EmptyString => true
  | String c s => is_digit c && digits_ok s
  end.
Fixpoint digits_val (acc : Z) (s : string) : Z :=
  match s with
  | EmptyString => acc
  | String c s => digits_val (acc * 10 + (byte_of_ascii c - 48)) s
  end.


(** Decimal printing of integers ([to_string] of every integer type). *)
Definition digit_char (d : Z) : Ascii.ascii := ascii_of_byte (48 + d).

Fixpoint dec_go (fuel : nat) (n : Z) (acc : string) : string :=
  match fuel with
  | O => acc
  | S fuel =>
      let acc := String (digit_char (n mod 10)) acc in
      if n <? 10 then acc else dec_go fuel (n / 10) acc
  end.

Definition dec_string (n : Z) : string := dec_go (S (Z.to_nat (Z.log2 n))) n "".

Definition z_to_string (n : Z) : string :=
  if n <? 0 then "-" +:+ dec_string (- n) else dec_string n.

Lemma digit_char_byte d : 0 <= d < 10 -> byte_of_ascii (digit_char d) = 48 + d.
Proof. intros. apply byte_of_ascii_of. width_lia. Qed.

Lemma is_digit_char d : 0 <= d < 10 -> is_digit (digit_char d) = true.
Proof.
  intros. unfold is_digit, in_range. rewrite digit_char_byte by done.
  apply andb_true_iff; split; apply Z.leb_le; lia.
Qed.

Lemma dec_go_val fuel n s :
  0 <= n < 10 ^ Z.of_nat fuel -> (0 < fuel)%nat ->
  digits_val 0 (dec_go fuel n s) = digits_val n s.
Proof.
  revert n s; induction fuel as [|fuel IH]; intros n s Hn Hf; [lia|].
  simpl. destruct (Z.ltb_spec n 10).
  - simpl. rewrite digit_char_byte by (apply Z.mod_pos_bound; lia).
    rewrite Z.mod_small by lia. f_equal. lia.
  - rewrite Nat2Z.inj_succ, Z.pow_succ_r in Hn by lia.
    assert (0 < fuel)%nat by (destruct fuel; simpl in Hn; lia).
    rewrite IH; [|split; [apply Z.div_pos|apply Z.div_lt_upper_bound]; lia|done].
    simpl. rewrite digit_char_byte by (apply Z.mod_pos_bound; lia).
    f_equal. pose proof (Z.div_mod n 10). lia.
Qed.

Lemma dec_go_digits fuel n s :
  0 <= n -> digits_ok s = true -> digits_ok (dec_go fuel n s) = true.
Proof.
  revert n s; induction fuel as [|fuel IH]; intros n s Hn Hs; simpl; [done|].
  assert (digits_ok (String (digit_char (n mod 10)) s) = true).
  { simpl. rewrite is_digit_char, Hs by (apply Z.mod_pos_bound; lia). done. }
  destruct (n <? 10); [done|]. apply IH; [apply Z.div_pos; lia|done].
Qed.

Lemma dec_string_val n : 0 <= n -> digits_val 0 (dec_string n) = n.
Proof.
  intros Hn. unfold dec_string. rewrite dec_go_val; [done| |lia]. split; [done|].
  rewrite Nat2Z.inj_succ, Z2Nat.id by apply Z.log2_nonneg.
  destruct (decide (n = 0)) as [->|]; [simpl; lia|].
  pose proof (Z.log2_spec n ltac:(lia)) as [_ Hl].
  eapply Z.lt_le_trans; [exact Hl|]. apply Z.pow_le_mono_l. lia.
Qed.

Lemma dec_string_digits n : 0 <= n -> digits_ok (dec_string n) = true.
Proof. intros. by apply dec_go_digits. Qed.

Lemma dec_go_nonempty fuel n s : (0 < fuel)%nat -> dec_go fuel n s <> EmptyString.
Proof.
  intros Hf. destruct fuel as [|fuel]; [lia|]. clear Hf. simpl.
  assert (forall f m c t, dec_go f m (String c t) <> EmptyString) as H.
  { induction f as [|f IH]; intros m c t; simpl; [done|]. destruct (m <? 10); auto. }
  destruct (n <? 10); [done|apply H].
Qed.

Lemma dec_string_nonempty n : dec_string n <> EmptyString.
Proof. apply dec_go_nonempty. lia. Qed.

Lemma dec_string_inj n m : 0 <= n -> 0 <= m -> dec_string n = dec_string m -> n = m.
Proof.
  intros Hn Hm E. rewrite <- (dec_string_val n), <- (dec_string_val m) by done.
  by rewrite E.
Qed.

(** Slices of strings, [&s[..n]] and [&s[n..]]. *)
Fixpoint str_take (n : nat) (s : string) : string :=
  match n, s with
  | O, _ | _, EmptyString => EmptyString
  | S n, String c s => String c (str_take n s)
  end.
Fixpoint str_drop (n : nat) (s : string) : string :=
  match n, s with
  | O, s => s
  | S n, EmptyString => EmptyString
  | S n, String c s => str_drop n s
  end.
(** [str::repeat] of one character. *)
Fixpoint str_repeat (n : nat) (c : Ascii.ascii) : string :=
  match n with O => EmptyString | S n => String c (str_repeat n c) end.

Lemma str_take_drop n s : str_take n s +:+ str_drop n s = s.
Proof.
  revert s; induction n as [|n IH]; intros [|c s]; simpl; try done.
  change (String c (str_take n s +:+ str_drop n s) = String c s). by rewrite IH.
Qed.

Lemma str_app_cons c s t : String c s +:+ t = String c (s +:+ t).
Proof. done. Qed.

Lemma str_app_nil_r s : s +:+ "" = s.
Proof. induction s as [|c s IH]; [done|]. by rewrite str_app_cons, IH. Qed.

Lemma str_app_assoc s t u : (s +:+ t) +:+ u = s +:+ t +:+ u.
Proof. induction s as [|c s IH]; [done|]. by rewrite !str_app_cons, IH. Qed.

Lemma str_length_app s t :
  String.length (s +:+ t) = (String.length s + String.length t)%nat.
Proof. induction s as [|c s IH]; [done|]. rewrite str_app_cons. simpl. by rewrite IH. Qed.

Lemma str_length_drop n s : String.length (str_drop n s) = (String.length s - n)%nat.
Proof. revert s; induction n as [|n IH]; intros [|c s]; simpl; auto. Qed.

Lemma str_length_take n s : String.length (str_take n s) = Nat.min n (String.length s).
Proof. revert s; induction n as [|n IH]; intros [|c s]; simpl; auto. Qed.

Lemma str_length_repeat n c : String.length (str_repeat n c) = n.
Proof. induction n; simpl; auto. Qed.

Lemma str_bytes_length s : length (str_bytes s) = String.length s.
Proof. induction s; simpl; auto. Qed.

Lemma digits_ok_app s t : digits_ok (s +:+ t) = digits_ok s && digits_ok t.
Proof.
  induction s as [|c s IH]; [done|]. rewrite str_app_cons. simpl.
  by rewrite IH, andb_assoc.
Qed.

Lemma digits_val_app a s t : digits_val a (s +:+ t) = digits_val (digits_val a s) t.
Proof. revert a; induction s as [|c s IH]; intros a; [done|]. apply IH. Qed.

Lemma digits_val_zeros n : digits_val 0 (str_repeat n (digit_char 0)) = 0.
Proof. induction n as [|n IH]; simpl; auto. Qed.

Lemma digits_ok_zeros n : digits_ok (str_repeat n (digit_char 0)) = true.
Proof. induction n as [|n IH]; simpl; auto. Qed.

(** ** Generic list lemmas *)

(** Two sequences with the same first [n] elements cut there agree. *)
Lemma app_eq_length {A} (a b c d : list A) :
  length a = length b -> a ++ c = b ++ d -> a = b /\ c = d.
Proof. intros Hl E. by apply app_inj_1. Qed.

Lemma bytes_ok_app a b : bytes_ok (a ++ b) <-> bytes_ok a /\ bytes_ok b.
Proof. apply Forall_app. Qed.

Lemma bytes_ok_cons x b : bytes_ok (x :: b) <-> u8_ok x /\ bytes_ok b.
Proof. apply Forall_cons. Qed.

Lemma bytes_ok_nil : bytes_ok [].
Proof. constructor. Qed.

#[export] Hint Resolve bytes_ok_nil : crab.

(** [Iterator::take_while] over a sorted sequence is a filter when the
    predicate, once false, stays false. *)
Fixpoint take_while {A} (p : A -> bool) (l : list A) : list A :=
  match l with
  | [] => []
  | x :: l => if p x then x :: take_while p l else []
  end.

Lemma take_while_filter {A} (p : A -> bool) l :
  StronglySorted (fun x y => p y = true -> p x = true) l ->
  take_while p l = List.filter p l.
Proof.
  induction 1 as [|x l Hl IH Hx]; simpl; [done|].
  destruct (p x) eqn:Ex; [by rewrite IH|].
  clear -Hx Ex. induction Hx as [|y l Hy Hx' IHx]; simpl; [done|].
  destruct (p y); auto. by specialize (Hy eq_refl).
Qed.

Lemma StronglySorted_filter {A} (R : A -> A -> Prop) (p : A -> bool) l :
  StronglySorted R l -> StronglySorted R (List.filter p l).
Proof.
  induction 1 as [|x l Hl IH Hx]; simpl; [constructor|].
  destruct (p x); [|done]. constructor; [done|].
  rewrite List.Forall_forall in Hx |- *. intros y [Hy _]%filter_In. auto.
Qed.

Lemma filter_filter {A} (p q : A -> bool) l :
  List.filter p (List.filter q l) = List.filter (fun x => q x && p x) l.
Proof.
  induction l as [|x l IH]; simpl; [done|].
  destruct (q x); simpl; [|done]. destruct (p x); by rewrite IH.
Qed.

Lemma StronglySorted_fmap_inv {A B} (R : relation B) (f : A -> B) l :
  StronglySorted R (f <$> l) -> StronglySorted (fun a b => R (f a) (f b)) l.
Proof.
  induction l as [|x l IH]; intros Hs; [constructor|].
  rewrite fmap_cons in Hs. apply StronglySorted_inv in Hs as [Hs Hx].
  constructor; [by apply IH|]. exact (proj1 (Forall_fmap f (R (f x)) l) Hx).
Qed.

Lemma StronglySorted_weaken_in {A} (R R' : A -> A -> Prop) l :
  (forall x y, In x l -> In y l -> R x y -> R' x y) ->
  StronglySorted R l -> StronglySorted R' l.
Proof.
  intros H; induction 1 as [|x l Hl IH Hx]; [constructor|].
  constructor; [apply IH; intros; apply H; simpl; auto|].
  rewrite List.Forall_forall in Hx |- *. intros y Hy. apply H; simpl; auto.
Qed.

(** A strictly sorted list is determined by its elements. *)
Lemma StronglySorted_unique_strict {A} (R : A -> A -> Prop) l l' :
  (forall x, ~ R x x) -> (forall x y z, R x y -> R y z -> R x z) ->
  StronglySorted R l -> StronglySorted R l' ->
  (forall x, In x l <-> In x l') -> l = l'.
Proof.
  intros Hirr Htr Hl; revert l'; induction Hl as [|x l Hl IH Hx];
    intros l' Hl' Hin.
  - destruct l' as [|y l']; [done|]. by destruct (proj2 (Hin y)); left.
  - destruct Hl' as [|y l' Hl' Hy]; [by destruct (proj1 (Hin x)); left|].
    rewrite List.Forall_forall in Hx, Hy.
    assert (x = y) as <-.
    { destruct (proj1 (Hin x)) as [|Hxl]; [by left|done|].
      destruct (proj2 (Hin y)) as [|Hyl]; [by left|done|].
      destruct (Hirr x). eauto. }
    f_equal. apply IH; [done|]. intros z. split; intros Hz.
    + destruct (proj1 (Hin z)) as [<-|]; [by right| |done]. by destruct (Hirr x); auto.
    + destruct (proj2 (Hin z)) as [<-|]; [by right| |done]. by destruct (Hirr x); auto.
Qed.

(** ** Binary search

    [slice::binary_search_by]: the loop halves [size] until it is 1, then one
    comparison decides. [f] compares an element with the target. *)
Fixpoint bsearch_loop (f : nat -> comparison) (fuel base size : nat) : nat :=
  match fuel with
  | O => base
  | S fuel =>
      if (size <=? 1)%nat then base
      else
        let half := Nat.div2 size in
        let mid := (base + half)%nat in
        let base := match f mid with Gt => base | _ => mid end in
        bsearch_loop f fuel base (size - half)%nat
  end.

Definition cmp_at {A} (f : A -> comparison) (l : list A) (i : nat) : comparison :=
  match l !! i with Some x => f x | None => Gt end.

Definition binary_search_by {A} (f : A -> comparison) (l : list A) : nat + nat :=
  match l with
  | [] => inr 0%nat
  | _ =>
      let base := bsearch_loop (cmp_at f l) (length l) 0 (length l) in
      match cmp_at f l base with
      | Eq => inl base
      | Lt => inr (S base)
      | Gt => inr base
      end
  end.

(** A slice sorted with respect to [f]: Less, then Equal, then Greater. *)
Definition cmp_le (a b : comparison) : bool :=
  match a, b with
  | Lt, _ | _, Gt | Eq, Eq => true
  | _, _ => false
  end.
Definition cmp_sorted {A} (f : A -> comparison) (l : list A) : Prop :=
  StronglySorted (fun x y => cmp_le (f x) (f y) = true) l.

(** The loop's invariant: everything at or past [base + size] is Greater, and
    [base] is not (unless it is 0). *)
Lemma bsearch_loop_spec (f : nat -> comparison) fuel base size n :
  (forall i j, (i <= j < n)%nat -> cmp_le (f i) (f j) = true) ->
  (size <= fuel)%nat -> (0 < size)%nat -> (base + size <= n)%nat ->
  (forall i, (base + size <= i < n)%nat -> f i = Gt) ->
  (base = 0%nat \/ f base <> Gt) ->
  let r := bsearch_loop f fuel base size in
  (base <= r < n)%nat /\ (forall i, (r < i < n)%nat -> f i = Gt) /\ (r = 0%nat \/ f r <> Gt).
Proof.
  revert base size; induction fuel as [|fuel IH]; intros base size Hs Hf Hp Hb Hg H0;
    [lia|]. simpl.
  destruct (Nat.leb_spec size 1).
  { split_and!; [lia|lia| |done]. intros i Hi. apply Hg. lia. }
  set (half := Nat.div2 size).
  assert (0 < half /\ 2 * half <= size)%nat as Hh.
  { unfold half. rewrite Nat.div2_div. split; [apply Nat.div_str_pos; lia|].
    apply Nat.Div0.mul_div_le. }
  set (base' := match f (base + half)%nat with Gt => base | _ => (base + half)%nat end).
  assert (base' = base /\ f (base + half)%nat = Gt \/
          base' = (base + half)%nat /\ f (base + half)%nat <> Gt) as Hb'
    by (unfold base'; destruct (f (base + half)%nat); naive_solver).
  clearbody base'.
  assert (base <= base' /\ base' + (size - half) <= base + size)%nat
    by (destruct Hb' as [[-> _]|[-> _]]; lia).
  destruct (IH base' (size - half)%nat) as (R1 & R2 & R3); [done|lia|lia|lia| | |].
  - intros i Hi. destruct Hb' as [[-> Hm]|[-> Hm]]; [|apply Hg; lia].
    specialize (Hs (base + half)%nat i ltac:(lia)). rewrite Hm in Hs.
    by destruct (f i).
  - destruct Hb' as [[-> _]|[-> Hm]]; auto.
  - split_and!; auto; lia.
Qed.

Lemma StronglySorted_lookup_lt {A} (R : A -> A -> Prop) l i j x y :
  StronglySorted R l -> l !! i = Some x -> l !! j = Some y -> (i < j)%nat -> R x y.
Proof.
  intros Hs; revert i j; induction Hs as [|z l Hl IH Hz]; intros i j Hi Hj Hij; [done|].
  destruct j as [|j]; [lia|]. destruct i as [|i]; simpl in *; [|eapply IH; eauto; lia].
  simplify_eq. rewrite Forall_forall in Hz. apply Hz. by eapply list_elem_of_lookup_2.
Qed.

Lemma binary_search_by_spec {A} (f : A -> comparison) l :
  cmp_sorted f l ->
  match binary_search_by f l with
  | inl i => exists x, l !! i = Some x /\ f x = Eq
  | inr i =>
      (i <= length l)%nat /\
      (forall j x, l !! j = Some x -> f x = if (j <? i)%nat then Lt else Gt)
  end.
Proof.
  intros Hs. unfold binary_search_by. destruct l as [|x0 l0] eqn:El; [simpl; by split; [lia|]|].
  rewrite <- El in *. cbv zeta. set (at_ := cmp_at f l) in *.
  assert (forall i j, (i <= j < length l)%nat -> cmp_le (at_ i) (at_ j) = true) as Hmono.
  { intros i j Hij. unfold at_, cmp_at.
    destruct (lookup_lt_is_Some_2 l i) as [x Hx]; [lia|].
    destruct (lookup_lt_is_Some_2 l j) as [y Hy]; [lia|]. rewrite Hx, Hy.
    destruct (decide (i = j)) as [->|]; [simplify_eq; by destruct (f _)|].
    apply (StronglySorted_lookup_lt _ l i j x y Hs Hx Hy). lia. }
  destruct (bsearch_loop_spec at_ (length l) 0 (length l) (length l)) as (R1 & R2 & R3);
    auto; [subst l; simpl; lia|lia|].
  set (r := bsearch_loop _ _ _ _) in *. clearbody r.
  assert (forall j x, l !! j = Some x -> at_ j = f x) as Hat 
    by (intros j x E; unfold at_, cmp_at; by rewrite E).
  destruct (lookup_lt_is_Some_2 l r) as [xr Hxr]; [lia|].
  destruct (at_ r) eqn:Er.
  - exists xr. split; [done|]. by rewrite <- (Hat r).
  - split; [lia|]. intros j x Hj. rewrite <- (Hat j x Hj).
    apply lookup_lt_Some in Hj as Hjl. destruct (Nat.ltb_spec j (S r)).
    + specialize (Hmono j r ltac:(lia)). rewrite Er in Hmono. by destruct (at_ j).
    + apply R2. lia.
  - destruct R3 as [->|]; [|done]. split; [lia|]. intros j x Hj.
    rewrite <- (Hat j x Hj). apply lookup_lt_Some in Hj as Hjl. simpl.
    specialize (Hmono 0%nat j ltac:(lia)). rewrite Er in Hmono. by destruct (at_ j).
Qed.

(** ** Stable sorting by a key: [sort_by_key] *)

Section SortByKey.
Context {A : Type} (key : A -> Z).

Fixpoint insert_by_key (x : A) (l : list A) : list A :=
  match l with
  | [] => [x]
  | y :: l' => if key x <=? key y then x :: l else y :: insert_by_key x l'
  end.

Definition sort_by_key (l : list A) : list A := foldr insert_by_key [] l.

Lemma insert_by_key_perm x l : insert_by_key x l ≡ₚ x :: l.
Proof.
  induction l as [|y l IH]; simpl; [done|]. destruct (key x <=? key y); [done|].
  rewrite IH. apply Permutation_swap.
Qed.

Lemma sort_by_key_perm l : sort_by_key l ≡ₚ l.
Proof. induction l as [|x l IH]; simpl; [done|]. by rewrite insert_by_key_perm, IH. Qed.

Lemma insert_by_key_sorted x l :
  StronglySorted (fun a b => key a <= key b) l ->
  StronglySorted (fun a b => key a <= key b) (insert_by_key x l).
Proof.
  induction 1 as [|y l Hl IH Hy]; simpl; [repeat constructor|].
  destruct (Z.leb_spec (key x) (key y)) as [Hxy|Hxy].
  - constructor; [by constructor|]. constructor; [done|].
    eapply Forall_impl; [exact Hy|]. simpl. lia.
  - constructor; [done|]. rewrite insert_by_key_perm. constructor; [lia|done].
Qed.

Lemma sort_by_key_sorted l :
  StronglySorted (fun a b => key a <= key b) (sort_by_key l).
Proof. induction l; simpl; [constructor|by apply insert_by_key_sorted]. Qed.

(** On an already sorted list the sort changes nothing. *)
Lemma sort_by_key_id l :
  StronglySorted (fun a b => key a <= key b) l -> sort_by_key l = l.
Proof.
  induction 1 as [|x l Hl IH Hx]; simpl; [done|]. rewrite IH.
  destruct l as [|y l]; simpl; [done|]. inversion Hx; subst.
  by rewrite (proj2 (Z.leb_le _ _)).
Qed.

End SortByKey.
