(* ===== verification/Text.v ===== *)
(** * Text operations of the standard library

    What the sources use of [str] and [char]: trimming, the code points of a
    UTF-8 string, splitting, and the parsing and printing of decimal numbers. *)
From Stdlib Require Import ZArith Lia Ascii.
From stdpp Require Import base list gmap strings.
From S2P Require Import Prelude.
Open Scope Z_scope.

(** ** Trimming *)

(** The bytes of one white-space character ([char::is_whitespace]) at the front
    of a UTF-8 string; 0 when there is none. *)
Definition ws_head (b : bytes) : nat :=
  match b with
  | b0 :: t =>
      if in_range 9 13 b0 || (b0 =? 32) then 1%nat else
      match t with
      | b1 :: t =>
          if (b0 =? 194) && ((b1 =? 133) || (b1 =? 160)) then 2%nat else
          match t with
          | b2 :: _ =>
              if ((b0 =? 225) && (b1 =? 154) && (b2 =? 128))
                 || ((b0 =? 226) && (b1 =? 128) &&
                     (in_range 128 138 b2 || in_range 168 169 b2 || (b2 =? 175)))
                 || ((b0 =? 226) && (b1 =? 129) && (b2 =? 159))
                 || ((b0 =? 227) && (b1 =? 128) && (b2 =? 128))
              then 3%nat else 0%nat
          | [] => 0%nat
          end
      | [] => 0%nat
      end
  | [] => 0%nat
  end.

(** The same at the end of a string given back to front. *)
Definition ws_tail (b : bytes) : nat :=
  if (0 <? Z.of_nat (ws_head (rev (take 1 b)))) then 1%nat
  else if Nat.eqb (ws_head (rev (take 2 b))) 2 then 2%nat
  else if Nat.eqb (ws_head (rev (take 3 b))) 3 then 3%nat
  else 0%nat.

Fixpoint trim_with (ws : bytes -> nat) (fuel : nat) (b : bytes) : bytes :=
  match fuel with
  | O => b
  | S fuel => match ws b with O => b | n => trim_with ws fuel (drop n b) end
  end.

(** [str::trim]: at most one white-space character per byte, so the length is
    fuel enough. *)
Definition trim (s : string) : string :=
  let b := str_bytes s in
  let b := trim_with ws_head (length b) b in
  let r := rev b in
  str_of_bytes (rev (trim_with ws_tail (length r) r)).

(** ** Characters *)

(** [str::chars]: the code points of a UTF-8 string. *)
Fixpoint decode_utf8 (b : bytes) : list Z :=
  match b with
  | [] => []
  | b0 :: t =>
      if b0 <? 128 then b0 :: decode_utf8 t
      else match t with
      | [] => [b0]
      | b1 :: t =>
          if b0 <? 224 then ((b0 - 192) * 64 + (b1 - 128)) :: decode_utf8 t
          else match t with
          | [] => [b0; b1]
          | b2 :: t =>
              if b0 <? 240 then ((b0 - 224) * 4096 + (b1 - 128) * 64 + (b2 - 128)) :: decode_utf8 t
              else match t with
              | [] => [b0; b1; b2]
              | b3 :: t =>
                  ((b0 - 240) * 262144 + (b1 - 128) * 4096 + (b2 - 128) * 64 + (b3 - 128))
                    :: decode_utf8 t
              end
          end
      end
  end.
Definition chars (s : string) : list Z := decode_utf8 (str_bytes s).

(** [char::to_ascii_lowercase] *)
Definition char_lower (c : Z) : Z := if in_range 65 90 c then c + 32 else c.

(** ** Searching and splitting *)

(** [str::find] with a set of ASCII characters: the byte index of the first. *)
Fixpoint find_char (p : Ascii.ascii -> bool) (s : string) : option nat :=
  match s with
  | EmptyString => None
  | String c s => if p c then Some O else S <$> find_char p s
  end.

Definition char_in (cs : list Ascii.ascii) (c : Ascii.ascii) : bool := bool_decide (c ∈ cs).

(** [str::split(c)] for an ASCII character: the pieces between its occurrences. *)
Fixpoint split_on (c : Ascii.ascii) (s : string) : list string :=
  match s with
  | EmptyString => [""]
  | String d s =>
      match split_on c s with
      | x :: l => if bool_decide (d = c) then "" :: x :: l else String d x :: l
      | [] => []
      end
  end.

(** [str::split_once(c)] *)
Definition split_once (c : Ascii.ascii) (s : string) : option (string * string) :=
  i ← find_char (fun d => bool_decide (d = c)) s;
  Some (str_take i s, str_drop (S i) s).

(** [str::split_whitespace]: the pieces between white-space characters, without
    the empty ones. *)
Fixpoint words (fuel : nat) (cur : bytes) (b : bytes) : list bytes :=
  let flush := match cur with [] => [] | _ => [rev cur] end in
  match fuel with
  | O => flush
  | S fuel =>
      match b with
      | [] => flush
      | c :: t => match ws_head b with
                  | O => words fuel (c :: cur) t
                  | n => flush ++ words fuel [] (drop n b)
                  end
      end
  end.
Definition split_whitespace (s : string) : list string :=
  map str_of_bytes (words (S (length (str_bytes s))) [] (str_bytes s)).

(** [str::trim_end_matches(c)] for an ASCII character. *)
Fixpoint trim_end_char (c : Ascii.ascii) (s : string) : string :=
  match s with
  | EmptyString => ""
  | String d s =>
      match trim_end_char c s with
      | EmptyString => if bool_decide (d = c) then "" else String d ""
      | s' => String d s'
      end
  end.

(** [str::is_char_boundary] *)
Definition is_char_boundary (i : nat) (s : string) : bool :=
  Nat.eqb i 0 || Nat.eqb i (String.length s) ||
  match str_bytes s !! i with Some b => negb (utf8_cont b) | None => false end.

(** [&s[a..b]]: [None] is the panic on an index that is out of range or inside a
    character. *)
Definition slice (a b : nat) (s : string) : option string :=
  if (a <=? b)%nat && (b <=? String.length s)%nat && is_char_boundary a s && is_char_boundary b s
  then Some (str_take (b - a) (str_drop a s)) else None.

(** [[String]::join(sep)] *)
Fixpoint str_join (sep : string) (l : list string) : string :=
  match l with
  | [] => ""
  | [x] => x
  | x :: l => x +:+ sep +:+ str_join sep l
  end.

(** ** Numbers *)

(** [str::parse] to an integer type with these bounds: an optional sign, of which
    only a signed type takes the minus, and digits. *)
Definition parse_int (lo hi : Z) (s : string) : option Z :=
  let '(neg, body) :=
    match s with
    | String "+"%char s' => (false, s')
    | String "-"%char s' => if lo <? 0 then (true, s') else (false, s)
    | _ => (false, s)
    end in
  if digits_ok body && negb (bool_decide (body = "")) then
    let v := if neg then - digits_val 0 body else digits_val 0 body in
    if (lo <=? v) && (v <=? hi) then Some v else None
  else None.
Definition parse_i32 : string -> option Z := parse_int (-2147483648) 2147483647.
Definition parse_i64 : string -> option Z := parse_int (-9223372036854775808) 9223372036854775807.
Definition parse_usize : string -> option Z := parse_int 0 18446744073709551615.

(** [{:0w}] of an integer: zeros between the sign and the digits. *)
Definition pad_int (w : nat) (n : Z) : string :=
  let digits := dec_string (Z.abs n) in
  if n <? 0 then
    "-" +:+ str_repeat (w - 1 - String.length digits) "0"%char +:+ digits
  else str_repeat (w - String.length digits) "0"%char +:+ digits.

(** ** Text without a character *)

Fixpoint lacks (c : Ascii.ascii) (s : string) : bool :=
  match s with
  | EmptyString => true
  | String d s => negb (bool_decide (d = c)) && lacks c s
  end.

Lemma lacks_app c s t : lacks c (s +:+ t) = lacks c s && lacks c t.
Proof. induction s as [|d s IH]; [done|]. rewrite str_app_cons. cbn [lacks]. by rewrite IH, andb_assoc. Qed.

Lemma split_on_nonempty c s : split_on c s <> [].
Proof.
  induction s as [|d s IH]; [done|]. cbn [split_on]. destruct (split_on c s); [done|].
  by case_bool_decide.
Qed.

Lemma split_on_lacks c s : lacks c s = true -> split_on c s = [s].
Proof.
  induction s as [|d s IH]; [done|]. cbn [lacks split_on]. intros [Hd Hs]%andb_prop.
  rewrite IH by done. by destruct (bool_decide (d = c)).
Qed.

Lemma split_on_app c s t : lacks c s = true -> split_on c (s +:+ String c t) = s :: split_on c t.
Proof.
  induction s as [|d s IH].
  - intros _. change ("" +:+ String c t) with (String c t). cbn [split_on].
    rewrite bool_decide_true by done. pose proof (split_on_nonempty c t).
    by destruct (split_on c t).
  - cbn [lacks]. intros [Hd Hs]%andb_prop. rewrite str_app_cons. cbn [split_on].
    rewrite IH by done. by destruct (bool_decide (d = c)).
Qed.

Lemma digits_lacks c s : digits_ok s = true -> is_digit c = false -> lacks c s = true.
Proof.
  intros Hs Hc. induction s as [|d s IH]; [done|].
  cbn [digits_ok lacks] in *. apply andb_prop in Hs as [Hd Hs].
  rewrite IH, bool_decide_false by (done || congruence). done.
Qed.

(** ** Plain text: visible ASCII *)

Definition plain (c : Z) : bool := in_range 33 126 c.
Definition plain_str (s : string) : bool := forallb plain (str_bytes s).

Lemma ws_head_plain c t : plain c = true -> ws_head (c :: t) = 0%nat.
Proof.
  unfold plain, in_range. intros Hc. unfold ws_head, in_range.
  replace ((9 <=? c) && (c <=? 13) || (c =? 32)) with false by lia.
  destruct t as [|b1 [|b2 t]]; [done|by replace (c =? 194) with false by lia|].
  replace (c =? 194) with false by lia. replace (c =? 225) with false by lia.
  replace (c =? 226) with false by lia. replace (c =? 227) with false by lia. done.
Qed.

Lemma ws_head_space t : ws_head (32 :: t) = 1%nat.
Proof. done. Qed.

(** Nothing to trim behind a plain character, after ASCII. *)
Lemma ws_tail_plain c t :
  plain c = true -> (forall d, d ∈ t -> d < 128) -> ws_tail (c :: t) = 0%nat.
Proof.
  intros Hc Ht. unfold ws_tail. change (rev (take 1 (c :: t))) with [c].
  rewrite ws_head_plain by done. cbn [Z.of_nat Z.ltb Z.compare].
  destruct t as [|d t]; [cbn [take rev app]; by rewrite ws_head_plain|].
  assert (d < 128) by (apply Ht; left).
  change (rev (take 2 (c :: d :: t))) with [d; c].
  assert (Nat.eqb (ws_head [d; c]) 2 = false /\ Nat.eqb (ws_head [d; c]) 3 = false) as [-> E3].
  { unfold ws_head. case_match; [done|]. by replace (d =? 194) with false by lia. }
  destruct t as [|e t].
  { change (rev (take 3 [c; d])) with [d; c]. by rewrite E3. }
  assert (e < 128) by (apply Ht; right; left).
  change (rev (take 3 (c :: d :: e :: t))) with [e; d; c]. unfold ws_head.
  cbn [Z.of_nat Z.ltb Z.compare]. replace (e =? 194) with false by lia. replace (e =? 225) with false by lia.
  replace (e =? 226) with false by lia. replace (e =? 227) with false by lia.
  by destruct (in_range 9 13 e || (e =? 32)).
Qed.

(** ASCII text that starts and ends with a visible character. *)
Lemma trim_plain_ends c t d :
  plain c = true -> plain d = true -> (forall x, x ∈ t -> x < 128) ->
  forall s, str_bytes s = c :: t -> last (c :: t) = Some d -> trim s = s.
Proof.
  intros Hc Hd Ht s Hs Hl. unfold trim. rewrite Hs. cbn [length trim_with].
  rewrite ws_head_plain by done. apply last_Some in Hl as [l Hl]. rewrite Hl at 1 2.
  rewrite rev_app_distr. cbn [rev app length trim_with]. rewrite ws_tail_plain; [|done|].
  - change (d :: rev l) with ([d] ++ rev l).
    change [d] with (rev [d]). rewrite <- rev_app_distr, rev_involutive, <- Hl, <- Hs.
    apply str_of_str_bytes.
  - intros x Hx. assert (x ∈ c :: t) as [->|?]%elem_of_cons; [|unfold plain, in_range in Hc; lia|auto].
    rewrite Hl. apply elem_of_app. left. by apply list_elem_of_In, in_rev, list_elem_of_In.
Qed.

Definition flush (cur : bytes) : list bytes := match cur with [] => [] | _ => [rev cur] end.

Lemma words_plain fuel cur c t :
  plain c = true -> words (S fuel) cur (c :: t) = words fuel (c :: cur) t.
Proof. intros Hc. cbn [words]. by rewrite ws_head_plain. Qed.

(** Words between single spaces. *)
Lemma words_token fuel tok cur rest :
  forallb plain tok = true ->
  words (length tok + S fuel) cur (tok ++ 32 :: rest) =
  flush (rev tok ++ cur) ++ words fuel [] rest.
Proof.
  revert cur; induction tok as [|c tok IH]; intros cur Hp.
  - cbn [length app Nat.add words rev]. rewrite ws_head_space. by destruct cur.
  - cbn [forallb] in Hp. apply andb_prop in Hp as [Hc Hp].
    cbn [length app Nat.add]. rewrite words_plain, IH by done.
    cbn [rev]. by rewrite <- app_assoc.
Qed.

Lemma words_last fuel tok cur :
  forallb plain tok = true ->
  words (S (length tok + fuel)) cur tok = flush (rev tok ++ cur).
Proof.
  revert cur; induction tok as [|c tok IH]; intros cur Hp; [by destruct cur|].
  cbn [forallb] in Hp. apply andb_prop in Hp as [Hc Hp].
  cbn [length Nat.add]. rewrite words_plain, IH by done. cbn [rev]. by rewrite <- app_assoc.
Qed.

Definition word (s : string) : bool := plain_str s && negb (bool_decide (s = "")).

Lemma str_join_cons sep x l : l <> [] -> str_join sep (x :: l) = x +:+ sep +:+ str_join sep l.
Proof. by destruct l. Qed.

Lemma words_join l fuel :
  l <> [] -> forallb word l = true ->
  words (S (length (str_bytes (str_join " " l)) + fuel)) [] (str_bytes (str_join " " l)) =
  map str_bytes l.
Proof.
  induction l as [|x l IH]; [done|]. intros _ Hw. cbn [forallb] in Hw.
  apply andb_prop in Hw as [[Hp Hx]%andb_prop Hw].
  assert (str_bytes x <> []) by (intros E; destruct x; [by rewrite bool_decide_true in Hx|done]).
  assert (flush (rev (str_bytes x) ++ []) = [str_bytes x]) as Hf.
  { rewrite app_nil_r. unfold flush. destruct (rev (str_bytes x)) eqn:E; [|by rewrite <- E, rev_involutive].
    by rewrite <- (rev_involutive (str_bytes x)), E in H. }
  destruct l as [|y l].
  - cbn [str_join map]. by rewrite words_last, Hf.
  - rewrite str_join_cons by done. rewrite !str_bytes_app. change (str_bytes " ") with [32].
    cbn [app map]. rewrite length_app. cbn [length].
    set (b := str_bytes (str_join " " (y :: l))) in *.
    replace (S (length (str_bytes x) + S (length b) + fuel))
      with (length (str_bytes x) + S (S (length b + fuel)))%nat by lia.
    rewrite words_token, Hf by done. cbn [app]. f_equal. by apply IH.
Qed.

Lemma split_whitespace_join l : l <> [] -> forallb word l = true -> split_whitespace (str_join " " l) = l.
Proof.
  intros Hne Hw. unfold split_whitespace.
  rewrite <- (Nat.add_0_r (length _)), words_join, map_map by done.
  rewrite (map_ext _ id), map_id; [done|]. intros. apply str_of_str_bytes.
Qed.
