(* ===== verification/Keys.v ===== *)
(** * Key construction (kv/src/keyenc.rs, kv/src/key.rs, kv/src/error.rs)

    The order-preserving key components, the key of every record the system
    stores, and the decoders that recover a row's identity from its key. A
    [&mut Vec<u8>] that is appended to becomes a returned suffix, and a
    [&mut &[u8]] cursor becomes the pair of the value read and the rest. *)
From Stdlib Require Import ZArith Lia.
From stdpp Require Import base list gmap strings.
From S2P Require Import Prelude.
Open Scope Z_scope.

(** [kv/src/error.rs:4-9] KvError *)
Inductive KvError : Type :=
| CorruptRow (msg : string)
| Io (msg : string).

#[export] Instance KvError_eq_dec : EqDecision KvError.
Proof. solve_decision. Defined.

(** ** Key components *)

(** [kv/src/keyenc.rs:12-14] put_u32 *)
Definition put_u32 (v : Z) : bytes := be_bytes 4 v.

(** [kv/src/keyenc.rs:16-18] put_u64 *)
Definition put_u64 (v : Z) : bytes := be_bytes 8 v.

(** [kv/src/keyenc.rs:20-25] take_u32 *)
Definition take_u32 (cur : bytes) : result KvError (Z * bytes) :=
  if bool_decide (length cur < 4)%nat
  then Err (CorruptRow "truncated u32 key component")
  else Ok (be_val (take 4 cur), drop 4 cur).

(** [kv/src/keyenc.rs:27-32] take_u64 *)
Definition take_u64 (cur : bytes) : result KvError (Z * bytes) :=
  if bool_decide (length cur < 8)%nat
  then Err (CorruptRow "truncated u64 key component")
  else Ok (be_val (take 8 cur), drop 8 cur).

(** ** Keys *)

(** [kv/src/key.rs:8-8] INDEX_PRIMARY *)
Definition INDEX_PRIMARY : Z := 1.

(** [kv/src/key.rs:11-16] table_prefix *)
Definition table_prefix (table_id : Z) : bytes :=
  put_u32 table_id ++ put_u32 INDEX_PRIMARY.

(** [kv/src/key.rs:19-23] row_key *)
Definition row_key (table_id rowid : Z) : bytes :=
  table_prefix table_id ++ put_u64 rowid.

(** [kv/src/key.rs:26-26] SYSTEM_TABLE_ID *)
Definition SYSTEM_TABLE_ID : Z := 0.

(** [kv/src/key.rs:28-34] system_prefix *)
Definition system_prefix (tag : string) : bytes :=
  put_u32 SYSTEM_TABLE_ID ++ str_bytes tag ++ [47].

(** [kv/src/key.rs:37-41] catalog_key *)
Definition catalog_key (table_name : string) : bytes :=
  system_prefix "catalog" ++ str_bytes table_name.

(** [kv/src/key.rs:44-48] seq_key *)
Definition seq_key (table_id : Z) : bytes :=
  system_prefix "seq" ++ put_u32 table_id.

(** [kv/src/key.rs:51-55] meta_next_table_id_key *)
Definition meta_next_table_id_key : bytes :=
  system_prefix "meta" ++ str_bytes "next_table_id".

(** [kv/src/key.rs:58-62] fdw_key *)
Definition fdw_key (name : string) : bytes :=
  system_prefix "fdw" ++ str_bytes name.

(** [kv/src/key.rs:65-69] server_key *)
Definition server_key (name : string) : bytes :=
  system_prefix "fsrv" ++ str_bytes name.

(** [kv/src/key.rs:72-78] user_mapping_key *)
Definition user_mapping_key (user server : string) : bytes :=
  system_prefix "umap" ++ str_bytes user ++ [0] ++ str_bytes server.

(** [kv/src/key.rs:81-83] server_prefix *)
Definition server_prefix : bytes := system_prefix "fsrv".

(** [kv/src/key.rs:86-90] meta_range_map_key *)
Definition meta_range_map_key : bytes :=
  system_prefix "meta" ++ str_bytes "range_map".

(** [kv/src/key.rs:93-97] next_xid_key *)
Definition next_xid_key : bytes :=
  system_prefix "meta" ++ str_bytes "next_xid".

(** [kv/src/key.rs:101-105] meta_next_global_xid_key *)
Definition meta_next_global_xid_key : bytes :=
  system_prefix "meta" ++ str_bytes "next_global_xid".

(** [kv/src/key.rs:111-115] clog_scan_lo_key *)
Definition clog_scan_lo_key : bytes :=
  system_prefix "meta" ++ str_bytes "clog_scan_lo".

(** [kv/src/key.rs:139-141] clog_prefix *)
Definition clog_prefix : bytes := system_prefix "clog".

(** Increment of the last byte of a buffer, [*p.last_mut() += 1] on a [u8]. *)
Fixpoint bump_last (p : bytes) : bytes :=
  match p with
  | [] => []
  | [x] => [(x + 1) mod 256]
  | x :: p => x :: bump_last p
  end.

(** [kv/src/key.rs:123-128] clog_scan_end *)
Definition clog_scan_end : bytes := bump_last clog_prefix.

(** [kv/src/key.rs:131-135] clog_key *)
Definition clog_key (xid : Z) : bytes := system_prefix "clog" ++ put_u64 xid.

(** [kv/src/key.rs:144-151] clog_xid_of *)
Definition clog_xid_of (key : bytes) : option Z :=
  let prefix := clog_prefix in
  if bool_decide (length key <> (length prefix + 8)%nat)
     || bool_decide (take (length prefix) key <> prefix)
  then None
  else fst <$> res_ok (take_u64 (drop (length prefix) key)).

(** [kv/src/key.rs:158-167] table_rowid_of *)
Definition table_rowid_of (key : bytes) : option (Z * Z) :=
  '(t, cur) ← res_ok (take_u32 key);
  '(idx, cur) ← res_ok (take_u32 cur);
  if (t =? SYSTEM_TABLE_ID) || negb (idx =? INDEX_PRIMARY) then None
  else
    '(rowid, _) ← res_ok (take_u64 cur);
    Some (t, rowid).

(** [kv/src/key.rs:170-180] rowid_of *)
Definition rowid_of (table_id : Z) (key : bytes) : result KvError Z :=
  '(t, cur) ← take_u32 key;
  '(idx, cur) ← take_u32 cur;
  if negb (t =? table_id) || negb (idx =? INDEX_PRIMARY)
  then Err (CorruptRow "key does not belong to this table index")
  else fst <$> take_u64 cur.

(** ** Reading back what was written *)

Lemma put_u32_length v : length (put_u32 v) = 4%nat.
Proof. apply be_bytes_length. Qed.
Lemma put_u64_length v : length (put_u64 v) = 8%nat.
Proof. apply be_bytes_length. Qed.

Lemma take_u32_put v rest :
  u32_ok v -> take_u32 (put_u32 v ++ rest) = Ok (v, rest).
Proof.
  intros Hv. unfold take_u32.
  rewrite bool_decide_eq_false_2 by (rewrite length_app, put_u32_length; lia).
  rewrite take_app_length', drop_app_length' by (by rewrite put_u32_length).
  unfold put_u32. rewrite be_val_be_bytes; [done|]. exact Hv.
Qed.

Lemma take_u64_put v rest :
  u64_ok v -> take_u64 (put_u64 v ++ rest) = Ok (v, rest).
Proof.
  intros Hv. unfold take_u64.
  rewrite bool_decide_eq_false_2 by (rewrite length_app, put_u64_length; lia).
  rewrite take_app_length', drop_app_length' by (by rewrite put_u64_length).
  unfold put_u64. rewrite be_val_be_bytes; [done|]. exact Hv.
Qed.

Lemma put_u32_inj x y : u32_ok x -> u32_ok y -> put_u32 x = put_u32 y -> x = y.
Proof. intros. by apply (be_bytes_inj 4). Qed.
Lemma put_u64_inj x y : u64_ok x -> u64_ok y -> put_u64 x = put_u64 y -> x = y.
Proof. intros. by apply (be_bytes_inj 8). Qed.

Lemma lex_leb_put_u64 x y :
  u64_ok x -> u64_ok y -> lex_leb (put_u64 x) (put_u64 y) = (x <=? y).
Proof. intros. by apply lex_leb_be_bytes. Qed.

Lemma u32_ok_index : u32_ok INDEX_PRIMARY.
Proof. unfold INDEX_PRIMARY. width_lia. Qed.
#[export] Hint Resolve u32_ok_index : crab.

(** Reading the key of a row version, whatever follows the rowid. *)
Lemma rowid_of_row_key t r rest :
  u32_ok t -> u64_ok r -> rowid_of t (row_key t r ++ rest) = Ok r.
Proof.
  intros Ht Hr. unfold rowid_of, row_key, table_prefix. rewrite <- !app_assoc.
  rewrite take_u32_put by done; rsimpl.
  rewrite take_u32_put by apply u32_ok_index; rsimpl.
  rewrite Z.eqb_refl, take_u64_put by done. by rsimpl.
Qed.

Lemma table_rowid_of_row_key t r rest :
  u32_ok t -> t <> SYSTEM_TABLE_ID -> u64_ok r ->
  table_rowid_of (row_key t r ++ rest) = Some (t, r).
Proof.
  intros Ht Hne Hr. unfold table_rowid_of, row_key, table_prefix.
  rewrite <- !app_assoc.
  rewrite take_u32_put by done; rsimpl.
  rewrite take_u32_put by apply u32_ok_index; rsimpl.
  apply Z.eqb_neq in Hne as ->. rsimpl. by rewrite take_u64_put.
Qed.

Lemma clog_key_prefix x : clog_key x = clog_prefix ++ put_u64 x.
Proof. done. Qed.

Lemma clog_xid_of_key x : u64_ok x -> clog_xid_of (clog_key x) = Some x.
Proof.
  intros Hx. unfold clog_xid_of. rewrite clog_key_prefix.
  rewrite bool_decide_eq_false_2
    by (rewrite length_app, put_u64_length; intros H; by apply H).
  rewrite take_app_length, drop_app_length.
  rewrite bool_decide_eq_false_2 by (intros H; by apply H). rsimpl.
  rewrite <- (app_nil_r (put_u64 x)), take_u64_put by done. done.
Qed.

(** The converse: what [clog_xid_of] accepts is exactly a commit-log key. *)
Lemma clog_xid_of_Some key x :
  bytes_ok key -> clog_xid_of key = Some x -> key = clog_key x /\ u64_ok x.
Proof.
  intros Hk. unfold clog_xid_of.
  destruct (bool_decide_reflect (length key <> (length clog_prefix + 8)%nat)) as [|Hl];
    [done|].
  destruct (bool_decide_reflect (take (length clog_prefix) key <> clog_prefix)) as [|Hp];
    [done|].
  apply dec_stable in Hl, Hp. rsimpl.
  set (d := drop (length clog_prefix) key).
  assert (length d = 8%nat) as Hd by (unfold d; rewrite length_drop; lia).
  assert (bytes_ok d) as Hdok by (by apply Forall_drop).
  unfold take_u64. rewrite bool_decide_eq_false_2 by lia. rsimpl. intros [= <-].
  rewrite take_ge by lia. split.
  - rewrite clog_key_prefix. rewrite <- (take_drop (length clog_prefix) key), Hp.
    f_equal. fold d. unfold put_u64. rewrite <- Hd. by rewrite be_bytes_be_val.
  - pose proof (be_val_bound d Hdok) as B. rewrite Hd in B. exact B.
Qed.

(** The rowid of a row is recovered from its key, or from any key that
    extends it (a version key): [rowid_of] with the table's id gives the rowid,
    and with another table's id the "does not belong" error, never a rowid. *)
Theorem rowid_of_correct t t' r rest :
  u32_ok t -> u64_ok r ->
  rowid_of t' (row_key t r ++ rest) =
    if decide (t' = t) then Ok r
    else Err (CorruptRow "key does not belong to this table index").
Proof.
  intros Ht Hr. case_decide as E; [subst; by apply rowid_of_row_key|].
  unfold rowid_of, row_key, table_prefix. rewrite <- !app_assoc.
  rewrite take_u32_put by done; rsimpl.
  rewrite take_u32_put by apply u32_ok_index; rsimpl.
  replace (t =? t') with false by (symmetry; apply Z.eqb_neq; congruence). done.
Qed.

Lemma rowid_of_correct_witness :
  rowid_of 3 (row_key 7 9 ++ [1]) =
    if decide (3 = 7) then Ok 9
    else Err (CorruptRow "key does not belong to this table index").
Proof. apply (rowid_of_correct 7 3 9 [1]); vm_compute; split; congruence. Defined.
