(* ===== verification/Store.v ===== *)
(** * The ordered key-value store (kv/src/store.rs)

    [MemKv]'s BTreeMap is a finite map; its iteration order is the sorted list
    of its bindings ([entries]). The lock that makes each operation atomic is
    implicit in one operation being one function. *)
From Stdlib Require Import ZArith Lia.
From stdpp Require Import base list gmap strings sorting.
From S2P Require Import Prelude Keys.
Open Scope Z_scope.

(** [kv/src/store.rs:11-14] WriteOp *)
Inductive WriteOp : Type :=
| Put (key value : bytes)
| Delete (key : bytes).

#[export] Instance WriteOp_eq_dec : EqDecision WriteOp.
Proof. solve_decision. Defined.

(** The key an operation names. *)
Definition op_key (op : WriteOp) : bytes :=
  match op with Put k _ => k | Delete k => k end.

(** [kv/src/store.rs:38-40] MemKv *)
Record MemKv : Type := mkMemKv { kv_map : gmap bytes bytes }.

(** [kv/src/store.rs:43-45] MemKv::new *)
Definition kv_new : MemKv := mkMemKv ∅.

(** [kv/src/store.rs:49-51] MemKv::get *)
Definition kv_get (kv : MemKv) (key : bytes) : option bytes := kv_map kv !! key.

(** [kv/src/store.rs:53-56] MemKv::put *)
Definition kv_put (kv : MemKv) (key value : bytes) : MemKv :=
  mkMemKv (<[key := value]> (kv_map kv)).

(** [kv/src/store.rs:58-61] MemKv::delete *)
Definition kv_delete (kv : MemKv) (key : bytes) : MemKv :=
  mkMemKv (delete key (kv_map kv)).

(** The iteration order of a BTreeMap: ascending keys. *)
Definition entry_le (a b : bytes * bytes) : Prop := lex_le (fst a) (fst b).

#[export] Instance entry_le_dec : RelDecision entry_le.
Proof. intros a b. unfold entry_le. apply _. Defined.

Definition entries (kv : MemKv) : list (bytes * bytes) :=
  merge_sort entry_le (map_to_list (kv_map kv)).

(** [kv/src/store.rs:63-72] MemKv::scan_prefix: a range from the prefix on, cut
    at the first key that does not carry it. *)
Definition scan_prefix (kv : MemKv) (prefix : bytes) : list (bytes * bytes) :=
  take_while (fun e => starts_with prefix (fst e))
    (List.filter (fun e => lex_leb prefix (fst e)) (entries kv)).

(** [kv/src/store.rs:74-82] MemKv::scan_range: [None] is the panic of
    [BTreeMap::range] on an inverted range. *)
Definition scan_range (kv : MemKv) (start end_ : bytes)
  : option (list (bytes * bytes)) :=
  if lex_ltb end_ start then None
  else Some (List.filter
    (fun e => lex_leb start (fst e) && lex_ltb (fst e) end_) (entries kv)).

(** One iteration of the loop of [write_batch]. *)
Definition write_op (kv : MemKv) (op : WriteOp) : MemKv :=
  match op with
  | Put key value => kv_put kv key value
  | Delete key => kv_delete kv key
  end.

(** [kv/src/store.rs:84-98] MemKv::write_batch *)
Definition write_batch (kv : MemKv) (ops : list WriteOp) : MemKv :=
  fold_left write_op ops kv.

(** ** The iteration order *)

#[export] Instance entry_le_trans : Transitive entry_le.
Proof. intros a b c. unfold entry_le. apply transitivity. Qed.
#[export] Instance entry_le_total : Total entry_le.
Proof. intros a b. unfold entry_le. apply total, _. Qed.

Lemma entries_perm kv : entries kv ≡ₚ map_to_list (kv_map kv).
Proof. apply merge_sort_Permutation. Qed.

Lemma elem_of_entries kv k v : (k, v) ∈ entries kv <-> kv_get kv k = Some v.
Proof. by rewrite entries_perm, elem_of_map_to_list. Qed.

Lemma In_entries kv k v : In (k, v) (entries kv) <-> kv_get kv k = Some v.
Proof. by rewrite <- list_elem_of_In, elem_of_entries. Qed.

Lemma entries_NoDup kv : NoDup (fst <$> entries kv).
Proof. rewrite entries_perm. apply NoDup_fst_map_to_list. Qed.

Lemma entries_sorted kv : StronglySorted entry_le (entries kv).
Proof. apply StronglySorted_merge_sort; apply _. Qed.

(** Strictly ascending keys: what the users of a scan rely on. *)
Definition entry_lt (a b : bytes * bytes) : Prop := lex_lt (fst a) (fst b).

Lemma sorted_strict l :
  StronglySorted entry_le l -> NoDup (fst <$> l) -> StronglySorted entry_lt l.
Proof.
  induction 1 as [|x l Hl IH Hx]; intros Hnd; [constructor|].
  apply NoDup_cons in Hnd as [Hni Hnd]. constructor; [auto|].
  rewrite Forall_forall in Hx |- *. intros y Hy.
  unfold entry_lt. rewrite lex_lt_iff. intros Hle. apply Hni.
  assert (fst x = fst y) as ->.
  { apply (anti_symm lex_le); [by apply Hx | done]. }
  by apply list_elem_of_fmap_2.
Qed.

Lemma entries_strict kv : StronglySorted entry_lt (entries kv).
Proof. apply sorted_strict; auto using entries_sorted, entries_NoDup. Qed.

(** ** Scans *)

(** The cut at the first mismatch loses nothing: a prefix scan is the filter of
    the whole store by the prefix. *)
Lemma scan_prefix_filter kv p :
  scan_prefix kv p = List.filter (fun e => starts_with p (fst e)) (entries kv).
Proof.
  unfold scan_prefix. rewrite take_while_filter.
  - rewrite filter_filter. apply filter_ext. intros [k v]; simpl.
    destruct (starts_with p k) eqn:E; [|by rewrite andb_false_r].
    apply starts_with_spec in E as [s ->]. by rewrite lex_le_prefix.
  - eapply StronglySorted_weaken_in; [|apply StronglySorted_filter, entries_sorted].
    intros x y [_ Hx]%filter_In _ Hxy Hy. by eapply starts_with_convex.
Qed.

Lemma In_scan_prefix kv p k v :
  In (k, v) (scan_prefix kv p) <-> kv_get kv k = Some v /\ starts_with p k = true.
Proof. by rewrite scan_prefix_filter, filter_In, In_entries. Qed.

Lemma scan_prefix_strict kv p : StronglySorted entry_lt (scan_prefix kv p).
Proof.
  rewrite scan_prefix_filter. apply StronglySorted_filter, entries_strict.
Qed.

Lemma In_scan_range kv s e l k v :
  scan_range kv s e = Some l ->
  In (k, v) l <-> kv_get kv k = Some v /\ lex_le s k /\ lex_lt k e.
Proof.
  unfold scan_range. case_match; [done|]. intros [= <-].
  by rewrite filter_In, In_entries, andb_true_iff.
Qed.

Lemma scan_range_strict kv s e l :
  scan_range kv s e = Some l -> StronglySorted entry_lt l.
Proof.
  unfold scan_range. case_match; [done|]. intros [= <-].
  apply StronglySorted_filter, entries_strict.
Qed.

(** Two stores that agree on the keys under a prefix have the same scan. *)
Lemma entries_filter_ext kv kv' (p : bytes -> bool) :
  (forall k, p k = true -> kv_get kv k = kv_get kv' k) ->
  List.filter (fun e => p (fst e)) (entries kv) =
  List.filter (fun e => p (fst e)) (entries kv').
Proof.
  intros H. apply (StronglySorted_unique_strict entry_lt).
  - intros x. apply lex_lt_irrefl.
  - intros x y z Hxy Hyz. unfold entry_lt. eapply lex_le_lt_trans; [|exact Hyz].
    by apply lex_lt_le.
  - apply StronglySorted_filter, entries_strict.
  - apply StronglySorted_filter, entries_strict.
  - intros [k v]. rewrite !filter_In, !In_entries. simpl. naive_solver congruence.
Qed.

Lemma scan_prefix_ext kv kv' p :
  (forall k, starts_with p k = true -> kv_get kv k = kv_get kv' k) ->
  scan_prefix kv p = scan_prefix kv' p.
Proof. intros H. rewrite !scan_prefix_filter. by apply (entries_filter_ext kv kv'). Qed.

(** ** Batches *)

(** What a batch leaves at a key: the last operation on it decides. *)
Fixpoint last_write (ops : list WriteOp) (k : bytes) : option (option bytes) :=
  match ops with
  | [] => None
  | op :: ops =>
      match last_write ops k with
      | Some w => Some w
      | None =>
          match op with
          | Put k' v => if decide (k' = k) then Some (Some v) else None
          | Delete k' => if decide (k' = k) then Some None else None
          end
      end
  end.

Lemma kv_get_put kv k v k' :
  kv_get (kv_put kv k v) k' = if decide (k = k') then Some v else kv_get kv k'.
Proof. apply lookup_insert. Qed.

Lemma kv_get_delete kv k k' :
  kv_get (kv_delete kv k) k' = if decide (k = k') then None else kv_get kv k'.
Proof. apply lookup_delete. Qed.

Lemma write_batch_app kv a b :
  write_batch kv (a ++ b) = write_batch (write_batch kv a) b.
Proof. apply fold_left_app. Qed.

Lemma kv_get_write_batch kv ops k :
  kv_get (write_batch kv ops) k =
    match last_write ops k with Some w => w | None => kv_get kv k end.
Proof.
  revert kv; induction ops as [|op ops IH]; intros kv; simpl; [done|].
  change (write_batch kv (op :: ops)) with (write_batch (write_op kv op) ops).
  rewrite IH.
  destruct (last_write ops k); [done|].
  destruct op as [k' v|k']; simpl; [rewrite kv_get_put | rewrite kv_get_delete];
    by case_decide.
Qed.

Lemma last_write_None ops k :
  (forall op, In op ops -> op_key op <> k) -> last_write ops k = None.
Proof.
  induction ops as [|op ops IH]; simpl; [done|]. intros H. rewrite IH by auto.
  specialize (H op (or_introl eq_refl)). destruct op; simpl in *; by case_decide.
Qed.

Lemma last_write_app a b k :
  last_write (a ++ b) k =
    match last_write b k with Some w => Some w | None => last_write a k end.
Proof.
  induction a as [|op a IH]; simpl; [by destruct (last_write b k)|].
  rewrite IH. by destruct (last_write b k).
Qed.

Lemma last_write_deletes (l : list (bytes * bytes)) k :
  last_write (map (fun e => Delete (fst e)) l) k =
    if decide (k ∈ l.*1) then Some None else None.
Proof.
  induction l as [|[k' v] l IH]; simpl; [done|]. rewrite IH.
  destruct (decide (k ∈ l.*1)) as [H1|H1].
  - by rewrite decide_True by (by right).
  - destruct (decide (k' = k)) as [->|].
    + by rewrite decide_True by left.
    + rewrite decide_False; [done|]. rewrite elem_of_cons. naive_solver.
Qed.

Lemma kv_get_write_batch_other kv ops k :
  (forall op, In op ops -> op_key op <> k) ->
  kv_get (write_batch kv ops) k = kv_get kv k.
Proof. intros H. by rewrite kv_get_write_batch, last_write_None. Qed.

Lemma strict_NoDup_fst l : StronglySorted entry_lt l -> NoDup (fst <$> l).
Proof.
  induction 1 as [|x l _ IH Hx]; [constructor|].
  constructor; [|done]. intros (y & E & Hy)%list_elem_of_fmap_1.
  rewrite Forall_forall in Hx. specialize (Hx y Hy).
  unfold entry_lt in Hx. rewrite E in Hx. by apply lex_lt_irrefl in Hx.
Qed.

Lemma scan_prefix_nodup kv p : NoDup (fst <$> scan_prefix kv p).
Proof. apply strict_NoDup_fst, scan_prefix_strict. Qed.

(** ** The store's contract *)

(** The laws of the [Kv] trait that its clients rely on, for any store type
    with these operations. *)
Class KvLaws (S : Type) (get : S -> bytes -> option bytes)
    (scan : S -> bytes -> list (bytes * bytes))
    (batch : S -> list WriteOp -> S) : Prop := {
  law_scan_complete s p k v :
    In (k, v) (scan s p) <-> get s k = Some v /\ starts_with p k = true;
  law_scan_order s p : StronglySorted entry_lt (scan s p);
  law_batch s ops k :
    get (batch s ops) k =
      match last_write ops k with Some w => w | None => get s k end
}.

#[export] Instance MemKv_laws : KvLaws MemKv kv_get scan_prefix write_batch.
Proof.
  split; [apply In_scan_prefix|apply scan_prefix_strict|apply kv_get_write_batch].
Qed.

(** A prefix scan of the store returns every stored pair whose key carries
    the prefix, no other pair, each once, in strictly ascending key order: the
    early stop at the first non-matching key loses nothing. *)
Theorem scan_prefix_correct kv p :
  (forall k v, In (k, v) (scan_prefix kv p) <->
     kv_get kv k = Some v /\ starts_with p k = true) /\
  StronglySorted entry_lt (scan_prefix kv p) /\
  NoDup (fst <$> scan_prefix kv p).
Proof.
  split_and!; [intros; apply In_scan_prefix | apply scan_prefix_strict
    | apply scan_prefix_nodup].
Qed.
