(* ===== verification/Datum.v ===== *)
(** * SQL types and values (pgtypes/src/datum.rs, error.rs; the interval type of
      pgtypes/src/datetime.rs)

    The date, time and arbitrary-precision decimal values of the program are
    types of the jiff and bigdecimal packages. They are the parameter [Ext]:
    the types and the operations the source calls on them. [ExtLaws] states
    what the documentation of those packages says of them; it is instantiated
    by a concrete calendar-free model in ExtModel.v. *)
From Stdlib Require Import ZArith Lia.
From stdpp Require Import base list gmap strings pretty.
From S2P Require Import Prelude.
Open Scope Z_scope.

(** ** Third-party value types *)

Class Ext : Type := {
  (* jiff *)
  Date : Type;
  Time : Type;
  DateTime : Type;
  Timestamp : Type;
  Date_eq_dec :: EqDecision Date;
  Time_eq_dec :: EqDecision Time;
  DateTime_eq_dec :: EqDecision DateTime;
  Timestamp_eq_dec :: EqDecision Timestamp;
  (* civil::Time: accessors and the checked constructor *)
  time_hour : Time -> Z;
  time_minute : Time -> Z;
  time_second : Time -> Z;
  time_subsec_nanosecond : Time -> Z;
  time_new : Z -> Z -> Z -> Z -> option Time;
  (* Date::since((Unit::Day, 2000-01-01)) and DateTime::since((Unit::Microsecond, ..)) *)
  date_since_pg_epoch : Date -> Z;
  datetime_since_pg_epoch : DateTime -> Z;
  datetime_subsec_nanosecond : DateTime -> Z;
  (* Timestamp: an instant, its checked constructors, and its UTC civil form *)
  ts_from_second : Z -> option Timestamp;
  ts_from_microsecond : Z -> option Timestamp;
  ts_as_microsecond : Timestamp -> Z;
  ts_subsec_nanosecond : Timestamp -> Z;
  ts_utc_date : Timestamp -> Date;
  ts_utc_datetime : Timestamp -> DateTime;
  (* bigdecimal *)
  BigDecimal : Type;
  bd_parts : BigDecimal -> Z * Z;      (* as_bigint_and_exponent *)
  bd_from_str : string -> option BigDecimal;
  bd_with_scale_0 : BigDecimal -> BigDecimal;
  bd_eqb : BigDecimal -> BigDecimal -> bool;   (* PartialEq: by value *)
  bd_normalized_string : BigDecimal -> string;
  (* core's Debug for str and for char, which only error texts use *)
  str_debug : string -> string;
  char_debug : Z -> string
}.

(** The bounds of [jiff::Timestamp], in seconds: -9999-01-02T01:59:59Z and
    9999-12-30T22:00:00Z. *)
Definition TS_MIN_SECOND : Z := -377705023201.
Definition TS_MAX_SECOND : Z := 253402207200.

Class ExtLaws `{Ext} : Prop := {
  time_hour_range t : 0 <= time_hour t <= 23;
  time_minute_range t : 0 <= time_minute t <= 59;
  time_second_range t : 0 <= time_second t <= 59;
  time_nanosecond_range t : 0 <= time_subsec_nanosecond t <= 999999999;
  time_new_in_range h m s n :
    0 <= h <= 23 -> 0 <= m <= 59 -> 0 <= s <= 59 -> 0 <= n <= 999999999 ->
    exists t, time_new h m s n = Some t /\ time_hour t = h /\
      time_minute t = m /\ time_second t = s /\ time_subsec_nanosecond t = n;
  time_new_out_of_range h m s n :
    ~ (0 <= h <= 23 /\ 0 <= m <= 59 /\ 0 <= s <= 59 /\ 0 <= n <= 999999999) ->
    time_new h m s n = None;
  time_by_fields t t' :
    time_hour t = time_hour t' -> time_minute t = time_minute t' ->
    time_second t = time_second t' ->
    time_subsec_nanosecond t = time_subsec_nanosecond t' -> t = t';
  ts_from_second_range s :
    is_Some (ts_from_second s) <-> TS_MIN_SECOND <= s <= TS_MAX_SECOND;
  ts_from_second_date d ts :
    ts_from_second (date_since_pg_epoch d * 86400 + 946684800) = Some ts ->
    ts_utc_date ts = d;
  ts_from_microsecond_range u :
    is_Some (ts_from_microsecond u) <->
    TS_MIN_SECOND * 1000000 <= u <= TS_MAX_SECOND * 1000000 + 999999;
  ts_from_microsecond_datetime dt ts :
    datetime_subsec_nanosecond dt mod 1000 = 0 ->
    ts_from_microsecond (datetime_since_pg_epoch dt + 946684800000000) = Some ts ->
    ts_utc_datetime ts = dt;
  ts_as_microsecond_range ts :
    TS_MIN_SECOND * 1000000 <= ts_as_microsecond ts <= TS_MAX_SECOND * 1000000 + 999999;
  ts_microsecond_roundtrip ts :
    ts_subsec_nanosecond ts mod 1000 = 0 ->
    ts_from_microsecond (ts_as_microsecond ts) = Some ts;
  (* a BigDecimal is its unscaled integer and its exponent *)
  bd_by_parts a b : bd_parts a = bd_parts b -> a = b;
  (* plain decimal notation: sign, digits, point, digits *)
  bd_from_str_plain (neg : bool) ip fp :
    digits_ok ip = true -> ip <> EmptyString -> digits_ok fp = true ->
    exists d,
      bd_from_str ((if neg then "-" else "") +:+ ip +:+
                   (if decide (fp = EmptyString) then "" else "." +:+ fp)) = Some d /\
      bd_parts d = ((if neg then -1 else 1) * digits_val 0 (ip +:+ fp),
                    Z.of_nat (String.length fp));
  (* with_scale(0) of a value with a negative scale appends zeros *)
  bd_with_scale_0_parts d :
    (bd_parts d).2 < 0 ->
    bd_parts (bd_with_scale_0 d) = ((bd_parts d).1 * 10 ^ (- (bd_parts d).2), 0);
  (* equality is equality of values: a * 10^-x = b * 10^-y *)
  bd_eqb_value a b :
    bd_eqb a b = true <->
    (bd_parts a).1 * 10 ^ (Z.max (bd_parts a).2 (bd_parts b).2 - (bd_parts a).2) =
    (bd_parts b).1 * 10 ^ (Z.max (bd_parts a).2 (bd_parts b).2 - (bd_parts b).2);
  (* equal values have one normal form *)
  bd_normalized_eq a b :
    bd_eqb a b = true -> bd_normalized_string a = bd_normalized_string b
}.

(** ** Floats: the bits of an IEEE-754 binary64 *)

Definition f64_is_nan (b : Z) : bool :=
  (Z.land b 9223372036854775807 >? 9218868437227405312).
Definition f64_is_zero (b : Z) : bool := (Z.land b 9223372036854775807 =? 0).

(** Rust's [==] on f64. *)
Definition f64_eqb (a b : Z) : bool :=
  negb (f64_is_nan a) && negb (f64_is_nan b) &&
  ((a =? b) || (f64_is_zero a && f64_is_zero b)).

(** ** Type errors *)

(** [pgtypes/src/error.rs:5-44] TypeError *)
Inductive TypeError : Type :=
| Overflow
| DivisionByZero
| InvalidText (type_name value : string)
| TypeMismatch (message : string)
| InvalidEscape
| CannotCast (from to : string)
| Domain (sqlstate message : string)
| InvalidDatetimeFormat (type_name value : string)
| DatetimeFieldOverflow (value : string).

#[export] Instance TypeError_eq_dec : EqDecision TypeError.
Proof. solve_decision. Defined.

Definition dquote : string := String (Ascii.ascii_of_N 34) EmptyString.

(** The Display that the [#[error(..)]] attributes of TypeError derive. *)
Definition type_error_display (e : TypeError) : string :=
  match e with
  | Overflow => "integer out of range"
  | DivisionByZero => "division by zero"
  | InvalidText t v | InvalidDatetimeFormat t v =>
      "invalid input syntax for type " +:+ t +:+ ": " +:+ dquote +:+ v +:+ dquote
  | TypeMismatch m => m
  | InvalidEscape => "LIKE pattern must not end with escape character"
  | CannotCast f t => "cannot cast type " +:+ f +:+ " to " +:+ t
  | Domain _ m => m
  | DatetimeFieldOverflow v =>
      "date/time field value out of range: " +:+ dquote +:+ v +:+ dquote
  end.

(** [pgtypes/src/error.rs:48-60] TypeError::sqlstate *)
Definition sqlstate (e : TypeError) : string :=
  match e with
  | Overflow => "22003"
  | DivisionByZero => "22012"
  | InvalidText _ _ => "22P02"
  | TypeMismatch _ => "42804"
  | InvalidEscape => "22025"
  | CannotCast _ _ => "42846"
  | Domain s _ => s
  | InvalidDatetimeFormat _ _ => "22007"
  | DatetimeFieldOverflow _ => "22008"
  end.

(** ** Column types *)

(** [pgtypes/src/numeric.rs:35-38] Typmod *)
Record Typmod : Type := mkTypmod { precision : Z; scale : Z }.

#[export] Instance Typmod_eq_dec : EqDecision Typmod.
Proof. solve_decision. Defined.

(** [pgtypes/src/datum.rs:35-57] ColumnType *)
Inductive ColumnType : Type :=
| TBool | TInt4 | TInt8 | TText | TFloat8
| TNumeric (tm : option Typmod)
| TDate | TTime | TTimestamp | TTimestamptz | TInterval | TBytea.

#[export] Instance ColumnType_eq_dec : EqDecision ColumnType.
Proof. solve_decision. Defined.

(** [str::to_ascii_lowercase] *)
Definition ascii_lower (c : Ascii.ascii) : Ascii.ascii :=
  if in_range 65 90 (byte_of_ascii c) then ascii_of_byte (byte_of_ascii c + 32) else c.
Fixpoint to_ascii_lowercase (s : string) : string :=
  match s with
  | EmptyString => EmptyString
  | String c s => String (ascii_lower c) (to_ascii_lowercase s)
  end.

(** [str::eq_ignore_ascii_case] *)
Definition eq_ignore_ascii_case (a b : string) : bool :=
  String.eqb (to_ascii_lowercase a) (to_ascii_lowercase b).

(** [str] membership in a list of literals, for a match with or-patterns. *)
Definition one_of (s : string) (l : list string) : bool := bool_decide (s ∈ l).

(** [pgtypes/src/datum.rs:62-84] ColumnType::from_sql_name *)
Definition from_sql_name (name : string) : option ColumnType :=
  let n := to_ascii_lowercase name in
  if one_of n ["int4"; "integer"; "int"] then Some TInt4
  else if one_of n ["int8"; "bigint"] then Some TInt8
  else if one_of n ["text"] then Some TText
  else if one_of n ["bool"; "boolean"] then Some TBool
  else if one_of n ["float8"; "float"; "double precision"] then Some TFloat8
  else if one_of n ["numeric"; "decimal"] then Some (TNumeric None)
  else if one_of n ["date"] then Some TDate
  else if one_of n ["time"; "time without time zone"] then Some TTime
  else if one_of n ["timestamp"; "timestamp without time zone"] then Some TTimestamp
  else if one_of n ["timestamptz"; "timestamp with time zone"] then Some TTimestamptz
  else if one_of n ["interval"] then Some TInterval
  else if one_of n ["bytea"] then Some TBytea
  else None.

(** [pgtypes/src/datum.rs:86-101] ColumnType::oid *)
Definition oid (t : ColumnType) : Z :=
  match t with
  | TBool => 16 | TInt8 => 20 | TInt4 => 23 | TText => 25 | TFloat8 => 701
  | TNumeric _ => 1700 | TDate => 1082 | TTime => 1083 | TTimestamp => 1114
  | TTimestamptz => 1184 | TInterval => 1186 | TBytea => 17
  end.

(** [pgtypes/src/datum.rs:104-119] ColumnType::name *)
Definition type_name (t : ColumnType) : string :=
  match t with
  | TBool => "boolean" | TInt8 => "bigint" | TInt4 => "integer" | TText => "text"
  | TFloat8 => "double precision" | TNumeric _ => "numeric" | TDate => "date"
  | TTime => "time without time zone"
  | TTimestamp => "timestamp without time zone"
  | TTimestamptz => "timestamp with time zone"
  | TInterval => "interval" | TBytea => "bytea"
  end.

(** [pgtypes/src/datum.rs:122-137] ColumnType::type_size *)
Definition type_size (t : ColumnType) : Z :=
  match t with
  | TBool => 1 | TInt8 => 8 | TInt4 => 4 | TText => -1 | TFloat8 => 8
  | TNumeric _ => -1 | TDate => 4 | TTime => 8 | TTimestamp => 8
  | TTimestamptz => 8 | TInterval => 16 | TBytea => -1
  end.

(** [pgtypes/src/datum.rs:141-143] ColumnType::is_numeric *)
Definition is_numeric (t : ColumnType) : bool :=
  match t with TNumeric _ => true | _ => false end.

(** ** Intervals *)

(** [pgtypes/src/datetime.rs:254-258] Interval *)
Record Interval : Type := mkInterval { months : Z; days : Z; micros : Z }.

Definition USECS_PER_DAY : Z := 86400000000.

(** [pgtypes/src/datetime.rs:265-268] Interval::canonical_micros: the i128
    never overflows. *)
Definition canonical_micros (iv : Interval) : Z :=
  (months iv * 30 + days iv) * USECS_PER_DAY + micros iv.

(** [pgtypes/src/datetime.rs:272-274] Interval::eq *)
Definition interval_eqb (a b : Interval) : bool :=
  canonical_micros a =? canonical_micros b.

(** [pgtypes/src/datetime.rs:288-290] Interval::cmp *)
Definition interval_cmp (a b : Interval) : comparison :=
  canonical_micros a ?= canonical_micros b.

Definition interval_ok (iv : Interval) : Prop :=
  i32_ok (months iv) /\ i32_ok (days iv) /\ i64_ok (micros iv).

(** ** Datums *)

Section Datum.
Context `{Ext}.

(** [pgtypes/src/datum.rs:159-181] Datum: [Float8] holds the bits of the f64. *)
Inductive Datum : Type :=
| DNull
| DBool (b : bool)
| DInt4 (n : Z)
| DInt8 (n : Z)
| DText (s : string)
| DFloat8 (bits : Z)
| DNumeric (d : BigDecimal)
| DDate (d : Date)
| DTime (t : Time)
| DTimestamp (ts : DateTime)
| DTimestamptz (ts : Timestamp)
| DInterval (iv : Interval)
| DBytea (b : bytes).

(** [pgtypes/src/datum.rs:184-209] Datum::eq: the grouping equality of GROUP BY,
    DISTINCT and the set operations. *)
Definition datum_eqb (x y : Datum) : bool :=
  match x, y with
  | DNull, DNull => true
  | DBool a, DBool b => Bool.eqb a b
  | DInt4 a, DInt4 b => a =? b
  | DInt8 a, DInt8 b => a =? b
  | DText a, DText b => bool_decide (a = b)
  | DFloat8 a, DFloat8 b => f64_eqb a b || (f64_is_nan a && f64_is_nan b)
  | DNumeric a, DNumeric b => bd_eqb a b
  | DDate a, DDate b => bool_decide (a = b)
  | DTime a, DTime b => bool_decide (a = b)
  | DTimestamp a, DTimestamp b => bool_decide (a = b)
  | DTimestamptz a, DTimestamptz b => bool_decide (a = b)
  | DInterval a, DInterval b => interval_eqb a b
  | DBytea a, DBytea b => bool_decide (a = b)
  | _, _ => false
  end.

(** What a datum feeds to a hasher, in order, after its discriminant. *)
Inductive HashInput : Type :=
| HNothing
| HBool (b : bool) | HI32 (n : Z) | HI64 (n : Z) | HStr (s : string)
| HU64 (n : Z) | HI128 (n : Z) | HDate (d : Date) | HTime (t : Time)
| HDateTime (t : DateTime) | HTimestamp (t : Timestamp) | HBytes (b : bytes).

(** [core::mem::discriminant] *)
Definition discriminant (x : Datum) : Z :=
  match x with
  | DNull => 0 | DBool _ => 1 | DInt4 _ => 2 | DInt8 _ => 3 | DText _ => 4
  | DFloat8 _ => 5 | DNumeric _ => 6 | DDate _ => 7 | DTime _ => 8
  | DTimestamp _ => 9 | DTimestamptz _ => 10 | DInterval _ => 11 | DBytea _ => 12
  end.

(** [pgtypes/src/datum.rs:217-252] Datum::hash *)
Definition datum_hash (x : Datum) : Z * HashInput :=
  (discriminant x,
   match x with
   | DNull => HNothing
   | DBool b => HBool b
   | DInt4 n => HI32 n
   | DInt8 n => HI64 n
   | DText s => HStr s
   | DFloat8 f =>
       HU64 (if f64_is_nan f then 9221120237041090560
             else if f64_is_zero f then 0 else f)
   | DNumeric d => HStr (bd_normalized_string d)
   | DDate d => HDate d
   | DTime t => HTime t
   | DTimestamp t => HDateTime t
   | DTimestamptz t => HTimestamp t
   | DInterval i => HI128 (canonical_micros i)
   | DBytea b => HBytes b
   end).

(** [pgtypes/src/datum.rs:257-274] Datum::column_type *)
Definition column_type (x : Datum) : option ColumnType :=
  match x with
  | DNull => None
  | DBool _ => Some TBool
  | DInt4 _ => Some TInt4
  | DInt8 _ => Some TInt8
  | DText _ => Some TText
  | DFloat8 _ => Some TFloat8
  | DNumeric _ => Some (TNumeric None)
  | DDate _ => Some TDate
  | DTime _ => Some TTime
  | DTimestamp _ => Some TTimestamp
  | DTimestamptz _ => Some TTimestamptz
  | DInterval _ => Some TInterval
  | DBytea _ => Some TBytea
  end.

End Datum.

(** ** The grouping equality *)

Section DatumEq.
Context `{ExtLaws}.

Lemma pow10_pos n : 0 <= n -> 0 < 10 ^ n.
Proof. intros. apply Z.pow_pos_nonneg; lia. Qed.

(** Decimal equality can be read at any common scale. *)
Lemma bd_eqb_at_scale a b M :
  (bd_parts a).2 <= M -> (bd_parts b).2 <= M ->
  bd_eqb a b = true <->
  (bd_parts a).1 * 10 ^ (M - (bd_parts a).2) = (bd_parts b).1 * 10 ^ (M - (bd_parts b).2).
Proof.
  intros Ha Hb. rewrite bd_eqb_value.
  set (m := Z.max _ _). assert (m <= M) by lia.
  replace (M - (bd_parts a).2) with ((m - (bd_parts a).2) + (M - m)) by lia.
  replace (M - (bd_parts b).2) with ((m - (bd_parts b).2) + (M - m)) by lia.
  rewrite !Z.pow_add_r by lia. rewrite !Z.mul_assoc.
  assert (10 ^ (M - m) <> 0) by (pose proof (pow10_pos (M - m)); lia).
  by rewrite Z.mul_cancel_r.
Qed.

Lemma bd_eqb_refl a : bd_eqb a a = true.
Proof. by apply (bd_eqb_at_scale a a (bd_parts a).2). Qed.

Lemma bd_eqb_sym a b : bd_eqb a b = true -> bd_eqb b a = true.
Proof. rewrite !bd_eqb_value. rewrite (Z.max_comm (bd_parts b).2). by intros ->. Qed.

Lemma bd_eqb_trans a b c : bd_eqb a b = true -> bd_eqb b c = true -> bd_eqb a c = true.
Proof.
  set (M := Z.max (bd_parts a).2 (Z.max (bd_parts b).2 (bd_parts c).2)).
  rewrite (bd_eqb_at_scale a b M), (bd_eqb_at_scale b c M), (bd_eqb_at_scale a c M)
    by lia. congruence.
Qed.

Lemma f64_group_eqb_spec a b :
  f64_eqb a b || (f64_is_nan a && f64_is_nan b) = true <->
  (if f64_is_nan a then 9221120237041090560
   else if f64_is_zero a then 0 else a) =
  (if f64_is_nan b then 9221120237041090560
   else if f64_is_zero b then 0 else b).
Proof.
  assert (f64_is_nan 9221120237041090560 = true) as Hn by reflexivity.
  assert (f64_is_zero 9221120237041090560 = false) as Hz by reflexivity.
  assert (f64_is_nan 0 = false) as Hn0 by reflexivity.
  assert (f64_is_zero 0 = true) as Hz0 by reflexivity.
  unfold f64_eqb.
  destruct (f64_is_nan a) eqn:Na, (f64_is_nan b) eqn:Nb; simpl;
    destruct (f64_is_zero a) eqn:Za, (f64_is_zero b) eqn:Zb;
    rewrite ?orb_true_r, ?orb_false_r, ?andb_false_r; simpl;
    rewrite ?Z.eqb_eq; split; intros E; try done; subst; congruence.
Qed.

(** Every variant but [DNumeric] is compared through what it feeds the hasher. *)
Lemma datum_eqb_hash x y :
  datum_eqb x y = true <->
  match x, y with
  | DNumeric a, DNumeric b => bd_eqb a b = true
  | DNumeric _, _ | _, DNumeric _ => False
  | _, _ => datum_hash x = datum_hash y
  end.
Proof.
  destruct x, y; try (split; [done | intros E; by inversion E]);
    unfold datum_hash; simpl; try done;
    rewrite ?Z.eqb_eq, ?bool_decide_eq_true, ?eqb_true_iff, ?f64_group_eqb_spec;
    unfold interval_eqb; rewrite ?Z.eqb_eq; split; congruence.
Qed.

Lemma datum_eqb_refl x : datum_eqb x x = true.
Proof. apply datum_eqb_hash. destruct x; auto using bd_eqb_refl. Qed.

Lemma datum_eqb_sym x y : datum_eqb x y = true -> datum_eqb y x = true.
Proof. rewrite !datum_eqb_hash. destruct x, y; auto using bd_eqb_sym. Qed.

Lemma datum_eqb_trans x y z :
  datum_eqb x y = true -> datum_eqb y z = true -> datum_eqb x z = true.
Proof.
  rewrite !datum_eqb_hash.
  destruct x, y, z; try done; try congruence; eauto using bd_eqb_trans.
Qed.

(** C30: The grouping equality of SQL values is an equivalence relation (NaN
    equals itself, both zeros are one value, [1.0] and [1.00] are one numeric),
    and equal values feed the hasher the same input, so the hash maps that
    group, deduplicate and count rows by it are sound. *)
Theorem datum_eq_equivalence_and_hash :
  (forall x, datum_eqb x x = true) /\
  (forall x y, datum_eqb x y = true -> datum_eqb y x = true) /\
  (forall x y z, datum_eqb x y = true -> datum_eqb y z = true -> datum_eqb x z = true) /\
  (forall x y, datum_eqb x y = true -> datum_hash x = datum_hash y).
Proof.
  split_and!; eauto using datum_eqb_refl, datum_eqb_sym, datum_eqb_trans.
  intros x y. rewrite datum_eqb_hash. destruct x, y; try done.
  intros E. unfold datum_hash; simpl. by rewrite (bd_normalized_eq _ _ E).
Qed.

End DatumEq.
