(* ===== verification/Float.v ===== *)
(** * IEEE-754 binary64 arithmetic

    A Rust [f64] is its 64 bits. The arithmetic is that of the standard
    library's [SpecFloat] (round to nearest, ties to even), reached through the
    conversions below; NaN results are the canonical quiet NaN, whose payload
    Rust leaves open. Also the float parsing and printing of [core]. *)
From Stdlib Require Import ZArith Lia Ascii SpecFloat.
From stdpp Require Import base list gmap strings.
From S2P Require Import Prelude Text Datum.
Open Scope Z_scope.

(** ** Bits and values *)

Definition f64_prec : Z := 53.
Definition f64_emax : Z := 1024.

Definition F64_NAN : Z := 9221120237041090560.
Definition F64_INFINITY : Z := 9218868437227405312.
Definition f64_sign (b : Z) : bool := Z.testbit b 63.
Definition f64_abs (b : Z) : Z := Z.land b 9223372036854775807.

Definition f64_val (b : Z) : spec_float :=
  let s := f64_sign b in
  let e := Z.land (Z.shiftr b 52) 2047 in
  let m := Z.land b 4503599627370495 in
  if e =? 0 then
    match m with Zpos p => S754_finite s p (-1074) | _ => S754_zero s end
  else if e =? 2047 then
    if m =? 0 then S754_infinity s else S754_nan
  else
    match m + 4503599627370496 with Zpos p => S754_finite s p (e - 1075) | _ => S754_nan end.

Definition sign_bit (s : bool) : Z := if s then 9223372036854775808 else 0.

Definition f64_bits (x : spec_float) : Z :=
  match x with
  | S754_zero s => sign_bit s
  | S754_infinity s => sign_bit s + F64_INFINITY
  | S754_nan => F64_NAN
  | S754_finite s m e =>
      sign_bit s +
      (if Zpos m <? 4503599627370496 then Zpos m
       else (e + 1075) * 4503599627370496 + (Zpos m - 4503599627370496))
  end.

Definition f64_is_infinite (b : Z) : bool := f64_abs b =? F64_INFINITY.
Definition f64_is_finite (b : Z) : bool := f64_abs b <? F64_INFINITY.

(** ** Operations *)

Definition f64_op2 (f : spec_float -> spec_float -> spec_float) (x y : Z) : Z :=
  f64_bits (f (f64_val x) (f64_val y)).
Definition f64_add : Z -> Z -> Z := f64_op2 (SFadd f64_prec f64_emax).
Definition f64_sub : Z -> Z -> Z := f64_op2 (SFsub f64_prec f64_emax).
Definition f64_mul : Z -> Z -> Z := f64_op2 (SFmul f64_prec f64_emax).
Definition f64_div : Z -> Z -> Z := f64_op2 (SFdiv f64_prec f64_emax).

(** An integer, or an integer times a power of two, rounded to the nearest. *)
Definition f64_round (m e : Z) (negative_zero : bool) : Z :=
  f64_bits (binary_normalize f64_prec f64_emax m e negative_zero).
Definition f64_of_Z (n : Z) : Z := f64_round n 0 false.

(** The order of numbers is that of sign and magnitude; both zeros are zero. *)
Definition f64_key (b : Z) : Z := if f64_sign b then - f64_abs b else f64_abs b.

(** [f64::partial_cmp] *)
Definition f64_partial_cmp (x y : Z) : option comparison :=
  if f64_is_nan x || f64_is_nan y then None else Some (Z.compare (f64_key x) (f64_key y)).

Definition f64_ltb (x y : Z) : bool := bool_decide (f64_partial_cmp x y = Some Lt).
Definition f64_leb (x y : Z) : bool :=
  bool_decide (f64_partial_cmp x y = Some Lt \/ f64_partial_cmp x y = Some Eq).

(** The integers next to a magnitude [m * 2^e]: the one below, and whether the
    rest is zero, below, at or above one half. *)
Definition split_int (m e : Z) : Z * comparison * bool :=
  if 0 <=? e then (m * 2 ^ e, Lt, true)
  else
    let d := 2 ^ (- e) in
    (m / d, Z.compare (2 * (m mod d)) d, m mod d =? 0).

(** Rounding to an integer by a rule on the integer below and the rest. *)
Definition f64_to_int_with (rule : Z -> comparison -> bool -> Z) (b : Z) : Z :=
  match f64_val b with
  | S754_finite s m e =>
      let '(q, half, exact) := split_int (Zpos m) e in
      let n := rule q half exact in
      f64_round (if s then - n else n) 0 s
  | _ => b
  end.

(** [f64::trunc], [round] (half away from zero), [round_ties_even], [floor], [ceil] *)
Definition f64_trunc : Z -> Z := f64_to_int_with (fun q _ _ => q).
Definition f64_round_half_up : Z -> Z :=
  f64_to_int_with (fun q half _ => match half with Lt => q | _ => q + 1 end).
Definition f64_round_ties_even : Z -> Z :=
  f64_to_int_with (fun q half _ =>
    match half with Lt => q | Gt => q + 1 | Eq => if Z.even q then q else q + 1 end).

(** [f64::fract] *)
Definition f64_fract (b : Z) : Z := f64_sub b (f64_trunc b).

(** The whole part of a finite float, as an integer. *)
Definition f64_whole (b : Z) : option Z :=
  match f64_val b with
  | S754_zero _ => Some 0
  | S754_finite s m e => let '(q, _, _) := split_int (Zpos m) e in Some (if s then - q else q)
  | _ => None
  end.

(** [as] from a float to an integer type: towards zero, saturating, NaN to zero. *)
Definition f64_as_int (lo hi : Z) (b : Z) : Z :=
  match f64_whole b with
  | Some n => Z.max lo (Z.min hi n)
  | None => if f64_is_nan b then 0 else if f64_sign b then lo else hi
  end.
Definition f64_as_i64 : Z -> Z := f64_as_int (-9223372036854775808) 9223372036854775807.
Definition f64_as_i32 : Z -> Z := f64_as_int (-2147483648) 2147483647.
Definition f64_as_i128 : Z -> Z := f64_as_int (- 2 ^ 127) (2 ^ 127 - 1).

(** ** Decimal text *)

(** The float nearest to [m * 10^e]. *)
Definition f64_of_decimal (negative : bool) (m e : Z) : Z :=
  match m with
  | Zpos p =>
      if 0 <=? e then f64_round (if negative then - (m * 10 ^ e) else m * 10 ^ e) 0 negative
      else
        match 10 ^ (- e) with
        | Zpos d =>
            f64_bits (SFdiv f64_prec f64_emax (S754_finite negative p 0) (S754_finite false d 0))
        | _ => F64_NAN
        end
  | _ => sign_bit negative
  end.

(** The digits of a text, and the rest. *)
Fixpoint take_digits (s : string) : string * string :=
  match s with
  | String c s' => if is_digit c then let '(a, b) := take_digits s' in (String c a, b) else ("", s)
  | EmptyString => ("", "")
  end.

Definition strip_sign (s : string) : bool * string :=
  match s with
  | String "-"%char s' => (true, s')
  | String "+"%char s' => (false, s')
  | _ => (false, s)
  end.

(** [str::parse::<f64>]: a sign, then [inf], [infinity] or [nan] in any case, or
    digits with an optional fraction and an optional exponent. *)
Definition f64_parse (s : string) : option Z :=
  let '(neg, body) := strip_sign s in
  let lower := to_ascii_lowercase body in
  if one_of lower ["inf"; "infinity"] then Some (sign_bit neg + F64_INFINITY)
  else if one_of lower ["nan"] then Some (sign_bit neg + F64_NAN)
  else
    let '(ip, r) := take_digits body in
    let '(fp, r, point) :=
      match r with
      | String "."%char r => let '(f, r) := take_digits r in (f, r, true)
      | _ => ("", r, false)
      end in
    if bool_decide (ip = "" /\ fp = "") then None
    else
      let m := digits_val 0 (ip +:+ fp) in
      let scale := Z.of_nat (String.length fp) in
      match r with
      | EmptyString => Some (f64_of_decimal neg m (- scale))
      | String c r =>
          if bool_decide (c = "e"%char \/ c = "E"%char) then
            let '(eneg, ed) := strip_sign r in
            if digits_ok ed && negb (bool_decide (ed = "")) then
              let e := digits_val 0 ed in
              Some (f64_of_decimal neg m ((if eneg then - e else e) - scale))
            else None
          else None
      end.

(** ** Shortest decimal text *)

(** The decimal exponent of the first digit: [10^k <= num/den < 10^(k+1)]. *)
Fixpoint dec_exp (fuel : nat) (k num den : Z) : Z :=
  match fuel with
  | O => k
  | S fuel =>
      if num <? den then dec_exp fuel (k - 1) (num * 10) den
      else if 10 * den <=? num then dec_exp fuel (k + 1) num (den * 10)
      else k
  end.

(** The two neighbours of a magnitude among the numbers with [p] digits, as
    digits and an exponent, the nearer first. *)
Definition dec_neighbours (p k num den : Z) : list (Z * Z) :=
  let e := k - p + 1 in
  let n := if 0 <=? e then num else num * 10 ^ (- e) in
  let d := if 0 <=? e then den * 10 ^ e else den in
  let q := n / d in
  if 2 * (n mod d) <=? d then [(q, e); (q + 1, e)] else [(q + 1, e); (q, e)].

(** The first precision, from one digit on, at which a neighbour reads back. *)
Fixpoint shortest (fuel : nat) (p k num den b : Z) : Z * Z :=
  match fuel with
  | O => (num, 0)
  | S fuel =>
      match filter (fun '(m, e) => f64_of_decimal false m e = b) (dec_neighbours p k num den) with
      | c :: _ => c
      | [] => shortest fuel (p + 1) k num den b
      end
  end.

(** Trailing zeros move to the exponent. *)
Fixpoint drop_zeros (fuel : nat) (m e : Z) : Z * Z :=
  match fuel with
  | O => (m, e)
  | S fuel => if m mod 10 =? 0 then drop_zeros fuel (m / 10) (e + 1) else (m, e)
  end.

Definition str_zeros (n : Z) : string := str_repeat (Z.to_nat n) "0"%char.

(** [{f}] of a finite float: the shortest digits that read back, in full. *)
Definition f64_display (b : Z) : string :=
  let sgn := if f64_sign b then "-" else "" in
  match f64_val b with
  | S754_finite _ m e =>
      let num := if 0 <=? e then Zpos m * 2 ^ e else Zpos m in
      let den := if 0 <=? e then 1 else 2 ^ (- e) in
      let k := dec_exp 700 0 num den in
      let '(q, x) := shortest 17 1 k num den (f64_abs b) in
      let '(q, x) := drop_zeros 17 q x in
      let digits := z_to_string q in
      let len := Z.of_nat (String.length digits) in
      sgn +:+
      (if 0 <=? x then digits +:+ str_zeros x
       else if - x <? len then
         str_take (Z.to_nat (len + x)) digits +:+ "." +:+ str_drop (Z.to_nat (len + x)) digits
       else "0." +:+ str_zeros (- x - len) +:+ digits)
  | _ => sgn +:+ "0"
  end.

(** ** Integers in binary64

    An integer of at most 53 bits is exact as a float: it reads back from its
    bits, is its own whole part, and has no fraction. *)
Lemma digits2_bounds p : 2 ^ (Zpos (digits2_pos p) - 1) <= Zpos p < 2 ^ Zpos (digits2_pos p).
Proof.
  induction p as [p IH|p IH|]; cbn [digits2_pos]; [| |lia].
  all: rewrite Pos2Z.inj_succ; replace (Z.succ (Zpos (digits2_pos p)) - 1)
    with (Z.succ (Zpos (digits2_pos p) - 1)) by lia;
    rewrite !Z.pow_succ_r by lia; lia.
Qed.

Lemma digits2_unique p d : 0 < d -> 2 ^ (d - 1) <= Zpos p < 2 ^ d -> Zpos (digits2_pos p) = d.
Proof.
  intros Hd Hp. pose proof (digits2_bounds p) as Hb. set (k := Zpos (digits2_pos p)) in *.
  assert (0 < k) by lia.
  assert (k - 1 < d) by (apply (Z.pow_lt_mono_r_iff 2); lia).
  assert (d - 1 < k) by (apply (Z.pow_lt_mono_r_iff 2); lia). lia.
Qed.

Lemma iter_xO m d : Zpos (Pos.iter xO m d) = Zpos m * 2 ^ Zpos d.
Proof.
  induction d as [|d IH] using Pos.peano_ind; [simpl; lia|].
  rewrite Pos.iter_succ, Pos2Z.inj_succ, Z.pow_succ_r by lia. lia.
Qed.

(** A normal mantissa and exponent, as they stand in the bits. *)
Definition normal (m : positive) (e : Z) : Prop :=
  2 ^ 52 <= Zpos m < 2 ^ 53 /\ -1074 <= e <= 971.

Lemma fexp_normal m e : normal m e -> fexp f64_prec f64_emax (Zpos (digits2_pos m) + e) = e.
Proof.
  intros [Hm He]. rewrite (digits2_unique m 53) by lia.
  unfold fexp, SpecFloat.emin, f64_prec, f64_emax. lia.
Qed.

Lemma round_aux_normal s m e :
  normal m e -> binary_round_aux f64_prec f64_emax s (Zpos m) e loc_Exact = S754_finite s m e.
Proof.
  intros Hn. pose proof (fexp_normal m e Hn) as Hf.
  assert (shr_fexp f64_prec f64_emax (Zpos m) e loc_Exact =
    (shr_record_of_loc (Zpos m) loc_Exact, e)) as E.
  { unfold shr_fexp. cbn [Zdigits2]. by rewrite Hf, Z.sub_diag. }
  unfold binary_round_aux. rewrite E. cbn [shr_record_of_loc loc_of_shr_record shr_m
    round_nearest_even]. rewrite E. cbn [shr_record_of_loc shr_m].
  destruct Hn. by replace (e <=? f64_emax - f64_prec) with true
    by (unfold f64_emax, f64_prec; lia).
Qed.

(** Every integer of at most 53 bits has a normal form. *)
Lemma round_exact s p :
  Zpos p < 2 ^ 53 ->
  exists m e, normal m e /\ e <= 0 /\ Zpos m = Zpos p * 2 ^ (- e) /\
    binary_round f64_prec f64_emax s p 0 = S754_finite s m e.
Proof.
  intros Hp. pose proof (digits2_bounds p) as Hb.
  set (d := Zpos (digits2_pos p)) in *. assert (0 < d) by lia.
  assert (d - 1 < 53) by (apply (Z.pow_lt_mono_r_iff 2); lia).
  destruct (ex_intro (fun e => e = d - 53) _ eq_refl) as [e He].
  assert (exists m, normal m e /\ Zpos m = Zpos p * 2 ^ (- e) /\
    shl_align p 0 (fexp f64_prec f64_emax (d + 0)) = (m, e)) as (m & Hn & Hm & E).
  { assert (2 ^ 52 <= Zpos p * 2 ^ (- e) < 2 ^ 53).
    { replace (2 ^ 52) with (2 ^ (d - 1) * 2 ^ (- e)) by (rewrite <- Z.pow_add_r by lia; f_equal; lia).
      replace (2 ^ 53) with (2 ^ d * 2 ^ (- e)) by (rewrite <- Z.pow_add_r by lia; f_equal; lia).
      assert (0 < 2 ^ (- e)) by (apply Z.pow_pos_nonneg; lia). nia. }
    replace (fexp _ _ _) with e by (unfold fexp, SpecFloat.emin, f64_prec, f64_emax; lia).
    unfold shl_align. rewrite Z.sub_0_r. destruct e as [|q|q] eqn:Ee; [|lia|].
    - exists p. rewrite Z.mul_1_r in *. split_and!; try done; unfold normal; lia.
    - exists (Pos.iter xO p q). rewrite iter_xO. split_and!; try done.
      unfold normal. rewrite iter_xO. change (- Z.neg q) with (Zpos q) in *. split; [done|lia]. }
  exists m, e. split_and!; [done|lia|done|].
  unfold binary_round. fold d. rewrite E. by apply round_aux_normal.
Qed.

(** A normal float reads back from its bits. *)
Lemma f64_val_bits s m e : normal m e -> f64_val (f64_bits (S754_finite s m e)) = S754_finite s m e.
Proof.
  intros [Hm He]. cbn [f64_bits]. destruct (Z.ltb_spec (Zpos m) 4503599627370496) as [|_]; [lia|].
  set (b := sign_bit s + _). unfold f64_val, f64_sign.
  assert (b = (if s then 1 else 0) * 2 ^ 63 + (e + 1075) * 2 ^ 52 + (Zpos m - 2 ^ 52)) as Eb
    by (unfold b, sign_bit; destruct s; lia).
  change 4503599627370495 with (Z.ones 52). change 2047 with (Z.ones 11).
  rewrite !Z.land_ones, Z.testbit_odd, !Z.shiftr_div_pow2 by lia.
  assert (b / 2 ^ 63 = if s then 1 else 0) as ->.
  { symmetry. apply (Z.div_unique_pos _ _ _ ((e + 1075) * 2 ^ 52 + (Zpos m - 2 ^ 52)));
      destruct s; lia. }
  assert (b mod 2 ^ 52 = Zpos m - 2 ^ 52) as ->.
  { symmetry. apply (Z.mod_unique_pos _ _ ((if s then 1 else 0) * 2 ^ 11 + (e + 1075)));
      destruct s; lia. }
  assert (b / 2 ^ 52 = (if s then 1 else 0) * 2 ^ 11 + (e + 1075)) as ->.
  { symmetry. apply (Z.div_unique_pos _ _ _ (Zpos m - 2 ^ 52)); destruct s; lia. }
  rewrite Z.add_comm, Z.mod_add, Z.mod_small by lia. change (Z.ones 11) with 2047.
  destruct (Z.eqb_spec (e + 1075) 0); [lia|]. destruct (Z.eqb_spec (e + 1075) 2047); [lia|].
  replace (Zpos m - 2 ^ 52 + 4503599627370496) with (Zpos m) by lia.
  replace (e + 1075 - 1075) with e by lia. by destruct s.
Qed.

(** ** Exact integers *)

Definition exact_int (n : Z) : Prop := Z.abs n < 2 ^ 53.

Lemma f64_round_pos (s : bool) p sz :
  f64_round (if s then Zneg p else Zpos p) 0 sz = f64_bits (binary_round f64_prec f64_emax s p 0).
Proof. by destruct s. Qed.

(** What a nonzero integer's float is. *)
Lemma f64_of_Z_val (s : bool) p :
  exact_int (Zpos p) ->
  exists m e, normal m e /\ e <= 0 /\ Zpos m = Zpos p * 2 ^ (- e) /\
    f64_val (f64_of_Z (if s then Zneg p else Zpos p)) = S754_finite s m e.
Proof.
  intros Hp. destruct (round_exact s p) as (m & e & Hn & He & Hm & E); [unfold exact_int in Hp; lia|].
  exists m, e. split_and!; try done.
  unfold f64_of_Z. rewrite f64_round_pos, E. by apply f64_val_bits.
Qed.

Lemma split_int_exact m e p :
  e <= 0 -> Zpos m = Zpos p * 2 ^ (- e) ->
  split_int (Zpos m) e = (Zpos p, Lt, true).
Proof.
  intros He Hm. unfold split_int. destruct (Z.leb_spec 0 e) as [H0|H0].
  - assert (e = 0) as -> by lia. change (2 ^ (- 0)) with 1 in Hm. change (2 ^ 0) with 1.
    do 2 f_equal. lia.
  - assert (0 < 2 ^ (- e)) by (apply Z.pow_pos_nonneg; lia).
    rewrite Hm, Z.div_mul, Z.mod_mul by lia. do 2 f_equal. by apply Z.compare_lt_iff.
Qed.

Lemma Z_sign_cases (P : Z -> Prop) :
  P 0 -> (forall (s : bool) p, P (if s then Zneg p else Zpos p)) -> forall n, P n.
Proof. intros H0 Hs [|p|p]; [done|apply (Hs false)|apply (Hs true)]. Qed.

Lemma exact_int_sign (s : bool) p : exact_int (if s then Zneg p else Zpos p) -> exact_int (Zpos p).
Proof. by destruct s. Qed.

Lemma f64_whole_of_Z n : exact_int n -> f64_whole (f64_of_Z n) = Some n.
Proof.
  induction n as [|s p] using Z_sign_cases; intros Hn; [done|].
  destruct (f64_of_Z_val s p) as (m & e & _ & He & Hm & Hv); [by eapply exact_int_sign|].
  unfold f64_whole. rewrite Hv, (split_int_exact m e p) by done. by destruct s.
Qed.

Lemma f64_as_int_of_Z lo hi n : exact_int n -> lo <= n <= hi -> f64_as_int lo hi (f64_of_Z n) = n.
Proof. intros Hn ?. unfold f64_as_int. rewrite f64_whole_of_Z by done. lia. Qed.

(** Rounding an exact integer, by a rule that keeps whole numbers, is the identity. *)
Lemma f64_to_int_with_of_Z rule n :
  exact_int n -> (forall q, rule q Lt true = q) -> f64_to_int_with rule (f64_of_Z n) = f64_of_Z n.
Proof.
  intros Hn Hr. induction n as [|s p] using Z_sign_cases; [done|].
  destruct (f64_of_Z_val s p) as (m & e & _ & He & Hm & Hv); [by eapply exact_int_sign|].
  unfold f64_to_int_with. rewrite Hv, (split_int_exact m e p), Hr by done. by destruct s.
Qed.

Lemma f64_trunc_of_Z n : exact_int n -> f64_trunc (f64_of_Z n) = f64_of_Z n.
Proof. intros. by apply f64_to_int_with_of_Z. Qed.

Lemma f64_round_of_Z n : exact_int n -> f64_round_half_up (f64_of_Z n) = f64_of_Z n.
Proof. intros. by apply f64_to_int_with_of_Z. Qed.

(** It has no fraction: the difference with its whole part is positive zero. *)
Lemma f64_fract_of_Z n : exact_int n -> f64_fract (f64_of_Z n) = 0.
Proof.
  intros Hn. unfold f64_fract. rewrite f64_trunc_of_Z by done.
  induction n as [|s p] using Z_sign_cases; [done|].
  destruct (f64_of_Z_val s p) as (m & e & _ & _ & _ & Hv); [by eapply exact_int_sign|].
  unfold f64_sub, f64_op2. rewrite Hv. cbn [SFsub]. by rewrite Z.sub_diag.
Qed.

(** ** Reading an integer's text *)

Lemma take_digits_all s : digits_ok s = true -> take_digits s = (s, "").
Proof.
  induction s as [|c s IH]; [done|]. cbn [digits_ok take_digits].
  intros [-> Hs]%andb_true_iff. by rewrite IH.
Qed.

Lemma digit_cases c (P : Ascii.ascii -> Prop) :
  is_digit c = true -> (forall d, 0 <= d < 10 -> P (digit_char d)) -> P c.
Proof.
  unfold is_digit, in_range. intros Hc HP.
  replace c with (digit_char (byte_of_ascii c - 48)); [apply HP; lia|].
  unfold digit_char. replace (48 + (byte_of_ascii c - 48)) with (byte_of_ascii c) by lia.
  apply ascii_of_byte_of.
Qed.

(** Digits in front rule out a sign and the words of the special values. *)
Lemma digits_front s :
  digits_ok s = true -> s <> "" ->
  strip_sign s = (false, s) /\ one_of (to_ascii_lowercase s) ["inf"; "infinity"; "nan"] = false.
Proof.
  destruct s as [|c s]; [done|]. cbn [digits_ok]. intros [Hc _]%andb_true_iff _.
  revert Hc. destruct c as [[] [] [] [] [] [] [] []]; try (intros E; discriminate E);
    intros _; (split; [reflexivity|]); apply bool_decide_eq_false;
    cbn [to_ascii_lowercase]; rewrite !elem_of_cons, elem_of_nil;
    (intros [E|[E|[E|[]]]]; discriminate E).
Qed.

Lemma z_to_string_sign n :
  strip_sign (z_to_string n) = (n <? 0, dec_string (Z.abs n)).
Proof.
  unfold z_to_string. destruct (Z.ltb_spec n 0).
  - rewrite Z.abs_neq by lia. done.
  - rewrite Z.abs_eq by lia. apply digits_front; [apply dec_string_digits; lia|apply dec_string_nonempty].
Qed.

Lemma one_of_sub s l l' : (forall x, x ∈ l' -> x ∈ l) -> one_of s l = false -> one_of s l' = false.
Proof. unfold one_of. rewrite !bool_decide_eq_false. eauto. Qed.

(** The text of a nonzero integer reads back as that integer, rounded. *)
Lemma f64_parse_int n : n <> 0 -> f64_parse (z_to_string n) = Some (f64_of_Z n).
Proof.
  intros Hn. unfold f64_parse. rewrite z_to_string_sign.
  assert (digits_ok (dec_string (Z.abs n)) = true) as Hd by (apply dec_string_digits; lia).
  pose proof (dec_string_nonempty (Z.abs n)) as Hne.
  destruct (digits_front _ Hd Hne) as [_ Hw].
  rewrite (one_of_sub _ ["inf"; "infinity"; "nan"] ["inf"; "infinity"]) by (set_solver || done).
  rewrite (one_of_sub _ ["inf"; "infinity"; "nan"] ["nan"]) by (set_solver || done).
  rewrite take_digits_all by done. cbv iota beta. rewrite bool_decide_false by naive_solver.
  rewrite str_app_nil_r, dec_string_val by lia. cbn [String.length Z.of_nat Z.opp].
  f_equal. unfold f64_of_decimal, f64_of_Z. destruct n as [|p|p]; [done|..];
    cbn [Z.abs Z.leb Z.compare Z.ltb Z.pow]; rewrite Z.mul_1_r; done.
Qed.
