(* ===== verification/Chars.v ===== *)
(** * Characters and character strings

    Code points back to UTF-8, and the operations of [str] that work by
    character: case conversion by Unicode tables is a parameter, as are the
    floating-point functions of the platform's math library and the dashu
    arbitrary-precision floats. *)
From Stdlib Require Import ZArith Lia Ascii SpecFloat.
From stdpp Require Import base list gmap strings.
From S2P Require Import Prelude Text Datum Float.
Open Scope Z_scope.

(** [char::encode_utf8] *)
Definition encode_char (c : Z) : bytes :=
  if c <? 128 then [c]
  else if c <? 2048 then [192 + c / 64; 128 + c mod 64]
  else if c <? 65536 then [224 + c / 4096; 128 + c / 64 mod 64; 128 + c mod 64]
  else [240 + c / 262144; 128 + c / 4096 mod 64; 128 + c / 64 mod 64; 128 + c mod 64].

(** [iter().collect::<String>()] *)
Definition of_chars (l : list Z) : string := str_of_bytes (flat_map encode_char l).

(** [char::from_u32] *)
Definition char_ok (c : Z) : bool := in_range 0 55295 c || in_range 57344 1114111 c.

Lemma in_range_spec lo hi x : in_range lo hi x = true <-> lo <= x <= hi.
Proof. unfold in_range. lia. Qed.

Lemma char_ok_spec c : char_ok c = true <-> 0 <= c <= 55295 \/ 57344 <= c <= 1114111.
Proof. unfold char_ok. rewrite orb_true_iff, !in_range_spec. done. Qed.

(** A character reads back from its bytes. *)
Lemma decode_encode_char c b : char_ok c = true -> decode_utf8 (encode_char c ++ b) = c :: decode_utf8 b.
Proof.
  rewrite char_ok_spec. intros Hc. unfold encode_char.
  destruct (Z.ltb_spec c 128); [|destruct (Z.ltb_spec c 2048); [|destruct (Z.ltb_spec c 65536)]];
    cbn [app decode_utf8].
  - by rewrite (proj2 (Z.ltb_lt c 128)).
  - rewrite (proj2 (Z.ltb_ge _ 128)), (proj2 (Z.ltb_lt _ 224)) by (Z.div_mod_to_equations; lia).
    f_equal. Z.div_mod_to_equations; lia.
  - rewrite (proj2 (Z.ltb_ge _ 128)), (proj2 (Z.ltb_ge _ 224)), (proj2 (Z.ltb_lt _ 240))
      by (Z.div_mod_to_equations; lia).
    f_equal. Z.div_mod_to_equations; lia.
  - rewrite (proj2 (Z.ltb_ge _ 128)), (proj2 (Z.ltb_ge _ 224)), (proj2 (Z.ltb_ge _ 240))
      by (Z.div_mod_to_equations; lia).
    f_equal. Z.div_mod_to_equations; lia.
Qed.

Lemma encode_char_ok c : char_ok c = true -> bytes_ok (encode_char c).
Proof.
  rewrite char_ok_spec. intros Hc. unfold encode_char, bytes_ok, u8_ok.
  repeat case_match; repeat constructor; Z.div_mod_to_equations; lia.
Qed.

Lemma chars_of_chars l : forallb char_ok l = true -> chars (of_chars l) = l.
Proof.
  intros Hl. unfold chars, of_chars. rewrite str_bytes_str_of.
  - induction l as [|c l IH]; [done|]. cbn [forallb] in Hl. apply andb_prop in Hl as [Hc Hl].
    cbn [flat_map]. rewrite decode_encode_char, IH by done. done.
  - unfold bytes_ok. apply Forall_flat_map, List.Forall_forall. intros c Hc. rewrite forallb_forall in Hl.
    apply encode_char_ok. by apply Hl.
Qed.

(** [str::trim_start_matches] and [trim_end_matches] with a set of characters *)
Fixpoint drop_while (p : Z -> bool) (l : list Z) : list Z :=
  match l with
  | c :: t => if p c then drop_while p t else l
  | [] => []
  end.
Definition drop_while_end (p : Z -> bool) (l : list Z) : list Z := rev (drop_while p (rev l)).

(** [char::is_whitespace] *)
Definition is_ws (c : Z) : bool :=
  in_range 9 13 c || (c =? 32) || (c =? 133) || (c =? 160) || (c =? 5760) || in_range 8192 8202 c ||
  in_range 8232 8233 c || (c =? 8239) || (c =? 8287) || (c =? 12288).

(** [str::trim_start] and [trim_end] *)
Definition trim_start (s : string) : string := of_chars (drop_while is_ws (chars s)).
Definition trim_end (s : string) : string := of_chars (drop_while_end is_ws (chars s)).

(** [str::find] of a text, by bytes *)
Fixpoint find_bytes (pat b : bytes) : option nat :=
  if starts_with pat b then Some O
  else match b with [] => None | _ :: b => S <$> find_bytes pat b end.

(** [str::replace]: the occurrences from the left, without overlap *)
Fixpoint replace_bytes (fuel : nat) (pat to b : bytes) : bytes :=
  match fuel with
  | O => b
  | S fuel =>
      if starts_with pat b then to ++ replace_bytes fuel pat to (drop (length pat) b)
      else match b with [] => [] | c :: b => c :: replace_bytes fuel pat to b end
  end.
Definition str_replace (s pat to : string) : string :=
  let b := str_bytes s in
  str_of_bytes (replace_bytes (length b) (str_bytes pat) (str_bytes to) b).

(** [str::repeat] *)
Fixpoint str_times (n : nat) (s : string) : string :=
  match n with O => "" | S n => s +:+ str_times n s end.

(** [char::to_ascii_uppercase] and [str::to_ascii_uppercase] *)
Definition char_upper (c : Z) : Z := if in_range 97 122 c then c - 32 else c.
Fixpoint to_ascii_uppercase (s : string) : string :=
  match s with
  | EmptyString => EmptyString
  | String c s => String (ascii_of_byte (char_upper (byte_of_ascii c))) (to_ascii_uppercase s)
  end.

(** The Unicode tables of the standard library. *)
Class Unicode : Type := {
  str_to_uppercase : string -> string;
  str_to_lowercase : string -> string;
  char_to_uppercase : Z -> list Z;
  char_to_lowercase : Z -> list Z;
  char_is_alphanumeric : Z -> bool;
  char_is_alphabetic : Z -> bool
}.

(** The platform's math library, and dashu's decimal floats. *)
Class MathLib : Type := {
  f64_exp : Z -> Z;
  f64_ln : Z -> Z;
  f64_log10 : Z -> Z;
  f64_powf : Z -> Z -> Z;
  DBig : Type;
  (* from_str(..).with_precision(..).value() *)
  dbig_new : string -> Z -> option DBig;
  dbig_display : DBig -> string;
  dbig_cmp_zero : DBig -> comparison;
  dbig_exp : DBig -> DBig;
  dbig_ln : DBig -> DBig;
  dbig_sqrt : DBig -> DBig;
  dbig_powf : DBig -> DBig -> DBig
}.

(** [f64::sqrt], exact to the last bit *)
Definition f64_sqrt (x : Z) : Z := f64_bits (SFsqrt f64_prec f64_emax (f64_val x)).

(** [f64::floor] and [f64::ceil] *)
Definition f64_directed (up : bool) (b : Z) : Z :=
  match f64_val b with
  | S754_finite s m e =>
      let '(q, _, exact) := split_int (Zpos m) e in
      let n := if exact || Bool.eqb s up then q else q + 1 in
      f64_round (if s then - n else n) 0 s
  | _ => b
  end.
Definition f64_floor : Z -> Z := f64_directed false.
Definition f64_ceil : Z -> Z := f64_directed true.

Definition F64_NEG_INFINITY : Z := 18442240474082181120.
Definition F64_PI : Z := 4614256656552045848.
Definition F64_LOG10_E : Z := 4601495173785380110.
Definition F64_LN_10 : Z := 4612367379483415830.
