(* ===== verification/DateTimeBin.v ===== *)
(** * Date and time values (pgtypes/src/datetime.rs)

    The binary codecs that rows and the wire protocol share, and the interval
    and time-of-day arithmetic. Calendar computations are jiff's ([Ext]). *)
From Stdlib Require Import ZArith Lia.
From stdpp Require Import base list gmap strings.
From S2P Require Import Prelude Datum.
Open Scope Z_scope.

(** [iN::to_be_bytes] of a signed value and [iN::from_be_bytes]. *)
Definition i32_to_be (v : Z) : bytes := be_bytes 4 v.
Definition i64_to_be (v : Z) : bytes := be_bytes 8 v.
Definition i32_from_be (b : bytes) : Z := to_signed 32 (be_val b).
Definition i64_from_be (b : bytes) : Z := to_signed 64 (be_val b).

(** [format!("{b:?}")] of a byte slice. *)
Fixpoint bytes_debug_items (b : bytes) : string :=
  match b with
  | [] => ""
  | [x] => z_to_string x
  | x :: b => z_to_string x +:+ ", " +:+ bytes_debug_items b
  end.
Definition bytes_debug (b : bytes) : string := "[" +:+ bytes_debug_items b +:+ "]".

(** [checked_add], [checked_neg] at a width. *)
Definition checked_i32 (v : Z) : option Z := if decide (i32_ok v) then Some v else None.
Definition checked_i64 (v : Z) : option Z := if decide (i64_ok v) then Some v else None.

(** ** Interval arithmetic *)

(** [pgtypes/src/datetime.rs:17-26] add_interval *)
Definition add_interval (a b : Interval) : result TypeError Interval :=
  m ← ok_or (checked_i32 (months a + months b)) Overflow;
  d ← ok_or (checked_i32 (days a + days b)) Overflow;
  u ← ok_or (checked_i64 (micros a + micros b)) Overflow;
  Ok (mkInterval m d u).

(** [pgtypes/src/datetime.rs:35-44] neg_interval *)
Definition neg_interval (a : Interval) : result TypeError Interval :=
  m ← ok_or (checked_i32 (- months a)) Overflow;
  d ← ok_or (checked_i32 (- days a)) Overflow;
  u ← ok_or (checked_i64 (- micros a)) Overflow;
  Ok (mkInterval m d u).

(** [pgtypes/src/datetime.rs:29-32] sub_interval *)
Definition sub_interval (a b : Interval) : result TypeError Interval :=
  neg ← neg_interval b; add_interval a neg.

(** ** Binary codecs *)

Definition PG_EPOCH_UNIX_SECS : Z := 946684800.

Section DateTimeBin.
Context `{Ext}.

(** [pgtypes/src/datetime.rs:374-381] date_to_binary *)
Definition date_to_binary (d : Date) : bytes := i32_to_be (date_since_pg_epoch d).

(** [pgtypes/src/datetime.rs:384-400] date_from_binary *)
Definition date_from_binary (b : bytes) : result TypeError Date :=
  if negb (Nat.eqb (length b) 4)
  then Err (InvalidDatetimeFormat "date" (bytes_debug b))
  else
    let days := i32_from_be b in
    let unix_secs := days * 86400 + PG_EPOCH_UNIX_SECS in
    match ts_from_second unix_secs with
    | Some ts => Ok (ts_utc_date ts)
    | None => Err (DatetimeFieldOverflow (z_to_string days))
    end.

(** Microseconds since midnight, as [time_to_binary] and [time_plus_interval]
    compute them. *)
Definition time_micros (t : Time) : Z :=
  time_hour t * 3600000000 + time_minute t * 60000000 +
  time_second t * 1000000 + Z.quot (time_subsec_nanosecond t) 1000.

(** [pgtypes/src/datetime.rs:435-441] time_to_binary *)
Definition time_to_binary (t : Time) : bytes := i64_to_be (time_micros t).

(** [pgtypes/src/datetime.rs:444-460] time_from_binary: [/], [%] truncate and
    [as i8], [as i32] wrap. *)
Definition time_from_binary (b : bytes) : result TypeError Time :=
  if negb (Nat.eqb (length b) 8)
  then Err (InvalidDatetimeFormat "time without time zone" (bytes_debug b))
  else
    let micros := i64_from_be b in
    let hour := wrap_signed 8 (Z.quot micros 3600000000) in
    let micros := Z.rem micros 3600000000 in
    let minute := wrap_signed 8 (Z.quot micros 60000000) in
    let micros := Z.rem micros 60000000 in
    let second := wrap_signed 8 (Z.quot micros 1000000) in
    let micros := Z.rem micros 1000000 in
    let nanos := wrap_signed 32 (micros * 1000) in
    match time_new hour minute second nanos with
    | Some t => Ok t
    | None => Err (DatetimeFieldOverflow (z_to_string (i64_from_be b)))
    end.

(** [pgtypes/src/datetime.rs:509-515] timestamp_to_binary *)
Definition timestamp_to_binary (ts : DateTime) : bytes :=
  i64_to_be (datetime_since_pg_epoch ts).

(** [pgtypes/src/datetime.rs:518-538] timestamp_from_binary *)
Definition timestamp_from_binary (b : bytes) : result TypeError DateTime :=
  if negb (Nat.eqb (length b) 8)
  then Err (InvalidDatetimeFormat "timestamp without time zone" (bytes_debug b))
  else
    let pg_micros := i64_from_be b in
    unix_micros ← ok_or (checked_i64 (pg_micros + PG_EPOCH_UNIX_SECS * 1000000))
                    (DatetimeFieldOverflow (z_to_string pg_micros));
    match ts_from_microsecond unix_micros with
    | Some ts => Ok (ts_utc_datetime ts)
    | None => Err (DatetimeFieldOverflow (z_to_string pg_micros))
    end.

(** [pgtypes/src/datetime.rs:661-667] timestamptz_to_binary *)
Definition timestamptz_to_binary (ts : Timestamp) : bytes :=
  i64_to_be (ts_as_microsecond ts - PG_EPOCH_UNIX_SECS * 1000000).

(** [pgtypes/src/datetime.rs:670-687] timestamptz_from_binary *)
Definition timestamptz_from_binary (b : bytes) : result TypeError Timestamp :=
  if negb (Nat.eqb (length b) 8)
  then Err (InvalidDatetimeFormat "timestamp with time zone" (bytes_debug b))
  else
    let pg_micros := i64_from_be b in
    unix_micros ← ok_or (checked_i64 (pg_micros + PG_EPOCH_UNIX_SECS * 1000000))
                    (DatetimeFieldOverflow (z_to_string pg_micros));
    ok_or (ts_from_microsecond unix_micros)
          (DatetimeFieldOverflow (z_to_string pg_micros)).

(** [pgtypes/src/datetime.rs:240-249] timestamptz_diff *)
Definition timestamptz_diff (a b : Timestamp) : Interval :=
  let total_micros := ts_as_microsecond a - ts_as_microsecond b in
  mkInterval 0 (wrap_signed 32 (Z.quot total_micros USECS_PER_DAY))
    (Z.rem total_micros USECS_PER_DAY).

(** [pgtypes/src/datetime.rs:176-194] time_plus_interval: the unchecked i64
    addition wraps as in a release build; [None] is the panic of the final
    [expect]. *)
Definition time_plus_interval (t : Time) (iv : Interval) : option Time :=
  let base := time_micros t in
  let micros := (wrap_signed 64 (base + micros iv)) mod USECS_PER_DAY in
  let hour := wrap_signed 8 (Z.quot micros 3600000000) in
  let rem := Z.rem micros 3600000000 in
  let minute := wrap_signed 8 (Z.quot rem 60000000) in
  let rem := Z.rem rem 60000000 in
  let second := wrap_signed 8 (Z.quot rem 1000000) in
  let nanos := wrap_signed 32 (Z.rem rem 1000000 * 1000) in
  time_new hour minute second nanos.

End DateTimeBin.

(** [pgtypes/src/datetime.rs:896-902] interval_to_binary *)
Definition interval_to_binary (iv : Interval) : bytes :=
  i64_to_be (micros iv) ++ i32_to_be (days iv) ++ i32_to_be (months iv).

(** [pgtypes/src/datetime.rs:905-918] interval_from_binary *)
Definition interval_from_binary (b : bytes) : result TypeError Interval :=
  if negb (Nat.eqb (length b) 16)
  then Err (InvalidDatetimeFormat "interval" (bytes_debug b))
  else
    let micros := i64_from_be (take 8 b) in
    let days := i32_from_be (take 4 (drop 8 b)) in
    let months := i32_from_be (take 4 (drop 12 b)) in
    Ok (mkInterval months days micros).

(** ** Width lemmas *)

Lemma i32_from_to v : i32_ok v -> i32_from_be (i32_to_be v) = v.
Proof.
  intros. unfold i32_from_be, i32_to_be. rewrite be_val_be_bytes_mod.
  by apply signed_unsigned_32.
Qed.

Lemma i64_from_to v : i64_ok v -> i64_from_be (i64_to_be v) = v.
Proof.
  intros. unfold i64_from_be, i64_to_be. rewrite be_val_be_bytes_mod.
  by apply signed_unsigned_64.
Qed.

Lemma i32_to_be_length v : length (i32_to_be v) = 4%nat.
Proof. apply be_bytes_length. Qed.
Lemma i64_to_be_length v : length (i64_to_be v) = 8%nat.
Proof. apply be_bytes_length. Qed.

Lemma wrap_signed_8_small v : 0 <= v < 128 -> wrap_signed 8 v = v.
Proof.
  intros. unfold wrap_signed, to_signed. change (2 ^ 8) with 256.
  change (2 ^ (8 - 1)) with 128. rewrite Z.mod_small by lia.
  by destruct (Z.ltb_spec v 128); [|lia].
Qed.

Lemma wrap_signed_8_add v k : wrap_signed 8 (v + k * 256) = wrap_signed 8 v.
Proof. unfold wrap_signed. change (2 ^ 8) with 256. by rewrite Z.mod_add. Qed.

Lemma wrap_signed_32_small v : i32_ok v -> wrap_signed 32 v = v.
Proof. apply signed_unsigned_32. Qed.

Lemma wrap_signed_64_small v : i64_ok v -> wrap_signed 64 v = v.
Proof. apply signed_unsigned_64. Qed.

Lemma checked_i32_ok v : i32_ok v -> checked_i32 v = Some v.
Proof. intros. unfold checked_i32. by rewrite decide_True. Qed.
Lemma checked_i64_ok v : i64_ok v -> checked_i64 v = Some v.
Proof. intros. unfold checked_i64. by rewrite decide_True. Qed.

(** The successive divisions recover the fields of a clock value. *)
Lemma clock_split h m s u :
  0 <= h -> 0 <= m <= 59 -> 0 <= s <= 59 -> 0 <= u <= 999999 ->
  let x := h * 3600000000 + m * 60000000 + s * 1000000 + u in
  Z.quot x 3600000000 = h /\
  Z.quot (Z.rem x 3600000000) 60000000 = m /\
  Z.quot (Z.rem (Z.rem x 3600000000) 60000000) 1000000 = s /\
  Z.rem (Z.rem (Z.rem x 3600000000) 60000000) 1000000 = u.
Proof.
  intros Hh Hm Hs Hu x.
  assert (Z.rem x 3600000000 = m * 60000000 + s * 1000000 + u) as E1.
  { symmetry. apply (Z.rem_unique x _ h); lia. }
  assert (Z.rem (m * 60000000 + s * 1000000 + u) 60000000 = s * 1000000 + u) as E2.
  { symmetry. apply (Z.rem_unique _ _ m); lia. }
  rewrite E1, E2. split_and!.
  - symmetry. apply (Z.quot_unique x _ h (m * 60000000 + s * 1000000 + u)); lia.
  - symmetry. apply (Z.quot_unique _ _ m (s * 1000000 + u)); lia.
  - symmetry. apply (Z.quot_unique _ _ s u); lia.
  - symmetry. apply (Z.rem_unique _ _ s); lia.
Qed.

(** ** Round trips of the binary forms *)

Section RoundTrips.
Context `{ExtLaws}.

(** A stored date decodes when its midnight is an instant jiff can represent. *)
Definition date_ok (d : Date) : Prop :=
  TS_MIN_SECOND <= date_since_pg_epoch d * 86400 + PG_EPOCH_UNIX_SECS <= TS_MAX_SECOND.

(** Values of whole microseconds: what the text and binary inputs produce. *)
Definition time_ok (t : Time) : Prop := time_subsec_nanosecond t mod 1000 = 0.
Definition timestamp_ok (ts : DateTime) : Prop :=
  datetime_subsec_nanosecond ts mod 1000 = 0 /\
  TS_MIN_SECOND * 1000000 <= datetime_since_pg_epoch ts + PG_EPOCH_UNIX_SECS * 1000000
    <= TS_MAX_SECOND * 1000000 + 999999.
Definition timestamptz_ok (ts : Timestamp) : Prop := ts_subsec_nanosecond ts mod 1000 = 0.

Lemma date_roundtrip d : date_ok d -> date_from_binary (date_to_binary d) = Ok d.
Proof.
  unfold date_ok, date_from_binary, date_to_binary. intros Hd.
  rewrite i32_to_be_length. simpl.
  rewrite i32_from_to by (unfold TS_MIN_SECOND, TS_MAX_SECOND, PG_EPOCH_UNIX_SECS in *;
    width_lia).
  apply ts_from_second_range in Hd as [ts Hts]. rewrite Hts.
  by rewrite (ts_from_second_date d ts).
Qed.

(** A date outside that range is stored, and cannot be read back. *)
Lemma date_roundtrip_fails d :
  i32_ok (date_since_pg_epoch d) -> ~ date_ok d ->
  date_from_binary (date_to_binary d) =
    Err (DatetimeFieldOverflow (z_to_string (date_since_pg_epoch d))).
Proof.
  unfold date_ok, date_from_binary, date_to_binary. intros Hi Hd.
  rewrite i32_to_be_length. simpl. rewrite i32_from_to by done.
  destruct (ts_from_second _) as [ts|] eqn:E; [|done].
  destruct Hd. apply ts_from_second_range. eauto.
Qed.

Lemma time_micros_range t : 0 <= time_micros t < USECS_PER_DAY.
Proof.
  unfold time_micros, USECS_PER_DAY.
  pose proof (time_hour_range t). pose proof (time_minute_range t).
  pose proof (time_second_range t). pose proof (time_nanosecond_range t).
  rewrite Z.quot_div_nonneg by lia. Z.div_mod_to_equations. lia.
Qed.

(** The decoder's field extraction on a clock value [k] multiples of 256 hours
    past a valid time. *)
Lemma time_new_of_micros t k :
  time_ok t -> 0 <= k ->
  let x := time_micros t + k * (256 * 3600000000) in
  time_new (wrap_signed 8 (Z.quot x 3600000000))
    (wrap_signed 8 (Z.quot (Z.rem x 3600000000) 60000000))
    (wrap_signed 8 (Z.quot (Z.rem (Z.rem x 3600000000) 60000000) 1000000))
    (wrap_signed 32 (Z.rem (Z.rem (Z.rem x 3600000000) 60000000) 1000000 * 1000))
  = Some t.
Proof.
  intros Ht Hk x. unfold time_ok in Ht.
  pose proof (time_hour_range t). pose proof (time_minute_range t).
  pose proof (time_second_range t). pose proof (time_nanosecond_range t).
  set (u := Z.quot (time_subsec_nanosecond t) 1000).
  assert (time_subsec_nanosecond t = u * 1000) as Hu.
  { unfold u. rewrite Z.quot_div_nonneg by lia. Z.div_mod_to_equations. lia. }
  replace x with ((time_hour t + k * 256) * 3600000000 + time_minute t * 60000000 +
    time_second t * 1000000 + u) by (unfold x, time_micros; fold u; lia).
  destruct (clock_split (time_hour t + k * 256) (time_minute t) (time_second t) u)
    as (-> & -> & -> & ->); try lia.
  rewrite wrap_signed_8_add, !wrap_signed_8_small by lia.
  rewrite wrap_signed_32_small by width_lia. rewrite <- Hu.
  destruct (time_new_in_range (time_hour t) (time_minute t) (time_second t)
    (time_subsec_nanosecond t)) as (t' & -> & ? & ? & ? & ?); try lia.
  f_equal. by apply time_by_fields.
Qed.

Lemma time_roundtrip t : time_ok t -> time_from_binary (time_to_binary t) = Ok t.
Proof.
  intros Ht. unfold time_from_binary, time_to_binary.
  rewrite i64_to_be_length. simpl.
  pose proof (time_micros_range t). unfold USECS_PER_DAY in *.
  rewrite i64_from_to by width_lia.
  pose proof (time_new_of_micros t 0 Ht) as E. rewrite Z.mul_0_l, Z.add_0_r in E.
  by rewrite E.
Qed.

Lemma timestamp_roundtrip ts :
  timestamp_ok ts -> timestamp_from_binary (timestamp_to_binary ts) = Ok ts.
Proof.
  unfold timestamp_ok, timestamp_from_binary, timestamp_to_binary.
  intros [Hn Hr]. rewrite i64_to_be_length. simpl.
  unfold TS_MIN_SECOND, TS_MAX_SECOND, PG_EPOCH_UNIX_SECS in *.
  rewrite i64_from_to by width_lia. rewrite checked_i64_ok by width_lia. rsimpl.
  change (946684800 * 1000000) with 946684800000000 in *.
  apply ts_from_microsecond_range in Hr as [x Hx]. rewrite Hx.
  by rewrite (ts_from_microsecond_datetime ts x).
Qed.

Lemma timestamptz_roundtrip ts :
  timestamptz_ok ts -> timestamptz_from_binary (timestamptz_to_binary ts) = Ok ts.
Proof.
  unfold timestamptz_ok, timestamptz_from_binary, timestamptz_to_binary. intros Hn.
  pose proof (ts_as_microsecond_range ts) as Hr.
  unfold TS_MIN_SECOND, TS_MAX_SECOND, PG_EPOCH_UNIX_SECS in *.
  rewrite i64_to_be_length. simpl.
  rewrite i64_from_to by width_lia. rewrite Z.sub_add, checked_i64_ok by width_lia.
  rsimpl. by rewrite ts_microsecond_roundtrip.
Qed.

End RoundTrips.

Lemma interval_roundtrip iv :
  interval_ok iv -> interval_from_binary (interval_to_binary iv) = Ok iv.
Proof.
  intros (Hm & Hd & Hu). unfold interval_from_binary, interval_to_binary.
  rewrite !length_app, i64_to_be_length, !i32_to_be_length. simpl Nat.eqb. rsimpl.
  pose proof (i64_to_be_length (micros iv)) as L1.
  pose proof (i32_to_be_length (days iv)) as L2.
  pose proof (i32_to_be_length (months iv)) as L3.
  set (A := i64_to_be _) in *. set (B := i32_to_be (days iv)) in *.
  set (C := i32_to_be (months iv)) in *.
  assert (take 8 (A ++ B ++ C) = A) as -> by (apply take_app_length'; lia).
  assert (drop 8 (A ++ B ++ C) = B ++ C) as -> by (apply drop_app_length'; lia).
  assert (take 4 (B ++ C) = B) as -> by (apply take_app_length'; lia).
  assert (drop 12 (A ++ B ++ C) = C) as ->.
  { rewrite app_assoc. apply drop_app_length'. rewrite length_app. lia. }
  rewrite (take_ge C) by lia. unfold A, B, C.
  rewrite i64_from_to, !i32_from_to by done. by destruct iv.
Qed.

(** ** Interval and time-of-day arithmetic *)

Section Arith.
Context `{ExtLaws}.

(** Below the i64 bound, adding an interval to a time of day adds its
    microseconds modulo one day: the panic is unreachable, and days and months
    are ignored. *)
Lemma time_plus_interval_mod t iv :
  time_ok t -> i64_ok (time_micros t + micros iv) ->
  exists t', time_plus_interval t iv = Some t' /\
    time_micros t' = (time_micros t + micros iv) mod USECS_PER_DAY /\ time_ok t'.
Proof.
  intros Ht Hov. unfold time_plus_interval. rewrite wrap_signed_64_small by done.
  set (x := (time_micros t + micros iv) mod USECS_PER_DAY).
  assert (0 <= x < USECS_PER_DAY) as Hx by (apply Z.mod_pos_bound; reflexivity).
  unfold USECS_PER_DAY in Hx.
  set (h := x / 3600000000). set (m := x mod 3600000000 / 60000000).
  set (s := x mod 60000000 / 1000000). set (u := x mod 1000000).
  assert (x = h * 3600000000 + m * 60000000 + s * 1000000 + u /\ 0 <= h <= 23 /\
          0 <= m <= 59 /\ 0 <= s <= 59 /\ 0 <= u <= 999999) as (Ex & Hh & Hm & Hs & Hu).
  { unfold h, m, s, u. Z.div_mod_to_equations. lia. }
  destruct (clock_split h m s u) as (E1 & E2 & E3 & E4); try lia.
  rewrite <- Ex in E1, E2, E3, E4. rewrite E1, E2, E3, E4.
  rewrite !wrap_signed_8_small by lia. rewrite wrap_signed_32_small by width_lia.
  destruct (time_new_in_range h m s (u * 1000)) as (t' & -> & Eh & Em & Es & En); try lia.
  exists t'. split; [done|]. unfold time_micros, time_ok. rewrite Eh, Em, Es, En.
  rewrite Z.quot_mul, Z.mod_mul by lia. lia.
Qed.

(** The difference of two instants is exact: the i32 day count never wraps. *)
Lemma timestamptz_diff_exact a b :
  let d := timestamptz_diff a b in
  interval_ok d /\ canonical_micros d = ts_as_microsecond a - ts_as_microsecond b /\
  Z.abs (micros d) < USECS_PER_DAY.
Proof.
  pose proof (ts_as_microsecond_range a). pose proof (ts_as_microsecond_range b).
  unfold TS_MIN_SECOND, TS_MAX_SECOND in *. simpl.
  unfold timestamptz_diff, interval_ok, canonical_micros; simpl.
  set (t := ts_as_microsecond a - ts_as_microsecond b) in *.
  pose proof (Z.quot_rem' t USECS_PER_DAY) as Hqr.
  pose proof (Z.rem_bound_abs t USECS_PER_DAY ltac:(done)) as Hb.
  unfold USECS_PER_DAY in *.
  assert (-10000000 <= Z.quot t 86400000000 <= 10000000) by lia.
  rewrite wrap_signed_32_small by width_lia.
  unfold_widths. lia.
Qed.

End Arith.
