(* ===== verification/ExtArith.v ===== *)
(** * Third-party arithmetic

    The operations of the jiff and bigdecimal packages that date, time and
    decimal arithmetic, comparison and text conversion call, beside those of
    [Ext], with what their documentation says of them. *)
From Stdlib Require Import ZArith Lia.
From stdpp Require Import base list gmap strings.
From S2P Require Import Prelude Datum.
Open Scope Z_scope.

(** [bigdecimal::RoundingMode], the modes in use *)
Inductive RoundingMode : Type := HalfUp | Floor | Ceiling | Down.

Class ExtArith `{Ext} : Type := {
  (* jiff: the order of each type *)
  date_cmp : Date -> Date -> comparison;
  time_cmp : Time -> Time -> comparison;
  datetime_cmp : DateTime -> DateTime -> comparison;
  ts_cmp : Timestamp -> Timestamp -> comparison;
  (* ToSpan: days(), months(), microseconds(); they panic out of their range *)
  Span : Type;
  span_days : Z -> option Span;
  span_months : Z -> option Span;
  span_microseconds : Z -> option Span;
  (* checked_add *)
  date_checked_add : Date -> Span -> option Date;
  datetime_checked_add : DateTime -> Span -> option DateTime;
  (* since((Unit::Day, _)) and since((Unit::Microsecond, _)) *)
  date_since_days : Date -> Date -> Z;
  datetime_since_us : DateTime -> DateTime -> Z;
  (* civil parts *)
  midnight : Time;
  date_to_datetime : Date -> Time -> DateTime;
  datetime_date : DateTime -> Date;
  datetime_time : DateTime -> Time;
  date_year : Date -> Z;
  date_month : Date -> Z;
  date_day : Date -> Z;
  (* FromStr and Display *)
  date_from_str : string -> option Date;
  time_from_str : string -> option Time;
  date_display : Date -> string;
  datetime_display : DateTime -> string;
  (* time zones and offsets, an offset by its seconds *)
  TimeZone : Type;
  tz_utc : TimeZone;
  tz_get : string -> option TimeZone;
  tz_to_datetime : TimeZone -> Timestamp -> DateTime;
  tz_to_offset : TimeZone -> Timestamp -> Z;
  offset_from_seconds : Z -> option Z;
  offset_to_timestamp : Z -> DateTime -> option Timestamp;
  (* DateTime::to_zoned and Zoned::timestamp *)
  datetime_to_zoned_ts : DateTime -> TimeZone -> option Timestamp;
  Zoned : Type;
  ts_to_zoned : Timestamp -> TimeZone -> Zoned;
  zoned_checked_add : Zoned -> Span -> option Zoned;
  zoned_timestamp : Zoned -> Timestamp;
  (* bigdecimal *)
  bd_cmp : BigDecimal -> BigDecimal -> comparison;
  bd_of_Z : Z -> BigDecimal;
  bd_add : BigDecimal -> BigDecimal -> BigDecimal;
  bd_sub : BigDecimal -> BigDecimal -> BigDecimal;
  bd_mul : BigDecimal -> BigDecimal -> BigDecimal;
  bd_div : BigDecimal -> BigDecimal -> BigDecimal;
  bd_rem : BigDecimal -> BigDecimal -> BigDecimal;
  bd_abs : BigDecimal -> BigDecimal;
  bd_with_scale_round : BigDecimal -> Z -> RoundingMode -> BigDecimal;
  bd_to_i32 : BigDecimal -> option Z;
  bd_to_i64 : BigDecimal -> option Z;
  bd_to_f64 : BigDecimal -> option Z
}.

(** A total order, by its comparison function. *)
Record cmp_order {A} (cmp : A -> A -> comparison) : Prop := {
  cmp_eq x y : cmp x y = Eq <-> x = y;
  cmp_flip x y : cmp y x = CompOpp (cmp x y);
  cmp_trans x y z : cmp x y = Lt -> cmp y z = Lt -> cmp x z = Lt
}.

Class ExtArithLaws `{ExtArith} : Prop := {
  date_cmp_order : cmp_order date_cmp;
  time_cmp_order : cmp_order time_cmp;
  datetime_cmp_order : cmp_order datetime_cmp;
  ts_cmp_order : cmp_order ts_cmp;
  (* a BigDecimal compares by value *)
  bd_cmp_value a b :
    bd_cmp a b =
    Z.compare ((bd_parts a).1 * 10 ^ (Z.max (bd_parts a).2 (bd_parts b).2 - (bd_parts a).2))
              ((bd_parts b).1 * 10 ^ (Z.max (bd_parts a).2 (bd_parts b).2 - (bd_parts b).2));
  (* the limits of jiff::Span *)
  span_days_range n : is_Some (span_days n) <-> Z.abs n <= 7304484;
  span_months_range n : is_Some (span_months n) <-> Z.abs n <= 239976;
  span_microseconds_range n : is_Some (span_microseconds n) <-> Z.abs n <= 631107417600000000
}.
