(* ===== verification/ExtModel.v ===== *)
(** * A concrete instance of the third-party value types

    Instants and civil times counted in microseconds or nanoseconds and
    decimals as integer and exponent. It satisfies every law of [ExtLaws], so
    the theorems that assume them are about something, and it is where their
    witnesses are evaluated. *)
From Stdlib Require Import ZArith Lia.
From stdpp Require Import base list gmap strings.
From Stdlib Require Import Ascii.
From S2P Require Import Prelude Datum.
From S2P Require Import Text Float ExtArith.
Open Scope Z_scope.

(** ** Clock times and instants *)

Definition nanos_ok (t : Z) : bool := (0 <=? t) && (t <? 86400000000000).
Definition CTime : Type := { t : Z | nanos_ok t = true }.

Definition instant_ok (u : Z) : bool :=
  (TS_MIN_SECOND * 1000000 <=? u) && (u <=? TS_MAX_SECOND * 1000000 + 999999).
Definition CTimestamp : Type := { u : Z | instant_ok u = true }.

Definition refine (p : Z -> bool) (x : Z) : option { y : Z | p y = true } :=
  match decide (p x = true) with left h => Some (exist _ x h) | right _ => None end.

Lemma refine_Some p x y : refine p x = Some y <-> `y = x.
Proof.
  unfold refine. destruct (decide (p x = true)) as [h|h].
  - split; [by intros [= <-]|]. destruct y as [y hy]; simpl. intros ->.
    f_equal. by apply (sig_eq_pi _).
  - split; [done|]. destruct y as [y hy]; simpl. by intros ->.
Qed.

Lemma refine_is_Some p x : is_Some (refine p x) <-> p x = true.
Proof.
  unfold refine. destruct (decide (p x = true)).
  - split; [done|]. by eexists.
  - split; [by intros [? ?]|done].
Qed.

Definition ctime_new (h m s n : Z) : option CTime :=
  if in_range 0 23 h && in_range 0 59 m && in_range 0 59 s && in_range 0 999999999 n
  then refine nanos_ok (((h * 60 + m) * 60 + s) * 1000000000 + n) else None.

(** ** Decimals *)

Fixpoint strip10 (fuel : nat) (m e : Z) : Z * Z :=
  match fuel with
  | O => (m, e)
  | S fuel => if m mod 10 =? 0 then strip10 fuel (m / 10) (e - 1) else (m, e)
  end.

Definition normalized (d : Z * Z) : Z * Z :=
  if d.1 =? 0 then (0, 0) else strip10 (S (Z.to_nat (Z.log2 (Z.abs d.1)))) d.1 d.2.

Definition dec_eqb (a b : Z * Z) : bool :=
  a.1 * 10 ^ (Z.max a.2 b.2 - a.2) =? b.1 * 10 ^ (Z.max a.2 b.2 - b.2).

Fixpoint span_digits (s : string) : string * string :=
  match s with
  | String c t => if is_digit c then let '(a, b) := span_digits t in (String c a, b)
                  else (EmptyString, s)
  | EmptyString => (EmptyString, EmptyString)
  end.

Definition dec_from_str (s : string) : option (Z * Z) :=
  let '(sgn, t) := match s with
                   | String c t => if decide (c = Ascii.ascii_of_N 45) then (-1, t) else (1, s)
                   | EmptyString => (1, s)
                   end in
  let '(ip, rest) := span_digits t in
  if decide (ip = EmptyString) then None else
  match rest with
  | EmptyString => Some (sgn * digits_val 0 ip, 0)
  | String c fp =>
      if decide (c = Ascii.ascii_of_N 46) then
        if digits_ok fp then
          Some (sgn * digits_val 0 (ip +:+ fp), Z.of_nat (String.length fp))
        else None
      else None
  end.

#[export] Instance model_ext : Ext := {|
  Date := Z; Time := CTime; DateTime := Z; Timestamp := CTimestamp;
  time_hour t := `t / 3600000000000;
  time_minute t := `t / 60000000000 mod 60;
  time_second t := `t / 1000000000 mod 60;
  time_subsec_nanosecond t := `t mod 1000000000;
  time_new := ctime_new;
  date_since_pg_epoch d := d;
  datetime_since_pg_epoch t := t;
  datetime_subsec_nanosecond t := t mod 1000000 * 1000;
  ts_from_second s := refine instant_ok (s * 1000000);
  ts_from_microsecond u := refine instant_ok u;
  ts_as_microsecond t := `t;
  ts_subsec_nanosecond t := `t mod 1000000 * 1000;
  ts_utc_date t := (`t / 1000000 - 946684800) / 86400;
  ts_utc_datetime t := `t - 946684800000000;
  BigDecimal := Z * Z;
  bd_parts d := d;
  bd_from_str := dec_from_str;
  bd_with_scale_0 d := (d.1 * 10 ^ (- d.2), 0);
  bd_eqb := dec_eqb;
  bd_normalized_string d :=
    z_to_string (normalized d).1 +:+ "E" +:+ z_to_string (- (normalized d).2);
  str_debug s := dquote +:+ s +:+ dquote;
  char_debug c := "'" +:+ str_of_bytes [c] +:+ "'"
|}.

(** ** The laws *)

Lemma strip10_spec fuel m e :
  m <> 0 -> Z.abs m < 10 ^ Z.of_nat fuel ->
  exists k, 0 <= k /\ (strip10 fuel m e).1 mod 10 <> 0 /\
    m = (strip10 fuel m e).1 * 10 ^ k /\ (strip10 fuel m e).2 = e - k.
Proof.
  revert m e; induction fuel as [|fuel IH]; intros m e Hm Hf; [simpl in Hf; lia|].
  simpl. destruct (Z.eqb_spec (m mod 10) 0) as [E|E].
  - rewrite Nat2Z.inj_succ, Z.pow_succ_r in Hf by lia.
    pose proof (Z.div_mod m 10) as D.
    destruct (IH (m / 10) (e - 1)) as (k & Hk & H1 & H2 & H3); [lia..|].
    exists (k + 1). split_and!; [lia | done | | lia].
    rewrite Z.pow_add_r, Z.pow_1_r by lia. lia.
  - exists 0. split_and!; simpl; lia.
Qed.

Lemma pow10_factor_unique a b j k :
  a mod 10 <> 0 -> b mod 10 <> 0 -> 0 <= j <= k -> a * 10 ^ j = b * 10 ^ k -> j = k.
Proof.
  intros Ha Hb Hjk E. destruct (decide (j = k)) as [|Hne]; [done|]. exfalso. apply Ha.
  replace k with (j + 1 + (k - j - 1)) in E by lia.
  rewrite !Z.pow_add_r, Z.pow_1_r in E by lia.
  assert (a = b * 10 ^ (k - j - 1) * 10) as ->.
  { apply (Z.mul_reg_r _ _ (10 ^ j)); [|lia]. assert (0 < 10 ^ j) by (apply pow10_pos; lia).
    lia. }
  apply Z.mod_mul. lia.
Qed.

Lemma log2_pow10 m : m <> 0 -> Z.abs m < 10 ^ Z.of_nat (S (Z.to_nat (Z.log2 (Z.abs m)))).
Proof.
  intros. rewrite Nat2Z.inj_succ, Z2Nat.id by apply Z.log2_nonneg.
  eapply Z.lt_le_trans; [apply Z.log2_spec; lia|]. apply Z.pow_le_mono_l. lia.
Qed.

Lemma normalized_eq a b : dec_eqb a b = true -> normalized a = normalized b.
Proof.
  unfold dec_eqb. intros E%Z.eqb_eq. destruct a as [m e], b as [n f]; simpl in E.
  unfold normalized. cbn [fst snd]. set (M := Z.max e f) in *.
  assert (0 < 10 ^ (M - e)) by (apply pow10_pos; lia).
  assert (0 < 10 ^ (M - f)) by (apply pow10_pos; lia).
  destruct (Z.eqb_spec m 0), (Z.eqb_spec n 0); [done|nia|nia|].
  destruct (strip10_spec _ m e ltac:(done) (log2_pow10 m ltac:(done)))
    as (j & Hj & A1 & A2 & A3).
  destruct (strip10_spec _ n f ltac:(done) (log2_pow10 n ltac:(done)))
    as (k & Hk & B1 & B2 & B3).
  destruct (strip10 _ m e) as [m' e']. destruct (strip10 _ n f) as [n' f'].
  simpl in *. subst e' f'.
  rewrite A2, B2, <- !Z.mul_assoc, <- !Z.pow_add_r in E by lia.
  assert (j + (M - e) = k + (M - f)) as Ej.
  { destruct (Z.le_ge_cases (j + (M - e)) (k + (M - f))).
    - by eapply (pow10_factor_unique m' n'); [..|lia|].
    - symmetry. by eapply (pow10_factor_unique n' m'); [..|lia|]. }
  rewrite Ej in E. apply Z.mul_reg_r in E; [|apply Z.pow_nonzero; lia].
  rewrite E. f_equal. lia.
Qed.

Lemma span_digits_app s t :
  digits_ok s = true ->
  span_digits (s +:+ t) = (s +:+ (span_digits t).1, (span_digits t).2).
Proof.
  induction s as [|c s IH].
  { intros _. change ("" +:+ t) with t. by destruct (span_digits t). }
  rewrite !str_app_cons. simpl. rewrite andb_true_iff. intros [-> Hs].
  by rewrite IH.
Qed.

Lemma dec_from_str_plain (neg : bool) ip fp :
  digits_ok ip = true -> ip <> EmptyString -> digits_ok fp = true ->
  dec_from_str ((if neg then "-" else "") +:+ ip +:+
     (if decide (fp = EmptyString) then "" else "." +:+ fp)) =
  Some ((if neg then -1 else 1) * digits_val 0 (ip +:+ fp), Z.of_nat (String.length fp)).
Proof.
  intros Hip Hne Hfp. unfold dec_from_str.
  set (rest := if decide (fp = EmptyString) then "" else "." +:+ fp).
  assert (span_digits rest = (EmptyString, rest)) as Hr.
  { unfold rest. by case_decide. }
  assert (match (if neg then "-" else "") +:+ ip +:+ rest with
          | String c t => if decide (c = Ascii.ascii_of_N 45) then (-1, t)
                          else (1, (if neg then "-" else "") +:+ ip +:+ rest)
          | EmptyString => (1, (if neg then "-" else "") +:+ ip +:+ rest)
          end = (if neg then -1 else 1, ip +:+ rest)) as ->.
  { destruct neg; [done|]. destruct ip as [|c ip]; [done|].
    change ("" +:+ String c ip +:+ rest) with (String c (ip +:+ rest)).
    cbv iota beta. rewrite decide_False; [done|]. intros ->. by vm_compute in Hip. }
  rewrite span_digits_app, Hr, str_app_nil_r by done. simpl.
  rewrite decide_False by done. unfold rest. case_decide as E.
  - subst. rewrite str_app_nil_r. done.
  - change ("." +:+ fp) with (String (Ascii.ascii_of_N 46) fp). cbv iota beta.
    by rewrite decide_True, Hfp.
Qed.

Lemma ctime_bounds (t : CTime) : 0 <= `t < 86400000000000.
Proof. destruct t as [t h]; simpl. unfold nanos_ok in h. lia. Qed.

Lemma ctimestamp_bounds (t : CTimestamp) :
  TS_MIN_SECOND * 1000000 <= `t <= TS_MAX_SECOND * 1000000 + 999999.
Proof. destruct t as [t h]; simpl. unfold instant_ok in h. lia. Qed.

Lemma instant_ok_spec u :
  instant_ok u = true <-> TS_MIN_SECOND * 1000000 <= u <= TS_MAX_SECOND * 1000000 + 999999.
Proof. unfold instant_ok. lia. Qed.

Lemma ctime_new_ok h m s n :
  0 <= h <= 23 -> 0 <= m <= 59 -> 0 <= s <= 59 -> 0 <= n <= 999999999 ->
  exists t : CTime, ctime_new h m s n = Some t /\
    `t = ((h * 60 + m) * 60 + s) * 1000000000 + n.
Proof.
  intros. unfold ctime_new, in_range.
  replace (_ && _ && _ && _) with true by lia.
  assert (is_Some (refine nanos_ok (((h * 60 + m) * 60 + s) * 1000000000 + n))) as [t Ht].
  { apply refine_is_Some. unfold nanos_ok. lia. }
  exists t. split; [done|]. by apply refine_Some in Ht.
Qed.

#[local] Opaque refine instant_ok.

#[export] Instance model_ext_laws : ExtLaws.
Proof.
  split; simpl.
  - intros t. pose proof (ctime_bounds t). Z.div_mod_to_equations. lia.
  - intros t. pose proof (Z.mod_pos_bound (`t / 60000000000) 60). lia.
  - intros t. pose proof (Z.mod_pos_bound (`t / 1000000000) 60). lia.
  - intros t. pose proof (Z.mod_pos_bound (`t) 1000000000). lia.
  - intros h m s n Hh Hm Hs Hn.
    destruct (ctime_new_ok h m s n Hh Hm Hs Hn) as (t & -> & Et). exists t.
    rewrite Et. split_and!; try done; Z.div_mod_to_equations; lia.
  - intros h m s n Hn. unfold ctime_new, in_range.
    by replace (_ && _ && _ && _) with false by lia.
  - intros t t'. intros. apply (sig_eq_pi _). Z.div_mod_to_equations. lia.
  - intros s. etrans; [apply refine_is_Some|]. rewrite instant_ok_spec. lia.
  - intros d ts E. apply refine_Some in E. rewrite E. Z.div_mod_to_equations. lia.
  - intros u. etrans; [apply refine_is_Some|]. by rewrite instant_ok_spec.
  - intros dt ts _ E. apply refine_Some in E. rewrite E. lia.
  - apply ctimestamp_bounds.
  - intros ts _. by apply refine_Some.
  - done.
  - intros neg ip fp H1 H2 H3. eexists. split; [by apply dec_from_str_plain|done].
  - done.
  - intros a b. unfold dec_eqb. apply Z.eqb_eq.
  - intros a b E. by rewrite (normalized_eq a b E).
Qed.

Lemma datum_eq_equivalence_and_hash_witness :
  datum_hash (DNumeric (10, 1)) = datum_hash (DNumeric (100, 2)).
Proof.
  exact (proj2 (proj2 (proj2 datum_eq_equivalence_and_hash))
    (DNumeric (10, 1)) (DNumeric (100, 2)) eq_refl).
Defined.

(** ** A concrete instance of the third-party arithmetic

    The proleptic Gregorian calendar over day counts, fixed-offset time zones,
    spans of months, days and microseconds with jiff's limits, and decimals as
    integer and exponent. It satisfies every law of [ExtArithLaws]; the
    witnesses of the theorems that assume them are evaluated here. *)
(** ** The calendar, by days since 2000-01-01 *)

Definition days_of_civil (y m d : Z) : Z :=
  let y := if m <=? 2 then y - 1 else y in
  let era := y / 400 in
  let yoe := y mod 400 in
  let doy := (153 * (m + (if 2 <? m then -3 else 9)) + 2) / 5 + d - 1 in
  let doe := yoe * 365 + yoe / 4 - yoe / 100 + doy in
  era * 146097 + doe - 730425.

Definition civil_of_days (n : Z) : Z * Z * Z :=
  let z := n + 730425 in
  let era := z / 146097 in
  let doe := z mod 146097 in
  let yoe := (doe - doe / 1460 + doe / 36524 - doe / 146096) / 365 in
  let doy := doe - (365 * yoe + yoe / 4 - yoe / 100) in
  let mp := (5 * doy + 2) / 153 in
  let d := doy - (153 * mp + 2) / 5 + 1 in
  let m := if mp <? 10 then mp + 3 else mp - 9 in
  (yoe + era * 400 + (if m <=? 2 then 1 else 0), m, d).

Definition month_len (y m : Z) : Z :=
  days_of_civil (if m =? 12 then y + 1 else y) (if m =? 12 then 1 else m + 1) 1 -
  days_of_civil y m 1.

Definition day_ok (n : Z) : bool :=
  (days_of_civil (-9999) 1 1 <=? n) && (n <=? days_of_civil 9999 12 31).

Definition add_months (n k : Z) : Z :=
  let '(y, m, d) := civil_of_days n in
  let t := y * 12 + (m - 1) + k in
  let y := t / 12 in
  let m := t mod 12 + 1 in
  days_of_civil y m (Z.min d (month_len y m)).

Definition US_PER_DAY : Z := 86400000000.

(** Months, days and microseconds. *)
Definition CSpan : Type := Z * Z * Z.

Definition span_within (lim n : Z) (s : CSpan) : option CSpan :=
  if Z.abs n <=? lim then Some s else None.

Definition guard_day (n : Z) : option Z := if day_ok n then Some n else None.

Definition cdatetime_add (t : Z) (s : CSpan) : option Z :=
  let '(mo, d, us) := s in
  let r := (add_months (t / US_PER_DAY) mo + d) * US_PER_DAY + t mod US_PER_DAY + us in
  if day_ok (r / US_PER_DAY) then Some r else None.

Definition cdate_add (n : Z) (s : CSpan) : option Z :=
  let '(mo, d, us) := s in guard_day (add_months n mo + d + Z.quot us US_PER_DAY).

Definition time_or_midnight (ns : Z) : CTime :=
  match refine nanos_ok ns with Some t => t | None => exist _ 0 eq_refl end.

Definition cdate_from_str (s : string) : option Z :=
  match split_on "-"%char s with
  | [y; m; d] =>
      y ← parse_i32 y; m ← parse_i32 m; d ← parse_i32 d;
      if in_range 1 12 m && in_range 1 (month_len y m) d then guard_day (days_of_civil y m d)
      else None
  | _ => None
  end.

Definition ctime_from_str (s : string) : option CTime :=
  match split_on ":"%char s with
  | [h; m; s] => h ← parse_i32 h; m ← parse_i32 m; s ← parse_i32 s; ctime_new h m s 0
  | _ => None
  end.

Definition cdate_display (n : Z) : string :=
  let '(y, m, d) := civil_of_days n in
  pad_int 4 y +:+ "-" +:+ pad_int 2 m +:+ "-" +:+ pad_int 2 d.

(** 2000-01-01 in microseconds of the Unix epoch. *)
Definition PG_EPOCH_US : Z := 946684800000000.

Definition instant (u : Z) : option CTimestamp := refine instant_ok u.

Definition local_ts (t off : Z) : option CTimestamp := instant (t + PG_EPOCH_US - off * 1000000).

(** ** Decimals *)

Definition at_scale (d : Z * Z) (e : Z) : Z := d.1 * 10 ^ (e - d.2).

Definition aligned2 (f : Z -> Z -> Z) (a b : Z * Z) : Z * Z :=
  let e := Z.max a.2 b.2 in (f (at_scale a e) (at_scale b e), e).

Definition div_round (m : RoundingMode) (n d : Z) : Z :=
  match m with
  | Down => Z.quot n d
  | Floor => n / d
  | Ceiling => - ((- n) / d)
  | HalfUp => Z.sgn n * ((2 * Z.abs n + d) / (2 * d))
  end.

Definition dec_round (d : Z * Z) (e : Z) (m : RoundingMode) : Z * Z :=
  if d.2 <=? e then (at_scale d e, e) else (div_round m d.1 (10 ^ (d.2 - e)), e).

Definition dec_to_int (lo hi : Z) (d : Z * Z) : option Z :=
  let n := (dec_round d 0 Down).1 in if in_range lo hi n then Some n else None.

#[export] Instance model_arith : ExtArith := {|
  date_cmp := Z.compare : Date -> Date -> comparison;
  time_cmp (a b : Time) := Z.compare (`a) (`b);
  datetime_cmp := Z.compare : DateTime -> DateTime -> comparison;
  ts_cmp (a b : Timestamp) := Z.compare (`a) (`b);
  Span := CSpan;
  span_days n := span_within 7304484 n (0, n, 0);
  span_months n := span_within 239976 n (n, 0, 0);
  span_microseconds n := span_within 631107417600000000 n (0, 0, n);
  date_checked_add := cdate_add : Date -> _;
  datetime_checked_add := cdatetime_add : DateTime -> _;
  date_since_days (a b : Z) := a - b;
  datetime_since_us (a b : Z) := a - b;
  midnight := exist _ 0 eq_refl;
  date_to_datetime (d : Z) (t : CTime) := d * US_PER_DAY + `t / 1000;
  datetime_date (t : Z) := t / US_PER_DAY;
  datetime_time (t : Z) := time_or_midnight (t mod US_PER_DAY * 1000);
  date_year (n : Z) := (civil_of_days n).1.1;
  date_month (n : Z) := (civil_of_days n).1.2;
  date_day (n : Z) := (civil_of_days n).2;
  date_from_str := cdate_from_str;
  time_from_str := ctime_from_str;
  date_display := cdate_display;
  datetime_display (t : Z) :=
    cdate_display (t / US_PER_DAY) +:+ "T" +:+ z_to_string (t mod US_PER_DAY);
  TimeZone := Z;
  tz_utc := 0;
  tz_get s := if bool_decide (s = "UTC") then Some 0 else None;
  tz_to_datetime off (t : CTimestamp) := `t - PG_EPOCH_US + off * 1000000;
  tz_to_offset off _ := off;
  offset_from_seconds s := if Z.abs s <=? 93599 then Some s else None;
  offset_to_timestamp off (t : Z) := local_ts t off;
  datetime_to_zoned_ts (t : Z) off := local_ts t off;
  Zoned := CTimestamp * Z;
  ts_to_zoned t off := (t, off);
  zoned_checked_add z s :=
    t ← cdatetime_add (`z.1 - PG_EPOCH_US + z.2 * 1000000) s;
    t ← local_ts t z.2; Some (t, z.2);
  zoned_timestamp z := z.1;
  bd_cmp (a b : Z * Z) :=
    Z.compare (at_scale a (Z.max a.2 b.2)) (at_scale b (Z.max a.2 b.2));
  bd_of_Z n := (n, 0);
  bd_add := aligned2 Z.add;
  bd_sub := aligned2 Z.sub;
  bd_mul (a b : Z * Z) := (a.1 * b.1, a.2 + b.2);
  bd_div (a b : Z * Z) := dec_round (Z.quot (a.1 * 10 ^ 100) b.1, a.2 - b.2 + 100) 100 Down;
  bd_rem := aligned2 Z.rem;
  bd_abs (a : Z * Z) := (Z.abs a.1, a.2);
  bd_with_scale_round := dec_round;
  bd_to_i32 := dec_to_int (-2147483648) 2147483647;
  bd_to_i64 := dec_to_int (-9223372036854775808) 9223372036854775807;
  bd_to_f64 (d : Z * Z) := Some (f64_of_decimal (d.1 <? 0) (Z.abs d.1) (- d.2))
|}.

(** ** The laws *)

Lemma Zcompare_order : cmp_order Z.compare.
Proof.
  split; intros *.
  - apply Z.compare_eq_iff.
  - apply Z.compare_antisym.
  - rewrite !Z.compare_lt_iff. lia.
Qed.

Lemma sig_compare_order (p : Z -> bool) :
  cmp_order (fun a b : { x : Z | p x = true } => Z.compare (`a) (`b)).
Proof.
  destruct Zcompare_order as [He Hf Ht]. split; intros *; [|apply Hf|apply Ht].
  rewrite He. split; [apply (sig_eq_pi _)|by intros ->].
Qed.

Lemma span_within_range lim n s : is_Some (span_within lim n s) <-> Z.abs n <= lim.
Proof.
  unfold span_within. destruct (Z.leb_spec (Z.abs n) lim).
  - split; [done|by eexists].
  - split; [by intros [? ?]|lia].
Qed.

#[export] Instance model_arith_laws : ExtArithLaws.
Proof.
  split; intros; try apply span_within_range.
  - apply Zcompare_order.
  - apply sig_compare_order.
  - apply Zcompare_order.
  - apply sig_compare_order.
  - done.
Qed.
