(* ===== verification/DateTime.v ===== *)
(** * Date and time arithmetic and text (pgtypes/src/datetime.rs)

    Calendar arithmetic over the jiff operations, interval scaling in floating
    point, and the text forms of every date/time type. Outcomes of code that can
    panic (a span out of jiff's range, a slice inside a character) are [fault]s;
    unchecked integer arithmetic wraps as in a release build. *)
From Stdlib Require Import ZArith Lia Ascii.
From stdpp Require Import base list gmap strings.
From S2P Require Import Prelude Text Datum Float DateTimeBin ExtArith.
Open Scope Z_scope.

(** ** Intervals *)

Definition i32_try_from (n : Z) : result TypeError Z :=
  if decide (i32_ok n) then Ok n else Err Overflow.

(** [pgtypes/src/datetime.rs:50-86] mul_interval *)
Definition mul_interval (a : Interval) (factor : Z) : result TypeError Interval :=
  if negb (f64_is_finite factor) then Err Overflow
  else
    let months_f := f64_mul (f64_of_Z (months a)) factor in
    let months_whole := f64_trunc months_f in
    let months_frac := f64_fract months_f in
    let months := f64_as_i64 months_whole in
    let days_from_months := f64_mul months_frac (f64_of_Z 30) in
    let days_f := f64_add (f64_mul (f64_of_Z (days a)) factor) days_from_months in
    let days_whole := f64_trunc days_f in
    let days_frac := f64_fract days_f in
    let days := f64_as_i64 days_whole in
    let micros_from_days := f64_mul days_frac (f64_of_Z USECS_PER_DAY) in
    let micros_f := f64_add (f64_mul (f64_of_Z (micros a)) factor) micros_from_days in
    months ← i32_try_from months;
    days ← i32_try_from days;
    if negb (f64_is_finite micros_f) || f64_leb (f64_of_Z 9223372036854775808) (f64_abs micros_f)
    then Err Overflow
    else Ok (mkInterval months days (f64_as_i64 (f64_round_half_up micros_f))).

(** [pgtypes/src/datetime.rs:89-94] div_interval *)
Definition div_interval (a : Interval) (divisor : Z) : result TypeError Interval :=
  if f64_eqb divisor 0 then Err DivisionByZero
  else mul_interval a (f64_div (f64_of_Z 1) divisor).

Section DateTime.
Context `{ExtArith}.

(** ** Calendar arithmetic *)

(** [pgtypes/src/datetime.rs:97-102] date_plus_days *)
Definition date_plus_days (d : Date) (days : Z) : result (fault TypeError) Date :=
  span ← panic_or (span_days days);
  lift (ok_or (date_checked_add d span) (DatetimeFieldOverflow (z_to_string days))).

(** [pgtypes/src/datetime.rs:105-109] date_diff_days *)
Definition date_diff_days (a b : Date) : Z := date_since_days a b.

(** [pgtypes/src/datetime.rs:112-114] date_to_midnight *)
Definition date_to_midnight (d : Date) : DateTime := date_to_datetime d midnight.

Definition interval_overflow : TypeError := DatetimeFieldOverflow "interval arithmetic".

(** One step of an addition, skipped when its amount is zero. *)
Definition add_span (mk : Z -> option Span) (n : Z) (ts : DateTime)
  : result (fault TypeError) DateTime :=
  if negb (n =? 0) then
    span ← panic_or (mk n);
    lift (ok_or (datetime_checked_add ts span) interval_overflow)
  else Ok ts.

(** [pgtypes/src/datetime.rs:126-151] timestamp_plus_interval *)
Definition timestamp_plus_interval (ts : DateTime) (iv : Interval)
  : result (fault TypeError) DateTime :=
  after_months ← add_span span_months (months iv) ts;
  after_days ← add_span span_days (days iv) after_months;
  add_span span_microseconds (micros iv) after_days.

(** [pgtypes/src/datetime.rs:119-121] date_plus_interval *)
Definition date_plus_interval (d : Date) (iv : Interval) : result (fault TypeError) DateTime :=
  timestamp_plus_interval (date_to_midnight d) iv.

(** [pgtypes/src/datetime.rs:156-169] timestamp_diff *)
Definition timestamp_diff (a b : DateTime) : Interval :=
  let total_micros := datetime_since_us a b in
  mkInterval 0 (wrap_signed 32 (Z.quot total_micros USECS_PER_DAY))
    (Z.rem total_micros USECS_PER_DAY).

(** [pgtypes/src/datetime.rs:198-200] combine_date_time *)
Definition combine_date_time (d : Date) (t : Time) : DateTime := date_to_datetime d t.

Definition zoned_add (mk : Z -> option Span) (n : Z) (z : Zoned) : result (fault TypeError) Zoned :=
  span ← panic_or (mk n);
  lift (ok_or (zoned_checked_add z span) interval_overflow).

(** [pgtypes/src/datetime.rs:208-235] timestamptz_plus_interval *)
Definition timestamptz_plus_interval (ts : Timestamp) (iv : Interval) (tz : TimeZone)
  : result (fault TypeError) Timestamp :=
  let zoned := ts_to_zoned ts tz in
  after_cal ←
    (if negb (months iv =? 0) || negb (days iv =? 0) then
       z ← zoned_add span_months (months iv) zoned;
       zoned_add span_days (days iv) z
     else Ok zoned);
  after_micros ←
    (if negb (micros iv =? 0) then zoned_add span_microseconds (micros iv) after_cal
     else Ok after_cal);
  Ok (zoned_timestamp after_micros).

(** ** Text forms *)

(** The fraction's digits without trailing zeros. *)
Definition trim_zeros (s : string) : string := trim_end_char "0"%char s.

(** [pgtypes/src/datetime.rs:324-336] push_subsecond *)
Definition push_subsecond (out : string) (subsec_nanos : Z) : string :=
  let micros := Z.quot subsec_nanos 1000 in
  if micros =? 0 then out else out +:+ "." +:+ trim_zeros (pad_int 6 micros).

Definition all_digits (s : string) : bool := negb (bool_decide (s = "")) && digits_ok s.

(** [pgtypes/src/datetime.rs:345-366] parse_date *)
Definition parse_date (s : string) : result TypeError Date :=
  let t := trim s in
  let parts := split_on "-"%char t in
  let well_shaped := Nat.eqb (length parts) 3 && forallb all_digits parts in
  match date_from_str t with
  | Some d => Ok d
  | None => if well_shaped then Err (DatetimeFieldOverflow s)
            else Err (InvalidDatetimeFormat "date" s)
  end.

(** [pgtypes/src/datetime.rs:369-371] date_to_text *)
Definition date_to_text (d : Date) : string :=
  pad_int 4 (date_year d) +:+ "-" +:+ pad_int 2 (date_month d) +:+ "-" +:+ pad_int 2 (date_day d).

(** [pgtypes/src/datetime.rs:417-425] parse_time_inner *)
Definition parse_time_inner (t : string) : option Time :=
  match length (split_on ":"%char t) with
  | 2%nat => time_from_str (t +:+ ":00")
  | 3%nat => time_from_str t
  | _ => None
  end.

(** [pgtypes/src/datetime.rs:407-413] parse_time *)
Definition parse_time (s : string) : result TypeError Time :=
  ok_or (parse_time_inner (trim s)) (InvalidDatetimeFormat "time without time zone" s).

Definition clock_text (t : Time) : string :=
  pad_int 2 (time_hour t) +:+ ":" +:+ pad_int 2 (time_minute t) +:+ ":" +:+ pad_int 2 (time_second t).

(** [pgtypes/src/datetime.rs:428-432] time_to_text *)
Definition time_to_text (t : Time) : string :=
  push_subsecond (clock_text t) (time_subsec_nanosecond t).

Definition date_time_sep : Ascii.ascii -> bool := char_in [" "%char; "T"%char; "t"%char].

(** [pgtypes/src/datetime.rs:480-488] parse_timestamp_inner *)
Definition parse_timestamp_inner (t : string) : option DateTime :=
  sep ← find_char date_time_sep t;
  date ← date_from_str (str_take sep t);
  time ← parse_time_inner (str_drop (S sep) t);
  Some (date_to_datetime date time).

(** [pgtypes/src/datetime.rs:469-475] parse_timestamp *)
Definition parse_timestamp (s : string) : result TypeError DateTime :=
  ok_or (parse_timestamp_inner (trim s)) (InvalidDatetimeFormat "timestamp without time zone" s).

(** [pgtypes/src/datetime.rs:492-506] timestamp_to_text *)
Definition timestamp_to_text (ts : DateTime) : string :=
  let tm := datetime_time ts in
  push_subsecond (date_to_text (datetime_date ts) +:+ " " +:+ clock_text tm)
    (time_subsec_nanosecond tm).

(** ** Offsets *)

(** [pgtypes/src/datetime.rs:599-628] parse_offset_str: [None] is a panic on a
    slice inside a character *)
Definition parse_offset_str (s : string) : option (option Z) :=
  match s with
  | String c rest =>
      let signed :=
        match c with "+"%char => Some 1 | "-"%char => Some (-1) | _ => None end in
      match signed with
      | None => Some None
      | Some sign =>
          fields ←
            (if bool_decide (find_char (fun d => bool_decide (d = ":"%char)) rest <> None) then
               match split_on ":"%char rest with
               | [h; m] => Some (Some (h, m, "0"))
               | [h; m; sec] => Some (Some (h, m, sec))
               | _ => Some None
               end
             else
               match String.length rest with
               | 1%nat | 2%nat => Some (Some (rest, "0", "0"))
               | 4%nat =>
                   h ← slice 0 2 rest; m ← slice 2 4 rest; Some (Some (h, m, "0"))
               | 6%nat =>
                   h ← slice 0 2 rest; m ← slice 2 4 rest; sec ← slice 4 6 rest;
                   Some (Some (h, m, sec))
               | _ => Some None
               end);
          match fields with
          | None => Some None
          | Some (h, m, sec) =>
              Some (hours ← parse_i32 h; mins ← parse_i32 m; secs ← parse_i32 sec;
                    let w := wrap_signed 32 in
                    let total := w (sign * w (w (w (hours * 3600) + w (mins * 60)) + secs)) in
                    offset_from_seconds total)
          end
      end
  | EmptyString => Some None
  end.

(** [str::strip_suffix(['Z', 'z'])] *)
Definition strip_zulu (t : string) : option string :=
  match String.length t with
  | O => None
  | S n => if bool_decide (str_drop n t = "Z" \/ str_drop n t = "z") then Some (str_take n t) else None
  end.

(** [pgtypes/src/datetime.rs:574-596] split_offset *)
Definition split_offset (t : string) : option (string * option Z) :=
  match strip_zulu t with
  | Some stripped => Some (stripped, Some 0)
  | None =>
      match find_char date_time_sep t with
      | None => Some (t, None)
      | Some sep =>
          match find_char (char_in ["+"%char; "-"%char]) (str_drop (S sep) t) with
          | None => Some (t, None)
          | Some rel =>
              let abs := (S sep + rel)%nat in
              off ← parse_offset_str (str_drop abs t);
              match off with
              | Some off => Some (str_take abs t, Some off)
              | None => Some (t, None)
              end
          end
      end
  end.

(** [pgtypes/src/datetime.rs:547-569] parse_timestamptz *)
Definition parse_timestamptz (s : string) (tz : TimeZone) : result (fault TypeError) Timestamp :=
  '(civil_str, offset) ← panic_or (split_offset (trim s));
  dt ← lift (ok_or (parse_timestamp_inner civil_str)
               (InvalidDatetimeFormat "timestamp with time zone" s));
  lift (ok_or match offset with
              | Some off => offset_to_timestamp off dt
              | None => datetime_to_zoned_ts dt tz
              end (DatetimeFieldOverflow s)).

(** [pgtypes/src/datetime.rs:643-658] push_offset *)
Definition push_offset (out : string) (total : Z) : string :=
  let sign := if total <? 0 then "-" else "+" in
  let abs := Z.abs total in
  let hours := abs / 3600 in
  let mins := abs mod 3600 / 60 in
  let secs := abs mod 60 in
  out +:+ sign +:+ pad_int 2 hours +:+
  (if negb (mins =? 0) || negb (secs =? 0) then
     ":" +:+ pad_int 2 mins +:+ (if negb (secs =? 0) then ":" +:+ pad_int 2 secs else "")
   else "").

(** [pgtypes/src/datetime.rs:633-639] timestamptz_to_text *)
Definition timestamptz_to_text (ts : Timestamp) (tz : TimeZone) : string :=
  push_offset (timestamp_to_text (tz_to_datetime tz ts)) (tz_to_offset tz ts).

End DateTime.

(** ** Interval text *)

(** The seconds of a clock term: whole seconds and microseconds; the outer
    [None] is a panic on a slice inside a character. *)
Definition clock_seconds (sec : string) : option (option (Z * Z)) :=
  match split_once "."%char sec with
  | Some (whole, frac) =>
      match parse_i64 whole with
      | None => Some None
      | Some whole =>
          frac6 ← slice 0 6 (frac +:+ str_repeat (6 - String.length frac) "0"%char);
          Some (micros ← parse_i64 frac6; Some (whole, micros))
      end
  | None => Some (s ← parse_i64 sec; Some (s, 0))
  end.

(** [pgtypes/src/datetime.rs:747-777] parse_clock_term *)
Definition parse_clock_term (tok : string) : option (option Z) :=
  let '(sign, rest) :=
    match tok with
    | String "-"%char r => (-1, r)
    | String "+"%char r => (1, r)
    | _ => (1, tok)
    end in
  let parts := split_on ":"%char rest in
  match parts !! 0%nat ≫= parse_i64, parts !! 1%nat ≫= parse_i64 with
  | Some h, Some m =>
      secs ← match parts !! 2%nat with
             | Some sec => clock_seconds sec
             | None => Some (Some (0, 0))
             end;
      match secs with
      | None => Some None
      | Some (s_whole, s_frac_micros) =>
          if (3 <? length parts)%nat then Some None
          else
            let w := wrap_signed 64 in
            let total := w (w (w (w (h * 3600000000) + w (m * 60000000)) + w (s_whole * 1000000))
                            + s_frac_micros) in
            Some (Some (w (sign * total)))
      end
  | _, _ => Some None
  end.

(** The fields an interval text is summed into. *)
Record IntervalSum : Type := mkSum { s_months : Z; s_days : Z; s_micros : Z }.

Definition add_months (n : Z) (a : IntervalSum) : IntervalSum :=
  mkSum (wrap_signed 64 (s_months a + n)) (s_days a) (s_micros a).
Definition add_days (n : Z) (a : IntervalSum) : IntervalSum :=
  mkSum (s_months a) (wrap_signed 64 (s_days a + n)) (s_micros a).
Definition add_micros (n : Z) (a : IntervalSum) : IntervalSum :=
  mkSum (s_months a) (s_days a) (wrap_signed 128 (s_micros a + n)).

(** [x.round() as i128] and [as i64], with a factor. *)
Definition scaled_i128 (x k : Z) : Z := f64_as_i128 (f64_round_half_up (f64_mul x (f64_of_Z k))).

(** [pgtypes/src/datetime.rs:781-835] accumulate_unit *)
Definition accumulate_unit (qty : Z) (unit : string) (a : IntervalSum) : option IntervalSum :=
  let u := to_ascii_lowercase (trim_end_char "s"%char unit) in
  let whole := f64_as_i64 (f64_trunc qty) in
  let frac := f64_fract qty in
  if one_of u ["year"; "yr"] then
    Some (add_months (f64_as_i64 (f64_round_half_up (f64_mul frac (f64_of_Z 12))))
            (add_months (wrap_signed 64 (whole * 12)) a))
  else if one_of u ["month"; "mon"] then
    let d := f64_mul frac (f64_of_Z 30) in
    Some (add_micros (scaled_i128 (f64_fract d) USECS_PER_DAY)
            (add_days (f64_as_i64 (f64_trunc d)) (add_months whole a)))
  else if one_of u ["week"; "wk"] then
    Some (add_micros (scaled_i128 (f64_mul frac (f64_of_Z 7)) USECS_PER_DAY)
            (add_days (wrap_signed 64 (whole * 7)) a))
  else if one_of u ["day"] then
    Some (add_micros (scaled_i128 frac USECS_PER_DAY) (add_days whole a))
  else if one_of u ["hour"; "hr"; "h"] then
    Some (add_micros (scaled_i128 frac 3600000000) (add_micros (whole * 3600000000) a))
  else if one_of u ["minute"; "min"; "m"] then
    Some (add_micros (scaled_i128 frac 60000000) (add_micros (whole * 60000000) a))
  else if one_of u ["second"; "sec"; "s"] then
    Some (add_micros (scaled_i128 frac 1000000) (add_micros (whole * 1000000) a))
  else if one_of u ["millisecond"; "msec"; "ms"] then
    Some (add_micros (scaled_i128 qty 1000) a)
  else if one_of u ["microsecond"; "usec"; "us"] then
    Some (add_micros (f64_as_i128 (f64_round_half_up qty)) a)
  else None.

(** [pgtypes/src/datetime.rs:713-727] parse_interval, the loop over its words *)
Fixpoint interval_terms (tokens : list string) (a : IntervalSum) : option (option IntervalSum) :=
  match tokens with
  | [] => Some (Some a)
  | tok :: rest =>
      if bool_decide (find_char (fun c => bool_decide (c = ":"%char)) tok <> None) then
        m ← parse_clock_term tok;
        match m with
        | Some m => interval_terms rest (add_micros m a)
        | None => Some None
        end
      else
        match f64_parse tok, rest with
        | Some qty, unit :: rest =>
            match accumulate_unit qty unit a with
            | Some a => interval_terms rest a
            | None => Some None
            end
        | _, _ => Some None
        end
  end.

(** [pgtypes/src/datetime.rs:696-744] parse_interval *)
Definition parse_interval (s : string) : result (fault TypeError) Interval :=
  let t := trim s in
  let err := Raised (InvalidDatetimeFormat "interval" s) in
  if bool_decide (t = "") then Err err
  else
    a ← panic_or (interval_terms (split_whitespace t) (mkSum 0 0 0));
    a ← ok_or a err;
    let overflow := Raised (DatetimeFieldOverflow s) in
    months ← ok_or (checked_i32 (s_months a)) overflow;
    days ← ok_or (checked_i32 (s_days a)) overflow;
    micros ← ok_or (checked_i64 (s_micros a)) overflow;
    Ok (mkInterval months days micros).

(** [pgtypes/src/datetime.rs:877-893] format_clock *)
Definition format_clock (total_micros : Z) : string :=
  let abs := Z.abs total_micros in
  let hours := abs / 3600000000 in
  let rem := abs mod 3600000000 in
  let mins := rem / 60000000 in
  let rem := rem mod 60000000 in
  let secs := rem / 1000000 in
  let micros := rem mod 1000000 in
  push_subsecond
    ((if total_micros <? 0 then "-" else "") +:+
     pad_int 2 hours +:+ ":" +:+ pad_int 2 mins +:+ ":" +:+ pad_int 2 secs) (micros * 1000).

(** A quantity and its unit, singular only for one. *)
Definition quantity (n : Z) (unit : string) : list string :=
  if n =? 0 then [] else [z_to_string n +:+ " " +:+ unit +:+ (if n =? 1 then "" else "s")].

(** [pgtypes/src/datetime.rs:840-873] interval_to_text *)
Definition interval_to_text (iv : Interval) : string :=
  let parts :=
    quantity (Z.quot (months iv) 12) "year" ++ quantity (Z.rem (months iv) 12) "mon" ++
    quantity (days iv) "day" ++
    (if micros iv =? 0 then [] else [format_clock (micros iv)]) in
  match parts with [] => "00:00:00" | _ => str_join " " parts end.
