(* ===== verification/Numeric.v ===== *)
(** * The numeric type's text form (pgtypes/src/numeric.rs)

    Parsing, the format limits, canonicalisation and plain-decimal printing of
    numeric values, over the [BigDecimal] of the [Ext] parameter. *)
From Stdlib Require Import ZArith Lia.
From stdpp Require Import base list gmap strings.
From Stdlib Require Import Ascii.
From S2P Require Import Prelude Text Datum.
From S2P Require Import Float DateTimeBin ExtArith.
Open Scope Z_scope.

(** [str::starts_with('-')] and [str::trim_start_matches('-')] *)
Definition minus : Ascii.ascii := Ascii.ascii_of_N 45.
Definition starts_minus (s : string) : bool :=
  match s with String c _ => bool_decide (c = minus) | _ => false end.
Fixpoint strip_minus (s : string) : string :=
  match s with
  | String c t => if decide (c = minus) then strip_minus t else s
  | EmptyString => EmptyString
  end.

(** ** Values *)

Definition MAX_WEIGHT : Z := 131071.
Definition MAX_DSCALE : Z := 16383.

Section Numeric.
Context `{Ext}.

(** [pgtypes/src/numeric.rs:42-48] canonical *)
Definition canonical (bd : BigDecimal) : BigDecimal :=
  if (bd_parts bd).2 <? 0 then bd_with_scale_0 bd else bd.

(** [pgtypes/src/numeric.rs:72-81] within_format_limits *)
Definition within_format_limits (bd : BigDecimal) : bool :=
  let '(mant, exp) := bd_parts bd in
  if MAX_DSCALE <? exp then false
  else
    let ndigits := Z.of_nat (String.length (strip_minus (z_to_string mant))) in
    ndigits - 1 - exp <=? MAX_WEIGHT.

(** [pgtypes/src/numeric.rs:56-67] parse *)
Definition parse (s : string) : option BigDecimal :=
  let t := trim s in
  if decide (t = EmptyString) then None
  else
    bd ← bd_from_str t;
    if negb (within_format_limits bd) then None else Some (canonical bd).

(** [pgtypes/src/numeric.rs:86-105] to_text *)
Definition to_text (bd : BigDecimal) : string :=
  let '(mant, scale) := bd_parts bd in
  let s := z_to_string mant in
  let neg := starts_minus s in
  let digits := strip_minus s in
  let scale := Z.to_nat (Z.max scale 0) in
  let body :=
    if Nat.eqb scale 0 then digits
    else if (scale <? String.length digits)%nat then
      let point := (String.length digits - scale)%nat in
      str_take point digits +:+ "." +:+ str_drop point digits
    else
      "0." +:+ str_repeat (scale - String.length digits) (digit_char 0) +:+ digits in
  if neg && bool_decide (digits <> "0") then "-" +:+ body else body.

End Numeric.

(** ** Text without white space is not trimmed *)

Definition graphic (b : bytes) : Prop := Forall (fun x => 33 <= x <= 126) b.

Lemma graphic_ws_head b : graphic b -> ws_head b = 0%nat.
Proof.
  intros Hg. destruct Hg as [|x b Hx Hg]; [done|]. simpl. unfold in_range.
  replace (((9 <=? x) && (x <=? 13)) || (x =? 32)) with false by lia.
  destruct Hg as [|y b Hy Hg]; [done|].
  replace (x =? 194) with false by lia. simpl.
  destruct b; [done|].
  replace (x =? 225) with false by lia. replace (x =? 226) with false by lia.
  by replace (x =? 227) with false by lia.
Qed.

Lemma graphic_ws_tail b : graphic b -> ws_tail b = 0%nat.
Proof.
  intros Hg. unfold ws_tail.
  assert (forall n, ws_head (rev (take n b)) = 0%nat) as E.
  { intros n. apply graphic_ws_head. apply Forall_rev, Forall_take, Hg. }
  by rewrite !E.
Qed.

Lemma trim_with_0 ws fuel b : ws b = 0%nat -> trim_with ws fuel b = b.
Proof. intros E. destruct fuel; simpl; [done|]. by rewrite E. Qed.

Lemma trim_graphic s : graphic (str_bytes s) -> trim s = s.
Proof.
  intros Hg. unfold trim.
  rewrite (trim_with_0 ws_head) by (by apply graphic_ws_head).
  rewrite trim_with_0 by (by apply graphic_ws_tail, Forall_rev).
  rewrite rev_involutive. apply str_of_str_bytes.
Qed.

Lemma graphic_app s t :
  graphic (str_bytes (s +:+ t)) <-> graphic (str_bytes s) /\ graphic (str_bytes t).
Proof. rewrite str_bytes_app. apply Forall_app. Qed.

Lemma digits_graphic s : digits_ok s = true -> graphic (str_bytes s).
Proof.
  induction s as [|c s IH]; simpl; [constructor|].
  unfold is_digit, in_range. rewrite !andb_true_iff. intros [Hc Hs].
  constructor; [lia|]. by apply IH.
Qed.

Lemma digits_no_minus s :
  digits_ok s = true -> strip_minus s = s /\ starts_minus s = false.
Proof.
  destruct s as [|c s]; simpl; [done|]. rewrite andb_true_iff. intros [Hc _].
  assert (c <> minus) by (intros ->; by vm_compute in Hc).
  rewrite decide_False, bool_decide_eq_false_2 by done. done.
Qed.

Lemma z_to_string_split m :
  strip_minus (z_to_string m) = dec_string (Z.abs m) /\
  starts_minus (z_to_string m) = (m <? 0).
Proof.
  unfold z_to_string. destruct (Z.ltb_spec m 0).
  - change ("-" +:+ dec_string (- m)) with (String minus (dec_string (- m))). simpl.
    rewrite Z.abs_neq by lia.
    by destruct (digits_no_minus (dec_string (- m))) as [-> _];
      [apply dec_string_digits; lia|].
  - rewrite Z.abs_eq by lia. apply digits_no_minus, dec_string_digits. lia.
Qed.

(** ** The round trip *)

Section RoundTrip.
Context `{ExtLaws}.

(** The shape [to_text] prints: an integer part, and a fraction part of exactly
    [scale] digits. *)
Lemma to_text_shape bd :
  0 <= (bd_parts bd).2 ->
  exists (neg : bool) ip fp,
    to_text bd = (if neg then "-" else "") +:+ ip +:+
                 (if decide (fp = EmptyString) then "" else "." +:+ fp) /\
    digits_ok ip = true /\ ip <> EmptyString /\ digits_ok fp = true /\
    (if neg then -1 else 1) * digits_val 0 (ip +:+ fp) = (bd_parts bd).1 /\
    Z.of_nat (String.length fp) = (bd_parts bd).2.
Proof.
  unfold to_text. destruct (bd_parts bd) as [m e]; simpl. intros He.
  destruct (z_to_string_split m) as [-> ->].
  pose proof (dec_string_digits (Z.abs m) ltac:(lia)) as Hd.
  pose proof (dec_string_nonempty (Z.abs m)) as Hne.
  pose proof (dec_string_val (Z.abs m) ltac:(lia)) as Hv.
  assert ((m <? 0) && bool_decide (dec_string (Z.abs m) <> "0") = (m <? 0)) as ->.
  { destruct (Z.ltb_spec m 0); [simpl|done]. apply bool_decide_eq_true. intros E.
    rewrite E in Hv. change (digits_val 0 "0") with 0 in Hv. lia. }
  exists (m <? 0). rewrite Z.max_l by done.
  set (ds := dec_string (Z.abs m)) in *. set (k := Z.to_nat e).
  assert (Z.of_nat k = e) as Hk by lia.
  assert ((if m <? 0 then -1 else 1) * Z.abs m = m) as Hm
    by (destruct (Z.ltb_spec m 0); lia).
  destruct (Nat.eqb_spec k 0) as [E0|E0].
  { exists ds, EmptyString. rewrite decide_True, !str_app_nil_r, Hv by done.
    split_and!; try done; [by destruct (m <? 0) | simpl; lia]. }
  destruct (Nat.ltb_spec k (String.length ds)) as [El|El].
  - set (p := (String.length ds - k)%nat).
    pose proof (str_take_drop p ds) as Ht.
    exists (str_take p ds), (str_drop p ds).
    rewrite Ht, Hv. rewrite <- Ht, digits_ok_app, andb_true_iff in Hd.
    pose proof (str_length_drop p ds). pose proof (str_length_take p ds).
    rewrite decide_False by (intros E; rewrite E in *; simpl in *; lia).
    split_and!; try tauto; [by destruct (m <? 0) | | lia].
    intros E. rewrite E in *. simpl in *. lia.
  - exists "0", (str_repeat (k - String.length ds) (digit_char 0) +:+ ds).
    rewrite digits_ok_app, digits_ok_zeros, Hd.
    rewrite decide_False by (intros E%(f_equal String.length);
      rewrite str_length_app, str_length_repeat in E; simpl in E; lia).
    rewrite str_app_cons. simpl digits_val. rewrite !digits_val_app, digits_val_zeros, Hv.
    rewrite str_length_app, str_length_repeat.
    split_and!; try done; [by destruct (m <? 0) | lia].
Qed.

(** A canonical numeric within the format limits is read back, scale included,
    from its text. *)
Lemma parse_to_text bd :
  0 <= (bd_parts bd).2 -> within_format_limits bd = true ->
  parse (to_text bd) = Some bd.
Proof.
  intros He Hl.
  destruct (to_text_shape bd He) as (neg & ip & fp & -> & Hip & Hne & Hfp & Hm & Hs).
  destruct (bd_from_str_plain neg ip fp Hip Hne Hfp) as (d & Hd & Hp).
  unfold parse. rewrite trim_graphic.
  - rewrite decide_False by (destruct neg, ip; done). rewrite Hd. rsimpl.
    assert (d = bd) as ->.
    { apply bd_by_parts. rewrite Hp, Hm, Hs. by destruct (bd_parts bd). }
    rewrite Hl. rsimpl. unfold canonical.
    by destruct (Z.ltb_spec (bd_parts bd).2 0); [lia|].
  - rewrite !graphic_app. split_and!; [destruct neg; repeat constructor; done | |].
    + by apply digits_graphic.
    + case_decide; [constructor|]. rewrite graphic_app.
      split; [repeat constructor; done | by apply digits_graphic].
Qed.

(** What [parse] accepts is canonical and within the limits' scale bound. *)
Lemma parse_canonical s bd : parse s = Some bd -> 0 <= (bd_parts bd).2 <= MAX_DSCALE.
Proof.
  unfold parse. case_decide; [done|]. destruct (bd_from_str _) as [d|]; rsimpl; [|done].
  destruct (within_format_limits d) eqn:Hl; [|done]. rsimpl. intros [= <-].
  unfold within_format_limits in Hl. unfold canonical, MAX_DSCALE in *.
  destruct (bd_parts d) as [m e] eqn:Hp. simpl in *.
  destruct (Z.ltb_spec e 0).
  - rewrite bd_with_scale_0_parts by (rewrite Hp; done). simpl. lia.
  - rewrite Hp. simpl. by destruct (Z.ltb_spec 16383 e); [|lia].
Qed.

End RoundTrip.

(** ** Numeric arithmetic and binary form (pgtypes/src/numeric.rs)

    The arithmetic of the numeric type, its scale rules, conversions and type
    modifiers over the [BigDecimal] operations, and its binary wire form. *)
Definition MIN_SIG_DIGITS : Z := 16.
Definition DEC_DIGITS : Z := 4.
Definition MAX_DISPLAY_SCALE : Z := 1000.

(** ** The binary form *)

(** The groups of four digits of a text, as numbers. *)
Fixpoint digit_groups (fuel : nat) (s : string) : list Z :=
  match fuel with
  | O => []
  | S fuel =>
      match s with
      | EmptyString => []
      | _ => digits_val 0 (str_take 4 s) :: digit_groups fuel (str_drop 4 s)
      end
  end.
Definition groups_of (s : string) : list Z := digit_groups (String.length s) s.

(** Zeros to a multiple of four digits. *)
Definition pad4 (s : string) : string :=
  str_repeat ((4 - String.length s mod 4) mod 4)%nat "0"%char.

Fixpoint drop_leading_zeros (l : list Z) (weight : Z) : list Z * Z :=
  match l with
  | x :: l' => if x =? 0 then drop_leading_zeros l' (weight - 1) else (l, weight)
  | [] => ([], weight)
  end.

Definition drop_trailing_zeros (l : list Z) : list Z :=
  rev (drop_leading_zeros (rev l) 0).1.

Definition be16 (v : Z) : bytes := be_bytes 2 v.

Section NumericArith.
Context `{ExtArith}.

(** [pgtypes/src/numeric.rs:113-179] binary *)
Definition binary (bd : BigDecimal) : bytes :=
  let '(mant, scale) := bd_parts bd in
  let dscale := wrap_signed 16 (Z.max scale 0) in
  let s := z_to_string mant in
  let neg := starts_minus s in
  let digits := strip_minus s in
  let scale_u := Z.to_nat (Z.max scale 0) in
  let len := String.length digits in
  let '(int_str, frac_str) :=
    if (scale_u <? len)%nat then
      (str_take (len - scale_u) digits, str_drop (len - scale_u) digits)
    else ("", str_repeat (scale_u - len) "0"%char +:+ digits) in
  let int_groups := groups_of (pad4 int_str +:+ int_str) in
  let frac_groups := groups_of (frac_str +:+ pad4 frac_str) in
  let '(nbase, weight) :=
    drop_leading_zeros (int_groups ++ frac_groups) (Z.of_nat (length int_groups) - 1) in
  let nbase := drop_trailing_zeros nbase in
  let '(weight, sign) :=
    match nbase with
    | [] => (0, 0)
    | _ => (weight, if neg then 16384 else 0)
    end in
  be16 (Z.of_nat (length nbase)) ++ be16 weight ++ be16 sign ++ be16 dscale ++
  concat (map be16 nbase).

(** ** Arithmetic *)

(** [pgtypes/src/numeric.rs:182-184] add *)
Definition num_add (a b : BigDecimal) : BigDecimal := canonical (bd_add a b).

(** [pgtypes/src/numeric.rs:186-188] sub *)
Definition num_sub (a b : BigDecimal) : BigDecimal := canonical (bd_sub a b).

(** [pgtypes/src/numeric.rs:190-192] mul *)
Definition num_mul (a b : BigDecimal) : BigDecimal := canonical (bd_mul a b).

(** [pgtypes/src/numeric.rs:252-258] is_zero *)
Definition num_is_zero (bd : BigDecimal) : bool :=
  bool_decide (strip_minus (z_to_string (bd_parts bd).1) = "0").

(** [pgtypes/src/numeric.rs:280-295] nbase_weight_and_lead *)
Definition nbase_weight_and_lead (bd : BigDecimal) : Z * Z :=
  let '(mant, scale) := bd_parts bd in
  let digits := strip_minus (z_to_string mant) in
  if bool_decide (digits = "0") then (0, 0)
  else
    let dweight := Z.of_nat (String.length digits) - 1 - scale in
    let w := dweight / DEC_DIGITS in
    let count := Z.to_nat (dweight - DEC_DIGITS * w + 1) in
    let lead := str_take count digits in
    let lead := lead +:+ str_repeat (count - String.length lead) "0"%char in
    (w, digits_val 0 lead).

(** [i64::clamp] *)
Definition clamp (lo hi x : Z) : Z := Z.max lo (Z.min hi x).

(** [pgtypes/src/numeric.rs:263-275] select_div_scale *)
Definition select_div_scale (a b : BigDecimal) : Z :=
  let '(w1, f1) := nbase_weight_and_lead a in
  let '(w2, f2) := nbase_weight_and_lead b in
  let qweight := w1 - w2 in
  let qweight := if f1 <? f2 then qweight - 1 else qweight in
  let s1 := Z.max (bd_parts a).2 0 in
  let s2 := Z.max (bd_parts b).2 0 in
  clamp 0 MAX_DISPLAY_SCALE (Z.max (MIN_SIG_DIGITS - qweight * DEC_DIGITS) (s1 + s2)).

(** [pgtypes/src/numeric.rs:196-202] div *)
Definition num_div (a b : BigDecimal) : result TypeError BigDecimal :=
  if num_is_zero b then Err DivisionByZero
  else Ok (bd_with_scale_round (bd_div a b) (select_div_scale a b) HalfUp).

(** [pgtypes/src/numeric.rs:206-211] rem *)
Definition num_rem (a b : BigDecimal) : result TypeError BigDecimal :=
  if num_is_zero b then Err DivisionByZero else Ok (canonical (bd_rem a b)).

(** [pgtypes/src/numeric.rs:213-215] abs *)
Definition num_abs (bd : BigDecimal) : BigDecimal := bd_abs bd.

(** [pgtypes/src/numeric.rs:218-220] floor *)
Definition num_floor (bd : BigDecimal) : BigDecimal := canonical (bd_with_scale_round bd 0 Floor).

(** [pgtypes/src/numeric.rs:223-225] ceil *)
Definition num_ceil (bd : BigDecimal) : BigDecimal := canonical (bd_with_scale_round bd 0 Ceiling).

(** [pgtypes/src/numeric.rs:232-234] round *)
Definition num_round (bd : BigDecimal) (n : Z) : BigDecimal :=
  canonical (bd_with_scale_round bd (Z.min n MAX_DSCALE) HalfUp).

(** [pgtypes/src/numeric.rs:238-240] trunc *)
Definition num_trunc (bd : BigDecimal) (n : Z) : BigDecimal :=
  canonical (bd_with_scale_round bd (Z.min n MAX_DSCALE) Down).

(** [pgtypes/src/numeric.rs:243-250] sign *)
Definition num_sign (bd : BigDecimal) : BigDecimal :=
  match bd_cmp bd (bd_of_Z 0) with
  | Lt => bd_of_Z (-1)
  | Eq => bd_of_Z 0
  | Gt => bd_of_Z 1
  end.

(** ** Conversions *)

(** [pgtypes/src/numeric.rs:353-357] to_i32 *)
Definition num_to_i32 (bd : BigDecimal) : result TypeError Z :=
  ok_or (bd_to_i32 (bd_with_scale_round bd 0 HalfUp)) Overflow.

(** [pgtypes/src/numeric.rs:358-362] to_i64 *)
Definition num_to_i64 (bd : BigDecimal) : result TypeError Z :=
  ok_or (bd_to_i64 (bd_with_scale_round bd 0 HalfUp)) Overflow.

(** [pgtypes/src/numeric.rs:364-366] from_i64 *)
Definition num_from_i64 (n : Z) : BigDecimal := bd_of_Z n.

(** [pgtypes/src/numeric.rs:371-376] from_f64 *)
Definition num_from_f64 (f : Z) : result TypeError BigDecimal :=
  if negb (f64_is_finite f) then Err Overflow else ok_or (parse (f64_display f)) Overflow.

(** [pgtypes/src/numeric.rs:380-382] to_f64 *)
Definition num_to_f64 (bd : BigDecimal) : Z := default F64_INFINITY (bd_to_f64 bd).

(** [pgtypes/src/numeric.rs:387-398] apply_typmod *)
Definition apply_typmod (bd : BigDecimal) (tm : Typmod) : result TypeError BigDecimal :=
  let r := bd_with_scale_round bd (Datum.scale tm) HalfUp in
  let '(mant, scale) := bd_parts r in
  let len := Z.of_nat (String.length (strip_minus (z_to_string mant))) in
  if negb (num_is_zero r) && (precision tm - Datum.scale tm <? len - scale) then Err Overflow
  else Ok (canonical r).

End NumericArith.
