(* ===== verification/NumericFn.v ===== *)
(** * Numeric functions (pgtypes/src/numeric.rs)

    The roots, logarithms and powers of the numeric type with their result
    scales, over dashu's floats, and the template engine of [to_char]. *)
From Stdlib Require Import ZArith Lia Ascii.
From stdpp Require Import base list gmap strings.
From S2P Require Import Prelude Text Chars Datum Float DateTimeBin ExtArith Numeric.
Open Scope Z_scope.

Definition TRANSC_MAX_SCALE : Z := 1000.

(** [i64::saturating_add] *)
Definition sat_add_i64 (x y : Z) : Z := clamp (-9223372036854775808) 9223372036854775807 (x + y).

(** [pgtypes/src/numeric.rs:1143-1149] transc_prec *)
Definition transc_prec (result_dweight rscale : Z) : Z :=
  clamp 24 (MAX_WEIGHT + 64)
    (sat_add_i64 (sat_add_i64 (Z.max result_dweight 0) (Z.max rscale 0)) 16).

(** [pgtypes/src/numeric.rs:1160-1165] err_sqrt_negative *)
Definition err_sqrt_negative : TypeError :=
  Domain "2201F" "cannot take square root of a negative number".
(** [pgtypes/src/numeric.rs:1167-1172] err_log_nonpositive *)
Definition err_log_nonpositive : TypeError :=
  Domain "2201E" "cannot take logarithm of a non-positive number".
(** [pgtypes/src/numeric.rs:1174-1179] err_zero_neg_power *)
Definition err_zero_neg_power : TypeError :=
  Domain "2201F" "zero raised to a negative power is undefined".
(** [pgtypes/src/numeric.rs:1181-1186] err_neg_noninteger_power *)
Definition err_neg_noninteger_power : TypeError :=
  Domain "2201F" "a negative number raised to a non-integer power yields a complex result".

(** [BigDecimal::powi] *)
Class ExtPow `{Ext} : Type := { bd_powi : BigDecimal -> Z -> BigDecimal }.

Section Transcendental.
Context `{ExtArith} `{MathLib}.

(** [BigDecimal::sign() == Minus] and [is_integer], by the value's parts *)
Definition bd_negative (bd : BigDecimal) : bool := (bd_parts bd).1 <? 0.
Definition bd_is_integer (bd : BigDecimal) : bool :=
  let '(m, e) := bd_parts bd in (e <=? 0) || (m mod 10 ^ e =? 0).

(** [pgtypes/src/numeric.rs:302-309] decimal_weight *)
Definition decimal_weight (bd : BigDecimal) : Z :=
  if num_is_zero bd then 0
  else
    let '(mant, scale) := bd_parts bd in
    Z.of_nat (String.length (strip_minus (z_to_string mant))) - 1 - scale.

Definition fraction_digits (bd : BigDecimal) : Z := Z.max (bd_parts bd).2 0.

(** [pgtypes/src/numeric.rs:312-318] sqrt_rscale *)
Definition sqrt_rscale (arg : BigDecimal) : Z :=
  let w := (nbase_weight_and_lead arg).1 in
  let sweight := Z.quot (w * DEC_DIGITS) 2 + 1 in
  clamp 0 TRANSC_MAX_SCALE (Z.max (MIN_SIG_DIGITS - sweight) (fraction_digits arg)).

(** [pgtypes/src/numeric.rs:321-329] exp_rscale *)
Definition exp_rscale (arg : BigDecimal) : Z :=
  let val := default 0 (bd_to_f64 arg) in
  let ln_dweight := f64_as_i64 (f64_mul val F64_LOG10_E) in
  clamp 0 TRANSC_MAX_SCALE (Z.max (MIN_SIG_DIGITS - ln_dweight) (fraction_digits arg)).

(** [pgtypes/src/numeric.rs:332-342] estimate_ln_dweight *)
Definition estimate_ln_dweight (arg : BigDecimal) : Z :=
  let dw := decimal_weight arg in
  if dw =? 0 then 0
  else
    let est := f64_as_i64 (f64_floor (f64_log10 (f64_mul (f64_of_Z (Z.abs dw)) F64_LN_10))) in
    Z.max est 0.

(** [pgtypes/src/numeric.rs:345-349] ln_rscale *)
Definition ln_rscale (arg : BigDecimal) : Z :=
  clamp 0 TRANSC_MAX_SCALE (Z.max (MIN_SIG_DIGITS - estimate_ln_dweight arg) (fraction_digits arg)).

(** [pgtypes/src/numeric.rs:1086-1092] num_to_bf *)
Definition num_to_bf (s : string) (prec : Z) : result (fault TypeError) DBig :=
  panic_or (dbig_new s prec).

(** [pgtypes/src/numeric.rs:1108-1115] bf_ln *)
Definition bf_ln (x : DBig) : option DBig :=
  match dbig_cmp_zero x with Gt => Some (dbig_ln x) | _ => None end.

(** [pgtypes/src/numeric.rs:1119-1124] bf_sqrt *)
Definition bf_sqrt (x : DBig) : option DBig :=
  match dbig_cmp_zero x with Lt => None | _ => Some (dbig_sqrt x) end.

(** [pgtypes/src/numeric.rs:1128-1133] bf_powf *)
Definition bf_powf (base exp : DBig) : option DBig :=
  match dbig_cmp_zero base with Gt => Some (dbig_powf base exp) | _ => None end.

(** [pgtypes/src/numeric.rs:1154-1157] finish_transc *)
Definition finish_transc (value_text : string) (rscale : Z) : result (fault TypeError) BigDecimal :=
  bd ← panic_or (parse value_text);
  Ok (canonical (bd_with_scale_round bd rscale HalfUp)).

(** [pgtypes/src/numeric.rs:1190-1203] num_sqrt *)
Definition num_sqrt (arg : BigDecimal) : result (fault TypeError) BigDecimal :=
  let rscale := sqrt_rscale arg in
  if num_is_zero arg then Ok (canonical (bd_with_scale_round (bd_of_Z 0) rscale HalfUp))
  else if bd_negative arg then Err (Raised err_sqrt_negative)
  else
    let prec := transc_prec (Z.quot (decimal_weight arg) 2) rscale in
    x ← num_to_bf (to_text arg) prec;
    v ← ok_or (bf_sqrt x) (Raised err_sqrt_negative);
    finish_transc (dbig_display v) rscale.

(** [pgtypes/src/numeric.rs:1207-1215] num_ln *)
Definition num_ln (arg : BigDecimal) : result (fault TypeError) BigDecimal :=
  if num_is_zero arg || bd_negative arg then Err (Raised err_log_nonpositive)
  else
    let rscale := ln_rscale arg in
    let prec := transc_prec (estimate_ln_dweight arg + 1) rscale in
    x ← num_to_bf (to_text arg) prec;
    v ← ok_or (bf_ln x) (Raised err_log_nonpositive);
    finish_transc (dbig_display v) rscale.

(** [pgtypes/src/numeric.rs:1218-1233] num_log10 *)
Definition num_log10 (arg : BigDecimal) : result (fault TypeError) BigDecimal :=
  if num_is_zero arg || bd_negative arg then Err (Raised err_log_nonpositive)
  else
    let rscale := ln_rscale arg in
    let prec := transc_prec (estimate_ln_dweight arg + 1) rscale + 8 in
    x ← num_to_bf (to_text arg) prec;
    lnx ← ok_or (bf_ln x) (Raised err_log_nonpositive);
    ten ← num_to_bf "10" prec;
    ln10 ← panic_or (bf_ln ten);
    lnx_bd ← panic_or (parse (dbig_display lnx));
    ln10_bd ← panic_or (parse (dbig_display ln10));
    let quotient := bd_with_scale_round (bd_div lnx_bd ln10_bd) (rscale + 4) HalfUp in
    Ok (canonical (bd_with_scale_round quotient rscale HalfUp)).

(** The f64 of a decimal, infinite beyond the range. *)
Definition to_f64_or_infinity (bd : BigDecimal) : Z :=
  default (if bd_negative bd then F64_NEG_INFINITY else F64_INFINITY) (bd_to_f64 bd).

(** [pgtypes/src/numeric.rs:1238-1256] num_exp *)
Definition num_exp (arg : BigDecimal) : result (fault TypeError) BigDecimal :=
  let val := to_f64_or_infinity arg in
  if f64_leb (f64_of_Z 6000) val then Err (Raised Overflow)
  else
    let rscale := exp_rscale arg in
    let result_dweight := f64_as_i64 (f64_mul val F64_LOG10_E) in
    let prec := transc_prec result_dweight rscale in
    x ← num_to_bf (to_text arg) prec;
    finish_transc (dbig_display (dbig_exp x)) rscale.

(** [pgtypes/src/numeric.rs:1312-1321] is_power_of_ten *)
Definition is_power_of_ten (value : BigDecimal) : bool :=
  if num_is_zero value then false
  else bool_decide (trim_end_char "0"%char (strip_minus (z_to_string (bd_parts value).1)) = "1").

(** [pgtypes/src/numeric.rs:1331-1339] power_finish *)
Definition power_finish (value : BigDecimal) : BigDecimal :=
  let rweight := decimal_weight value in
  let rscale :=
    if (rweight <? 0) && negb (is_power_of_ten value)
    then clamp 0 TRANSC_MAX_SCALE (MIN_SIG_DIGITS - rweight - 1)
    else clamp 0 TRANSC_MAX_SCALE (MIN_SIG_DIGITS - rweight) in
  canonical (bd_with_scale_round value rscale HalfUp).

(** [pgtypes/src/numeric.rs:1260-1307] num_power *)
Definition num_power `{!ExtPow} (base exp : BigDecimal) : result (fault TypeError) BigDecimal :=
  if num_is_zero base then
    if bd_negative exp then Err (Raised err_zero_neg_power)
    else if num_is_zero exp then Ok (power_finish (bd_of_Z 1))
    else Ok (power_finish (bd_of_Z 0))
  else if bd_negative base && negb (bd_is_integer exp) then Err (Raised err_neg_noninteger_power)
  else
    let exp_f64 := to_f64_or_infinity exp in
    let base_log10 :=
      match bd_to_f64 base with Some b => f64_log10 (f64_abs b) | None => F64_INFINITY end in
    let est_weight := f64_mul exp_f64 base_log10 in
    if f64_ltb (f64_of_Z MAX_WEIGHT) est_weight then Err (Raised Overflow)
    else
      let powf :=
        let rweight := f64_as_i64 (f64_mul exp_f64 (f64_of_Z (decimal_weight base))) in
        let rscale := clamp 0 TRANSC_MAX_SCALE (MIN_SIG_DIGITS - rweight) in
        let prec := transc_prec rweight rscale in
        b ← num_to_bf (to_text base) prec;
        e ← num_to_bf (to_text exp) prec;
        v ← ok_or (bf_powf b e) (Raised err_neg_noninteger_power);
        finish_transc (dbig_display v) rscale in
      match (if bd_is_integer exp then res_ok (num_to_i64 exp) else None) with
      | Some e => Ok (power_finish (bd_powi base e))
      | None => powf
      end.

End Transcendental.

(** ** The [to_char] templates *)

(** [pgtypes/src/numeric.rs:430-435] Anchor *)
Inductive Anchor : Type := Leading | Trailing.

(** [pgtypes/src/numeric.rs:439-460] SignMode *)
Inductive SignMode : Type :=
| SDefault
| SS (a : Anchor)
| SMi (a : Anchor)
| SPl (a : Anchor)
| SSg (a : Anchor)
| SPr.

(** [pgtypes/src/numeric.rs:464-491] NumDesc; [pre] is the length of [int_zero] *)
Record NumDesc : Type := mkDesc {
  nd_post : nat;
  nd_int_zero : list bool;
  nd_group_before : list nat;
  nd_has_point : bool;
  nd_sign : SignMode;
  nd_currency : option Anchor;
  nd_v_shift : option nat;
  nd_fill_mode : bool;
  nd_ordinal : option bool;
  nd_seen_digit : bool
}.

Definition nd_pre (d : NumDesc) : nat := length (nd_int_zero d).

Definition desc_empty : NumDesc := mkDesc 0 [] [] false SDefault None None false None false.

(** [pgtypes/src/numeric.rs:624-630] anchor_of *)
Definition anchor_of (seen_digit : bool) : Anchor := if seen_digit then Trailing else Leading.

Definition code (c : Ascii.ascii) : Z := byte_of_ascii c.

(** [pgtypes/src/numeric.rs:633-642] matches_ci, on the rest of the template *)
Definition matches_ci (cs : list Z) (pat : string) : bool :=
  starts_with (map char_lower (chars pat)) (map char_lower cs).

(** [pgtypes/src/numeric.rs:645-651] matches_at *)
Definition matches_at (cs : list Z) (pat : string) : bool := starts_with (chars pat) cs.

Definition set_sign (m : SignMode) (d : NumDesc) : NumDesc :=
  mkDesc (nd_post d) (nd_int_zero d) (nd_group_before d) (nd_has_point d) m (nd_currency d)
    (nd_v_shift d) (nd_fill_mode d) (nd_ordinal d) (nd_seen_digit d).
Definition set_currency (a : Anchor) (d : NumDesc) : NumDesc :=
  mkDesc (nd_post d) (nd_int_zero d) (nd_group_before d) (nd_has_point d) (nd_sign d) (Some a)
    (nd_v_shift d) (nd_fill_mode d) (nd_ordinal d) (nd_seen_digit d).
Definition set_fill (d : NumDesc) : NumDesc :=
  mkDesc (nd_post d) (nd_int_zero d) (nd_group_before d) (nd_has_point d) (nd_sign d) (nd_currency d)
    (nd_v_shift d) true (nd_ordinal d) (nd_seen_digit d).
Definition set_ordinal (o : option bool) (d : NumDesc) : NumDesc :=
  mkDesc (nd_post d) (nd_int_zero d) (nd_group_before d) (nd_has_point d) (nd_sign d) (nd_currency d)
    (nd_v_shift d) (nd_fill_mode d) o (nd_seen_digit d).
Definition set_point (d : NumDesc) : NumDesc :=
  mkDesc (nd_post d) (nd_int_zero d) (nd_group_before d) true (nd_sign d) (nd_currency d)
    (nd_v_shift d) (nd_fill_mode d) (nd_ordinal d) (nd_seen_digit d).
Definition add_group (d : NumDesc) : NumDesc :=
  if nd_has_point d then d
  else
    mkDesc (nd_post d) (nd_int_zero d) (nd_group_before d ++ [nd_pre d]) false (nd_sign d)
      (nd_currency d) (nd_v_shift d) (nd_fill_mode d) (nd_ordinal d) (nd_seen_digit d).
Definition add_digit (zero : bool) (d : NumDesc) : NumDesc :=
  if nd_has_point d then
    mkDesc (S (nd_post d)) (nd_int_zero d) (nd_group_before d) true (nd_sign d) (nd_currency d)
      (nd_v_shift d) (nd_fill_mode d) (nd_ordinal d) true
  else
    mkDesc (nd_post d) (nd_int_zero d ++ [zero]) (nd_group_before d) false (nd_sign d)
      (nd_currency d) (nd_v_shift d) (nd_fill_mode d) (nd_ordinal d) true.
Definition set_shift (zs : list bool) (d : NumDesc) : NumDesc :=
  mkDesc (nd_post d) (nd_int_zero d ++ zs) (nd_group_before d) (nd_has_point d) (nd_sign d)
    (nd_currency d) (Some (length zs)) (nd_fill_mode d) (nd_ordinal d) true.

Definition is_nine_zero (c : Z) : bool := (c =? code "9") || (c =? code "0").

(** The digits behind a [V], and the rest. *)
Fixpoint shift_digits (cs : list Z) : list bool * list Z :=
  match cs with
  | c :: t =>
      if is_nine_zero c then let '(zs, r) := shift_digits t in ((c =? code "0") :: zs, r)
      else ([], cs)
  | [] => ([], [])
  end.

Definition is_code (c : Z) (l : list Ascii.ascii) : bool := existsb (fun a => c =? code a) l.

(** [pgtypes/src/numeric.rs:515-607] parse_num_template, the loop *)
Fixpoint template_loop (fuel : nat) (cs : list Z) (d : NumDesc) : NumDesc :=
  match fuel, cs with
  | S fuel, c :: t =>
      if matches_ci cs "FM" then template_loop fuel (drop 2 cs) (set_fill d)
      else if matches_at cs "TH" then template_loop fuel (drop 2 cs) (set_ordinal (Some true) d)
      else if matches_at cs "th" then template_loop fuel (drop 2 cs) (set_ordinal (Some false) d)
      else
        let anchor := anchor_of (nd_seen_digit d) in
        if matches_ci cs "MI" then template_loop fuel (drop 2 cs) (set_sign (SMi anchor) d)
        else if matches_ci cs "PL" then template_loop fuel (drop 2 cs) (set_sign (SPl anchor) d)
        else if matches_ci cs "SG" then template_loop fuel (drop 2 cs) (set_sign (SSg anchor) d)
        else if matches_ci cs "PR" then template_loop fuel (drop 2 cs) (set_sign SPr d)
        else if is_code c ["V"; "v"]%char then
          let '(zs, r) := shift_digits t in template_loop fuel r (set_shift zs d)
        else
          template_loop fuel t
            (if is_nine_zero c then add_digit (c =? code "0") d
             else if is_code c ["."; "D"; "d"]%char then set_point d
             else if is_code c [","; "G"; "g"]%char then add_group d
             else if is_code c ["S"; "s"]%char then set_sign (SS anchor) d
             else if is_code c ["L"; "l"; "$"]%char then set_currency anchor d
             else d)
  | _, _ => d
  end.

(** [pgtypes/src/numeric.rs:497-621] parse_num_template *)
Definition parse_num_template (template : string) : NumDesc :=
  let cs := chars template in template_loop (length cs) cs desc_empty.

(** ** Laying out a value *)

Definition str_of_list (l : list Ascii.ascii) : string := String.string_of_list_ascii l.

(** The separators that stand before a slot; [sep] is what each one prints. *)
Definition seps_at (d : NumDesc) (idx : nat) (sep : Ascii.ascii) : list Ascii.ascii :=
  map (fun _ => sep) (filter (fun g => g = idx /\ g <> 0%nat) (nd_group_before d)).

(** [pgtypes/src/numeric.rs:713-730] overflow_core *)
Definition overflow_core (d : NumDesc) : string :=
  let int_out := flat_map (fun idx => seps_at d idx ","%char ++ ["#"%char]) (seq 0 (nd_pre d)) in
  str_of_list int_out +:+ (if nd_has_point d then "." +:+ str_repeat (nd_post d) "#"%char else "").

Definition trim_start_zeros (s : string) : string :=
  (fix go s := match s with
               | String c t => if bool_decide (c = "0"%char) then go t else s
               | EmptyString => ""
               end) s.

Section Layout.
Context `{ExtArith}.

(** [pgtypes/src/numeric.rs:735-756] split_decimal *)
Definition split_decimal (rounded : BigDecimal) (post : nat) : string * string :=
  let scaled := bd_with_scale_round (bd_abs rounded) (Z.of_nat post) HalfUp in
  let '(mant, scale) := bd_parts scaled in
  let digits := strip_minus (z_to_string mant) in
  let scale_u := Z.to_nat (Z.max scale 0) in
  let len := String.length digits in
  if Nat.eqb scale_u 0 then (digits, "")
  else if (scale_u <? len)%nat then
    (str_take (len - scale_u) digits, str_drop (len - scale_u) digits)
  else ("0", str_repeat (scale_u - len) "0"%char +:+ digits).

End Layout.

(** The integer slots of [lay_out_digits]. *)
Definition int_slots (d : NumDesc) (int_digits : string) : list Ascii.ascii :=
  let int_chars := String.list_ascii_of_string (trim_start_zeros int_digits) in
  let n := length int_chars in
  let first_sig := (nd_pre d - n)%nat in
  let blank i := if default false (nd_int_zero d !! i) then "0"%char else " "%char in
  let slots := map blank (seq 0 first_sig) ++ drop (n - nd_pre d) int_chars in
  if (0 <? nd_pre d)%nat && Nat.eqb n 0 &&
     (default false (nd_int_zero d !! (nd_pre d - 1)%nat) || Nat.eqb (nd_post d) 0)
  then <[(nd_pre d - 1)%nat := "0"%char]> slots else slots.

(** [pgtypes/src/numeric.rs:762-824] lay_out_digits *)
Definition lay_out_digits (d : NumDesc) (int_digits frac_digits : string) : string :=
  let slots := int_slots d int_digits in
  let all_blank l := forallb (fun c => bool_decide (c = " "%char)) l in
  let int_out :=
    concat (imap (fun idx slot =>
      seps_at d idx (if all_blank (take idx slots) then " "%char else ","%char) ++ [slot]) slots) in
  let fc := String.list_ascii_of_string frac_digits in
  str_of_list int_out +:+
  (if nd_has_point d
   then "." +:+ str_of_list (map (fun i => default "0"%char (fc !! i)) (seq 0 (nd_post d)))
   else "").

(** [pgtypes/src/numeric.rs:985-1012] fm_trim_fraction *)
Definition fm_trim_fraction (core : string) (ones_is_zero_pattern : bool) : string :=
  match split_once "."%char core with
  | Some (int_part, frac) =>
      let trimmed := trim_end_char "0"%char frac in
      let int_is_zero := bool_decide (trim int_part = "" \/ trim int_part = "0") in
      let int_render :=
        if int_is_zero && negb ones_is_zero_pattern then
          if bool_decide (trimmed = "") then "0" else ""
        else if int_is_zero then "0"
        else int_part in
      int_render +:+ "." +:+ trimmed
  | None => core
  end.

(** [pgtypes/src/numeric.rs:1015-1022] push_fixed *)
Definition push_fixed (lead trail : string) (ch : option Ascii.ascii) (anchor : Anchor)
  : string * string :=
  match ch with
  | Some c => match anchor with
              | Leading => (lead +:+ String c "", trail)
              | Trailing => (lead, trail +:+ String c "")
              end
  | None => (lead, trail)
  end.

(** [pgtypes/src/numeric.rs:1029-1047] anchor_sign *)
Definition anchor_sign (core : string) (sgn : Ascii.ascii) (anchor : Anchor) : string :=
  match anchor with
  | Trailing => core +:+ String sgn ""
  | Leading =>
      match find_char (fun c => negb (bool_decide (c = " "%char))) core with
      | Some p => str_take p core +:+ String sgn (str_drop p core)
      | None => String sgn core
      end
  end.

(** [pgtypes/src/numeric.rs:1051-1068] num_ordinal_suffix *)
Definition num_ordinal_suffix (n : Z) (upper : bool) : string :=
  let abs := Z.abs n mod 100 in
  let s :=
    if in_range 11 13 abs then "th"
    else if abs mod 10 =? 1 then "st"
    else if abs mod 10 =? 2 then "nd"
    else if abs mod 10 =? 3 then "rd"
    else "th" in
  if upper then to_ascii_uppercase s else s.

(** The sign and brackets of [decorate]: what stands before, the body, what
    stands behind, and whether a sign is inside the body. *)
Definition sign_parts (d : NumDesc) (core : string) (negative : bool)
  : string * string * string * bool :=
  let blank := if nd_fill_mode d then None else Some " "%char in
  let default_sign lead trail :=
    if negative then (lead, anchor_sign core "-"%char Leading, trail, true)
    else (lead +:+ (if nd_fill_mode d then "" else " "), core, trail, false) in
  match nd_sign d with
  | SDefault => default_sign "" ""
  | SS anchor => ("", anchor_sign core (if negative then "-"%char else "+"%char) anchor, "", true)
  | SMi anchor =>
      let '(lead, trail) := push_fixed "" "" (if negative then Some "-"%char else blank) anchor in
      (lead, core, trail, false)
  | SPl anchor =>
      let '(lead, trail) := push_fixed "" "" (if negative then blank else Some "+"%char) anchor in
      default_sign lead trail
  | SSg anchor =>
      let '(lead, trail) :=
        push_fixed "" "" (Some (if negative then "-"%char else "+"%char)) anchor in
      (lead, core, trail, false)
  | SPr => if negative then ("", anchor_sign core "<"%char Leading, ">", true)
           else (" ", core, " ", false)
  end.

Section Format.
Context `{ExtArith}.

(** [pgtypes/src/numeric.rs:836-971] decorate *)
Definition decorate (d : NumDesc) (core : string) (negative : bool) (rounded : BigDecimal) : string :=
  let ones_is_zero_pattern :=
    (0 <? nd_pre d)%nat && default false (nd_int_zero d !! (nd_pre d - 1)%nat) in
  let core :=
    if nd_fill_mode d && nd_has_point d then fm_trim_fraction core ones_is_zero_pattern else core in
  let '(lead, body, trail, anchored) := sign_parts d core negative in
  let '(lead, trail) :=
    match nd_currency d with
    | Some Leading => ("$" +:+ lead, trail)
    | Some Trailing => (lead, trail +:+ "$")
    | None => (lead, trail)
    end in
  let body :=
    if nd_fill_mode d && negb anchored then trim body
    else if nd_fill_mode d && anchored then trim_start body
    else body in
  let s := lead +:+ body +:+ trail in
  match nd_ordinal d with
  | Some upper =>
      if negb negative then
        let n := default 0 (bd_to_i64 (bd_with_scale_round rounded 0 Down)) in
        s +:+ num_ordinal_suffix n upper
      else s
  | None => s
  end.

(** [pgtypes/src/numeric.rs:661-705] format_numeric *)
Definition format_numeric (template : string) (value : BigDecimal) : result TypeError string :=
  let desc := parse_num_template template in
  let shifted :=
    match nd_v_shift desc with
    | Some O | None => value
    | Some n =>
        let pow10 := default (bd_of_Z 1) (parse ("1" +:+ str_repeat n "0"%char)) in
        canonical (bd_mul value pow10)
    end in
  let rounded := num_round shifted (Z.of_nat (nd_post desc)) in
  let negative := bd_negative rounded && negb (num_is_zero rounded) in
  let '(int_digits, frac_digits) := split_decimal rounded (nd_post desc) in
  let int_significant := trim_start_zeros int_digits in
  if (nd_pre desc <? String.length int_significant)%nat || Nat.eqb (nd_pre desc) 0 then
    Ok (decorate (set_ordinal None desc) (overflow_core desc) negative rounded)
  else Ok (decorate desc (lay_out_digits desc int_digits frac_digits) negative rounded).

End Format.
