(* ===== verification/Ops.v ===== *)
(** * Operators on values (pgtypes/src/ops.rs, encoding.rs)

    Arithmetic with the numeric type promotions, overflow and division errors,
    date/time dispatch, concatenation, comparison and three-valued logic; and
    the text and binary encodings of values. Panics (of the date/time layer, and
    of encoding a NULL) are [fault]s. *)
From Stdlib Require Import ZArith Lia Ascii.
From stdpp Require Import base list gmap strings.
From S2P Require Import Prelude Text Datum Float DateTimeBin ExtArith DateTime Numeric.
Open Scope Z_scope.

Section Ops.
Context `{ExtArith}.

Definition is_null (d : Datum) : bool := match d with DNull => true | _ => false end.

(** ** Wire encodings *)

(** [pgtypes/src/encoding.rs:47-55] encode_float8_text *)
Definition encode_float8_text (f : Z) : string :=
  if f64_is_nan f then "NaN"
  else if f64_is_infinite f then if f64_sign f then "-Infinity" else "Infinity"
  else f64_display f.

Definition hex_digit (n : Z) : Z := if n <? 10 then 48 + n else 87 + n.

(** [pgtypes/src/encoding.rs:12-39] encode_text: [None] is the panic on NULL *)
Definition encode_text (d : Datum) (tz : TimeZone) : option bytes :=
  match d with
  | DNull => None
  | DBool b => Some (str_bytes (if b then "t" else "f"))
  | DInt4 n | DInt8 n => Some (str_bytes (z_to_string n))
  | DText s => Some (str_bytes s)
  | DFloat8 f => Some (str_bytes (encode_float8_text f))
  | DNumeric d => Some (str_bytes (to_text d))
  | DDate d => Some (str_bytes (date_to_text d))
  | DTime t => Some (str_bytes (time_to_text t))
  | DTimestamp ts => Some (str_bytes (timestamp_to_text ts))
  | DTimestamptz ts => Some (str_bytes (timestamptz_to_text ts tz))
  | DInterval i => Some (str_bytes (interval_to_text i))
  | DBytea b =>
      Some (str_bytes "\x" ++
            concat (map (fun x => [hex_digit (Z.shiftr x 4); hex_digit (Z.land x 15)]) b))
  end.

(** [pgtypes/src/encoding.rs:58-78] encode_binary *)
Definition encode_binary (d : Datum) : option bytes :=
  match d with
  | DNull => None
  | DBool b => Some [if b then 1 else 0]
  | DInt4 n => Some (be_bytes 4 n)
  | DInt8 n => Some (be_bytes 8 n)
  | DText s => Some (str_bytes s)
  | DFloat8 f => Some (be_bytes 8 f)
  | DNumeric d => Some (binary d)
  | DDate d => Some (date_to_binary d)
  | DTime t => Some (time_to_binary t)
  | DTimestamp ts => Some (timestamp_to_binary ts)
  | DTimestamptz ts => Some (timestamptz_to_binary ts)
  | DInterval i => Some (interval_to_binary i)
  | DBytea b => Some b
  end.

(** [pgtypes/src/ops.rs:433-436] text_of; cast.rs has the same function *)
Definition text_of (d : Datum) (tz : TimeZone) : option string :=
  encode_text d tz ≫= from_utf8.

(** ** Literals and promotions *)

(** [pgtypes/src/ops.rs:12-20] int_literal *)
Definition int_literal (s : string) : result TypeError Datum :=
  match parse_i32 s with
  | Some n => Ok (DInt4 n)
  | None => match parse_i64 s with Some n => Ok (DInt8 n) | None => Err Overflow end
  end.

(** [pgtypes/src/ops.rs:37-43] as_i64 *)
Definition as_i64 (d : Datum) : option Z :=
  match d with DInt4 n | DInt8 n => Some n | _ => None end.

(** [pgtypes/src/ops.rs:48-56] as_f64 *)
Definition as_f64 (d : Datum) : option Z :=
  match d with
  | DInt4 n | DInt8 n => Some (f64_of_Z n)
  | DFloat8 f => Some f
  | DNumeric d => Some (num_to_f64 d)
  | _ => None
  end.

(** [pgtypes/src/ops.rs:60-67] as_numeric *)
Definition as_numeric (d : Datum) : option BigDecimal :=
  match d with
  | DInt4 n | DInt8 n => Some (bd_of_Z n)
  | DNumeric d => Some d
  | _ => None
  end.

(** [pgtypes/src/ops.rs:69-71] is_float *)
Definition is_float (d : Datum) : bool := match d with DFloat8 _ => true | _ => false end.

(** [pgtypes/src/ops.rs:73-75] is_numeric *)
Definition is_num (d : Datum) : bool := match d with DNumeric _ => true | _ => false end.

(** [pgtypes/src/ops.rs:80-89] is_temporal *)
Definition is_temporal (d : Datum) : bool :=
  match d with
  | DDate _ | DTime _ | DTimestamp _ | DTimestamptz _ | DInterval _ => true
  | _ => false
  end.

(** [pgtypes/src/ops.rs:100-106] float_arith *)
Definition float_arith (x y : Z) (op : Z -> Z -> Z) : result TypeError Datum :=
  let r := op x y in
  if f64_is_infinite r && f64_is_finite x && f64_is_finite y then Err Overflow
  else Ok (DFloat8 r).

Definition numeric_operands : TypeError := TypeMismatch "operator requires numeric operands".

(** [pgtypes/src/ops.rs:108-149] arith *)
Definition arith (a b : Datum) (op_i4 op_i8 : Z -> Z -> option Z) (op_f8 : Z -> Z -> Z)
    (op_num : BigDecimal -> BigDecimal -> BigDecimal) : result TypeError Datum :=
  if is_null a || is_null b then Ok DNull
  else if is_float a || is_float b then
    match as_f64 a, as_f64 b with
    | Some x, Some y => float_arith x y op_f8
    | _, _ => Err numeric_operands
    end
  else if is_num a || is_num b then
    match as_numeric a, as_numeric b with
    | Some x, Some y => Ok (DNumeric (op_num x y))
    | _, _ => Err numeric_operands
    end
  else
    match a, b with
    | DInt4 x, DInt4 y => DInt4 <$> ok_or (op_i4 x y) Overflow
    | _, _ =>
        match as_i64 a, as_i64 b with
        | Some x, Some y => DInt8 <$> ok_or (op_i8 x y) Overflow
        | _, _ => Err (TypeMismatch "operator requires integer operands")
        end
    end.

(** ** Date and time operands *)

Definition temporal_mismatch : TypeError :=
  TypeMismatch "operator does not exist for these temporal types".

(** [pgtypes/src/ops.rs:158-199] temporal_add *)
Definition temporal_add (a b : Datum) : result (fault TypeError) Datum :=
  match a, b with
  | DDate d, DInt4 n | DDate d, DInt8 n | DInt4 n, DDate d | DInt8 n, DDate d =>
      DDate <$> date_plus_days d n
  | DDate d, DInterval iv | DInterval iv, DDate d => DTimestamp <$> date_plus_interval d iv
  | DDate d, DTime t | DTime t, DDate d => Ok (DTimestamp (combine_date_time d t))
  | DTime t, DInterval iv | DInterval iv, DTime t =>
      DTime <$> panic_or (time_plus_interval t iv)
  | DTimestamp ts, DInterval iv | DInterval iv, DTimestamp ts =>
      DTimestamp <$> timestamp_plus_interval ts iv
  | DInterval x, DInterval y => DInterval <$> lift (add_interval x y)
  | _, _ => Err (Raised temporal_mismatch)
  end.

(** [pgtypes/src/ops.rs:202-244] temporal_sub *)
Definition temporal_sub (a b : Datum) : result (fault TypeError) Datum :=
  match a, b with
  | DDate d, DInt4 n =>
      m ← ok_or (checked_i32 (- n)) (Raised Overflow); DDate <$> date_plus_days d m
  | DDate d, DInt8 n =>
      m ← ok_or (checked_i64 (- n)) (Raised Overflow); DDate <$> date_plus_days d m
  | DDate a, DDate b => Ok (DInt4 (date_diff_days a b))
  | DDate d, DInterval iv =>
      neg ← lift (neg_interval iv); DTimestamp <$> date_plus_interval d neg
  | DTime t, DInterval iv =>
      neg ← lift (neg_interval iv); DTime <$> panic_or (time_plus_interval t neg)
  | DTimestamp ts, DInterval iv =>
      neg ← lift (neg_interval iv); DTimestamp <$> timestamp_plus_interval ts neg
  | DTimestamp a, DTimestamp b => Ok (DInterval (timestamp_diff a b))
  | DInterval x, DInterval y => DInterval <$> lift (sub_interval x y)
  | _, _ => Err (Raised temporal_mismatch)
  end.

(** [pgtypes/src/ops.rs:248-267] temporal_mul *)
Definition temporal_mul (a b : Datum) : result TypeError Datum :=
  let scale (iv : Interval) (num : Datum) :=
    f ← ok_or (as_f64 num) (TypeMismatch "interval multiplier must be numeric");
    DInterval <$> mul_interval iv f in
  match a, b with
  | DInterval iv, num => scale iv num
  | num, DInterval iv => scale iv num
  | _, _ => Err temporal_mismatch
  end.

(** [pgtypes/src/ops.rs:270-283] temporal_div *)
Definition temporal_div (a b : Datum) : result TypeError Datum :=
  match a with
  | DInterval iv =>
      f ← ok_or (as_f64 b) (TypeMismatch "interval divisor must be numeric");
      DInterval <$> div_interval iv f
  | _ => Err temporal_mismatch
  end.

(** ** Arithmetic *)

(** [i32::checked_add] and the like; division truncates and refuses zero. *)
Definition checked2 (check : Z -> option Z) (f : Z -> Z -> Z) (x y : Z) : option Z :=
  check (f x y).
Definition checked_quot (check : Z -> option Z) (x y : Z) : option Z :=
  if y =? 0 then None else check (Z.quot x y).

(** [pgtypes/src/ops.rs:285-301] add *)
Definition add (a b : Datum) : result (fault TypeError) Datum :=
  if is_null a || is_null b then Ok DNull
  else if is_temporal a || is_temporal b then temporal_add a b
  else lift (arith a b (checked2 checked_i32 Z.add) (checked2 checked_i64 Z.add) f64_add num_add).

(** [pgtypes/src/ops.rs:302-318] sub *)
Definition sub (a b : Datum) : result (fault TypeError) Datum :=
  if is_null a || is_null b then Ok DNull
  else if is_temporal a || is_temporal b then temporal_sub a b
  else lift (arith a b (checked2 checked_i32 Z.sub) (checked2 checked_i64 Z.sub) f64_sub num_sub).

(** [pgtypes/src/ops.rs:319-335] mul *)
Definition mul (a b : Datum) : result TypeError Datum :=
  if is_null a || is_null b then Ok DNull
  else if is_temporal a || is_temporal b then temporal_mul a b
  else arith a b (checked2 checked_i32 Z.mul) (checked2 checked_i64 Z.mul) f64_mul num_mul.

Definition is_int_zero (d : Datum) : bool :=
  match d with DInt4 n | DInt8 n => n =? 0 | _ => false end.

(** [pgtypes/src/ops.rs:336-379] div; [num_mul] stands where the source has an
    unreachable function *)
Definition div (a b : Datum) : result TypeError Datum :=
  if is_null a || is_null b then Ok DNull
  else if is_temporal a || is_temporal b then temporal_div a b
  else if is_float a || is_float b then
    match as_f64 a, as_f64 b with
    | Some x, Some y => if f64_eqb y 0 then Err DivisionByZero else float_arith x y f64_div
    | _, _ => Err numeric_operands
    end
  else if is_num a || is_num b then
    match as_numeric a, as_numeric b with
    | Some x, Some y => DNumeric <$> num_div x y
    | _, _ => Err numeric_operands
    end
  else if is_int_zero b then Err DivisionByZero
  else arith a b (checked_quot checked_i32) (checked_quot checked_i64) f64_div num_mul.

(** [pgtypes/src/ops.rs:386-411] rem *)
Definition rem (a b : Datum) : result TypeError Datum :=
  if is_null a || is_null b then Ok DNull
  else if is_num a || is_num b then
    match as_numeric a, as_numeric b with
    | Some x, Some y => DNumeric <$> num_rem x y
    | _, _ => Err (TypeMismatch "mod requires numeric operands")
    end
  else if is_int_zero b then Err DivisionByZero
  else
    match a, b with
    | DInt4 x, DInt4 y => Ok (DInt4 (Z.rem x y))
    | _, _ =>
        match as_i64 a, as_i64 b with
        | Some x, Some y => Ok (DInt8 (Z.rem x y))
        | _, _ => Err (TypeMismatch "mod requires integer operands")
        end
    end.

(** [pgtypes/src/ops.rs:422-429] concat *)
Definition concat_op (a b : Datum) (tz : TimeZone) : result (fault TypeError) Datum :=
  if is_null a || is_null b then Ok DNull
  else
    s ← panic_or (text_of a tz);
    t ← panic_or (text_of b tz);
    Ok (DText (s +:+ t)).

(** ** Comparison *)

(** The order of [str], by bytes. *)
Fixpoint bytes_cmp (a b : bytes) : comparison :=
  match a, b with
  | [], [] => Eq
  | [], _ => Lt
  | _, [] => Gt
  | x :: a, y :: b => match Z.compare x y with Eq => bytes_cmp a b | c => c end
  end.
Definition str_cmp (a b : string) : comparison := bytes_cmp (str_bytes a) (str_bytes b).

Definition bool_cmp (a b : bool) : comparison :=
  match a, b with
  | false, true => Lt
  | true, false => Gt
  | _, _ => Eq
  end.

(** [pgtypes/src/ops.rs:479-488] float_cmp; the [expect] is on a comparison of
    numbers *)
Definition float_cmp (x y : Z) : comparison :=
  match f64_is_nan x, f64_is_nan y with
  | true, true => Eq
  | true, false => Gt
  | false, true => Lt
  | false, false => default Eq (f64_partial_cmp x y)
  end.

(** [pgtypes/src/ops.rs:490-498] cannot_compare *)
Definition cannot_compare (a b : Datum) : TypeError :=
  let name d := match column_type d with Some t => type_name t | None => "unknown" end in
  TypeMismatch ("cannot compare " +:+ name a +:+ " and " +:+ name b).

(** [pgtypes/src/ops.rs:441-475] compare *)
Definition compare (a b : Datum) : result TypeError (option comparison) :=
  if is_null a || is_null b then Ok None
  else
    Some <$>
    match a, b with
    | DText x, DText y => Ok (str_cmp x y)
    | DBool x, DBool y => Ok (bool_cmp x y)
    | DDate x, DDate y => Ok (date_cmp x y)
    | DTime x, DTime y => Ok (time_cmp x y)
    | DTimestamp x, DTimestamp y => Ok (datetime_cmp x y)
    | DTimestamptz x, DTimestamptz y => Ok (ts_cmp x y)
    | DInterval x, DInterval y => Ok (interval_cmp x y)
    | DDate d, DTimestamp ts => Ok (datetime_cmp (date_to_midnight d) ts)
    | DTimestamp ts, DDate d => Ok (datetime_cmp ts (date_to_midnight d))
    | _, _ =>
        if is_float a || is_float b then
          match as_f64 a, as_f64 b with
          | Some x, Some y => Ok (float_cmp x y)
          | _, _ => Err (cannot_compare a b)
          end
        else if is_num a || is_num b then
          match as_numeric a, as_numeric b with
          | Some x, Some y => Ok (bd_cmp x y)
          | _, _ => Err (cannot_compare a b)
          end
        else
          match as_i64 a, as_i64 b with
          | Some x, Some y => Ok (Z.compare x y)
          | _, _ => Err (cannot_compare a b)
          end
    end.

(** ** Three-valued logic *)

(** [pgtypes/src/ops.rs:500-508] as_bool *)
Definition as_bool (d : Datum) : result TypeError (option bool) :=
  match d with
  | DNull => Ok None
  | DBool b => Ok (Some b)
  | _ => Err (TypeMismatch "argument of boolean operator must be boolean")
  end.

(** [pgtypes/src/ops.rs:511-518] and *)
Definition and_op (a b : Datum) : result TypeError Datum :=
  x ← as_bool a;
  y ← as_bool b;
  Ok match x, y with
     | Some false, _ | _, Some false => DBool false
     | Some true, Some true => DBool true
     | _, _ => DNull
     end.

(** [pgtypes/src/ops.rs:521-528] or *)
Definition or_op (a b : Datum) : result TypeError Datum :=
  x ← as_bool a;
  y ← as_bool b;
  Ok match x, y with
     | Some true, _ | _, Some true => DBool true
     | Some false, Some false => DBool false
     | _, _ => DNull
     end.

(** [pgtypes/src/ops.rs:530-535] not *)
Definition not_op (a : Datum) : result TypeError Datum :=
  x ← as_bool a;
  Ok match x with Some b => DBool (negb b) | None => DNull end.

End Ops.
