(* ===== verification/Cast.v ===== *)
(** * Explicit casts (pgtypes/src/cast.rs)

    The plan-time predicate [cast_allowed] and the conversion [cast]. They are
    meant to agree; the theorem here says exactly where they do not. *)
From Stdlib Require Import ZArith Lia Ascii.
From stdpp Require Import base list gmap strings.
From S2P Require Import Prelude Text Datum Float DateTimeBin ExtModel ExtArith DateTime.
From S2P Require Import Numeric Ops.
Open Scope Z_scope.

Definition num_family (t : ColumnType) : bool :=
  match t with TInt4 | TInt8 | TFloat8 => true | _ => is_numeric t end.

(** [pgtypes/src/cast.rs:31-60] cast_allowed *)
Definition cast_allowed (from to : ColumnType) : bool :=
  if bool_decide (from = to) then true
  else if is_numeric from && is_numeric to then true
  else if num_family from && num_family to then true
  else
    match from, to with
    | TBool, TInt4 | TInt4, TBool => true
    | _, TText | TText, _ => true
    | TDate, TTimestamp | TDate, TTimestamptz => true
    | TTimestamp, TDate | TTimestamp, TTime | TTimestamp, TTimestamptz => true
    | TTimestamptz, TDate | TTimestamptz, TTime | TTimestamptz, TTimestamp => true
    | _, _ => false
    end.

Section Cast.
Context `{ExtArith}.

(** [pgtypes/src/cast.rs:180-188] to_numeric *)
Definition to_numeric (d : BigDecimal) (tm : option Typmod) : result TypeError Datum :=
  match tm with
  | Some tm => DNumeric <$> apply_typmod d tm
  | None => Ok (DNumeric (canonical d))
  end.

(** [pgtypes/src/cast.rs:198-202] i4_from_i64 *)
Definition i4_from_i64 (n : Z) : result TypeError Datum := DInt4 <$> ok_or (checked_i32 n) Overflow.

Definition f64_between (lo hi r : Z) : bool :=
  f64_is_finite r && f64_leb (f64_of_Z lo) r && f64_leb r (f64_of_Z hi).

(** [pgtypes/src/cast.rs:206-213] i4_from_f64 *)
Definition i4_from_f64 (f : Z) : result TypeError Datum :=
  let r := f64_round_ties_even f in
  if f64_between (-2147483648) 2147483647 r then Ok (DInt4 (f64_as_i32 r)) else Err Overflow.

(** [pgtypes/src/cast.rs:217-224] i8_from_f64 *)
Definition i8_from_f64 (f : Z) : result TypeError Datum :=
  let r := f64_round_ties_even f in
  if f64_between (-9223372036854775808) 9223372036854775807 r then Ok (DInt8 (f64_as_i64 r))
  else Err Overflow.

(** [a.starts_with(b)] for strings *)
Definition str_starts (a b : string) : bool := starts_with (str_bytes b) (str_bytes a).

(** [pgtypes/src/cast.rs:231-250] text_to_bool *)
Definition text_to_bool (s : string) : result TypeError Datum :=
  let t := to_ascii_lowercase (trim s) in
  match t with
  | EmptyString => Err (InvalidText "boolean" s)
  | _ =>
      if str_starts "true" t then Ok (DBool true)
      else if str_starts "false" t then Ok (DBool false)
      else if str_starts "yes" t then Ok (DBool true)
      else if str_starts "no" t then Ok (DBool false)
      else if str_starts "on" t then Ok (DBool true)
      else if str_starts "off" t then Ok (DBool false)
      else if bool_decide (t = "1") then Ok (DBool true)
      else if bool_decide (t = "0") then Ok (DBool false)
      else Err (InvalidText "boolean" s)
  end.

(** [pgtypes/src/cast.rs:275-286] require_int_syntax *)
Definition require_int_syntax (s ty : string) : result TypeError () :=
  if all_digits (strip_sign (trim s)).2 then Ok () else Err (InvalidText ty s).

(** [pgtypes/src/cast.rs:256-262] text_to_i32 *)
Definition text_to_i32 (s : string) : result TypeError Datum :=
  _ ← require_int_syntax s "integer"; DInt4 <$> ok_or (parse_i32 (trim s)) Overflow.

(** [pgtypes/src/cast.rs:264-270] text_to_i64 *)
Definition text_to_i64 (s : string) : result TypeError Datum :=
  _ ← require_int_syntax s "bigint"; DInt8 <$> ok_or (parse_i64 (trim s)) Overflow.

(** [pgtypes/src/cast.rs:308-311] is_infinity_spelling *)
Definition is_infinity_spelling (t : string) : bool :=
  one_of (to_ascii_lowercase (strip_sign t).2) ["inf"; "infinity"].

(** [pgtypes/src/cast.rs:294-304] text_to_f64 *)
Definition text_to_f64 (s : string) : result TypeError Datum :=
  let t := trim s in
  match f64_parse t with
  | Some v => if f64_is_infinite v && negb (is_infinity_spelling t) then Err Overflow
              else Ok (DFloat8 v)
  | None => Err (InvalidText "double precision" s)
  end.

(** [pgtypes/src/cast.rs:313-318] cannot_cast *)
Definition cannot_cast (v : Datum) (to : ColumnType) : TypeError :=
  CannotCast match column_type v with Some t => type_name t | None => "unknown" end (type_name to).

(** [pgtypes/src/cast.rs:70-176] cast *)
Definition cast (value : Datum) (to : ColumnType) (tz : TimeZone) : result (fault TypeError) Datum :=
  match value, to with
  | DNull, _ => Ok DNull
  | DBool _, TBool | DInt4 _, TInt4 | DInt8 _, TInt8 | DFloat8 _, TFloat8 | DText _, TText
  | DDate _, TDate | DTime _, TTime | DTimestamp _, TTimestamp | DTimestamptz _, TTimestamptz
  | DInterval _, TInterval => Ok value
  | DInt4 n, TInt8 => Ok (DInt8 n)
  | DInt4 n, TFloat8 => Ok (DFloat8 (f64_of_Z n))
  | DInt8 n, TInt4 => lift (i4_from_i64 n)
  | DInt8 n, TFloat8 => Ok (DFloat8 (f64_of_Z n))
  | DFloat8 f, TInt4 => lift (i4_from_f64 f)
  | DFloat8 f, TInt8 => lift (i8_from_f64 f)
  | DInt4 n, TNumeric tm | DInt8 n, TNumeric tm => lift (to_numeric (num_from_i64 n) tm)
  | DFloat8 f, TNumeric tm => lift (d ← num_from_f64 f; to_numeric d tm)
  | DNumeric d, TNumeric tm => lift (to_numeric d tm)
  | DNumeric d, TInt4 => DInt4 <$> lift (num_to_i32 d)
  | DNumeric d, TInt8 => DInt8 <$> lift (num_to_i64 d)
  | DNumeric d, TFloat8 => Ok (DFloat8 (num_to_f64 d))
  | DBool b, TInt4 => Ok (DInt4 (if b then 1 else 0))
  | DInt4 n, TBool => Ok (DBool (negb (n =? 0)))
  | DBool b, TText => Ok (DText (if b then "true" else "false"))
  | d, TText => DText <$> panic_or (text_of d tz)
  | DText s, TBool => lift (text_to_bool s)
  | DText s, TInt4 => lift (text_to_i32 s)
  | DText s, TInt8 => lift (text_to_i64 s)
  | DText s, TFloat8 => lift (text_to_f64 s)
  | DText s, TNumeric tm =>
      lift (d ← ok_or (parse s) (InvalidText "numeric" s); to_numeric d tm)
  | DText s, TDate => DDate <$> lift (parse_date s)
  | DText s, TTime => DTime <$> lift (parse_time s)
  | DText s, TTimestamp => DTimestamp <$> lift (parse_timestamp s)
  | DText s, TTimestamptz => DTimestamptz <$> parse_timestamptz s tz
  | DText s, TInterval => DInterval <$> parse_interval s
  | DDate d, TTimestamp => Ok (DTimestamp (date_to_midnight d))
  | DDate d, TTimestamptz =>
      DTimestamptz <$> lift (ok_or (datetime_to_zoned_ts (date_to_midnight d) tz)
                               (DatetimeFieldOverflow (date_display d)))
  | DTimestamp dt, TDate => Ok (DDate (datetime_date dt))
  | DTimestamp dt, TTime => Ok (DTime (datetime_time dt))
  | DTimestamp dt, TTimestamptz =>
      DTimestamptz <$> lift (ok_or (datetime_to_zoned_ts dt tz)
                               (DatetimeFieldOverflow (datetime_display dt)))
  | DTimestamptz ts, TTimestamp => Ok (DTimestamp (tz_to_datetime tz ts))
  | DTimestamptz ts, TDate => Ok (DDate (datetime_date (tz_to_datetime tz ts)))
  | DTimestamptz ts, TTime => Ok (DTime (datetime_time (tz_to_datetime tz ts)))
  | v, to => Err (Raised (cannot_cast v to))
  end.

End Cast.

(** ** Plan time and run time *)

(** An outcome that is not "cannot cast". *)
Definition casts {A} (r : result (fault TypeError) A) : Prop :=
  forall f t, r <> Err (Raised (CannotCast f t)).
Definition casts' {A} (r : result TypeError A) : Prop := forall f t, r <> Err (CannotCast f t).

Lemma casts_ok {A} (a : A) : casts (Ok a).
Proof. done. Qed.
Lemma casts'_ok {A} (a : A) : casts' (Ok a).
Proof. done. Qed.
Lemma casts_fmap {A B} (g : A -> B) r : casts r -> casts (g <$> r).
Proof. intros Hr f t. destruct r as [a|e]; [done|]. intros [= ->]. by apply (Hr f t). Qed.
Lemma casts'_fmap {A B} (g : A -> B) (r : result TypeError A) : casts' r -> casts' (g <$> r).
Proof. intros Hr f t. destruct r as [a|e]; [done|]. intros [= ->]. by apply (Hr f t). Qed.
Lemma casts_bind {A B} (g : A -> result (fault TypeError) B) r :
  casts r -> (forall a, casts (g a)) -> casts (r ≫= g).
Proof. intros Hr Hg f t. destruct r as [a|e]; [apply Hg|]. intros [= ->]. by apply (Hr f t). Qed.
Lemma casts'_bind {A B} (g : A -> result TypeError B) r :
  casts' r -> (forall a, casts' (g a)) -> casts' (r ≫= g).
Proof. intros Hr Hg f t. destruct r as [a|e]; [apply Hg|]. intros [= ->]. by apply (Hr f t). Qed.
Lemma casts_lift {A} (r : result TypeError A) : casts' r -> casts (lift r).
Proof. intros Hr f t. destruct r as [a|e]; [done|]. intros [= ->]. by apply (Hr f t). Qed.
Lemma casts_panic {A} (o : option A) : casts (panic_or o).
Proof. intros f t. by destruct o. Qed.
Lemma casts'_ok_or {A} (o : option A) e :
  (forall f t, e <> CannotCast f t) -> casts' (ok_or o e).
Proof. intros He f t. destruct o; [done|]. intros [= ->]. by apply (He f t). Qed.
Lemma casts_ok_or {A} (o : option A) e :
  (forall f t, e <> Raised (CannotCast f t)) -> casts (ok_or o e).
Proof. intros He f t. destruct o; [done|]. intros [= ->]. by apply (He f t). Qed.
Lemma casts_if {A} (b : bool) (r s : result (fault TypeError) A) :
  casts r -> casts s -> casts (if b then r else s).
Proof. by destruct b. Qed.
Lemma casts'_if {A} (b : bool) (r s : result TypeError A) :
  casts' r -> casts' s -> casts' (if b then r else s).
Proof. by destruct b. Qed.
Lemma casts'_err {A} e : (forall f t, e <> CannotCast f t) -> casts' (A := A) (Err e).
Proof. intros He f t [= ->]. by apply (He f t). Qed.
Lemma casts_err {A} e : (forall f t, e <> Raised (CannotCast f t)) -> casts (A := A) (Err e).
Proof. intros He f t [= ->]. by apply (He f t). Qed.

Create HintDb casts discriminated.
#[local] Hint Resolve casts_ok casts'_ok casts_fmap casts'_fmap casts_lift casts_panic casts_if
  casts'_if : casts.
#[local] Hint Extern 1 (casts' (ok_or _ _)) => apply casts'_ok_or; discriminate : casts.
#[local] Hint Extern 1 (casts (ok_or _ _)) => apply casts_ok_or; discriminate : casts.
#[local] Hint Extern 1 (casts' (Err _)) => apply casts'_err; discriminate : casts.
#[local] Hint Extern 1 (casts (Err _)) => apply casts_err; discriminate : casts.
#[local] Hint Extern 1 (casts' (_ ≫= _)) => apply casts'_bind; [|intros ?] : casts.
#[local] Hint Extern 1 (casts (_ ≫= _)) => apply casts_bind; [|intros ?] : casts.

Section CastAgrees.
Context `{ExtArith}.

Lemma casts_to_numeric d tm : casts' (to_numeric d tm).
Proof.
  unfold to_numeric, apply_typmod. destruct tm; [|auto with casts].
  apply casts'_fmap. destruct (bd_parts _). auto with casts.
Qed.

Lemma casts_parse_interval s : casts (parse_interval s).
Proof. unfold parse_interval. auto 20 with casts. Qed.

Lemma casts_parse_timestamptz s tz : casts (parse_timestamptz s tz).
Proof. unfold parse_timestamptz. apply casts_bind; [auto with casts|]. intros []. auto 20 with casts. Qed.

Lemma casts_text_to_bool s : casts' (text_to_bool s).
Proof. unfold text_to_bool. case_match; auto 20 with casts. Qed.

Lemma casts_text_to_f64 s : casts' (text_to_f64 s).
Proof. unfold text_to_f64. case_match; auto 20 with casts. Qed.

Lemma casts_parse_date s : casts' (parse_date s).
Proof. unfold parse_date. case_match; auto 20 with casts. Qed.

Lemma casts_text_to_int s :
  casts' (text_to_i32 s) /\ casts' (text_to_i64 s).
Proof. unfold text_to_i32, text_to_i64, require_int_syntax. auto 20 with casts. Qed.

#[local] Hint Resolve casts_to_numeric casts_parse_interval casts_parse_timestamptz
  casts_text_to_bool casts_text_to_f64 casts_parse_date : casts.

(** The pairs that are allowed but have no conversion. *)
Definition bytea_gap (from to : ColumnType) : bool :=
  match from, to with TBytea, TBytea | TText, TBytea => true | _, _ => false end.

Lemma cast_cases v from to tz :
  column_type v = Some from ->
  if cast_allowed from to && negb (bytea_gap from to) then casts (cast v to tz)
  else cast v to tz = Err (Raised (cannot_cast v to)).
Proof.
  intros Hty.
  destruct v, to as [| | | | |[]| | | | | |]; try discriminate Hty; injection Hty as <-;
    match goal with |- if ?b then _ else _ => let x := eval vm_compute in b in change b with x end;
    cbv iota; try exact eq_refl.
  all: unfold cast, i4_from_i64, i4_from_f64, i8_from_f64, num_to_i32, num_to_i64, num_from_f64,
      parse_time, parse_timestamp.
  all: try apply casts_lift, casts_text_to_int.
  all: try solve [auto 10 with casts nocore].
Qed.

(** The plan-time check and the conversion agree except on bytea: a value is
    refused with "cannot cast" exactly when [cast_allowed] says no, or when a
    bytea or a text is cast to bytea, which [cast_allowed] admits. *)
Theorem cast_agrees_with_allowed (v : Datum) (from to : ColumnType) (tz : TimeZone) :
  column_type v = Some from ->
  (cast v to tz = Err (Raised (cannot_cast v to)) <->
   cast_allowed from to = false \/ bytea_gap from to = true).
Proof.
  intros Hty. pose proof (cast_cases v from to tz Hty) as Hc.
  destruct (cast_allowed from to), (bytea_gap from to); cbn in Hc.
  1, 3, 4: rewrite Hc; split; auto.
  split; [|intros [|]; discriminate]. intros E. by destruct (Hc _ _ E).
Qed.

End CastAgrees.

(** A bytea to itself: admitted, and refused when it is evaluated. *)
Lemma cast_agrees_with_allowed_witness :
  cast_allowed TBytea TBytea = true /\
  cast (DBytea (H := model_ext) [1]) TBytea (0 : @TimeZone _ model_arith) =
  Err (Raised (cannot_cast (DBytea (H := model_ext) [1]) TBytea)).
Proof.
  split; [reflexivity|]. apply (cast_agrees_with_allowed _ TBytea); [done|]. by right.
Defined.
