(* ===== verification/OpsProps.v ===== *)
(** * The order of SQL values

    [compare] of pgtypes/src/ops.rs, which ORDER BY, MIN, MAX, DISTINCT ON and
    the comparison operators share, orders the values of each comparable type,
    and its equality is the grouping equality of [Datum::eq]. *)
From Stdlib Require Import ZArith Lia.
From stdpp Require Import base list gmap strings.
From S2P Require Import Prelude Text Datum Float DateTimeBin ExtModel ExtArith.
From S2P Require Import DateTime Numeric Ops.
Open Scope Z_scope.

(** ** Total preorders *)

Record cmp_preorder {A} (cmp : A -> A -> comparison) : Prop := {
  pre_flip x y : cmp y x = CompOpp (cmp x y);
  pre_trans x y z : cmp x y <> Gt -> cmp y z <> Gt -> cmp x z <> Gt
}.

Lemma cmp_order_preorder {A} (cmp : A -> A -> comparison) : cmp_order cmp -> cmp_preorder cmp.
Proof.
  intros [He Hf Ht]. split; [done|]. intros x y z Hxy Hyz.
  destruct (cmp x y) eqn:E1; [|destruct (cmp y z) eqn:E2|done].
  - apply He in E1. by subst.
  - apply He in E2. subst. by rewrite E1.
  - by rewrite (Ht _ _ _ E1 E2).
  - done.
Qed.

Lemma preorder_comap {A B} (f : B -> A) (cmp : A -> A -> comparison) :
  cmp_preorder cmp -> cmp_preorder (fun x y => cmp (f x) (f y)).
Proof. intros [Hf Ht]. split; eauto. Qed.

Lemma bytes_cmp_order : cmp_order bytes_cmp.
Proof.
  destruct Zcompare_order as [He Hf Ht]. split.
  - induction x as [|a x IH]; intros [|b y]; simpl; try done.
    destruct (a ?= b) eqn:E; [apply He in E as ->; rewrite IH; split; congruence| |];
      (split; [done|]); intros [= -> ->]; by rewrite Z.compare_refl in E.
  - induction x as [|a x IH]; intros [|b y]; simpl; try done.
    rewrite (Hf a b). destruct (a ?= b); simpl; auto.
  - induction x as [|a x IH]; intros [|b y] [|c z]; simpl; try done.
    destruct (a ?= b) eqn:E1; [apply He in E1 as ->| |done].
    + destruct (b ?= c); eauto.
    + destruct (b ?= c) eqn:E2; [apply He in E2 as <-; by rewrite E1| |done].
      by rewrite (Ht _ _ _ E1 E2).
Qed.

Lemma bool_cmp_order : cmp_order bool_cmp.
Proof. split; by intros [] []; try intros []. Qed.

(** A float's place in the order: NaN above everything, both zeros at one place. *)
Definition f64_rank (x : Z) : Z := if f64_is_nan x then 2 ^ 64 else f64_key x.

Lemma f64_abs_bounds x : 0 <= f64_abs x < 2 ^ 63.
Proof.
  unfold f64_abs. change 9223372036854775807 with (Z.ones 63).
  rewrite Z.land_ones by lia. apply Z.mod_pos_bound. lia.
Qed.

Lemma f64_key_bounds x : - 2 ^ 63 < f64_key x < 2 ^ 63.
Proof. unfold f64_key. pose proof (f64_abs_bounds x). destruct (f64_sign x); lia. Qed.

Lemma float_cmp_rank x y : float_cmp x y = Z.compare (f64_rank x) (f64_rank y).
Proof.
  unfold float_cmp, f64_rank, f64_partial_cmp.
  pose proof (f64_key_bounds x). pose proof (f64_key_bounds y).
  destruct (f64_is_nan x), (f64_is_nan y).
  - by rewrite Z.compare_refl.
  - symmetry. apply Z.compare_gt_iff. lia.
  - symmetry. apply Z.compare_lt_iff. lia.
  - done.
Qed.

Lemma f64_split x : u64_ok x -> x = f64_abs x + (if f64_sign x then 2 ^ 63 else 0).
Proof.
  unfold u64_ok, f64_abs, f64_sign. intros Hx.
  change 9223372036854775807 with (Z.ones 63). rewrite Z.land_ones by lia.
  rewrite Z.testbit_odd, Z.shiftr_div_pow2 by lia.
  assert (x / 2 ^ 63 = 0 \/ x / 2 ^ 63 = 1) as [E|E] by (Z.div_mod_to_equations; lia);
    rewrite E; simpl; Z.div_mod_to_equations; lia.
Qed.

Lemma float_cmp_eq x y :
  u64_ok x -> u64_ok y ->
  float_cmp x y = Eq <-> f64_eqb x y || (f64_is_nan x && f64_is_nan y) = true.
Proof.
  intros Hx%f64_split Hy%f64_split. rewrite float_cmp_rank, Z.compare_eq_iff.
  pose proof (f64_key_bounds x). pose proof (f64_key_bounds y).
  unfold f64_rank, f64_eqb.
  destruct (f64_is_nan x), (f64_is_nan y); simpl; [split; done|split; [lia|done]..|].
  rewrite orb_false_r, orb_true_iff, andb_true_iff, Z.eqb_eq.
  unfold f64_is_zero. fold (f64_abs x) (f64_abs y). rewrite !Z.eqb_eq. unfold f64_key.
  pose proof (f64_abs_bounds x). pose proof (f64_abs_bounds y).
  destruct (f64_sign x), (f64_sign y); lia.
Qed.

Section Order.
Context `{ExtArithLaws} `{!ExtLaws}.

Lemma bd_cmp_at_scale a b M :
  (bd_parts a).2 <= M -> (bd_parts b).2 <= M ->
  bd_cmp a b =
  Z.compare ((bd_parts a).1 * 10 ^ (M - (bd_parts a).2)) ((bd_parts b).1 * 10 ^ (M - (bd_parts b).2)).
Proof.
  intros Ha Hb. rewrite bd_cmp_value. set (m := Z.max _ _). assert (m <= M) by lia.
  replace (M - (bd_parts a).2) with ((m - (bd_parts a).2) + (M - m)) by lia.
  replace (M - (bd_parts b).2) with ((m - (bd_parts b).2) + (M - m)) by lia.
  rewrite !Z.pow_add_r, !Z.mul_assoc by lia.
  apply Zmult_compare_compat_r. pose proof (pow10_pos (M - m)). lia.
Qed.

Lemma bd_cmp_preorder : cmp_preorder bd_cmp.
Proof.
  split.
  - intros x y. set (M := Z.max (bd_parts x).2 (bd_parts y).2).
    rewrite (bd_cmp_at_scale x y M), (bd_cmp_at_scale y x M) by lia. apply Z.compare_antisym.
  - intros x y z. set (M := Z.max (bd_parts x).2 (Z.max (bd_parts y).2 (bd_parts z).2)).
    rewrite (bd_cmp_at_scale x y M), (bd_cmp_at_scale y z M), (bd_cmp_at_scale x z M) by lia.
    apply (pre_trans _ (cmp_order_preorder _ Zcompare_order)).
Qed.

Lemma bd_cmp_eq a b : bd_cmp a b = Eq <-> bd_eqb a b = true.
Proof. by rewrite bd_cmp_value, bd_eqb_value, Z.compare_eq_iff. Qed.

(** The type of a value without its modifier, null and bytea having no order. *)
Definition order_class (d : Datum) : option ColumnType :=
  match d with DNull | DBytea _ => None | _ => column_type d end.

Definition float_bits_ok (d : Datum) : Prop := match d with DFloat8 b => u64_ok b | _ => True end.

(** The order of one type. *)
Definition class_cmp (a b : Datum) : comparison :=
  match a, b with
  | DBool x, DBool y => bool_cmp x y
  | DInt4 x, DInt4 y | DInt8 x, DInt8 y => Z.compare x y
  | DText x, DText y => str_cmp x y
  | DFloat8 x, DFloat8 y => float_cmp x y
  | DNumeric x, DNumeric y => bd_cmp x y
  | DDate x, DDate y => date_cmp x y
  | DTime x, DTime y => time_cmp x y
  | DTimestamp x, DTimestamp y => datetime_cmp x y
  | DTimestamptz x, DTimestamptz y => ts_cmp x y
  | DInterval x, DInterval y => interval_cmp x y
  | _, _ => Eq
  end.

Lemma compare_class a b t :
  order_class a = Some t -> order_class b = Some t -> compare a b = Ok (Some (class_cmp a b)).
Proof. intros Ha Hb. destruct a, b; simplify_eq/=; done. Qed.

(** Every type's comparison is a preorder. *)
Lemma scalar_preorders :
  cmp_preorder Z.compare /\ cmp_preorder bool_cmp /\ cmp_preorder str_cmp /\
    cmp_preorder float_cmp /\ cmp_preorder date_cmp /\ cmp_preorder time_cmp /\
    cmp_preorder datetime_cmp /\ cmp_preorder ts_cmp /\ cmp_preorder interval_cmp.
Proof.
  pose proof (cmp_order_preorder _ Zcompare_order) as HZ.
  split_and!; auto using cmp_order_preorder, bool_cmp_order, date_cmp_order, time_cmp_order,
    datetime_cmp_order, ts_cmp_order.
  - apply (preorder_comap str_bytes), cmp_order_preorder, bytes_cmp_order.
  - destruct (preorder_comap f64_rank _ HZ) as [Hf Ht].
    split; intros *; rewrite !float_cmp_rank; [apply Hf|apply Ht].
  - apply (preorder_comap canonical_micros), HZ.
Qed.

Lemma class_cmp_flip a b t :
  order_class a = Some t -> order_class b = Some t -> class_cmp b a = CompOpp (class_cmp a b).
Proof.
  pose proof scalar_preorders as (? & ? & ? & ? & ? & ? & ? & ? & ?).
  pose proof bd_cmp_preorder. intros Ha Hb. destruct a, b; simplify_eq/=; by apply pre_flip.
Qed.

Lemma class_cmp_trans a b c t :
  order_class a = Some t -> order_class b = Some t -> order_class c = Some t ->
  class_cmp a b <> Gt -> class_cmp b c <> Gt -> class_cmp a c <> Gt.
Proof.
  pose proof scalar_preorders as (? & ? & ? & ? & ? & ? & ? & ? & ?).
  pose proof bd_cmp_preorder. intros Ha Hb Hc.
  destruct a, b; simplify_eq/=; destruct c; simplify_eq/=; by apply pre_trans.
Qed.

Lemma class_cmp_eq a b t :
  order_class a = Some t -> order_class b = Some t -> float_bits_ok a -> float_bits_ok b ->
  class_cmp a b = Eq <-> datum_eqb a b = true.
Proof.
  intros Ha Hb Wa Wb. destruct a, b; simplify_eq/=;
    rewrite ?bool_decide_eq_true, ?eqb_true_iff, ?Z.eqb_eq, ?Z.compare_eq_iff;
    auto using float_cmp_eq, bd_cmp_eq.
  - apply (cmp_eq _ bool_cmp_order).
  - unfold str_cmp. rewrite (cmp_eq _ bytes_cmp_order).
    split; [apply str_bytes_inj|congruence].
  - apply (cmp_eq _ date_cmp_order).
  - apply (cmp_eq _ time_cmp_order).
  - apply (cmp_eq _ datetime_cmp_order).
  - apply (cmp_eq _ ts_cmp_order).
  - unfold interval_cmp, interval_eqb. by rewrite Z.compare_eq_iff, Z.eqb_eq.
Qed.

(** On the values of each type but bytea, the comparison that sorting, MIN,
    MAX and the operators share always answers, is antisymmetric and transitive
    (with NaN above every number), and calls two values equal exactly when
    grouping and DISTINCT do. *)
Theorem compare_orders_each_type (t : ColumnType) (a b c : Datum) :
  order_class a = Some t -> order_class b = Some t -> order_class c = Some t ->
  float_bits_ok a -> float_bits_ok b ->
  exists o o' : comparison,
    compare a b = Ok (Some o) /\ compare b a = Ok (Some (CompOpp o)) /\
    (o = Eq <-> datum_eqb a b = true) /\
    compare b c = Ok (Some o') /\
    (o <> Gt -> o' <> Gt -> exists o'', compare a c = Ok (Some o'') /\ o'' <> Gt).
Proof.
  intros Ha Hb Hc Wa Wb. exists (class_cmp a b), (class_cmp b c).
  split_and!; eauto using compare_class, class_cmp_eq.
  - rewrite <- (class_cmp_flip a b t) by done. eauto using compare_class.
  - eexists. split; eauto using compare_class, class_cmp_trans.
Qed.

End Order.

(** A negative zero, a positive zero and a NaN. *)
Lemma compare_orders_each_type_witness :
  exists o o' : comparison,
    compare (DFloat8 9223372036854775808) (DFloat8 (H := model_ext) 0) = Ok (Some o) /\
    compare (DFloat8 0) (DFloat8 (H := model_ext) 9221120237041090560) = Ok (Some o') /\
    (o = Eq <-> datum_eqb (DFloat8 (H := model_ext) 9223372036854775808) (DFloat8 0) = true).
Proof.
  destruct (compare_orders_each_type TFloat8 (DFloat8 (H := model_ext) 9223372036854775808)
    (DFloat8 0) (DFloat8 9221120237041090560)) as (o & o' & E & _ & Eq & E' & _);
    [done|done|done|unfold float_bits_ok, u64_ok; lia..|].
  exists o, o'. done.
Defined.

(** ** Integer arithmetic of the SQL operators (pgtypes/src/ops.rs)

    int4 and int8 operands in any combination: the exact result in the wider of
    the two types, or an error, never a wrapped value. *)
(** The two integer types, [true] the wider. *)
Definition int_ok (wide : bool) (n : Z) : Prop := if wide then i64_ok n else i32_ok n.

#[local] Instance int_ok_dec wide n : Decision (int_ok wide n).
Proof. destruct wide; apply _. Defined.

Section IntArith.
Context `{ExtArith}.

Definition DInt (wide : bool) (n : Z) : Datum := if wide then DInt8 n else DInt4 n.

(** The exact result when the type holds it. *)
Definition exact_or_overflow (wide : bool) (n : Z) : result TypeError Datum :=
  if decide (int_ok wide n) then Ok (DInt wide n) else Err Overflow.

Lemma checked_exact (wide : bool) n :
  DInt wide <$> ok_or ((if wide then checked_i64 else checked_i32) n) Overflow =
  exact_or_overflow wide n.
Proof.
  unfold exact_or_overflow, checked_i32, checked_i64, int_ok. destruct wide; by repeat case_decide.
Qed.

Lemma arith_int wa wb x y o4 o8 f n :
  arith (DInt wa x) (DInt wb y) o4 o8 f n =
  DInt (wa || wb) <$> ok_or ((if wa || wb then o8 else o4) x y) Overflow.
Proof. by destruct wa, wb. Qed.

Lemma quot_range M x y :
  0 < M -> - M <= x < M -> - M <= y < M -> y <> 0 ->
  (- M <= Z.quot x y < M) <-> ~ (x = - M /\ y = -1).
Proof.
  intros HM Hx Hy Hne. destruct (decide (y = 1)) as [->|]; [rewrite Z.quot_1_r; lia|].
  destruct (decide (y = -1)) as [->|].
  { change (-1) with (- (1)). rewrite Z.quot_opp_r, Z.quot_1_r by lia. lia. }
  pose proof (Z.quot_abs x y Hne) as Ha.
  assert (2 * Z.abs (Z.quot x y) <= Z.abs x); [|lia].
  rewrite <- Ha, Z.quot_div_nonneg by lia.
  pose proof (Z.mul_div_le (Z.abs x) (Z.abs y)). nia.
Qed.

Lemma rem_range M x y : 0 < M -> - M <= x < M -> y <> 0 -> - M <= Z.rem x y < M.
Proof.
  intros HM Hx Hne. pose proof (Z.rem_abs x y Hne) as Ha.
  rewrite Z.rem_mod_nonneg in Ha by lia.
  pose proof (Z.mod_le (Z.abs x) (Z.abs y)). pose proof (Z.rem_sign_nz x y Hne).
  destruct (decide (Z.rem x y = 0)); [lia|]. lia.
Qed.

Lemma div_int (wide : bool) x y :
  int_ok wide x -> int_ok wide y -> y <> 0 ->
  DInt wide <$> ok_or ((if wide then checked_i64 else checked_i32) (Z.quot x y)) Overflow =
  if decide (x = (if wide then -9223372036854775808 else -2147483648) /\ y = -1)
  then Err Overflow else Ok (DInt wide (Z.quot x y)).
Proof.
  intros Hx Hy Hne. rewrite checked_exact. unfold exact_or_overflow.
  assert (int_ok wide (Z.quot x y) <->
    ~ (x = (if wide then -9223372036854775808 else -2147483648) /\ y = -1)) as Hr.
  { unfold int_ok, i64_ok, i32_ok in *. destruct wide.
    - pose proof (quot_range 9223372036854775808 x y). lia.
    - pose proof (quot_range 2147483648 x y). lia. }
  do 2 case_decide; try done; by apply Hr in H1 || by destruct H1; apply Hr.
Qed.

(** C34: Integer arithmetic never wraps: on int4 and int8 operands in any
    combination, +, - and * give the exact result in the wider type or an
    overflow error; / gives the truncated quotient, and overflows exactly for
    the smallest value over minus one; a zero divisor is its own error; and the
    remainder always fits. *)
Theorem int_arith_exact_or_error (wa wb : bool) (x y : Z) :
  int_ok wa x -> int_ok wb y ->
  let w := wa || wb in
  let a := DInt wa x in
  let b := DInt wb y in
  add a b = lift (exact_or_overflow w (x + y)) /\
  sub a b = lift (exact_or_overflow w (x - y)) /\
  mul a b = exact_or_overflow w (x * y) /\
  (y = 0 -> div a b = Err DivisionByZero /\ rem a b = Err DivisionByZero) /\
  (y <> 0 ->
   div a b = (if decide (x = (if w then -9223372036854775808 else -2147483648) /\ y = -1)
              then Err Overflow else Ok (DInt w (Z.quot x y))) /\
   rem a b = Ok (DInt w (Z.rem x y)) /\ int_ok w (Z.rem x y)).
Proof.
  intros Hx Hy w a b.
  assert (int_ok w x /\ int_ok w y) as [Hx' Hy'].
  { unfold w, int_ok, i32_ok, i64_ok in *. destruct wa, wb; cbn; lia. }
  assert (is_null a || is_null b = false /\ is_temporal a || is_temporal b = false /\
    is_float a || is_float b = false /\ is_num a || is_num b = false /\
    is_int_zero b = (y =? 0)) as (N1 & N2 & N3 & N4 & N5) by (by destruct wa, wb).
  unfold add, sub, mul, div. rewrite N1, N2, N3, N4, N5. unfold a, b. rewrite !arith_int. fold w.
  split_and!.
  - rewrite <- checked_exact. by destruct w.
  - rewrite <- checked_exact. by destruct w.
  - rewrite <- checked_exact. by destruct w.
  - intros ->. split; [done|]. unfold rem. fold a b. by rewrite N1, N4, N5.
  - intros Hne. rewrite (proj2 (Z.eqb_neq y 0)) by done. split_and!.
    + rewrite <- (div_int w x y) by done. by destruct w; cbn; unfold checked_quot;
        rewrite (proj2 (Z.eqb_neq y 0)) by done.
    + unfold rem. fold a b. rewrite N1, N4, N5, (proj2 (Z.eqb_neq y 0)) by done. by destruct wa, wb.
    + unfold int_ok, i64_ok, i32_ok in *. destruct w;
        [apply (rem_range 9223372036854775808)|apply (rem_range 2147483648)]; lia.
Qed.

End IntArith.

(** The smallest bigint over minus one, a bigint and an integer. *)
Lemma int_arith_exact_or_error_witness :
  div (DInt8 (H := model_ext) (-9223372036854775808)) (DInt4 (-1)) = Err Overflow.
Proof.
  destruct (int_arith_exact_or_error (H0 := model_arith) true false (-9223372036854775808) (-1))
    as (_ & _ & _ & _ & Hd); [cbn; unfold i64_ok; lia|cbn; unfold i32_ok; lia|].
  destruct (Hd ltac:(done)) as [E _]. exact E.
Defined.

(** ** Where date arithmetic panics (pgtypes/src/datetime.rs, ops.rs)

    jiff's span constructors panic outside their limits, and the operators reach
    them with whatever the SQL operand holds. *)
Lemma panic_or_panics {E A} (o : option A) : panic_or (E := E) o = Err Panicked <-> o = None.
Proof. by destruct o. Qed.

Section Faults.
Context `{ExtArithLaws}.

Lemma span_none (mk : Z -> option Span) lim :
  (forall n, is_Some (mk n) <-> Z.abs n <= lim) -> forall n, mk n = None <-> lim < Z.abs n.
Proof.
  intros Hr n. rewrite eq_None_not_Some, Hr. lia.
Qed.

Lemma add_span_panics mk lim n ts :
  (forall n, is_Some (mk n) <-> Z.abs n <= lim) -> 0 <= lim ->
  add_span mk n ts = Err Panicked <-> lim < Z.abs n.
Proof.
  intros Hr Hl. unfold add_span. destruct (Z.eqb_spec n 0) as [->|Hn]; cbn [negb].
  { split; [done|]. cbn. lia. }
  destruct (mk n) as [sp|] eqn:E; cbn.
  - split; [by destruct (datetime_checked_add ts sp)|]. intros Hlt.
    by apply (span_none mk lim Hr) in Hlt; rewrite E in Hlt.
  - split; [|done]. intros _. by apply (span_none mk lim Hr).
Qed.

Lemma add_span_0 mk ts : add_span mk 0 ts = Ok ts.
Proof. done. Qed.

(** Adding an integer to a date panics exactly when the integer is beyond
    jiff's span limit of 7,304,484 days, and adding an interval to a timestamp
    panics on the first of its months, days and microseconds that is beyond its
    limit; neither is reported as an out-of-range date. *)
Theorem date_arithmetic_panics (d : Date) (n : Z) (ts : DateTime) (iv : Interval) :
  (add (DDate d) (DInt4 n) = Err Panicked <-> 7304484 < Z.abs n) /\
  (239976 < Z.abs (months iv) -> add (DTimestamp ts) (DInterval iv) = Err Panicked) /\
  (months iv = 0 -> 7304484 < Z.abs (days iv) ->
   add (DTimestamp ts) (DInterval iv) = Err Panicked) /\
  (months iv = 0 -> days iv = 0 ->
   (add (DTimestamp ts) (DInterval iv) = Err Panicked <-> 631107417600000000 < Z.abs (micros iv))).
Proof.
  assert (forall {A B} (r : result (fault TypeError) A) (f : A -> B),
    f <$> r = Err Panicked <-> r = Err Panicked) as Hf.
  { intros A B [a|e] f; split; try done; by intros [= ->]. }
  cbn -[timestamp_plus_interval date_plus_days]. rewrite !Hf. unfold timestamp_plus_interval.
  split_and!.
  - unfold date_plus_days. destruct (span_days n) as [sp|] eqn:E; cbn.
    + split; [by destruct (date_checked_add d sp)|]. intros Hlt.
      by apply (span_none _ _ span_days_range) in Hlt; rewrite E in Hlt.
    + split; [|done]. intros _. by apply (span_none _ _ span_days_range).
  - intros Hm. by apply (add_span_panics _ _ _ ts span_months_range) in Hm as ->; [|lia].
  - intros Hm Hd. rewrite Hm, add_span_0. cbn [mbind result_bind].
    by apply (add_span_panics _ _ _ ts span_days_range) in Hd as ->; [|lia].
  - intros Hm Hd. rewrite Hm, Hd, !add_span_0. cbn [mbind result_bind]. rewrite add_span_0.
    by apply add_span_panics; [apply span_microseconds_range|].
Qed.

End Faults.

Lemma date_arithmetic_panics_witness :
  add (DDate (0 : @Date model_ext)) (DInt4 10000000) = Err Panicked.
Proof.
  apply (date_arithmetic_panics (0 : @Date model_ext) 10000000 (0 : @DateTime model_ext)
    (mkInterval 0 0 0)). lia.
Defined.
