(* ===== verification/RowEnc.v ===== *)
(** * Row value encoding (kv/src/rowenc.rs)

    A row is a version byte followed by one tagged field per column. The
    [expect] of a text, numeric text or bytea of 4 GiB or more is outside the
    model: [datum_ok] bounds those lengths. *)
From Stdlib Require Import ZArith Lia.
From stdpp Require Import base list gmap strings.
From S2P Require Import Prelude Keys Datum Numeric DateTimeBin ExtModel.
Open Scope Z_scope.

(** [kv/src/rowenc.rs:10-10] ROW_VERSION *)
Definition ROW_VERSION : Z := 1.

(** [kv/src/rowenc.rs:204-210] take_u8 *)
Definition take_u8 (cur : bytes) : result KvError (Z * bytes) :=
  match cur with
  | [] => Err (CorruptRow "truncated")
  | head :: rest => Ok (head, rest)
  end.

(** [kv/src/rowenc.rs:212-219] take_n *)
Definition take_n (cur : bytes) (n : Z) : result KvError (bytes * bytes) :=
  if Z.of_nat (length cur) <? n then Err (CorruptRow "truncated field")
  else Ok (take (Z.to_nat n) cur, drop (Z.to_nat n) cur).

(** A u32 length prefix and that many bytes. *)
Definition take_len (cur : bytes) : result KvError (bytes * bytes) :=
  '(len_raw, cur) ← take_n cur 4;
  take_n cur (be_val len_raw).

Definition put_len (b : bytes) : bytes := be_bytes 4 (Z.of_nat (length b)) ++ b.

Section RowEnc.
Context `{Ext}.

(** The body of the loop of [encode_row], with the tags of [mod tag]. *)
Definition encode_datum (d : Datum) : bytes :=
  match d with
  | DNull => [0]
  | DBool b => [1; if b then 1 else 0]
  | DInt4 n => 2 :: i32_to_be n
  | DInt8 n => 3 :: i64_to_be n
  | DText s => 4 :: put_len (str_bytes s)
  | DFloat8 f => 5 :: be_bytes 8 f
  | DNumeric d => 6 :: put_len (str_bytes (to_text d))
  | DDate d => 7 :: date_to_binary d
  | DTime t => 8 :: time_to_binary t
  | DTimestamp ts => 9 :: timestamp_to_binary ts
  | DTimestamptz ts => 10 :: timestamptz_to_binary ts
  | DInterval iv => 11 :: interval_to_binary iv
  | DBytea b => 12 :: put_len b
  end.

(** [kv/src/rowenc.rs:43-107] encode_row *)
Definition encode_row (cols : list Datum) : bytes :=
  ROW_VERSION :: concat (map encode_datum cols).

(** The [match t] of the loop of [decode_row]. *)
Definition decode_field (t : Z) (cur : bytes) : result KvError (Datum * bytes) :=
  match t with
  | 0 => Ok (DNull, cur)
  | 1 => '(b, cur) ← take_u8 cur; Ok (DBool (negb (b =? 0)), cur)
  | 2 => '(raw, cur) ← take_n cur 4; Ok (DInt4 (i32_from_be raw), cur)
  | 3 => '(raw, cur) ← take_n cur 8; Ok (DInt8 (i64_from_be raw), cur)
  | 4 =>
      '(raw, cur) ← take_len cur;
      s ← ok_or (from_utf8 raw) (CorruptRow "text is not valid UTF-8");
      Ok (DText s, cur)
  | 5 => '(raw, cur) ← take_n cur 8; Ok (DFloat8 (be_val raw), cur)
  | 6 =>
      '(raw, cur) ← take_len cur;
      s ← ok_or (from_utf8 raw) (CorruptRow "numeric text is not valid UTF-8");
      d ← ok_or (parse s) (CorruptRow ("invalid numeric " +:+ str_debug s));
      Ok (DNumeric d, cur)
  | 7 =>
      '(raw, cur) ← take_n cur 4;
      d ← map_err (fun e => CorruptRow ("corrupt date: " +:+ type_error_display e))
            (date_from_binary raw);
      Ok (DDate d, cur)
  | 8 =>
      '(raw, cur) ← take_n cur 8;
      d ← map_err (fun e => CorruptRow ("corrupt time: " +:+ type_error_display e))
            (time_from_binary raw);
      Ok (DTime d, cur)
  | 9 =>
      '(raw, cur) ← take_n cur 8;
      d ← map_err (fun e => CorruptRow ("corrupt timestamp: " +:+ type_error_display e))
            (timestamp_from_binary raw);
      Ok (DTimestamp d, cur)
  | 10 =>
      '(raw, cur) ← take_n cur 8;
      d ← map_err (fun e => CorruptRow ("corrupt timestamptz: " +:+ type_error_display e))
            (timestamptz_from_binary raw);
      Ok (DTimestamptz d, cur)
  | 11 =>
      '(raw, cur) ← take_n cur 16;
      d ← map_err (fun e => CorruptRow ("corrupt interval: " +:+ type_error_display e))
            (interval_from_binary raw);
      Ok (DInterval d, cur)
  | 12 => '(raw, cur) ← take_len cur; Ok (DBytea raw, cur)
  | other => Err (CorruptRow ("unknown field tag " +:+ z_to_string other))
  end.

(** The [while] loop of [decode_row]. Every iteration reads at least the tag, so
    the length of the input is fuel enough ([decode_cols_fuel]). *)
Fixpoint decode_cols (fuel : nat) (cur : bytes) : result KvError (list Datum) :=
  match fuel, cur with
  | _, [] => Ok []
  | O, _ => Err (Io "out of fuel")
  | S fuel, _ =>
      '(t, cur) ← take_u8 cur;
      '(d, cur) ← decode_field t cur;
      cols ← decode_cols fuel cur;
      Ok (d :: cols)
  end.

(** [kv/src/rowenc.rs:109-202] decode_row *)
Definition decode_row (b : bytes) : result KvError (list Datum) :=
  '(version, cur) ← take_u8 b;
  if negb (version =? ROW_VERSION)
  then Err (CorruptRow ("unknown row version " +:+ z_to_string version))
  else decode_cols (length cur) cur.

(** ** The values a row can hold *)

(** The values a row stores faithfully: integers of their width, valid UTF-8
    below 4 GiB, canonical numerics within the format limits, instants in
    jiff's range at microsecond resolution. *)
Definition datum_ok (d : Datum) : Prop :=
  match d with
  | DNull | DBool _ => True
  | DInt4 n => i32_ok n
  | DInt8 n => i64_ok n
  | DText s => str_ok s /\ u32_ok (Z.of_nat (String.length s))
  | DFloat8 f => u64_ok f
  | DNumeric d =>
      0 <= (bd_parts d).2 /\ within_format_limits d = true /\
      u32_ok (Z.of_nat (String.length (to_text d)))
  | DDate d => date_ok d
  | DTime t => time_ok t
  | DTimestamp ts => timestamp_ok ts
  | DTimestamptz ts => timestamptz_ok ts
  | DInterval iv => interval_ok iv
  | DBytea b => bytes_ok b /\ u32_ok (Z.of_nat (length b))
  end.

Definition row_ok (r : list Datum) : Prop := Forall datum_ok r.

End RowEnc.

(** ** Reading fields back *)

Lemma take_n_app a rest n :
  Z.of_nat (length a) = n -> take_n (a ++ rest) n = Ok (a, rest).
Proof.
  intros <-. unfold take_n. rewrite length_app.
  destruct (Z.ltb_spec (Z.of_nat (length a + length rest)) (Z.of_nat (length a))); [lia|].
  by rewrite Nat2Z.id, take_app_length, drop_app_length.
Qed.

Lemma take_len_put b rest :
  u32_ok (Z.of_nat (length b)) -> take_len (put_len b ++ rest) = Ok (b, rest).
Proof.
  intros Hb. unfold take_len, put_len. rewrite <- app_assoc.
  rewrite take_n_app by (by rewrite be_bytes_length). rsimpl.
  rewrite be_val_be_bytes by exact Hb. by apply take_n_app.
Qed.

(** A printed numeric is ASCII, hence valid UTF-8. *)
Lemma ascii_str_ok s : graphic (str_bytes s) -> str_ok s.
Proof.
  unfold str_ok. generalize (str_bytes s) as b. clear s.
  induction 1 as [|x b Hx _ IH]; simpl; [done|].
  unfold in_range at 1. by replace ((0 <=? x) && (x <=? 127)) with true by lia.
Qed.

Section RoundTrip.
Context `{ExtLaws}.

Lemma to_text_str_ok bd : 0 <= (bd_parts bd).2 -> str_ok (to_text bd).
Proof.
  intros He. apply ascii_str_ok.
  destruct (to_text_shape bd He) as (neg & ip & fp & -> & Hip & _ & Hfp & _).
  rewrite !graphic_app. split_and!; [by destruct neg; repeat constructor | |].
  - by apply digits_graphic.
  - case_decide; [constructor|]. rewrite graphic_app.
    split; [by repeat constructor | by apply digits_graphic].
Qed.

(** One field: the decoder reads exactly the encoder's bytes. *)
Lemma decode_field_encode d rest :
  datum_ok d ->
  exists t body, encode_datum d = t :: body /\
    decode_field t (body ++ rest) = Ok (d, rest).
Proof.
  intros Hd. destruct d; simpl in Hd; eexists _, _; (split; [reflexivity|]);
    unfold decode_field.
  - done.
  - by destruct b.
  - rewrite take_n_app by (by rewrite i32_to_be_length). rsimpl. by rewrite i32_from_to.
  - rewrite take_n_app by (by rewrite i64_to_be_length). rsimpl. by rewrite i64_from_to.
  - destruct Hd as [Hs Hl]. rewrite take_len_put by (by rewrite str_bytes_length). rsimpl.
    by rewrite from_utf8_str_bytes.
  - rewrite take_n_app by (by rewrite be_bytes_length). rsimpl.
    by rewrite be_val_be_bytes.
  - destruct Hd as (He & Hf & Hl).
    rewrite take_len_put by (by rewrite str_bytes_length). rsimpl.
    rewrite from_utf8_str_bytes by (by apply to_text_str_ok). rsimpl.
    by rewrite parse_to_text.
  - rewrite take_n_app by (unfold date_to_binary; by rewrite i32_to_be_length). rsimpl.
    by rewrite date_roundtrip.
  - rewrite take_n_app by (unfold time_to_binary; by rewrite i64_to_be_length). rsimpl.
    by rewrite time_roundtrip.
  - rewrite take_n_app by (unfold timestamp_to_binary; by rewrite i64_to_be_length).
    rsimpl. by rewrite timestamp_roundtrip.
  - rewrite take_n_app by (unfold timestamptz_to_binary; by rewrite i64_to_be_length).
    rsimpl. by rewrite timestamptz_roundtrip.
  - rewrite take_n_app by done. rsimpl. by rewrite interval_roundtrip.
  - destruct Hd as [Hb Hl]. rewrite take_len_put by done. done.
Qed.

Lemma decode_cols_encode cols fuel :
  row_ok cols -> (length (concat (map encode_datum cols)) <= fuel)%nat ->
  decode_cols fuel (concat (map encode_datum cols)) = Ok cols.
Proof.
  intros Hc; revert fuel; induction Hc as [|d cols Hd Hc IH]; intros fuel Hf.
  - by destruct fuel.
  - destruct (decode_field_encode d (concat (map encode_datum cols)) Hd)
      as (t & body & E & Hdec).
    simpl in Hf |- *. rewrite E in Hf |- *. simpl in Hf |- *.
    destruct fuel as [|fuel]; [lia|]. simpl. rewrite Hdec. simpl.
    rewrite IH by (rewrite length_app in Hf; lia). done.
Qed.

Lemma decode_row_encode cols : row_ok cols -> decode_row (encode_row cols) = Ok cols.
Proof. intros Hc. unfold decode_row, encode_row. simpl. by apply decode_cols_encode. Qed.

End RoundTrip.

(** ** Fuel *)

Section Fuel.
Context `{Ext}.

Lemma take_n_rest cur n raw rest :
  take_n cur n = Ok (raw, rest) -> (length rest <= length cur)%nat.
Proof.
  unfold take_n. case_match; [done|]. intros [= _ <-]. rewrite length_drop. lia.
Qed.

Lemma take_len_rest cur raw rest :
  take_len cur = Ok (raw, rest) -> (length rest <= length cur)%nat.
Proof.
  unfold take_len. intros ([l c] & H1%take_n_rest & H2%take_n_rest)%bind_Ok. lia.
Qed.

Lemma decode_field_rest t cur d rest :
  decode_field t cur = Ok (d, rest) -> (length rest <= length cur)%nat.
Proof.
  unfold decode_field. intros E.
  repeat first
    [ progress simplify_eq | lia | case_match
    | match goal with
      | E : (_ ≫= _) = Ok _ |- _ => apply bind_Ok in E as (? & ? & ?)
      | E : take_n _ _ = Ok (_, _) |- _ => apply take_n_rest in E
      | E : take_len _ = Ok (_, _) |- _ => apply take_len_rest in E
      | E : take_u8 ?c = Ok _ |- _ => destruct c; simpl in E
      | x : _ * _ |- _ => destruct x
      end ].
  all: simpl; lia.
Qed.

(** The loop ends by itself: any fuel of at least the input's length gives the
    same answer. *)
Lemma decode_cols_fuel f1 f2 cur :
  (length cur <= f1)%nat -> (length cur <= f2)%nat ->
  decode_cols f1 cur = decode_cols f2 cur.
Proof.
  revert f2 cur; induction f1 as [|f1 IH]; intros f2 cur H1 H2.
  { destruct cur; [by destruct f2|simpl in H1; lia]. }
  destruct cur as [|t cur]; [by destruct f2|]. simpl in H1, H2.
  destruct f2 as [|f2]; [lia|]. simpl.
  destruct (decode_field t cur) as [[d rest]|e] eqn:E; simpl; [|done].
  apply decode_field_rest in E. by rewrite (IH f2) by lia.
Qed.

Lemma decode_field_not_io t cur m : decode_field t cur <> Err (Io m).
Proof.
  intros E. unfold decode_field, take_len, take_n, take_u8, ok_or, map_err in E.
  repeat (first [ progress simplify_eq/= | case_match ]).
Qed.

Lemma decode_cols_not_io fuel cur m :
  (length cur <= fuel)%nat -> decode_cols fuel cur <> Err (Io m).
Proof.
  revert cur; induction fuel as [|fuel IH]; intros [|t cur] Hl; simpl in *;
    try done; [lia|].
  destruct (decode_field t cur) as [[d rest]|e] eqn:E; simpl.
  - apply decode_field_rest in E. specialize (IH rest ltac:(lia)).
    by destruct (decode_cols fuel rest); simpl; [|naive_solver].
  - intros [= ->]. by eapply decode_field_not_io.
Qed.

End Fuel.

(** ** Claims *)

Section Claims.
Context `{ExtLaws}.

(** C29: Rows survive storage: decoding the encoding of a row of storable values
    gives the row back, every value and its type, numeric display scales
    included. *)
Theorem row_roundtrip cols : row_ok cols -> decode_row (encode_row cols) = Ok cols.
Proof. apply decode_row_encode. Qed.

(** Decoding is total on arbitrary bytes: the field loop always finishes,
    with a row or with a CorruptRow error (never the out-of-fuel value), and
    giving the loop more fuel than the input's length never changes the
    outcome. *)
Theorem decode_row_total b :
  (exists cols, decode_row b = Ok cols) \/ (exists m, decode_row b = Err (CorruptRow m)).
Proof.
  destruct (decode_row b) as [cols|[m|m]] eqn:E; eauto. exfalso.
  unfold decode_row in E. destruct b as [|v b]; simpl in E; [done|].
  case_match; [done|]. by eapply (decode_cols_not_io (length b) b m).
Qed.

(** A date the type accepts but whose midnight lies outside jiff's instant
    range (9999-12-31 is one) is written to storage without complaint, and from
    then on the row that holds it cannot be decoded. *)
Theorem stored_extreme_date_unreadable pre d post :
  row_ok pre -> i32_ok (date_since_pg_epoch d) -> ~ date_ok d ->
  decode_row (encode_row (pre ++ DDate d :: post)) =
    Err (CorruptRow ("corrupt date: " +:+ type_error_display
      (DatetimeFieldOverflow (z_to_string (date_since_pg_epoch d))))).
Proof.
  intros Hpre Hi Hd. unfold decode_row, encode_row. simpl.
  set (n := length _). assert (length (concat (map encode_datum (pre ++ DDate d :: post)))
    <= n)%nat as Hn by done. clearbody n.
  revert n Hn; induction Hpre as [|x pre Hx Hpre IH]; intros n Hn.
  - destruct n as [|n]; [simpl in Hn; lia|].
    cbn [app map concat encode_datum decode_cols take_u8 decode_field mbind result_bind].
    rewrite take_n_app by (unfold date_to_binary; by rewrite i32_to_be_length). rsimpl.
    by rewrite date_roundtrip_fails.
  - destruct (decode_field_encode x (concat (map encode_datum (pre ++ DDate d :: post))) Hx)
      as (t & body & E & Hdec).
    simpl in Hn |- *. rewrite E in Hn |- *. simpl in Hn |- *.
    destruct n as [|n]; [lia|]. simpl. rewrite Hdec. simpl.
    rewrite IH by (rewrite length_app in Hn; lia). done.
Qed.

(** [time_from_binary] reduces the hour count modulo 256 before checking it:
    a clock value any multiple of 256 hours past a valid time of day decodes as
    that time instead of being refused as out of range. *)
Theorem time_from_binary_accepts_out_of_range t k :
  time_ok t -> 0 <= k -> i64_ok (time_micros t + k * (256 * 3600000000)) ->
  time_from_binary (i64_to_be (time_micros t + k * (256 * 3600000000))) = Ok t.
Proof.
  intros Ht Hk Hi. unfold time_from_binary. rewrite i64_to_be_length. simpl Nat.eqb.
  rsimpl. rewrite i64_from_to by done.
  by rewrite (time_new_of_micros t k Ht Hk).
Qed.

(** Adding an interval to a time of day never fails below the i64 bound: the
    result is the sum of the microseconds modulo 24 hours (days and months are
    ignored), a valid time. *)
Theorem time_plus_interval_wraps t iv :
  time_ok t -> i64_ok (time_micros t + micros iv) ->
  exists t', time_plus_interval t iv = Some t' /\
    time_micros t' = (time_micros t + micros iv) mod USECS_PER_DAY /\ time_ok t'.
Proof. apply time_plus_interval_mod. Qed.

End Claims.

(** The extreme row values used by the witnesses, over [model_ext]. *)
Definition sample_row : list (Datum (H := model_ext)) :=
  [DInt4 (-5); DText "abc"; DNull; DBool true; DNumeric (-12345, 3) ; DDate 8000;
   DInterval (mkInterval 1 (-2) 3); DBytea [0; 255]].

Lemma sample_row_ok : row_ok sample_row.
Proof. repeat constructor; vm_compute; congruence. Qed.

Lemma row_roundtrip_witness : decode_row (encode_row sample_row) = Ok sample_row.
Proof. apply (row_roundtrip sample_row), sample_row_ok. Defined.

Lemma stored_extreme_date_unreadable_witness :
  decode_row (H := model_ext) (encode_row [DInt4 1; DDate 2921939; DInt4 2]) =
    Err (CorruptRow ("corrupt date: " +:+ type_error_display
      (DatetimeFieldOverflow (z_to_string 2921939)))).
Proof.
  apply (stored_extreme_date_unreadable [DInt4 1] (2921939 : Date (Ext := model_ext))
    [DInt4 2]).
  - repeat constructor; vm_compute; congruence.
  - vm_compute; split; congruence.
  - unfold date_ok. vm_compute. intros [_ E]. by apply E.
Defined.

Definition midnight : Time (Ext := model_ext) := exist _ 0 eq_refl.

Lemma time_from_binary_accepts_out_of_range_witness :
  time_from_binary (i64_to_be (time_micros midnight + 1 * (256 * 3600000000))) = Ok midnight.
Proof.
  apply (time_from_binary_accepts_out_of_range midnight 1); vm_compute; try split; congruence.
Defined.

Lemma time_plus_interval_wraps_witness :
  exists t', time_plus_interval midnight (mkInterval 5 6 (-1000000)) = Some t' /\
    time_micros t' = (time_micros midnight + -1000000) mod USECS_PER_DAY /\ time_ok t'.
Proof.
  apply (time_plus_interval_wraps midnight (mkInterval 5 6 (-1000000)));
    vm_compute; try split; congruence.
Defined.
