(* ===== verification/Mvcc.v ===== *)
(** * Multi-version concurrency: versions, commit log, visibility
      (mvcc/src/xid.rs, version.rs, clog.rs, visibility.rs)

    A row's versions live under its row key with the creating transaction's id
    as suffix; the commit log maps transaction ids to outcomes; a snapshot and
    the commit log decide which version a reader sees. *)
From Stdlib Require Import ZArith Lia.
From stdpp Require Import base list gmap strings sorting.
From S2P Require Import Prelude Keys Store Datum RowEnc.
Open Scope Z_scope.

(** [mvcc/src/xid.rs:9-9] INVALID_XID *)
Definition INVALID_XID : Z := 0.

(** [mvcc/src/xid.rs:14-14] GLOBAL_XID_BASE *)
Definition GLOBAL_XID_BASE : Z := 9223372036854775808.

(** ** Version keys *)

(** [mvcc/src/version.rs:18-22] version_key_xid *)
Definition version_key_xid (table_id rowid xid : Z) : bytes :=
  row_key table_id rowid ++ be_bytes 8 xid.

(** [mvcc/src/version.rs:25-30] row_prefix_of *)
Definition row_prefix_of (key : bytes) : result KvError bytes :=
  if (length key <? 8)%nat then Err (CorruptRow "version key too short")
  else Ok (take (length key - 8) key).

(** [mvcc/src/version.rs:33-37] xid_of_key *)
Definition xid_of_key (key : bytes) : result KvError Z :=
  if (length key <? 8)%nat then Err (CorruptRow "version key too short")
  else Ok (be_val (drop (length key - 8) key)).

(** ** Tuples *)

Section Tuple.
Context `{Ext}.

(** [mvcc/src/version.rs:43-47] TupleHeader: a tag byte and two big-endian u64,
    packed in 17 bytes. *)
Record TupleHeader : Type := mkHeader { h_tag : Z; h_xmin : Z; h_xmax : Z }.

Definition T_TUPLE : Z := 1.

Definition header_bytes (h : TupleHeader) : bytes :=
  h_tag h :: be_bytes 8 (h_xmin h) ++ be_bytes 8 (h_xmax h).

(** [ref_from_prefix]: the header and the rest, when 17 bytes are there. *)
Definition header_of_prefix (b : bytes) : option (TupleHeader * bytes) :=
  match b with
  | t :: r =>
      if (length r <? 16)%nat then None
      else Some (mkHeader t (be_val (take 8 r)) (be_val (take 8 (drop 8 r))), drop 16 r)
  | [] => None
  end.

(** [mvcc/src/version.rs:54-64] encode_tuple *)
Definition encode_tuple (xmin xmax : Z) (row : list Datum) : bytes :=
  header_bytes (mkHeader T_TUPLE xmin xmax) ++ encode_row row.

(** [mvcc/src/version.rs:67-75] decode_tuple *)
Definition decode_tuple (b : bytes) : result KvError (Z * Z * list Datum) :=
  '(header, rest) ← ok_or (header_of_prefix b) (CorruptRow "bad tuple header");
  if negb (h_tag header =? T_TUPLE) then Err (CorruptRow "bad tuple header")
  else
    row ← decode_row rest;
    Ok (h_xmin header, h_xmax header, row).

End Tuple.

(** ** The commit log *)

(** [mvcc/src/clog.rs:10-15] XidStatus *)
Inductive XidStatus : Type :=
| InProgress
| Committed
| Aborted
| Prepared (g : Z).

#[export] Instance XidStatus_eq_dec : EqDecision XidStatus.
Proof. solve_decision. Defined.

(** [mvcc/src/clog.rs:31-46] clog::decode *)
Definition clog_decode (value : bytes) : result KvError XidStatus :=
  match value with
  | [] => Ok InProgress
  | s :: _ =>
      if s =? 0 then Ok InProgress
      else if s =? 1 then Ok Committed
      else if s =? 2 then Ok Aborted
      else if s =? 3 then
        if (length value <? 9)%nat
        then Err (CorruptRow "prepared clog missing global xid")
        else Ok (Prepared (be_val (take 8 (drop 1 value))))
      else Err (CorruptRow "bad clog status byte")
  end.

(** [mvcc/src/clog.rs:24-26] clog::get *)
Definition clog_get (kv : MemKv) (xid : Z) : result KvError XidStatus :=
  clog_decode (default [] (kv_get kv (clog_key xid))).

Definition clog_value (status : XidStatus) : bytes :=
  match status with
  | InProgress => [0]
  | Committed => [1]
  | Aborted => [2]
  | Prepared g => 3 :: be_bytes 8 g
  end.

(** [mvcc/src/clog.rs:49-65] clog::put_op *)
Definition clog_put_op (xid : Z) (status : XidStatus) : WriteOp :=
  Put (clog_key xid) (clog_value status).

(** [mvcc/src/clog.rs:70-72] clog::is_terminal *)
Definition is_terminal (value : bytes) : bool :=
  match value with
  | s :: _ => (s =? 1) || (s =? 2)
  | [] => false
  end.

(** ** Visibility *)

(** [mvcc/src/visibility.rs:14-18] Snapshot *)
Record Snapshot : Type := mkSnapshot {
  s_xmin : Z;
  s_xmax : Z;
  s_xip : list Z
}.

(** [slice::binary_search] for u64, [is_ok]. *)
Definition xip_contains (xip : list Z) (xid : Z) : bool :=
  match binary_search_by (fun x => x ?= xid) xip with inl _ => true | inr _ => false end.

(** [mvcc/src/visibility.rs:22-29] Snapshot::is_running *)
Definition is_running (s : Snapshot) (xid : Z) : bool :=
  (s_xmax s <=? xid) || xip_contains (s_xip s) xid.

(** [mvcc/src/visibility.rs:34-47] committed_visible *)
Definition committed_visible (xid : Z) (snapshot : Snapshot) (own : option Z)
    (status : Z -> result KvError XidStatus) : result KvError bool :=
  if bool_decide (Some xid = own) then Ok true
  else if is_running snapshot xid then Ok false
  else st ← status xid; Ok (bool_decide (st = Committed)).

(** [mvcc/src/visibility.rs:52-70] satisfies_mvcc *)
Definition satisfies_mvcc (xmin xmax : Z) (snapshot : Snapshot) (own : option Z)
    (status : Z -> result KvError XidStatus) : result KvError bool :=
  v ← committed_visible xmin snapshot own status;
  if negb v then Ok false
  else if xmax =? INVALID_XID then Ok true
  else d ← committed_visible xmax snapshot own status; Ok (negb d).

(** ** Version keys: lemmas *)

Lemma version_key_length t r x : length (version_key_xid t r x) = 24%nat.
Proof. reflexivity. Qed.

Lemma take_length_app {A} (a b : list A) n :
  (length b = n)%nat -> take (length (a ++ b) - n) (a ++ b) = a.
Proof. intros <-. rewrite length_app, Nat.add_sub. apply take_app_length. Qed.

Lemma drop_length_app {A} (a b : list A) n :
  (length b = n)%nat -> drop (length (a ++ b) - n) (a ++ b) = b.
Proof. intros <-. rewrite length_app, Nat.add_sub. apply drop_app_length. Qed.

Lemma row_prefix_of_version t r x : row_prefix_of (version_key_xid t r x) = Ok (row_key t r).
Proof.
  unfold row_prefix_of. rewrite version_key_length. simpl Nat.ltb. cbn iota.
  rewrite <- (version_key_length t r x). unfold version_key_xid.
  by rewrite take_length_app.
Qed.

Lemma xid_of_key_version t r x : u64_ok x -> xid_of_key (version_key_xid t r x) = Ok x.
Proof.
  intros Hx. unfold xid_of_key. rewrite version_key_length. simpl Nat.ltb. cbn iota.
  rewrite <- (version_key_length t r x). unfold version_key_xid.
  rewrite drop_length_app by done. by rewrite be_val_be_bytes.
Qed.

Lemma row_key_inj t r t' r' :
  u32_ok t -> u64_ok r -> u32_ok t' -> u64_ok r' ->
  row_key t r = row_key t' r' -> t = t' /\ r = r'.
Proof.
  intros Ht Hr Ht' Hr' E. unfold row_key, table_prefix in E.
  rewrite <- !app_assoc in E.
  apply app_eq_length in E as [E1 E]; [|by rewrite !put_u32_length].
  apply app_eq_length in E as [_ E]; [|by rewrite !put_u32_length].
  split; [by apply put_u32_inj | by apply put_u64_inj].
Qed.

Lemma row_key_length t r : length (row_key t r) = 16%nat.
Proof. reflexivity. Qed.

Lemma version_key_inj t r x t' r' x' :
  u32_ok t -> u64_ok r -> u64_ok x -> u32_ok t' -> u64_ok r' -> u64_ok x' ->
  version_key_xid t r x = version_key_xid t' r' x' -> t = t' /\ r = r' /\ x = x'.
Proof.
  intros Ht Hr Hx Ht' Hr' Hx' E. unfold version_key_xid in E.
  apply app_eq_length in E as [E1 E2]; [|by rewrite !row_key_length].
  apply row_key_inj in E1 as [-> ->]; try done. split_and!; try done.
  by apply (be_bytes_inj 8).
Qed.

(** ** Tuples: lemmas *)

Lemma header_of_prefix_app h rest :
  u64_ok (h_xmin h) -> u64_ok (h_xmax h) ->
  header_of_prefix (header_bytes h ++ rest) = Some (h, rest).
Proof.
  intros Hmin Hmax. unfold header_bytes, header_of_prefix.
  set (A := be_bytes 8 (h_xmin h)). set (B := be_bytes 8 (h_xmax h)).
  assert (length A = 8%nat) as LA by apply be_bytes_length.
  assert (length B = 8%nat) as LB by apply be_bytes_length.
  change ((h_tag h :: A ++ B) ++ rest) with (h_tag h :: (A ++ B) ++ rest).
  rewrite <- app_assoc. cbv iota.
  destruct (Nat.ltb_spec (length (A ++ B ++ rest)) 16) as [Hl|Hl];
    [rewrite !length_app in Hl; lia|].
  assert (take 8 (A ++ B ++ rest) = A) as -> by (apply take_app_length'; lia).
  assert (drop 8 (A ++ B ++ rest) = B ++ rest) as -> by (apply drop_app_length'; lia).
  assert (take 8 (B ++ rest) = B) as -> by (apply take_app_length'; lia).
  assert (drop 16 (A ++ B ++ rest) = rest) as ->.
  { rewrite app_assoc. apply drop_app_length'. rewrite length_app. lia. }
  unfold A, B. rewrite !be_val_be_bytes by done. by destruct h.
Qed.

Section TupleRoundTrip.
Context `{ExtLaws}.

Lemma decode_tuple_encode xmin xmax row :
  u64_ok xmin -> u64_ok xmax -> row_ok row ->
  decode_tuple (encode_tuple xmin xmax row) = Ok (xmin, xmax, row).
Proof.
  intros Hmin Hmax Hrow. unfold decode_tuple, encode_tuple.
  rewrite header_of_prefix_app by done. rsimpl.
  change (h_tag (mkHeader T_TUPLE xmin xmax) =? T_TUPLE) with true. rsimpl.
  by rewrite decode_row_encode.
Qed.

End TupleRoundTrip.

(** ** The commit log: lemmas *)

Definition status_ok (st : XidStatus) : Prop :=
  match st with Prepared g => u64_ok g | _ => True end.

Lemma clog_decode_value st : status_ok st -> clog_decode (clog_value st) = Ok st.
Proof.
  destruct st as [| | |g]; try done. intros Hg. unfold clog_decode, clog_value.
  change (3 =? 0) with false. change (3 =? 1) with false.
  change (3 =? 2) with false. change (3 =? 3) with true. cbn iota.
  assert (length (3 :: be_bytes 8 g) = 9%nat) as -> by done.
  simpl Nat.ltb. cbn iota. change (drop 1 (3 :: be_bytes 8 g)) with (be_bytes 8 g).
  rewrite take_ge by (by rewrite be_bytes_length). by rewrite be_val_be_bytes.
Qed.

Lemma is_terminal_spec v :
  is_terminal v = true <-> clog_decode v = Ok Committed \/ clog_decode v = Ok Aborted.
Proof.
  unfold is_terminal, clog_decode. destruct v as [|s v]; [naive_solver|].
  destruct (Z.eqb_spec s 0), (Z.eqb_spec s 1), (Z.eqb_spec s 2);
    subst; simpl; try lia; try naive_solver.
  repeat case_match; naive_solver.
Qed.

Lemma clog_key_inj x y : u64_ok x -> u64_ok y -> clog_key x = clog_key y -> x = y.
Proof.
  intros Hx Hy E. rewrite !clog_key_prefix in E. apply app_inv_head in E.
  by apply put_u64_inj.
Qed.

Lemma clog_get_put kv x st y :
  u64_ok x -> u64_ok y -> status_ok st ->
  clog_get (write_op kv (clog_put_op x st)) y = if decide (x = y) then Ok st else clog_get kv y.
Proof.
  intros Hx Hy Hst. unfold clog_get. simpl. rewrite kv_get_put.
  case_decide as E; case_decide as E'; subst; simpl.
  - by apply clog_decode_value.
  - by apply clog_key_inj in E.
  - done.
  - done.
Qed.

(** ** Visibility: lemmas *)

Definition xip_sorted (xip : list Z) : Prop := StronglySorted Z.le xip.

(** On the sorted set a snapshot carries, binary search is membership. *)
Lemma xip_contains_spec xip x :
  xip_sorted xip -> xip_contains xip x = true <-> In x xip.
Proof.
  intros Hs. unfold xip_contains.
  assert (cmp_sorted (fun y => y ?= x) xip) as Hc.
  { eapply StronglySorted_weaken_in; [|exact Hs]. intros a b _ _ Hab. simpl.
    destruct (Z.compare_spec a x), (Z.compare_spec b x); simpl; try done; lia. }
  pose proof (binary_search_by_spec _ _ Hc) as H.
  destruct (binary_search_by _ xip) as [i|i].
  - destruct H as (y & Hy & E). apply Z.compare_eq in E as ->.
    split; [|done]. intros _. apply list_elem_of_In. by eapply list_elem_of_lookup_2.
  - destruct H as [_ H]. split; [done|]. intros Hin%list_elem_of_In.
    apply list_elem_of_lookup_1 in Hin as [j Hj]. apply H in Hj.
    rewrite Z.compare_refl in Hj. by destruct (j <? i)%nat.
Qed.

Definition snapshot_ok (s : Snapshot) : Prop := xip_sorted (s_xip s).

(** The transactions whose effects a snapshot may show: finished before it. *)
Lemma is_running_false s x :
  snapshot_ok s -> is_running s x = false <-> x < s_xmax s /\ ~ In x (s_xip s).
Proof.
  intros Hs. unfold is_running. rewrite orb_false_iff, Z.leb_gt.
  by rewrite <- (xip_contains_spec (s_xip s) x Hs), not_true_iff_false.
Qed.

Lemma committed_visible_true x s own status :
  committed_visible x s own status = Ok true <->
  own = Some x \/ (is_running s x = false /\ status x = Ok Committed).
Proof.
  unfold committed_visible. case_bool_decide as E; [naive_solver|].
  destruct (is_running s x); [naive_solver|].
  destruct (status x) as [st|e]; simpl; [|naive_solver].
  case_bool_decide; naive_solver.
Qed.

(** Visibility only consults the commit log on transactions the snapshot counts
    as finished. *)
Lemma committed_visible_ext x s own status status' :
  (is_running s x = false -> own <> Some x -> status x = status' x) ->
  committed_visible x s own status = committed_visible x s own status'.
Proof.
  intros Hs. unfold committed_visible. case_bool_decide; [done|].
  destruct (is_running s x) eqn:E; [done|]. by rewrite Hs by naive_solver.
Qed.

Lemma satisfies_mvcc_ext xmin xmax s own status status' :
  (forall x, (x = xmin \/ x = xmax) -> is_running s x = false -> own <> Some x ->
     status x = status' x) ->
  satisfies_mvcc xmin xmax s own status = satisfies_mvcc xmin xmax s own status'.
Proof.
  intros Hs. unfold satisfies_mvcc.
  rewrite (committed_visible_ext xmin s own status status') by auto.
  by rewrite (committed_visible_ext xmax s own status status') by auto.
Qed.

Lemma satisfies_mvcc_true xmin xmax s own status :
  satisfies_mvcc xmin xmax s own status = Ok true <->
  committed_visible xmin s own status = Ok true /\
  (xmax = INVALID_XID \/ committed_visible xmax s own status = Ok false).
Proof.
  unfold satisfies_mvcc. destruct (committed_visible xmin s own status) as [[]|e]; simpl;
    [|naive_solver|naive_solver].
  destruct (Z.eqb_spec xmax INVALID_XID); [naive_solver|].
  destruct (committed_visible xmax s own status) as [[]|e]; simpl; naive_solver.
Qed.

(** ** The key space: no two records share a key

    Every record the system stores, as one inductive type with its key, and the
    proof that the encodings of kv/src/key.rs and mvcc/src/version.rs never
    collide. *)
(** What a key names. *)
Inductive StoredKey : Type :=
| KVersion (table rowid xid : Z)
| KCatalog (name : string)
| KSeq (table : Z)
| KFdw (name : string)
| KServer (name : string)
| KUserMapping (user server : string)
| KClog (xid : Z)
| KNextTableId
| KRangeMap
| KNextXid
| KNextGlobalXid
| KClogScanLo.

Definition stored_key (k : StoredKey) : bytes :=
  match k with
  | KVersion t r x => version_key_xid t r x
  | KCatalog n => catalog_key n
  | KSeq t => seq_key t
  | KFdw n => fdw_key n
  | KServer n => server_key n
  | KUserMapping u s => user_mapping_key u s
  | KClog x => clog_key x
  | KNextTableId => meta_next_table_id_key
  | KRangeMap => meta_range_map_key
  | KNextXid => next_xid_key
  | KNextGlobalXid => meta_next_global_xid_key
  | KClogScanLo => clog_scan_lo_key
  end.

(** Ids within their widths; user tables have a non-zero id; the user of a
    mapping has no NUL, which separates it from the server. *)
Definition stored_key_ok (k : StoredKey) : Prop :=
  match k with
  | KVersion t r x => u32_ok t /\ t <> SYSTEM_TABLE_ID /\ u64_ok r /\ u64_ok x
  | KSeq t => u32_ok t
  | KClog x => u64_ok x
  | KUserMapping u _ => ~ In 0 (str_bytes u)
  | _ => True
  end.

(** The tag and suffix of a system key. *)
Definition system_parts (k : StoredKey) : option (string * bytes) :=
  match k with
  | KVersion _ _ _ => None
  | KCatalog n => Some ("catalog", str_bytes n)
  | KSeq t => Some ("seq", put_u32 t)
  | KFdw n => Some ("fdw", str_bytes n)
  | KServer n => Some ("fsrv", str_bytes n)
  | KUserMapping u s => Some ("umap", str_bytes u ++ [0] ++ str_bytes s)
  | KClog x => Some ("clog", put_u64 x)
  | KNextTableId => Some ("meta", str_bytes "next_table_id")
  | KRangeMap => Some ("meta", str_bytes "range_map")
  | KNextXid => Some ("meta", str_bytes "next_xid")
  | KNextGlobalXid => Some ("meta", str_bytes "next_global_xid")
  | KClogScanLo => Some ("meta", str_bytes "clog_scan_lo")
  end.

Lemma stored_key_parts k tag suffix :
  system_parts k = Some (tag, suffix) -> stored_key k = system_prefix tag ++ suffix.
Proof. destruct k; simpl; intros [= <- <-]; reflexivity. Qed.

Lemma app_sep_inj {A} (c : A) l1 l2 a b :
  ~ In c l1 -> ~ In c l2 -> l1 ++ c :: a = l2 ++ c :: b -> l1 = l2 /\ a = b.
Proof.
  revert l2; induction l1 as [|x l1 IH]; intros [|y l2] H1 H2 E; simpl in *;
    simplify_eq; try tauto.
  destruct (IH l2) as [-> ->]; tauto.
Qed.

Definition no_slash (s : string) : Prop := ~ In 47 (str_bytes s).

Lemma system_prefix_inj t1 t2 a b :
  no_slash t1 -> no_slash t2 ->
  system_prefix t1 ++ a = system_prefix t2 ++ b -> t1 = t2 /\ a = b.
Proof.
  intros H1 H2 E. unfold system_prefix in E. rewrite <- !app_assoc in E.
  apply app_inv_head in E. apply app_sep_inj in E as [E ->]; [|done|done].
  split; [by apply str_bytes_inj|done].
Qed.

Lemma system_parts_no_slash k tag suffix :
  system_parts k = Some (tag, suffix) -> no_slash tag.
Proof.
  destruct k; simpl; intros [= <- <-]; unfold no_slash; vm_compute; intuition congruence.
Qed.

Lemma system_prefix_head tag : take 4 (system_prefix tag) = put_u32 SYSTEM_TABLE_ID.
Proof. reflexivity. Qed.

(** A row version is never a system record: its table id is not zero. *)
Lemma version_not_system t r x tag suffix :
  u32_ok t -> t <> SYSTEM_TABLE_ID -> version_key_xid t r x <> system_prefix tag ++ suffix.
Proof.
  intros Ht Hne E. apply (f_equal (take 4)) in E. apply Hne.
  apply put_u32_inj; [done|unfold SYSTEM_TABLE_ID; width_lia|].
  exact E.
Qed.

Lemma system_parts_inj k k' p :
  stored_key_ok k -> stored_key_ok k' ->
  system_parts k = Some p -> system_parts k' = Some p -> k = k'.
Proof.
  intros Hk Hk' E E'.
  destruct k, k'; try done; rewrite <- E in E'; cbn [system_parts stored_key_ok] in *;
    apply (inj Some), pair_eq in E' as [Etag Esuf]; try done.
  - f_equal. symmetry. by apply str_bytes_inj.
  - f_equal. symmetry. by apply put_u32_inj.
  - f_equal. symmetry. by apply str_bytes_inj.
  - f_equal. symmetry. by apply str_bytes_inj.
  - apply app_sep_inj in Esuf as [E1%str_bytes_inj E2%str_bytes_inj]; congruence.
  - f_equal. symmetry. by apply put_u64_inj.
Qed.

Lemma system_parts_None k : system_parts k = None -> exists t r x, k = KVersion t r x.
Proof. destruct k; try done. eauto. Qed.

Lemma stored_key_inj k k' :
  stored_key_ok k -> stored_key_ok k' -> stored_key k = stored_key k' -> k = k'.
Proof.
  intros Hk Hk' E.
  destruct (system_parts k) as [[t s]|] eqn:P, (system_parts k') as [[t' s']|] eqn:P'.
  - rewrite (stored_key_parts k t s P), (stored_key_parts k' t' s' P') in E.
    apply system_prefix_inj in E as [-> ->]; eauto using system_parts_no_slash,
      system_parts_inj.
  - apply system_parts_None in P' as (? & ? & ? & ->). simpl in Hk'.
    rewrite (stored_key_parts k t s P) in E. symmetry in E.
    exfalso. eapply version_not_system; [| |exact E]; tauto.
  - apply system_parts_None in P as (? & ? & ? & ->). simpl in Hk.
    rewrite (stored_key_parts k' t' s' P') in E.
    exfalso. eapply version_not_system; [| |exact E]; tauto.
  - apply system_parts_None in P as (? & ? & ? & ->), P' as (? & ? & ? & ->).
    simpl in *. apply version_key_inj in E as (-> & -> & ->); tauto.
Qed.

(** The scan of a table's rows meets no system record and no other table's. *)
Lemma table_prefix_only k t :
  stored_key_ok k -> u32_ok t -> t <> SYSTEM_TABLE_ID ->
  starts_with (table_prefix t) (stored_key k) = true ->
  exists r x, k = KVersion t r x.
Proof.
  intros Hk Ht Hne [s E]%starts_with_spec.
  destruct (system_parts k) as [[tag suf]|] eqn:P.
  - rewrite (stored_key_parts k tag suf P) in E. apply (f_equal (take 4)) in E.
    destruct Hne. apply put_u32_inj; [done|unfold SYSTEM_TABLE_ID; width_lia|].
    symmetry. exact E.
  - apply system_parts_None in P as (t' & r & x & ->). simpl in *.
    apply (f_equal (take 4)) in E. assert (put_u32 t' = put_u32 t) as E' by exact E.
    apply put_u32_inj in E' as ->; try tauto. eauto.
Qed.

(** No two records of the system share a key: row versions of all tables,
    schemas, sequences, foreign wrappers, servers and user mappings, commit-log
    entries and the five metadata records have pairwise distinct keys, and the
    prefix scan of a table meets only that table's row versions. *)
Theorem key_space_disjoint k k' :
  stored_key_ok k -> stored_key_ok k' ->
  (stored_key k = stored_key k' -> k = k') /\
  (forall t, u32_ok t -> t <> SYSTEM_TABLE_ID ->
     starts_with (table_prefix t) (stored_key k) = true ->
     exists r x, k = KVersion t r x).
Proof. intros. split; [by apply stored_key_inj | intros; by apply table_prefix_only]. Qed.

Lemma key_space_disjoint_witness :
  (stored_key (KUserMapping "ab" "c") = stored_key (KUserMapping "a" "bc") ->
     KUserMapping "ab" "c" = KUserMapping "a" "bc") /\
  (forall t, u32_ok t -> t <> SYSTEM_TABLE_ID ->
     starts_with (table_prefix t) (stored_key (KUserMapping "ab" "c")) = true ->
     exists r x, KUserMapping "ab" "c" = KVersion t r x).
Proof.
  apply (key_space_disjoint (KUserMapping "ab" "c") (KUserMapping "a" "bc"));
    vm_compute; intuition congruence.
Defined.

(** ** Orders of keys used by scans *)

Lemma clog_key_order x y :
  u64_ok x -> u64_ok y -> lex_leb (clog_key x) (clog_key y) = (x <=? y).
Proof.
  intros. rewrite !clog_key_prefix, lex_le_app_same. by apply lex_leb_put_u64.
Qed.

Lemma clog_key_below_end x : lex_lt (clog_key x) clog_scan_end.
Proof. reflexivity. Qed.

Lemma version_key_order t r x y :
  u64_ok x -> u64_ok y ->
  lex_leb (version_key_xid t r x) (version_key_xid t r y) = (x <=? y).
Proof.
  intros. unfold version_key_xid. rewrite lex_le_app_same. by apply lex_leb_be_bytes.
Qed.
