(* ===== verification/StateMachine.v ===== *)
(** * The replicated state machine (cluster/src/store.rs)

    The Raft state machine of one range: the operations of committed log
    entries applied to the range's store with two guards, a max-merge on the
    counter keys and write-once terminal decisions on the commit log, and the
    snapshots that transfer the whole state.

    Log ids, memberships and votes are openraft's types, and the bytes of a
    snapshot are serde_json's: they are the parameters [Raft] and [Serde]. *)
From Stdlib Require Import ZArith Lia.
From stdpp Require Import base list gmap strings sorting.
From S2P Require Import Prelude Keys Store Datum RowEnc Mvcc.
Open Scope Z_scope.

(** ** Applying one operation *)

(** [cluster/src/store.rs:85-90] is_seq_key *)
Definition is_seq_key (key : bytes) : bool :=
  let prefix := seq_key 0 in
  let plen := (length prefix - 4)%nat in
  Nat.eqb (length key) (length prefix)
  && bool_decide (take plen key = take plen prefix).

(** [cluster/src/store.rs:74-76] is_counter_key *)
Definition is_counter_key (key : bytes) : bool :=
  bool_decide (key = next_xid_key) || is_seq_key key.

(** [cluster/src/store.rs:80-83] is_clog_key *)
Definition is_clog_key (key : bytes) : bool :=
  let prefix := clog_prefix in
  (length prefix <=? length key)%nat && bool_decide (take (length prefix) key = prefix).

(** [cluster/src/store.rs:97-102] u64_be: [None] is the panic on a value
    shorter than 8 bytes. *)
Definition u64_be (b : bytes) : option Z :=
  if (length b <? 8)%nat then None else Some (be_val (take 8 b)).

(** [cluster/src/store.rs:40-71] apply_op: [None] is the panic of [u64_be]. *)
Definition apply_op (kv : MemKv) (op : WriteOp) : option MemKv :=
  match op with
  | Put key value =>
      if is_counter_key key then
        incoming ← u64_be value;
        existing ← match kv_get kv key with Some b => u64_be b | None => Some 0 end;
        let merged := Z.max existing incoming in
        Some (kv_put kv key (be_bytes 8 merged))
      else if is_clog_key key then
        let keep := match kv_get kv key with Some b => is_terminal b | None => false end in
        Some (if keep then kv else kv_put kv key value)
      else Some (kv_put kv key value)
  | Delete key => Some (kv_delete kv key)
  end.

(** The operations of one batch, in order. *)
Fixpoint apply_ops (kv : MemKv) (ops : list WriteOp) : option MemKv :=
  match ops with
  | [] => Some kv
  | op :: ops => kv ← apply_op kv op; apply_ops kv ops
  end.

(** ** Classification of keys *)

Lemma is_seq_key_seq t : is_seq_key (seq_key t) = true.
Proof. reflexivity. Qed.

Lemma is_clog_key_clog x : is_clog_key (clog_key x) = true.
Proof. reflexivity. Qed.

Lemma is_clog_key_spec k : is_clog_key k = true <-> exists s, k = clog_prefix ++ s.
Proof.
  unfold is_clog_key. rewrite andb_true_iff, Nat.leb_le, bool_decide_eq_true. split.
  - intros [_ E]. exists (drop (length clog_prefix) k).
    by rewrite <- (take_drop (length clog_prefix) k) at 1; rewrite E.
  - intros [s ->]. rewrite length_app, take_app_length. split; [lia|done].
Qed.

Lemma is_counter_key_spec k :
  is_counter_key k = true <->
  k = next_xid_key \/ exists s, k = system_prefix "seq" ++ s /\ length s = 4%nat.
Proof.
  unfold is_counter_key, is_seq_key.
  rewrite orb_true_iff, andb_true_iff, Nat.eqb_eq, !bool_decide_eq_true.
  change (length (seq_key 0) - 4)%nat with 8%nat. change (length (seq_key 0)) with 12%nat.
  change (take 8 (seq_key 0)) with (system_prefix "seq"). split.
  - intros [->|[Hl E]]; [by left|right]. exists (drop 8 k).
    rewrite <- E, take_drop, length_drop. split; [done|lia].
  - intros [->|(s & -> & Hl)]; [by left|right]. rewrite length_app, Hl. split; [done|].
    by apply take_app_length'.
Qed.

Lemma counter_not_clog k : is_counter_key k = true -> is_clog_key k = false.
Proof.
  intros Hc. apply not_true_iff_false. intros [s E]%is_clog_key_spec.
  apply is_counter_key_spec in Hc as [->|(s' & -> & _)];
    apply (f_equal (take 8)) in E; vm_compute in E; discriminate.
Qed.

(** The key of the GTM's counter is not one of the merged counters. *)
Lemma next_global_xid_not_counter :
  is_counter_key meta_next_global_xid_key = false /\
  is_clog_key meta_next_global_xid_key = false.
Proof. split; vm_compute; reflexivity. Qed.

(** ** One operation, key by key *)

(** The value an operation leaves at its own key. *)
Definition merge_value (key value : bytes) (old : option bytes) : option bytes :=
  if is_counter_key key then
    incoming ← u64_be value;
    existing ← match old with Some b => u64_be b | None => Some 0 end;
    Some (be_bytes 8 (Z.max existing incoming))
  else if is_clog_key key then
    match old with
    | Some b => if is_terminal b then Some b else Some value
    | None => Some value
    end
  else Some value.

Lemma apply_op_get kv op kv' k :
  apply_op kv op = Some kv' ->
  kv_get kv' k =
    if decide (op_key op = k) then
      match op with
      | Put key value => merge_value key value (kv_get kv key)
      | Delete _ => None
      end
    else kv_get kv k.
Proof.
  destruct op as [key value|key]; simpl.
  - unfold merge_value. destruct (is_counter_key key) eqn:Ec.
    + destruct (u64_be value) as [i|]; simpl; [|done].
      destruct (match kv_get kv key with Some b => u64_be b | None => Some 0 end)
        as [e|]; simpl; [|done].
      intros [= <-]. rewrite kv_get_put. by case_decide.
    + destruct (is_clog_key key); [|intros [= <-]; rewrite kv_get_put; by case_decide].
      destruct (kv_get kv key) as [b|] eqn:Eb.
      * destruct (is_terminal b) eqn:Et; intros [= <-].
        -- case_decide; [by subst|done].
        -- rewrite kv_get_put. by case_decide.
      * intros [= <-]. rewrite kv_get_put. by case_decide.
  - intros [= <-]. rewrite kv_get_delete. by case_decide.
Qed.

(** ** No panic *)

(** Counter values are 8-byte integers, in the store and in the operations. *)
Definition counters_ok (kv : MemKv) : Prop :=
  forall k v, is_counter_key k = true -> kv_get kv k = Some v -> length v = 8%nat.
Definition op_ok (op : WriteOp) : Prop :=
  match op with
  | Put k v => is_counter_key k = true -> length v = 8%nat
  | Delete _ => True
  end.

Lemma apply_ops_other kv ops kv' k :
  apply_ops kv ops = Some kv' -> (forall op, In op ops -> op_key op <> k) ->
  kv_get kv' k = kv_get kv k.
Proof.
  revert kv; induction ops as [|op ops IH]; intros kv E Hops; simpl in E; [by simplify_eq|].
  apply bind_Some in E as (kv1 & E1 & E).
  rewrite (IH kv1 E) by (intros; apply Hops; by right).
  rewrite (apply_op_get _ _ _ _ E1), decide_False; [done|]. apply Hops. by left.
Qed.

Lemma u64_be_8 b : length b = 8%nat -> u64_be b = Some (be_val b).
Proof. intros E. unfold u64_be. rewrite E. simpl. by rewrite take_ge by lia. Qed.

Lemma apply_op_total kv op :
  counters_ok kv -> op_ok op -> exists kv', apply_op kv op = Some kv' /\ counters_ok kv'.
Proof.
  intros Hkv Hop. assert (exists kv', apply_op kv op = Some kv') as [kv' E].
  { destruct op as [key value|key]; simpl in *; [|eauto].
    destruct (is_counter_key key) eqn:Ec; [|destruct (is_clog_key key); eauto].
    rewrite (u64_be_8 value) by auto. simpl.
    destruct (kv_get kv key) as [b|] eqn:Eb; simpl; [|eauto].
    rewrite (u64_be_8 b) by eauto. simpl. eauto. }
  exists kv'. split; [done|]. intros k v Hk Hv. rewrite (apply_op_get _ _ _ _ E) in Hv.
  case_decide as Ek; [|by eapply Hkv]. destruct op as [key value|key]; [|done].
  simpl in Ek, Hop. subst. unfold merge_value in Hv. rewrite Hk in Hv.
  repeat (destruct (u64_be _) || destruct (kv_get _ _)); simpl in Hv; by simplify_eq.
Qed.

Lemma apply_ops_total kv ops :
  counters_ok kv -> Forall op_ok ops ->
  exists kv', apply_ops kv ops = Some kv' /\ counters_ok kv'.
Proof.
  intros Hkv Hops; revert kv Hkv; induction Hops as [|op ops Hop Hops IH]; intros kv Hkv;
    simpl; [eauto|].
  destruct (apply_op_total kv op Hkv Hop) as (kv1 & -> & H1). simpl. eauto.
Qed.

(** ** The two guards over a whole history *)

Definition counter_val (kv : MemKv) (k : bytes) : Z :=
  match kv_get kv k with Some b => default 0 (u64_be b) | None => 0 end.

Definition deletes (k : bytes) (ops : list WriteOp) : Prop := In (Delete k) ops.

Lemma u64_be_be_bytes v : 0 <= v < 2 ^ 64 -> u64_be (be_bytes 8 v) = Some v.
Proof.
  intros Hv. rewrite u64_be_8 by apply be_bytes_length.
  by rewrite be_val_be_bytes.
Qed.

Lemma u64_be_range b v : bytes_ok b -> u64_be b = Some v -> u64_ok v.
Proof.
  unfold u64_be. intros Hb. destruct (Nat.ltb_spec (length b) 8); [done|]. intros [= <-].
  pose proof (be_val_bound (take 8 b) ltac:(by apply Forall_take)) as B.
  rewrite length_take_le in B by lia. exact B.
Qed.

(** Stored and proposed values are bytes. *)
Definition kv_bytes_ok (kv : MemKv) : Prop := forall k v, kv_get kv k = Some v -> bytes_ok v.
Definition op_bytes_ok (op : WriteOp) : Prop :=
  match op with Put _ v => bytes_ok v | Delete _ => True end.

Lemma apply_op_bytes_ok kv op kv' :
  kv_bytes_ok kv -> op_bytes_ok op -> apply_op kv op = Some kv' -> kv_bytes_ok kv'.
Proof.
  intros Hkv Hop E k v Hv. rewrite (apply_op_get _ _ _ _ E) in Hv.
  case_decide; [|by eapply Hkv]. destruct op as [key value|key]; [|done].
  unfold merge_value in Hv. simpl in Hop.
  destruct (is_counter_key key).
  - destruct (u64_be value); cbn [mbind option_bind] in Hv; [|done].
    destruct (kv_get kv key) as [b|]; [destruct (u64_be b)|];
      cbn [mbind option_bind] in Hv; [|done|]; apply (inj Some) in Hv as <-;
      apply be_bytes_ok.
  - destruct (is_clog_key key); [|by simplify_eq].
    destruct (kv_get kv key) eqn:Eb; [|by simplify_eq].
    destruct (is_terminal _); simplify_eq; eauto.
Qed.

Lemma apply_ops_bytes_ok kv ops kv' :
  kv_bytes_ok kv -> Forall op_bytes_ok ops -> apply_ops kv ops = Some kv' -> kv_bytes_ok kv'.
Proof.
  intros Hkv Hops; revert kv Hkv; induction Hops as [|op ops Hop _ IH]; intros kv Hkv E;
    simpl in E; [by simplify_eq|].
  destruct (apply_op kv op) as [kv1|] eqn:E1; [|done]. simpl in E.
  eapply IH; [|exact E]. by eapply apply_op_bytes_ok.
Qed.

(** A counter never moves back under one operation that does not delete it. *)
Lemma counter_step kv op kv' k :
  kv_bytes_ok kv -> op_bytes_ok op -> is_counter_key k = true -> op <> Delete k ->
  apply_op kv op = Some kv' -> counter_val kv k <= counter_val kv' k.
Proof.
  intros Hkv Hop Hk Hnd E. unfold counter_val. rewrite (apply_op_get _ _ _ _ E).
  case_decide as Ek; [|done]. destruct op as [key value|key]; simpl in Ek; [|congruence].
  subst key. simpl in Hop. unfold merge_value. rewrite Hk.
  simpl in E. rewrite Hk in E.
  destruct (u64_be value) as [i|] eqn:Ei; cbn [mbind option_bind] in *; [|done].
  apply u64_be_range in Ei as Hi; [|done].
  destruct (kv_get kv k) as [b|] eqn:Eb.
  - destruct (u64_be b) as [e|] eqn:Ee; cbn [mbind option_bind default] in *; [|done].
    apply u64_be_range in Ee as He; [|by eapply Hkv].
    rewrite u64_be_be_bytes by (unfold_widths; lia). simpl. lia.
  - cbn [mbind option_bind]. rewrite u64_be_be_bytes by (unfold_widths; lia). simpl.
    unfold u64_ok in Hi. lia.
Qed.

Lemma counter_monotone kv ops kv' k :
  kv_bytes_ok kv -> Forall op_bytes_ok ops -> is_counter_key k = true ->
  ~ deletes k ops -> apply_ops kv ops = Some kv' -> counter_val kv k <= counter_val kv' k.
Proof.
  intros Hkv Hops Hk; revert kv Hkv; induction Hops as [|op ops Hop _ IH];
    intros kv Hkv Hnd E; simpl in E; [by simplify_eq|].
  destruct (apply_op kv op) as [kv1|] eqn:E1; [|done]. simpl in E.
  transitivity (counter_val kv1 k).
  - eapply counter_step; eauto. intros ->. apply Hnd. by left.
  - eapply IH; eauto using apply_op_bytes_ok. intros Hd. apply Hnd. by right.
Qed.

(** A terminal commit-log entry never changes under operations that do not
    delete it. *)
Lemma clog_write_once kv ops kv' k b :
  is_clog_key k = true -> kv_get kv k = Some b -> is_terminal b = true ->
  ~ deletes k ops -> apply_ops kv ops = Some kv' -> kv_get kv' k = Some b.
Proof.
  intros Hk Hb Ht; revert kv Hb; induction ops as [|op ops IH]; intros kv Hb Hnd E;
    simpl in E; [by simplify_eq|].
  destruct (apply_op kv op) as [kv1|] eqn:E1; [|done]. simpl in E.
  eapply IH; [|by intros Hd; apply Hnd; right|exact E].
  rewrite (apply_op_get _ _ _ _ E1). case_decide as Ek; [|done].
  destruct op as [key value|key]; simpl in Ek; subst key.
  - unfold merge_value. rewrite Hk, Hb, Ht.
    destruct (is_counter_key k) eqn:Ec; [|done].
    apply counter_not_clog in Ec. congruence.
  - destruct Hnd. by left.
Qed.

(** Replaying a batch that was already applied leaves the counters and terminal
    decisions where they are: the last operation on a plain key decides. *)
(** What the commit log answers for a decided transaction never changes. *)
Lemma clog_terminal_stays kv x st ops kv' :
  clog_get kv x = Ok st -> st = Committed \/ st = Aborted ->
  ~ deletes (clog_key x) ops -> apply_ops kv ops = Some kv' -> clog_get kv' x = Ok st.
Proof.
  intros Hg Hst Hnd E. unfold clog_get in *.
  destruct (kv_get kv (clog_key x)) as [b|] eqn:Eb; simpl in Hg; [|naive_solver].
  assert (is_terminal b = true) as Ht by (apply is_terminal_spec; naive_solver).
  by rewrite (clog_write_once _ _ _ _ b (is_clog_key_clog x) Eb Ht Hnd E).
Qed.

Lemma apply_ops_app kv a b :
  apply_ops kv (a ++ b) = kv' ← apply_ops kv a; apply_ops kv' b.
Proof.
  revert kv; induction a as [|op a IH]; intros kv; simpl; [done|].
  destruct (apply_op kv op); simpl; [apply IH|done].
Qed.

(** ** The state machine *)

(** openraft's log ids, memberships and votes, with what the source uses of
    them: a log id's index, its order, how its leader prints, and the
    constructor and default of a stored membership. *)
Class Raft : Type := {
  LogId : Type;
  lid_index : LogId -> Z;
  lid_leb : LogId -> LogId -> bool;
  lid_leader_string : LogId -> string;
  Membership : Type;
  StoredMembership : Type;
  stored_membership_new : option LogId -> Membership -> StoredMembership;
  stored_membership_default : StoredMembership;
  Vote : Type
}.

(** serde_json for one type, and its round trip. *)
Class Serde (T : Type) : Type := {
  to_vec : T -> bytes;
  from_slice : bytes -> option T
}.
Class SerdeLaw (T : Type) `{Serde T} : Prop :=
  serde_roundtrip (x : T) : from_slice (to_vec x) = Some x.

Section StateMachine.
Context `{Raft}.

(** A log entry: its id and openraft's [EntryPayload] over [WriteBatch]. *)
Inductive EntryPayload : Type :=
| Blank
| Normal (ops : list WriteOp)
| MembershipChange (m : Membership).

Record Entry : Type := mkEntry { e_log_id : LogId; e_payload : EntryPayload }.

(** [cluster/src/store.rs:111-116] SnapshotPayload *)
Record SnapshotPayload : Type := mkPayload {
  p_last_applied : option LogId;
  p_last_membership : StoredMembership;
  p_kv : list (bytes * bytes)
}.

(** openraft's [SnapshotMeta]. *)
Record SnapshotMeta : Type := mkSnapshotMeta {
  m_last_log_id : option LogId;
  m_last_membership : StoredMembership;
  m_snapshot_id : string
}.

(** [cluster/src/store.rs:120-123] StoredSnapshot *)
Record StoredSnapshot : Type := mkStored { st_meta : SnapshotMeta; st_data : bytes }.

(** [cluster/src/store.rs:127-130] StateMachineMeta *)
Record StateMachineMeta : Type := mkMeta {
  last_applied : option LogId;
  last_membership : StoredMembership
}.

(** [cluster/src/store.rs:136-145] StateMachineStore *)
Record StateMachineStore : Type := mkSM {
  sm_kv : MemKv;
  sm_meta : StateMachineMeta;
  sm_snapshot_idx : Z;
  sm_current_snapshot : option StoredSnapshot
}.

(** One entry of [apply]'s loop. *)
Definition apply_entry (sm : StateMachineStore) (entry : Entry)
  : option StateMachineStore :=
  let meta := sm_meta sm in
  match e_payload entry with
  | Blank =>
      Some (mkSM (sm_kv sm) (mkMeta (Some (e_log_id entry)) (last_membership meta))
              (sm_snapshot_idx sm) (sm_current_snapshot sm))
  | Normal ops =>
      kv ← apply_ops (sm_kv sm) ops;
      Some (mkSM kv (mkMeta (Some (e_log_id entry)) (last_membership meta))
              (sm_snapshot_idx sm) (sm_current_snapshot sm))
  | MembershipChange m =>
      Some (mkSM (sm_kv sm)
              (mkMeta (Some (e_log_id entry))
                 (stored_membership_new (Some (e_log_id entry)) m))
              (sm_snapshot_idx sm) (sm_current_snapshot sm))
  end.

(** [cluster/src/store.rs:223-247] StateMachineStore::apply *)
Fixpoint sm_apply (sm : StateMachineStore) (entries : list Entry)
  : option StateMachineStore :=
  match entries with
  | [] => Some sm
  | e :: es => sm ← apply_entry sm e; sm_apply sm es
  end.

(** [cluster/src/store.rs:214-220] StateMachineStore::applied_state *)
Definition applied_state (sm : StateMachineStore) : option LogId * StoredMembership :=
  (last_applied (sm_meta sm), last_membership (sm_meta sm)).

Context `{Serde SnapshotPayload}.

(** The id a snapshot gets: [format!("{}-{}-{}", ..)]. *)
Definition snapshot_id_of (last : option LogId) (idx : Z) : string :=
  match last with
  | Some l => lid_leader_string l +:+ "-" +:+ z_to_string (lid_index l) +:+ "-" +:+ z_to_string idx
  | None => "--" +:+ z_to_string idx
  end.

(** [cluster/src/store.rs:164-208] StateMachineStore::build_snapshot: the new
    store and the snapshot handed to openraft. *)
Definition build_snapshot (sm : StateMachineStore) : StateMachineStore * StoredSnapshot :=
  let meta := sm_meta sm in
  let payload := mkPayload (last_applied meta) (last_membership meta)
                   (scan_prefix (sm_kv sm) []) in
  let data := to_vec payload in
  let idx := (sm_snapshot_idx sm + 1) mod 2 ^ 64 in
  let snap_meta := mkSnapshotMeta (last_applied meta) (last_membership meta)
                     (snapshot_id_of (last_applied meta) idx) in
  let stored := mkStored snap_meta data in
  (mkSM (sm_kv sm) meta idx (Some stored), stored).

(** [cluster/src/store.rs:261-291] StateMachineStore::install_snapshot: [None] is
    the read_snapshot error of undecodable data, raised before any change. *)
Definition install_snapshot (sm : StateMachineStore) (meta : SnapshotMeta) (data : bytes)
  : option StateMachineStore :=
  payload ← from_slice data;
  let existing := scan_prefix (sm_kv sm) [] in
  let kv := fold_left (fun kv e => kv_delete kv (fst e)) existing (sm_kv sm) in
  let kv := fold_left (fun kv e => kv_put kv (fst e) (snd e)) (p_kv payload) kv in
  Some (mkSM kv (mkMeta (m_last_log_id meta) (m_last_membership meta))
          (sm_snapshot_idx sm) (Some (mkStored meta data))).

(** [cluster/src/store.rs:294-304] StateMachineStore::get_current_snapshot *)
Definition get_current_snapshot (sm : StateMachineStore) : option StoredSnapshot :=
  sm_current_snapshot sm.

End StateMachine.

(** ** Snapshots carry the whole state *)

Lemma fold_delete_get (l : list (bytes * bytes)) kv k :
  kv_get (fold_left (fun kv e => kv_delete kv (fst e)) l kv) k =
    if decide (k ∈ l.*1) then None else kv_get kv k.
Proof.
  revert kv; induction l as [|[k' v] l IH]; intros kv; simpl; [done|].
  rewrite IH, kv_get_delete. simpl.
  destruct (decide (k ∈ l.*1)) as [H1|H1].
  - rewrite decide_True by (by right). done.
  - destruct (decide (k' = k)) as [->|Hne].
    + by rewrite decide_True by left.
    + rewrite decide_False; [done|]. rewrite elem_of_cons. naive_solver.
Qed.

Lemma fold_put_get (l : list (bytes * bytes)) kv k :
  NoDup (fst <$> l) ->
  kv_get (fold_left (fun kv e => kv_put kv (fst e) (snd e)) l kv) k =
    match (list_to_map l : gmap bytes bytes) !! k with
    | Some v => Some v
    | None => kv_get kv k
    end.
Proof.
  revert kv; induction l as [|[k' v] l IH]; intros kv Hnd; simpl; [done|].
  apply NoDup_cons in Hnd as [Hni Hnd]. rewrite IH by done.
  destruct (decide (k' = k)) as [->|Hne].
  - rewrite lookup_insert_eq, not_elem_of_list_to_map_1 by done.
    rewrite kv_get_put, decide_True by done. done.
  - rewrite lookup_insert_ne by done. rewrite kv_get_put, decide_False by done. done.
Qed.

Lemma scan_all_map kv : (list_to_map (scan_prefix kv []) : gmap bytes bytes) = kv_map kv.
Proof.
  rewrite scan_prefix_filter. replace (List.filter _ (entries kv)) with (entries kv).
  - apply map_eq. intros k. rewrite <- (list_to_map_to_list (kv_map kv)).
    f_equal. apply list_to_map_proper; [apply entries_NoDup|apply entries_perm].
  - induction (entries kv) as [|x l IH]; simpl in *; [done|]. by f_equal.
Qed.

Lemma elem_of_scan_all kv k : k ∈ (fst <$> scan_prefix kv []) <-> is_Some (kv_get kv k).
Proof.
  rewrite list_elem_of_fmap. split.
  - intros ([k' v] & -> & Hin). apply list_elem_of_In, In_scan_prefix in Hin as [E _].
    simpl. eauto.
  - intros [v E]. exists (k, v). split; [done|]. apply list_elem_of_In, In_scan_prefix. done.
Qed.

(** The contents of two stores determine them. *)
Lemma kv_ext kv kv' : (forall k, kv_get kv k = kv_get kv' k) -> kv = kv'.
Proof.
  destruct kv as [m], kv' as [m']. unfold kv_get; simpl. intros E. f_equal.
  by apply map_eq.
Qed.

Section SnapshotLemmas.
Context `{Raft} `{!Serde SnapshotPayload} `{!SerdeLaw SnapshotPayload}.

Lemma install_built_snapshot (src dst : StateMachineStore) :
  exists dst',
    install_snapshot dst (st_meta (build_snapshot src).2) (st_data (build_snapshot src).2)
      = Some dst' /\
    sm_kv dst' = sm_kv src /\ sm_meta dst' = sm_meta src.
Proof.
  unfold install_snapshot, build_snapshot. simpl. rewrite serde_roundtrip. simpl.
  eexists. split; [done|]. simpl. split; [|by destruct (sm_meta src)].
  apply kv_ext. intros k. rewrite fold_put_get.
  - rewrite scan_all_map, fold_delete_get.
    change (kv_map (sm_kv src) !! k) with (kv_get (sm_kv src) k).
    destruct (kv_get (sm_kv src) k); [done|].
    case_decide as Hk; [done|]. apply eq_None_not_Some.
    intros Hs. apply Hk. by apply elem_of_scan_all.
  - apply scan_prefix_nodup.
Qed.

End SnapshotLemmas.

(** ** Entries as operations *)

Section Entries.
Context `{Raft}.

Definition payload_ops (p : EntryPayload) : list WriteOp :=
  match p with Normal ops => ops | _ => [] end.
Definition entries_ops (es : list Entry) : list WriteOp :=
  concat (map (fun e => payload_ops (e_payload e)) es).

Lemma apply_entry_kv sm e sm' :
  apply_entry sm e = Some sm' ->
  apply_ops (sm_kv sm) (payload_ops (e_payload e)) = Some (sm_kv sm').
Proof.
  unfold apply_entry. destruct (e_payload e) as [|ops|m]; simpl; try by intros [= <-].
  destruct (apply_ops (sm_kv sm) ops); simpl; by intros [= <-].
Qed.

Lemma sm_apply_kv sm es sm' :
  sm_apply sm es = Some sm' -> apply_ops (sm_kv sm) (entries_ops es) = Some (sm_kv sm').
Proof.
  revert sm; induction es as [|e es IH]; intros sm; simpl; [by intros [= <-]|].
  destruct (apply_entry sm e) as [sm1|] eqn:E; simpl; [|done]. intros E'.
  unfold entries_ops. simpl. rewrite apply_ops_app, (apply_entry_kv _ _ _ E). simpl.
  by apply IH.
Qed.

Lemma sm_apply_app sm es1 es2 :
  sm_apply sm (es1 ++ es2) = sm' ← sm_apply sm es1; sm_apply sm' es2.
Proof.
  revert sm; induction es1 as [|e es1 IH]; intros sm; simpl; [done|].
  destruct (apply_entry sm e); simpl; [apply IH|done].
Qed.

(** Applying committed entries never panics: from a store whose counters are
    8-byte integers, entries that write 8-byte counters are all applied, the
    last one's id becomes [last_applied], and the store stays well formed. *)
Theorem apply_never_panics sm es :
  counters_ok (sm_kv sm) -> Forall op_ok (entries_ops es) ->
  exists sm', sm_apply sm es = Some sm' /\ counters_ok (sm_kv sm') /\
    last_applied (sm_meta sm') =
      match last es with Some e => Some (e_log_id e) | None => last_applied (sm_meta sm) end.
Proof.
  revert sm; induction es as [|e es IH]; intros sm Hc Hops; [by exists sm|].
  unfold entries_ops in Hops. simpl in Hops. apply Forall_app in Hops as [H1 H2].
  destruct (apply_ops_total (sm_kv sm) _ Hc H1) as (kv1 & E1 & Hc1).
  assert (exists sm1, apply_entry sm e = Some sm1 /\ sm_kv sm1 = kv1 /\
    last_applied (sm_meta sm1) = Some (e_log_id e)) as (sm1 & Ea & Ek & El).
  { unfold apply_entry. destruct (e_payload e); simpl in *; rewrite ?E1; simpl;
      (eexists; split; [reflexivity|]); simpl; naive_solver. }
  destruct (IH sm1) as (sm' & Es & Hc' & Hl); [by rewrite Ek|done|].
  exists sm'. simpl. rewrite Ea. simpl. split_and!; [done|done|].
  rewrite Hl, El. destruct es as [|x l]; [done|].
  change (last (e :: x :: l)) with (last (x :: l)).
  destruct (last (x :: l)) eqn:E0; [done|]. by apply last_None in E0.
Qed.

(** A counter ([next_xid] or a table's row-id sequence) never moves back,
    in whatever order committed entries carry its updates, as long as none
    deletes it. *)
Theorem counters_never_regress sm es sm' k :
  kv_bytes_ok (sm_kv sm) -> Forall op_bytes_ok (entries_ops es) ->
  is_counter_key k = true -> ~ deletes k (entries_ops es) ->
  sm_apply sm es = Some sm' ->
  counter_val (sm_kv sm) k <= counter_val (sm_kv sm') k.
Proof. intros Hkv Hops Hk Hnd E%sm_apply_kv. by eapply counter_monotone. Qed.

(** C17: Decisions are write-once: once the commit log of a range records a
    transaction as committed or aborted, no later committed entry that does not
    delete the record changes what [clog::get] answers. *)
Theorem decision_write_once sm es sm' x st :
  clog_get (sm_kv sm) x = Ok st -> st = Committed \/ st = Aborted ->
  ~ deletes (clog_key x) (entries_ops es) ->
  sm_apply sm es = Some sm' ->
  clog_get (sm_kv sm') x = Ok st.
Proof.
  intros Hg Hst Hnd E%sm_apply_kv. by eapply clog_terminal_stays.
Qed.

Context `{!Serde SnapshotPayload} `{!SerdeLaw SnapshotPayload}.

(** A snapshot transfers the whole state: installing on any replica the
    snapshot another one built gives exactly the builder's key-value contents
    and applied position, whatever the receiver held before. *)
Theorem snapshot_transfers_state (src dst : StateMachineStore) :
  exists dst',
    install_snapshot dst (st_meta (build_snapshot src).2) (st_data (build_snapshot src).2)
      = Some dst' /\
    sm_kv dst' = sm_kv src /\ applied_state dst' = applied_state src.
Proof.
  destruct (install_built_snapshot src dst) as (dst' & E & Hkv & Hm).
  exists dst'. split_and!; [done|done|]. unfold applied_state. by rewrite Hm.
Qed.

End Entries.

(** ** Concrete parameters *)

#[export] Instance model_raft : Raft := {|
  LogId := Z * Z;
  lid_index l := l.2;
  lid_leb a b := (a.1 <? b.1) || ((a.1 =? b.1) && (a.2 <=? b.2));
  lid_leader_string l := z_to_string l.1;
  Membership := list Z;
  StoredMembership := option (Z * Z) * list Z;
  stored_membership_new l m := (l, m);
  stored_membership_default := (None, []);
  Vote := Z
|}.

(** Any countable type has a byte encoding that decodes. *)
Definition payload_tuple (p : SnapshotPayload (H := model_raft))
  : option (Z * Z) * (option (Z * Z) * list Z) * list (bytes * bytes) :=
  (p_last_applied p, p_last_membership p, p_kv p).

#[export] Instance model_payload_serde : Serde (SnapshotPayload (H := model_raft)) := {|
  to_vec x := [Z.pos (encode (payload_tuple x))];
  from_slice b :=
    match b with
    | [Z.pos p] =>
        t ← decode p;
        let '(a, m, kv) := t : option (Z * Z) * (option (Z * Z) * list Z) * list (bytes * bytes) in
        Some (mkPayload (H := model_raft) a m kv)
    | _ => None
    end
|}.

#[export] Instance model_payload_serde_law : SerdeLaw (SnapshotPayload (H := model_raft)).
Proof.
  intros [a m kv]. cbn [to_vec from_slice model_payload_serde].
  rewrite decode_encode. reflexivity.
Qed.

(** A small range state for the witnesses: transaction 5 committed, next_xid 9. *)
Definition sample_kv : MemKv :=
  kv_put (kv_put kv_new next_xid_key (be_bytes 8 9)) (clog_key 5) (clog_value Committed).
Definition sample_sm : StateMachineStore (H := model_raft) :=
  mkSM sample_kv (mkMeta None (None, [])) 0 None.
(** Entries that try to move the counter back and to flip the decision. *)
Definition sample_entries : list (Entry (H := model_raft)) :=
  [mkEntry (1, 1) (Normal [Put next_xid_key (be_bytes 8 4); clog_put_op 5 Aborted]);
   mkEntry (1, 2) Blank].

Lemma sample_counters_ok : counters_ok sample_kv.
Proof.
  intros k v Hk Hv. unfold sample_kv in Hv. rewrite !kv_get_put in Hv.
  case_decide; [subst; by apply counter_not_clog in Hk|]. case_decide; [by simplify_eq|done].
Qed.

Lemma sample_bytes_ok : kv_bytes_ok sample_kv.
Proof.
  intros k v Hv. unfold sample_kv in Hv. rewrite !kv_get_put in Hv.
  repeat case_decide; simplify_eq; repeat constructor; by vm_compute.
Qed.

Lemma apply_never_panics_witness :
  exists sm', sm_apply sample_sm sample_entries = Some sm' /\ counters_ok (sm_kv sm') /\
    last_applied (sm_meta sm') =
      match last sample_entries with
      | Some e => Some (e_log_id e) | None => last_applied (sm_meta sample_sm) end.
Proof.
  apply (apply_never_panics sample_sm sample_entries sample_counters_ok).
  repeat constructor; by vm_compute.
Defined.

Definition sample_result : StateMachineStore (H := model_raft) :=
  default sample_sm (sm_apply sample_sm sample_entries).

Lemma counters_never_regress_witness :
  counter_val sample_kv next_xid_key <= counter_val (sm_kv sample_result) next_xid_key.
Proof.
  apply (counters_never_regress sample_sm sample_entries sample_result next_xid_key).
  - apply sample_bytes_ok.
  - repeat constructor; by vm_compute.
  - reflexivity.
  - vm_compute. intuition congruence.
  - reflexivity.
Defined.

Lemma decision_write_once_witness : clog_get (sm_kv sample_result) 5 = Ok Committed.
Proof.
  apply (decision_write_once sample_sm sample_entries sample_result 5 Committed).
  - reflexivity.
  - by left.
  - vm_compute. intuition congruence.
  - reflexivity.
Defined.

Lemma snapshot_transfers_state_witness :
  exists dst',
    install_snapshot (mkSM kv_new (mkMeta None (None, [])) 3 None)
      (st_meta (build_snapshot sample_sm).2) (st_data (build_snapshot sample_sm).2)
      = Some dst' /\
    sm_kv dst' = sm_kv sample_sm /\ applied_state dst' = applied_state sample_sm.
Proof. apply (snapshot_transfers_state sample_sm). Defined.
