(* ===== verification/Durable.v ===== *)
(** * The durable state machine (cluster/src/durable.rs)

    The same state machine over an on-disk store: all the operations of one
    [apply] call are staged in one batch, with two pending maps that stand in
    for the values the batch has not made readable yet, and committed together
    with the applied position. The store is fjall's, a third-party engine: any
    type with the [Kv] operations and their laws ([KvLaws]). I/O errors of the
    engine are not modelled.

    The theorems show that it implements the in-memory machine of
    StateMachine.v when no entry deletes a guarded key, and what happens when
    one does. *)
From Stdlib Require Import ZArith Lia.
From stdpp Require Import base list gmap strings sorting.
From S2P Require Import Prelude Keys Store Datum RowEnc Mvcc StateMachine.
Open Scope Z_scope.

(** ** Raft-keyspace keys *)

(** [cluster/src/durable.rs:132-132] SM_APPLIED_KEY *)
Definition SM_APPLIED_KEY : bytes := str_bytes "sm/last_applied".
Definition SM_MEMBERSHIP_KEY : bytes := str_bytes "sm/last_membership".

Section Durable.
Context `{Raft}.
Context {S : Type} {get : S -> bytes -> option bytes}
  {scan : S -> bytes -> list (bytes * bytes)} {batch_commit : S -> list WriteOp -> S}.
Context `{!Serde (option LogId)} `{!Serde StoredMembership} `{!Serde SnapshotPayload}.

(** [cluster/src/durable.rs:432-448] DurableStateMachineStore: the two keyspaces,
    and the cached metadata. *)
Record DurableStateMachineStore : Type := mkDurable {
  d_data : S;
  d_raft : S;
  d_meta : StateMachineMeta;
  d_snapshot_idx : Z;
  d_current_snapshot : option StoredSnapshot
}.

(** What one [apply] call accumulates: the batch and the two pending maps. *)
Record Pending : Type := mkPending {
  pd_batch : list WriteOp;
  pd_counters : gmap bytes Z;
  pd_decided : gmap bytes bool
}.

(** The body of the loop over one entry's operations; [None] is the panic of
    [u64_be]. *)
Definition stage_op (data : S) (p : Pending) (op : WriteOp) : option Pending :=
  match op with
  | Put key value =>
      if is_counter_key key then
        incoming ← u64_be value;
        cur ← match pd_counters p !! key with
              | Some c => Some c
              | None => match get data key with Some b => u64_be b | None => Some 0 end
              end;
        let merged := Z.max cur incoming in
        Some (mkPending (pd_batch p ++ [Put key (be_bytes 8 merged)])
                (<[key := merged]> (pd_counters p)) (pd_decided p))
      else if is_clog_key key then
        let already_terminal :=
          match pd_decided p !! key with
          | Some t => t
          | None => match get data key with Some b => is_terminal b | None => false end
          end in
        Some (if already_terminal
              then mkPending (pd_batch p) (pd_counters p) (<[key := true]> (pd_decided p))
              else mkPending (pd_batch p ++ [Put key value]) (pd_counters p)
                     (<[key := is_terminal value]> (pd_decided p)))
      else Some (mkPending (pd_batch p ++ [Put key value]) (pd_counters p) (pd_decided p))
  | Delete key =>
      Some (mkPending (pd_batch p ++ [Delete key]) (pd_counters p) (pd_decided p))
  end.

Fixpoint stage_ops (data : S) (p : Pending) (ops : list WriteOp) : option Pending :=
  match ops with
  | [] => Some p
  | op :: ops => p ← stage_op data p op; stage_ops data p ops
  end.

(** The loop over the entries: staged operations, last id, membership. *)
Fixpoint stage_entries (data : S) (p : Pending) (meta : StateMachineMeta)
    (es : list Entry) : option (Pending * StateMachineMeta) :=
  match es with
  | [] => Some (p, meta)
  | e :: es =>
      let last_id := Some (e_log_id e) in
      match e_payload e with
      | Blank => stage_entries data p (mkMeta last_id (last_membership meta)) es
      | Normal ops =>
          p ← stage_ops data p ops;
          stage_entries data p (mkMeta last_id (last_membership meta)) es
      | MembershipChange m =>
          stage_entries data p (mkMeta last_id (stored_membership_new last_id m)) es
      end
  end.

(** The two metadata records every batch ends with. *)
Definition meta_ops (meta : StateMachineMeta) : list WriteOp :=
  [Put SM_APPLIED_KEY (to_vec (last_applied meta));
   Put SM_MEMBERSHIP_KEY (to_vec (last_membership meta))].

(** [cluster/src/durable.rs:558-653] DurableStateMachineStore::apply *)
Definition durable_apply (d : DurableStateMachineStore) (es : list Entry)
  : option DurableStateMachineStore :=
  '(p, meta) ← stage_entries (d_data d) (mkPending [] ∅ ∅) (d_meta d) es;
  Some (mkDurable (batch_commit (d_data d) (pd_batch p))
          (batch_commit (d_raft d) (meta_ops meta))
          meta (d_snapshot_idx d) (d_current_snapshot d)).

(** [cluster/src/durable.rs:196-206] read_json: an absent key, or the decoded
    value; [None] outside is the read error of undecodable bytes. *)
Definition read_json {T} `{!Serde T} (ks : S) (key : bytes) : option (option T) :=
  match get ks key with
  | Some b => x ← from_slice b; Some (Some x)
  | None => Some None
  end.

(** [cluster/src/durable.rs:463-485] DurableStateMachineStore::open *)
Definition durable_open (data raft : S) : option DurableStateMachineStore :=
  applied ← read_json (T := option LogId) raft SM_APPLIED_KEY;
  membership ← read_json (T := StoredMembership) raft SM_MEMBERSHIP_KEY;
  Some (mkDurable data raft
          (mkMeta (default None applied) (default stored_membership_default membership))
          0 None).

(** [cluster/src/durable.rs:496-543] DurableStateMachineStore::build_snapshot *)
Definition durable_build_snapshot (d : DurableStateMachineStore)
  : DurableStateMachineStore * StoredSnapshot :=
  let meta := d_meta d in
  let payload := mkPayload (last_applied meta) (last_membership meta) (scan (d_data d) []) in
  let data := to_vec payload in
  let idx := (d_snapshot_idx d + 1) mod 2 ^ 64 in
  let snap_meta := mkSnapshotMeta (last_applied meta) (last_membership meta)
                     (snapshot_id_of (last_applied meta) idx) in
  let stored := mkStored snap_meta data in
  (mkDurable (d_data d) (d_raft d) meta idx (Some stored), stored).

(** [cluster/src/durable.rs:667-716] DurableStateMachineStore::install_snapshot *)
Definition durable_install_snapshot (d : DurableStateMachineStore) (meta : SnapshotMeta)
    (data : bytes) : option DurableStateMachineStore :=
  payload ← from_slice (T := SnapshotPayload) data;
  let existing := scan (d_data d) [] in
  let ops := map (fun e => Delete (fst e)) existing ++
             map (fun e => Put (fst e) (snd e)) (p_kv payload) in
  let sm_meta := mkMeta (m_last_log_id meta) (m_last_membership meta) in
  Some (mkDurable (batch_commit (d_data d) ops) (batch_commit (d_raft d) (meta_ops sm_meta))
          sm_meta (d_snapshot_idx d) (Some (mkStored meta data))).

End Durable.

Arguments DurableStateMachineStore {H} S.
Arguments durable_apply {H} {S} get batch_commit {_ _} d es.
Arguments durable_open {H} {S} get {_ _} data raft.
Arguments durable_build_snapshot {H} {S} scan {_} d.
Arguments durable_install_snapshot {H} {S} scan batch_commit {_ _ _} d meta data.
Arguments stage_op {S} get data p op.
Arguments stage_ops {S} get data p ops.
Arguments stage_entries {H} {S} get data p meta es.

(** ** The staged batch simulates the in-memory machine *)

Lemma last_write_snoc ops op k :
  last_write (ops ++ [op]) k =
    if decide (op_key op = k)
    then Some (match op with Put _ v => Some v | Delete _ => None end)
    else last_write ops k.
Proof.
  induction ops as [|o ops IH]; simpl.
  - destruct op; simpl; by case_decide.
  - rewrite IH. case_decide; [done|]. by destruct (last_write ops k).
Qed.

(** Keys the two guards protect. *)
Definition guarded (k : bytes) : bool := is_counter_key k || is_clog_key k.
Definition no_guarded_delete (ops : list WriteOp) : Prop :=
  forall k, guarded k = true -> ~ In (Delete k) ops.

Section Simulation.
Context `{Raft}.
Context {S : Type} {get : S -> bytes -> option bytes}
  {scan : S -> bytes -> list (bytes * bytes)} {batch_commit : S -> list WriteOp -> S}.
Context `{!KvLaws S get scan batch_commit}.

(** What a batch in preparation stands for: the store the in-memory machine has
    reached. A pending map knows the current value of each guarded key the batch
    has written; on the others the disk is still current. *)
Record staged (data : S) (p : Pending) (kv : MemKv) : Prop := {
  staged_batch k :
    kv_get kv k = match last_write (pd_batch p) k with Some w => w | None => get data k end;
  staged_counters k c :
    pd_counters p !! k = Some c -> u64_ok c /\ kv_get kv k = Some (be_bytes 8 c);
  staged_counters_none k :
    is_counter_key k = true -> pd_counters p !! k = None -> kv_get kv k = get data k;
  staged_decided k t :
    pd_decided p !! k = Some t -> exists b, kv_get kv k = Some b /\ is_terminal b = t;
  staged_decided_none k :
    is_clog_key k = true -> pd_decided p !! k = None -> kv_get kv k = get data k;
  staged_keys k :
    (is_Some (pd_counters p !! k) -> is_counter_key k = true) /\
    (is_Some (pd_decided p !! k) -> is_clog_key k = true)
}.

Lemma staged_init data kv :
  (forall k, kv_get kv k = get data k) -> staged data (mkPending [] ∅ ∅) kv.
Proof.
  intros E. split; simpl; intros; rewrite ?lookup_empty in *; try done; try apply E.
Qed.

(** What the guards read from the pending maps and the disk is what they would
    read from the store. *)
Lemma staged_read_counter data p kv k :
  staged data p kv -> is_counter_key k = true ->
  match pd_counters p !! k with
  | Some c => Some c
  | None => match get data k with Some b => u64_be b | None => Some 0 end
  end = match kv_get kv k with Some b => u64_be b | None => Some 0 end.
Proof.
  intros Hs Hk. destruct (pd_counters p !! k) as [c|] eqn:E.
  - apply (staged_counters _ _ _ Hs) in E as [Hc ->]. by rewrite u64_be_be_bytes.
  - by rewrite (staged_counters_none _ _ _ Hs k Hk E).
Qed.

Lemma staged_read_decided data p kv k :
  staged data p kv -> is_clog_key k = true ->
  match pd_decided p !! k with
  | Some t => t
  | None => match get data k with Some b => is_terminal b | None => false end
  end = match kv_get kv k with Some b => is_terminal b | None => false end.
Proof.
  intros Hs Hk. destruct (pd_decided p !! k) as [t|] eqn:E.
  - by apply (staged_decided _ _ _ Hs) in E as (b & -> & ->).
  - by rewrite (staged_decided_none _ _ _ Hs k Hk E).
Qed.

(** Staging a write of a plain key. *)
Lemma staged_plain data p kv op :
  staged data p kv -> guarded (op_key op) = false ->
  staged data (mkPending (pd_batch p ++ [op]) (pd_counters p) (pd_decided p))
    (write_op kv op).
Proof.
  intros Hs Hg. apply orb_false_iff in Hg as [Hc Hl].
  assert (forall k, kv_get (write_op kv op) k =
    if decide (op_key op = k)
    then match op with Put _ v => Some v | Delete _ => None end else kv_get kv k) as Hw.
  { intros k. destruct op; simpl; [rewrite kv_get_put|rewrite kv_get_delete]; done. }
  assert (forall k, is_counter_key k = true \/ is_clog_key k = true ->
    kv_get (write_op kv op) k = kv_get kv k) as Hsame.
  { intros k Hk. rewrite Hw. rewrite decide_False; [done|]. intros <-. intuition congruence. }
  destruct Hs as [H1 H2 H3 H4 H5 H6]. split; simpl.
  - intros k. rewrite Hw, last_write_snoc. case_decide; [done|apply H1].
  - intros k c E. rewrite Hsame; [by apply H2|]. left. apply H6. eauto.
  - intros k Hk E. rewrite Hsame by auto. by apply H3.
  - intros k t E. rewrite Hsame; [by apply H4|]. right. apply H6. eauto.
  - intros k Hk E. rewrite Hsame by auto. by apply H5.
  - apply H6.
Qed.

Lemma staged_counter data p kv k v :
  staged data p kv -> is_counter_key k = true -> u64_ok v ->
  staged data (mkPending (pd_batch p ++ [Put k (be_bytes 8 v)]) (<[k := v]> (pd_counters p))
    (pd_decided p)) (kv_put kv k (be_bytes 8 v)).
Proof.
  intros [H1 H2 H3 H4 H5 H6] Hk Hv. apply counter_not_clog in Hk as Hnc. split; simpl.
  - intros k'. rewrite kv_get_put, last_write_snoc. simpl. case_decide; [done|apply H1].
  - intros k' c. rewrite kv_get_put. case_decide as E.
    + subst. rewrite lookup_insert_eq. by intros [= <-].
    + rewrite lookup_insert_ne by done. apply H2.
  - intros k' Hk'. rewrite kv_get_put. case_decide as E.
    + subst. by rewrite lookup_insert_eq.
    + rewrite lookup_insert_ne by done. by apply H3.
  - intros k' t E. rewrite kv_get_put. rewrite decide_False; [by apply H4|]. intros ->.
    assert (is_clog_key k' = true) by (apply H6; eauto). congruence.
  - intros k' Hk' E. rewrite kv_get_put. rewrite decide_False; [by apply H5|].
    intros ->. congruence.
  - intros k'. split; [|apply H6]. destruct (decide (k = k')) as [->|]; [done|].
    rewrite lookup_insert_ne by done. apply H6.
Qed.

Lemma staged_clog_put data p kv k v :
  staged data p kv -> is_clog_key k = true ->
  staged data (mkPending (pd_batch p ++ [Put k v]) (pd_counters p)
    (<[k := is_terminal v]> (pd_decided p))) (kv_put kv k v).
Proof.
  intros [H1 H2 H3 H4 H5 H6] Hk. split; simpl.
  - intros k'. rewrite kv_get_put, last_write_snoc. simpl. case_decide; [done|apply H1].
  - intros k' c E. rewrite kv_get_put. rewrite decide_False; [by apply H2|]. intros ->.
    assert (is_counter_key k' = true) as Hc by (apply H6; eauto).
    apply counter_not_clog in Hc. congruence.
  - intros k' Hk' E. rewrite kv_get_put. rewrite decide_False; [by apply H3|].
    intros ->. apply counter_not_clog in Hk'. congruence.
  - intros k' t. rewrite kv_get_put. case_decide as E.
    + subst. rewrite lookup_insert_eq. intros [= <-]. eauto.
    + rewrite lookup_insert_ne by done. apply H4.
  - intros k' Hk'. rewrite kv_get_put. case_decide as E.
    + subst. by rewrite lookup_insert_eq.
    + rewrite lookup_insert_ne by done. by apply H5.
  - intros k'. split; [apply H6|]. destruct (decide (k = k')) as [->|]; [done|].
    rewrite lookup_insert_ne by done. apply H6.
Qed.

Lemma staged_clog_keep data p kv k b :
  staged data p kv -> is_clog_key k = true -> kv_get kv k = Some b ->
  is_terminal b = true ->
  staged data (mkPending (pd_batch p) (pd_counters p) (<[k := true]> (pd_decided p))) kv.
Proof.
  intros [H1 H2 H3 H4 H5 H6] Hk Hb Ht. split; simpl; try done.
  - intros k' t. destruct (decide (k = k')) as [<-|].
    + rewrite lookup_insert_eq. intros [= <-]. eauto.
    + rewrite lookup_insert_ne by done. apply H4.
  - intros k' Hk'. destruct (decide (k = k')) as [<-|].
    + by rewrite lookup_insert_eq.
    + rewrite lookup_insert_ne by done. by apply H5.
  - intros k'. split; [apply H6|]. destruct (decide (k = k')) as [->|]; [done|].
    rewrite lookup_insert_ne by done. apply H6.
Qed.

(** One operation staged is one operation applied. *)
Lemma stage_op_sim data p kv op :
  staged data p kv -> kv_bytes_ok kv -> op_bytes_ok op ->
  (forall k, guarded k = true -> op <> Delete k) ->
  match apply_op kv op with
  | Some kv' => exists p', stage_op get data p op = Some p' /\ staged data p' kv'
  | None => stage_op get data p op = None
  end.
Proof.
  intros Hs Hkv Hop Hnd. destruct op as [k v|k]; cbn [apply_op stage_op].
  - destruct (is_counter_key k) eqn:Ec.
    + destruct (u64_be v) as [i|] eqn:Ei; cbn [mbind option_bind]; [|done].
      rewrite (staged_read_counter _ _ _ _ Hs Ec).
      destruct (match kv_get kv k with Some b => u64_be b | None => Some 0 end)
        as [e|] eqn:Ee; cbn [mbind option_bind]; [|done].
      eexists. split; [done|]. apply staged_counter; [done|done|].
      apply u64_be_range in Ei; [|done].
      assert (u64_ok e).
      { destruct (kv_get kv k) as [b|] eqn:Eb; [|simplify_eq; width_lia].
        eapply u64_be_range; [by eapply Hkv|done]. }
      width_lia.
    + destruct (is_clog_key k) eqn:El.
      * rewrite (staged_read_decided _ _ _ _ Hs El).
        destruct (kv_get kv k) as [b|] eqn:Eb; [destruct (is_terminal b) eqn:Et|];
          (eexists; split; [done|]); eauto using staged_clog_keep, staged_clog_put.
      * eexists. split; [done|]. apply (staged_plain _ _ _ (Put k v) Hs).
        unfold guarded. simpl. by rewrite Ec, El.
  - eexists. split; [done|]. apply (staged_plain _ _ _ (Delete k) Hs).
    simpl. apply not_true_iff_false. intros Hg. by apply (Hnd k Hg).
Qed.

Lemma stage_ops_sim data p kv ops kv' :
  staged data p kv -> kv_bytes_ok kv -> Forall op_bytes_ok ops -> no_guarded_delete ops ->
  apply_ops kv ops = Some kv' ->
  exists p', stage_ops get data p ops = Some p' /\ staged data p' kv' /\ kv_bytes_ok kv'.
Proof.
  intros Hs Hkv Hops; revert p kv Hs Hkv; induction Hops as [|op ops Hop _ IH];
    intros p kv Hs Hkv Hnd E; simpl in E |- *; [simplify_eq; eauto|].
  destruct (apply_op kv op) as [kv1|] eqn:E1; [|done]. simpl in E.
  pose proof (stage_op_sim data p kv op Hs Hkv Hop) as Hsim. rewrite E1 in Hsim.
  destruct Hsim as (p1 & -> & Hs1); [intros k Hk ->; by apply (Hnd k Hk); left|].
  simpl. apply (IH p1 kv1); [done|by eapply apply_op_bytes_ok| |done].
  intros k Hk Hin. apply (Hnd k Hk). by right.
Qed.

(** The durable machine and the in-memory one hold the same state. *)
Definition same_state (d : DurableStateMachineStore S) (sm : StateMachineStore) : Prop :=
  (forall k, get (d_data d) k = kv_get (sm_kv sm) k) /\ d_meta d = sm_meta sm.

Lemma stage_entries_sim data p sm es sm' :
  staged data p (sm_kv sm) -> kv_bytes_ok (sm_kv sm) ->
  Forall op_bytes_ok (entries_ops es) -> no_guarded_delete (entries_ops es) ->
  sm_apply sm es = Some sm' ->
  exists p', stage_entries get data p (sm_meta sm) es = Some (p', sm_meta sm') /\
    staged data p' (sm_kv sm').
Proof.
  revert p sm; induction es as [|e es IH]; intros p sm Hs Hkv Hops Hnd E; simpl in E.
  { simplify_eq. eauto. }
  unfold entries_ops in Hops, Hnd. simpl in Hops, Hnd. apply Forall_app in Hops as [Ho1 Ho2].
  assert (no_guarded_delete (payload_ops (e_payload e)) /\
          no_guarded_delete (entries_ops es)) as [Hn1 Hn2].
  { split; intros k Hk Hin; apply (Hnd k Hk), in_app_iff; auto. }
  unfold apply_entry in E. simpl. destruct (e_payload e) as [|ops|m]; simpl in *.
  - eapply (IH p (mkSM _ _ _ _)); eauto.
  - destruct (apply_ops (sm_kv sm) ops) as [kv1|] eqn:E1; [|done]. simpl in E.
    destruct (stage_ops_sim data p (sm_kv sm) ops kv1) as (p1 & -> & Hs1 & Hk1); auto.
    simpl. eapply (IH p1 (mkSM kv1 _ _ _)); eauto.
  - eapply (IH p (mkSM _ _ _ _)); eauto.
Qed.

Context `{!Serde (option LogId)} `{!Serde StoredMembership} `{!Serde SnapshotPayload}.
Context `{!SerdeLaw (option LogId)} `{!SerdeLaw StoredMembership} `{!SerdeLaw SnapshotPayload}.

Lemma durable_apply_sim d sm es sm' :
  same_state d sm -> kv_bytes_ok (sm_kv sm) ->
  Forall op_bytes_ok (entries_ops es) -> no_guarded_delete (entries_ops es) ->
  sm_apply sm es = Some sm' ->
  exists d', durable_apply get batch_commit d es = Some d' /\ same_state d' sm'.
Proof.
  intros [Hdata Hmeta] Hkv Hops Hnd E.
  destruct (stage_entries_sim (d_data d) (mkPending [] ∅ ∅) sm es sm') as (p & Ep & Hs); auto.
  { by apply staged_init. }
  unfold durable_apply. rewrite Hmeta, Ep. simpl. eexists. split; [done|]. split; [|done].
  intros k. simpl. by rewrite law_batch, (staged_batch _ _ _ Hs).
Qed.

Lemma keys_distinct : SM_APPLIED_KEY <> SM_MEMBERSHIP_KEY.
Proof. by vm_compute. Qed.

(** The metadata committed with a batch is what [open] reads back. *)
Lemma meta_ops_read raft meta :
  read_json (get := get) (T := option LogId) (batch_commit raft (meta_ops meta)) SM_APPLIED_KEY
    = Some (Some (last_applied meta)) /\
  read_json (get := get) (T := StoredMembership) (batch_commit raft (meta_ops meta))
    SM_MEMBERSHIP_KEY = Some (Some (last_membership meta)).
Proof.
  pose proof keys_distinct as Hne. unfold read_json. rewrite !law_batch. unfold meta_ops.
  cbn [last_write]. rewrite (decide_True _ _ (eq_refl SM_MEMBERSHIP_KEY)).
  rewrite (decide_False (P := SM_MEMBERSHIP_KEY = SM_APPLIED_KEY)) by congruence.
  rewrite (decide_True _ _ (eq_refl SM_APPLIED_KEY)).
  by rewrite !serde_roundtrip.
Qed.

Lemma last_write_puts (l : list (bytes * bytes)) k :
  NoDup l.*1 ->
  last_write (map (fun e => Put (fst e) (snd e)) l) k =
    Some <$> ((list_to_map l : gmap bytes bytes) !! k).
Proof.
  induction l as [|[k' v] l IH]; simpl; intros Hnd; [done|].
  apply NoDup_cons in Hnd as [Hni Hnd]. rewrite IH by done. case_decide as E.
  - subst. by rewrite not_elem_of_list_to_map_1, lookup_insert_eq.
  - rewrite lookup_insert_ne by done. by destruct (list_to_map l !! k).
Qed.

Lemma scan_all_get (s : S) k :
  (list_to_map (scan s []) : gmap bytes bytes) !! k = get s k.
Proof.
  destruct (get s k) as [v|] eqn:E.
  - apply elem_of_list_to_map_1.
    + apply strict_NoDup_fst, law_scan_order.
    + apply list_elem_of_In. by apply law_scan_complete.
  - apply not_elem_of_list_to_map_1. intros ([k' v] & -> & Hin)%list_elem_of_fmap_1.
    apply list_elem_of_In, law_scan_complete in Hin as [E' _]. simpl in E. congruence.
Qed.

(** C23: The durable state machine implements the in-memory one: from the same
    contents, applying the same committed entries in one durable batch (with
    its two pending maps in place of reads of the unwritten batch) reaches the
    same contents, applied position and membership, when no entry deletes a
    counter or a commit-log record. *)
Theorem durable_refines_memory d sm es sm' :
  same_state d sm -> kv_bytes_ok (sm_kv sm) ->
  Forall op_bytes_ok (entries_ops es) -> no_guarded_delete (entries_ops es) ->
  sm_apply sm es = Some sm' ->
  exists d', durable_apply get batch_commit d es = Some d' /\ same_state d' sm'.
Proof. apply durable_apply_sim. Qed.

(** C25: A restart loses nothing: reopening the keyspaces after an [apply] gives
    the applied position and membership it had reached, with its data, so the
    log is replayed from exactly where it stopped. *)
Theorem durable_restart_recovers d es d' :
  durable_apply get batch_commit d es = Some d' ->
  exists r, durable_open get (d_data d') (d_raft d') = Some r /\
    d_data r = d_data d' /\ d_meta r = d_meta d'.
Proof.
  unfold durable_apply. destruct (stage_entries _ _ _ _ _) as [[p meta]|]; [|done].
  cbn [mbind option_bind]. intros [= <-]. unfold durable_open. cbn [d_data d_raft].
  destruct (meta_ops_read (d_raft d) meta) as [-> ->].
  eexists. split; [reflexivity|]. split; [done|]. by destruct meta.
Qed.

(** How a replica happens to group entries into [apply] calls is invisible,
    when no entry deletes a guarded key: two calls and one call over the same
    entries give the same contents and metadata. *)
Theorem durable_batching_invisible d sm es1 es2 sm' :
  same_state d sm -> kv_bytes_ok (sm_kv sm) ->
  Forall op_bytes_ok (entries_ops (es1 ++ es2)) ->
  no_guarded_delete (entries_ops (es1 ++ es2)) ->
  sm_apply sm (es1 ++ es2) = Some sm' ->
  exists d1 d2 d12,
    durable_apply get batch_commit d es1 = Some d1 /\
    durable_apply get batch_commit d1 es2 = Some d2 /\
    durable_apply get batch_commit d (es1 ++ es2) = Some d12 /\
    (forall k, get (d_data d2) k = get (d_data d12) k) /\ d_meta d2 = d_meta d12.
Proof.
  intros Hs Hkv Hops Hnd E.
  destruct (durable_apply_sim d sm (es1 ++ es2) sm') as (d12 & E12 & [Hd12 Hm12]); auto.
  unfold entries_ops in Hops, Hnd. rewrite map_app, concat_app in Hops, Hnd.
  apply Forall_app in Hops as [Ho1 Ho2]. rewrite sm_apply_app in E.
  destruct (sm_apply sm es1) as [sm1|] eqn:E1; [|done]. simpl in E.
  assert (no_guarded_delete (entries_ops es1) /\ no_guarded_delete (entries_ops es2))
    as [Hn1 Hn2] by (split; intros k Hk Hin; apply (Hnd k Hk), in_app_iff; auto).
  destruct (durable_apply_sim d sm es1 sm1) as (d1 & Ed1 & Hs1); auto.
  destruct (durable_apply_sim d1 sm1 es2 sm') as (d2 & Ed2 & [Hd2 Hm2]); auto.
  { eapply apply_ops_bytes_ok; [exact Hkv|exact Ho1|by apply sm_apply_kv]. }
  exists d1, d2, d12. split_and!; auto; congruence.
Qed.

(** With a delete it is visible: dropping a table deletes its sequence key,
    and a sequence update that follows is merged against the deleted value if
    both entries fall in one [apply] call and against nothing if they fall in
    two, so two replicas that group the same log differently end with different
    stores. *)
Theorem durable_delete_diverges d t l1 l2 hi lo :
  get (d_data d) (seq_key t) = Some (be_bytes 8 hi) -> 0 <= lo < hi -> u64_ok hi ->
  let es1 := [mkEntry l1 (Normal [Delete (seq_key t)])] in
  let es2 := [mkEntry l2 (Normal [Put (seq_key t) (be_bytes 8 lo)])] in
  exists d1 d2 d12,
    durable_apply get batch_commit d es1 = Some d1 /\
    durable_apply get batch_commit d1 es2 = Some d2 /\
    durable_apply get batch_commit d (es1 ++ es2) = Some d12 /\
    get (d_data d2) (seq_key t) = Some (be_bytes 8 lo) /\
    get (d_data d12) (seq_key t) = Some (be_bytes 8 hi).
Proof.
  intros Hhi Hlo Hok. cbv zeta.
  assert (is_counter_key (seq_key t) = true) as Hc
    by (unfold is_counter_key; by rewrite is_seq_key_seq, orb_true_r).
  assert (forall s, get (batch_commit s [Delete (seq_key t)]) (seq_key t) = None) as Hdel.
  { intros s. rewrite law_batch. cbn [last_write]. by rewrite decide_True. }
  assert (u64_be (be_bytes 8 lo) = Some lo) as Elo
    by (apply u64_be_be_bytes; unfold u64_ok in Hok; lia).
  assert (u64_be (be_bytes 8 hi) = Some hi) as Ehi by (by apply u64_be_be_bytes).
  eexists _, _, _. split_and!.
  - unfold durable_apply. cbn -[be_bytes seq_key]. reflexivity.
  - unfold durable_apply.
    cbn [stage_entries e_payload e_log_id stage_ops stage_op d_data pd_counters].
    rewrite Hc, Elo. cbn [mbind option_bind]. rewrite lookup_empty, Hdel.
    cbn [mbind option_bind]. reflexivity.
  - unfold durable_apply.
    cbn [app stage_entries e_payload e_log_id stage_ops stage_op d_data pd_counters mbind
      option_bind].
    rewrite Hc, Elo. cbn [mbind option_bind pd_counters]. rewrite lookup_empty, Hhi, Ehi.
    cbn [mbind option_bind]. reflexivity.
  - cbn [d_data pd_batch app]. rewrite law_batch. cbn [last_write].
    rewrite decide_True by done. by rewrite Z.max_r by lia.
  - cbn [d_data pd_batch app]. rewrite law_batch. cbn [last_write].
    rewrite decide_True by done. by rewrite Z.max_l by lia.
Qed.

(** Installing, on any durable replica, the snapshot another one built
    replaces its whole contents by the builder's in one batch, together with the
    applied position. *)
Theorem durable_snapshot_transfers (src dst : DurableStateMachineStore S) :
  let snap := (durable_build_snapshot scan src).2 in
  exists dst',
    durable_install_snapshot scan batch_commit dst (st_meta snap) (st_data snap) = Some dst' /\
    (forall k, get (d_data dst') k = get (d_data src) k) /\ d_meta dst' = d_meta src.
Proof.
  cbv zeta. unfold durable_install_snapshot, durable_build_snapshot.
  cbn [snd st_meta st_data]. rewrite serde_roundtrip. cbn [mbind option_bind].
  eexists. split; [reflexivity|]. cbn [d_data d_meta p_kv m_last_log_id m_last_membership].
  split; [|by destruct (d_meta src)].
  intros k. rewrite law_batch, last_write_app, last_write_puts, scan_all_get.
  - destruct (get (d_data src) k) as [v|]; simpl; [done|].
    rewrite last_write_deletes. case_decide as Hk; [done|].
    rewrite <- scan_all_get. by apply not_elem_of_list_to_map_1.
  - apply strict_NoDup_fst, law_scan_order.
Qed.

End Simulation.

(** ** Witnesses, over the in-memory store as the engine *)

Definition countable_serde (T : Type) `{Countable T} : Serde T := {|
  to_vec x := [Z.pos (encode x)];
  from_slice b := match b with [Z.pos p] => decode p | _ => None end
|}.

Lemma countable_serde_law (T : Type) `{Countable T} : @SerdeLaw T (countable_serde T).
Proof. intros x. apply decode_encode. Qed.

#[export] Instance model_logid_serde : Serde (option (LogId (Raft := model_raft))) :=
  countable_serde (option (Z * Z)).
#[export] Instance model_logid_serde_law : SerdeLaw (option (LogId (Raft := model_raft))) :=
  countable_serde_law (option (Z * Z)).
#[export] Instance model_membership_serde : Serde (StoredMembership (Raft := model_raft)) :=
  countable_serde (option (Z * Z) * list Z).
#[export] Instance model_membership_serde_law :
  SerdeLaw (StoredMembership (Raft := model_raft)) :=
  countable_serde_law (option (Z * Z) * list Z).

Definition sample_durable : DurableStateMachineStore (H := model_raft) MemKv :=
  mkDurable sample_kv kv_new (sm_meta sample_sm) 0 None.

Lemma sample_same : same_state (get := kv_get) sample_durable sample_sm.
Proof. split; reflexivity. Qed.

Lemma sample_no_guarded_delete : no_guarded_delete (entries_ops sample_entries).
Proof. intros k _. vm_compute. intuition congruence. Qed.

Lemma durable_refines_memory_witness :
  exists d', durable_apply kv_get write_batch sample_durable sample_entries = Some d' /\
    same_state (get := kv_get) d' sample_result.
Proof.
  apply (durable_refines_memory sample_durable sample_sm sample_entries sample_result).
  - apply sample_same.
  - apply sample_bytes_ok.
  - repeat constructor; by vm_compute.
  - apply sample_no_guarded_delete.
  - reflexivity.
Defined.

Lemma durable_restart_recovers_witness :
  let d' := default sample_durable
              (durable_apply kv_get write_batch sample_durable sample_entries) in
  exists r, durable_open kv_get (d_data d') (d_raft d') = Some r /\
    d_data r = d_data d' /\ d_meta r = d_meta d'.
Proof.
  apply (durable_restart_recovers (scan := scan_prefix) sample_durable sample_entries).
  reflexivity.
Defined.

Lemma durable_batching_invisible_witness :
  exists d1 d2 d12,
    durable_apply kv_get write_batch sample_durable (take 1 sample_entries) = Some d1 /\
    durable_apply kv_get write_batch d1 (drop 1 sample_entries) = Some d2 /\
    durable_apply kv_get write_batch sample_durable
      (take 1 sample_entries ++ drop 1 sample_entries) = Some d12 /\
    (forall k, kv_get (d_data d2) k = kv_get (d_data d12) k) /\ d_meta d2 = d_meta d12.
Proof.
  apply (durable_batching_invisible sample_durable sample_sm (take 1 sample_entries)
    (drop 1 sample_entries) sample_result).
  - apply sample_same.
  - apply sample_bytes_ok.
  - repeat constructor; by vm_compute.
  - apply sample_no_guarded_delete.
  - reflexivity.
Defined.

Definition sample_seq_durable : DurableStateMachineStore (H := model_raft) MemKv :=
  mkDurable (kv_put kv_new (seq_key 7) (be_bytes 8 100)) kv_new (mkMeta None (None, [])) 0 None.

Lemma durable_delete_diverges_witness :
  let es1 := [mkEntry (H := model_raft) (1, 1) (Normal [Delete (seq_key 7)])] in
  let es2 := [mkEntry (H := model_raft) (1, 2) (Normal [Put (seq_key 7) (be_bytes 8 5)])] in
  exists d1 d2 d12,
    durable_apply kv_get write_batch sample_seq_durable es1 = Some d1 /\
    durable_apply kv_get write_batch d1 es2 = Some d2 /\
    durable_apply kv_get write_batch sample_seq_durable (es1 ++ es2) = Some d12 /\
    kv_get (d_data d2) (seq_key 7) = Some (be_bytes 8 5) /\
    kv_get (d_data d12) (seq_key 7) = Some (be_bytes 8 100).
Proof.
  apply (durable_delete_diverges (scan := scan_prefix) sample_seq_durable 7
    ((1, 1) : LogId (Raft := model_raft)) (1, 2) 100 5).
  - reflexivity.
  - lia.
  - width_lia.
Defined.

Lemma durable_snapshot_transfers_witness :
  let snap := (durable_build_snapshot scan_prefix sample_durable).2 in
  exists dst',
    durable_install_snapshot scan_prefix write_batch sample_seq_durable
      (st_meta snap) (st_data snap) = Some dst' /\
    (forall k, kv_get (d_data dst') k = kv_get (d_data sample_durable) k) /\
    d_meta dst' = d_meta sample_durable.
Proof. apply (durable_snapshot_transfers sample_durable sample_seq_durable). Defined.
