(* ===== verification/RaftLog.v ===== *)
(** * The Raft log stores (cluster/src/store.rs and cluster/src/durable.rs)

    openraft keeps a node's log, its vote and its commit position behind one
    storage interface. [LogStoreInner] is the in-memory implementation, a
    [BTreeMap] from index to entry; [DurableLogStore] is the on-disk one, over
    the keyspace that also holds the state machine's metadata, with the last
    and last purged log ids cached.

    The theorem shows that the two cannot be told apart through the interface
    by calls that respect openraft's storage contract, with restarts of the
    durable store anywhere in between. I/O errors of the storage engine are not
    modelled; an undecodable stored value is. *)
From Stdlib Require Import ZArith Lia.
From stdpp Require Import base list gmap strings sorting.
From S2P Require Import Prelude Keys Store Datum RowEnc Mvcc StateMachine Durable.
Open Scope Z_scope.

(** ** Ordered maps with integer keys ([std::collections::BTreeMap]) *)

Section BTree.
Context {A : Type}.

Definition btree_entries (m : gmap Z A) : list (Z * A) := sort_by_key fst (map_to_list m).

(** [std::ops::Bound], [RangeBounds::contains], and when [BTreeMap::range]
    panics. *)
Inductive Bound : Type := Included (x : Z) | Excluded (x : Z) | Unbounded.

Definition range_contains (lo hi : Bound) (x : Z) : bool :=
  match lo with Included a => a <=? x | Excluded a => a <? x | Unbounded => true end &&
  match hi with Included b => x <=? b | Excluded b => x <? b | Unbounded => true end.

Definition range_panics (lo hi : Bound) : bool :=
  match lo, hi with
  | Excluded a, Excluded b => b <=? a
  | Included a, Included b | Included a, Excluded b | Excluded a, Included b => b <? a
  | _, _ => false
  end.

Definition btree_range (m : gmap Z A) (lo hi : Bound) : option (list (Z * A)) :=
  if range_panics lo hi then None
  else Some (List.filter (fun e => range_contains lo hi (fst e)) (btree_entries m)).

(** Removing a list of keys one by one. *)
Definition btree_remove_all (m : gmap Z A) (keys : list Z) : gmap Z A :=
  foldl (fun m k => delete k m) m keys.

End BTree.

(** What a call ends in besides success. *)
Inductive LogFault : Type := ReadLogs | Panicked.

Section LogStores.
Context `{Raft}.

(** openraft's [LogState]. *)
Record LogState : Type := mkLogState {
  st_last_purged : option LogId;
  st_last : option LogId
}.

(** [Option]'s derived order: [None] below every [Some]. *)
Definition opt_lid_leb (a : option LogId) (b : LogId) : bool :=
  match a with None => true | Some a => lid_leb a b end.

(** [Option::or] *)
Definition opt_or {A} (a b : option A) : option A :=
  match a with Some x => Some x | None => b end.

(** ** The in-memory log store *)

(** [cluster/src/store.rs:319-324] LogStoreInner *)
Record LogStoreInner : Type := mkLogStore {
  last_purged_log_id : option LogId;
  log : gmap Z Entry;
  committed : option LogId;
  vote : option Vote
}.

Definition log_store_default : LogStoreInner := mkLogStore None ∅ None None.

(** [cluster/src/store.rs:327-333] LogStore::try_get_log_entries *)
Definition mem_try_get_log_entries (ls : LogStoreInner) (lo hi : Bound)
  : result LogFault (list Entry) :=
  match btree_range (log ls) lo hi with
  | None => Err Panicked
  | Some l => Ok (map snd l)
  end.

(** [cluster/src/store.rs:339-348] LogStore::get_log_state *)
Definition mem_get_log_state (ls : LogStoreInner) : LogState :=
  let last := (fun p => e_log_id (snd p)) <$> last (btree_entries (log ls)) in
  let last_purged := last_purged_log_id ls in
  mkLogState last_purged (opt_or last last_purged).

(** [cluster/src/store.rs:350-357] LogStore::save_committed *)
Definition mem_save_committed (ls : LogStoreInner) (c : option LogId) : LogStoreInner :=
  mkLogStore (last_purged_log_id ls) (log ls) c (vote ls).

(** [cluster/src/store.rs:359-362] LogStore::read_committed *)
Definition mem_read_committed (ls : LogStoreInner) : option LogId := committed ls.

(** [cluster/src/store.rs:365-369] LogStore::save_vote *)
Definition mem_save_vote (ls : LogStoreInner) (v : Vote) : LogStoreInner :=
  mkLogStore (last_purged_log_id ls) (log ls) (committed ls) (Some v).

(** [cluster/src/store.rs:371-374] LogStore::read_vote *)
Definition mem_read_vote (ls : LogStoreInner) : option Vote := vote ls.

(** [cluster/src/store.rs:377-394] LogStore::append *)
Definition mem_append (ls : LogStoreInner) (entries : list Entry) : LogStoreInner :=
  mkLogStore (last_purged_log_id ls)
    (foldl (fun m e => <[lid_index (e_log_id e) := e]> m) (log ls) entries)
    (committed ls) (vote ls).

(** [cluster/src/store.rs:397-408] LogStore::truncate *)
Definition mem_truncate (ls : LogStoreInner) (log_id : LogId)
  : LogStoreInner * result LogFault unit :=
  match btree_range (log ls) (Included (lid_index log_id)) Unbounded with
  | None => (ls, Err Panicked)
  | Some l =>
      (mkLogStore (last_purged_log_id ls) (btree_remove_all (log ls) (map fst l))
         (committed ls) (vote ls), Ok ())
  end.

(** [cluster/src/store.rs:411-424] LogStore::purge *)
Definition mem_purge (ls : LogStoreInner) (log_id : LogId)
  : LogStoreInner * result LogFault unit :=
  if opt_lid_leb (last_purged_log_id ls) log_id then
    match btree_range (log ls) Unbounded (Included (lid_index log_id)) with
    | None => (mkLogStore (Some log_id) (log ls) (committed ls) (vote ls), Err Panicked)
    | Some l =>
        (mkLogStore (Some log_id) (btree_remove_all (log ls) (map fst l))
           (committed ls) (vote ls), Ok ())
    end
  else (ls, Err Panicked).

(** ** The durable log store *)

Context {S : Type} {get : S -> bytes -> option bytes}
  {scan : S -> bytes -> list (bytes * bytes)} {batch_commit : S -> list WriteOp -> S}.
Context `{!Serde LogId} `{!Serde (option LogId)} `{!Serde Entry} `{!Serde Vote}.

(** [cluster/src/durable.rs:128-128] LOG_PREFIX and the other raft keys *)
Definition LOG_PREFIX : bytes := str_bytes "log/".
Definition VOTE_KEY : bytes := str_bytes "vote".
Definition COMMITTED_KEY : bytes := str_bytes "committed".
Definition PURGED_KEY : bytes := str_bytes "last_purged".

(** [cluster/src/durable.rs:115-119] log_key *)
Definition log_key (index : Z) : bytes := str_bytes "log/" ++ be_bytes 8 index.

(** [cluster/src/durable.rs:122-126] log_index *)
Definition log_index (key : bytes) : option Z :=
  if starts_with LOG_PREFIX key then
    let suffix := drop (length LOG_PREFIX) key in
    if (length suffix =? 8)%nat then Some (be_val suffix) else None
  else None.

(** [cluster/src/durable.rs:159-162] LogCache *)
Record LogCache : Type := mkLogCache {
  c_last_log_id : option LogId;
  c_last_purged : option LogId
}.

(** [cluster/src/durable.rs:151-155] DurableLogStore: the keyspace and the cache. *)
Record DurableLogStore : Type := mkDurableLog { dl_ks : S; dl_cache : LogCache }.

Definition read_json_r {T} `{!Serde T} (ks : S) (key : bytes)
  : result LogFault (option T) := ok_or (read_json (get := get) ks key) ReadLogs.

(** [cluster/src/durable.rs:209-218] write_json *)
Definition write_json {T} `{!Serde T} (ks : S) (key : bytes) (v : T) : S :=
  batch_commit ks [Put key (to_vec v)].

(** [cluster/src/durable.rs:229-241] highest_log_id *)
Definition highest_log_id (ks : S) : result LogFault (option LogId) :=
  match last (scan ks LOG_PREFIX) with
  | Some (_, v) => entry ← ok_or (from_slice (T := Entry) v) ReadLogs; Ok (Some (e_log_id entry))
  | None => Ok None
  end.

(** [cluster/src/durable.rs:168-181] DurableLogStore::open *)
Definition durable_log_open (ks : S) : result LogFault DurableLogStore :=
  last_purged ← read_json_r (T := LogId) ks PURGED_KEY;
  highest ← highest_log_id ks;
  Ok (mkDurableLog ks (mkLogCache (opt_or highest last_purged) last_purged)).

(** The loop of [try_get_log_entries]. *)
Fixpoint collect_entries (lo hi : Bound) (l : list (bytes * bytes))
  : result LogFault (list Entry) :=
  match l with
  | [] => Ok []
  | (k, v) :: l =>
      match log_index k with
      | None => collect_entries lo hi l
      | Some index =>
          if negb (range_contains lo hi index) then collect_entries lo hi l
          else
            entry ← ok_or (from_slice (T := Entry) v) ReadLogs;
            out ← collect_entries lo hi l;
            Ok (entry :: out)
      end
  end.

(** [cluster/src/durable.rs:244-264] DurableLogStore::try_get_log_entries *)
Definition durable_try_get_log_entries (d : DurableLogStore) (lo hi : Bound)
  : result LogFault (list Entry) :=
  collect_entries lo hi (scan (dl_ks d) LOG_PREFIX).

(** [cluster/src/durable.rs:270-276] DurableLogStore::get_log_state *)
Definition durable_get_log_state (d : DurableLogStore) : LogState :=
  mkLogState (c_last_purged (dl_cache d)) (c_last_log_id (dl_cache d)).

(** [cluster/src/durable.rs:278-284] DurableLogStore::save_committed *)
Definition durable_save_committed (d : DurableLogStore) (c : option LogId) : DurableLogStore :=
  mkDurableLog (write_json (dl_ks d) COMMITTED_KEY c) (dl_cache d).

(** [cluster/src/durable.rs:286-292] DurableLogStore::read_committed *)
Definition durable_read_committed (d : DurableLogStore) : result LogFault (option LogId) :=
  c ← read_json_r (T := option LogId) (dl_ks d) COMMITTED_KEY;
  Ok (match c with Some c => c | None => None end).

(** [cluster/src/durable.rs:295-298] DurableLogStore::save_vote *)
Definition durable_save_vote (d : DurableLogStore) (v : Vote) : DurableLogStore :=
  mkDurableLog (write_json (dl_ks d) VOTE_KEY v) (dl_cache d).

(** [cluster/src/durable.rs:300-302] DurableLogStore::read_vote *)
Definition durable_read_vote (d : DurableLogStore) : result LogFault (option Vote) :=
  read_json_r (T := Vote) (dl_ks d) VOTE_KEY.

(** [Option::is_none_or] on the index of a cached id. *)
Definition none_or (o : option LogId) (p : Z -> bool) : bool :=
  match o with None => true | Some l => p (lid_index l) end.

(** The loop of [append]: the batch and the highest id in it. *)
Definition append_step (acc : list WriteOp * option LogId) (e : Entry)
  : list WriteOp * option LogId :=
  let '(batch, max_log_id) := acc in
  let id := e_log_id e in
  (batch ++ [Put (log_key (lid_index id)) (to_vec e)],
   if none_or max_log_id (fun m => m <? lid_index id) then Some id else max_log_id).

(** [cluster/src/durable.rs:305-333] DurableLogStore::append *)
Definition durable_append (d : DurableLogStore) (entries : list Entry) : DurableLogStore :=
  let '(batch, max_log_id) := foldl append_step ([], None) entries in
  let cache := dl_cache d in
  mkDurableLog (batch_commit (dl_ks d) batch)
    match max_log_id with
    | Some id =>
        if none_or (c_last_log_id cache) (fun l => l <? lid_index id)
        then mkLogCache (Some id) (c_last_purged cache) else cache
    | None => cache
    end.

(** The stored keys whose index satisfies a condition, as [truncate] and
    [purge] collect them. *)
Definition log_keys_where (p : Z -> bool) (l : list (bytes * bytes)) : list bytes :=
  omap (fun kv => match log_index (fst kv) with
                  | Some index => if p index then Some (fst kv) else None
                  | None => None
                  end) l.

(** [cluster/src/durable.rs:336-360] DurableLogStore::truncate *)
Definition durable_truncate (d : DurableLogStore) (log_id : LogId)
  : DurableLogStore * result LogFault unit :=
  let keys := log_keys_where (fun index => lid_index log_id <=? index)
                (scan (dl_ks d) LOG_PREFIX) in
  let ks := batch_commit (dl_ks d) (map Delete keys) in
  let cache := dl_cache d in
  match highest_log_id ks with
  | Err e => (mkDurableLog ks cache, Err e)
  | Ok highest =>
      (mkDurableLog ks (mkLogCache (opt_or highest (c_last_purged cache)) (c_last_purged cache)),
       Ok ())
  end.

(** [cluster/src/durable.rs:363-397] DurableLogStore::purge *)
Definition durable_purge (d : DurableLogStore) (log_id : LogId)
  : DurableLogStore * result LogFault unit :=
  let cache := dl_cache d in
  if opt_lid_leb (c_last_purged cache) log_id then
    let keys := log_keys_where (fun index => index <=? lid_index log_id)
                  (scan (dl_ks d) LOG_PREFIX) in
    let purged_bytes := to_vec (Some log_id) in
    let ks := batch_commit (dl_ks d) (map Delete keys ++ [Put PURGED_KEY purged_bytes]) in
    (mkDurableLog ks
       (mkLogCache
          (if none_or (c_last_log_id cache) (fun l => l <? lid_index log_id)
           then Some log_id else c_last_log_id cache)
          (Some log_id)), Ok ())
  else (d, Err Panicked).

(** ** Both stores behind the storage interface *)

(** The mutating calls, and a restart of the process: the durable store is
    opened again from its keyspace. *)
Inductive LogOp : Type :=
| SaveCommitted (c : option LogId)
| SaveVote (v : Vote)
| Append (entries : list Entry)
| Truncate (log_id : LogId)
| Purge (log_id : LogId)
| Restart.

Definition mem_log_step (ls : LogStoreInner) (op : LogOp)
  : LogStoreInner * result LogFault unit :=
  match op with
  | SaveCommitted c => (mem_save_committed ls c, Ok ())
  | SaveVote v => (mem_save_vote ls v, Ok ())
  | Append es => (mem_append ls es, Ok ())
  | Truncate l => mem_truncate ls l
  | Purge l => mem_purge ls l
  | Restart => (ls, Ok ())
  end.

Definition durable_log_step (d : DurableLogStore) (op : LogOp)
  : DurableLogStore * result LogFault unit :=
  match op with
  | SaveCommitted c => (durable_save_committed d c, Ok ())
  | SaveVote v => (durable_save_vote d v, Ok ())
  | Append es => (durable_append d es, Ok ())
  | Truncate l => durable_truncate d l
  | Purge l => durable_purge d l
  | Restart =>
      match durable_log_open (dl_ks d) with
      | Ok d' => (d', Ok ())
      | Err e => (d, Err e)
      end
  end.

Fixpoint run_log {St} (step : St -> LogOp -> St * result LogFault unit) (s : St)
    (ops : list LogOp) : St * list (result LogFault unit) :=
  match ops with
  | [] => (s, [])
  | op :: ops =>
      let '(s, r) := step s op in
      let '(s, rs) := run_log step s ops in
      (s, r :: rs)
  end.

(** openraft's storage contract, against the in-memory store: appended indices
    are [u64]s, increasing and past the last one; a purged id is that of the
    entry at its index, and does not go back behind an earlier purge. *)
Definition log_op_ok (ls : LogStoreInner) (op : LogOp) : Prop :=
  match op with
  | Append es =>
      Forall (fun e => u64_ok (lid_index (e_log_id e))) es /\
      StronglySorted (fun a b => lid_index (e_log_id a) < lid_index (e_log_id b)) es /\
      Forall (fun e => forall l, st_last (mem_get_log_state ls) = Some l ->
                lid_index l < lid_index (e_log_id e)) es
  | Purge l =>
      (forall e, log ls !! lid_index l = Some e -> e_log_id e = l) /\
      (forall p, last_purged_log_id ls = Some p -> lid_index p < lid_index l \/ p = l)
  | _ => True
  end.

Fixpoint log_ops_ok (ls : LogStoreInner) (ops : list LogOp) : Prop :=
  match ops with
  | [] => True
  | op :: ops => log_op_ok ls op /\ log_ops_ok (fst (mem_log_step ls op)) ops
  end.

End LogStores.

Arguments DurableLogStore {H} S.
Arguments read_json_r {S} get {T _} ks key.
Arguments write_json {S} batch_commit {T _} ks key v.
Arguments highest_log_id {H} {S} scan {_} ks.
Arguments durable_log_open {H} {S} get scan {_ _} ks.
Arguments durable_try_get_log_entries {H} {S} scan {_} d lo hi.
Arguments durable_read_committed {H} {S} get {_} d.
Arguments durable_read_vote {H} {S} get {_} d.
Arguments durable_append {H} {S} batch_commit {_} d entries.
Arguments durable_truncate {H} {S} scan batch_commit {_} d log_id.
Arguments durable_purge {H} {S} scan batch_commit {_} d log_id.
Arguments durable_log_step {H} {S} get scan batch_commit {_ _ _ _} d op.

(** ** Ordered maps *)

Section BTreeLemmas.
Context {A : Type}.
Implicit Types m : gmap Z A.

Lemma In_btree_entries m i x : In (i, x) (btree_entries m) <-> m !! i = Some x.
Proof.
  unfold btree_entries. rewrite <- elem_of_map_to_list, <- list_elem_of_In.
  by rewrite (sort_by_key_perm fst (map_to_list m)).
Qed.

Lemma btree_entries_strict m :
  StronglySorted (fun a b : Z * A => fst a < fst b) (btree_entries m).
Proof.
  assert (NoDup (btree_entries m).*1) as Hnd.
  { unfold btree_entries. rewrite (sort_by_key_perm fst (map_to_list m)). apply NoDup_fst_map_to_list. }
  pose proof (sort_by_key_sorted fst (map_to_list m)) as Hs. fold (btree_entries m) in Hs.
  induction Hs as [|a l Hl IH Ha]; [constructor|].
  apply NoDup_cons in Hnd as [Hni Hnd]. constructor; [by apply IH|].
  rewrite List.Forall_forall in Ha |- *. intros b Hb. specialize (Ha b Hb).
  assert (fst a <> fst b); [|lia]. intros E. apply Hni. rewrite E.
  apply list_elem_of_fmap. exists b. split; [done|by apply list_elem_of_In].
Qed.

(** The last entry is the one with the highest key. *)
Lemma last_btree_max m i x :
  m !! i = Some x -> (forall j y, m !! j = Some y -> j <= i) ->
  last (btree_entries m) = Some (i, x).
Proof.
  intros Hi Hmax. pose proof (btree_entries_strict m) as Hs.
  apply In_btree_entries, list_elem_of_In, list_elem_of_split in Hi as (l1 & l2 & E).
  destruct l2 as [|[j y] l2]; [by rewrite E, last_snoc|].
  assert (i < j).
  { rewrite E in Hs. apply StronglySorted_app_1_r, StronglySorted_inv in Hs as [_ Hf].
    by inversion Hf. }
  assert (j <= i); [|lia]. apply (Hmax j y), In_btree_entries. rewrite E.
  apply in_or_app. right. right. by left.
Qed.

Lemma btree_cases m :
  (m = ∅ /\ last (btree_entries m) = None) \/
  exists i x, m !! i = Some x /\ (forall j y, m !! j = Some y -> j <= i) /\
    last (btree_entries m) = Some (i, x).
Proof.
  pose proof (btree_entries_strict m) as Hs.
  destruct (last (btree_entries m)) as [[i x]|] eqn:E.
  - right. exists i, x. apply last_Some in E as [l E].
    assert (forall j y, m !! j = Some y -> In (j, y) (l ++ [(i, x)])) as Hin.
    { intros j y Hj. rewrite <- E. by apply In_btree_entries. }
    split_and!; [|intros j y Hj; apply Hin in Hj as [Hj|[Hj|[]]]%in_app_or|done].
    + apply In_btree_entries. rewrite E. apply in_or_app. right. by left.
    + apply list_elem_of_In, list_elem_of_split in Hj as (l1 & l2 & ->).
      rewrite E, <- app_assoc in Hs. apply StronglySorted_app_1_r in Hs.
      apply StronglySorted_inv in Hs as [_ Hf]. rewrite List.Forall_forall in Hf.
      specialize (Hf (i, x)). simpl in Hf.
      assert (j < i); [|lia]. apply Hf, in_or_app. right. by left.
    + simplify_eq. lia.
  - left. apply last_None in E. split; [|done]. apply map_eq. intros i. rewrite lookup_empty.
    destruct (m !! i) as [x|] eqn:Ei; [|done]. apply In_btree_entries in Ei. by rewrite E in Ei.
Qed.

Lemma lookup_remove_all m ks i :
  btree_remove_all m ks !! i = if decide (i ∈ ks) then None else m !! i.
Proof.
  unfold btree_remove_all. revert m; induction ks as [|k ks IH]; intros m; cbn [foldl].
  - by rewrite decide_False by apply not_elem_of_nil.
  - rewrite IH. destruct (decide (i ∈ ks)) as [Hin|Hin].
    + by rewrite decide_True by (by right).
    + destruct (decide (k = i)) as [->|Hk].
      * by rewrite decide_True, lookup_delete_eq by (by left).
      * rewrite decide_False, lookup_delete_ne by (try done; rewrite elem_of_cons; naive_solver).
        done.
Qed.

(** Removing every key a bound selects. *)
Lemma lookup_remove_range m (p : Z -> bool) i :
  btree_remove_all m (map fst (List.filter (fun e => p (fst e)) (btree_entries m))) !! i =
    if p i then None else m !! i.
Proof.
  rewrite lookup_remove_all. case_decide as Hin.
  - apply list_elem_of_In, in_map_iff in Hin as ([j x] & <- & [_ Hp]%filter_In).
    simpl in *. by rewrite Hp.
  - destruct (p i) eqn:Hp; [|done]. destruct (m !! i) as [x|] eqn:Ei; [|done].
    destruct Hin. apply list_elem_of_In, in_map_iff. exists (i, x). split; [done|].
    apply filter_In. split; [by apply In_btree_entries|done].
Qed.

End BTreeLemmas.

(** ** The raft keyspace *)

Lemma log_index_key i : u64_ok i -> log_index (log_key i) = Some i.
Proof.
  intros Hi. unfold log_index, log_key. fold LOG_PREFIX.
  rewrite starts_with_app, drop_app_length, be_bytes_length. cbn [Nat.eqb].
  by rewrite be_val_be_bytes.
Qed.

Lemma log_key_inj i j : u64_ok i -> u64_ok j -> log_key i = log_key j -> i = j.
Proof. intros Hi Hj E%(f_equal log_index). rewrite !log_index_key in E by done. congruence. Qed.

Lemma log_key_lt i j : u64_ok i -> u64_ok j -> i < j -> lex_lt (log_key i) (log_key j).
Proof.
  intros Hi Hj Hlt. apply lex_lt_iff. unfold lex_le, log_key.
  rewrite lex_le_app_same, (lex_leb_be_bytes 8) by done. intros ?%Z.leb_le. lia.
Qed.

Lemma log_key_prefix i : starts_with LOG_PREFIX (log_key i) = true.
Proof. apply starts_with_app. Qed.

(** The other keys of the raft keyspace, the state machine's included. *)
Definition meta_keys : list bytes :=
  [VOTE_KEY; COMMITTED_KEY; PURGED_KEY; SM_APPLIED_KEY; SM_MEMBERSHIP_KEY].

Lemma meta_key_prefix k : k ∈ meta_keys -> starts_with LOG_PREFIX k = false.
Proof.
  revert k. apply Forall_forall. repeat (constructor; [reflexivity|]). constructor.
Qed.

Lemma meta_key_not_log k i : k ∈ meta_keys -> k <> log_key i.
Proof. intros Hk%meta_key_prefix ->. by rewrite log_key_prefix in Hk. Qed.

Lemma last_write_delete_keys (l : list bytes) k :
  last_write (map Delete l) k = if decide (k ∈ l) then Some None else None.
Proof.
  induction l as [|k' l IH]; [done|]. cbn [map last_write op_key]. rewrite IH.
  destruct (decide (k ∈ l)) as [H1|H1].
  - by rewrite decide_True by (by right).
  - destruct (decide (k' = k)) as [->|].
    + by rewrite decide_True by left.
    + rewrite decide_False; [done|]. rewrite elem_of_cons. naive_solver.
Qed.

Section Refinement.
Context `{Raft}.
Context {S : Type} {get : S -> bytes -> option bytes}
  {scan : S -> bytes -> list (bytes * bytes)} {batch_commit : S -> list WriteOp -> S}
  `{!KvLaws S get scan batch_commit}.
Context `{!Serde LogId} `{!Serde (option LogId)} `{!Serde Entry} `{!Serde Vote}.
Context `{!SerdeLaw (option LogId)} `{!SerdeLaw Entry} `{!SerdeLaw Vote}.

(** serde_json writes [Some x] as it writes [x]: what [purge] stores as an
    option, [open] reads back as a log id. *)
Context (serde_some : forall l : LogId, from_slice (T := LogId) (to_vec (Some l)) = Some l).

(** The stored log holds exactly the map's entries, each under its index. *)
Record stored_log (ks : S) (m : gmap Z Entry) : Prop := {
  sl_get i : u64_ok i -> get ks (log_key i) = to_vec <$> m !! i;
  sl_only k v : starts_with LOG_PREFIX k = true -> get ks k = Some v ->
    exists i, u64_ok i /\ k = log_key i;
  sl_index i e : m !! i = Some e -> u64_ok i /\ lid_index (e_log_id e) = i
}.

Lemma scan_log ks m :
  stored_log ks m ->
  scan ks LOG_PREFIX = map (fun p => (log_key (fst p), to_vec (snd p))) (btree_entries m).
Proof.
  intros [Hget Honly Hidx]. apply (StronglySorted_unique_strict entry_lt).
  - intros x. apply lex_lt_irrefl.
  - intros x y z Hxy Hyz. unfold entry_lt. eapply lex_le_lt_trans; [|exact Hyz].
    by apply lex_lt_le.
  - apply law_scan_order.
  - pose proof (btree_entries_strict m) as Hs.
    assert (forall i e, In (i, e) (btree_entries m) -> u64_ok i) as Hok.
    { intros i e Hin%In_btree_entries. by apply Hidx in Hin as []. }
    induction Hs as [|[i e] l Hl IH Hx]; [constructor|]. simpl. constructor.
    + apply IH. intros j e' Hj. apply (Hok j e'). by right.
    + rewrite List.Forall_forall in Hx |- *. intros kv Hkv.
      apply in_map_iff in Hkv as ([j e'] & <- & Hin). unfold entry_lt. cbn [fst].
      apply log_key_lt; [apply (Hok i e); by left|apply (Hok j e'); by right|apply (Hx _ Hin)].
  - intros [k v]. rewrite law_scan_complete, in_map_iff. split.
    + intros [Hg Hp]. destruct (Honly k v Hp Hg) as (i & Hi & ->). rewrite Hget in Hg by done.
      apply fmap_Some in Hg as (e & He & ->). exists (i, e).
      split; [done|by apply In_btree_entries].
    + intros ([i e] & [= <- <-] & Hin%In_btree_entries). split; [|apply log_key_prefix].
      apply Hidx in Hin as Hi. rewrite Hget by tauto. by rewrite Hin.
Qed.

Lemma highest_log_id_stored ks m :
  stored_log ks m ->
  highest_log_id scan ks = Ok ((fun p => e_log_id (snd p)) <$> last (btree_entries m)).
Proof.
  intros Hs. unfold highest_log_id. rewrite (scan_log ks m Hs).
  change (map ?f ?l) with (f <$> l). rewrite fmap_last.
  destruct (last (btree_entries m)) as [[i e]|]; [|done].
  cbn [fmap option_fmap option_map fst snd]. by rewrite serde_roundtrip.
Qed.

Lemma collect_entries_stored lo hi l :
  Forall (fun p => u64_ok (fst p)) l ->
  collect_entries lo hi (map (fun p => (log_key (fst p), to_vec (snd p))) l) =
    Ok (map snd (List.filter (fun e => range_contains lo hi (fst e)) l)).
Proof.
  induction 1 as [|[i e] l Hi Hl IH]; [done|]. cbn [map collect_entries fst snd].
  rewrite log_index_key, IH by done. cbn [List.filter fst].
  destruct (range_contains lo hi i); [|done]. cbn [negb map snd].
  by rewrite serde_roundtrip.
Qed.

Lemma log_keys_where_stored p l :
  Forall (fun q => u64_ok (fst q)) l ->
  log_keys_where p (map (fun q => (log_key (fst q), to_vec (snd q))) l) =
    map log_key (map fst (List.filter (fun e => p (fst e)) (l : list (Z * Entry)))).
Proof.
  induction 1 as [|[i e] l Hi Hl IH]; [done|]. unfold log_keys_where in *.
  cbn [map omap list_omap fst snd]. rewrite log_index_key, IH by done. cbn [List.filter fst].
  by destruct (p i).
Qed.

Lemma stored_entries_ok ks m :
  stored_log ks m -> Forall (fun q => u64_ok (fst q)) (btree_entries m).
Proof.
  intros Hs. apply List.Forall_forall. intros [i e] Hin%In_btree_entries.
  by apply (sl_index _ _ Hs) in Hin as [].
Qed.

(** *** What batches do to the stored log *)

(** A batch that touches no log key keeps the log. *)
Lemma stored_log_frame ks m ops :
  stored_log ks m -> (forall op, In op ops -> op_key op ∈ meta_keys) ->
  stored_log (batch_commit ks ops) m.
Proof.
  intros [Hget Honly Hidx] Hops.
  assert (forall i, last_write ops (log_key i) = None) as Hnone.
  { intros i. apply last_write_None. intros op Hin. by apply meta_key_not_log, Hops. }
  split; [|intros k v Hp|done].
  - intros i Hi. rewrite law_batch, Hnone. by apply Hget.
  - rewrite law_batch, last_write_None; [by apply Honly|].
    intros op Hin E. apply Hops in Hin. rewrite E in Hin.
    apply meta_key_prefix in Hin. congruence.
Qed.

(** A batch of deletions of log keys, followed by metadata. *)
Lemma stored_log_delete ks m (p : Z -> bool) ops :
  let sel := List.filter (fun e => p (fst e)) (btree_entries m) in
  stored_log ks m -> (forall op, In op ops -> op_key op ∈ meta_keys) ->
  stored_log (batch_commit ks (map Delete (map log_key (map fst sel)) ++ ops))
    (btree_remove_all m (map fst sel)).
Proof.
  intros sel Hs Hops.
  assert (forall i, last_write ops (log_key i) = None) as Hnone.
  { intros i. apply last_write_None. intros op Hin. by apply meta_key_not_log, Hops. }
  assert (forall k, get (batch_commit ks (map Delete (map log_key (map fst sel)) ++ ops)) k =
    match last_write ops k with
    | Some w => w
    | None => if decide (k ∈ map log_key (map fst sel)) then None else get ks k
    end) as Hg.
  { intros k. rewrite law_batch, last_write_app, last_write_delete_keys.
    destruct (last_write ops k); [done|]. by case_decide. }
  split.
  - intros i Hi. rewrite Hg, Hnone, lookup_remove_all.
    assert (log_key i ∈ map log_key (map fst sel) <-> i ∈ map fst sel) as Hiff.
    { split; [|apply (list_elem_of_fmap_2 log_key)].
      intros (j & Hj & Hin)%(list_elem_of_fmap_1 log_key). apply log_key_inj in Hj; [by subst|done|].
      apply list_elem_of_In, in_map_iff in Hin as (e & <- & [Hin _]%filter_In).
      apply (proj1 (List.Forall_forall _ _) (stored_entries_ok _ _ Hs) _ Hin). }
    rewrite (decide_ext _ _ _ _ Hiff). case_decide; [done|]. by apply (sl_get _ _ Hs).
  - intros k v Hp. rewrite Hg, (last_write_None ops k).
    + case_decide; [done|]. by apply (sl_only _ _ Hs).
    + intros op Hin E. apply Hops in Hin. rewrite E in Hin.
      apply meta_key_prefix in Hin. congruence.
  - intros i e Hi. apply (sl_index _ _ Hs). rewrite lookup_remove_all in Hi. by case_decide.
Qed.

(** The batch of [append]. *)
Definition put_entry (e : Entry) : WriteOp := Put (log_key (lid_index (e_log_id e))) (to_vec e).
Definition insert_entry (m : gmap Z Entry) (e : Entry) : gmap Z Entry :=
  <[lid_index (e_log_id e) := e]> m.

Lemma append_last_write m es i :
  u64_ok i -> Forall (fun e => u64_ok (lid_index (e_log_id e))) es ->
  match last_write (map put_entry es) (log_key i) with
  | Some w => w
  | None => to_vec <$> m !! i
  end = to_vec <$> foldl insert_entry m es !! i.
Proof.
  intros Hi. induction es as [|e es IH] using rev_ind; [done|].
  intros [Hes He]%Forall_app. inversion_clear He as [|? ? Hj _].
  rewrite map_app, foldl_app, last_write_app. cbn [map last_write put_entry op_key foldl].
  unfold insert_entry at 1. case_decide as E.
  - apply log_key_inj in E as ->; [|done|done]. by rewrite lookup_insert_eq.
  - rewrite lookup_insert_ne by congruence. by apply IH.
Qed.

Lemma last_write_In ops k w :
  last_write ops k = Some w -> exists op, In op ops /\ op_key op = k.
Proof.
  intros E. destruct (decide (Exists (fun op => op_key op = k) ops)) as [Hex|Hex].
  - apply List.Exists_exists in Hex as (op & Hin & Hk). by exists op.
  - rewrite last_write_None in E; [done|]. intros op Hin Hk. apply Hex, List.Exists_exists. eauto.
Qed.

Lemma stored_log_append ks m es :
  stored_log ks m -> Forall (fun e => u64_ok (lid_index (e_log_id e))) es ->
  stored_log (batch_commit ks (map put_entry es)) (foldl insert_entry m es).
Proof.
  intros Hs Hes. split.
  - intros i Hi. rewrite law_batch, (sl_get _ _ Hs i Hi). by apply append_last_write.
  - intros k v Hp. rewrite law_batch. destruct (last_write _ k) as [w|] eqn:E.
    + intros _. apply last_write_In in E as (op & (e & <- & Hin)%in_map_iff & <-).
      eexists. split; [|done]. by apply (proj1 (List.Forall_forall _ _) Hes).
    + by apply (sl_only _ _ Hs).
  - pose proof (sl_index _ _ Hs) as Hidx. clear Hs. revert m Hidx.
    induction Hes as [|e es He Hes IH]; intros m Hidx; [done|]. cbn [foldl]. apply IH.
    intros i e' Hi. unfold insert_entry in Hi.
    apply lookup_insert_Some in Hi as [[<- <-]|[_ Hi]]; [done|by apply Hidx].
Qed.

(** *** The relation between the two stores *)

Record log_rel (d : DurableLogStore S) (ls : LogStoreInner) : Prop := {
  lr_log : stored_log (dl_ks d) (log ls);
  lr_purged : get (dl_ks d) PURGED_KEY = (fun l => to_vec (Some l)) <$> last_purged_log_id ls;
  lr_committed : durable_read_committed get d = Ok (committed ls);
  lr_vote : durable_read_vote get d = Ok (vote ls);
  lr_cache : durable_get_log_state d = mem_get_log_state ls;
  lr_above p i e : last_purged_log_id ls = Some p -> log ls !! i = Some e -> lid_index p < i
}.

(** Opening the keyspace again rebuilds the cache. *)
Lemma log_rel_open d ls : log_rel d ls -> durable_log_open get scan (dl_ks d) = Ok d.
Proof.
  intros [Hlog Hp _ _ Hc _]. unfold durable_log_open, read_json_r, read_json. rewrite Hp.
  rewrite (highest_log_id_stored _ _ Hlog). destruct d as [ks [cl cp]].
  unfold durable_get_log_state, mem_get_log_state in Hc. cbn [dl_cache c_last_log_id c_last_purged] in Hc.
  simplify_eq. destruct (last_purged_log_id ls) as [p|]; [|done].
  cbn [fmap option_fmap option_map]. by rewrite serde_some.
Qed.

(** A key no operation of the batch writes keeps its value. *)
Lemma batch_get_other ks ops k :
  (forall op, In op ops -> op_key op <> k) -> get (batch_commit ks ops) k = get ks k.
Proof. intros Hk. by rewrite law_batch, last_write_None. Qed.

Lemma batch_get_put ks k v : get (batch_commit ks [Put k v]) k = Some v.
Proof. rewrite law_batch. cbn [last_write op_key]. by rewrite decide_True. Qed.

Lemma read_committed_frame (d d' : DurableLogStore S) :
  get (dl_ks d') COMMITTED_KEY = get (dl_ks d) COMMITTED_KEY ->
  durable_read_committed get d' = durable_read_committed get d.
Proof. intros E. unfold durable_read_committed, read_json_r, read_json. by rewrite E. Qed.

Lemma read_vote_frame (d d' : DurableLogStore S) :
  get (dl_ks d') VOTE_KEY = get (dl_ks d) VOTE_KEY ->
  durable_read_vote get d' = durable_read_vote get d.
Proof. intros E. unfold durable_read_vote, read_json_r, read_json. by rewrite E. Qed.

Lemma save_committed_rel d ls c :
  log_rel d ls ->
  log_rel (durable_save_committed (batch_commit := batch_commit) d c) (mem_save_committed ls c).
Proof.
  intros [Hlog Hp Hc Hv Hca Hab]. split; try done.
  - apply stored_log_frame; [done|]. intros op [<-|[]]. set_solver.
  - cbn [durable_save_committed dl_ks]. unfold write_json.
    rewrite batch_get_other; [done|]. by intros op [<-|[]].
  - unfold durable_read_committed, read_json_r, read_json, write_json.
    cbn [durable_save_committed dl_ks]. unfold write_json. rewrite batch_get_put.
    cbn [mbind option_bind]. by rewrite serde_roundtrip.
  - etrans; [|exact Hv]. apply read_vote_frame, batch_get_other. by intros op [<-|[]].
Qed.

Lemma save_vote_rel d ls v :
  log_rel d ls ->
  log_rel (durable_save_vote (batch_commit := batch_commit) d v) (mem_save_vote ls v).
Proof.
  intros [Hlog Hp Hc Hv Hca Hab]. split; try done.
  - apply stored_log_frame; [done|]. intros op [<-|[]]. set_solver.
  - cbn [durable_save_vote dl_ks]. unfold write_json.
    rewrite batch_get_other; [done|]. by intros op [<-|[]].
  - etrans; [|exact Hc]. apply read_committed_frame, batch_get_other. by intros op [<-|[]].
  - unfold durable_read_vote, read_json_r, read_json.
    cbn [durable_save_vote dl_ks]. unfold write_json. rewrite batch_get_put.
    cbn [mbind option_bind]. by rewrite serde_roundtrip.
Qed.

(** The in-memory last log id, from where the highest index is. *)
Lemma mem_state_max ls i e :
  log ls !! i = Some e -> (forall j y, log ls !! j = Some y -> j <= i) ->
  mem_get_log_state ls = mkLogState (last_purged_log_id ls) (Some (e_log_id e)).
Proof.
  intros Hi Hmax. unfold mem_get_log_state. by rewrite (last_btree_max _ i e).
Qed.

Lemma mem_state_empty ls :
  (forall i, log ls !! i = None) ->
  mem_get_log_state ls = mkLogState (last_purged_log_id ls) (last_purged_log_id ls).
Proof.
  intros Hn. unfold mem_get_log_state.
  destruct (btree_cases (log ls)) as [[_ ->]|(i & x & Hi & _)]; [done|].
  by rewrite Hn in Hi.
Qed.

(** Which entries the two removing calls leave. *)
Definition keep_where (p : Z -> bool) (m : gmap Z Entry) : gmap Z Entry :=
  btree_remove_all m (map fst (List.filter (fun e => p (fst e)) (btree_entries m))).

Lemma lookup_keep_where p m i : keep_where p m !! i = if p i then None else m !! i.
Proof. apply lookup_remove_range. Qed.

Lemma mem_truncate_eq ls l :
  mem_truncate ls l =
    (mkLogStore (last_purged_log_id ls) (keep_where (fun i => lid_index l <=? i) (log ls))
       (committed ls) (vote ls), Ok ()).
Proof.
  unfold mem_truncate, btree_range, keep_where. cbn [range_panics].
  do 3 f_equal. f_equal. apply filter_ext. intros [i e]. unfold range_contains.
  by rewrite andb_true_r.
Qed.

Lemma mem_purge_eq ls l :
  mem_purge ls l =
    if opt_lid_leb (last_purged_log_id ls) l then
      (mkLogStore (Some l) (keep_where (fun i => i <=? lid_index l) (log ls))
         (committed ls) (vote ls), Ok ())
    else (ls, Err Panicked).
Proof. done. Qed.

Lemma truncate_rel d ls l :
  log_rel d ls ->
  snd (durable_truncate scan batch_commit d l) = snd (mem_truncate ls l) /\
  log_rel (fst (durable_truncate scan batch_commit d l)) (fst (mem_truncate ls l)).
Proof.
  intros [Hlog Hp Hc Hv Hca Hab]. rewrite mem_truncate_eq. unfold durable_truncate.
  rewrite (scan_log _ _ Hlog), log_keys_where_stored by (by eapply stored_entries_ok).
  pose proof (stored_log_delete (dl_ks d) (log ls) (fun i => lid_index l <=? i) []
    Hlog ltac:(by intros op [])) as Hs'.
  rewrite app_nil_r in Hs'. set (ks' := batch_commit _ _) in *.
  rewrite (highest_log_id_stored _ _ Hs'). split; [done|].
  assert (forall k, k ∈ meta_keys -> get ks' k = get (dl_ks d) k) as Hfr.
  { intros k Hk. apply batch_get_other.
    intros op (k' & <- & (i & <- & _)%in_map_iff)%in_map_iff E.
    cbn [op_key] in E. by apply (meta_key_not_log k i). }
  assert (c_last_purged (dl_cache d) = last_purged_log_id ls) as Hcp by by injection Hca.
  split; cbn [dl_ks dl_cache log last_purged_log_id committed vote fst]; try done.
  - by rewrite Hfr by set_solver.
  - etrans; [|exact Hc]. apply read_committed_frame, Hfr. set_solver.
  - etrans; [|exact Hv]. apply read_vote_frame, Hfr. set_solver.
  - unfold durable_get_log_state. cbn [dl_cache c_last_purged c_last_log_id]. by rewrite Hcp.
  - intros p i e Hpu Hi. cbn [log] in Hi. rewrite lookup_keep_where in Hi.
    destruct (lid_index l <=? i); [done|]. by eapply Hab.
Qed.

(** The cached last id after a purge is the in-memory one. *)
Lemma purge_cache ls l :
  (forall i e, log ls !! i = Some e -> lid_index (e_log_id e) = i) ->
  log_op_ok ls (Purge l) ->
  (if none_or (st_last (mem_get_log_state ls)) (fun x => x <? lid_index l)
   then Some l else st_last (mem_get_log_state ls)) =
  st_last (mem_get_log_state
    (mkLogStore (Some l) (keep_where (fun i => i <=? lid_index l) (log ls))
       (committed ls) (vote ls))).
Proof.
  intros Hidx [Hsame Hback]. set (ls' := mkLogStore _ _ _ _).
  assert (forall i, log ls' !! i = if i <=? lid_index l then None else log ls !! i) as Hl'.
  { intros i. exact (lookup_keep_where (fun i => i <=? lid_index l) (log ls) i). }
  destruct (btree_cases (log ls)) as [[Hem _]|(i & e & Hi & Hmax & _)].
  - rewrite (mem_state_empty ls), (mem_state_empty ls').
    + cbn. destruct (last_purged_log_id ls) as [p|] eqn:Ep; [|done].
      cbn. destruct (Hback p eq_refl) as [Hlt| ->]; [by rewrite (proj2 (Z.ltb_lt _ _))|].
      by rewrite Z.ltb_irrefl.
    + intros i. rewrite Hl', Hem, lookup_empty. by destruct (_ <=? _).
    + intros i. by rewrite Hem, lookup_empty.
  - rewrite (mem_state_max ls i e) by done. cbn [st_last none_or]. rewrite (Hidx i e Hi).
    destruct (Z.leb_spec i (lid_index l)) as [Hle|Hgt].
    + rewrite (mem_state_empty ls').
      * cbn. destruct (Z.ltb_spec i (lid_index l)); [done|]. assert (i = lid_index l) as -> by lia.
        f_equal. by apply Hsame.
      * intros j. rewrite Hl'. destruct (Z.leb_spec j (lid_index l)); [done|].
        destruct (log ls !! j) eqn:Ej; [|done]. apply Hmax in Ej. lia.
    + rewrite (proj2 (Z.ltb_ge _ _)) by lia. rewrite (mem_state_max ls' i e); [done| |].
      * rewrite Hl'. by rewrite (proj2 (Z.leb_gt _ _)).
      * intros j y. rewrite Hl'. destruct (j <=? lid_index l); [done|]. apply Hmax.
Qed.

Lemma purge_rel d ls l :
  log_rel d ls -> log_op_ok ls (Purge l) ->
  snd (durable_purge scan batch_commit d l) = snd (mem_purge ls l) /\
  log_rel (fst (durable_purge scan batch_commit d l)) (fst (mem_purge ls l)).
Proof.
  intros Hrel Hok. pose proof Hrel as [Hlog Hp Hc Hv Hca Hab].
  rewrite mem_purge_eq. unfold durable_purge.
  assert (c_last_purged (dl_cache d) = last_purged_log_id ls) as -> by by injection Hca.
  assert (c_last_log_id (dl_cache d) = st_last (mem_get_log_state ls)) as -> by by rewrite <- Hca.
  destruct (opt_lid_leb (last_purged_log_id ls) l); [|done]. split; [done|].
  rewrite (scan_log _ _ Hlog), log_keys_where_stored by (by eapply stored_entries_ok).
  set (ops := map Delete _). set (pur := Put PURGED_KEY _).
  assert (forall k, k ∈ meta_keys -> k <> PURGED_KEY ->
    get (batch_commit (dl_ks d) (ops ++ [pur])) k = get (dl_ks d) k) as Hfr.
  { intros k Hk Hne. apply batch_get_other.
    intros op [(k' & <- & (i & <- & _)%in_map_iff)%in_map_iff|[<-|[]]]%in_app_or E; [|done].
    cbn [op_key] in E. by apply (meta_key_not_log k i). }
  split; cbn [dl_ks dl_cache log last_purged_log_id committed vote fst].
  - apply (stored_log_delete _ _ (fun i => i <=? lid_index l)); [done|].
    intros op [<-|[]]. set_solver.
  - rewrite law_batch, last_write_app. cbn [last_write op_key pur]. by rewrite decide_True.
  - etrans; [|exact Hc]. apply read_committed_frame, Hfr; [set_solver|done].
  - etrans; [|exact Hv]. apply read_vote_frame, Hfr; [set_solver|done].
  - unfold durable_get_log_state. cbn [dl_cache c_last_purged c_last_log_id].
    rewrite purge_cache; [done| |done]. intros i e Hi. by apply (sl_index _ _ Hlog) in Hi as [].
  - intros p i e [= <-] Hi. cbn [log] in Hi. rewrite lookup_keep_where in Hi.
    destruct (Z.leb_spec i (lid_index l)); [done|lia].
Qed.

(** *** Append *)

Lemma append_batch_eq es batch o :
  fst (foldl append_step (batch, o) es) = batch ++ map put_entry es.
Proof.
  revert batch o; induction es as [|e es IH]; intros batch o; [by rewrite app_nil_r|].
  cbn [foldl append_step]. rewrite IH, <- app_assoc. done.
Qed.

(** The highest id of an increasing batch is the last one. *)
Lemma append_max_eq es :
  StronglySorted (fun a b => lid_index (e_log_id a) < lid_index (e_log_id b)) es ->
  snd (foldl append_step ([], None) es) = e_log_id <$> last es.
Proof.
  induction es as [|e es IH] using rev_ind; [done|]. intros Hs.
  rewrite foldl_app, last_snoc. cbn [foldl].
  assert (StronglySorted (fun a b => lid_index (e_log_id a) < lid_index (e_log_id b)) es) as Hs'.
  { by apply StronglySorted_app_1_l in Hs. }
  specialize (IH Hs'). destruct (foldl append_step ([], None) es) as [b o].
  cbn [snd] in IH. subst o. cbn [append_step snd fmap option_fmap option_map].
  destruct (last es) as [x|] eqn:E; [|done]. cbn.
  assert (lid_index (e_log_id x) < lid_index (e_log_id e)); [|by rewrite (proj2 (Z.ltb_lt _ _))].
  apply last_Some in E as [l ->]. rewrite <- app_assoc in Hs.
  apply StronglySorted_app_1_r, StronglySorted_inv in Hs as [_ Hf]. by inversion Hf.
Qed.

Lemma foldl_insert_last es e m :
  foldl insert_entry m (es ++ [e]) !! lid_index (e_log_id e) = Some e.
Proof. rewrite foldl_app. apply lookup_insert_eq. Qed.

Lemma foldl_insert_cases es m i x :
  foldl insert_entry m es !! i = Some x -> m !! i = Some x \/ (In x es /\ lid_index (e_log_id x) = i).
Proof.
  revert m; induction es as [|e es IH]; intros m; [by left|]. cbn [foldl].
  intros [Hm|[Hin Hx]]%IH; [|right; split; [by right|done]].
  unfold insert_entry in Hm. apply lookup_insert_Some in Hm as [[<- <-]|[_ Hm]]; [|by left].
  right. split; [by left|done].
Qed.

Lemma append_cache ls es e :
  (forall i y, log ls !! i = Some y -> lid_index (e_log_id y) = i) ->
  log_op_ok ls (Append (es ++ [e])) ->
  mem_get_log_state (mem_append ls (es ++ [e])) =
    mkLogState (last_purged_log_id ls) (Some (e_log_id e)).
Proof.
  intros Hidx (_ & Hs & Hgt).
  apply (mem_state_max (mem_append ls (es ++ [e])) (lid_index (e_log_id e))).
  - apply foldl_insert_last.
  - intros j y [Hj|[Hin <-]]%foldl_insert_cases.
    + destruct (btree_cases (log ls)) as [[Hem _]|(i & z & Hi & Hmax & _)].
      { by rewrite Hem, lookup_empty in Hj. }
      apply Forall_app in Hgt as [_ Hgt]. inversion_clear Hgt as [|? ? Hlt _].
      specialize (Hlt (e_log_id z)). rewrite (mem_state_max ls i z) in Hlt by done.
      specialize (Hlt eq_refl). rewrite (Hidx i z Hi) in Hlt. specialize (Hmax j y Hj). lia.
    + apply in_app_or in Hin as [Hin|[->|[]]]; [|lia].
      apply list_elem_of_In, list_elem_of_split in Hin as (l1 & l2 & ->).
      rewrite <- app_assoc in Hs. apply StronglySorted_app_1_r, StronglySorted_inv in Hs as [_ Hf].
      rewrite List.Forall_forall in Hf. apply Z.lt_le_incl, Hf, in_or_app. right. by left.
Qed.

Lemma append_rel d ls es :
  log_rel d ls -> log_op_ok ls (Append es) ->
  log_rel (durable_append batch_commit d es) (mem_append ls es).
Proof.
  intros [Hlog Hp Hc Hv Hca Hab] Hok. pose proof Hok as (Hu & Hs & Hgt).
  assert (forall i y, log ls !! i = Some y -> lid_index (e_log_id y) = i) as Hidx.
  { intros i y Hi. by apply (sl_index _ _ Hlog) in Hi as []. }
  unfold durable_append.
  pose proof (append_batch_eq es [] None) as Eb. pose proof (append_max_eq es Hs) as Em.
  destruct (foldl append_step ([], None) es) as [batch o]. cbn [fst snd app] in Eb, Em. subst.
  assert (forall k, k ∈ meta_keys -> get (batch_commit (dl_ks d) (map put_entry es)) k =
    get (dl_ks d) k) as Hfr.
  { intros k Hk. apply batch_get_other. intros op (e & <- & _)%in_map_iff E.
    cbn [op_key put_entry] in E. by eapply meta_key_not_log. }
  split; cbn [dl_ks dl_cache].
  - by apply stored_log_append.
  - by rewrite Hfr by set_solver.
  - etrans; [|exact Hc]. apply read_committed_frame, Hfr. set_solver.
  - etrans; [|exact Hv]. apply read_vote_frame, Hfr. set_solver.
  - destruct es as [|e es _] using rev_ind; [exact Hca|].
    rewrite append_cache by done. rewrite last_snoc. cbn [fmap option_fmap option_map].
    unfold durable_get_log_state in *. cbn [dl_cache].
    apply Forall_app in Hgt as [_ Hgt]. inversion_clear Hgt as [|? ? Hlt _].
    rewrite <- Hca in Hlt. cbn [st_last] in Hlt.
    assert (c_last_purged (dl_cache d) = last_purged_log_id ls) as Hcp by by injection Hca.
    destruct (c_last_log_id (dl_cache d)) as [l|]; cbn [none_or]; [|by rewrite <- Hcp].
    rewrite (proj2 (Z.ltb_lt _ _)) by (by apply Hlt). by rewrite <- Hcp.
  - intros p i e Hpu [Hi|[Hin <-]]%foldl_insert_cases; [by eapply Hab|].
    rewrite List.Forall_forall in Hgt. specialize (Hgt e Hin).
    destruct (btree_cases (log ls)) as [[Hem _]|(j & z & Hj & Hmax & _)].
    + apply Hgt. rewrite (mem_state_empty ls); [done|]. intros i. by rewrite Hem, lookup_empty.
    + specialize (Hgt (e_log_id z)). rewrite (mem_state_max ls j z) in Hgt by done.
      specialize (Hgt eq_refl). rewrite (Hidx j z Hj) in Hgt. specialize (Hab p j z Hpu Hj). lia.
Qed.

(** One call: the same outcome, related states. *)
Lemma log_step_rel d ls op :
  log_rel d ls -> log_op_ok ls op ->
  snd (durable_log_step get scan batch_commit d op) = snd (mem_log_step ls op) /\
  log_rel (fst (durable_log_step get scan batch_commit d op)) (fst (mem_log_step ls op)).
Proof.
  intros Hr Hok. destruct op; cbn [durable_log_step mem_log_step fst snd].
  - split; [done|by apply save_committed_rel].
  - split; [done|by apply save_vote_rel].
  - split; [done|by apply append_rel].
  - by apply truncate_rel.
  - by apply purge_rel.
  - by rewrite (log_rel_open d ls Hr).
Qed.

Lemma run_log_rel ops d ls :
  log_rel d ls -> log_ops_ok ls ops ->
  snd (run_log (durable_log_step get scan batch_commit) d ops) =
    snd (run_log mem_log_step ls ops) /\
  log_rel (fst (run_log (durable_log_step get scan batch_commit) d ops))
    (fst (run_log mem_log_step ls ops)).
Proof.
  revert d ls; induction ops as [|op ops IH]; intros d ls Hr Hok; [done|].
  destruct Hok as [Hop Hops]. destruct (log_step_rel d ls op Hr Hop) as [E Hr'].
  cbn [run_log]. destruct (durable_log_step get scan batch_commit d op) as [d1 r1].
  destruct (mem_log_step ls op) as [ls1 r2]. cbn [fst snd] in *. subst r2.
  destruct (IH d1 ls1 Hr' Hops) as [E' Hr''].
  destruct (run_log _ d1 ops) as [d2 rs1], (run_log _ ls1 ops) as [ls2 rs2].
  cbn [fst snd] in *. by subst.
Qed.

(** The reads agree on related states. *)
Lemma try_get_rel d ls lo hi :
  log_rel d ls -> range_panics lo hi = false ->
  durable_try_get_log_entries scan d lo hi = mem_try_get_log_entries ls lo hi.
Proof.
  intros [Hlog _ _ _ _ _] Hr. unfold durable_try_get_log_entries, mem_try_get_log_entries.
  unfold btree_range. rewrite Hr, (scan_log _ _ Hlog).
  apply collect_entries_stored. by eapply stored_entries_ok.
Qed.

(** The log store never touches the state machine's keys. *)
Definition SM_KEYS : list bytes := [SM_APPLIED_KEY; SM_MEMBERSHIP_KEY].

Lemma batch_get_sm ks ops k :
  k ∈ SM_KEYS ->
  (forall op, In op ops -> starts_with LOG_PREFIX (op_key op) = true \/
    op_key op ∈ [VOTE_KEY; COMMITTED_KEY; PURGED_KEY]) ->
  get (batch_commit ks ops) k = get ks k.
Proof.
  intros Hk Hops. apply batch_get_other. intros op Hin E.
  destruct (Hops op Hin) as [Hp|Hm]; rewrite E in *.
  - rewrite meta_key_prefix in Hp; [done|]. unfold SM_KEYS, meta_keys in *. set_solver.
  - revert Hk Hm. unfold SM_KEYS.
    intros [->|[->|[]%not_elem_of_nil]%elem_of_cons]%elem_of_cons Hm;
      apply (bool_decide_eq_true_2 _) in Hm; vm_compute in Hm; discriminate.
Qed.

Lemma log_keys_where_prefix p l k :
  In (Delete k) (map Delete (log_keys_where p l)) -> starts_with LOG_PREFIX k = true.
Proof.
  intros (k' & [= ->] & Hin)%in_map_iff. apply list_elem_of_In, list_elem_of_omap in Hin.
  destruct Hin as ([k1 v] & _ & E). cbn [fst] in E. unfold log_index in E.
  destruct (starts_with LOG_PREFIX k1) eqn:Ep; [|done].
  destruct (_ =? 8)%nat; [|done]. destruct (p _); by simplify_eq.
Qed.

Lemma log_step_frame d ls op k :
  log_rel d ls -> k ∈ SM_KEYS ->
  get (dl_ks (fst (durable_log_step get scan batch_commit d op))) k = get (dl_ks d) k.
Proof.
  intros Hr Hk. destruct op; cbn [durable_log_step fst].
  - apply batch_get_sm; [done|]. intros op [<-|[]]. right. set_solver.
  - apply batch_get_sm; [done|]. intros op [<-|[]]. right. set_solver.
  - unfold durable_append. pose proof (append_batch_eq entries [] None) as Eb.
    destruct (foldl append_step ([], None) entries) as [batch o]. cbn [fst app] in Eb. subst.
    apply batch_get_sm; [done|]. intros op (e & <- & _)%in_map_iff. left. apply log_key_prefix.
  - unfold durable_truncate. destruct (highest_log_id _ _); cbn [fst dl_ks];
      (apply batch_get_sm; [done|]; intros op Hin; left;
       pose proof Hin as (x & <- & _)%in_map_iff; by eapply log_keys_where_prefix).
  - unfold durable_purge. destruct (opt_lid_leb _ _); cbn [fst dl_ks]; [|done].
    apply batch_get_sm; [done|]. intros op [Hin|[<-|[]]]%in_app_or; [left|right; set_solver].
    pose proof Hin as (x & <- & _)%in_map_iff. by eapply log_keys_where_prefix.
  - by rewrite (log_rel_open d ls Hr).
Qed.

Lemma run_log_frame ops d ls k :
  log_rel d ls -> log_ops_ok ls ops -> k ∈ SM_KEYS ->
  get (dl_ks (fst (run_log (durable_log_step get scan batch_commit) d ops))) k = get (dl_ks d) k.
Proof.
  revert d ls; induction ops as [|op ops IH]; intros d ls Hr Hok Hk; [done|].
  destruct Hok as [Hop Hops]. destruct (log_step_rel d ls op Hr Hop) as [_ Hr'].
  rewrite <- (log_step_frame d ls op k Hr Hk). cbn [run_log].
  destruct (durable_log_step get scan batch_commit d op) as [d1 r1].
  specialize (IH d1 _ Hr' Hops Hk). by destruct (run_log _ d1 ops).
Qed.

(** A keyspace in which no log store has written. *)
Record fresh_raft (ks : S) : Prop := {
  fr_log k : starts_with LOG_PREFIX k = true -> get ks k = None;
  fr_vote : get ks VOTE_KEY = None;
  fr_committed : get ks COMMITTED_KEY = None;
  fr_purged : get ks PURGED_KEY = None
}.

Lemma fresh_rel ks :
  fresh_raft ks -> log_rel (mkDurableLog ks (mkLogCache None None)) log_store_default.
Proof.
  intros [Hl Hv Hc Hp]. split; cbn [dl_ks log log_store_default]; try done.
  - split.
    + intros i _. rewrite lookup_empty. apply Hl, log_key_prefix.
    + intros k v Hk Hg. by rewrite Hl in Hg.
    + intros i e. by rewrite lookup_empty.
  - unfold durable_read_committed, read_json_r, read_json. cbn [dl_ks]. by rewrite Hc.
  - unfold durable_read_vote, read_json_r, read_json. cbn [dl_ks]. by rewrite Hv.
Qed.

(** C24: Over a fresh keyspace the durable Raft log store opens, and after any
    sequence of calls that respects openraft's storage contract, with restarts
    from disk anywhere in it, it is indistinguishable from the in-memory log
    store: every call had the same outcome (in particular every restart
    succeeded, and [purge]'s assertion fires in the same calls), and the log
    state, the entries of every range, the vote and the commit position read
    the same. The metadata of the state machine, which lives in the same
    keyspace, is untouched. *)
Theorem durable_log_refines_memory (ks : S) (ops : list LogOp) :
  fresh_raft ks -> log_ops_ok log_store_default ops ->
  exists d, durable_log_open get scan ks = Ok d /\
    let '(d', rd) := run_log (durable_log_step get scan batch_commit) d ops in
    let '(ls', rs) := run_log mem_log_step log_store_default ops in
    rd = rs /\
    durable_get_log_state d' = mem_get_log_state ls' /\
    (forall lo hi, range_panics lo hi = false ->
      durable_try_get_log_entries scan d' lo hi = mem_try_get_log_entries ls' lo hi) /\
    durable_read_vote get d' = Ok (mem_read_vote ls') /\
    durable_read_committed get d' = Ok (mem_read_committed ls') /\
    (forall k, k ∈ SM_KEYS -> get (dl_ks d') k = get ks k).
Proof.
  intros Hf Hok. pose proof (fresh_rel ks Hf) as Hr.
  exists (mkDurableLog ks (mkLogCache None None)). split; [exact (log_rel_open _ _ Hr)|].
  destruct (run_log_rel ops _ _ Hr Hok) as [E Hr'].
  pose proof (fun k => run_log_frame ops _ _ k Hr Hok) as Hfr.
  destruct (run_log (durable_log_step get scan batch_commit) _ ops) as [d' rd].
  destruct (run_log mem_log_step _ ops) as [ls' rs]. cbn [fst snd dl_ks] in *.
  split_and!; [done|apply Hr'|intros lo hi; by apply try_get_rel|apply Hr'|apply Hr'|exact Hfr].
Qed.

End Refinement.

(** ** A witness, over the in-memory store as the engine *)

Definition op_tuple (op : WriteOp) : bool * bytes * bytes :=
  match op with Put k v => (true, k, v) | Delete k => (false, k, []) end.
Definition tuple_op (t : bool * bytes * bytes) : WriteOp :=
  let '(b, k, v) := t in if b then Put k v else Delete k.

Definition entry_tuple (e : Entry (H := model_raft))
  : (Z * Z) * option (list (bool * bytes * bytes) + list Z) :=
  (e_log_id e, match e_payload e with
               | Blank => None
               | Normal ops => Some (inl (op_tuple <$> ops))
               | MembershipChange m => Some (inr m)
               end).
Definition tuple_entry (t : (Z * Z) * option (list (bool * bytes * bytes) + list Z))
  : Entry (H := model_raft) :=
  mkEntry (H := model_raft) (fst t)
    match snd t with
    | None => Blank (H := model_raft)
    | Some (inl ops) => Normal (H := model_raft) (tuple_op <$> ops)
    | Some (inr m) => MembershipChange (H := model_raft) m
    end.

Lemma tuple_entry_tuple e : tuple_entry (entry_tuple e) = e.
Proof.
  destruct e as [id [|ops|m]]; [done| |done]. unfold tuple_entry, entry_tuple. cbn.
  do 2 f_equal. induction ops as [|op ops IH]; [done|]. rewrite !fmap_cons, IH. by destruct op.
Qed.

#[export] Instance model_entry_serde : Serde (Entry (H := model_raft)) := {|
  to_vec e := [Z.pos (encode (entry_tuple e))];
  from_slice b := match b with [Z.pos p] => tuple_entry <$> decode p | _ => None end
|}.
#[export] Instance model_entry_serde_law : SerdeLaw (Entry (H := model_raft)).
Proof.
  intros e. cbn [to_vec from_slice model_entry_serde]. rewrite decode_encode.
  cbn. by rewrite tuple_entry_tuple.
Qed.

#[export] Instance model_vote_serde : Serde (Vote (Raft := model_raft)) := countable_serde Z.
#[export] Instance model_vote_serde_law : SerdeLaw (Vote (Raft := model_raft)) :=
  countable_serde_law Z.

(** A log id is written as the option holding it. *)
#[export] Instance model_lid_serde : Serde (LogId (Raft := model_raft)) := {|
  to_vec l := to_vec (T := option (LogId (Raft := model_raft))) (Some l);
  from_slice b :=
    match from_slice (T := option (LogId (Raft := model_raft))) b with
    | Some o => o
    | None => None
    end
|}.

Lemma model_serde_some (l : LogId (Raft := model_raft)) :
  from_slice (T := LogId (Raft := model_raft))
    (to_vec (T := option (LogId (Raft := model_raft))) (Some l)) = Some l.
Proof.
  cbn [from_slice model_lid_serde].
  by rewrite (serde_roundtrip (T := option (LogId (Raft := model_raft)))).
Qed.

(** Three entries appended, a conflicting suffix truncated and replaced, the
    prefix purged, with a vote, a commit position and two restarts. *)
Definition sample_log_ops : list (LogOp (H := model_raft)) :=
  let blank t i := mkEntry (H := model_raft) (t, i) (Blank (H := model_raft)) in
  [SaveVote (H := model_raft) 7; Append [blank 1 1; blank 1 2; blank 1 3]; Restart;
   Truncate (H := model_raft) (1, 3); Append [blank 2 3];
   SaveCommitted (H := model_raft) (Some (2, 3)); Purge (H := model_raft) (1, 2); Restart].

Lemma sample_log_ops_ok : log_ops_ok (H := model_raft) log_store_default sample_log_ops.
Proof.
  refine (conj I (conj _ (conj I (conj I (conj _ (conj I (conj _ (conj I I)))))))).
  - split_and!.
    + repeat constructor; vm_compute; congruence.
    + repeat constructor.
    + repeat constructor; intros l E; vm_compute in E; discriminate.
  - split_and!.
    + repeat constructor; vm_compute; congruence.
    + repeat constructor.
    + repeat constructor. intros l E. vm_compute in E. injection E as <-. reflexivity.
  - split.
    + intros e E. vm_compute in E. injection E as <-. reflexivity.
    + intros e E. vm_compute in E. discriminate.
Qed.

Definition sample_log_end : LogState (H := model_raft) :=
  mkLogState (H := model_raft) (Some (1, 2)) (Some (2, 3)).

Lemma sample_log_outcomes :
  snd (run_log (H := model_raft) mem_log_step log_store_default sample_log_ops) =
    replicate 8 (Ok ()).
Proof. vm_compute. reflexivity. Qed.
Lemma sample_log_state :
  mem_get_log_state (fst (run_log (H := model_raft) mem_log_step log_store_default
    sample_log_ops)) = sample_log_end.
Proof. vm_compute. reflexivity. Qed.

Lemma durable_log_refines_memory_witness :
  exists d, durable_log_open kv_get scan_prefix kv_new = Ok d /\
    let '(d', rd) := run_log (durable_log_step kv_get scan_prefix write_batch) d sample_log_ops in
    rd = replicate 8 (Ok ()) /\ durable_get_log_state d' = sample_log_end.
Proof.
  destruct (durable_log_refines_memory (H := model_raft) (get := kv_get) (scan := scan_prefix)
    (batch_commit := write_batch) model_serde_some kv_new sample_log_ops) as (d & Hd & Hrun).
  - split; reflexivity.
  - apply sample_log_ops_ok.
  - exists d. split; [exact Hd|].
    pose proof sample_log_outcomes as Eo. pose proof sample_log_state as Es.
    destruct (run_log (durable_log_step kv_get scan_prefix write_batch) d sample_log_ops).
    destruct (run_log mem_log_step _ _) as [ls' rs]. cbn [fst snd] in Eo, Es.
    destruct Hrun as (-> & -> & _). exact (conj Eo Es).
Defined.
