(* ===== verification/Catalog.v ===== *)
(** * The catalog (catalog/src/lib.rs, catalog/src/serde.rs)

    Table schemas, foreign wrappers, servers and user mappings: their stored
    form, and the operations that create, look up and drop them on a [MemKv].
    Lengths are written [as u32]; the loops over a stored count are [read_n]. *)
From Stdlib Require Import ZArith Lia.
From stdpp Require Import base list gmap strings sorting.
From S2P Require Import Prelude Keys Store Datum Mvcc.
Open Scope Z_scope.

(** ** Data *)

(** [catalog/src/lib.rs:20-23] Column *)
Record Column : Type := mkColumn { c_name : string; c_ty : ColumnType }.

(** [catalog/src/lib.rs:27-32] ForeignTableMeta *)
Record ForeignTableMeta : Type := mkForeignMeta {
  fm_server : string;
  fm_options : list (string * string)
}.

(** [catalog/src/lib.rs:36-40] ForeignDataWrapper *)
Record ForeignDataWrapper : Type := mkFdw {
  fdw_name : string;
  fdw_options : list (string * string)
}.

(** [catalog/src/lib.rs:44-50] ForeignServer *)
Record ForeignServer : Type := mkServer {
  srv_name : string;
  srv_wrapper : string;
  srv_options : list (string * string)
}.

(** [catalog/src/lib.rs:54-59] UserMapping *)
Record UserMapping : Type := mkUserMapping {
  um_user : string;
  um_server : string;
  um_options : list (string * string)
}.

(** [catalog/src/lib.rs:62-68] Table *)
Record Table : Type := mkTable {
  t_id : Z;
  t_name : string;
  t_columns : list Column;
  t_foreign : option ForeignTableMeta
}.

(** [catalog/src/lib.rs:72-74] Table::column_index *)
Fixpoint position_of (name : string) (cols : list Column) : option nat :=
  match cols with
  | [] => None
  | c :: cols => if decide (c_name c = name) then Some 0%nat
                 else S <$> position_of name cols
  end.
Definition column_index (t : Table) (name : string) : option nat :=
  position_of name (t_columns t).

(** [catalog/src/lib.rs:78-93] CatalogError *)
Inductive CatalogError : Type :=
| DuplicateTable (name : string)
| UndefinedTable (name : string)
| CatUndefinedColumn (name : string)
| DuplicateObject (name : string)
| UndefinedObject (name : string)
| Storage (e : KvError).

#[export] Instance CatalogError_eq_dec : EqDecision CatalogError.
Proof. solve_decision. Defined.

(** [catalog/src/lib.rs:96-106] CatalogError::sqlstate *)
Definition catalog_sqlstate (e : CatalogError) : string :=
  match e with
  | DuplicateTable _ => "42P07"
  | UndefinedTable _ => "42P01"
  | CatUndefinedColumn _ => "42703"
  | DuplicateObject _ => "42710"
  | UndefinedObject _ => "42704"
  | Storage (Io _) => "58030"
  | Storage (CorruptRow _) => "XX000"
  end.

(** ** Stored forms *)

(** [catalog/src/serde.rs:21-21] SCHEMA_VERSION *)
Definition SCHEMA_VERSION : Z := 2.

(** [catalog/src/serde.rs:318-324] take_u8 *)
Definition take_u8 (cur : bytes) : result KvError (Z * bytes) :=
  match cur with
  | [] => Err (CorruptRow "truncated schema")
  | h :: rest => Ok (h, rest)
  end.

(** [catalog/src/serde.rs:326-333] take_n *)
Definition take_n (cur : bytes) (n : Z) : result KvError (bytes * bytes) :=
  if Z.of_nat (length cur) <? n then Err (CorruptRow "truncated schema field")
  else Ok (take (Z.to_nat n) cur, drop (Z.to_nat n) cur).

(** [x.len() as u32] as big-endian bytes. *)
Definition len_u32 (n : nat) : bytes := be_bytes 4 (Z.of_nat n).

(** [catalog/src/serde.rs:52-90] write_type *)
Definition write_type (ty : ColumnType) : bytes :=
  match ty with
  | TBool => [0]
  | TInt4 => [1]
  | TInt8 => [2]
  | TText => [3]
  | TFloat8 => [4]
  | TNumeric (Some t) => [5; 1] ++ be_bytes 2 (precision t) ++ be_bytes 2 (scale t)
  | TNumeric None => [5; 0]
  | TDate => [6]
  | TTime => [7; 0]
  | TTimestamp => [8; 0]
  | TTimestamptz => [9; 0]
  | TInterval => [10; 0]
  | TBytea => [11]
  end.

(** A type whose reserved precision byte must be zero. *)
Definition read_reserved (ty : ColumnType) (cur : bytes)
  : result KvError (ColumnType * bytes) :=
  '(reserved, cur) ← take_u8 cur;
  if negb (reserved =? 0) then Err (CorruptRow "unsupported datetime precision")
  else Ok (ty, cur).

(** [catalog/src/serde.rs:93-146] read_type *)
Definition read_type (cur : bytes) : result KvError (ColumnType * bytes) :=
  '(tag, cur) ← take_u8 cur;
  match tag with
  | 0 => Ok (TBool, cur)
  | 1 => Ok (TInt4, cur)
  | 2 => Ok (TInt8, cur)
  | 3 => Ok (TText, cur)
  | 4 => Ok (TFloat8, cur)
  | 5 =>
      '(m, cur) ← take_u8 cur;
      if m =? 1 then
        '(p, cur) ← take_n cur 2;
        '(s, cur) ← take_n cur 2;
        Ok (TNumeric (Some (mkTypmod (be_val p) (be_val s))), cur)
      else Ok (TNumeric None, cur)
  | 6 => Ok (TDate, cur)
  | 7 => read_reserved TTime cur
  | 8 => read_reserved TTimestamp cur
  | 9 => read_reserved TTimestamptz cur
  | 10 => read_reserved TInterval cur
  | 11 => Ok (TBytea, cur)
  | other => Err (CorruptRow ("unknown column type tag " +:+ z_to_string other))
  end.

(** [catalog/src/serde.rs:150-153] write_str *)
Definition write_str (s : string) : bytes := len_u32 (String.length s) ++ str_bytes s.

(** [catalog/src/serde.rs:155-161] write_options *)
Definition write_options (opts : list (string * string)) : bytes :=
  len_u32 (length opts) ++ concat (map (fun o => write_str o.1 ++ write_str o.2) opts).

(** [catalog/src/serde.rs:163-166] read_str *)
Definition read_str (cur : bytes) : result KvError (bytes * bytes) :=
  '(len, cur) ← take_n cur 4;
  take_n cur (be_val len).

(** [catalog/src/serde.rs:168-172] read_string *)
Definition read_string (cur : bytes) : result KvError (string * bytes) :=
  '(b, cur) ← read_str cur;
  s ← ok_or (from_utf8 b) (CorruptRow "non-UTF-8 string in catalog");
  Ok (s, cur).

(** A loop that reads [n] items in sequence. *)
Fixpoint read_n {A} (item : bytes -> result KvError (A * bytes)) (n : nat) (cur : bytes)
  : result KvError (list A * bytes) :=
  match n with
  | O => Ok ([], cur)
  | S n =>
      '(x, cur) ← item cur;
      '(xs, cur) ← read_n item n cur;
      Ok (x :: xs, cur)
  end.

Definition read_option (cur : bytes) : result KvError ((string * string) * bytes) :=
  '(k, cur) ← read_string cur;
  '(v, cur) ← read_string cur;
  Ok ((k, v), cur).

(** [catalog/src/serde.rs:174-183] read_options *)
Definition read_options (cur : bytes) : result KvError (list (string * string) * bytes) :=
  '(n, cur) ← take_n cur 4;
  read_n read_option (Z.to_nat (be_val n)) cur.

Definition write_column (c : Column) : bytes := write_str (c_name c) ++ write_type (c_ty c).

(** [catalog/src/serde.rs:192-213] serialize_schema *)
Definition serialize_schema (table_id : Z) (columns : list Column)
    (meta : option ForeignTableMeta) : bytes :=
  SCHEMA_VERSION :: be_bytes 4 table_id ++ len_u32 (length columns) ++
  concat (map write_column columns) ++
  match meta with
  | None => [0]
  | Some m => 1 :: write_str (fm_server m) ++ write_options (fm_options m)
  end.

Definition read_column (cur : bytes) : result KvError (Column * bytes) :=
  '(name, cur) ← read_string cur;
  '(ty, cur) ← read_type cur;
  Ok (mkColumn name ty, cur).

(** [catalog/src/serde.rs:221-251] deserialize_schema *)
Definition deserialize_schema (b : bytes)
  : result KvError (Z * list Column * option ForeignTableMeta) :=
  '(version, cur) ← take_u8 b;
  if negb (version =? SCHEMA_VERSION)
  then Err (CorruptRow ("unknown schema version " +:+ z_to_string version))
  else
    '(table_id, cur) ← take_n cur 4;
    '(ncols, cur) ← take_n cur 4;
    '(columns, cur) ← read_n read_column (Z.to_nat (be_val ncols)) cur;
    '(flag, cur) ← take_u8 cur;
    match flag with
    | 0 => Ok (be_val table_id, columns, None)
    | 1 =>
        '(server, cur) ← read_string cur;
        '(options, cur) ← read_options cur;
        Ok (be_val table_id, columns, Some (mkForeignMeta server options))
    | flag => Err (CorruptRow ("unknown foreign flag " +:+ z_to_string flag))
    end.

(** [catalog/src/serde.rs:256-261] serialize_fdw *)
Definition serialize_fdw (name : string) (options : list (string * string)) : bytes :=
  write_str name ++ write_options options.

(** [catalog/src/serde.rs:263-268] deserialize_fdw *)
Definition deserialize_fdw (b : bytes) : result KvError ForeignDataWrapper :=
  '(name, cur) ← read_string b;
  '(options, _) ← read_options cur;
  Ok (mkFdw name options).

(** [catalog/src/serde.rs:273-279] serialize_server *)
Definition serialize_server (name wrapper : string) (options : list (string * string))
  : bytes := write_str name ++ write_str wrapper ++ write_options options.

(** [catalog/src/serde.rs:281-291] deserialize_server *)
Definition deserialize_server (b : bytes) : result KvError ForeignServer :=
  '(name, cur) ← read_string b;
  '(wrapper, cur) ← read_string cur;
  '(options, _) ← read_options cur;
  Ok (mkServer name wrapper options).

(** [catalog/src/serde.rs:296-302] serialize_user_mapping *)
Definition serialize_user_mapping (user server : string)
    (options : list (string * string)) : bytes :=
  write_str user ++ write_str server ++ write_options options.

(** [catalog/src/serde.rs:304-314] deserialize_user_mapping *)
Definition deserialize_user_mapping (b : bytes) : result KvError UserMapping :=
  '(user, cur) ← read_string b;
  '(server, cur) ← read_string cur;
  '(options, _) ← read_options cur;
  Ok (mkUserMapping user server options).

(** ** Operations *)

(** [catalog/src/lib.rs:380-389] read_next_table_id *)
Definition read_next_table_id (kv : MemKv) : result CatalogError Z :=
  match kv_get kv meta_next_table_id_key with
  | Some b =>
      if (length b <? 4)%nat then Err (Storage (CorruptRow "next_table_id is not u32"))
      else Ok (be_val (take 4 b))
  | None => Ok 1
  end.

(** The three writes of a new table. *)
Definition new_table_ops (name : string) (next : Z) (columns : list Column)
    (meta : option ForeignTableMeta) : list WriteOp :=
  [Put (catalog_key name) (serialize_schema next columns meta);
   Put (seq_key next) (be_bytes 8 1);
   Put meta_next_table_id_key (be_bytes 4 (next + 1))].

(** [catalog/src/lib.rs:114-138] create_table_ops *)
Definition create_table_ops (kv : MemKv) (name : string) (columns : list Column)
  : result CatalogError (Z * list WriteOp) :=
  if bool_decide (is_Some (kv_get kv (catalog_key name))) then Err (DuplicateTable name)
  else
    next ← read_next_table_id kv;
    Ok (next, new_table_ops name next columns None).

(** [catalog/src/lib.rs:142-150] create_table *)
Definition create_table (kv : MemKv) (name : string) (columns : list Column)
  : result CatalogError (Z * MemKv) :=
  '(next, batch) ← create_table_ops kv name columns;
  Ok (next, write_batch kv batch).

(** [catalog/src/lib.rs:153-164] get_table *)
Definition get_table (kv : MemKv) (name : string) : result CatalogError Table :=
  b ← ok_or (kv_get kv (catalog_key name)) (UndefinedTable name);
  '(id, columns, foreign) ← map_err Storage (deserialize_schema b);
  Ok (mkTable id name columns foreign).

(** [catalog/src/lib.rs:170-184] drop_table_ops *)
Definition drop_table_ops (kv : MemKv) (name : string) : result CatalogError (list WriteOp) :=
  table ← get_table kv name;
  Ok (Delete (catalog_key name) :: Delete (seq_key (t_id table)) ::
      map (fun e => Delete (fst e)) (scan_prefix kv (table_prefix (t_id table)))).

(** [catalog/src/lib.rs:188-192] drop_table *)
Definition drop_table (kv : MemKv) (name : string) : result CatalogError MemKv :=
  ops ← drop_table_ops kv name;
  Ok (write_batch kv ops).

(** [catalog/src/lib.rs:197-210] create_fdw *)
Definition create_fdw (kv : MemKv) (name : string) (options : list (string * string))
  : result CatalogError MemKv :=
  if bool_decide (is_Some (kv_get kv (fdw_key name))) then Err (DuplicateObject name)
  else Ok (write_batch kv [Put (fdw_key name) (serialize_fdw name options)]).

(** [catalog/src/lib.rs:213-218] get_fdw *)
Definition get_fdw (kv : MemKv) (name : string) : result CatalogError ForeignDataWrapper :=
  b ← ok_or (kv_get kv (fdw_key name)) (UndefinedObject name);
  map_err Storage (deserialize_fdw b).

(** [catalog/src/lib.rs:221-228] drop_fdw *)
Definition drop_fdw (kv : MemKv) (name : string) : result CatalogError MemKv :=
  _ ← get_fdw kv name;
  Ok (write_batch kv [Delete (fdw_key name)]).

(** [catalog/src/lib.rs:233-247] create_server *)
Definition create_server (kv : MemKv) (name wrapper : string)
    (options : list (string * string)) : result CatalogError MemKv :=
  if bool_decide (is_Some (kv_get kv (server_key name))) then Err (DuplicateObject name)
  else Ok (write_batch kv [Put (server_key name) (serialize_server name wrapper options)]).

(** [catalog/src/lib.rs:250-255] get_server *)
Definition get_server (kv : MemKv) (name : string) : result CatalogError ForeignServer :=
  b ← ok_or (kv_get kv (server_key name)) (UndefinedObject name);
  map_err Storage (deserialize_server b).

(** [catalog/src/lib.rs:258-264] drop_server *)
Definition drop_server (kv : MemKv) (name : string) : result CatalogError MemKv :=
  _ ← get_server kv name;
  Ok (write_batch kv [Delete (server_key name)]).

(** [catalog/src/lib.rs:269-283] create_user_mapping *)
Definition create_user_mapping (kv : MemKv) (user server : string)
    (options : list (string * string)) : result CatalogError MemKv :=
  if bool_decide (is_Some (kv_get kv (user_mapping_key user server)))
  then Err (DuplicateObject (user +:+ "@" +:+ server))
  else Ok (write_batch kv [Put (user_mapping_key user server)
                             (serialize_user_mapping user server options)]).

(** [catalog/src/lib.rs:286-295] get_user_mapping *)
Definition get_user_mapping (kv : MemKv) (user server : string)
  : result CatalogError UserMapping :=
  b ← ok_or (kv_get kv (user_mapping_key user server))
        (UndefinedObject (user +:+ "@" +:+ server));
  map_err Storage (deserialize_user_mapping b).

(** [catalog/src/lib.rs:298-304] drop_user_mapping *)
Definition drop_user_mapping (kv : MemKv) (user server : string)
  : result CatalogError MemKv :=
  _ ← get_user_mapping kv user server;
  Ok (write_batch kv [Delete (user_mapping_key user server)]).

(** [catalog/src/lib.rs:309-332] envelope_columns *)
Definition envelope_columns : list Column :=
  [mkColumn "_partition" TInt4; mkColumn "_offset" TInt8; mkColumn "_timestamp" TTimestamptz;
   mkColumn "_key" TBytea; mkColumn "_headers" TText].

(** [catalog/src/lib.rs:338-377] create_foreign_table *)
Definition create_foreign_table (kv : MemKv) (name : string) (value_columns : list Column)
    (server : string) (options : list (string * string)) : result CatalogError (Z * MemKv) :=
  _ ← get_server kv server;
  if bool_decide (is_Some (kv_get kv (catalog_key name))) then Err (DuplicateTable name)
  else
    next ← read_next_table_id kv;
    let columns := envelope_columns ++ value_columns in
    let meta := mkForeignMeta server options in
    Ok (next, write_batch kv (new_table_ops name next columns (Some meta))).

(** ** Reading back stored forms *)

Definition name_ok (s : string) : Prop := str_ok s /\ u32_ok (Z.of_nat (String.length s)).
Definition type_ok (ty : ColumnType) : Prop :=
  match ty with
  | TNumeric (Some t) => u16_ok (precision t) /\ u16_ok (scale t)
  | _ => True
  end.
Definition column_ok (c : Column) : Prop := name_ok (c_name c) /\ type_ok (c_ty c).
Definition options_ok (o : list (string * string)) : Prop :=
  u32_ok (Z.of_nat (length o)) /\ Forall (fun kv => name_ok kv.1 /\ name_ok kv.2) o.
Definition columns_ok (cs : list Column) : Prop :=
  u32_ok (Z.of_nat (length cs)) /\ Forall column_ok cs.
Definition foreign_ok (m : option ForeignTableMeta) : Prop :=
  match m with Some m => name_ok (fm_server m) /\ options_ok (fm_options m) | None => True end.

Lemma cat_take_n_app a rest n :
  Z.of_nat (length a) = n -> take_n (a ++ rest) n = Ok (a, rest).
Proof.
  intros <-. unfold take_n. rewrite length_app.
  destruct (Z.ltb_spec (Z.of_nat (length a + length rest)) (Z.of_nat (length a))); [lia|].
  by rewrite Nat2Z.id, take_app_length, drop_app_length.
Qed.

Lemma take_u32_be v rest :
  take_n (be_bytes 4 v ++ rest) 4 = Ok (be_bytes 4 v, rest).
Proof. apply cat_take_n_app. by rewrite be_bytes_length. Qed.

Lemma read_string_write s rest :
  name_ok s -> read_string (write_str s ++ rest) = Ok (s, rest).
Proof.
  intros [Hs Hl]. unfold read_string, read_str, write_str, len_u32. rewrite <- app_assoc.
  rewrite take_u32_be. rsimpl. rewrite be_val_be_bytes by exact Hl.
  rewrite cat_take_n_app by (by rewrite str_bytes_length). rsimpl.
  by rewrite from_utf8_str_bytes.
Qed.

Lemma read_type_write ty rest :
  type_ok ty -> read_type (write_type ty ++ rest) = Ok (ty, rest).
Proof.
  destruct ty as [| | | | |[[p s]|]| | | | | |]; try done.
  intros [Hp Hs]. cbn [precision scale] in Hp, Hs. unfold read_type, write_type.
  cbn [app take_u8 precision scale mbind result_bind]. cbn [Z.eqb Pos.eqb].
  rewrite <- app_assoc. rewrite cat_take_n_app by (by rewrite be_bytes_length). rsimpl.
  rewrite cat_take_n_app by (by rewrite be_bytes_length). rsimpl.
  by rewrite !be_val_be_bytes.
Qed.

(** A loop reads back a sequence whose items it reads back. *)
Lemma read_n_write {A} (item : bytes -> result KvError (A * bytes)) (w : A -> bytes)
    (ok : A -> Prop) xs rest :
  (forall x rest, ok x -> item (w x ++ rest) = Ok (x, rest)) -> Forall ok xs ->
  read_n item (length xs) (concat (map w xs) ++ rest) = Ok (xs, rest).
Proof.
  intros Hitem. induction 1 as [|x xs Hx _ IH]; simpl; [done|].
  rewrite <- app_assoc, Hitem by done. simpl. by rewrite IH.
Qed.

Lemma read_options_write o rest :
  options_ok o -> read_options (write_options o ++ rest) = Ok (o, rest).
Proof.
  intros [Hl Ho]. unfold read_options, write_options, len_u32. rewrite <- app_assoc.
  rewrite take_u32_be. rsimpl. rewrite be_val_be_bytes by exact Hl. rewrite Nat2Z.id.
  eapply (read_n_write read_option); [|exact Ho].
  intros [k v] r [Hk Hv]. unfold read_option. cbn [fst snd]. rewrite <- app_assoc.
  rewrite read_string_write by done. rsimpl. by rewrite read_string_write.
Qed.

Lemma read_column_write c rest :
  column_ok c -> read_column (write_column c ++ rest) = Ok (c, rest).
Proof.
  intros [Hn Ht]. unfold read_column, write_column. rewrite <- app_assoc.
  rewrite read_string_write by done. rsimpl. rewrite read_type_write by done.
  by destruct c.
Qed.

Lemma deserialize_serialize_schema id cols meta :
  u32_ok id -> columns_ok cols -> foreign_ok meta ->
  deserialize_schema (serialize_schema id cols meta) = Ok (id, cols, meta).
Proof.
  intros Hid [Hlen Hcols] Hmeta. unfold deserialize_schema, serialize_schema.
  cbn [take_u8 mbind result_bind]. change (SCHEMA_VERSION =? SCHEMA_VERSION) with true. rsimpl.
  rewrite take_u32_be. rsimpl. unfold len_u32. rewrite take_u32_be. rsimpl.
  rewrite !be_val_be_bytes by (exact Hlen || exact Hid). rewrite Nat2Z.id.
  rewrite (read_n_write read_column write_column column_ok)
    by (done || intros; by apply read_column_write).
  rsimpl. destruct meta as [[srv opts]|]; cbn [take_u8 mbind result_bind]; [|done].
  destruct Hmeta as [Hs Ho]. cbn [fm_server fm_options] in *.
  rewrite read_string_write by done. rsimpl.
  rewrite <- (app_nil_r (write_options opts)), read_options_write by done. done.
Qed.

Lemma deserialize_serialize_fdw n o :
  name_ok n -> options_ok o -> deserialize_fdw (serialize_fdw n o) = Ok (mkFdw n o).
Proof.
  intros Hn Ho. unfold deserialize_fdw, serialize_fdw.
  rewrite read_string_write by done. rsimpl.
  rewrite <- (app_nil_r (write_options o)), read_options_write by done. done.
Qed.

Lemma deserialize_serialize_server n w o :
  name_ok n -> name_ok w -> options_ok o ->
  deserialize_server (serialize_server n w o) = Ok (mkServer n w o).
Proof.
  intros Hn Hw Ho. unfold deserialize_server, serialize_server.
  rewrite read_string_write by done. rsimpl. rewrite read_string_write by done. rsimpl.
  rewrite <- (app_nil_r (write_options o)), read_options_write by done. done.
Qed.

Lemma deserialize_serialize_user_mapping u s o :
  name_ok u -> name_ok s -> options_ok o ->
  deserialize_user_mapping (serialize_user_mapping u s o) = Ok (mkUserMapping u s o).
Proof.
  intros Hu Hs Ho. unfold deserialize_user_mapping, serialize_user_mapping.
  rewrite read_string_write by done. rsimpl. rewrite read_string_write by done. rsimpl.
  rewrite <- (app_nil_r (write_options o)), read_options_write by done. done.
Qed.

(** ** Frames: which records an operation leaves alone *)

Lemma stored_key_ne k k' :
  stored_key_ok k -> stored_key_ok k' -> k <> k' -> stored_key k <> stored_key k'.
Proof. intros H H' Hne E. by apply Hne, stored_key_inj. Qed.

Lemma catalog_key_ne n n' : n <> n' -> catalog_key n <> catalog_key n'.
Proof. intros Hne. apply (stored_key_ne (KCatalog n) (KCatalog n')); naive_solver. Qed.

Lemma new_table_ops_get kv name next cols meta k :
  stored_key_ok k -> u32_ok next ->
  kv_get (write_batch kv (new_table_ops name next cols meta)) (stored_key k) =
    match k with
    | KCatalog n =>
        if decide (n = name) then Some (serialize_schema next cols meta)
        else kv_get kv (stored_key k)
    | KSeq t => if decide (t = next) then Some (be_bytes 8 1) else kv_get kv (stored_key k)
    | KNextTableId => Some (be_bytes 4 (next + 1))
    | _ => kv_get kv (stored_key k)
    end.
Proof.
  intros Hk Hn. rewrite kv_get_write_batch. unfold new_table_ops. cbn [last_write].
  change (catalog_key name) with (stored_key (KCatalog name)).
  change (seq_key next) with (stored_key (KSeq next)).
  change meta_next_table_id_key with (stored_key KNextTableId).
  destruct (decide (stored_key KNextTableId = stored_key k)) as [E|E].
  { by apply stored_key_inj in E as <-. }
  destruct (decide (stored_key (KSeq next) = stored_key k)) as [E'|E'].
  { apply stored_key_inj in E' as <-; [|done|done]. by rewrite decide_True. }
  destruct (decide (stored_key (KCatalog name) = stored_key k)) as [E''|E''].
  { apply stored_key_inj in E'' as <-; [|done|done]. by rewrite decide_True. }
  destruct k; try done; (case_decide; [by subst|done]).
Qed.

Lemma read_next_table_id_set kv v :
  u32_ok v -> kv_get kv meta_next_table_id_key = Some (be_bytes 4 v) ->
  read_next_table_id kv = Ok v.
Proof.
  intros Hv E. unfold read_next_table_id. rewrite E, be_bytes_length. simpl Nat.ltb.
  cbn iota. rewrite take_ge by (by rewrite be_bytes_length).
  by rewrite be_val_be_bytes.
Qed.

(** Tables have distinct ids below the counter, which starts at 1. *)
Record catalog_inv (kv : MemKv) : Prop := {
  inv_next : exists next, read_next_table_id kv = Ok next /\ u32_ok next /\ 1 <= next /\
    forall n t, get_table kv n = Ok t -> 1 <= t_id t < next;
  inv_distinct n n' t t' :
    get_table kv n = Ok t -> get_table kv n' = Ok t' -> t_id t = t_id t' -> n = n'
}.

Lemma get_table_same kv kv' n :
  kv_get kv' (catalog_key n) = kv_get kv (catalog_key n) -> get_table kv' n = get_table kv n.
Proof. intros E. unfold get_table. by rewrite E. Qed.

Lemma get_table_new kv name next cols meta :
  u32_ok next -> columns_ok cols -> foreign_ok meta ->
  get_table (write_batch kv (new_table_ops name next cols meta)) name =
    Ok (mkTable next name cols meta).
Proof.
  intros Hn Hc Hm. unfold get_table.
  pose proof (new_table_ops_get kv name next cols meta (KCatalog name) I Hn) as E.
  cbn [stored_key] in E. rewrite decide_True in E by done. rewrite E. rsimpl.
  by rewrite deserialize_serialize_schema.
Qed.

Lemma get_table_new_other kv name next cols meta n :
  u32_ok next -> n <> name ->
  get_table (write_batch kv (new_table_ops name next cols meta)) n = get_table kv n.
Proof.
  intros Hn Hne. apply get_table_same.
  pose proof (new_table_ops_get kv name next cols meta (KCatalog n) I Hn) as E.
  cbn [stored_key] in E. by rewrite decide_False in E.
Qed.

Lemma new_table_inv kv name next cols meta :
  catalog_inv kv -> kv_get kv (catalog_key name) = None ->
  read_next_table_id kv = Ok next -> u32_ok (next + 1) -> columns_ok cols ->
  foreign_ok meta ->
  catalog_inv (write_batch kv (new_table_ops name next cols meta)).
Proof.
  intros [(nx & Hnx & Hok & H1 & Hlt) Hd] Hnone Hr Hov Hc Hm.
  assert (nx = next) as -> by congruence.
  assert (forall n t, get_table (write_batch kv (new_table_ops name next cols meta)) n = Ok t ->
    (n = name /\ t_id t = next) \/ (n <> name /\ get_table kv n = Ok t)) as Hcase.
  { intros n t. destruct (decide (n = name)) as [->|Hne].
    - rewrite get_table_new by done. intros [= <-]. auto.
    - rewrite get_table_new_other by done. auto. }
  split.
  - exists (next + 1). split_and!; [|done|lia|].
    + apply read_next_table_id_set; [done|].
      by apply (new_table_ops_get kv name next cols meta KNextTableId I).
    + intros n t [[-> ->]|[_ Ht]]%Hcase; [lia|]. apply Hlt in Ht. lia.
  - intros n n' t t' [[-> E]|[_ Ht]]%Hcase [[-> E']|[_ Ht']]%Hcase Eid; [done|..].
    + apply Hlt in Ht'. lia.
    + apply Hlt in Ht. lia.
    + by eapply Hd.
Qed.

(** The row keys of a table carry its id. *)
Definition rows_ok (kv : MemKv) : Prop :=
  forall k v, kv_get kv k = Some v -> exists sk, stored_key_ok sk /\ k = stored_key sk.

Lemma drop_ops_get kv name t sk :
  rows_ok kv -> u32_ok (t_id t) -> t_id t <> SYSTEM_TABLE_ID -> stored_key_ok sk ->
  kv_get (write_batch kv
    (Delete (catalog_key name) :: Delete (seq_key (t_id t)) ::
     map (fun e => Delete (fst e)) (scan_prefix kv (table_prefix (t_id t)))))
    (stored_key sk) =
  match sk with
  | KCatalog n => if decide (n = name) then None else kv_get kv (stored_key sk)
  | KSeq i => if decide (i = t_id t) then None else kv_get kv (stored_key sk)
  | KVersion i _ _ => if decide (i = t_id t) then None else kv_get kv (stored_key sk)
  | _ => kv_get kv (stored_key sk)
  end.
Proof.
  intros Hrows Hid Hsys Hsk. set (id := t_id t) in *.
  rewrite kv_get_write_batch. cbn [last_write]. rewrite last_write_deletes.
  change (catalog_key name) with (stored_key (KCatalog name)).
  change (seq_key id) with (stored_key (KSeq id)).
  destruct (decide (stored_key sk ∈ (scan_prefix kv (table_prefix id)).*1)) as [Hin|Hin].
  { apply list_elem_of_fmap_1 in Hin as ([k v] & E & Hin). simpl in E. subst k.
    apply list_elem_of_In, In_scan_prefix in Hin as [_ Hp].
    apply table_prefix_only in Hp as (r & x & ->); [|done..]. by rewrite decide_True. }
  destruct (decide (stored_key (KSeq id) = stored_key sk)) as [E|E].
  { apply stored_key_inj in E as <-; [|done..]. by rewrite decide_True. }
  destruct (decide (stored_key (KCatalog name) = stored_key sk)) as [E'|E'].
  { apply stored_key_inj in E' as <-; [|done..]. by rewrite decide_True. }
  destruct sk as [i r x| | | | | | | | | | |]; try done; (case_decide as Ei; [subst|done]);
    try done.
  apply eq_None_not_Some. intros [v Hv]. apply Hin. apply list_elem_of_fmap.
  exists (stored_key (KVersion id r x), v). split; [done|].
  apply list_elem_of_In, In_scan_prefix. split; [done|]. cbn [fst stored_key].
  unfold version_key_xid, row_key. rewrite <- !app_assoc. apply starts_with_app.
Qed.

Definition drop_batch (kv : MemKv) (name : string) (id : Z) : list WriteOp :=
  Delete (catalog_key name) :: Delete (seq_key id) ::
  map (fun e => Delete (fst e)) (scan_prefix kv (table_prefix id)).

Lemma drop_batch_only_deletes kv name id k v :
  kv_get (write_batch kv (drop_batch kv name id)) k = Some v -> kv_get kv k = Some v.
Proof.
  rewrite kv_get_write_batch. unfold drop_batch. cbn [last_write].
  rewrite last_write_deletes. repeat case_decide; done.
Qed.

Lemma drop_batch_scan kv name t i :
  rows_ok kv -> u32_ok (t_id t) -> t_id t <> SYSTEM_TABLE_ID ->
  u32_ok i -> i <> SYSTEM_TABLE_ID ->
  scan_prefix (write_batch kv (drop_batch kv name (t_id t))) (table_prefix i) =
    if decide (i = t_id t) then [] else scan_prefix kv (table_prefix i).
Proof.
  intros Hrows Hid Hsys Hi Hi0.
  pose proof (fun sk => drop_ops_get kv name t sk Hrows Hid Hsys) as G.
  fold (drop_batch kv name (t_id t)) in G. case_decide as E.
  - destruct (scan_prefix _ _) as [|[k v] l] eqn:Es; [done|]. exfalso.
    assert (In (k, v) ((k, v) :: l)) as Hin by (by left). rewrite <- Es in Hin.
    apply In_scan_prefix in Hin as [Hg Hp].
    destruct (Hrows k v) as (sk & Hsk & ->); [by eapply drop_batch_only_deletes|].
    apply table_prefix_only in Hp as (r & x & ->); [|done..].
    rewrite G in Hg by done. by rewrite decide_True in Hg.
  - apply scan_prefix_ext. intros k Hp.
    destruct (kv_get kv k) as [v|] eqn:Ek.
    + destruct (Hrows k v Ek) as (sk & Hsk & ->).
      apply table_prefix_only in Hp as (r & x & ->); [|done..].
      rewrite G by done. by rewrite decide_False.
    + destruct (kv_get (write_batch _ _) k) as [v|] eqn:Ek'; [|done].
      apply drop_batch_only_deletes in Ek'. congruence.
Qed.

(** ** Claims *)

(** Schemas, wrappers, servers and user mappings survive storage: each
    deserializer reads back exactly what its serializer wrote, column types
    with their numeric modifiers and all options included. *)
Theorem catalog_forms_roundtrip id cols meta n w o :
  u32_ok id -> columns_ok cols -> foreign_ok meta -> name_ok n -> name_ok w -> options_ok o ->
  deserialize_schema (serialize_schema id cols meta) = Ok (id, cols, meta) /\
  deserialize_fdw (serialize_fdw n o) = Ok (mkFdw n o) /\
  deserialize_server (serialize_server n w o) = Ok (mkServer n w o) /\
  deserialize_user_mapping (serialize_user_mapping n w o) = Ok (mkUserMapping n w o).
Proof.
  intros. split_and!; auto using deserialize_serialize_schema, deserialize_serialize_fdw,
    deserialize_serialize_server, deserialize_serialize_user_mapping.
Qed.

(** CREATE TABLE on a name that is free allocates the next id, after which
    the table is found with its columns, every other table is found unchanged,
    and the catalog invariant (distinct ids, all below the counter) still holds;
    on a taken name it is refused with 42P07. *)
Theorem create_table_correct kv name cols next :
  catalog_inv kv -> read_next_table_id kv = Ok next -> u32_ok (next + 1) -> columns_ok cols ->
  match kv_get kv (catalog_key name) with
  | Some _ => create_table kv name cols = Err (DuplicateTable name)
  | None =>
      exists kv', create_table kv name cols = Ok (next, kv') /\
        get_table kv' name = Ok (mkTable next name cols None) /\
        (forall n, n <> name -> get_table kv' n = get_table kv n) /\
        catalog_inv kv'
  end.
Proof.
  intros Hinv Hr Hov Hc. pose proof Hinv as [(nx & Hnx & Hok & H1 & _) _].
  assert (nx = next) as -> by congruence.
  unfold create_table, create_table_ops.
  destruct (kv_get kv (catalog_key name)) as [b|] eqn:E; [done|].
  rewrite bool_decide_eq_false_2 by (by intros [? ?]). rewrite Hr. cbn [mbind result_bind].
  eexists. split; [reflexivity|]. split_and!.
  - by apply get_table_new.
  - intros n Hne. by apply get_table_new_other.
  - by eapply new_table_inv.
Qed.

(** DROP TABLE leaves nothing of the table: it is no longer found, its
    sequence is gone and the scan of its rows is empty, while every other
    table's schema and rows, and the catalog invariant, are untouched. *)
Theorem drop_table_correct kv name t :
  catalog_inv kv -> rows_ok kv -> get_table kv name = Ok t ->
  exists kv', drop_table kv name = Ok kv' /\
    get_table kv' name = Err (UndefinedTable name) /\
    kv_get kv' (seq_key (t_id t)) = None /\
    scan_prefix kv' (table_prefix (t_id t)) = [] /\
    (forall n t', n <> name -> get_table kv n = Ok t' ->
       get_table kv' n = Ok t' /\
       scan_prefix kv' (table_prefix (t_id t')) = scan_prefix kv (table_prefix (t_id t'))) /\
    catalog_inv kv'.
Proof.
  intros Hinv Hrows Ht. pose proof Hinv as [(nx & Hnx & Hok & H1 & Hlt) Hd].
  assert (forall n t', get_table kv n = Ok t' ->
    u32_ok (t_id t') /\ t_id t' <> SYSTEM_TABLE_ID) as Hu.
  { intros n t' Hn%Hlt. unfold SYSTEM_TABLE_ID. width_lia. }
  destruct (Hu _ _ Ht) as [Hu1 Hu2].
  pose proof (fun sk => drop_ops_get kv name t sk Hrows Hu1 Hu2) as G.
  unfold drop_table, drop_table_ops. rewrite Ht. cbn [mbind result_bind].
  fold (drop_batch kv name (t_id t)) in G |- *.
  eexists. split; [reflexivity|]. set (kv' := write_batch kv _) in *.
  assert (forall n, n <> name -> get_table kv' n = get_table kv n) as Hother.
  { intros n Hne. apply get_table_same. specialize (G (KCatalog n) I). cbn [stored_key] in G.
    by rewrite decide_False in G. }
  assert (get_table kv' name = Err (UndefinedTable name)) as Hgone.
  { unfold get_table. specialize (G (KCatalog name) I). cbn [stored_key] in G.
    rewrite decide_True in G by done. by rewrite G. }
  split_and!; [done| | | |].
  - specialize (G (KSeq (t_id t)) Hu1). cbn [stored_key] in G. by rewrite decide_True in G.
  - unfold kv'. rewrite drop_batch_scan by done. by rewrite decide_True.
  - intros n t' Hne Ht'. rewrite Hother by done. split; [done|].
    destruct (Hu _ _ Ht') as [Hu3 Hu4]. unfold kv'. rewrite drop_batch_scan by done.
    rewrite decide_False; [done|]. intros E. apply Hne. by eapply Hd.
  - split; [exists nx; split_and!; auto|intros n n' t1 t2].
    + unfold read_next_table_id. specialize (G KNextTableId I). cbn [stored_key] in G.
      by rewrite G.
    + intros n t' Hn. destruct (decide (n = name)) as [->|]; [congruence|].
      rewrite Hother in Hn by done. eauto.
    + destruct (decide (n = name)) as [->|]; [congruence|].
      destruct (decide (n' = name)) as [->|]; [congruence|]. rewrite !Hother by done. apply Hd.
Qed.

(** ** Witnesses *)

Definition sample_columns : list Column :=
  [mkColumn "id" TInt8; mkColumn "price" (TNumeric (Some (mkTypmod 10 2)))].

Lemma sample_columns_ok : columns_ok sample_columns.
Proof.
  split; [vm_compute; split; congruence|].
  constructor; [|constructor; [|constructor]]; repeat split; vm_compute; congruence.
Qed.

Lemma catalog_forms_roundtrip_witness :
  deserialize_schema (serialize_schema 3 sample_columns
    (Some (mkForeignMeta "srv" [("topic", "orders")]))) =
    Ok (3, sample_columns, Some (mkForeignMeta "srv" [("topic", "orders")])) /\
  deserialize_fdw (serialize_fdw "kafka" [("a", "b")]) = Ok (mkFdw "kafka" [("a", "b")]) /\
  deserialize_server (serialize_server "kafka" "srv" [("a", "b")]) =
    Ok (mkServer "kafka" "srv" [("a", "b")]) /\
  deserialize_user_mapping (serialize_user_mapping "kafka" "srv" [("a", "b")]) =
    Ok (mkUserMapping "kafka" "srv" [("a", "b")]).
Proof.
  apply (catalog_forms_roundtrip 3 sample_columns (Some (mkForeignMeta "srv" [("topic", "orders")]))
    "kafka" "srv" [("a", "b")]); try apply sample_columns_ok;
    repeat (split || constructor); vm_compute; congruence.
Defined.

Lemma empty_catalog_inv : catalog_inv kv_new.
Proof. split; [exists 1|]; [split_and!; try done|]; by intros. Qed.

Lemma create_table_correct_witness :
  match kv_get kv_new (catalog_key "t") with
  | Some _ => create_table kv_new "t" sample_columns = Err (DuplicateTable "t")
  | None =>
      exists kv', create_table kv_new "t" sample_columns = Ok (1, kv') /\
        get_table kv' "t" = Ok (mkTable 1 "t" sample_columns None) /\
        (forall n, n <> "t" -> get_table kv' n = get_table kv_new n) /\
        catalog_inv kv'
  end.
Proof.
  apply (create_table_correct kv_new "t" sample_columns 1 empty_catalog_inv eq_refl);
    [width_lia | apply sample_columns_ok].
Defined.

Definition sample_catalog : MemKv :=
  write_batch kv_new (new_table_ops "t" 1 sample_columns None).

Lemma sample_catalog_inv : catalog_inv sample_catalog.
Proof.
  apply new_table_inv; [apply empty_catalog_inv|reflexivity|reflexivity|width_lia
    |apply sample_columns_ok|exact I].
Qed.

Lemma sample_catalog_rows : rows_ok sample_catalog.
Proof.
  intros k v. unfold sample_catalog. rewrite kv_get_write_batch. unfold new_table_ops.
  cbn [last_write]. repeat case_decide; subst; try done; intros _;
    [exists KNextTableId|exists (KSeq 1)|exists (KCatalog "t")]; by split.
Qed.

Lemma drop_table_correct_witness :
  exists kv', drop_table sample_catalog "t" = Ok kv' /\
    get_table kv' "t" = Err (UndefinedTable "t") /\
    kv_get kv' (seq_key 1) = None /\
    scan_prefix kv' (table_prefix 1) = [] /\
    (forall n t', n <> "t" -> get_table sample_catalog n = Ok t' ->
       get_table kv' n = Ok t' /\
       scan_prefix kv' (table_prefix (t_id t')) =
       scan_prefix sample_catalog (table_prefix (t_id t'))) /\
    catalog_inv kv'.
Proof.
  apply (drop_table_correct sample_catalog "t" (mkTable 1 "t" sample_columns None)
    sample_catalog_inv sample_catalog_rows).
  reflexivity.
Defined.
