(* ===== verification/Errors.v ===== *)
(** * Errors (pgwire/src/error.rs, pgparser/src/error.rs, executor/src/error.rs)

    The error values of the layers and their SQLSTATEs on the wire. *)
From Stdlib Require Import ZArith Lia.
From stdpp Require Import base list gmap strings.
From S2P Require Import Prelude Keys Store Datum Catalog.
Open Scope Z_scope.

(** [pgwire/src/error.rs:19-24] Severity *)
Inductive Severity : Type := SevError | SevFatal.

(** [pgwire/src/error.rs:27-32] Severity::as_str *)
Definition severity_str (s : Severity) : string :=
  match s with SevError => "ERROR" | SevFatal => "FATAL" end.

(** [pgwire/src/error.rs:37-42] PgError *)
Record PgError : Type := mkPgError {
  pe_severity : Severity;
  pe_code : string;
  pe_message : string
}.

(** [pgwire/src/error.rs:45-51] PgError::error *)
Definition pg_error (code message : string) : PgError := mkPgError SevError code message.

(** [pgwire/src/error.rs:53-59] PgError::fatal *)
Definition pg_fatal (code message : string) : PgError := mkPgError SevFatal code message.

(** [pgwire/src/error.rs:62-64] PgError::protocol *)
Definition pg_protocol (message : string) : PgError := pg_fatal "08P01" message.

(** [pgparser/src/error.rs:12-18] ParseError *)
Record ParseError : Type := mkParseError {
  pa_message : string;
  pa_position : Z;
  pa_sqlstate : string
}.

(** [pgparser/src/error.rs:21-27] ParseError::new *)
Definition parse_error_new (message : string) (position : Z) : ParseError :=
  mkParseError ("syntax error at position " +:+ z_to_string position +:+ ": " +:+ message)
    position "42601".

(** [pgparser/src/error.rs:29-39] ParseError::new_sqlstate *)
Definition parse_error_sqlstate (sqlstate message : string) (position : Z) : ParseError :=
  mkParseError message position sqlstate.

(** [pgparser/src/error.rs:46-52] ParseError::too_deep *)
Definition parse_error_too_deep (position : Z) : ParseError :=
  mkParseError "stack depth limit exceeded" position "54001".

(** [pgparser/src/ast.rs:235-239] SetOp *)
Inductive SetOp : Type := Union | Intersect | Except.

(** [executor/src/error.rs:11-93] ExecError *)
Inductive ExecError : Type :=
| EParse (e : ParseError)
| ECatalog (e : CatalogError)
| EType (e : TypeError)
| EKv (e : KvError)
| EUndefinedColumn (c : string)
| EAmbiguousColumn (c : string)
| EMissingFromEntry (t : string)
| EDuplicateAlias (t : string)
| EUnsupported (m : string)
| ETypeMismatch (m : string)
| EGrouping (m : string)
| EUndefinedFunction (m : string)
| EWrongObjectType (m : string)
| ECardinalityViolation
| ESubqueryColumns
| ESyntax (m : string)
| EAmbiguousOrderBy (n : string)
| ESetOpColumnCount (op : SetOp) (left right : Z)
| EValuesColumnCount
| EDerivedColumnAliasCount (expected got : Z)
| EInvalidColumnReference (m : string)
| EInFailedTransaction
| ESerializationFailure
| EDeadlock
| ENotLeader
| EUnavailable
| EInvalidParameterValue (v : string)
| EUnrecognizedParameter (n : string)
| EStackDepthExceeded.

(** The Display that [thiserror] derives for [KvError] and [CatalogError]. *)
Definition kv_error_display (e : KvError) : string :=
  match e with
  | CorruptRow m => "corrupt row encoding: " +:+ m
  | Io m => "storage I/O error: " +:+ m
  end.
Definition quoted (s : string) : string := dquote +:+ s +:+ dquote.
Definition catalog_error_display (e : CatalogError) : string :=
  match e with
  | DuplicateTable n => "relation " +:+ quoted n +:+ " already exists"
  | UndefinedTable n => "relation " +:+ quoted n +:+ " does not exist"
  | CatUndefinedColumn n => "column " +:+ quoted n +:+ " does not exist"
  | DuplicateObject n => "object " +:+ quoted n +:+ " already exists"
  | UndefinedObject n => "object " +:+ quoted n +:+ " does not exist"
  | Storage e => "catalog storage error: " +:+ kv_error_display e
  end.

Definition set_op_name (op : SetOp) : string :=
  match op with Union => "UNION" | Intersect => "INTERSECT" | Except => "EXCEPT" end.

(** [executor/src/error.rs:96-182] ExecError::into_pg *)
Definition into_pg (e : ExecError) : PgError :=
  match e with
  | EParse e => pg_error (pa_sqlstate e) (pa_message e)
  | ECatalog e => pg_error (catalog_sqlstate e) (catalog_error_display e)
  | EType e => pg_error (sqlstate e) (type_error_display e)
  | EKv (Io m) => pg_error "58030" ("storage I/O error: " +:+ m)
  | EKv (CorruptRow m) => pg_error "XX000" ("corrupt storage: " +:+ m)
  | EUndefinedColumn c => pg_error "42703" ("column " +:+ quoted c +:+ " does not exist")
  | EAmbiguousColumn c =>
      pg_error "42702" ("column reference " +:+ quoted c +:+ " is ambiguous")
  | ECardinalityViolation =>
      pg_error "21000" "more than one row returned by a subquery used as an expression"
  | ESubqueryColumns => pg_error "42601" "subquery must return only one column"
  | ESyntax m => pg_error "42601" m
  | EAmbiguousOrderBy n => pg_error "42702" ("ORDER BY " +:+ quoted n +:+ " is ambiguous")
  | ESetOpColumnCount op _ _ =>
      pg_error "42601"
        ("each " +:+ set_op_name op +:+ " query must have the same number of columns")
  | EValuesColumnCount => pg_error "42601" "VALUES lists must all be the same length"
  | EDerivedColumnAliasCount expected got =>
      pg_error "42601" ("table has " +:+ z_to_string expected +:+ " columns available but "
        +:+ z_to_string got +:+ " columns specified")
  | EInvalidColumnReference m => pg_error "42P10" m
  | EMissingFromEntry t =>
      pg_error "42P01" ("missing FROM-clause entry for table " +:+ quoted t)
  | EDuplicateAlias t =>
      pg_error "42712" ("table name " +:+ quoted t +:+ " specified more than once")
  | EUnsupported m => pg_error "0A000" m
  | ETypeMismatch m => pg_error "42804" m
  | EGrouping m => pg_error "42803" m
  | EUndefinedFunction m => pg_error "42883" m
  | EWrongObjectType m => pg_error "42809" m
  | EInFailedTransaction =>
      pg_error "25P02"
        "current transaction is aborted, commands ignored until end of transaction block"
  | ESerializationFailure =>
      pg_error "40001" "could not serialize access due to concurrent update"
  | EDeadlock => pg_error "40P01" "deadlock detected"
  | ENotLeader => pg_error "40001" "could not complete: not the leader, retry"
  | EUnavailable => pg_error "08006" "connection failure: no quorum"
  | EInvalidParameterValue v =>
      pg_error "22023" ("invalid value for parameter: " +:+ quoted v)
  | EUnrecognizedParameter n =>
      pg_error "42704" ("unrecognized configuration parameter " +:+ quoted n)
  | EStackDepthExceeded => pg_error "54001" "stack depth limit exceeded"
  end.

(** Every executor error is a non-fatal error on the wire, with a SQLSTATE of
    five characters when the parser's and the domain's own codes have five. *)
Definition exec_error_code_ok (e : ExecError) : Prop :=
  match e with
  | EParse e => String.length (pa_sqlstate e) = 5%nat
  | EType (Domain s _) => String.length s = 5%nat
  | _ => True
  end.

Lemma into_pg_wellformed e :
  exec_error_code_ok e ->
  pe_severity (into_pg e) = SevError /\ String.length (pe_code (into_pg e)) = 5%nat.
Proof.
  destruct e as [| e | e | [] | | | | | | | | | | | | | | | | | | | | | | | | |];
    simpl; try done.
  - by destruct e as [| | | | |[]].
  - by destruct e.
Qed.
