(* ===== verification/Scope.v ===== *)
(** * Column scopes (executor/src/scope.rs)

    The ordered schema of a possibly joined relation, and the resolution of a
    column reference to its place in the combined row. *)
From Stdlib Require Import ZArith Lia.
From stdpp Require Import base list gmap strings.
From S2P Require Import Prelude Keys Store Datum Catalog Errors.
Open Scope Z_scope.

(** [executor/src/scope.rs:14-18] ColumnBinding *)
Record ColumnBinding : Type := mkBinding {
  b_qualifier : option string;
  b_name : string;
  b_ty : ColumnType
}.

#[export] Instance ColumnBinding_eq_dec : EqDecision ColumnBinding.
Proof. solve_decision. Defined.

(** [executor/src/scope.rs:22-24] Scope *)
Definition Scope : Type := list ColumnBinding.

(** [executor/src/scope.rs:28-32] Scope::empty *)
Definition scope_empty : Scope := [].

(** [executor/src/scope.rs:36-48] Scope::single *)
Definition scope_single (table : Table) (qualifier : string) : Scope :=
  map (fun c => mkBinding (Some qualifier) (c_name c) (c_ty c)) (t_columns table).

(** [executor/src/scope.rs:51-53] Scope::width *)
Definition scope_width (s : Scope) : nat := length s.

(** [executor/src/scope.rs:56-58] Scope::ty_at, the index panicking out of range *)
Definition ty_at (s : Scope) (idx : nat) : option ColumnType := b_ty <$> s !! idx.

Definition has_qualifier (q : string) (c : ColumnBinding) : bool :=
  bool_decide (b_qualifier c = Some q).

(** [qualifier.is_none_or(..) && c.name == name] *)
Definition binding_matches (qualifier : option string) (name : string) (c : ColumnBinding) : bool :=
  match qualifier with None => true | Some q => has_qualifier q c end &&
  bool_decide (b_name c = name).

(** The loop of [resolve] from column [i] on. *)
Fixpoint resolve_loop (qualifier : option string) (name : string) (i : nat) (cs : list ColumnBinding)
    (found : option nat) : result ExecError (option nat) :=
  match cs with
  | [] => Ok found
  | c :: cs =>
      if binding_matches qualifier name c then
        match found with
        | Some _ => Err (EAmbiguousColumn name)
        | None => resolve_loop qualifier name (S i) cs (Some i)
        end
      else resolve_loop qualifier name (S i) cs found
  end.

(** [executor/src/scope.rs:63-83] Scope::resolve *)
Definition resolve (s : Scope) (qualifier : option string) (name : string) : result ExecError nat :=
  if match qualifier with Some q => negb (existsb (has_qualifier q) s) | None => false end
  then Err (EMissingFromEntry (default "" qualifier))
  else
    found ← resolve_loop qualifier name 0 s None;
    ok_or found (EUndefinedColumn name).

(** ** What [resolve] decides *)

(** The places whose binding matches, in order. *)
Definition matching (qualifier : option string) (name : string) (s : Scope) : list nat :=
  filter (fun i => default false (binding_matches qualifier name <$> s !! i) = true)
    (seq 0 (length s)).

Lemma seq_filter_shift (P : nat -> bool) k n :
  filter (fun i => P i = true) (seq (S k) n) = S <$> filter (fun i => P (S i) = true) (seq k n).
Proof.
  revert k; induction n as [|n IH]; intros k; [done|]. cbn [seq].
  rewrite !filter_cons, IH. by case_decide.
Qed.

Lemma matching_cons q n c s :
  matching q n (c :: s) =
  (if binding_matches q n c then [0%nat] else []) ++ (S <$> matching q n s).
Proof.
  unfold matching. cbn [length seq]. rewrite filter_cons.
  rewrite (seq_filter_shift (fun i => default false (binding_matches q n <$> (c :: s) !! i)) 0).
  cbn [lookup list_lookup fmap option_fmap option_map default]. by destruct (binding_matches q n c).
Qed.

Lemma resolve_loop_found q n i cs f :
  resolve_loop q n i cs (Some f) =
  if decide (matching q n cs = []) then Ok (Some f) else Err (EAmbiguousColumn n).
Proof.
  revert i; induction cs as [|c cs IH]; intros i; [done|]. cbn [resolve_loop].
  rewrite matching_cons. destruct (binding_matches q n c); [done|]. rewrite IH. cbn [app].
  destruct (matching q n cs); by repeat case_decide.
Qed.

Lemma resolve_loop_spec q n i cs :
  resolve_loop q n i cs None =
  match matching q n cs with
  | [] => Ok None
  | [k] => Ok (Some (i + k)%nat)
  | _ => Err (EAmbiguousColumn n)
  end.
Proof.
  revert i; induction cs as [|c cs IH]; intros i; [done|]. cbn [resolve_loop].
  rewrite matching_cons. destruct (binding_matches q n c); cbn [app].
  - rewrite resolve_loop_found. destruct (matching q n cs); [|done]. cbn. by rewrite Nat.add_0_r.
  - rewrite IH. destruct (matching q n cs) as [|k [|? ?]]; [done| |done]. cbn. do 2 f_equal. lia.
Qed.

(** The outcome by the number of matching columns. *)
Lemma resolve_spec s q n :
  resolve s q n =
  match q with
  | Some t => if existsb (has_qualifier t) s
              then match matching q n s with
                   | [] => Err (EUndefinedColumn n)
                   | [k] => Ok k
                   | _ => Err (EAmbiguousColumn n)
                   end
              else Err (EMissingFromEntry t)
  | None => match matching q n s with
            | [] => Err (EUndefinedColumn n)
            | [k] => Ok k
            | _ => Err (EAmbiguousColumn n)
            end
  end.
Proof.
  unfold resolve. rewrite resolve_loop_spec.
  destruct q as [t|]; [destruct (existsb (has_qualifier t) s); [|done]|]; cbn [negb];
    by destruct (matching _ n s) as [|k [|? ?]].
Qed.

Lemma resolve_ok s q n k :
  resolve s q n = Ok k -> exists c, s !! k = Some c /\ binding_matches q n c = true.
Proof.
  intros E. assert (k ∈ matching q n s) as Hk.
  { rewrite resolve_spec in E. destruct q as [t|]; [destruct (existsb _ s); [|done]|];
      destruct (matching _ n s) as [|k' [|? ?]]; simplify_eq; set_solver. }
  unfold matching in Hk. apply list_elem_of_filter in Hk as [Hm _].
  destruct (s !! k) as [c|]; [|done]. eauto.
Qed.
