(* ===== verification/XidAlloc.v ===== *)
(** * Transaction and row ids (executor/src/procarray.rs, gtm.rs, seq.rs)

    The registry of running local transactions, the manager of global
    (cross-range) transaction ids and the row-id sequences. A mutex-guarded
    structure is a value its operations return updated; an operation that also
    writes the store returns the store. [+ 1] on a u64 counter is written
    without its wrap: the theorems bound the counters. *)
From Stdlib Require Import ZArith Lia.
From stdpp Require Import base list gmap strings sorting relations.
From S2P Require Import Prelude Keys Store Datum Mvcc StateMachine Catalog Errors.
Open Scope Z_scope.

(** [executor/src/lib.rs:52-55] PersistMode *)
Inductive PersistMode : Type := PDurable | PReplicated.

#[export] Instance PersistMode_eq_dec : EqDecision PersistMode.
Proof. solve_decision. Defined.

(** A stored u64 counter, [read_from_prefix]. *)
Definition read_u64 (b : bytes) (msg : string) : result ExecError Z :=
  match u64_be b with
  | Some v => Ok v
  | None => Err (EKv (CorruptRow msg))
  end.

(** The sorted contents of a [BTreeSet<u64>]. *)
Definition btree_list (s : gset Z) : list Z := merge_sort Z.le (elements s).

(** ** Running transactions *)

(** [executor/src/procarray.rs:18-21] Inner *)
Record ProcArray : Type := mkProcArray {
  next_xid : Z;
  running : gset Z;
  pa_mode : PersistMode
}.

(** [executor/src/procarray.rs:33-50] ProcArray::open *)
Definition procarray_open (kv : MemKv) (mode : PersistMode) : result ExecError ProcArray :=
  next ← match kv_get kv next_xid_key with
         | Some b => read_u64 b "next_xid is not u64"
         | None => Ok 1
         end;
  Ok (mkProcArray (Z.max next 1) ∅ mode).

(** [executor/src/procarray.rs:59-72] ProcArray::begin_write *)
Definition begin_write (pa : ProcArray) (kv : MemKv) : Z * ProcArray * MemKv :=
  let xid := next_xid pa in
  let new_next := xid + 1 in
  let kv := if decide (pa_mode pa = PDurable)
            then write_batch kv [Put next_xid_key (be_bytes 8 new_next)] else kv in
  (xid, mkProcArray new_next ({[xid]} ∪ running pa) (pa_mode pa), kv).

(** [executor/src/procarray.rs:76-88] ProcArray::reseed_from_applied *)
Definition procarray_reseed (pa : ProcArray) (kv : MemKv) : result ExecError ProcArray :=
  durable ← match kv_get kv next_xid_key with
            | Some b => read_u64 b "next_xid not u64"
            | None => Ok 1
            end;
  Ok (mkProcArray (Z.max (next_xid pa) (Z.max durable 1)) (running pa) (pa_mode pa)).

(** [executor/src/procarray.rs:92-98] ProcArray::next_xid_op *)
Definition next_xid_op (pa : ProcArray) : WriteOp :=
  Put next_xid_key (be_bytes 8 (next_xid pa)).

(** [executor/src/procarray.rs:109-115] ProcArray::snapshot *)
Definition procarray_snapshot (pa : ProcArray) : Snapshot :=
  let xip := btree_list (running pa) in
  let xmax := next_xid pa in
  mkSnapshot (default xmax (head xip)) xmax xip.

(** [executor/src/procarray.rs:119-121] ProcArray::finish *)
Definition procarray_finish (pa : ProcArray) (xid : Z) : ProcArray :=
  mkProcArray (next_xid pa) (running pa ∖ {[xid]}) (pa_mode pa).

(** ** Global transactions *)

(** [executor/src/gtm.rs:18-21] Inner *)
Record Gtm : Type := mkGtm { next_global : Z; g_running : gset Z }.

(** [executor/src/gtm.rs:35-45] read_next_global *)
Definition read_next_global (kv : MemKv) : result ExecError Z :=
  next ← match kv_get kv meta_next_global_xid_key with
         | Some b => read_u64 b "next_global_xid not u64"
         | None => Ok GLOBAL_XID_BASE
         end;
  Ok (Z.max next GLOBAL_XID_BASE).

(** [executor/src/gtm.rs:48-57] Gtm::open *)
Definition gtm_open (kv : MemKv) : result ExecError Gtm :=
  next ← read_next_global kv; Ok (mkGtm next ∅).

(** [executor/src/gtm.rs:59-65] Gtm::begin_global *)
Definition begin_global (g : Gtm) : Z * Gtm :=
  let xid := next_global g in
  (xid, mkGtm (xid + 1) ({[xid]} ∪ g_running g)).

(** [executor/src/gtm.rs:67-73] Gtm::next_global_xid_op *)
Definition next_global_xid_op (g : Gtm) : WriteOp :=
  Put meta_next_global_xid_key (be_bytes 8 (next_global g)).

(** [executor/src/gtm.rs:75-87] Gtm::reseed_from_applied *)
Definition gtm_reseed (g : Gtm) (kv : MemKv) : result ExecError Gtm :=
  durable ← match kv_get kv meta_next_global_xid_key with
            | Some b => read_u64 b "next_global_xid not u64"
            | None => Ok GLOBAL_XID_BASE
            end;
  Ok (mkGtm (Z.max (next_global g) (Z.max durable GLOBAL_XID_BASE)) (g_running g)).

(** [executor/src/gtm.rs:92-101] Gtm::global_snapshot *)
Definition global_snapshot (g : Gtm) : Snapshot :=
  let xip := btree_list (g_running g) in
  let xmax := next_global g in
  mkSnapshot (default xmax (head xip)) xmax xip.

(** [executor/src/gtm.rs:103-105] Gtm::finish_global *)
Definition gtm_finish_global (g : Gtm) (x : Z) : Gtm :=
  mkGtm (next_global g) (g_running g ∖ {[x]}).

(** ** Row-id sequences *)

(** [executor/src/exec.rs:45-54] read_seq_kv *)
Definition read_seq_kv (kv : MemKv) (table : Z) : result ExecError Z :=
  match kv_get kv (seq_key table) with
  | Some b => read_u64 b "sequence is not u64"
  | None => Ok 1
  end.

(** [executor/src/seq.rs:17-20] SequenceManager *)
Record SequenceManager : Type := mkSeq { sq_next : gmap Z Z; sq_mode : PersistMode }.

(** [executor/src/seq.rs:23-28] SequenceManager::new *)
Definition seq_new (mode : PersistMode) : SequenceManager := mkSeq ∅ mode.

(** [executor/src/seq.rs:37-64] SequenceManager::alloc *)
Definition seq_alloc (sq : SequenceManager) (kv : MemKv) (table count : Z)
  : result ExecError (Z * option WriteOp * SequenceManager * MemKv) :=
  next ← match sq_next sq !! table with
         | Some n => Ok n
         | None => read_seq_kv kv table
         end;
  let new_next := next + count in
  let op := Put (seq_key table) (be_bytes 8 new_next) in
  let sq' := mkSeq (<[table := new_next]> (sq_next sq)) (sq_mode sq) in
  Ok match sq_mode sq with
     | PDurable => (next, None, sq', write_batch kv [op])
     | PReplicated => (next, Some op, sq', kv)
     end.

(** [executor/src/seq.rs:68-70] SequenceManager::reseed_from_applied *)
Definition seq_reseed (sq : SequenceManager) : SequenceManager := mkSeq ∅ (sq_mode sq).

(** [executor/src/commit.rs:25-28] LocalCommitter::commit *)
Definition local_commit (kv : MemKv) (ops : list WriteOp) : MemKv := write_batch kv ops.

(** ** Snapshots *)

Lemma btree_list_sorted s : StronglySorted Z.le (btree_list s).
Proof. apply StronglySorted_merge_sort; apply _. Qed.

Lemma elem_of_btree_list s x : In x (btree_list s) <-> x ∈ s.
Proof.
  rewrite <- list_elem_of_In. unfold btree_list.
  by rewrite (merge_sort_Permutation Z.le (elements s)), elem_of_elements.
Qed.

Lemma procarray_snapshot_ok pa : snapshot_ok (procarray_snapshot pa).
Proof. apply btree_list_sorted. Qed.

(** What a snapshot counts as finished is what was handed out and deregistered. *)
Lemma procarray_snapshot_running pa x :
  is_running (procarray_snapshot pa) x = false <-> x < next_xid pa /\ x ∉ running pa.
Proof.
  rewrite is_running_false by apply procarray_snapshot_ok. simpl.
  by rewrite elem_of_btree_list.
Qed.

Lemma global_snapshot_running g x :
  is_running (global_snapshot g) x = false <-> x < next_global g /\ x ∉ g_running g.
Proof.
  rewrite is_running_false by apply btree_list_sorted. simpl.
  by rewrite elem_of_btree_list.
Qed.

(** ** Transaction ids over restarts, single node *)

Record PaSys : Type := mkPaSys { ps_pa : ProcArray; ps_kv : MemKv; ps_handed : list Z }.

(** One node in [Durable] mode: sessions begin and finish writes and commit
    batches that do not touch the counter, and the process may crash and reopen
    at any point. *)
Inductive pa_step : PaSys -> PaSys -> Prop :=
| pa_begin pa kv h x pa' kv' :
    next_xid pa + 1 < 2 ^ 64 -> begin_write pa kv = (x, pa', kv') ->
    pa_step (mkPaSys pa kv h) (mkPaSys pa' kv' (x :: h))
| pa_finish pa kv h x :
    pa_step (mkPaSys pa kv h) (mkPaSys (procarray_finish pa x) kv h)
| pa_commit pa kv h ops :
    (forall op, In op ops -> op_key op <> next_xid_key) ->
    pa_step (mkPaSys pa kv h) (mkPaSys pa (local_commit kv ops) h)
| pa_restart pa kv h pa' :
    procarray_open kv PDurable = Ok pa' ->
    pa_step (mkPaSys pa kv h) (mkPaSys pa' kv h).

Record pa_inv (s : PaSys) : Prop := {
  pai_open : procarray_open (ps_kv s) PDurable
             = Ok (mkProcArray (next_xid (ps_pa s)) ∅ PDurable);
  pai_mode : pa_mode (ps_pa s) = PDurable;
  pai_one : 1 <= next_xid (ps_pa s);
  pai_handed : Forall (fun x => 1 <= x < next_xid (ps_pa s)) (ps_handed s);
  pai_nodup : NoDup (ps_handed s);
  pai_running : forall x, x ∈ running (ps_pa s) -> x ∈ ps_handed s
}.

Lemma procarray_open_put kv n mode :
  1 <= n < 2 ^ 64 ->
  procarray_open (write_batch kv [Put next_xid_key (be_bytes 8 n)]) mode
  = Ok (mkProcArray n ∅ mode).
Proof.
  intros Hn. unfold procarray_open, read_u64. rewrite kv_get_write_batch.
  cbn [last_write]. rewrite decide_True by done.
  rewrite u64_be_be_bytes by lia. cbn [mbind result_bind]. by rewrite Z.max_l by lia.
Qed.

Lemma pa_step_inv s s' : pa_step s s' -> pa_inv s -> pa_inv s'.
Proof.
  intros Hst [Ho Hm H1 Hh Hn Hr]. destruct Hst as [pa kv h x pa' kv' Hb E| | |pa kv h pa' E];
    simpl in *.
  - unfold begin_write in E. rewrite decide_True in E by done. simplify_eq.
    split; cbn [ps_pa ps_kv ps_handed next_xid running pa_mode]; try done; try lia.
    + apply procarray_open_put. lia.
    + constructor; [lia|]. eapply Forall_impl; [exact Hh|]. simpl. lia.
    + constructor; [|done]. intros Hx. rewrite Forall_forall in Hh. apply Hh in Hx. lia.
    + set_solver.
  - split; simpl; try done. set_solver.
  - split; simpl; try done. unfold local_commit, procarray_open.
    by rewrite kv_get_write_batch_other.
  - rewrite Ho in E. simplify_eq. split; simpl; try done.
Qed.

Lemma pa_reachable_inv s s' : rtc pa_step s s' -> pa_inv s -> pa_inv s'.
Proof. induction 1; eauto using pa_step_inv. Qed.

Lemma procarray_open_inv kv pa :
  procarray_open kv PDurable = Ok pa -> pa_inv (mkPaSys pa kv []).
Proof.
  intros E. pose proof E as E'. unfold procarray_open in E.
  apply bind_Ok in E as (n & _ & E). simplify_eq.
  split; simpl; try done; first [lia | apply NoDup_nil_2 | set_solver].
Qed.

(** C27: On a single node no transaction id is ever handed out twice, over any
    interleaving of begins, finishes, commit batches that leave the counter
    alone and crash-restarts; and reopening always succeeds, past every id
    handed out so far. *)
Theorem xids_never_reused kv pa s :
  procarray_open kv PDurable = Ok pa ->
  rtc pa_step (mkPaSys pa kv []) s ->
  NoDup (ps_handed s) /\
  exists pa', procarray_open (ps_kv s) PDurable = Ok pa' /\
    forall x, x ∈ ps_handed s -> 1 <= x < next_xid pa'.
Proof.
  intros E%procarray_open_inv Hs.
  destruct (pa_reachable_inv _ _ Hs E) as [Ho _ _ Hh Hn _].
  split; [done|]. eexists. split; [exact Ho|]. simpl. by apply Forall_forall.
Qed.

(** ** Row ids over restarts, single node *)

Record SeqSys : Type := mkSeqSys {
  ss_seq : SequenceManager; ss_kv : MemKv; ss_handed : list (Z * Z)
}.

(** The ids one allocation hands out. *)
Definition handed_ids (table first count : Z) : list (Z * Z) :=
  (fun r => (table, r)) <$> seqZ first count.

(** Sessions reserve ids and commit batches that touch no sequence; the manager
    may lose its cache, by a restart or a leadership change. *)
Inductive seq_step : SeqSys -> SeqSys -> Prop :=
| seq_do_alloc sq kv h table count first folded sq' kv' :
    u32_ok table -> 0 <= count -> 0 <= first -> first + count < 2 ^ 64 ->
    seq_alloc sq kv table count = Ok (first, folded, sq', kv') ->
    seq_step (mkSeqSys sq kv h) (mkSeqSys sq' kv' (handed_ids table first count ++ h))
| seq_commit sq kv h ops :
    (forall op t, In op ops -> u32_ok t -> op_key op <> seq_key t) ->
    seq_step (mkSeqSys sq kv h) (mkSeqSys sq (local_commit kv ops) h)
| seq_restart sq kv h :
    seq_step (mkSeqSys sq kv h) (mkSeqSys (seq_new PDurable) kv h)
| seq_lose_cache sq kv h :
    seq_step (mkSeqSys sq kv h) (mkSeqSys (seq_reseed sq) kv h).

Record seq_inv (s : SeqSys) : Prop := {
  si_mode : sq_mode (ss_seq s) = PDurable;
  si_cache : forall t n, u32_ok t -> sq_next (ss_seq s) !! t = Some n ->
             read_seq_kv (ss_kv s) t = Ok n;
  si_handed : forall t r, (t, r) ∈ ss_handed s -> u32_ok t /\
              exists n, read_seq_kv (ss_kv s) t = Ok n /\ r < n;
  si_nodup : NoDup (ss_handed s)
}.

Lemma seq_key_inj t t' : u32_ok t -> u32_ok t' -> seq_key t = seq_key t' -> t = t'.
Proof. intros H H' E. by apply (stored_key_inj (KSeq t) (KSeq t')) in E as [= ?]. Qed.

Lemma read_seq_kv_put kv t n t' :
  u32_ok t -> u32_ok t' -> 0 <= n < 2 ^ 64 ->
  read_seq_kv (write_batch kv [Put (seq_key t) (be_bytes 8 n)]) t'
  = if decide (t = t') then Ok n else read_seq_kv kv t'.
Proof.
  intros Ht Ht' Hn. unfold read_seq_kv. rewrite kv_get_write_batch. cbn [last_write].
  case_decide as Ek; case_decide as Et; subst; try done.
  - unfold read_u64. by rewrite u64_be_be_bytes by lia.
  - by apply seq_key_inj in Ek.
Qed.

Lemma elem_of_handed_ids t r table first count :
  (t, r) ∈ handed_ids table first count <-> t = table /\ first <= r < first + count.
Proof.
  unfold handed_ids. rewrite list_elem_of_fmap. setoid_rewrite elem_of_seqZ. naive_solver.
Qed.

Lemma handed_ids_nodup table first count : NoDup (handed_ids table first count).
Proof. apply NoDup_fmap_2; [|apply NoDup_seqZ]. by intros ?? [= ?]. Qed.

(** In [Durable] mode an allocation starts at the durable value and moves it. *)
Lemma seq_alloc_durable sq kv table count first folded sq' kv' :
  sq_mode sq = PDurable ->
  (forall n, sq_next sq !! table = Some n -> read_seq_kv kv table = Ok n) ->
  seq_alloc sq kv table count = Ok (first, folded, sq', kv') ->
  read_seq_kv kv table = Ok first /\
  sq' = mkSeq (<[table := first + count]> (sq_next sq)) PDurable /\
  kv' = write_batch kv [Put (seq_key table) (be_bytes 8 (first + count))].
Proof.
  intros Hm Hc E. unfold seq_alloc in E. rewrite Hm in E.
  apply bind_Ok in E as (n & En & E). simplify_eq. repeat split.
  destruct (sq_next sq !! table); [|done]. simplify_eq. by apply Hc.
Qed.

Lemma seq_step_inv s s' : seq_step s s' -> seq_inv s -> seq_inv s'.
Proof.
  intros Hst [Hm Hc Hh Hn].
  destruct Hst as [sq kv h table count first folded sq' kv' Ht Hct Hf Hb E|
                   sq kv h ops Hops| |]; simpl in *.
  - apply seq_alloc_durable in E as (Er & -> & ->); [|done|by eauto].
    split; cbn [ss_seq ss_kv ss_handed sq_mode sq_next]; [done| | |].
    + intros t n Htok. rewrite read_seq_kv_put by (done || lia).
      destruct (decide (table = t)) as [->|Hne].
      * rewrite lookup_insert_eq. by intros [= ->].
      * rewrite lookup_insert_ne by done. by apply Hc.
    + intros t r [[-> Hr]%elem_of_handed_ids|Hin]%elem_of_app.
      * split; [done|]. eexists. rewrite read_seq_kv_put, decide_True by (done || lia).
        split; [done|lia].
      * destruct (Hh t r Hin) as (Htok & n & En & Hr). split; [done|].
        destruct (decide (table = t)) as [->|Hne].
        -- eexists. rewrite read_seq_kv_put, decide_True by (done || lia).
           rewrite Er in En. simplify_eq. split; [done|lia].
        -- exists n. by rewrite read_seq_kv_put, decide_False by (done || lia).
    + apply NoDup_app. split_and!; [apply handed_ids_nodup| |done].
      intros [t r] [-> Hr]%elem_of_handed_ids Hin.
      apply Hh in Hin as (_ & n & En & ?). rewrite Er in En. simplify_eq. lia.
  - assert (forall t, u32_ok t -> read_seq_kv (local_commit kv ops) t = read_seq_kv kv t) as Hsame.
    { intros t Ht. unfold read_seq_kv, local_commit.
      by rewrite kv_get_write_batch_other by (intros; by apply Hops). }
    split; simpl; try done.
    + intros t n Ht. rewrite Hsame by done. by apply Hc.
    + intros t r Hin. destruct (Hh t r Hin) as [Ht Hr]. by rewrite Hsame.
  - split; simpl; try done.
  - split; simpl; try done.
Qed.

(** On a single node no row id of a table is handed out twice, over any
    interleaving of reservations of any size, commit batches that leave the
    sequences alone, restarts and losses of the cache. *)
Theorem rowids_never_reused kv s :
  rtc seq_step (mkSeqSys (seq_new PDurable) kv []) s -> NoDup (ss_handed s).
Proof.
  intros Hs. apply si_nodup.
  enough (seq_inv (mkSeqSys (seq_new PDurable) kv [])) as Hi
    by (clear - Hs Hi; induction Hs; eauto using seq_step_inv).
  split; simpl; [done|done| |apply NoDup_nil_2]. by intros ?? ?%elem_of_nil.
Qed.

(** ** Transaction ids over a change of leader *)

(** The counter is at least what an applied update of it carries. *)
Lemma counter_put_ge kv k v kv' :
  kv_bytes_ok kv -> is_counter_key k = true -> u64_ok v ->
  apply_op kv (Put k (be_bytes 8 v)) = Some kv' -> v <= counter_val kv' k.
Proof.
  intros Hkv Hk Hv E. cbn [apply_op] in E. rewrite Hk, u64_be_be_bytes in E by done.
  cbn [mbind option_bind] in E. apply bind_Some in E as (e & Ee & E). simplify_eq.
  assert (u64_ok e) as He.
  { destruct (kv_get kv k) eqn:Eb; simplify_eq; [|unfold_widths; lia].
    eapply u64_be_range; [by eapply Hkv|done]. }
  unfold counter_val. rewrite kv_get_put, decide_True by done.
  rewrite u64_be_be_bytes by (unfold_widths; lia). simpl. lia.
Qed.

Lemma counter_val_Some kv k : 0 < counter_val kv k ->
  exists b, kv_get kv k = Some b /\ u64_be b = Some (counter_val kv k).
Proof.
  unfold counter_val. destruct (kv_get kv k) as [b|]; [|lia].
  destruct (u64_be b) eqn:E; simpl; [|lia]. eauto.
Qed.

(** C28: In [Replicated] mode a transaction id whose commit batch is in the log
    is never handed out again: a node that applied the batch, and any entries
    after it that do not delete the counter, reseeds successfully past the id
    when it becomes leader. *)
Theorem replicated_xid_survives_failover pa kvl x pa' kvl' later kv ops more kv' follower :
  begin_write pa kvl = (x, pa', kvl') -> 0 <= next_xid pa ->
  next_xid pa' <= next_xid later < 2 ^ 64 ->
  kv_bytes_ok kv -> Forall op_bytes_ok ops -> Forall op_bytes_ok more ->
  ~ deletes next_xid_key more ->
  apply_ops kv (ops ++ next_xid_op later :: more) = Some kv' ->
  exists leader, procarray_reseed follower kv' = Ok leader /\
    x < next_xid leader /\ next_xid follower <= next_xid leader.
Proof.
  intros Hb Hpos Hl Hkv Hops Hmore Hnd E.
  assert (x + 1 = next_xid pa' /\ 0 <= x) as [Hx Hx0]
    by (unfold begin_write in Hb; simplify_eq; simpl; lia).
  rewrite apply_ops_app in E. apply bind_Some in E as (kv1 & E1 & E).
  cbn [apply_ops] in E. apply bind_Some in E as (kv2 & E2 & E3).
  assert (kv_bytes_ok kv1) as Hkv1 by (eapply apply_ops_bytes_ok; [exact Hkv|exact Hops|exact E1]).
  assert (op_bytes_ok (next_xid_op later)) as Hop by apply be_bytes_ok.
  assert (is_counter_key next_xid_key = true) as Hc by done.
  assert (next_xid later <= counter_val kv2 next_xid_key) as H2.
  { eapply counter_put_ge; [exact Hkv1|done| |exact E2]. unfold_widths. lia. }
  assert (counter_val kv2 next_xid_key <= counter_val kv' next_xid_key) as H3.
  { eapply counter_monotone; [|exact Hmore|..]; [|done|done|exact E3].
    eapply apply_op_bytes_ok; [exact Hkv1|exact Hop|exact E2]. }
  destruct (counter_val_Some kv' next_xid_key) as (b & Eb & Ev); [lia|].
  unfold procarray_reseed, read_u64. rewrite Eb, Ev. cbn [mbind result_bind].
  eexists. split; [reflexivity|]. simpl. lia.
Qed.

(** ** Global ids *)

(** Two overlapping [begin_global_durable] calls can lose an id: when the
    update of the second (larger) one is applied before the first's, a node
    that then opens the manager hands the second id out again, although its
    first holder was told it is durable. *)
Theorem global_xid_reused kv g x1 g1 x2 g2 :
  0 <= next_global g -> next_global g + 2 < 2 ^ 64 -> GLOBAL_XID_BASE <= next_global g ->
  begin_global g = (x1, g1) -> begin_global g1 = (x2, g2) ->
  exists kv' fresh, apply_ops kv [next_global_xid_op g2; next_global_xid_op g1] = Some kv' /\
    gtm_open kv' = Ok fresh /\ fst (begin_global fresh) = x2 /\ x1 <> x2.
Proof.
  intros Hp Hb Hbase E1 E2. unfold begin_global in E1, E2. simplify_eq.
  destruct next_global_xid_not_counter as [Hc Hl].
  unfold next_global_xid_op. cbn [apply_ops apply_op next_global]. rewrite Hc, Hl.
  cbn [mbind option_bind]. do 2 eexists. split; [reflexivity|].
  unfold gtm_open, read_next_global, read_u64.
  rewrite kv_get_put, decide_True by done.
  rewrite u64_be_be_bytes by lia. cbn [mbind result_bind].
  split; [reflexivity|]. simpl. rewrite Z.max_l by lia. lia.
Qed.

(** Without overlap the global ids are sound: once the update of a
    [begin_global_durable] is the last applied to the counter, a node that opens
    or reseeds the manager from that store only hands out larger ids. *)
Theorem global_xid_serial_fresh kv g x g1 ops kv' g' :
  begin_global g = (x, g1) -> 0 <= x -> x + 1 < 2 ^ 64 ->
  (forall op, In op ops -> op_key op <> meta_next_global_xid_key) ->
  apply_ops kv (next_global_xid_op g1 :: ops) = Some kv' ->
  exists fresh reseeded, gtm_open kv' = Ok fresh /\ gtm_reseed g' kv' = Ok reseeded /\
    x < fst (begin_global fresh) /\ x < fst (begin_global reseeded).
Proof.
  intros Hb Hx Hx' Hops E. unfold begin_global in Hb. simplify_eq.
  destruct next_global_xid_not_counter as [Hc Hl].
  cbn [apply_ops] in E. apply bind_Some in E as (kv1 & E1 & E).
  unfold next_global_xid_op in E1. cbn [apply_op next_global] in E1. rewrite Hc, Hl in E1.
  simplify_eq.
  assert (kv_get kv' meta_next_global_xid_key = Some (be_bytes 8 (next_global g + 1))) as Eg.
  { erewrite apply_ops_other by (exact E || exact Hops). by rewrite kv_get_put, decide_True. }
  unfold gtm_open, gtm_reseed, read_next_global, read_u64. rewrite Eg.
  rewrite u64_be_be_bytes by lia. cbn [mbind result_bind].
  do 2 eexists. split_and!; [reflexivity..| |]; simpl; lia.
Qed.

(** ** Concrete runs *)

Definition sample_pa : ProcArray := mkProcArray 1 ∅ PDurable.

(** Begin, crash, reopen, begin. *)
Lemma xids_never_reused_witness :
  exists s, rtc pa_step (mkPaSys sample_pa kv_new []) s /\ ps_handed s = [2; 1] /\
    NoDup (ps_handed s).
Proof.
  pose (r := begin_write sample_pa kv_new). pose (pa1 := mkProcArray 2 ∅ PDurable).
  pose (r2 := begin_write pa1 r.2).
  assert (rtc pa_step (mkPaSys sample_pa kv_new []) (mkPaSys r2.1.2 r2.2 [2; 1])) as Hr.
  { eapply rtc_l; [apply (pa_begin _ _ _ 1 r.1.2 r.2); reflexivity|].
    eapply rtc_l; [apply (pa_restart _ _ _ pa1); vm_compute; reflexivity|].
    eapply rtc_l; [apply (pa_begin _ _ _ 2 r2.1.2 r2.2); reflexivity|]. constructor. }
  eexists. split; [exact Hr|]. split; [reflexivity|].
  apply (xids_never_reused kv_new sample_pa _ eq_refl Hr).
Defined.

Lemma rowids_never_reused_witness :
  exists s, rtc seq_step (mkSeqSys (seq_new PDurable) kv_new []) s /\
    ss_handed s = [(7, 3); (7, 1); (7, 2)] /\ NoDup (ss_handed s).
Proof.
  pose (sq1 := mkSeq (<[7 := 3]> ∅) PDurable).
  pose (kv1 := write_batch kv_new [Put (seq_key 7) (be_bytes 8 3)]).
  pose (sq2 := mkSeq (<[7 := 4]> ∅) PDurable).
  pose (kv2 := write_batch kv1 [Put (seq_key 7) (be_bytes 8 4)]).
  assert (rtc seq_step (mkSeqSys (seq_new PDurable) kv_new [])
            (mkSeqSys sq2 kv2 [(7, 3); (7, 1); (7, 2)])) as Hr.
  { eapply rtc_l; [apply (seq_do_alloc _ _ _ 7 2 1 None sq1 kv1); try done; unfold u32_ok; lia|].
    eapply rtc_l; [apply seq_restart|].
    eapply rtc_l; [apply (seq_do_alloc _ _ _ 7 1 3 None sq2 kv2); try done; unfold u32_ok; lia|].
    constructor. }
  eexists. split; [exact Hr|]. split; [reflexivity|].
  apply (rowids_never_reused kv_new _ Hr).
Defined.

Definition sample_leader : ProcArray := mkProcArray 5 ∅ PReplicated.

Definition sample_applied : MemKv :=
  kv_put kv_new next_xid_key (be_bytes 8 6).

Lemma replicated_xid_survives_failover_witness :
  exists leader, procarray_reseed (mkProcArray 1 ∅ PReplicated) sample_applied = Ok leader /\
    5 < next_xid leader /\ 1 <= next_xid leader.
Proof.
  apply (replicated_xid_survives_failover sample_leader kv_new 5
           (mkProcArray 6 {[5]} PReplicated) kv_new (mkProcArray 6 {[5]} PReplicated)
           kv_new [] [] sample_applied (mkProcArray 1 ∅ PReplicated));
    try (simpl; lia); try reflexivity; try by constructor.
  - by intros k b [=].
  - by intros [].
Defined.

Definition sample_gtm : Gtm := mkGtm GLOBAL_XID_BASE ∅.

Lemma global_xid_reused_witness :
  exists kv' fresh,
    apply_ops kv_new [Put meta_next_global_xid_key (be_bytes 8 (GLOBAL_XID_BASE + 2));
                        Put meta_next_global_xid_key (be_bytes 8 (GLOBAL_XID_BASE + 1))]
      = Some kv' /\
    gtm_open kv' = Ok fresh /\ fst (begin_global fresh) = GLOBAL_XID_BASE + 1 /\
    GLOBAL_XID_BASE <> GLOBAL_XID_BASE + 1.
Proof.
  exact (global_xid_reused kv_new sample_gtm GLOBAL_XID_BASE (snd (begin_global sample_gtm))
           (GLOBAL_XID_BASE + 1) (snd (begin_global (snd (begin_global sample_gtm))))
           ltac:(done) ltac:(done) ltac:(done) eq_refl eq_refl).
Defined.

Lemma global_xid_serial_fresh_witness :
  exists fresh reseeded,
    gtm_open (kv_put kv_new meta_next_global_xid_key (be_bytes 8 (GLOBAL_XID_BASE + 1)))
      = Ok fresh /\
    gtm_reseed sample_gtm
      (kv_put kv_new meta_next_global_xid_key (be_bytes 8 (GLOBAL_XID_BASE + 1)))
      = Ok reseeded /\
    GLOBAL_XID_BASE < fst (begin_global fresh) /\ GLOBAL_XID_BASE < fst (begin_global reseeded).
Proof.
  apply (global_xid_serial_fresh kv_new sample_gtm GLOBAL_XID_BASE
           (snd (begin_global sample_gtm)) [] _ sample_gtm); try done.
Defined.
