(* ===== verification/LockMgr.v ===== *)
(** * Row locks (executor/src/lockmgr.rs)

    The lock table, the waiters' notifiers and the wait-for graph of one range
    engine. A [Notify] is an id whose stored permit is an element of a set; the
    body of [acquire]'s loop, which runs under one guard, is one transition.
    The iteration order of a [HashSet] is an argument of the operations that
    depend on it: every statement holds for all orders, and each step may see a
    different one. *)
From Stdlib Require Import ZArith Lia.
From stdpp Require Import base list gmap relations sets fin_sets.
From S2P Require Import Prelude.
Open Scope Z_scope.

(** [executor/src/lockmgr.rs:18-21] LockMode *)
Inductive LockMode : Type := Shared | Exclusive.

#[export] Instance LockMode_eq_dec : EqDecision LockMode.
Proof. solve_decision. Defined.

(** [executor/src/lockmgr.rs:24-28] Acquire *)
Inductive Acquire : Type := Acquired | Conflict (holder : Z).

(** [executor/src/lockmgr.rs:31-34] CycleCheck *)
Inductive CycleCheck : Type := CycleOk | Deadlock.

(** [executor/src/lockmgr.rs:36-39] RowLock *)
Record RowLock : Type := mkRowLock { rl_mode : LockMode; holders : gset Z }.

Definition RowId : Type := Z * Z.

(** [executor/src/lockmgr.rs:41-52] Inner: notifiers are ids. *)
Record Inner : Type := mkInner {
  locks : gmap RowId RowLock;
  waiters : gmap Z (list Z);
  wait_for : gmap Z Z
}.

(** [executor/src/lockmgr.rs:59-67] RowLockManager::new *)
Definition lockmgr_new : Inner := mkInner ∅ ∅ ∅.

Definition with_lock (g : Inner) (row : RowId) (l : RowLock) : Inner :=
  mkInner (<[row := l]> (locks g)) (waiters g) (wait_for g).

(** A [HashSet]'s iteration order: some enumeration of its elements. *)
Definition iter_order (it : gset Z -> list Z) : Prop := forall s, it s ≡ₚ elements s.

(** [executor/src/lockmgr.rs:193-234] try_acquire_locked: [None] is the panic
    of either [expect]. *)
Definition try_acquire_locked (it : gset Z -> list Z) (inner : Inner) (row : RowId)
    (mode : LockMode) (my_xid : Z) : option (Acquire * Inner) :=
  match locks inner !! row with
  | None => Some (Acquired, with_lock inner row (mkRowLock mode {[my_xid]}))
  | Some lock =>
      if decide (my_xid ∈ holders lock) then
        if decide (mode = Exclusive /\ rl_mode lock = Shared) then
          if decide (size (holders lock) = 1%nat) then
            Some (Acquired, with_lock inner row (mkRowLock Exclusive (holders lock)))
          else
            other ← head (filter (fun h => h <> my_xid) (it (holders lock)));
            Some (Conflict other, inner)
        else Some (Acquired, inner)
      else if decide (mode = Shared /\ rl_mode lock = Shared) then
        Some (Acquired, with_lock inner row (mkRowLock Shared ({[my_xid]} ∪ holders lock)))
      else
        h ← head (it (holders lock));
        Some (Conflict h, inner)
  end.

(** [executor/src/lockmgr.rs:238-253] check_cycle: the walk, bounded by fuel. *)
Fixpoint check_cycle_from (fuel : nat) (wf : gmap Z Z) (seen : gset Z) (cur my_xid : Z)
  : option CycleCheck :=
  match fuel with
  | O => None
  | S fuel =>
      if decide (cur = my_xid) then Some Deadlock
      else if decide (cur ∈ seen) then Some CycleOk
      else match wf !! cur with
           | Some next => check_cycle_from fuel wf ({[cur]} ∪ seen) next my_xid
           | None => Some CycleOk
           end
  end.

(** [executor/src/lockmgr.rs:238-253] check_cycle: every step adds a waiting
    transaction to [seen], so one more step than there are edges is enough. *)
Definition check_cycle (wf : gmap Z Z) (holder my_xid : Z) : CycleCheck :=
  default CycleOk (check_cycle_from (S (size wf)) wf ∅ holder my_xid).

(** Outcome of one turn of [acquire]'s loop. *)
Inductive AcquireTurn : Type := TGranted | TDeadlock | TBlocked (notify : Z).

(** [executor/src/lockmgr.rs:117-152] acquire: one turn of the loop; [n] is the
    id of the [Notify] it creates when it has to wait. *)
Definition acquire_turn (it : gset Z -> list Z) (g : Inner) (n : Z) (row : RowId)
    (mode : LockMode) (my_xid : Z) : option (AcquireTurn * Inner) :=
  '(r, g) ← try_acquire_locked it g row mode my_xid;
  match r with
  | Acquired => Some (TGranted, mkInner (locks g) (waiters g) (delete my_xid (wait_for g)))
  | Conflict holder =>
      match check_cycle (wait_for g) holder my_xid with
      | Deadlock =>
          Some (TDeadlock, mkInner (locks g) (waiters g) (delete my_xid (wait_for g)))
      | CycleOk =>
          Some (TBlocked n,
                mkInner (locks g)
                  (<[holder := default [] (waiters g !! holder) ++ [n]]> (waiters g))
                  (<[my_xid := holder]> (wait_for g)))
      end
  end.

(** [executor/src/lockmgr.rs:95-109] reacquire_exclusive *)
Definition reacquire_exclusive (g : Inner) (row : RowId) (my_xid : Z) : Inner :=
  let lock := default (mkRowLock Exclusive ∅) (locks g !! row) in
  with_lock g row (mkRowLock Exclusive ({[my_xid]} ∪ holders lock)).

(** What [retain] keeps of one lock. *)
Definition release_lock (my_xid : Z) (lock : RowLock) : option RowLock :=
  let hs := holders lock ∖ {[my_xid]} in
  if decide (hs = ∅) then None else Some (mkRowLock (rl_mode lock) hs).

(** [executor/src/lockmgr.rs:155-171] release_all: also returns the notifiers
    to wake. *)
Definition release_all (g : Inner) (my_xid : Z) : Inner * list Z :=
  (mkInner (omap (release_lock my_xid) (locks g)) (delete my_xid (waiters g))
     (delete my_xid (wait_for g)),
   default [] (waiters g !! my_xid)).

(** ** The wait-for graph *)

Definition edge (wf : gmap Z Z) (x y : Z) : Prop := wf !! x = Some y.

Definition acyclic (wf : gmap Z Z) : Prop := forall x, ~ tc (edge wf) x x.

Lemma edge_det wf x y z : edge wf x y -> edge wf x z -> y = z.
Proof. unfold edge. congruence. Qed.

Lemma rtc_edge_next wf x y z : edge wf x y -> x <> z -> (rtc (edge wf) x z <-> rtc (edge wf) y z).
Proof.
  intros Hxy Hne. split; [|intros Hr; eapply rtc_l; [exact Hxy|exact Hr]].
  intros [-> | (w & Hw & Hr)]%rtc_inv; [done|]. by rewrite (edge_det _ _ _ _ Hxy Hw).
Qed.

(** Visited transactions: none is the one asking, and their edges stay inside. *)
Definition seen_ok (wf : gmap Z Z) (seen : gset Z) (cur my_xid : Z) : Prop :=
  (my_xid ∉ seen) /\ forall x y, x ∈ seen -> edge wf x y -> y ∈ seen \/ y = cur.

Lemma seen_closed wf seen cur my_xid :
  seen_ok wf seen cur my_xid -> cur ∈ seen -> ~ rtc (edge wf) cur my_xid.
Proof.
  intros [Hmy Hcl] Hcur Hr. apply Hmy.
  enough (forall a b, rtc (edge wf) a b -> a ∈ seen -> b ∈ seen) as H by eauto.
  clear Hr. induction 1 as [|a b c Hab _ IH]; [done|]. intros Ha. apply IH.
  destruct (Hcl a b Ha Hab) as [H| ->]; done.
Qed.

Lemma check_cycle_from_spec fuel wf seen cur my_xid :
  seen_ok wf seen cur my_xid -> (size (dom wf ∖ seen) < fuel)%nat ->
  exists r, check_cycle_from fuel wf seen cur my_xid = Some r /\
    (r = Deadlock <-> rtc (edge wf) cur my_xid).
Proof.
  revert seen cur; induction fuel as [|fuel IH]; intros seen cur Hs Hf; [lia|]. simpl.
  case_decide as Hc; [subst; eexists; split; [done|]; split; [by constructor|done]|].
  case_decide as Hin.
  { eexists. split; [done|]. split; [done|]. intros Hr. by apply seen_closed in Hs. }
  destruct (wf !! cur) as [next|] eqn:En.
  - destruct (IH ({[cur]} ∪ seen) next) as (r & Er & Hr).
    + destruct Hs as [Hmy Hcl]. split; [set_solver|]. intros x y Hx Hxy.
      apply elem_of_union in Hx as [->%elem_of_singleton|Hx].
      * right. by eapply edge_det.
      * left. destruct (Hcl x y Hx Hxy) as [H| ->]; set_solver.
    + enough (size (dom wf ∖ ({[cur]} ∪ seen)) < size (dom wf ∖ seen))%nat by lia.
      apply subset_size. apply elem_of_dom_2 in En. set_solver.
    + exists r. split; [done|]. by rewrite (rtc_edge_next wf cur next my_xid).
  - eexists. split; [done|]. split; [done|].
    intros [-> | (w & Hw & _)]%rtc_inv; [done|]. unfold edge in Hw. congruence.
Qed.

(** The eager check is exact: it answers [Deadlock] just when the holder already
    waits, directly or through others, for the one asking; its walk ends. *)
Lemma check_cycle_spec wf holder my_xid :
  (exists r, check_cycle_from (S (size wf)) wf ∅ holder my_xid = Some r) /\
  (check_cycle wf holder my_xid = Deadlock <-> rtc (edge wf) holder my_xid).
Proof.
  destruct (check_cycle_from_spec (S (size wf)) wf ∅ holder my_xid) as (r & Er & Hr).
  - split; set_solver.
  - rewrite difference_empty_L, size_dom. lia.
  - split; [by eexists|]. unfold check_cycle. by rewrite Er.
Qed.

Lemma edge_delete wf x a b : edge (delete x wf) a b -> edge wf a b.
Proof. unfold edge. by intros [_ ?]%lookup_delete_Some. Qed.

Lemma acyclic_delete wf x : acyclic wf -> acyclic (delete x wf).
Proof.
  intros H y Hy. apply (H y). apply (tc_congruence id (edge wf) y y (edge_delete wf x) Hy).
Qed.

(** A path of the extended graph either avoids the new edge or reaches its
    source and continues from its target. *)
Lemma rtc_insert_inv wf x h a b :
  rtc (edge (<[x := h]> wf)) a b ->
  rtc (edge wf) a b \/ (rtc (edge wf) a x /\ rtc (edge wf) h b).
Proof.
  induction 1 as [a|a b c Hab _ IH]; [left; constructor|].
  unfold edge in Hab. apply lookup_insert_Some in Hab as [[-> ->]|[Hne Hab]].
  - right. split; [constructor|]. tauto.
  - destruct IH as [H|[H H']]; [left|right; split; [|done]]; by eapply rtc_l.
Qed.

Lemma acyclic_insert wf x h :
  acyclic wf -> ~ rtc (edge wf) h x -> acyclic (<[x := h]> wf).
Proof.
  intros Hac Hno y Hy.
  assert (exists z, edge (<[x := h]> wf) y z /\ rtc (edge (<[x := h]> wf)) z y) as (z & Hz & Hr).
  { inversion Hy; subst; eexists; split; [done|constructor|done|by apply tc_rtc]. }
  unfold edge in Hz. apply lookup_insert_Some in Hz as [[-> ->]|[Hne Hz]].
  - apply rtc_insert_inv in Hr. tauto.
  - apply rtc_insert_inv in Hr as [Hr|[Hzx Hhy]].
    + apply (Hac y). by eapply tc_rtc_r; [apply tc_once|].
    + apply Hno. transitivity y; [exact Hhy|]. by eapply rtc_l.
Qed.

(** Following the edges of an acyclic graph ends. *)
Lemma wait_for_sn wf x : acyclic wf -> sn (edge wf) x.
Proof.
  intros Hac. apply tc_finite_sn; [exact Hac|].
  exists (snd <$> map_to_list wf). intros y Hy.
  assert (exists w, edge wf w y) as [w Hw] by (clear -Hy; induction Hy; eauto).
  apply list_elem_of_fmap. exists (w, y). split; [done|]. by apply elem_of_map_to_list.
Qed.

(** ** The lock manager and the sessions blocked on it *)

(** A session blocked in [acquire]: the request it retries on wake-up, and the
    notifier it awaits. *)
Record Blocked : Type := mkBlocked { bl_row : RowId; bl_mode : LockMode; bl_notify : Z }.

(** [ls_disturbed] is bookkeeping for the statements below: the rows that recovery has
    locked although another transaction held them, until all of them have let go. *)
Record LockSys : Type := mkLockSys {
  ls_inner : Inner;
  ls_blocked : gmap Z Blocked;
  ls_permits : gset Z;
  ls_fresh : Z;
  ls_disturbed : gset RowId
}.

Definition lock_init : LockSys := mkLockSys lockmgr_new ∅ ∅ 0 ∅.

(** Whether another transaction holds the row. *)
Definition held_by_other (g : Inner) (row : RowId) (xid : Z) : bool :=
  match locks g !! row with
  | Some l => bool_decide (holders l ∖ {[xid]} <> ∅)
  | None => false
  end.

(** What follows a turn of the loop: the session goes on, or blocks. *)
Definition after_turn (s : LockSys) (xid : Z) (row : RowId) (mode : LockMode)
    (r : AcquireTurn) (g : Inner) : LockSys :=
  match r with
  | TBlocked n => mkLockSys g (<[xid := mkBlocked row mode n]> (ls_blocked s))
                    (ls_permits s) (ls_fresh s + 1) (ls_disturbed s)
  | _ => mkLockSys g (delete xid (ls_blocked s)) (ls_permits s) (ls_fresh s + 1) (ls_disturbed s)
  end.

(** Sessions ask for a row, wake up when their notifier has a permit and retry,
    drop a pending request (a cancelled future leaves its registrations behind)
    and release; recovery locks any row for any transaction, without asking. *)
Inductive lock_step : LockSys -> LockSys -> Prop :=
| ls_acquire s it xid row mode r g :
    iter_order it -> ls_blocked s !! xid = None ->
    acquire_turn it (ls_inner s) (ls_fresh s) row mode xid = Some (r, g) ->
    lock_step s (after_turn s xid row mode r g)
| ls_wake s it xid b r g :
    iter_order it -> ls_blocked s !! xid = Some b -> bl_notify b ∈ ls_permits s ->
    acquire_turn it (ls_inner s) (ls_fresh s) (bl_row b) (bl_mode b) xid = Some (r, g) ->
    lock_step s (after_turn s xid (bl_row b) (bl_mode b) r g)
| ls_cancel s xid :
    lock_step s (mkLockSys (ls_inner s) (delete xid (ls_blocked s)) (ls_permits s) (ls_fresh s)
                   (ls_disturbed s))
| ls_release s xid :
    ls_blocked s !! xid = None ->
    lock_step s (mkLockSys (release_all (ls_inner s) xid).1 (ls_blocked s)
                   (ls_permits s ∪ list_to_set (release_all (ls_inner s) xid).2) (ls_fresh s)
                   (filter (fun row => is_Some (locks (release_all (ls_inner s) xid).1 !! row)) (ls_disturbed s)))
| ls_reacquire s row xid :
    lock_step s (mkLockSys (reacquire_exclusive (ls_inner s) row xid) (ls_blocked s)
                   (ls_permits s) (ls_fresh s)
                   (if held_by_other (ls_inner s) row xid then {[row]} ∪ ls_disturbed s else ls_disturbed s)).

(** Some transaction holds every lock in the table, and one only holds an
    exclusive one, where recovery has not come in between. *)
Definition lock_ok (disturbed : Prop) (l : RowLock) : Prop :=
  (holders l <> ∅) /\ (rl_mode l = Exclusive -> disturbed \/ exists h, holders l = {[h]}).

Definition locks_ok (D : gset RowId) (g : Inner) : Prop :=
  map_Forall (fun row l => lock_ok (row ∈ D) l) (locks g).

Definition holds (g : Inner) (row : RowId) (xid : Z) : Prop :=
  exists l, locks g !! row = Some l /\ xid ∈ holders l.

(** A blocked session without a permit is registered with a transaction that
    still holds the row. *)
Definition waiting_ok (g : Inner) (xid : Z) (b : Blocked) : Prop :=
  exists h, h <> xid /\ edge (wait_for g) xid h /\
    bl_notify b ∈ default [] (waiters g !! h) /\ holds g (bl_row b) h.

Record lock_inv (s : LockSys) : Prop := {
  li_locks : locks_ok (ls_disturbed s) (ls_inner s);
  li_acyclic : acyclic (wait_for (ls_inner s));
  li_wait : forall xid b, ls_blocked s !! xid = Some b ->
            bl_notify b ∈ ls_permits s \/ waiting_ok (ls_inner s) xid b;
  li_permits : forall n, n ∈ ls_permits s -> n < ls_fresh s;
  li_waiters : forall h n, n ∈ default [] (waiters (ls_inner s) !! h) -> n < ls_fresh s
}.

Lemma it_elem it s x : iter_order it -> x ∈ it s <-> x ∈ s.
Proof. intros Hit. rewrite (Hit s). apply elem_of_elements. Qed.

Lemma locks_ok_insert D g row l :
  locks_ok D g -> lock_ok (row ∈ D) l -> locks_ok D (with_lock g row l).
Proof. intros. by apply map_Forall_insert_2. Qed.

(** A lock whose holders contain the old ones keeps every holding. *)
Lemma holds_with_lock g row l row' x :
  (forall l0, locks g !! row = Some l0 -> holders l0 ⊆ holders l) ->
  holds g row' x -> holds (with_lock g row l) row' x.
Proof.
  intros Hsub (l0 & El & Hx). unfold holds. simpl.
  destruct (decide (row = row')) as [->|Hne].
  - exists l. rewrite lookup_insert_eq. split; [done|]. by apply (Hsub l0 El).
  - exists l0. by rewrite lookup_insert_ne.
Qed.

(** The result of a non-blocking attempt. *)
Definition attempt_ok (g : Inner) (row : RowId) (mode : LockMode) (my_xid : Z)
    (r : Acquire) (g' : Inner) : Prop :=
  match r with
  | Acquired => exists l, locks g' !! row = Some l /\ my_xid ∈ holders l /\
                  (mode = Exclusive -> rl_mode l = Exclusive)
  | Conflict h => g' = g /\ h <> my_xid /\ holds g row h
  end.

Lemma holders_other l x it :
  iter_order it -> x ∈ holders l -> size (holders l) <> 1%nat ->
  exists o, head (filter (fun h => h <> x) (it (holders l))) = Some o /\
    o <> x /\ o ∈ holders l.
Proof.
  intros Hit Hx Hsz. destruct (filter _ (it (holders l))) as [|o t] eqn:E.
  - exfalso. apply Hsz. rewrite <- (size_singleton (C := gset Z) x). f_equal.
    apply set_eq. intros y. rewrite elem_of_singleton. split; [|by intros ->].
    intros Hy. destruct (decide (y = x)) as [|Hne]; [done|].
    assert (y ∈ filter (fun h => h <> x) (it (holders l))) as Hf
      by (apply list_elem_of_filter; by rewrite it_elem).
    rewrite E in Hf. by apply not_elem_of_nil in Hf.
  - exists o. split; [done|].
    assert (o ∈ filter (fun h => h <> x) (it (holders l))) as Hf by (rewrite E; by left).
    apply list_elem_of_filter in Hf as [Hne Ho]. by rewrite it_elem in Ho.
Qed.

Lemma holders_first P l it :
  iter_order it -> lock_ok P l -> exists h, head (it (holders l)) = Some h /\ h ∈ holders l.
Proof.
  intros Hit [Hne _]. destruct (it (holders l)) as [|h t] eqn:E.
  - exfalso. apply Hne. apply elem_of_equiv_empty_L. intros y Hy.
    apply (it_elem it) in Hy; [|done]. rewrite E in Hy. by apply not_elem_of_nil in Hy.
  - exists h. split; [done|]. apply (it_elem it); [done|]. rewrite E. by left.
Qed.

Lemma try_acquire_spec D it g row mode my_xid :
  iter_order it -> locks_ok D g ->
  exists r g', try_acquire_locked it g row mode my_xid = Some (r, g') /\
    attempt_ok g row mode my_xid r g' /\ locks_ok D g' /\
    waiters g' = waiters g /\ wait_for g' = wait_for g /\
    forall row' x, holds g row' x -> holds g' row' x.
Proof.
  intros Hit Hg. unfold try_acquire_locked. destruct (locks g !! row) as [l|] eqn:El.
  - pose proof (Hg row l El) as Hl. case_decide as Hin.
    + case_decide as Hup.
      * case_decide as Hsz.
        -- do 2 eexists. split; [reflexivity|]. split_and!; try done.
           ++ eexists. simpl. rewrite lookup_insert_eq. naive_solver.
           ++ apply locks_ok_insert; [done|]. split; [apply Hl|]. intros _. simpl. right.
              apply size_1_elem_of in Hsz as [h Hh]. exists h. by apply leibniz_equiv.
           ++ intros row' x. apply holds_with_lock. naive_solver.
        -- destruct (holders_other l my_xid it Hit Hin Hsz) as (o & -> & Hne & Ho).
           do 2 eexists. split; [reflexivity|]. split; [|by split_and!].
           split_and!; try done. by exists l.
      * do 2 eexists. split; [reflexivity|]. split_and!; try done. exists l.
        split_and!; try done. destruct (rl_mode l); naive_solver.
    + case_decide as Hsh.
      * do 2 eexists. split; [reflexivity|]. split_and!; try done.
        -- eexists. simpl. rewrite lookup_insert_eq. split_and!; [done|set_solver|naive_solver].
        -- apply locks_ok_insert; [done|]. split; simpl; [set_solver|done].
        -- intros row' x. apply holds_with_lock. intros l0. rewrite El. intros [= ->]. simpl. set_solver.
      * destruct (holders_first _ l it Hit Hl) as (h & -> & Hh).
        do 2 eexists. split; [reflexivity|]. split; [|by split_and!].
        split_and!; [done|congruence|by exists l].
  - do 2 eexists. split; [reflexivity|]. split_and!; try done.
    + eexists. simpl. rewrite lookup_insert_eq. split_and!; [done|set_solver|done].
    + apply locks_ok_insert; [done|]. split; simpl; [set_solver|naive_solver].
    + intros row' x. apply holds_with_lock. naive_solver.
Qed.

(** What one turn of [acquire] guarantees. *)
Record turn_ok (D : gset RowId) (g : Inner) (n : Z) (row : RowId) (mode : LockMode) (my_xid : Z)
    (r : AcquireTurn) (g' : Inner) : Prop := {
  to_locks : locks_ok D g';
  to_acyclic : acyclic (wait_for g');
  to_holds : forall row' x, holds g row' x -> holds g' row' x;
  to_edges : forall x, x <> my_xid -> wait_for g' !! x = wait_for g !! x;
  to_waiters : forall h m, m ∈ default [] (waiters g !! h) -> m ∈ default [] (waiters g' !! h);
  to_fresh : forall h m, m ∈ default [] (waiters g' !! h) ->
             m = n \/ m ∈ default [] (waiters g !! h);
  to_result : match r with
              | TGranted => exists l, locks g' !! row = Some l /\ my_xid ∈ holders l /\
                              (mode = Exclusive -> rl_mode l = Exclusive /\ (row ∈ D \/ holders l = {[my_xid]}))
              | TDeadlock => exists h, h <> my_xid /\ holds g row h /\
                               rtc (edge (wait_for g)) h my_xid
              | TBlocked m => m = n /\ waiting_ok g' my_xid (mkBlocked row mode n)
              end
}.

Lemma lock_ok_sole P l x : lock_ok P l -> rl_mode l = Exclusive -> x ∈ holders l -> P \/ holders l = {[x]}.
Proof.
  intros [_ H] E Hx. destruct (H E) as [|[h Hh]]; [by left|right]. rewrite Hh in Hx |- *. set_solver.
Qed.

Lemma waiters_push (ws : gmap Z (list Z)) (h h' n m : Z) :
  m ∈ default [] (<[h := default [] (ws !! h) ++ [n]]> ws !! h') <->
  m ∈ default [] (ws !! h') \/ (h = h' /\ m = n).
Proof.
  destruct (decide (h = h')) as [->|Hne].
  - rewrite lookup_insert_eq. simpl. rewrite elem_of_app, list_elem_of_singleton. naive_solver.
  - rewrite lookup_insert_ne by done. naive_solver.
Qed.

Lemma acquire_turn_spec D it g n row mode my_xid :
  iter_order it -> locks_ok D g -> acyclic (wait_for g) ->
  exists r g', acquire_turn it g n row mode my_xid = Some (r, g') /\
    turn_ok D g n row mode my_xid r g'.
Proof.
  intros Hit Hg Hac. unfold acquire_turn.
  destruct (try_acquire_spec D it g row mode my_xid Hit Hg)
    as (r & g' & -> & Hr & Hg' & Hw & Hwf & Hh). cbn [mbind option_bind].
  destruct r as [|h].
  - do 2 eexists. split; [reflexivity|]. split; simpl; rewrite ?Hw, ?Hwf; auto.
    + by apply acyclic_delete.
    + intros x Hx. by rewrite lookup_delete_ne.
    + destruct Hr as (l & El & Hin & Hm). exists l. split_and!; try done.
      intros Hex. specialize (Hm Hex). split; [done|]. eapply lock_ok_sole; [by apply Hg'|done..].
  - destruct Hr as (-> & Hne & Hhold).
    destruct (check_cycle_spec (wait_for g) h my_xid) as [_ Hc].
    destruct (check_cycle (wait_for g) h my_xid).
    + do 2 eexists. split; [reflexivity|]. split; simpl; try done.
      * apply acyclic_insert; [done|]. intros H. by apply Hc in H.
      * intros x Hx. by rewrite lookup_insert_ne.
      * intros h' m Hm. apply waiters_push. by left.
      * intros h' m [Hm|[_ ->]]%waiters_push; auto.
      * split; [done|]. exists h. split_and!; [done| | |done].
        -- unfold edge. simpl. by rewrite lookup_insert_eq.
        -- simpl. apply waiters_push. by right.
    + do 2 eexists. split; [reflexivity|]. split; simpl; auto.
      * by apply acyclic_delete.
      * intros x Hx. by rewrite lookup_delete_ne.
      * exists h. split_and!; [done|done|by apply Hc].
Qed.

Lemma holds_release g xid row x :
  holds g row x -> x <> xid -> holds (release_all g xid).1 row x.
Proof.
  intros (l & El & Hx) Hne. exists (mkRowLock (rl_mode l) (holders l ∖ {[xid]})).
  simpl. rewrite lookup_omap, El. simpl. unfold release_lock.
  rewrite decide_False by set_solver. split; [done|set_solver].
Qed.

(** After [release_all] the transaction holds nothing. *)
Lemma release_all_holds g xid row : ~ holds (release_all g xid).1 row xid.
Proof.
  intros (l & El & Hx). simpl in El. apply lookup_omap_Some in El as (l0 & El & _).
  unfold release_lock in El. case_decide; simplify_eq. simpl in Hx. set_solver.
Qed.

Lemma locks_ok_release D g xid :
  locks_ok D g ->
  locks_ok (filter (fun row => is_Some (locks (release_all g xid).1 !! row)) D) (release_all g xid).1.
Proof.
  intros Hg row l El. pose proof El as El'. simpl in El. apply lookup_omap_Some in El as (l0 & El & E0).
  destruct (Hg row l0 E0) as [_ Hex]. unfold release_lock in El.
  case_decide as Hne; simplify_eq. split; simpl; [done|]. intros Hm.
  destruct (Hex Hm) as [HD|[h Hh]].
  - left. apply elem_of_filter. split; [by eexists|done].
  - right. exists h. rewrite Hh in Hne |- *. set_solver.
Qed.

(** A lock that recovery takes: it adds a holder, and leaves a sole one only on a row that
    nobody else holds. *)
Lemma locks_ok_reacquire D g row xid :
  locks_ok D g ->
  locks_ok (if held_by_other g row xid then {[row]} ∪ D else D) (reacquire_exclusive g row xid).
Proof.
  intros Hg. unfold reacquire_exclusive. apply locks_ok_insert.
  - intros row' l El. destruct (Hg row' l El) as [Hne Hex]. split; [done|]. intros Hm.
    destruct (Hex Hm); [left|by right]. destruct (held_by_other g row xid); [set_solver|done].
  - split; simpl; [set_solver|]. intros _. unfold held_by_other.
    destruct (locks g !! row) as [l|]; simpl; [|right; exists xid; set_solver].
    case_bool_decide as Hh; [left; set_solver|]. right. exists xid.
    apply set_eq. intros y. destruct (decide (y = xid)); set_solver.
Qed.

Lemma waiting_ok_reacquire g row xid x b :
  waiting_ok g x b -> waiting_ok (reacquire_exclusive g row xid) x b.
Proof.
  intros (h & Hne & He & Hn & Hh). exists h. split_and!; try done.
  apply holds_with_lock; [|done]. intros l0 ->. simpl. set_solver.
Qed.

Lemma waiting_ok_turn D g n row mode xid r g' x b :
  turn_ok D g n row mode xid r g' -> x <> xid -> waiting_ok g x b -> waiting_ok g' x b.
Proof.
  intros [] Hne (h & Hh & He & Hn & Hr). exists h. split_and!; auto.
  unfold edge. by rewrite to_edges0.
Qed.

Lemma after_turn_inv s row mode xid r g :
  lock_inv s -> turn_ok (ls_disturbed s) (ls_inner s) (ls_fresh s) row mode xid r g ->
  lock_inv (after_turn s xid row mode r g).
Proof.
  intros [Hl Ha Hw Hp Hn] Ht. pose proof Ht as [Hl' Ha' _ _ _ Hf Hr].
  assert (forall x b, x <> xid -> ls_blocked s !! x = Some b ->
            bl_notify b ∈ ls_permits s \/ waiting_ok g x b) as Hothers.
  { intros x b Hx [Hb|Hb]%Hw; [by left|right]. by eapply waiting_ok_turn. }
  assert (forall h m, m ∈ default [] (waiters g !! h) -> m < ls_fresh s + 1) as Hn'.
  { intros h m [->|Hm]%Hf; [lia|]. apply Hn in Hm. lia. }
  assert (forall m, m ∈ ls_permits s -> m < ls_fresh s + 1) as Hp'
    by (intros m Hm%Hp; lia).
  destruct r as [| |m]; split; simpl; try done.
  1-2: by intros x b [? Hb]%lookup_delete_Some; apply Hothers.
  destruct Hr as [-> Hr]. intros x b [[<- <-]|[Hx Hb]]%lookup_insert_Some; [by right|].
  by apply Hothers.
Qed.

Lemma lock_step_inv s s' : lock_step s s' -> lock_inv s -> lock_inv s'.
Proof.
  intros Hst Hi. destruct Hst as [s it xid row mode r g Hit _ E|s it xid b r g Hit _ _ E|
                                  s xid|s xid Hb|s row xid].
  - destruct (acquire_turn_spec (ls_disturbed s) it (ls_inner s) (ls_fresh s) row mode xid) as (r' & g' & E' & Ht);
      [done|apply Hi..|]. simplify_eq. by apply after_turn_inv.
  - destruct (acquire_turn_spec (ls_disturbed s) it (ls_inner s) (ls_fresh s) (bl_row b) (bl_mode b) xid)
      as (r' & g' & E' & Ht); [done|apply Hi..|]. simplify_eq. by apply after_turn_inv.
  - destruct Hi. split; simpl; try done. intros x b [_ Hb]%lookup_delete_Some. auto.
  - destruct Hi as [Hl Ha Hw Hp Hn].
    split; cbn [ls_inner ls_blocked ls_permits ls_fresh ls_disturbed].
    + by apply locks_ok_release.
    + by apply acyclic_delete.
    + intros x b Hx. assert (x <> xid) by congruence.
      destruct (Hw x b Hx) as [|(h & Hne & He & Hnb & Hh)]; [left; set_solver|].
      destruct (decide (h = xid)) as [->|Hxh].
      * left. apply elem_of_union. right. by apply elem_of_list_to_set.
      * right. exists h. split_and!; [done| | |by apply holds_release].
        -- unfold edge. simpl. by rewrite lookup_delete_ne.
        -- simpl. by rewrite lookup_delete_ne.
    + intros m [Hm|Hm%elem_of_list_to_set]%elem_of_union;
        [by apply Hp|by apply (Hn xid)].
    + intros h m. simpl. destruct (decide (xid = h)) as [->|Hne].
      * rewrite lookup_delete_eq. by intros ?%not_elem_of_nil.
      * rewrite lookup_delete_ne by done. apply Hn.
  - destruct Hi as [Hl Ha Hw Hp Hn]. split; cbn [ls_inner ls_blocked ls_permits ls_fresh ls_disturbed]; try done.
    + by apply locks_ok_reacquire.
    + intros x b [?|?]%Hw; [by left|right]. by apply waiting_ok_reacquire.
Qed.

Lemma lock_reachable_inv s : rtc lock_step lock_init s -> lock_inv s.
Proof.
  intros Hr. assert (lock_inv lock_init) as H0.
  { split; simpl; try done; [intros x Hx; by inversion Hx|].
    intros h n. by intros ?%not_elem_of_nil. }
  revert H0. induction Hr; eauto using lock_step_inv.
Qed.

(** C18: Row locks are safe in every reachable state of the lock manager, for
    every iteration order of its hash sets, recovery included: a request never
    panics; an exclusive lock has exactly one holder, and a granted exclusive
    request makes the requester the only holder, on every row but those that
    recovery has locked while another transaction held them (and that are still
    locked); and a request is refused as a deadlock only when a holder of the
    row already waits for the requester. *)
Theorem row_locks_exclusive s it n row mode xid :
  rtc lock_step lock_init s -> iter_order it ->
  (forall row l, locks (ls_inner s) !! row = Some l ->
     holders l <> ∅ /\
     (rl_mode l = Exclusive -> row ∈ ls_disturbed s \/ exists h, holders l = {[h]})) /\
  exists r g, acquire_turn it (ls_inner s) n row mode xid = Some (r, g) /\
    match r with
    | TGranted => exists l, locks g !! row = Some l /\ xid ∈ holders l /\
                    (mode = Exclusive ->
                     rl_mode l = Exclusive /\ (row ∈ ls_disturbed s \/ holders l = {[xid]}))
    | TDeadlock => exists h, h <> xid /\ holds (ls_inner s) row h /\
                     rtc (edge (wait_for (ls_inner s))) h xid
    | TBlocked m => m = n /\ exists h, h <> xid /\ holds g row h
    end.
Proof.
  intros [Hl Ha _ _ _]%lock_reachable_inv Hit. split; [exact Hl|].
  destruct (acquire_turn_spec (ls_disturbed s) it (ls_inner s) n row mode xid Hit Hl Ha) as (r & g & E & Ht).
  exists r, g. split; [done|]. destruct Ht as [_ _ _ _ _ _ Hr].
  destruct r; [done|done|]. destruct Hr as [-> (h & Hne & _ & _ & Hh)]. eauto.
Qed.

(** A session that can take its next step: it is not blocked, or its notifier
    has a permit. *)
Definition can_run (s : LockSys) (xid : Z) : Prop :=
  match ls_blocked s !! xid with
  | None => True
  | Some b => bl_notify b ∈ ls_permits s
  end.

(** C21: No wake-up is lost and no deadlock is left standing. In every reachable
    state a blocked session either has its permit, or waits for a holder of the
    row whose release hands it the permit; and following the wait-for edges from
    it reaches a session that can run, which is the session itself or holds a
    row lock. *)
Theorem blocked_sessions_progress s xid b :
  rtc lock_step lock_init s -> ls_blocked s !! xid = Some b ->
  (bl_notify b ∈ ls_permits s \/
   exists h, h <> xid /\ holds (ls_inner s) (bl_row b) h /\
     bl_notify b ∈ (release_all (ls_inner s) h).2) /\
  exists y, rtc (edge (wait_for (ls_inner s))) xid y /\ can_run s y /\
    (y = xid \/ exists row, holds (ls_inner s) row y).
Proof.
  intros [_ Ha Hw _ _]%lock_reachable_inv Hb. split.
  - destruct (Hw _ _ Hb) as [|(h & Hne & _ & Hn & Hh)]; [by left|right]. by exists h.
  - pose proof (wait_for_sn _ xid Ha) as Hsn. clear Ha. revert b Hb.
    induction Hsn as [x _ IH]. intros b Hb.
    destruct (Hw _ _ Hb) as [Hp|(h & Hne & He & _ & Hh)].
    { exists x. split; [constructor|]. unfold can_run. rewrite Hb. auto. }
    destruct (ls_blocked s !! h) as [b'|] eqn:Eh.
    + destruct (IH h He b' Eh) as (y & Hy & Hrun & Hor). exists y.
      split; [by eapply rtc_l|]. split; [done|]. right. destruct Hor as [->|]; eauto.
    + exists h. split; [by apply rtc_once|]. unfold can_run. rewrite Eh. eauto.
Qed.

(** ** Recovery *)

(** Re-acquisition at recovery installs the sole exclusive holder just when
    no other transaction holds the row. On a row that another one holds it does
    not overwrite that holder, as its documentation says, but leaves both as
    holders of one exclusive lock. *)
Theorem reacquire_exclusive_cases g row xid :
  locks_ok ∅ g ->
  (locks_ok ∅ (reacquire_exclusive g row xid) <-> forall h, holds g row h -> h = xid) /\
  forall h, holds g row h ->
    holds (reacquire_exclusive g row xid) row h /\
    holds (reacquire_exclusive g row xid) row xid.
Proof.
  intros Hg.
  assert (forall h, holds g row h -> holds (reacquire_exclusive g row xid) row h /\
            holds (reacquire_exclusive g row xid) row xid) as Hboth.
  { intros h Hh. split.
    - apply holds_with_lock; [|done]. intros l0 ->. simpl. set_solver.
    - eexists. simpl. rewrite lookup_insert_eq. split; [done|]. simpl. set_solver. }
  split; [|done]. split.
  - intros Hok h Hh. destruct (Hboth h Hh) as [(l & El & Hl) (l' & El' & Hl')].
    rewrite El in El'. simplify_eq. destruct (Hok row l' El) as [_ Hex].
    simpl in El. rewrite lookup_insert_eq in El. simplify_eq.
    destruct Hex as [[]%not_elem_of_empty|[w Hw]]; [done|]. simpl in *. rewrite Hw in Hl, Hl'. set_solver.
  - intros Hs. pose proof (locks_ok_reacquire ∅ g row xid Hg) as Hr.
    assert (held_by_other g row xid = false) as E; [|by rewrite E in Hr].
    unfold held_by_other. destruct (locks g !! row) as [l|] eqn:El; [|done].
    apply bool_decide_eq_false_2. intros Hne. apply Hne, set_eq. intros y.
    assert (y ∈ holders l -> y = xid) by (intros; apply Hs; by exists l). set_solver.
Qed.

(** ** Concrete runs *)

Definition sample_order : gset Z -> list Z := elements.

Lemma sample_order_ok : iter_order sample_order.
Proof. by intros s. Qed.

(** Transaction 1 locks row (7, 1). *)
Definition sample_held : LockSys :=
  mkLockSys (mkInner {[(7, 1) := mkRowLock Exclusive {[1]}]} ∅ ∅) ∅ ∅ 1 ∅.

(** Transaction 2 then asks for the same row and blocks. *)
Definition sample_blocked : LockSys :=
  mkLockSys (mkInner {[(7, 1) := mkRowLock Exclusive {[1]}]} {[1 := [1]]} {[2 := 1]})
    {[2 := mkBlocked (7, 1) Exclusive 1]} ∅ 2 ∅.

Lemma sample_held_reachable : rtc lock_step lock_init sample_held.
Proof.
  apply rtc_once.
  exact (ls_acquire lock_init sample_order 1 (7, 1) Exclusive TGranted (ls_inner sample_held)
           sample_order_ok eq_refl eq_refl).
Qed.

Lemma sample_blocked_reachable : rtc lock_step lock_init sample_blocked.
Proof.
  eapply rtc_r; [apply sample_held_reachable|].
  exact (ls_acquire sample_held sample_order 2 (7, 1) Exclusive (TBlocked 1)
           (ls_inner sample_blocked) sample_order_ok eq_refl eq_refl).
Qed.

(** Recovery locks row (7, 3) for transaction 9 before that. *)
Definition sample_recovered : LockSys :=
  mkLockSys (reacquire_exclusive (ls_inner sample_held) (7, 3) 9) ∅ ∅ 1 ∅.

Lemma sample_recovered_reachable : rtc lock_step lock_init sample_recovered.
Proof.
  eapply rtc_r; [apply sample_held_reachable|]. exact (ls_reacquire sample_held (7, 3) 9).
Qed.

Lemma row_locks_exclusive_witness :
  exists r g, acquire_turn sample_order (ls_inner sample_recovered) 5 (7, 2) Exclusive 2 = Some (r, g) /\
    r = TGranted /\ exists l, locks g !! (7, 2) = Some l /\ holders l = {[2]}.
Proof.
  destruct (row_locks_exclusive sample_recovered sample_order 5 (7, 2) Exclusive 2
              sample_recovered_reachable sample_order_ok) as (_ & r & g & E & Hr).
  exists r, g. split; [exact E|].
  vm_compute in E. injection E as <- <-. split; [reflexivity|].
  destruct Hr as (l & El & _ & Hs). exists l. split; [exact El|].
  destruct (Hs eq_refl) as [_ [Hd|Hh]]; [|exact Hh]. by apply not_elem_of_empty in Hd.
Defined.

Lemma blocked_sessions_progress_witness :
  exists y, rtc (edge (wait_for (ls_inner sample_blocked))) 2 y /\ can_run sample_blocked y.
Proof.
  destruct (blocked_sessions_progress sample_blocked 2 (mkBlocked (7, 1) Exclusive 1)
              sample_blocked_reachable eq_refl) as (_ & y & Hy & Hr & _).
  exists y. split; [exact Hy|exact Hr].
Defined.

Lemma reacquire_exclusive_cases_witness :
  ~ locks_ok ∅ (reacquire_exclusive (ls_inner sample_held) (7, 1) 9).
Proof.
  assert (locks_ok ∅ (ls_inner sample_held)) as Hok
    by apply (li_locks _ (lock_reachable_inv _ sample_held_reachable)).
  intros H. apply (reacquire_exclusive_cases _ (7, 1) 9 Hok) with (h := 1) in H; [lia|].
  exists (mkRowLock Exclusive {[1]}). split; [reflexivity|]. simpl. set_solver.
Defined.
