(* ===== verification/Exec.v ===== *)
(** * Reading and writing row versions (executor/src/exec.rs)

    The resolver of a transaction's outcome across ranges, the scan of a
    table's visible rows, the re-check of a row under its lock, and the version
    writes of INSERT, UPDATE and DELETE on one row. The expressions that filter
    and compute the rows are evaluated elsewhere: a write takes the new row. The
    [debug_assert]s on the number of live versions are the subject of theorems
    instead of definitions. *)
From Stdlib Require Import ZArith Lia.
From stdpp Require Import base list gmap strings sorting relations.
From S2P Require Import Prelude Keys Store Datum RowEnc Mvcc StateMachine Catalog Errors XidAlloc.
Open Scope Z_scope.

(** [executor/src/lib.rs:514-521] NO_GLOBAL_SNAPSHOT *)
Definition NO_GLOBAL_SNAPSHOT : Snapshot := mkSnapshot GLOBAL_XID_BASE GLOBAL_XID_BASE [].

(** [executor/src/session.rs:140-147] durable_global_snapshot *)
Definition durable_global_snapshot (range0 : MemKv) : result ExecError Snapshot :=
  xmax ← read_next_global range0;
  Ok (mkSnapshot GLOBAL_XID_BASE xmax []).

(** [executor/src/exec.rs:499-501] snapshot_can_see *)
Definition snapshot_can_see (snapshot : Snapshot) (xid : Z) : bool :=
  (xid <? s_xmax snapshot) && negb (bool_decide (xid ∈ s_xip snapshot)).

(** [executor/src/exec.rs:516-532] global_status *)
Definition global_status (local global : MemKv) (gsnap : Snapshot) (xid : Z)
  : result KvError XidStatus :=
  st ← clog_get local xid;
  match st with
  | Prepared g =>
      if (s_xmax gsnap <=? g) || xip_contains (s_xip gsnap) g then Ok InProgress
      else clog_get global g
  | other => Ok other
  end.

Section Exec.
Context `{Ext}.

(** A decoded version: creator, deleter, row. *)
Definition Version : Type := (Z * Z * list Datum)%type.

(** One version considered by a scan: keep the visible one with the greatest
    creator. *)
Definition consider (status : Z -> result KvError XidStatus) (snap : Snapshot) (own : option Z)
    (visible : option (Z * list Datum)) (v : Version) : result KvError (option (Z * list Datum)) :=
  let '(xmin, xmax, row) := v in
  sat ← satisfies_mvcc xmin xmax snap own status;
  Ok (if (sat : bool) then
        match visible with
        | None => Some (xmin, row)
        | Some (cur, _) => if cur <? xmin then Some (xmin, row) else visible
        end
      else visible).

(** [executor/src/exec.rs:543-580] find_visible_one *)
Definition find_visible_one (kv global : MemKv) (gsnap snap : Snapshot) (own : option Z)
    (versions : list Version) : result ExecError (option (Z * list Datum)) :=
  map_err EKv (foldM (consider (global_status kv global gsnap) snap own) None versions).

(** [executor/src/exec.rs:574-578] the count [find_visible_one] asserts to be at
    most one *)
Definition live_count (status : Z -> result KvError XidStatus) (snap : Snapshot)
    (own : option Z) (versions : list Version) : nat :=
  length (List.filter (fun v : Version =>
    match satisfies_mvcc v.1.1 v.1.2 snap own status with Ok true => true | _ => false end)
    versions).

(** The settled global view of [eval_plan_qual]. *)
Definition settled_global : Snapshot := mkSnapshot 0 18446744073709551615 [].

(** A version superseded by another transaction, after the snapshot. *)
Definition changed_since (resolve : Z -> result KvError XidStatus) (snapshot : Snapshot)
    (xid : Z) (v : Version) : bool :=
  let '(_, xmx, _) := v in
  negb (xmx =? INVALID_XID) && negb (xmx =? xid)
  && match resolve xmx with Ok Committed => true | _ => false end
  && negb (snapshot_can_see snapshot xmx).

(** The versions of one row. *)
Definition read_versions (kv : MemKv) (table : Z) (rowid : Z) : result KvError (list Version) :=
  mapR (fun e => decode_tuple (snd e)) (scan_prefix kv (row_key table rowid)).

(** [executor/src/exec.rs:587-648] eval_plan_qual *)
Definition eval_plan_qual (kv global : MemKv) (procarray : ProcArray) (snapshot : Snapshot)
    (table : Table) (rowid xid : Z) (repeatable_read : bool)
  : result ExecError (option (Z * list Datum)) :=
  versions ← map_err EKv (read_versions kv (t_id table) rowid);
  let resolve := global_status kv global settled_global in
  if existsb (changed_since resolve snapshot xid) versions then
    if repeatable_read then Err ESerializationFailure
    else find_visible_one kv global settled_global (procarray_snapshot procarray)
           (Some xid) versions
  else find_visible_one kv global settled_global snapshot (Some xid) versions.

(** The inner loop of [scan_live]: the versions of one row, and what is left. *)
Fixpoint scan_row (status : Z -> result KvError XidStatus) (snapshot : Snapshot)
    (own : option Z) (prefix : bytes) (visible : option (Z * list Datum))
    (scanned : list (bytes * bytes))
  : result KvError (option (Z * list Datum) * list (bytes * bytes)) :=
  match scanned with
  | [] => Ok (visible, [])
  | (k, v) :: rest =>
      p ← row_prefix_of k;
      if decide (p = prefix) then
        t ← decode_tuple v;
        visible ← consider status snapshot own visible t;
        scan_row status snapshot own prefix visible rest
      else Ok (visible, scanned)
  end.

(** The outer loop: every turn consumes at least one entry. *)
Fixpoint scan_rows (fuel : nat) (status : Z -> result KvError XidStatus) (snapshot : Snapshot)
    (own : option Z) (table : Z) (scanned : list (bytes * bytes))
  : result KvError (list Version) :=
  match fuel, scanned with
  | S fuel, (k, v) :: _ =>
      prefix ← row_prefix_of k;
      rowid ← rowid_of table prefix;
      '(visible, rest) ← scan_row status snapshot own prefix None scanned;
      out ← scan_rows fuel status snapshot own table rest;
      Ok match visible with
         | Some (xmin, row) => (rowid, xmin, row) :: out
         | None => out
         end
  | _, _ => Ok []
  end.

(** [executor/src/exec.rs:729-774] scan_live *)
Definition scan_live (kv global : MemKv) (gsnap snapshot : Snapshot) (own : option Z)
    (table : Table) : result ExecError (list Version) :=
  let scanned := scan_prefix kv (table_prefix (t_id table)) in
  out ← map_err EKv (scan_rows (length scanned) (global_status kv global gsnap) snapshot own
                       (t_id table) scanned);
  Ok (sort_by_key (fun v => v.1.1) out).

(** [executor/src/exec.rs:330-333] INSERT's write of one row *)
Definition insert_op (table rowid xid : Z) (full : list Datum) : WriteOp :=
  Put (version_key_xid table rowid xid) (encode_tuple xid INVALID_XID full).

(** [executor/src/exec.rs:401-420] UPDATE's writes for one row *)
Definition update_ops (table rowid xid cur_xmin : Z) (cur_row next : list Datum) : list WriteOp :=
  if cur_xmin =? xid then
    [Put (version_key_xid table rowid xid) (encode_tuple xid INVALID_XID next)]
  else
    [Put (version_key_xid table rowid cur_xmin) (encode_tuple cur_xmin xid cur_row);
     Put (version_key_xid table rowid xid) (encode_tuple xid INVALID_XID next)].

(** [executor/src/exec.rs:468-482] DELETE's write for one row *)
Definition delete_ops (table rowid xid cur_xmin : Z) (cur_row : list Datum) : list WriteOp :=
  if cur_xmin =? xid then
    [Put (version_key_xid table rowid xid) (encode_tuple xid xid cur_row)]
  else
    [Put (version_key_xid table rowid cur_xmin) (encode_tuple cur_xmin xid cur_row)].

(** ** What a fold over versions finds *)

Definition status_total (status : Z -> result KvError XidStatus) : Prop :=
  forall x, exists st, status x = Ok st.

Definition visible (status : Z -> result KvError XidStatus) (snap : Snapshot)
    (own : option Z) (v : Version) : Prop :=
  satisfies_mvcc v.1.1 v.1.2 snap own status = Ok true.

Lemma committed_visible_total status x snap own :
  status_total status -> exists b, committed_visible x snap own status = Ok b.
Proof.
  intros Ht. unfold committed_visible. case_bool_decide; [eauto|].
  destruct (is_running snap x); [eauto|]. destruct (Ht x) as [st ->]. rsimpl. eauto.
Qed.

Lemma satisfies_total status xmin xmax snap own :
  status_total status -> exists b, satisfies_mvcc xmin xmax snap own status = Ok b.
Proof.
  intros Ht. unfold satisfies_mvcc.
  destruct (committed_visible_total status xmin snap own Ht) as [b ->]. rsimpl.
  destruct b; simpl; [|eauto]. destruct (xmax =? INVALID_XID); [eauto|].
  destruct (committed_visible_total status xmax snap own Ht) as [d ->]. rsimpl. eauto.
Qed.

(** The result of a fold: the greatest of the visible versions, if there is one. *)
Definition best_of (is_vis : Version -> Prop) (start : option (Z * list Datum))
    (vs : list Version) (res : option (Z * list Datum)) : Prop :=
  match res with
  | None => start = None /\ forall v, In v vs -> ~ is_vis v
  | Some (x, row) =>
      (start = Some (x, row) \/ exists xmax, In (x, xmax, row) vs /\ is_vis (x, xmax, row)) /\
      (forall v, In v vs -> is_vis v -> v.1.1 <= x) /\
      (forall y r, start = Some (y, r) -> y <= x)
  end.

Lemma fold_consider_best status snap own start vs :
  status_total status ->
  exists res, foldM (consider status snap own) start vs = Ok res /\
    best_of (visible status snap own) start vs res.
Proof.
  intros Ht. revert start; induction vs as [|[[xmin xmax] row] vs IH]; intros start; simpl.
  { eexists. split; [done|]. destruct start as [[x r]|]; simpl; [|by auto].
    split_and!; [by left|done|naive_solver]. }
  destruct (satisfies_total status xmin xmax snap own Ht) as [b Eb]. rewrite Eb. rsimpl.
  set (start' := if b then _ else _). destruct (IH start') as (res & -> & Hb).
  exists res. split; [done|].
  assert (visible status snap own (xmin, xmax, row) <-> b = true) as Hv.
  { unfold visible. simpl. rewrite Eb. naive_solver. }
  destruct res as [[x r]|]; simpl in *.
  - destruct Hb as (Hor & Hmax & Hst). unfold start' in Hor, Hst.
    destruct b, start as [[y ry]|]; try destruct (Z.ltb_spec y xmin); simpl in *;
      repeat match goal with H : context [Some _ = Some _ -> _ <= _] |- _ =>
        pose proof (H _ _ eq_refl); clear H end;
      (split_and!;
       [ destruct Hor as [Hor|(xm & Hin & Hvis)]; simplify_eq; eauto; right; eexists; naive_solver
       | intros v [<-|Hin] Hvis; simpl; [|by eauto]; first [lia | naive_solver]
       | intros y' r' E; simplify_eq; lia ]).
  - destruct Hb as [Hn Hno]. unfold start' in Hn.
    destruct b, start as [[y ry]|]; try destruct (Z.ltb_spec y xmin); simplify_eq.
    split; [done|]. intros v [<-|Hin]; [|by auto]. naive_solver.
Qed.

End Exec.
