(* ===== verification/ScanLive.v ===== *)
(** * The table scan returns what is visible (executor/src/exec.rs, scan_live)

    A well-formed table's entries are a list of version records ordered by row
    and creator. On it the scan's two nested loops are shown to compute, per
    row, the visible version with the greatest creator. *)
From Stdlib Require Import ZArith Lia.
From stdpp Require Import base list gmap strings sorting relations.
From S2P Require Import Prelude Keys Store Datum ExtModel RowEnc Mvcc StateMachine Catalog Errors XidAlloc Exec.
Open Scope Z_scope.

Section ScanLive.
Context `{ExtLaws}.

(** A stored version of a row. *)
Record VRec : Type := mkVRec { v_row : Z; v_xmin : Z; v_xmax : Z; v_data : list Datum }.

Definition vrec_ok (e : VRec) : Prop :=
  u64_ok (v_row e) /\ u64_ok (v_xmin e) /\ u64_ok (v_xmax e) /\ row_ok (v_data e).

Definition vrec_entry (t : Z) (e : VRec) : bytes * bytes :=
  (version_key_xid t (v_row e) (v_xmin e), encode_tuple (v_xmin e) (v_xmax e) (v_data e)).

Definition vrec_version (e : VRec) : Version := (v_xmin e, v_xmax e, v_data e).

(** Every key of the table holds a version record. *)
Definition table_ok (kv : MemKv) (t : Z) : Prop :=
  u32_ok t /\
  forall k v, kv_get kv k = Some v -> starts_with (table_prefix t) k = true ->
    exists e, vrec_ok e /\ (k, v) = vrec_entry t e.

(** A version record is stored. *)
Definition stored (kv : MemKv) (t : Z) (e : VRec) : Prop :=
  vrec_ok e /\ kv_get kv (version_key_xid t (v_row e) (v_xmin e))
               = Some (encode_tuple (v_xmin e) (v_xmax e) (v_data e)).

Definition vrec_lt (a b : VRec) : Prop :=
  v_row a < v_row b \/ (v_row a = v_row b /\ v_xmin a < v_xmin b).

Lemma vrec_entry_lt t a b :
  vrec_ok a -> vrec_ok b -> entry_lt (vrec_entry t a) (vrec_entry t b) -> vrec_lt a b.
Proof.
  intros (Ra & Xa & _ & _) (Rb & Xb & _ & _) Hlt. unfold entry_lt, vrec_entry in Hlt.
  cbn [fst] in Hlt. unfold vrec_lt. destruct (decide (v_row a = v_row b)) as [E|Hne].
  - right. split; [done|]. rewrite <- E in Hlt. unfold lex_lt, lex_ltb in Hlt.
    rewrite version_key_order in Hlt by done. destruct (Z.leb_spec (v_xmin b) (v_xmin a)); [done|lia].
  - left. unfold version_key_xid in Hlt. apply lex_lt_heads in Hlt; [|by rewrite !row_key_length].
    unfold lex_le, row_key in Hlt. rewrite lex_le_app_same in Hlt.
    unfold put_u64 in Hlt. rewrite lex_leb_be_bytes in Hlt by done. apply Z.leb_le in Hlt. lia.
Qed.

(** A well-formed table scans to an ordered list of records. *)
Lemma scan_table_records kv t :
  table_ok kv t ->
  exists es, scan_prefix kv (table_prefix t) = vrec_entry t <$> es /\
    Forall vrec_ok es /\ StronglySorted vrec_lt es /\
    forall e, In e es <-> stored kv t e.
Proof.
  intros [Ht Hok].
  assert (exists es, scan_prefix kv (table_prefix t) = vrec_entry t <$> es /\ Forall vrec_ok es)
    as (es & Es & Hes).
  { assert (Forall (fun kve => exists e, vrec_ok e /\ kve = vrec_entry t e)
              (scan_prefix kv (table_prefix t))) as HF.
    { apply List.Forall_forall. intros [k v] [Hg Hs]%In_scan_prefix. by apply Hok. }
    induction HF as [|kve l (e & He & ->) _ (es & -> & Hes)]; [by exists []|].
    exists (e :: es). by split; [|constructor]. }
  exists es. split_and!; [done..| |].
  - pose proof (scan_prefix_strict kv (table_prefix t)) as Hs. rewrite Es in Hs.
    apply StronglySorted_fmap_inv in Hs. rewrite List.Forall_forall in Hes.
    eapply StronglySorted_weaken_in; [|exact Hs]. intros a b Ha Hb.
    apply vrec_entry_lt; auto.
  - intros e. assert (In e es <-> vrec_ok e /\ In (vrec_entry t e) (vrec_entry t <$> es)) as ->.
    { split.
      - intros Hin. rewrite List.Forall_forall in Hes. split; [auto|by apply in_map].
      - intros [He Hin]. apply in_map_iff in Hin as (e' & E & Hin).
        rewrite List.Forall_forall in Hes. destruct (Hes _ Hin) as (R' & X' & M' & D').
        destruct He as (R & X & M & D). unfold vrec_entry in E.
        apply pair_equal_spec in E as [Ek Ev].
        apply version_key_inj in Ek as (_ & Er & Ex); try done.
        apply (f_equal decode_tuple) in Ev. rewrite !decode_tuple_encode in Ev by done.
        destruct e, e'; simpl in *. by simplify_eq. }
    rewrite <- Es. unfold stored, vrec_entry. rewrite In_scan_prefix.
    split; [naive_solver|]. intros [He Hg]. split; [done|]. split; [done|].
    unfold version_key_xid, row_key. rewrite <- app_assoc. apply starts_with_app.
Qed.

Section Loops.
Context (status : Z -> result KvError XidStatus) (snap : Snapshot) (own : option Z) (t : Z).
Hypothesis Ht : u32_ok t.
Hypothesis Hst : status_total status.

Abbreviation vis := (visible status snap own).

(** The inner loop consumes exactly the leading records of its row. *)
Lemma scan_row_split r start es :
  u64_ok r -> Forall vrec_ok es ->
  exists g rest, es = g ++ rest /\ Forall (fun e => v_row e = r) g /\
    (forall e rest', rest = e :: rest' -> v_row e <> r) /\
    scan_row status snap own (row_key t r) start (vrec_entry t <$> es) =
      (v ← foldM (consider status snap own) start (vrec_version <$> g);
       Ok (v, vrec_entry t <$> rest)).
Proof.
  intros Hr Hes. revert start.
  induction Hes as [|e es (R & X & M & D) _ IH]; intros start.
  { exists [], []. done. }
  rewrite fmap_cons. unfold vrec_entry at 1. cbn [scan_row].
  rewrite row_prefix_of_version. rsimpl. case_decide as Ek.
  - apply row_key_inj in Ek as [_ Er]; try done. rewrite decode_tuple_encode by done. rsimpl.
    destruct (fold_consider_best status snap own start [vrec_version e] Hst) as (v & Ev & _).
    cbn [foldM] in Ev. apply bind_Ok in Ev as (v' & Ev & [= ->]).
    fold (vrec_version e). rewrite Ev. rsimpl. destruct (IH v) as (g & rest & -> & Hg & Hrest & E).
    exists (e :: g), rest. split_and!; [done|by constructor|done|].
    rewrite E, fmap_cons. cbn [foldM]. rewrite Ev. by rsimpl.
  - exists [], (e :: es). split_and!; [done|done| |done].
    intros e' rest' [= <- <-] Er. apply Ek. by rewrite Er.
Qed.

(** The visible record of row [r] with the greatest creator. *)
Definition best_record (es : list VRec) (r x : Z) (d : list Datum) : Prop :=
  exists xmax, In (mkVRec r x xmax d) es /\ vis (x, xmax, d) /\
    forall e, In e es -> v_row e = r -> vis (vrec_version e) -> v_xmin e <= x.

Lemma vrec_lt_tail es e e' :
  StronglySorted vrec_lt es -> In e es -> In e' es -> v_row e = v_row e' ->
  v_xmin e = v_xmin e' -> e = e'.
Proof.
  intros Hs; induction Hs as [|a l _ IH Ha]; [done|]. rewrite List.Forall_forall in Ha.
  unfold vrec_lt in Ha.
  intros [->|He] [->|He'] Hr Hx; auto.
  - specialize (Ha _ He'). lia.
  - specialize (Ha _ He). lia.
Qed.

(** The result of the inner loop on one row's records is that row's best. *)
Lemma group_best es g rest r res :
  StronglySorted vrec_lt es -> es = g ++ rest -> Forall (fun e => v_row e = r) g ->
  Forall (fun e => r < v_row e) rest ->
  best_of vis None (vrec_version <$> g) res ->
  forall x d, res = Some (x, d) <-> best_record es r x d.
Proof.
  intros Hs -> Hg Hrest Hb x d. rewrite List.Forall_forall in Hg, Hrest.
  assert (forall e, In e (g ++ rest) -> v_row e = r -> In e g) as Hin.
  { intros e [He|He]%in_app_or Hr; [done|]. specialize (Hrest _ He). lia. }
  split.
  - intros ->. destruct Hb as ([?|(xmax & Hv & Hvis)] & Hmax & _); [done|].
    apply in_map_iff in Hv as (e & Ee & He). exists xmax. pose proof (Hg _ He) as Hr.
    destruct e as [re xe me de]. unfold vrec_version in Ee. simpl in *. simplify_eq.
    split_and!; [by apply in_or_app; left|done|].
    intros e' He' Hr' Hv'. apply (Hmax (vrec_version e')); [|done]. apply in_map. by apply Hin.
  - intros (xmax & He & Hvis & Hmax). destruct res as [[y dy]|].
    + destruct Hb as ([?|(ym & Hy & Hyv)] & Hym & _); [done|].
      apply in_map_iff in Hy as (e & Ee & He'). pose proof (Hg _ He') as Hr.
      assert (v_xmin e = x) as Hx.
      { unfold vrec_version in Ee. simplify_eq. apply Z.le_antisymm.
        - apply Hmax; [by apply in_or_app; left|done|done].
        - apply (Hym (x, xmax, d)); [|done].
          apply in_map_iff. eexists (mkVRec (v_row e) x xmax d). split; [done|]. by apply Hin. }
      assert (e = mkVRec r x xmax d) as ->.
      { eapply vrec_lt_tail; [exact Hs|by apply in_or_app; left|done|done|done]. }
      unfold vrec_version in Ee. simpl in Ee. by simplify_eq.
    + destruct Hb as [_ Hno]. destruct (Hno (x, xmax, d)); [|done].
      apply in_map_iff. eexists (mkVRec r x xmax d). split; [done|]. by apply Hin.
Qed.

(** After the records of row [r], only greater rows are left. *)
Lemma rest_greater es g rest r :
  StronglySorted vrec_lt es -> es = g ++ rest -> Forall (fun e => v_row e = r) g ->
  g <> [] -> (forall e rest', rest = e :: rest' -> v_row e <> r) ->
  Forall (fun e => r < v_row e) rest.
Proof.
  intros Hs -> Hg Hne Hhd. destruct g as [|e0 g]; [done|]. inversion Hg; subst.
  apply StronglySorted_inv in Hs as [Hs He0]. rewrite List.Forall_forall in He0.
  apply List.Forall_forall. intros e He.
  destruct rest as [|e1 rest]; [done|]. specialize (Hhd e1 rest eq_refl).
  assert (v_row e0 < v_row e1) as H01.
  { specialize (He0 e1). unfold vrec_lt in He0.
    destruct He0 as [|[? _]]; [apply in_or_app; right; by left|done|congruence]. }
  destruct He as [->|He]; [done|].
  apply StronglySorted_app_1_r in Hs. apply StronglySorted_inv in Hs as [_ Hs].
  rewrite List.Forall_forall in Hs. specialize (Hs _ He). unfold vrec_lt in Hs. lia.
Qed.

(** Rows other than [r] have their best record in the rest. *)
Lemma best_record_rest g rest r r' x d :
  Forall (fun e => v_row e = r) g -> r < r' ->
  best_record (g ++ rest) r' x d <-> best_record rest r' x d.
Proof.
  intros Hg Hr. rewrite List.Forall_forall in Hg. unfold best_record.
  split; intros (xmax & He & Hv & Hmax); exists xmax.
  - apply in_app_or in He as [He|He]; [apply Hg in He; simpl in He; lia|].
    split_and!; [done|done|]. intros e He'. apply Hmax. apply in_or_app. by right.
  - split_and!; [apply in_or_app; by right|done|].
    intros e [He'|He']%in_app_or Hre; [apply Hg in He'; lia|]. by apply Hmax.
Qed.

Lemma scan_rows_correct fuel es :
  (length es <= fuel)%nat -> Forall vrec_ok es -> StronglySorted vrec_lt es ->
  exists out, scan_rows fuel status snap own t (vrec_entry t <$> es) = Ok out /\
    StronglySorted (fun a b : Version => a.1.1 < b.1.1) out /\
    forall r x d, In (r, x, d) out <-> best_record es r x d.
Proof.
  revert es; induction fuel as [|fuel IH]; intros [|e es] Hf Hok Hs; simpl in Hf; try lia.
  1-2: exists []; split_and!; [done|constructor|]; intros r x d; split;
       [by intros []|intros (? & [] & _)].
  pose proof Hok as Hok0. inversion Hok as [|? ? (R & X & M & D) _]; subst.
  destruct (scan_row_split (v_row e) None (e :: es) R Hok0) as (g & rest & Eg & Hg & Hhd & E).
  assert (exists g', g = e :: g') as [g' ->].
  { destruct g as [|e' g']; simpl in Eg; [|by simplify_eq; eauto]. subst rest.
    by destruct (Hhd e es eq_refl). }
  pose proof (rest_greater _ _ _ _ Hs Eg Hg ltac:(done) Hhd) as Hgt.
  assert (Forall vrec_ok rest /\ StronglySorted vrec_lt rest) as [Hok' Hs'].
  { rewrite Eg in Hok0, Hs. apply Forall_app in Hok0 as [_ ?].
    split; [done|by eapply StronglySorted_app_1_r]. }
  destruct (IH rest) as (out & Eo & Hso & Hout); [|done|done|].
  { apply (f_equal length) in Eg. rewrite length_app in Eg. simpl in Eg. lia. }
  destruct (fold_consider_best status snap own None (vrec_version <$> e :: g') Hst)
    as (res & Er & Hbest).
  rewrite Er in E. cbn [mbind result_bind] in E.
  assert (scan_rows (S fuel) status snap own t (vrec_entry t <$> e :: es) =
          Ok match res with Some (xmin, row) => (v_row e, xmin, row) :: out | None => out end) as ->.
  { rewrite fmap_cons in E |- *. unfold vrec_entry at 1. cbn [scan_rows].
    rewrite row_prefix_of_version. rsimpl.
    rewrite <- (app_nil_r (row_key t (v_row e))), rowid_of_row_key, app_nil_r by done. rsimpl.
    unfold vrec_entry at 1 in E. rewrite E. rsimpl. rewrite Eo. by rsimpl. }
  pose proof (group_best _ _ _ _ res Hs Eg Hg Hgt Hbest) as Hgb.
  assert (Forall (fun v : Version => v_row e < v.1.1) out) as Hlt.
  { apply List.Forall_forall. intros [[r x] d] (xm & Hin & _)%Hout.
    rewrite List.Forall_forall in Hgt. by apply Hgt in Hin. }
  assert (forall r x d, In (r, x, d) out <-> best_record (e :: es) r x d /\ r <> v_row e) as Hout'.
  { intros r x d. rewrite Hout, Eg. split.
    - intros Hb. assert (v_row e < r) as Hr.
      { destruct Hb as (xm & Hin & _). rewrite List.Forall_forall in Hgt. by apply Hgt in Hin. }
      rewrite (best_record_rest _ _ (v_row e)) by done. split; [done|lia].
    - intros [Hb Hne]. rewrite <- (best_record_rest (e :: g') _ (v_row e)); [done|done|].
      destruct Hb as (xm & Hin & _). rewrite List.Forall_forall in Hg, Hgt.
      apply in_app_or in Hin as [Hin|Hin]; [apply Hg in Hin|apply Hgt in Hin]; simpl in *; lia. }
  eexists. split; [reflexivity|].
  destruct res as [[x0 d0]|].
  - split; [by constructor|]. intros r x d. simpl. rewrite Hout'.
    destruct (decide (r = v_row e)) as [->|Hne]; [|naive_solver].
    rewrite <- Hgb. naive_solver.
  - split; [done|]. intros r x d. rewrite Hout'. split; [tauto|].
    intros Hb. split; [done|]. intros ->. by apply Hgb in Hb.
Qed.

End Loops.

(** C22: A table scan returns exactly what is visible. On a well-formed table,
    with a readable commit log, [scan_live] succeeds and returns, in strictly
    ascending row order, for each row its visible version with the greatest
    creator, and nothing else. *)
Theorem scan_live_correct kv global gsnap snapshot own table :
  table_ok kv (t_id table) -> status_total (global_status kv global gsnap) ->
  exists out, scan_live kv global gsnap snapshot own table = Ok out /\
    StronglySorted (fun a b : Version => a.1.1 < b.1.1) out /\
    forall r x d, In (r, x, d) out <->
      exists xmax, stored kv (t_id table) (mkVRec r x xmax d) /\
        visible (global_status kv global gsnap) snapshot own (x, xmax, d) /\
        forall e, stored kv (t_id table) e -> v_row e = r ->
          visible (global_status kv global gsnap) snapshot own (vrec_version e) ->
          v_xmin e <= x.
Proof.
  intros Hok Hst. pose proof Hok as [Ht _].
  destruct (scan_table_records kv _ Hok) as (es & Es & Hes & Hs & Hin).
  unfold scan_live. rewrite Es.
  destruct (scan_rows_correct (global_status kv global gsnap) snapshot own (t_id table) Ht Hst
              (length (vrec_entry (t_id table) <$> es)) es) as (out & -> & Hso & Hout);
    [by rewrite length_fmap|done|done|].
  rsimpl. eexists. split; [reflexivity|].
  rewrite sort_by_key_id by (eapply StronglySorted_weaken_in; [|exact Hso]; simpl; lia).
  split; [done|]. intros r x d. rewrite Hout. unfold best_record.
  by setoid_rewrite Hin.
Qed.

End ScanLive.

(** ** A concrete table *)

Definition sample_table : Table := mkTable 7 "t" [] None.

Definition sample_rec : VRec (H := model_ext) := mkVRec 1 3 0 [DInt4 42].

Definition sample_store : MemKv :=
  kv_put kv_new (version_key_xid 7 1 3) (encode_tuple (H := model_ext) 3 0 [DInt4 42]).

Lemma sample_rec_ok : vrec_ok sample_rec.
Proof.
  unfold vrec_ok, sample_rec; simpl. split_and!; try width_lia.
  repeat constructor; simpl; try width_lia.
Qed.

Lemma sample_store_ok : table_ok (H := model_ext) sample_store 7.
Proof.
  split; [width_lia|]. intros k v. unfold sample_store. rewrite kv_get_put.
  case_decide as Ek; [|done]. intros [= <-] _. exists sample_rec.
  split; [apply sample_rec_ok|]. by subst k.
Qed.

Lemma sample_store_status : status_total (global_status sample_store sample_store NO_GLOBAL_SNAPSHOT).
Proof.
  intros x. exists InProgress. unfold global_status, clog_get, sample_store.
  rewrite kv_get_put, decide_False; [done|]. intros E.
  apply (f_equal (take 4)) in E. vm_compute in E. discriminate.
Qed.

Lemma scan_live_correct_witness :
  exists out, scan_live (H := model_ext) sample_store sample_store NO_GLOBAL_SNAPSHOT
                (mkSnapshot 3 4 [3]) (Some 3) sample_table = Ok out /\
    In (1, 3, [DInt4 42]) out.
Proof.
  destruct (scan_live_correct (H := model_ext) sample_store sample_store NO_GLOBAL_SNAPSHOT
              (mkSnapshot 3 4 [3]) (Some 3) sample_table sample_store_ok sample_store_status)
    as (out & E & _ & Hout).
  exists out. split; [exact E|]. apply Hout. exists 0. split_and!.
  - split; [apply sample_rec_ok|]. reflexivity.
  - reflexivity.
  - intros e [(Re & Xe & _) He] Hr _. revert He. unfold sample_store. rewrite kv_get_put.
    case_decide as Ek; [|done]. intros _. rewrite Hr in Ek.
    assert (3 = v_xmin e) as <-; [|by apply Z.le_refl].
    apply (version_key_inj 7 1 3 7 1 (v_xmin e)); [width_lia..|exact Xe|exact Ek].
Defined.
