(* ===== verification/RowHistory.v ===== *)
(** * The history of one row: abstract machine and invariant

    What transactions do to the versions of one row, with the store reduced to
    a map of versions and a set of committed ids. The invariant orders the
    versions that count into a chain, newest first; from it follow that the
    re-check under the row lock always picks the newest version, and that no
    reader ever sees two. [RowHistoryKv] shows that the code's steps on the
    key-value store are steps of this machine. *)
From Stdlib Require Import ZArith Lia.
From stdpp Require Import base list gmap strings sorting relations.
From S2P Require Import Prelude Keys Store Datum Mvcc XidAlloc.
Open Scope Z_scope.

Section RowHistory.
Context {Row : Type}.

(** The writes of a statement on this row, computed under the lock and not yet
    in the store: the version [cur] is replaced by a new one, or deleted. *)
Inductive Pending : Type :=
| PUpdate (cur : Z) (cur_row next : Row)
| PDelete (cur : Z) (cur_row : Row).

Definition p_cur (p : Pending) : Z :=
  match p with PUpdate c _ _ => c | PDelete c _ => c end.
Definition p_row (p : Pending) : Row :=
  match p with PUpdate _ r _ => r | PDelete _ r => r end.

Record Abs : Type := mkAbs {
  a_vers : gmap Z (Z * Row);
  a_com : gset Z;
  a_next : Z;
  a_running : gset Z;
  a_active : gset Z;
  a_lock : option Z;
  a_pending : option Pending;
  a_snaps : list Snapshot;
  a_rr : gmap Z Snapshot
}.

(** The snapshot the registry gives now. *)
Definition fresh (a : Abs) : Snapshot :=
  procarray_snapshot (mkProcArray (a_next a) (a_running a) PDurable).

(** Whose effects a reader sees. *)
Definition seen (a : Abs) (s : Snapshot) (own : option Z) (x : Z) : Prop :=
  own = Some x \/ (x ∈ a_com a /\ is_running s x = false).

Definition avisible (a : Abs) (s : Snapshot) (own : option Z) (x : Z) : Prop :=
  exists m row, a_vers a !! x = Some (m, row) /\ seen a s own x /\
    (m = INVALID_XID \/ ~ seen a s own m).

(** Some version was superseded by another transaction the snapshot misses. *)
Definition changed (a : Abs) (s : Snapshot) (x : Z) : Prop :=
  exists y m row, a_vers a !! y = Some (m, row) /\ m <> INVALID_XID /\ m <> x /\
    m ∈ a_com a /\ is_running s m = true.

(** The re-check under the lock picks version [c]. *)
Definition selects (a : Abs) (s : Snapshot) (x : Z) (rr : bool) (c : Z) (row : Row) : Prop :=
  (exists m, a_vers a !! c = Some (m, row)) /\
  ((changed a s x /\ rr = false /\ avisible a (fresh a) (Some x) c) \/
   (~ changed a s x /\ avisible a s (Some x) c)).

(** The snapshot of a statement of [x]: fixed under REPEATABLE READ. *)
Definition statement_snapshot (a : Abs) (x : Z) (s : Snapshot) (rr : bool) : Prop :=
  s ∈ a_snaps a /\
  match a_rr a !! x with Some s0 => s = s0 /\ rr = true | None => rr = false end.

Definition flush (a : Abs) (x : Z) (p : Pending) : gmap Z (Z * Row) :=
  match p with
  | PUpdate c cur next =>
      if c =? x then <[x := (INVALID_XID, next)]> (a_vers a)
      else <[x := (INVALID_XID, next)]> (<[c := (x, cur)]> (a_vers a))
  | PDelete c cur => <[c := (x, cur)]> (a_vers a)
  end.

Definition set_vers v a := mkAbs v (a_com a) (a_next a) (a_running a) (a_active a) (a_lock a)
  None (a_snaps a) (a_rr a).
Definition set_lock l a := mkAbs (a_vers a) (a_com a) (a_next a) (a_running a) (a_active a) l
  (a_pending a) (a_snaps a) (a_rr a).
Definition set_pending p a := mkAbs (a_vers a) (a_com a) (a_next a) (a_running a) (a_active a)
  (a_lock a) p (a_snaps a) (a_rr a).
Definition end_txn com x p a := mkAbs (a_vers a) com (a_next a) (a_running a)
  (a_active a ∖ {[x]}) (a_lock a) p (a_snaps a) (a_rr a).

(** The next id, with the snapshot it is bound to under REPEATABLE READ. *)
Definition begin_txn iso a := mkAbs (a_vers a) (a_com a) (a_next a + 1)
  ({[a_next a]} ∪ a_running a) ({[a_next a]} ∪ a_active a) (a_lock a) (a_pending a) (a_snaps a)
  (partial_alter (fun _ => iso) (a_next a) (a_rr a)).

(** A transaction begins, takes snapshots, inserts the row, locks it, plans and
    flushes writes, ends by a commit or an abort, is deregistered, and releases
    the lock; the process may crash at any point. *)
Inductive astep : Abs -> Abs -> Prop :=
| as_begin a iso :
    (forall s, iso = Some s -> s ∈ a_snaps a) ->
    astep a (begin_txn iso a)
| as_snapshot a :
    astep a (mkAbs (a_vers a) (a_com a) (a_next a) (a_running a) (a_active a) (a_lock a)
               (a_pending a) (fresh a :: a_snaps a) (a_rr a))
| as_insert a x row :
    x ∈ a_active a -> a_vers a = ∅ ->
    astep a (set_vers {[x := (INVALID_XID, row)]} a)
| as_lock a x : x ∈ a_active a -> a_lock a = None -> astep a (set_lock (Some x) a)
| as_plan a x s rr p :
    x ∈ a_active a -> a_lock a = Some x -> a_pending a = None ->
    statement_snapshot a x s rr -> selects a s x rr (p_cur p) (p_row p) ->
    astep a (set_pending (Some p) a)
| as_flush a x p :
    a_lock a = Some x -> a_pending a = Some p -> astep a (set_vers (flush a x p) a)
| as_commit a x :
    x ∈ a_active a -> (a_lock a = Some x -> a_pending a = None) ->
    astep a (end_txn ({[x]} ∪ a_com a) x (a_pending a) a)
| as_abort a x :
    x ∈ a_active a ->
    astep a (end_txn (a_com a) x
               (if decide (a_lock a = Some x) then None else a_pending a) a)
| as_finish a x :
    (x ∉ a_active a) ->
    astep a (mkAbs (a_vers a) (a_com a) (a_next a) (a_running a ∖ {[x]}) (a_active a)
               (a_lock a) (a_pending a) (a_snaps a) (a_rr a))
| as_release a x :
    a_lock a = Some x -> (x ∉ a_running a) -> astep a (set_lock None a)
| as_crash a :
    astep a (mkAbs (a_vers a) (a_com a) (a_next a) ∅ ∅ None None [] ∅).

(** ** The invariant *)

(** [b] directly supersedes [a] in the chain. *)
Definition adj (chain : list Z) (b a : Z) : Prop :=
  exists l1 l2, chain = l1 ++ b :: a :: l2.

(** A version [m] may be overwritten by: no one, or a transaction whose deletion
    does not count. *)
Definition idle_xid (a : Abs) (m : Z) : Prop := (m ∉ a_active a) /\ (m ∉ a_com a).

Record chain_inv (a : Abs) (chain : list Z) : Prop := {
  c_next : 1 <= a_next a;
  c_act : a_active a ⊆ a_running a;
  c_disj : forall x, x ∈ a_active a -> x ∈ a_com a -> False;
  c_run : forall x, x ∈ a_running a -> 1 <= x < a_next a;
  c_com : forall x, x ∈ a_com a -> 1 <= x < a_next a;
  c_lock : forall x, a_lock a = Some x -> 1 <= x < a_next a;
  c_ver : forall x m row, a_vers a !! x = Some (m, row) ->
          1 <= x < a_next a /\ (m = INVALID_XID \/ 1 <= m < a_next a) /\
          (x ∈ chain \/ idle_xid a x);
  c_in : forall x, x ∈ chain -> is_Some (a_vers a !! x);
  c_nodup : NoDup chain;
  c_adj : forall b x, adj chain b x ->
          (exists row, a_vers a !! x = Some (b, row)) /\ x ∈ a_com a /\ (x ∉ a_running a);
  c_head : forall h r, chain = h :: r ->
           (h ∈ a_com a \/ h ∈ a_active a) /\
           (r <> [] -> h ∈ a_running a -> a_lock a = Some h);
  c_del : forall h r m row, chain = h :: r -> a_vers a !! h = Some (m, row) ->
          idle_xid a m \/
          ((m = h \/ (h ∈ a_com a /\ (h ∉ a_running a))) /\
           (m ∈ a_running a -> a_lock a = Some m));
  c_snap : forall s, s ∈ a_snaps a ->
           s_xmax s <= a_next a /\ (forall x, x ∈ a_running a -> is_running s x = true) /\
           (forall b x, adj chain b x -> is_running s b = false -> is_running s x = false);
  c_rr : forall x s, a_rr a !! x = Some s -> x ∈ a_active a ->
         s ∈ a_snaps a /\ (forall y, adj chain x y -> is_running s y = false);
  c_pend : forall p, a_pending a = Some p -> exists x r m row,
           a_lock a = Some x /\ x ∈ a_active a /\ chain = p_cur p :: r /\
           a_vers a !! p_cur p = Some (m, row) /\ idle_xid a m /\
           (p_cur p = x \/ (p_cur p ∈ a_com a /\ (p_cur p ∉ a_running a))) /\
           (forall s, a_rr a !! x = Some s -> p_cur p <> x -> is_running s (p_cur p) = false)
}.

(** ** Chains *)

Lemma adj_nil b x : ~ adj [] b x.
Proof. intros (l1 & l2 & E). by destruct l1. Qed.

Lemma adj_cons h r b x : adj (h :: r) b x <-> (exists r', h = b /\ r = x :: r') \/ adj r b x.
Proof.
  split.
  - intros ([|h' l1] & l2 & E); simplify_eq/=; [left; by eexists|right]. by exists l1, l2.
  - intros [(r' & -> & ->)|(l1 & l2 & ->)]; [by exists [], r'|by exists (h :: l1), l2].
Qed.

Lemma adj_single h b x : ~ adj [h] b x.
Proof. rewrite adj_cons. intros [(? & _ & ?)|H]; [done|]. by apply adj_nil in H. Qed.

Lemma adj_elem chain b x : adj chain b x -> b ∈ chain /\ x ∈ chain.
Proof. intros (l1 & l2 & ->). set_solver. Qed.

Lemma chain_not_head chain x :
  x ∈ chain -> (exists r, chain = x :: r) \/ exists b, adj chain b x.
Proof.
  induction chain as [|h r IH]; [by intros ?%not_elem_of_nil|].
  intros [->|Hx]%elem_of_cons; [left; eauto|right].
  destruct (IH Hx) as [(r' & ->)|(b & Hb)].
  - exists h. apply adj_cons. left. eauto.
  - exists b. apply adj_cons. by right.
Qed.

(** The successor of a member of a duplicate-free chain is not its head. *)
Lemma adj_not_head h r b : NoDup (h :: r) -> ~ adj (h :: r) b h.
Proof.
  intros [Hh _]%NoDup_cons. rewrite adj_cons.
  intros [(r' & -> & ->)|[_ Hin]%adj_elem]; set_solver.
Qed.

Lemma fresh_running a x :
  is_running (fresh a) x = false <-> x < a_next a /\ (x ∉ a_running a).
Proof. apply procarray_snapshot_running. Qed.

Section Facts.
Context (a : Abs) (chain : list Z) (Hi : chain_inv a chain).

Lemma chain_member x : x ∈ chain -> x ∈ a_com a \/ (x ∈ a_active a /\ exists r, chain = x :: r).
Proof.
  intros [[r ->]|[b Hb]]%chain_not_head.
  - destruct (c_head _ _ Hi x r eq_refl) as [[|] _]; eauto.
  - left. by apply (c_adj _ _ Hi) in Hb as (_ & ? & _).
Qed.

(** A version whose creator counts is in the chain. *)
Lemma counted_in_chain x :
  is_Some (a_vers a !! x) -> x ∈ a_active a \/ x ∈ a_com a -> x ∈ chain.
Proof.
  intros [[m row] E] Hc. destruct (c_ver _ _ Hi _ _ _ E) as (_ & _ & [?|[Ha Hcm]]); [done|].
  tauto.
Qed.

(** In the chain a snapshot that misses nothing older misses nothing at all:
    the effects it shows are downward closed. *)
Definition snapshot_legit (s : Snapshot) (own : option Z) : Prop :=
  (forall b x, adj chain b x -> is_running s b = false -> is_running s x = false) /\
  (forall x y, own = Some x -> adj chain x y -> is_running s y = false).

Lemma seen_adj s own b x :
  snapshot_legit s own -> adj chain b x -> seen a s own b -> seen a s own x.
Proof.
  intros [Hcl Hown] Hadj Hb. destruct (c_adj _ _ Hi _ _ Hadj) as (_ & Hcom & _).
  right. split; [done|]. destruct Hb as [->|[_ Hb]]; eauto.
Qed.

Lemma seen_below s own l1 z l2 :
  snapshot_legit s own -> chain = l1 ++ z :: l2 -> seen a s own z ->
  forall y, y ∈ l2 -> seen a s own y.
Proof.
  intros Hl. revert l1 z. induction l2 as [|w l2 IH]; intros l1 z E Hz y; [by intros ?%not_elem_of_nil|].
  assert (seen a s own w) as Hw.
  { apply (seen_adj s own z w Hl); [|done]. by exists l1, l2. }
  intros [->|Hy]%elem_of_cons; [done|].
  apply (IH (l1 ++ [z]) w); [|done|done]. by rewrite E, <- app_assoc.
Qed.

Lemma seen_counts s own x :
  (forall y, own = Some y -> y ∈ a_active a) -> seen a s own x -> x ∈ a_active a \/ x ∈ a_com a.
Proof. intros Hown [E|[Hc _]]; [left; by apply Hown|by right]. Qed.

(** No reader sees two versions of the row. *)
Lemma at_most_one_visible s own x y :
  snapshot_legit s own -> (forall z, own = Some z -> z ∈ a_active a) ->
  avisible a s own x -> avisible a s own y -> x = y.
Proof.
  intros Hl Hown (mx & rx & Ex & Sx & Dx) (my & ry & Ey & Sy & Dy).
  assert (x ∈ chain) as Cx by (apply counted_in_chain; [eauto|by eapply seen_counts]).
  assert (y ∈ chain) as Cy by (apply counted_in_chain; [eauto|by eapply seen_counts]).
  destruct (decide (x = y)) as [|Hne]; [done|exfalso].
  enough (forall x y my ry, x <> y -> a_vers a !! y = Some (my, ry) ->
            seen a s own x -> my = INVALID_XID \/ ~ seen a s own my ->
            forall l1 l2, chain = l1 ++ x :: l2 -> y ∈ l2 -> False) as Hw.
  { apply list_elem_of_split in Cx as (l1 & l2 & E). rewrite E in Cy.
    apply elem_of_app in Cy as [Cy|[->|Cy]%elem_of_cons]; [|done|by eapply (Hw x y)].
    apply list_elem_of_split in Cy as (k1 & k2 & Ek).
    apply (Hw y x mx rx ltac:(done) Ex Sy Dx k1 (k2 ++ x :: l2)); [|set_solver].
    by rewrite E, Ek, <- app_assoc. }
  clear - Hi Hl. intros x y my ry Hne Ey Sx Dy l1 l2 E Hy.
  apply list_elem_of_split in Hy as (k1 & k2 & Ek).
  assert (exists b, adj chain b y /\ seen a s own b) as (b & Hadj & Hb).
  { destruct (exists_last (l := x :: k1)) as (k & b & Eb); [done|].
    exists b. split.
    - exists (l1 ++ k), k2. rewrite E, Ek.
      change (x :: k1 ++ y :: k2) with ((x :: k1) ++ y :: k2). by rewrite Eb, <- !app_assoc.
    - destruct k as [|x' k]; injection Eb as E1 E2; [by subst|].
      apply (seen_below s own l1 x l2 Hl E Sx). rewrite Ek, E2. set_solver. }
  destruct (c_adj _ _ Hi _ _ Hadj) as ((row & Ey') & _). rewrite Ey' in Ey. simplify_eq.
  destruct Dy as [->|Dy]; [|done].
  apply adj_elem in Hadj as [Hb0 _]. apply (c_in _ _ Hi) in Hb0 as [[m r] E0].
  apply (c_ver _ _ Hi) in E0 as (? & _). unfold INVALID_XID in *. lia.
Qed.

(** A transaction that counts and supersedes a version is seen by the lock's
    holder, in the snapshot its re-check uses. *)
Lemma superseder_seen s x m :
  x ∈ a_active a -> a_lock a = Some x ->
  m ∈ a_active a \/ m ∈ a_com a -> (m ∈ a_running a -> a_lock a = Some m) ->
  (m <> x -> m ∈ a_com a -> is_running s m = false) \/ s = fresh a ->
  seen a s (Some x) m.
Proof.
  intros Hx Hl Hc Hrun Hs.
  destruct (decide (m = x)) as [->|Hne]; [by left|].
  destruct Hc as [Ha|Hc].
  { apply (c_act _ _ Hi) in Ha. apply Hrun in Ha. congruence. }
  right. split; [done|]. destruct Hs as [Hs| ->]; [by apply Hs|].
  apply fresh_running. split; [by apply (c_com _ _ Hi)|]. intros Hr%Hrun. congruence.
Qed.

(** The re-check picks the head of the chain, free of any counting deletion. *)
Lemma selects_head s x rr c row :
  x ∈ a_active a -> a_lock a = Some x -> s ∈ a_snaps a -> selects a s x rr c row ->
  exists r m, chain = c :: r /\ a_vers a !! c = Some (m, row) /\ idle_xid a m /\
    (c = x \/ (c ∈ a_com a /\ (c ∉ a_running a))) /\
    (rr = true -> c <> x -> is_running s c = false).
Proof.
  intros Hx Hl Hs [[m Em] Hsel].
  assert (exists s', avisible a s' (Some x) c /\
            ((forall z, z ∈ a_running a -> is_running s' z = true) /\ (rr = true -> s' = s)) /\
            ((forall y n r, a_vers a !! y = Some (n, r) -> n <> INVALID_XID -> n <> x ->
                n ∈ a_com a -> is_running s' n = false) \/ s' = fresh a))
    as (s' & (m' & row' & Em' & Sc & Dc) & [Hrun Hrr] & Hs').
  { destruct Hsel as [(_ & -> & Hv)|(Hn & Hv)].
    - exists (fresh a). split_and!; [done| |done|by right].
      intros z Hz. apply not_false_iff_true. rewrite fresh_running. tauto.
    - exists s. split_and!; [done|by apply (c_snap _ _ Hi)|done|left].
      intros y n r Ey Hn0 Hnx Hnc. destruct (is_running s n) eqn:E; [|done].
      destruct Hn. by exists y, n, r. }
  rewrite Em in Em'. simplify_eq.
  assert (c ∈ chain) as Hc.
  { apply counted_in_chain; [eauto|]. eapply seen_counts; [|exact Sc]. by intros ? [= <-]. }
  assert (forall n, m' = n -> n <> INVALID_XID -> n ∈ a_active a \/ n ∈ a_com a ->
            (n ∈ a_running a -> a_lock a = Some n) -> False) as Hdel.
  { intros n -> Hn0 Hcount Hlk. destruct Dc as [|Dc]; [done|]. apply Dc.
    apply superseder_seen; try done. destruct Hs' as [Hs'| ->]; [left; eauto|by right]. }
  apply chain_not_head in Hc as [[r ->]|[b Hb]]; last first.
  { exfalso. destruct (c_adj _ _ Hi _ _ Hb) as ((rb & Eb) & _). rewrite Em in Eb. simplify_eq.
    pose proof (adj_elem _ _ _ Hb) as [Hbc _].
    apply (Hdel b eq_refl).
    - apply (c_in _ _ Hi) in Hbc as [[? ?] E0]. apply (c_ver _ _ Hi) in E0 as (? & _).
      unfold INVALID_XID. lia.
    - apply chain_member in Hbc. tauto.
    - apply chain_not_head in Hbc as [[r Er]|[b' Hb']].
      + intros Hbr. destruct (c_head _ _ Hi _ _ Er) as [_ Hlk]. apply Hlk; [|done].
        intros ->. rewrite Er in Hb. by apply adj_single in Hb.
      + apply (c_adj _ _ Hi) in Hb' as (_ & _ & ?). done. }
  exists r, m'. split_and!; try done.
  - destruct (c_del _ _ Hi _ _ _ _ eq_refl Em) as [|[_ Hlk]]; [done|].
    destruct (decide (m' = INVALID_XID)) as [->|Hn0].
    + split; intros Hin; [apply (c_act _ _ Hi), (c_run _ _ Hi) in Hin|apply (c_com _ _ Hi) in Hin];
        unfold INVALID_XID in *; lia.
    + split; intros Hin; apply (Hdel m' eq_refl Hn0); auto.
  - destruct Sc as [[= ->]|[Hcm Hcr]]; [by left|right]. split; [done|].
    intros Hr%Hrun. congruence.
  - intros -> Hne. rewrite <- Hrr by done. destruct Sc as [[= ->]|[_ ?]]; done.
Qed.

End Facts.

(** ** Every step preserves the invariant *)

Lemma idle_zero a chain : chain_inv a chain -> idle_xid a INVALID_XID.
Proof.
  intros Hi. unfold INVALID_XID.
  split; intros Hin; [apply (c_act _ _ Hi), (c_run _ _ Hi) in Hin|apply (c_com _ _ Hi) in Hin]; lia.
Qed.

Ltac abs_simpl :=
  unfold idle_xid in *; unfold begin_txn, set_vers, set_lock, set_pending, end_txn;
  cbn [a_vers a_com a_next a_running a_active a_lock a_pending a_snaps a_rr].

Lemma begin_inv a chain iso :
  chain_inv a chain -> (forall s, iso = Some s -> s ∈ a_snaps a) ->
  chain_inv (begin_txn iso a) chain.
Proof.
  intros Hi Hiso.
  assert (forall x s, partial_alter (fun _ => iso) (a_next a) (a_rr a) !! x = Some s ->
            (x = a_next a /\ s ∈ a_snaps a) \/ (x <> a_next a /\ a_rr a !! x = Some s)) as Hrr1.
  { intros x s. destruct (decide (x = a_next a)) as [->|Hne].
    - rewrite lookup_partial_alter_eq. intros E%Hiso. by left.
    - rewrite lookup_partial_alter_ne by done. by right. }
  assert (forall x, x < a_next a -> x ∈ {[a_next a]} ∪ a_running a -> x ∈ a_running a) as Hrun.
  { intros x Hx [->%elem_of_singleton|?]%elem_of_union; [lia|done]. }
  assert (forall x, idle_xid a x -> x <> a_next a -> (x ∉ {[a_next a]} ∪ a_active a) /\ (x ∉ a_com a))
    as Hidle by (unfold idle_xid; set_solver).
  assert (forall x, x ∈ chain -> 1 <= x < a_next a) as Hch.
  { intros x [[m r] E]%(c_in _ _ Hi). by apply (c_ver _ _ Hi) in E as (? & _). }
  destruct Hi; split; abs_simpl; try done.
  - lia.
  - set_solver.
  - intros x [->%elem_of_singleton|Hx]%elem_of_union Hc; [apply c_com0 in Hc; lia|eauto].
  - intros x [->%elem_of_singleton|Hx]%elem_of_union; [lia|]. apply c_run0 in Hx. lia.
  - intros x Hx. apply c_com0 in Hx. lia.
  - intros x Hx. apply c_lock0 in Hx. lia.
  - intros x m row E. destruct (c_ver0 _ _ _ E) as (Hx & Hm & Hor).
    split_and!; [lia|lia|unfold INVALID_XID in *; lia|]. destruct Hor as [|Hid]; [by left|right]. apply Hidle; [done|lia].
  - intros b x Hb. destruct (c_adj0 _ _ Hb) as (? & Hc & Hr). split_and!; [done|done|].
    intros Hin%Hrun; [done|]. apply c_com0 in Hc. lia.
  - intros h r Eh. destruct (c_head0 _ _ Eh) as [Hor Hlk]. split; [set_solver|].
    intros Hne Hin%Hrun; [auto|]. apply Hch. subst. by left.
  - intros h r m row Eh E. destruct (c_ver0 _ _ _ E) as (Hx & Hm & _).
    destruct (c_del0 _ _ _ _ Eh E) as [Hid|[Hor Hlk]].
    + left. apply Hidle; [done|]. unfold INVALID_XID in *. lia.
    + right. split.
      * destruct Hor as [|[Hc Hr]]; [by left|right]. split; [done|]. intros Hin%Hrun; [done|lia].
      * intros Hin%Hrun; [auto|]. unfold INVALID_XID in *. lia.
  - intros s Hs. destruct (c_snap0 _ Hs) as (Hmax & Hr & Hcl). split_and!; [lia| |done].
    intros x [->%elem_of_singleton|Hx]%elem_of_union; [|auto]. unfold is_running.
    by rewrite (proj2 (Z.leb_le _ _) Hmax).
  - intros x s E Hx. destruct (Hrr1 _ _ E) as [[-> Hs]|[Hne E']].
    + split; [done|]. intros y [Hy _]%adj_elem. apply Hch in Hy. lia.
    + apply elem_of_union in Hx as [->%elem_of_singleton|Hx]; [done|by eauto].
  - intros p Ep. destruct (c_pend0 _ Ep) as (x & r & m & row & El & Hx & Ec & Ev & Hid & Hor & Hrr).
    exists x, r, m, row. destruct (c_ver0 _ _ _ Ev) as (Hb & Hm & _).
    split_and!; try done; [set_solver|apply Hidle; [done|unfold INVALID_XID in *; lia]..| |].
    + destruct Hor as [|[Hc Hr]]; [by left|right]. split; [done|]. intros Hin%Hrun; [done|lia].
    + intros s0 E0 Hne. destruct (Hrr1 _ _ E0) as [[-> _]|[_ E0']]; [|by eapply Hrr].
      apply c_lock0 in El. lia.
Qed.

Lemma snapshot_inv a chain :
  chain_inv a chain ->
  chain_inv (mkAbs (a_vers a) (a_com a) (a_next a) (a_running a) (a_active a) (a_lock a)
               (a_pending a) (fresh a :: a_snaps a) (a_rr a)) chain.
Proof.
  intros Hi. destruct Hi; split; abs_simpl; try done.
  - intros s [->|Hs]%elem_of_cons; [|by apply c_snap0]. split_and!.
    + done.
    + intros x Hx. apply not_false_iff_true. rewrite fresh_running. tauto.
    + intros b x (_ & Hc & Hr)%c_adj0 _. apply fresh_running. split; [|done].
      apply c_com0 in Hc. lia.
  - intros x s E Hx. destruct (c_rr0 _ _ E Hx) as [Hs Hy]. split; [by right|done].
Qed.

Lemma insert_inv a chain x row :
  chain_inv a chain -> x ∈ a_active a -> a_vers a = ∅ ->
  chain_inv (set_vers {[x := (INVALID_XID, row)]} a) [x].
Proof.
  intros Hi Hx E0. pose proof (idle_zero _ _ Hi) as Hz. destruct Hi. split; abs_simpl; try done.
  - intros y m r [<- [= <- <-]]%lookup_singleton_Some. split; [by apply c_run0, c_act0|].
    split; [by left|]. left. by left.
  - intros y ->%list_elem_of_singleton. by rewrite lookup_singleton_eq.
  - apply NoDup_singleton.
  - intros b y Hadj. by apply adj_single in Hadj.
  - intros h r [= <- <-]. split; [by right|done].
  - intros h r m row' [= <- <-]. rewrite lookup_singleton_eq. intros [= <- <-]. by left.
  - intros s Hs. destruct (c_snap0 _ Hs) as (? & ? & _). split_and!; [done..|].
    intros b y Hadj. by apply adj_single in Hadj.
  - intros y s E Hy. destruct (c_rr0 _ _ E Hy) as [? _]. split; [done|].
    intros z Hadj. by apply adj_single in Hadj.
Qed.

Lemma lock_inv_step a chain x :
  chain_inv a chain -> x ∈ a_active a -> a_lock a = None -> chain_inv (set_lock (Some x) a) chain.
Proof.
  intros Hi Hx El. destruct Hi. split; abs_simpl; try done.
  - intros y [= <-]. by apply c_run0, c_act0.
  - intros h r E. destruct (c_head0 _ _ E) as [? Hl]. split; [done|].
    intros Hne Hr. specialize (Hl Hne Hr). congruence.
  - intros h r m row E Em. destruct (c_del0 _ _ _ _ E Em) as [|[? Hl]]; [by left|right].
    split; [done|]. intros Hr%Hl. congruence.
  - intros p Ep. destruct (c_pend0 _ Ep) as (? & ? & ? & ? & ? & _). congruence.
Qed.

Lemma release_inv a chain x :
  chain_inv a chain -> a_lock a = Some x -> (x ∉ a_running a) -> chain_inv (set_lock None a) chain.
Proof.
  intros Hi El Hx. destruct Hi. split; abs_simpl; try done.
  - intros h r E. destruct (c_head0 _ _ E) as [? Hl]. split; [done|].
    intros Hne Hr. specialize (Hl Hne Hr). congruence.
  - intros h r m row E Em. destruct (c_del0 _ _ _ _ E Em) as [|[? Hl]]; [by left|right].
    split; [done|]. intros Hr. specialize (Hl Hr). congruence.
  - intros p Ep. destruct (c_pend0 _ Ep) as (y & ? & ? & ? & El' & Hy & _).
    apply c_act0 in Hy. congruence.
Qed.

Lemma finish_inv a chain x :
  chain_inv a chain -> (x ∉ a_active a) ->
  chain_inv (mkAbs (a_vers a) (a_com a) (a_next a) (a_running a ∖ {[x]}) (a_active a)
               (a_lock a) (a_pending a) (a_snaps a) (a_rr a)) chain.
Proof.
  intros Hi Hx. destruct Hi. split; abs_simpl; try done.
  - set_solver.
  - set_solver.
  - intros b y Hb. destruct (c_adj0 _ _ Hb) as (? & ? & ?). set_solver.
  - intros h r E. destruct (c_head0 _ _ E) as [? Hl]. set_solver.
  - intros h r m row E Em. destruct (c_del0 _ _ _ _ E Em) as [|[? Hl]]; [by left|right]. set_solver.
  - intros s Hs. destruct (c_snap0 _ Hs) as (? & ? & ?). set_solver.
  - intros p Ep. destruct (c_pend0 _ Ep) as (y & r & m & row & ? & ? & ? & ? & ? & ? & ?).
    exists y, r, m, row. do 5 (split; [done|]). split; [set_solver|done].
Qed.

Lemma commit_inv a chain x :
  chain_inv a chain -> x ∈ a_active a -> (a_lock a = Some x -> a_pending a = None) ->
  chain_inv (end_txn ({[x]} ∪ a_com a) x (a_pending a) a) chain.
Proof.
  intros Hi Hx Hp. destruct Hi.
  assert (forall y, (y ∉ a_active a) /\ (y ∉ a_com a) ->
            (y ∉ a_active a ∖ {[x]}) /\ (y ∉ {[x]} ∪ a_com a)) as Hidle by set_solver.
  split; abs_simpl; try done.
  - set_solver.
  - intros y Hy Hc. specialize (c_disj0 y). set_solver.
  - intros y [->%elem_of_singleton|Hy]%elem_of_union; [by apply c_run0, c_act0|auto].
  - intros y m row E. destruct (c_ver0 _ _ _ E) as (? & ? & [|?]); [by auto|].
    split_and!; [lia|lia|done|]. right. by apply Hidle.
  - intros b y Hb. destruct (c_adj0 _ _ Hb) as (? & ? & ?). set_solver.
  - intros h r E. destruct (c_head0 _ _ E) as [? Hl]. split; [|done].
    destruct (decide (h = x)) as [->|]; set_solver.
  - intros h r m row E Em. destruct (c_del0 _ _ _ _ E Em) as [|[? Hl]];
      [left; by apply Hidle|right]. split; [set_solver|done].
  - intros y s E Hy. apply c_rr0; [done|set_solver].
  - intros p Ep. destruct (c_pend0 _ Ep) as (y & r & m & row & El & Hy & ? & ? & ? & ? & ?).
    assert (y <> x) by (intros ->; naive_solver).
    exists y, r, m, row. split; [done|]. split; [set_solver|]. do 2 (split; [done|]).
    split; [by apply Hidle|]. split; [set_solver|done].
Qed.

(** A transaction that ends without a commit leaves the chain, if it is there. *)
Lemma abort_keeps a chain x :
  chain_inv a chain -> x ∈ a_active a -> (x ∉ chain) ->
  chain_inv (end_txn (a_com a) x (if decide (a_lock a = Some x) then None else a_pending a) a)
    chain.
Proof.
  intros Hi Hx Hnc. destruct Hi. split; abs_simpl; try done.
  - set_solver.
  - intros y Hy Hc. apply (c_disj0 y); set_solver.
  - intros y m row E. destruct (c_ver0 _ _ _ E) as (? & ? & ?). set_solver.
  - intros h r E. destruct (c_head0 _ _ E) as [? Hl]. split; [|done].
    assert (h <> x) by (intros ->; apply Hnc; subst; by left). set_solver.
  - intros h r m row E Em. destruct (c_del0 _ _ _ _ E Em) as [|[? Hl]]; [left; set_solver|by right].
  - intros y s E Hy. apply c_rr0; [done|set_solver].
  - intros p Ep. case_decide as Hl; [done|].
    destruct (c_pend0 _ Ep) as (y & r & m & row & El & Hy & ? & ? & ? & ? & ?).
    assert (y <> x) by congruence. exists y, r, m, row. split; [done|]. split; [set_solver|].
    do 2 (split; [done|]). split; [set_solver|done].
Qed.

Lemma abort_pops a r x :
  chain_inv a (x :: r) -> x ∈ a_active a ->
  chain_inv (end_txn (a_com a) x (if decide (a_lock a = Some x) then None else a_pending a) a) r.
Proof.
  intros Hi Hx.
  assert (forall b y, adj r b y -> adj (x :: r) b y) as Hadj by (intros; apply adj_cons; by right).
  pose proof (chain_member _ _ Hi) as Hmem. destruct Hi. apply NoDup_cons in c_nodup0 as [Hxr Hnd].
  split; abs_simpl; try done.
  - set_solver.
  - intros y Hy Hc. apply (c_disj0 y); set_solver.
  - intros y m row E. destruct (c_ver0 _ _ _ E) as (? & ? & [[->|?]%elem_of_cons|?]); split_and!;
      try lia; try done; [|by left|set_solver]. right. split; [set_solver|].
    intros Hc. by apply (c_disj0 x).
  - intros y Hy. apply c_in0. by right.
  - intros b y Hb. by apply c_adj0, Hadj.
  - intros h r' ->. destruct (c_adj0 x h) as (_ & Hc & Hr); [apply adj_cons; left; eauto|].
    split; [by left|done].
  - intros h r' m row -> Em. left. destruct (c_adj0 x h) as ((row' & E) & _);
      [apply adj_cons; left; eauto|]. rewrite E in Em. simplify_eq. split; [set_solver|].
    intros Hc. by apply (c_disj0 m).
  - intros s Hs. destruct (c_snap0 _ Hs) as (? & ? & Hcl). split_and!; [done..|]. eauto.
  - intros y s E Hy. destruct (c_rr0 y s E) as [? Hy']; [set_solver|]. split; [done|]. eauto.
  - intros p Ep. case_decide as Hl; [done|].
    destruct (c_pend0 _ Ep) as (y & r' & m & row & El & Hy & [= Ec <-] & ? & ? & [Hor|[Hor _]] & ?);
      [congruence|]. rewrite <- Ec in Hor. destruct (c_disj0 x); done.
Qed.

Lemma crash_inv a chain :
  chain_inv a chain ->
  exists chain', chain_inv (mkAbs (a_vers a) (a_com a) (a_next a) ∅ ∅ None None [] ∅) chain' /\
    forall b x, adj chain' b x -> adj chain b x.
Proof.
  intros Hi.
  assert (exists chain', (forall h r, chain' = h :: r -> h ∈ a_com a) /\ NoDup chain' /\
            (forall x, x ∈ chain' -> x ∈ chain) /\ (forall x, x ∈ chain -> x ∈ a_com a -> x ∈ chain') /\
            (forall b x, adj chain' b x -> adj chain b x)) as (ch & Hh & Hnd & Hsub & Hsup & Hadj).
  { destruct chain as [|h r].
    - exists []. split_and!; try done. apply NoDup_nil_2.
    - destruct (c_head _ _ Hi h r eq_refl) as [[Hc|Ha] _].
      + exists (h :: r). split_and!; try done; [by intros ? ? [= <- <-]|by apply Hi].
      + exists r. pose proof (c_nodup _ _ Hi) as [Hn Hnd]%NoDup_cons. split_and!; try done.
        * intros h' r' ->. apply (c_adj _ _ Hi h h'). apply adj_cons. left. eauto.
        * intros x Hx. by right.
        * intros x [->|Hx]%elem_of_cons Hc; [|done]. by destruct (c_disj _ _ Hi h).
        * intros b x Hb. apply adj_cons. by right. }
  exists ch. split; [|done]. pose proof (chain_member _ _ Hi) as Hmem.
  destruct Hi. split; abs_simpl; try done.
  - intros x m row E. destruct (c_ver0 _ _ _ E) as (? & ? & Hor). split_and!; try lia; try done.
    destruct (decide (x ∈ a_com a)) as [Hc|Hc]; [|right; set_solver].
    left. apply Hsup; [|done]. destruct Hor as [|[_ ?]]; done.
  - intros x Hx. by apply c_in0, Hsub.
  - intros b x Hb. destruct (c_adj0 _ _ (Hadj _ _ Hb)) as (? & ? & _). split_and!; [done..|set_solver].
  - intros h r E. split; [left; eauto|set_solver].
  - intros h r m row E Em. right. split; [|set_solver]. right. split; [eauto|set_solver].
  - set_solver.
Qed.

Lemma plan_inv a chain x s rr p :
  chain_inv a chain -> x ∈ a_active a -> a_lock a = Some x ->
  statement_snapshot a x s rr -> selects a s x rr (p_cur p) (p_row p) ->
  chain_inv (set_pending (Some p) a) chain.
Proof.
  intros Hi Hx El [Hs Hm] Hsel.
  destruct (selects_head _ _ Hi _ _ _ _ _ Hx El Hs Hsel) as (r & m & Ec & Em & Hid & Hor & Hrr).
  destruct Hi. split; abs_simpl; try done.
  intros p' [= <-]. exists x, r, m, (p_row p). do 6 (split; [done|]).
  intros s0 E0 Hne. rewrite E0 in Hm. destruct Hm as [-> ->]. auto.
Qed.

(** The writes of one's own version, or a deletion: the chain stays. *)
Lemma flush_same a h r x m row :
  chain_inv a (h :: r) -> a_lock a = Some x -> x ∈ a_active a ->
  (h = x \/ (h ∈ a_com a /\ (h ∉ a_running a))) -> m = INVALID_XID /\ h = x \/ m = x ->
  chain_inv (set_vers (<[h := (m, row)]> (a_vers a)) a) (h :: r).
Proof.
  intros Hi El Hx Hor Hm. pose proof (idle_zero _ _ Hi) as Hz.
  pose proof (adj_not_head h r) as Hnh. destruct Hi. specialize (Hnh).
  split; abs_simpl; try done.
  - intros y m' row' [[<- [= <- <-]]|[Hne E]]%lookup_insert_Some; [|by apply (c_ver0 y m' row')].
    destruct (c_in0 h) as [[m0 row0] E0]; [by left|]. apply c_ver0 in E0 as (? & _).
    split_and!; [lia|lia| |left; by left]. destruct Hm as [[-> _]| ->]; [by left|right].
    by apply c_run0, c_act0.
  - intros y Hy. apply c_in0 in Hy. destruct (decide (y = h)) as [->|].
    + by rewrite lookup_insert_eq.
    + by rewrite lookup_insert_ne.
  - intros b y Hb. destruct (c_adj0 _ _ Hb) as (? & ? & ?). split_and!; try done.
    rewrite lookup_insert_ne; [done|]. intros <-. by apply (Hnh b).
  - intros h' r' m' row' [= <- <-]. rewrite lookup_insert_eq. intros [= <- <-].
    destruct Hm as [[-> ->]| ->]; [by left|right]. split; [|done]. destruct Hor; [by left|by right].
Qed.

(** A new version on top of a committed one: the chain grows. *)
Lemma flush_extends a h r x row next :
  chain_inv a (h :: r) -> a_lock a = Some x -> x ∈ a_active a -> h <> x ->
  h ∈ a_com a -> (h ∉ a_running a) ->
  (forall s, a_rr a !! x = Some s -> is_running s h = false) ->
  chain_inv (set_vers (<[x := (INVALID_XID, next)]> (<[h := (x, row)]> (a_vers a))) a)
    (x :: h :: r).
Proof.
  intros Hi El Hx Hne Hc Hr Hrr. pose proof (idle_zero _ _ Hi) as Hz.
  assert (x ∉ h :: r) as Hxn.
  { intros Hin. destruct (chain_member _ _ Hi _ Hin) as [?|[_ [? ?]]]; [|congruence].
    by apply (c_disj _ _ Hi x). }
  pose proof (adj_not_head h r) as Hnh. destruct Hi.
  assert (1 <= x < a_next a) as Hxb by (by apply c_run0, c_act0).
  split; abs_simpl; try done.
  - intros y m' row' [[<- [= <- <-]]|[Hxy [[<- [= <- <-]]|[Hhy E]]%lookup_insert_Some]]%lookup_insert_Some.
    + split_and!; [lia|lia|by left|left; by left].
    + apply c_com0 in Hc. split_and!; [lia|lia|by right|left; right; by left].
    + destruct (c_ver0 _ _ _ E) as (? & ? & [?|?]); split_and!; try lia; try done;
        [left; by right|by right].
  - intros y Hy. destruct (decide (y = x)) as [->|]; [by rewrite lookup_insert_eq|].
    rewrite lookup_insert_ne by done. apply elem_of_cons in Hy as [|Hy]; [done|].
    destruct (decide (y = h)) as [->|]; [by rewrite lookup_insert_eq|].
    rewrite lookup_insert_ne by done. auto.
  - by apply NoDup_cons.
  - intros b y [(r' & <- & [= <- <-])|Hb]%adj_cons.
    + rewrite lookup_insert_ne, lookup_insert_eq by done. split_and!; [by eexists|done..].
    + destruct (c_adj0 _ _ Hb) as (? & ? & ?). split_and!; try done.
      rewrite lookup_insert_ne by (intros <-; by apply (c_disj0 x)).
      rewrite lookup_insert_ne; [done|]. intros <-. by apply (Hnh b).
  - intros h' r' [= <- <-]. split; [by right|done].
  - intros h' r' m' row' [= <- <-]. rewrite lookup_insert_eq. intros [= <- <-]. by left.
  - intros s Hs. destruct (c_snap0 _ Hs) as (? & Hrun & Hcl). split_and!; [done..|].
    intros b y [(r' & <- & [= <- <-])|Hb]%adj_cons; [|by apply Hcl].
    rewrite Hrun; [done|]. by apply c_act0.
  - intros y s E Hy. destruct (c_rr0 _ _ E Hy) as [? Hy']. split; [done|].
    intros z [(r' & <- & [= <- <-])|Hb]%adj_cons; [by apply Hrr|by apply Hy'].
Qed.

Lemma flush_inv a chain x p :
  chain_inv a chain -> a_lock a = Some x -> a_pending a = Some p ->
  exists chain', chain_inv (set_vers (flush a x p) a) chain' /\
    forall b y, adj chain' b y -> adj chain b y \/ b = x.
Proof.
  intros Hi El Ep.
  destruct (c_pend _ _ Hi p Ep) as (y & r & m & row & El' & Hx & -> & Em & Hid & Hor & Hrr).
  rewrite El in El'. simplify_eq. destruct p as [c cur next|c cur]; simpl in *.
  - destruct (Z.eqb_spec c y) as [->|Hne].
    + exists (y :: r). split; [eapply flush_same; eauto|by left].
    + destruct Hor as [|[Hc Hr]]; [done|]. exists (y :: c :: r). split.
      * apply flush_extends; try done. intros s Es. by apply Hrr.
      * intros b z [(r' & <- & _)|Hb]%adj_cons; [by right|by left].
  - exists (c :: r). split; [eapply flush_same; eauto|by left].
Qed.

(** A step writes the planned version of the lock's holder, or drops the plan. *)
Definition ends_plan (a a' : Abs) (x : Z) : Prop :=
  a_lock a = Some x /\ is_Some (a_pending a) /\ a_pending a' = None.

(** The invariant is kept, and the chain only grows by a planned version. *)
Lemma astep_chain a a' chain :
  astep a a' -> chain_inv a chain ->
  exists chain', chain_inv a' chain' /\
    forall b y, adj chain' b y -> adj chain b y \/ ends_plan a a' b.
Proof.
  intros Hst Hi.
  assert (forall ch', chain_inv a' ch' -> (forall b y, adj ch' b y -> adj chain b y) ->
    exists ch', chain_inv a' ch' /\ forall b y, adj ch' b y -> adj chain b y \/ ends_plan a a' b) as Hsub
    by (intros ch' Hi' Ha; exists ch'; split; [done|by left; apply Ha]).
  destruct Hst.
  - apply (Hsub chain); [by apply begin_inv|done].
  - apply (Hsub chain); [by apply snapshot_inv|done].
  - apply (Hsub [x]); [by eapply insert_inv|]. intros b y Hb. by apply adj_single in Hb.
  - apply (Hsub chain); [by apply lock_inv_step|done].
  - apply (Hsub chain); [by eapply plan_inv|done].
  - destruct (flush_inv a chain x p) as (ch' & Hi' & Ha); [done..|]. exists ch'. split; [done|].
    intros b y [?| ->]%Ha; [by left|right]. split_and!; [done|by eexists|done].
  - apply (Hsub chain); [by apply commit_inv|done].
  - destruct (decide (x ∈ chain)) as [Hin|Hn]; [|apply (Hsub chain); [by apply abort_keeps|done]].
    destruct (chain_member _ _ Hi _ Hin) as [Hc|[_ [r ->]]]; [by destruct (c_disj _ _ Hi x)|].
    apply (Hsub r); [by apply abort_pops|]. intros b y Hb. apply adj_cons. by right.
  - apply (Hsub chain); [by apply finish_inv|done].
  - apply (Hsub chain); [by eapply release_inv|done].
  - destruct (crash_inv a chain Hi) as (ch' & Hi' & Ha). by apply (Hsub ch').
Qed.

Lemma astep_inv a a' chain :
  astep a a' -> chain_inv a chain -> exists chain', chain_inv a' chain'.
Proof. intros Hst Hi. destruct (astep_chain _ _ _ Hst Hi) as (ch' & ? & _). by exists ch'. Qed.

(** A first state: nothing is running and the row does not exist. *)
Definition abs_init (next : Z) (com : gset Z) : Abs := mkAbs ∅ com next ∅ ∅ None None [] ∅.

Lemma abs_init_inv next com :
  1 <= next -> (forall x, x ∈ com -> 1 <= x < next) -> chain_inv (abs_init next com) [].
Proof.
  intros Hn Hc. unfold abs_init.
  split; abs_simpl; try done; try set_solver.
  - apply NoDup_nil_2.
  - intros b x H. by apply adj_nil in H.
Qed.
End RowHistory.
