(* ===== verification/RowHistoryKv.v ===== *)
(** * The history of one row on the store

    A single-range engine in [Durable] mode, seen from one row: the steps of its
    sessions and of its crashes on the real key-value store, registry and lock.
    Each is shown to be a step of the abstract machine of [RowHistory], whose
    invariant then gives the two guarantees the executor relies on: no reader
    finds two live versions of a row, and the re-check under the row lock always
    works on the newest one. *)
From Stdlib Require Import ZArith Lia.
From stdpp Require Import base list gmap strings sorting relations.
From S2P Require Import Prelude Keys Store Datum ExtModel RowEnc Mvcc StateMachine Catalog Errors XidAlloc Exec ScanLive RowHistory.
Open Scope Z_scope.

Section RowHistoryKv.
Context `{ExtLaws} (tb : Table) (rowid : Z).
Hypothesis Htb : u32_ok (t_id tb) /\ t_id tb <> SYSTEM_TABLE_ID.
Hypothesis Hrow : u64_ok rowid.

Record RowSys : Type := mkRowSys {
  r_kv : MemKv;
  r_pa : ProcArray;
  r_active : gset Z;
  r_lock : option Z;
  r_pending : option (list WriteOp);
  r_snaps : list Snapshot;
  r_rr : gmap Z Snapshot
}.

(** The statement's snapshot: fixed under REPEATABLE READ, one already taken
    otherwise. *)
Definition stmt_snapshot (s : RowSys) (x : Z) (snap : Snapshot) (rr : bool) : Prop :=
  snap ∈ r_snaps s /\
  match r_rr s !! x with Some s0 => snap = s0 /\ rr = true | None => rr = false end.

(** Sessions and crashes. A write statement computes its operations under the
    row lock and commits them at its end; COMMIT writes the commit log, then
    deregisters, then releases the locks. An autocommit statement is a flush
    and a commit with nothing between. *)
Inductive rstep : RowSys -> RowSys -> Prop :=
| r_begin kv pa act l p sn rr x pa' kv' iso :
    next_xid pa + 1 < 2 ^ 64 -> begin_write pa kv = (x, pa', kv') ->
    (forall s, iso = Some s -> s ∈ sn) ->
    rstep (mkRowSys kv pa act l p sn rr)
      (mkRowSys kv' pa' ({[x]} ∪ act) l p sn (partial_alter (fun _ => iso) x rr))
| r_snapshot kv pa act l p sn rr :
    rstep (mkRowSys kv pa act l p sn rr)
      (mkRowSys kv pa act l p (procarray_snapshot pa :: sn) rr)
| r_insert kv pa act l p sn rr x row :
    x ∈ act -> read_versions kv (t_id tb) rowid = Ok [] -> row_ok row ->
    rstep (mkRowSys kv pa act l p sn rr)
      (mkRowSys (local_commit kv [insert_op (t_id tb) rowid x row]) pa act l p sn rr)
| r_acquire kv pa act p sn rr x :
    x ∈ act ->
    rstep (mkRowSys kv pa act None p sn rr) (mkRowSys kv pa act (Some x) p sn rr)
| r_update kv pa act sn rr x snap iso c cur next :
    x ∈ act -> stmt_snapshot (mkRowSys kv pa act (Some x) None sn rr) x snap iso ->
    eval_plan_qual kv kv pa snap tb rowid x iso = Ok (Some (c, cur)) -> row_ok next ->
    rstep (mkRowSys kv pa act (Some x) None sn rr)
      (mkRowSys kv pa act (Some x) (Some (update_ops (t_id tb) rowid x c cur next)) sn rr)
| r_delete kv pa act sn rr x snap iso c cur :
    x ∈ act -> stmt_snapshot (mkRowSys kv pa act (Some x) None sn rr) x snap iso ->
    eval_plan_qual kv kv pa snap tb rowid x iso = Ok (Some (c, cur)) ->
    rstep (mkRowSys kv pa act (Some x) None sn rr)
      (mkRowSys kv pa act (Some x) (Some (delete_ops (t_id tb) rowid x c cur)) sn rr)
| r_flush kv pa act x ops sn rr :
    rstep (mkRowSys kv pa act (Some x) (Some ops) sn rr)
      (mkRowSys (local_commit kv ops) pa act (Some x) None sn rr)
| r_commit kv pa act l p sn rr x :
    x ∈ act -> (l = Some x -> p = None) ->
    rstep (mkRowSys kv pa act l p sn rr)
      (mkRowSys (local_commit kv [clog_put_op x Committed]) pa (act ∖ {[x]}) l p sn rr)
| r_abort kv pa act l p sn rr x (recorded : bool) :
    x ∈ act ->
    rstep (mkRowSys kv pa act l p sn rr)
      (mkRowSys (if recorded then local_commit kv [clog_put_op x Aborted] else kv) pa
         (act ∖ {[x]}) l (if decide (l = Some x) then None else p) sn rr)
| r_finish kv pa act l p sn rr x :
    (x ∉ act) ->
    rstep (mkRowSys kv pa act l p sn rr) (mkRowSys kv (procarray_finish pa x) act l p sn rr)
| r_release kv pa act x p sn rr :
    (x ∉ running pa) ->
    rstep (mkRowSys kv pa act (Some x) p sn rr) (mkRowSys kv pa act None p sn rr)
| r_crash kv pa act l p sn rr pa' :
    procarray_open kv PDurable = Ok pa' ->
    rstep (mkRowSys kv pa act l p sn rr) (mkRowSys kv pa' ∅ None None [] ∅)
| r_other kv pa act l p sn rr ops :
    (forall op, In op ops -> starts_with (row_key (t_id tb) rowid) (op_key op) = false /\
       op_key op <> next_xid_key /\ forall x, op_key op <> clog_key x) ->
    rstep (mkRowSys kv pa act l p sn rr) (mkRowSys (local_commit kv ops) pa act l p sn rr).

(** ** The abstraction *)

Abbreviation AbsRow := (Abs (Row := list Datum)).

(** The operations a planned write stands for. *)
Definition pending_ops (x : Z) (p : Pending) : list WriteOp :=
  match p with
  | PUpdate c cur next => update_ops (t_id tb) rowid x c cur next
  | PDelete c cur => delete_ops (t_id tb) rowid x c cur
  end.

Definition pending_rows_ok (p : Pending (Row := list Datum)) : Prop :=
  match p with PUpdate _ cur next => row_ok cur /\ row_ok next | PDelete _ cur => row_ok cur end.

(** The row's keys hold exactly the versions of the map. *)
Definition holds_versions (kv : MemKv) (V : gmap Z (Z * list Datum)) : Prop :=
  forall k v, starts_with (row_key (t_id tb) rowid) k = true ->
    kv_get kv k = Some v <->
    exists x m row, V !! x = Some (m, row) /\ k = version_key_xid (t_id tb) rowid x /\
      v = encode_tuple x m row.

Definition versions_ok (V : gmap Z (Z * list Datum)) : Prop :=
  forall x m row, V !! x = Some (m, row) -> u64_ok x /\ u64_ok m /\ row_ok row.

(** The commit log of a single range: no transaction is prepared. *)
Definition clog_plain (kv : MemKv) : Prop :=
  forall x, clog_get kv x = Ok InProgress \/ clog_get kv x = Ok Committed \/
            clog_get kv x = Ok Aborted.

Record repr (s : RowSys) (a : AbsRow) : Prop := {
  p_vers : holds_versions (r_kv s) (a_vers a);
  p_rows : versions_ok (a_vers a);
  p_plain : clog_plain (r_kv s);
  p_com : forall x, u64_ok x -> clog_get (r_kv s) x = Ok Committed <-> x ∈ a_com a;
  p_pa : r_pa s = mkProcArray (a_next a) (a_running a) PDurable;
  p_open : procarray_open (r_kv s) PDurable = Ok (mkProcArray (a_next a) ∅ PDurable);
  p_bound : 1 <= a_next a < 2 ^ 64;
  p_active : r_active s = a_active a;
  p_lock : r_lock s = a_lock a;
  p_pend : match r_pending s, a_pending a with
           | None, None => True
           | Some ops, Some p => exists x, a_lock a = Some x /\ ops = pending_ops x p /\
                                   pending_rows_ok p
           | _, _ => False
           end;
  p_snaps : r_snaps s = a_snaps a;
  p_snaps_ok : forall snap, snap ∈ a_snaps a -> snapshot_ok snap;
  p_rr : r_rr s = a_rr a
}.

(** ** Reading the row *)

Lemma row_key_version x :
  starts_with (row_key (t_id tb) rowid) (version_key_xid (t_id tb) rowid x) = true.
Proof. apply starts_with_app. Qed.

Lemma read_versions_repr kv V :
  holds_versions kv V -> versions_ok V ->
  exists vs, read_versions kv (t_id tb) rowid = Ok vs /\
    StronglySorted (fun v w : Version => v.1.1 < w.1.1) vs /\
    forall x m row, In (x, m, row) vs <-> V !! x = Some (m, row).
Proof.
  intros Hv Hok. destruct Htb as [Ht _].
  assert (exists es, scan_prefix kv (row_key (t_id tb) rowid) = vrec_entry (t_id tb) <$> es /\
            Forall (fun e => v_row e = rowid /\ V !! v_xmin e = Some (v_xmax e, v_data e)) es)
    as (es & Es & Hes).
  { assert (Forall (fun kve => exists e, (v_row e = rowid /\ V !! v_xmin e = Some (v_xmax e, v_data e))
                /\ kve = vrec_entry (t_id tb) e) (scan_prefix kv (row_key (t_id tb) rowid))) as HF.
    { apply List.Forall_forall. intros [k v] [Hg Hs]%In_scan_prefix.
      apply (Hv k v Hs) in Hg as (x & m & row & E & -> & ->).
      by exists (mkVRec rowid x m row). }
    induction HF as [|kve l (e & He & ->) _ (es & -> & Hes)]; [by exists []|].
    exists (e :: es). by split; [|constructor]. }
  assert (Forall vrec_ok es) as Hvok.
  { eapply Forall_impl; [exact Hes|]. intros e [Hr E]. apply Hok in E as (? & ? & ?).
    unfold vrec_ok. by rewrite Hr. }
  exists (vrec_version <$> es). split_and!.
  - unfold read_versions. rewrite Es. clear -Hvok H0. induction Hvok as [|e es (? & ? & ? & ?) _ IH]; [done|].
    assert (decode_tuple (vrec_entry (t_id tb) e).2 = Ok (vrec_version e)) as Ed
      by (by apply decode_tuple_encode).
    rewrite !fmap_cons. cbn [mapR]. rewrite Ed. rsimpl. rewrite IH. by rsimpl.
  - apply StronglySorted_fmap with (R1 := fun a b => v_xmin a < v_xmin b); [done|].
    pose proof (scan_prefix_strict kv (row_key (t_id tb) rowid)) as Hs.
    rewrite Es in Hs. apply StronglySorted_fmap_inv in Hs.
    rewrite List.Forall_forall in Hes, Hvok. eapply StronglySorted_weaken_in; [|exact Hs].
    intros a b Ha Hb Hlt. apply vrec_entry_lt in Hlt; [|by auto..]. simpl.
    destruct (Hes _ Ha) as [? _], (Hes _ Hb) as [? _]. unfold vrec_lt in Hlt. lia.
  - intros x m row. rewrite List.Forall_forall in Hes. split.
    + intros (e & E & He)%in_map_iff. destruct (Hes _ He) as [_ Ev].
      unfold vrec_version in E. by simplify_eq.
    + intros E. assert (In (vrec_entry (t_id tb) (mkVRec rowid x m row))
                          (scan_prefix kv (row_key (t_id tb) rowid))) as Hin.
      { apply In_scan_prefix. split; [|apply row_key_version].
        apply Hv; [apply row_key_version|]. eauto 6. }
      rewrite Es in Hin. apply in_map_iff in Hin as (e & Ee & He).
      destruct (Hes _ He) as [Hr Ev]. apply in_map_iff. exists e. split; [|done].
      apply Hok in E as (? & ? & ?). apply Hok in Ev as (? & ? & ?).
      apply pair_equal_spec in Ee as [_ Ed]. cbn [v_xmin v_xmax v_data] in Ed.
      apply (f_equal decode_tuple) in Ed. rewrite !decode_tuple_encode in Ed by done.
      unfold vrec_version. by simplify_eq.
Qed.

(** On a single range the resolver is the commit log. *)
Lemma global_status_plain kv gsnap x :
  clog_plain kv -> global_status kv kv gsnap x = clog_get kv x.
Proof. intros Hp. unfold global_status. by destruct (Hp x) as [-> | [-> | ->]]. Qed.

Lemma plain_total kv gsnap : clog_plain kv -> status_total (global_status kv kv gsnap).
Proof.
  intros Hp x. rewrite global_status_plain by done. destruct (Hp x) as [-> | [-> | ->]]; eauto.
Qed.

Section Read.
Context (s : RowSys) (a : AbsRow) (Hp : repr s a).

Lemma cv_seen gsnap snap own x :
  u64_ok x ->
  (committed_visible x snap own (global_status (r_kv s) (r_kv s) gsnap) = Ok true <->
   seen a snap own x).
Proof.
  intros Hx. rewrite committed_visible_true, global_status_plain by apply Hp.
  rewrite (p_com _ _ Hp) by done. unfold seen. naive_solver.
Qed.

Lemma cv_not_seen gsnap snap own x :
  u64_ok x ->
  (committed_visible x snap own (global_status (r_kv s) (r_kv s) gsnap) = Ok false <->
   ~ seen a snap own x).
Proof.
  intros Hx. rewrite <- (cv_seen gsnap) by done.
  destruct (committed_visible_total (global_status (r_kv s) (r_kv s) gsnap) x snap own) as [b ->];
    [apply plain_total, Hp|]. destruct b; naive_solver.
Qed.

Lemma visible_repr gsnap snap own x m row :
  a_vers a !! x = Some (m, row) ->
  visible (global_status (r_kv s) (r_kv s) gsnap) snap own (x, m, row) <-> avisible a snap own x.
Proof.
  intros E. destruct (p_rows _ _ Hp _ _ _ E) as (Hx & Hm & _). unfold visible, avisible. simpl.
  rewrite satisfies_mvcc_true, cv_seen, cv_not_seen by done. naive_solver.
Qed.

Lemma can_see_running snap x :
  snapshot_ok snap -> snapshot_can_see snap x = negb (is_running snap x).
Proof.
  intros Hs. apply eq_true_iff_eq. rewrite negb_true_iff, is_running_false by done.
  unfold snapshot_can_see. rewrite andb_true_iff, Z.ltb_lt, negb_true_iff.
  rewrite bool_decide_eq_false, list_elem_of_In. done.
Qed.

Lemma changed_repr snap x vs :
  snapshot_ok snap ->
  (forall y m row, In (y, m, row) vs <-> a_vers a !! y = Some (m, row)) ->
  existsb (changed_since (global_status (r_kv s) (r_kv s) settled_global) snap x) vs = true <->
  changed a snap x.
Proof.
  intros Hs Hvs. rewrite existsb_exists. unfold changed.
  assert (forall y m row, a_vers a !! y = Some (m, row) ->
            changed_since (global_status (r_kv s) (r_kv s) settled_global) snap x (y, m, row) = true <->
            m <> INVALID_XID /\ m <> x /\ m ∈ a_com a /\ is_running snap m = true) as Hch.
  { intros y m row E. destruct (p_rows _ _ Hp _ _ _ E) as (_ & Hm & _).
    unfold changed_since. rewrite can_see_running, negb_involutive by done.
    rewrite !andb_true_iff, !negb_true_iff, !Z.eqb_neq, global_status_plain by apply Hp.
    rewrite <- (p_com _ _ Hp) by done.
    destruct (p_plain _ _ Hp m) as [-> | [-> | ->]]; naive_solver. }
  split.
  - intros ([[y m] row] & Hin & Hc). apply Hvs in Hin. apply (Hch _ _ _ Hin) in Hc. eauto 10.
  - intros (y & m & row & E & Hc). exists (y, m, row). split; [by apply Hvs|]. by apply (Hch _ _ _ E).
Qed.

(** A search over the row's versions finds a visible one, if any. *)
Lemma find_visible_repr gsnap snap own vs :
  (forall y m row, In (y, m, row) vs <-> a_vers a !! y = Some (m, row)) ->
  exists res, find_visible_one (r_kv s) (r_kv s) gsnap snap own vs = Ok res /\
    match res with
    | Some (c, row) => (exists m, a_vers a !! c = Some (m, row)) /\ avisible a snap own c
    | None => forall c, ~ avisible a snap own c
    end.
Proof.
  intros Hvs. unfold find_visible_one.
  destruct (fold_consider_best (global_status (r_kv s) (r_kv s) gsnap) snap own None vs)
    as (res & -> & Hb); [apply plain_total, Hp|].
  exists res. split; [done|]. destruct res as [[c row]|]; simpl in Hb.
  - destruct Hb as ([?|(m & Hin & Hv)] & _); [done|]. apply Hvs in Hin.
    split; [eauto|]. by eapply visible_repr.
  - intros c Hc. pose proof Hc as (m & row & E & _). destruct Hb as [_ Hb].
    apply (Hb (c, m, row)); [by apply Hvs|]. by eapply visible_repr.
Qed.

(** The re-check reports a serialization failure exactly under REPEATABLE READ
    on a row changed since the snapshot, and otherwise picks what the abstract
    machine allows. *)
Lemma eval_plan_qual_repr snap x rr :
  snapshot_ok snap ->
  match eval_plan_qual (r_kv s) (r_kv s) (r_pa s) snap tb rowid x rr with
  | Ok (Some (c, row)) => selects a snap x rr c row
  | Ok None => rr = true -> ~ changed a snap x
  | Err e => e = ESerializationFailure /\ rr = true /\ changed a snap x
  end.
Proof.
  intros Hs. unfold eval_plan_qual.
  destruct (read_versions_repr (r_kv s) (a_vers a)) as (vs & -> & _ & Hvs); [apply Hp..|].
  rsimpl. pose proof (changed_repr snap x vs Hs Hvs) as Hch.
  assert (procarray_snapshot (r_pa s) = fresh a) as Hf by (by rewrite (p_pa _ _ Hp)).
  destruct (existsb _ vs).
  - destruct rr; [naive_solver|]. rewrite Hf.
    destruct (find_visible_repr settled_global (fresh a) (Some x) vs Hvs) as (res & -> & Hres).
    destruct res as [[c row]|]; [|done]. destruct Hres as [? ?]. split; [done|]. left. tauto.
  - assert (~ changed a snap x) as Hn by (rewrite <- Hch; done).
    destruct (find_visible_repr settled_global snap (Some x) vs Hvs) as (res & -> & Hres).
    destruct res as [[c row]|]; [|done]. destruct Hres as [? ?]. split; [done|]. by right.
Qed.
End Read.

(** ** Writing the row *)

(** Keys of the commit log and the counter are not the row's. *)
Lemma system_not_row tag suffix :
  starts_with (row_key (t_id tb) rowid) (system_prefix tag ++ suffix) = false.
Proof.
  apply not_true_iff_false. intros [s E]%starts_with_spec. destruct Htb as [Ht Hne].
  apply Hne. apply put_u32_inj; [done|unfold SYSTEM_TABLE_ID; width_lia|].
  symmetry. apply (f_equal (take 4)) in E. exact E.
Qed.

Lemma clog_key_not_row x : starts_with (row_key (t_id tb) rowid) (clog_key x) = false.
Proof. apply (system_not_row "clog"). Qed.

Lemma next_xid_not_row : starts_with (row_key (t_id tb) rowid) next_xid_key = false.
Proof. apply (system_not_row "meta"). Qed.

Lemma starts_with_ne p k k' : starts_with p k = true -> starts_with p k' = false -> k <> k'.
Proof. intros ? ? ->. congruence. Qed.

(** One version written. *)
Lemma holds_versions_put kv V x m row :
  holds_versions kv V -> versions_ok V -> u64_ok x ->
  holds_versions (kv_put kv (version_key_xid (t_id tb) rowid x) (encode_tuple x m row))
    (<[x := (m, row)]> V).
Proof.
  intros Hv Hok Hx k v Hk. destruct Htb as [Ht _]. rewrite kv_get_put. case_decide as Ek.
  - subst k. split.
    + intros [= <-]. exists x, m, row. by rewrite lookup_insert_eq.
    + intros (y & m' & row' & E & Ek & ->). apply lookup_insert_Some in E as [[<- [= <- <-]]|[Hne E]]; [done|].
      apply Hok in E as (Hy & _). apply version_key_inj in Ek; try done. naive_solver.
  - rewrite (Hv k v Hk). split; intros (y & m' & row' & E & -> & ->); exists y, m', row'.
    + rewrite lookup_insert_ne; [done|]. congruence.
    + apply lookup_insert_Some in E as [[<- _]|[_ E]]; [done|]. done.
Qed.

Lemma versions_ok_insert V x m row :
  versions_ok V -> u64_ok x -> u64_ok m -> row_ok row -> versions_ok (<[x := (m, row)]> V).
Proof. intros Hok ? ? ? y m' row' [[<- [= <- <-]]|[_ E]]%lookup_insert_Some; [done|by eapply Hok]. Qed.

Lemma holds_versions_frame kv kv' V :
  (forall k, starts_with (row_key (t_id tb) rowid) k = true -> kv_get kv' k = kv_get kv k) ->
  holds_versions kv V -> holds_versions kv' V.
Proof. intros Hf Hv k v Hk. rewrite Hf by done. by apply Hv. Qed.

Definition row_op (op : WriteOp) : Prop :=
  starts_with (row_key (t_id tb) rowid) (op_key op) = true.

(** Writes of the row's versions leave the commit log and the counter. *)
Lemma row_ops_frame kv ops k :
  Forall row_op ops -> starts_with (row_key (t_id tb) rowid) k = false ->
  kv_get (write_batch kv ops) k = kv_get kv k.
Proof.
  intros Hops Hk. apply kv_get_write_batch_other. rewrite List.Forall_forall in Hops.
  intros op Hin. apply (starts_with_ne (row_key (t_id tb) rowid)); [by apply Hops|done].
Qed.

(** The flushed operations of a planned write are the abstract flush. *)
Lemma flush_versions kv (a : AbsRow) x p :
  holds_versions kv (a_vers a) -> versions_ok (a_vers a) ->
  u64_ok x -> u64_ok (p_cur p) -> pending_rows_ok p ->
  Forall row_op (pending_ops x p) /\
  holds_versions (write_batch kv (pending_ops x p)) (flush a x p) /\ versions_ok (flush a x p).
Proof.
  intros Hv Hok Hx Hc Hr.
  assert (u64_ok INVALID_XID) as Hz by (unfold INVALID_XID; width_lia).
  assert (forall y, row_op (Put (version_key_xid (t_id tb) rowid y) [])) as Hro
    by (intros; apply row_key_version).
  destruct p as [c cur next|c cur]; simpl in *; unfold update_ops, delete_ops.
  - destruct Hr as [Hcur Hnext]. destruct (Z.eqb_spec c x) as [->|Hne].
    + split_and!; [repeat constructor; apply Hro|by apply holds_versions_put|by apply versions_ok_insert].
    + split_and!; [repeat constructor; apply Hro| |by repeat apply versions_ok_insert].
      apply holds_versions_put; [|by apply versions_ok_insert|done]. by apply holds_versions_put.
  - destruct (Z.eqb_spec c x) as [->|Hne];
      (split_and!; [repeat constructor; apply Hro|by apply holds_versions_put|by apply versions_ok_insert]).
Qed.

(** ** Writing the commit log *)

Lemma clog_get_put_any kv x st y :
  clog_get (local_commit kv [clog_put_op x st]) y =
  if decide (clog_key x = clog_key y) then clog_decode (clog_value st) else clog_get kv y.
Proof.
  unfold clog_get, local_commit, clog_put_op. rewrite kv_get_write_batch. cbn [last_write].
  by case_decide.
Qed.

Lemma clog_plain_put kv x st :
  clog_plain kv -> (st = Committed \/ st = Aborted) ->
  clog_plain (local_commit kv [clog_put_op x st]).
Proof.
  intros Hp Hst y. rewrite clog_get_put_any. case_decide; [|by apply Hp].
  destruct Hst as [-> | ->]; simpl; auto.
Qed.

Lemma clog_ops_frame kv x st k :
  (forall y, k <> clog_key y) -> kv_get (local_commit kv [clog_put_op x st]) k = kv_get kv k.
Proof.
  intros Hk. apply kv_get_write_batch_other. intros op [<-|[]]. simpl. intros E. by apply (Hk x).
Qed.

Lemma procarray_open_frame kv kv' mode :
  kv_get kv' next_xid_key = kv_get kv next_xid_key ->
  procarray_open kv' mode = procarray_open kv mode.
Proof. intros E. unfold procarray_open. by rewrite E. Qed.

Lemma next_xid_not_clog x : next_xid_key <> clog_key x.
Proof. intros E. apply (f_equal (take 6)) in E. vm_compute in E. discriminate. Qed.

(** ** Simulation *)

Ltac repr_simpl :=
  cbn [r_kv r_pa r_active r_lock r_pending r_snaps r_rr] in *;
  unfold begin_txn, set_vers, set_lock, set_pending, end_txn in *;
  cbn [a_vers a_com a_next a_running a_active a_lock a_pending a_snaps a_rr] in *.

(** The store changes only outside the row, the commit log and the counter. *)
Lemma repr_frame kv kv' pa act l p sn rr a :
  (forall k, starts_with (row_key (t_id tb) rowid) k = true -> kv_get kv' k = kv_get kv k) ->
  (forall x, kv_get kv' (clog_key x) = kv_get kv (clog_key x)) ->
  kv_get kv' next_xid_key = kv_get kv next_xid_key ->
  repr (mkRowSys kv pa act l p sn rr) a -> repr (mkRowSys kv' pa act l p sn rr) a.
Proof.
  intros Hr Hc Hn Hp.
  assert (forall x, clog_get kv' x = clog_get kv x) as Hcl
    by (intros x; unfold clog_get; by rewrite Hc).
  destruct Hp; split; repr_simpl; try done.
  - by eapply holds_versions_frame.
  - intros x. rewrite Hcl. by apply p_plain0.
  - intros x. rewrite Hcl. by apply p_com0.
  - by rewrite (procarray_open_frame kv).
Qed.

Lemma sim_begin kv pa act l p sn rr a x pa' kv' iso :
  repr (mkRowSys kv pa act l p sn rr) a ->
  next_xid pa + 1 < 2 ^ 64 -> begin_write pa kv = (x, pa', kv') ->
  x = a_next a /\
  repr (mkRowSys kv' pa' ({[x]} ∪ act) l p sn (partial_alter (fun _ => iso) x rr))
    (begin_txn iso a).
Proof.
  intros Hp Hb E. destruct Hp. repr_simpl. subst pa. unfold begin_write in E.
  rewrite decide_True in E by done. cbn [next_xid running pa_mode] in *. simplify_eq.
  split; [done|].
  assert (forall k, k <> next_xid_key ->
            kv_get (write_batch kv [Put next_xid_key (be_bytes 8 (a_next a + 1))]) k = kv_get kv k) as Hf.
  { intros k Hk. apply kv_get_write_batch_other. intros op [<-|[]]. done. }
  split; repr_simpl; try done.
  - eapply holds_versions_frame; [|done]. intros k Hk. apply Hf.
    eapply starts_with_ne; [exact Hk|apply next_xid_not_row].
  - intros y. unfold clog_get. rewrite Hf by (apply not_eq_sym, next_xid_not_clog). by apply p_plain0.
  - intros y. unfold clog_get. rewrite Hf by (apply not_eq_sym, next_xid_not_clog). by apply p_com0.
  - apply procarray_open_put. lia.
  - lia.
Qed.

(** Writes of the row. *)
Lemma sim_vers kv pa act l p sn rr a ops V :
  repr (mkRowSys kv pa act l p sn rr) a ->
  Forall row_op ops -> holds_versions (write_batch kv ops) V -> versions_ok V ->
  repr (mkRowSys (local_commit kv ops) pa act l None sn rr) (set_vers V a).
Proof.
  intros Hp Hops HV Hok.
  assert (forall k, starts_with (row_key (t_id tb) rowid) k = false ->
            kv_get (local_commit kv ops) k = kv_get kv k) as Hf
    by (intros; by apply row_ops_frame).
  assert (forall x, clog_get (local_commit kv ops) x = clog_get kv x) as Hcl
    by (intros x; unfold clog_get; by rewrite Hf by apply clog_key_not_row).
  destruct Hp; split; repr_simpl; try done.
  - intros x. rewrite Hcl. by apply p_plain0.
  - intros x. rewrite Hcl. by apply p_com0.
  - rewrite (procarray_open_frame kv); [done|]. apply Hf, next_xid_not_row.
Qed.

(** The end of a transaction, with its record if it has one. *)
Lemma sim_end kv pa act l p sn rr a x st com p' ap' :
  repr (mkRowSys kv pa act l p sn rr) a -> u64_ok x ->
  (st = Committed /\ com = {[x]} ∪ a_com a) \/ (st = Aborted /\ com = a_com a /\ (x ∉ a_com a)) ->
  match p', ap' with
  | None, None => True
  | Some ops, Some q => p = Some ops /\ a_pending a = Some q
  | _, _ => False
  end ->
  (forall y, y ∈ a_com a -> u64_ok y) ->
  repr (mkRowSys (local_commit kv [clog_put_op x st]) pa (act ∖ {[x]}) l p' sn rr)
    (end_txn com x ap' a).
Proof.
  intros Hp Hx Hst Hpp Hcu. destruct Hp; split; repr_simpl; try done.
  - eapply holds_versions_frame; [|done]. intros k Hk. apply clog_ops_frame.
    intros y. eapply starts_with_ne; [exact Hk|apply clog_key_not_row].
  - apply clog_plain_put; [done|tauto].
  - intros y Hy. rewrite clog_get_put_any. specialize (p_com0 y Hy). case_decide as Ek.
    + apply clog_key_inj in Ek as <-; [|done..].
      destruct Hst as [[-> ->]|(-> & -> & ?)]; simpl; set_solver.
    + assert (x <> y) by congruence. destruct Hst as [[-> ->]|(-> & -> & ?)]; set_solver.
  - rewrite (procarray_open_frame kv); [done|]. apply clog_ops_frame, next_xid_not_clog.
  - by rewrite p_active0.
  - destruct p' as [ops|], ap' as [q|]; try done. destruct Hpp as [-> Eq]. by rewrite Eq in p_pend0.
Qed.

Lemma empty_row s a ch :
  repr s a -> chain_inv a ch -> read_versions (r_kv s) (t_id tb) rowid = Ok [] ->
  a_vers a = ∅ /\ a_pending a = None /\ r_pending s = None.
Proof.
  intros Hp Hi E. destruct (read_versions_repr (r_kv s) (a_vers a)) as (vs & E' & _ & Hvs);
    [apply Hp..|]. rewrite E in E'. simplify_eq.
  assert (a_vers a = ∅) as HV.
  { apply map_empty. intros x. destruct (a_vers a !! x) as [[m row]|] eqn:Ex; [|done].
    by apply Hvs in Ex. }
  assert (a_pending a = None) as HP.
  { destruct (a_pending a) as [q|] eqn:Eq; [|done].
    destruct (c_pend _ _ Hi q Eq) as (x & r & m & row & _ & _ & _ & Ev & _).
    rewrite HV in Ev. done. }
  split_and!; [done..|]. pose proof (p_pend _ _ Hp) as Hpp. rewrite HP in Hpp.
  by destruct (r_pending s).
Qed.

Lemma sim_insert kv pa act l p sn rr a ch x row :
  repr (mkRowSys kv pa act l p sn rr) a -> chain_inv a ch ->
  x ∈ act -> read_versions kv (t_id tb) rowid = Ok [] -> row_ok row ->
  exists a', astep a a' /\
    repr (mkRowSys (local_commit kv [insert_op (t_id tb) rowid x row]) pa act l p sn rr) a'.
Proof.
  intros Hp Hi Hx E Hr. destruct (empty_row _ _ _ Hp Hi E) as (HV & _ & HP). simpl in HP. subst p.
  assert (x ∈ a_active a) as Hxa by (by rewrite <- (p_active _ _ Hp)).
  assert (u64_ok x) as Hxu.
  { apply (c_act _ _ Hi), (c_run _ _ Hi) in Hxa. pose proof (p_bound _ _ Hp). width_lia. }
  eexists. split; [by apply (as_insert a x row)|]. eapply sim_vers; [exact Hp|..].
  - repeat constructor. apply row_key_version.
  - unfold write_batch; cbn [fold_left insert_op write_op].
    pose proof (holds_versions_put kv (a_vers a) x INVALID_XID row) as Hput.
    rewrite HV, insert_empty in Hput. apply Hput; [rewrite <- HV; apply Hp|by intros ????|done].
  - rewrite <- insert_empty. apply versions_ok_insert; [by intros ????|done| |done].
    unfold INVALID_XID. width_lia.
Qed.

Lemma sim_plan kv pa act sn rr a ch x snap iso q :
  repr (mkRowSys kv pa act (Some x) None sn rr) a -> chain_inv a ch ->
  x ∈ act -> stmt_snapshot (mkRowSys kv pa act (Some x) None sn rr) x snap iso ->
  eval_plan_qual kv kv pa snap tb rowid x iso = Ok (Some (p_cur q, p_row q)) ->
  (row_ok (p_row q) -> pending_rows_ok q) ->
  exists a', astep a a' /\
    repr (mkRowSys kv pa act (Some x) (Some (pending_ops x q)) sn rr) a'.
Proof.
  intros Hp Hi Hx Hs Hev Hq.
  assert (snap ∈ a_snaps a) as Hsn by (destruct Hs as [Hs _]; by rewrite <- (p_snaps _ _ Hp)).
  pose proof (eval_plan_qual_repr _ _ Hp snap x iso (p_snaps_ok _ _ Hp _ Hsn)) as Hsel.
  cbn [r_kv r_pa] in Hsel. rewrite Hev in Hsel.
  assert (a_pending a = None) as HP by (pose proof (p_pend _ _ Hp); by destruct (a_pending a)).
  eexists. split.
  - apply (as_plan a x snap iso q); [by rewrite <- (p_active _ _ Hp)|by rewrite <- (p_lock _ _ Hp)|
      done| |done]. split; [done|]. destruct Hs as [_ Hs]. by rewrite <- (p_rr _ _ Hp).
  - destruct Hsel as [[m Em] _]. apply (p_rows _ _ Hp) in Em as (_ & _ & Hr).
    destruct Hp; split; repr_simpl; try done. exists x. auto.
Qed.

Lemma sim_flush kv pa act x ops sn rr a ch :
  repr (mkRowSys kv pa act (Some x) (Some ops) sn rr) a -> chain_inv a ch ->
  exists a', astep a a' /\ repr (mkRowSys (local_commit kv ops) pa act (Some x) None sn rr) a'.
Proof.
  intros Hp Hi. pose proof (p_pend _ _ Hp) as Hpp. cbn [r_pending] in Hpp.
  destruct (a_pending a) as [q|] eqn:Eq; [|done]. destruct Hpp as (y & El & -> & Hq).
  pose proof (p_lock _ _ Hp) as El'. cbn [r_lock] in El'. rewrite El in El'. injection El' as <-.
  destruct (c_pend _ _ Hi q Eq) as (y & r & m & row & El' & Hy & _ & Em & _).
  rewrite El in El'. injection El' as <-.
  destruct (p_rows _ _ Hp _ _ _ Em) as (Hc & _).
  assert (u64_ok x) as Hxu.
  { apply (c_lock _ _ Hi) in El. pose proof (p_bound _ _ Hp). width_lia. }
  destruct (flush_versions kv a x q) as (Hops & HV & Hok); try done; [apply Hp..|].
  eexists. split; [by eapply as_flush|]. by eapply sim_vers.
Qed.

Lemma sim_commit_abort kv pa act l p sn rr a ch x :
  repr (mkRowSys kv pa act l p sn rr) a -> chain_inv a ch -> x ∈ act ->
  ((l = Some x -> p = None) -> exists a', astep a a' /\
     repr (mkRowSys (local_commit kv [clog_put_op x Committed]) pa (act ∖ {[x]}) l p sn rr) a') /\
  (forall recorded : bool, exists a', astep a a' /\
     repr (mkRowSys (if recorded then local_commit kv [clog_put_op x Aborted] else kv) pa
             (act ∖ {[x]}) l (if decide (l = Some x) then None else p) sn rr) a').
Proof.
  intros Hp Hi Hx. pose proof (p_bound _ _ Hp) as Hb.
  assert (x ∈ a_active a) as Hxa by (by rewrite <- (p_active _ _ Hp)).
  assert (u64_ok x) as Hxu by (apply (c_act _ _ Hi), (c_run _ _ Hi) in Hxa; width_lia).
  assert (forall y, y ∈ a_com a -> u64_ok y) as Hcu
    by (intros y Hy%(c_com _ _ Hi); width_lia).
  pose proof (p_lock _ _ Hp) as El. pose proof (p_pend _ _ Hp) as Hpp. repr_simpl. split.
  - intros Hlp. eexists. split.
    + apply as_commit; [exact Hxa|]. rewrite <- El. intros E. rewrite (Hlp E) in Hpp.
      by destruct (a_pending a).
    + eapply sim_end; try done; [by left|]. by destruct p, (a_pending a).
  - intros recorded. eexists. split; [by apply as_abort|]. rewrite <- El.
    assert (repr (mkRowSys kv pa (act ∖ {[x]}) l (if decide (l = Some x) then None else p) sn rr)
              (end_txn (a_com a) x (if decide (l = Some x) then None else a_pending a) a)) as Hun.
    { destruct Hp; split; repr_simpl; try done; [by rewrite p_active0|]. by case_decide. }
    destruct recorded; [|done].
    eapply sim_end; try done.
    + right. split_and!; try done. intros Hc. by apply (c_disj _ _ Hi x).
    + case_decide; [done|]. by destruct p, (a_pending a).
Qed.

(** Every step on the store is a step of the abstract machine, or none. *)
Lemma rstep_simulated s s' a ch :
  rstep s s' -> repr s a -> chain_inv a ch ->
  exists a', (a' = a \/ astep a a') /\ repr s' a'.
Proof.
  intros Hst Hp Hi.
  enough (repr s' a \/ exists a', astep a a' /\ repr s' a') as [?|(a' & ? & ?)] by eauto.
  destruct Hst.
  - right. destruct (sim_begin _ _ _ _ _ _ _ _ _ _ _ iso Hp H1 H2) as [-> Hr].
    eexists. split; [|exact Hr]. apply as_begin. by rewrite <- (p_snaps _ _ Hp).
  - right. eexists. split; [apply as_snapshot|]. destruct Hp; split; repr_simpl; try done.
    + by rewrite p_pa0, p_snaps0.
    + intros sn' [->|?]%elem_of_cons; [apply procarray_snapshot_ok|auto].
  - right. by eapply sim_insert.
  - right. eexists. split.
    + apply as_lock; [by rewrite <- (p_active _ _ Hp)|by rewrite <- (p_lock _ _ Hp)].
    + pose proof (p_pend _ _ Hp) as Hpp. pose proof (p_lock _ _ Hp) as El.
      destruct Hp; split; repr_simpl; try done.
      destruct p, (a_pending a); try done. destruct Hpp as (? & ? & _). congruence.
  - right. apply (sim_plan _ _ _ _ _ _ _ _ _ _ (PUpdate c cur next) Hp Hi H1 H2 H3). by intros.
  - right. apply (sim_plan _ _ _ _ _ _ _ _ _ _ (PDelete c cur) Hp Hi H1 H2 H3). by intros.
  - right. by eapply sim_flush.
  - right. by eapply sim_commit_abort.
  - right. by eapply sim_commit_abort.
  - right. eexists. split; [apply as_finish; by rewrite <- (p_active _ _ Hp)|].
    destruct Hp; split; repr_simpl; try done. by rewrite p_pa0.
  - right. eexists. split.
    + eapply as_release; [by rewrite <- (p_lock _ _ Hp)|]. pose proof (p_pa _ _ Hp) as E. simpl in E.
      by rewrite E in H1.
    + pose proof (p_pend _ _ Hp) as Hpp. pose proof (p_lock _ _ Hp) as El.
      pose proof (p_pa _ _ Hp) as Epa. pose proof (c_pend _ _ Hi) as Hcp.
      pose proof (c_act _ _ Hi) as Hca.
      destruct Hp; split; repr_simpl; try done. subst pa. simpl in H1.
      destruct p, (a_pending a) as [q|]; try done.
      destruct (Hcp q eq_refl) as (y & ? & ? & ? & Ey & Hy & _). apply Hca in Hy. congruence.
  - right. eexists. split; [apply as_crash|]. destruct Hp; split; repr_simpl; try done; [|set_solver].
    rewrite p_open0 in H1. by simplify_eq.
  - left. eapply repr_frame; [| | |exact Hp]; unfold local_commit.
    + intros k Hk. apply kv_get_write_batch_other. intros op Hop%H1. destruct Hop as [Hop _].
      intros E. rewrite E in Hop. congruence.
    + intros x. apply kv_get_write_batch_other. intros op Hop%H1. by destruct Hop as (_ & _ & ?).
    + apply kv_get_write_batch_other. intros op Hop%H1. by destruct Hop as (_ & ? & _).
Qed.

(** ** What holds in every reachable state *)

(** The engine opens a store without prepared transactions, in which the row
    does not exist yet. *)
Record row_start (kv : MemKv) (pa : ProcArray) : Prop := {
  st_open : procarray_open kv PDurable = Ok pa;
  st_bound : next_xid pa < 2 ^ 64;
  st_absent : forall k, starts_with (row_key (t_id tb) rowid) k = true -> kv_get kv k = None;
  st_plain : clog_plain kv;
  st_com : forall x, u64_ok x -> clog_get kv x = Ok Committed -> 1 <= x < next_xid pa
}.

Definition row_init (kv : MemKv) (pa : ProcArray) : RowSys := mkRowSys kv pa ∅ None None [] ∅.

Definition is_committed (kv : MemKv) (x : Z) : bool :=
  match clog_get kv x with Ok Committed => true | _ => false end.

Lemma is_committed_spec kv x : is_committed kv x = true <-> clog_get kv x = Ok Committed.
Proof. unfold is_committed. destruct (clog_get kv x) as [[]|]; naive_solver. Qed.

Lemma row_start_repr kv pa :
  row_start kv pa -> exists a, repr (row_init kv pa) a /\ chain_inv a [].
Proof.
  intros [Ho Hb Ha Hpl Hc].
  assert (1 <= next_xid pa /\ pa = mkProcArray (next_xid pa) ∅ PDurable) as [H1 Epa].
  { unfold procarray_open in Ho. apply bind_Ok in Ho as (n & _ & [= <-]). simpl. split; [lia|done]. }
  set (com := list_to_set (List.filter (is_committed kv) (seqZ 1 (next_xid pa))) : gset Z).
  assert (forall x, x ∈ com <-> clog_get kv x = Ok Committed /\ 1 <= x < 1 + next_xid pa) as Hcom.
  { intros x. unfold com. rewrite elem_of_list_to_set, list_elem_of_In, filter_In.
    rewrite <- list_elem_of_In, elem_of_seqZ, is_committed_spec. tauto. }
  assert (forall x, x ∈ com -> 1 <= x < next_xid pa) as Hcb.
  { intros x [E Hx]%Hcom. apply Hc; [width_lia|done]. }
  exists (abs_init (next_xid pa) com). split; [|by apply abs_init_inv].
  unfold row_init, abs_init. split; repr_simpl; try done.
  - intros k v Hk. rewrite (Ha k Hk). split; [done|]. by intros (x & m & row & ? & _).
  - intros x Hx. rewrite Hcom. split; [|by intros [? _]]. intros E. split; [done|].
    pose proof (Hc x Hx E). lia.
  - by rewrite Ho, Epa at 1.
  - by intros ? ?%not_elem_of_nil.
Qed.

Lemma row_reachable kv pa s :
  row_start kv pa -> rtc rstep (row_init kv pa) s ->
  exists a ch, repr s a /\ chain_inv a ch.
Proof.
  intros (a & Hp & Hi)%row_start_repr Hr.
  assert (exists a ch, repr (row_init kv pa) a /\ chain_inv a ch) as H1 by eauto. clear Hp Hi a.
  revert H1. induction Hr as [|s s' s'' Hst _ IH]; [done|]. intros (a & ch & Hp & Hi). apply IH.
  destruct (rstep_simulated _ _ _ _ Hst Hp Hi) as (a' & [->|Ha] & Hp'); [eauto|].
  destruct (astep_inv _ _ _ Ha Hi) as [ch' Hi']. eauto.
Qed.

(** ** Who reads, and under which snapshot *)

(** Taking a snapshot. *)
Definition take_snapshot (s : RowSys) : RowSys :=
  mkRowSys (r_kv s) (r_pa s) (r_active s) (r_lock s) (r_pending s)
    (procarray_snapshot (r_pa s) :: r_snaps s) (r_rr s).

(** A step, of any session, during a statement of [x]: the process does not crash,
    which would lose the snapshots, and what the statement has planned for the row is
    not yet written or dropped, which happens at its end. *)
Definition same_statement (x : Z) (s s' : RowSys) : Prop :=
  rstep s s' /\ r_snaps s' <> [] /\
  ~ (r_lock s = Some x /\ is_Some (r_pending s) /\ r_pending s' = None).

(** The reads of the row in a state: under a snapshot taken now; by a session without a
    transaction of its own, under one taken at any time before; by a REPEATABLE READ
    transaction, under its fixed one; and by a statement of a READ COMMITTED
    transaction, under the one it took when it started, whatever other sessions have
    done since. *)
Inductive reads (kv : MemKv) (pa : ProcArray) (s : RowSys) : option Z -> Snapshot -> Prop :=
| rd_now own :
    rtc rstep (row_init kv pa) s -> (forall x, own = Some x -> x ∈ r_active s) ->
    reads kv pa s own (procarray_snapshot (r_pa s))
| rd_alone snap :
    rtc rstep (row_init kv pa) s -> snap ∈ r_snaps s -> reads kv pa s None snap
| rd_fixed x snap :
    rtc rstep (row_init kv pa) s -> x ∈ r_active s -> r_rr s !! x = Some snap ->
    reads kv pa s (Some x) snap
| rd_statement s0 x :
    rtc rstep (row_init kv pa) s0 -> rtc (same_statement x) (take_snapshot s0) s ->
    x ∈ r_active s -> reads kv pa s (Some x) (procarray_snapshot (r_pa s0)).

Lemma fresh_legit (a : AbsRow) ch own : chain_inv a ch -> snapshot_legit ch (fresh a) own.
Proof.
  intros Hi. assert (forall b x, adj ch b x -> is_running (fresh a) x = false) as Hf.
  { intros b x (_ & Hc & Hrn)%(c_adj _ _ Hi). apply fresh_running.
    apply (c_com _ _ Hi) in Hc. split; [lia|done]. }
  split; [intros b y Hb _|intros x y _ Hb]; by eapply Hf.
Qed.

(** The state of a system that is in a statement of [x] with the snapshot [snap]. *)
Definition in_statement (x : Z) (snap : Snapshot) (s : RowSys) : Prop :=
  exists a ch, repr s a /\ chain_inv a ch /\ snap ∈ r_snaps s /\
    forall y, adj ch x y -> is_running snap y = false.

Lemma rstep_snaps s s' snap :
  rstep s s' -> r_snaps s' <> [] -> snap ∈ r_snaps s -> snap ∈ r_snaps s'.
Proof. intros [] Hne Hin; try done. by right. Qed.

Lemma in_statement_step x snap s s' :
  in_statement x snap s -> same_statement x s s' -> in_statement x snap s'.
Proof.
  intros (a & ch & Hp & Hi & Hs & Ha) (Hst & Hne & Hend).
  pose proof (rstep_snaps _ _ _ Hst Hne Hs) as Hs'.
  destruct (rstep_simulated _ _ _ _ Hst Hp Hi) as (a' & [->|Hst'] & Hp'); [by exists a, ch|].
  destruct (astep_chain _ _ _ Hst' Hi) as (ch' & Hi' & Hadj). exists a', ch'. split_and!; try done.
  intros y [Hy|(El & [q Eq] & En)]%Hadj; [by apply Ha|]. destruct Hend.
  pose proof (p_pend _ _ Hp) as P. pose proof (p_pend _ _ Hp') as P'. rewrite Eq in P. rewrite En in P'.
  rewrite (p_lock _ _ Hp). by destruct (r_pending s), (r_pending s').
Qed.

Lemma in_statement_run x s0 s kv pa :
  row_start kv pa -> rtc rstep (row_init kv pa) s0 -> rtc (same_statement x) (take_snapshot s0) s ->
  in_statement x (procarray_snapshot (r_pa s0)) s.
Proof.
  intros Hst Hr0 Hr. assert (rtc rstep (row_init kv pa) (take_snapshot s0)) as Hr1.
  { eapply rtc_r; [exact Hr0|]. destruct s0. constructor. }
  destruct (row_reachable _ _ _ Hst Hr1) as (a & ch & Hp & Hi).
  assert (in_statement x (procarray_snapshot (r_pa s0)) (take_snapshot s0)) as Hs.
  { exists a, ch. split_and!; [done..|by left|]. intros y Hy.
    pose proof (p_pa _ _ Hp) as Epa. cbn [take_snapshot r_pa] in Epa. rewrite Epa.
    by apply (proj2 (fresh_legit a ch (Some x) Hi) x). }
  clear Hst Hr0 Hr1 Hp Hi. induction Hr as [|s1 s2 s3 Hst _ IH]; [done|].
  apply IH. by eapply in_statement_step.
Qed.

Lemma reads_legit kv pa s own snap :
  row_start kv pa -> reads kv pa s own snap ->
  exists a ch, repr s a /\ chain_inv a ch /\ snapshot_legit ch snap own /\
    forall x, own = Some x -> x ∈ a_active a.
Proof.
  intros Hst [own' Hr Hown|snap' Hr Hs|x snap' Hr Hx Hrr|s0 x Hr0 Hr Hx].
  - destruct (row_reachable _ _ _ Hst Hr) as (a & ch & Hp & Hi). exists a, ch.
    rewrite (p_pa _ _ Hp), <- (p_active _ _ Hp). split_and!; [done..|by apply fresh_legit|done].
  - destruct (row_reachable _ _ _ Hst Hr) as (a & ch & Hp & Hi). exists a, ch.
    rewrite (p_snaps _ _ Hp) in Hs. split_and!; [done..| |done]. split; [|done]. by apply (c_snap _ _ Hi).
  - destruct (row_reachable _ _ _ Hst Hr) as (a & ch & Hp & Hi). exists a, ch.
    rewrite (p_rr _ _ Hp) in Hrr. rewrite (p_active _ _ Hp) in Hx.
    destruct (c_rr _ _ Hi _ _ Hrr Hx) as [Hs Hy]. split_and!; [done..| |by intros ? [= <-]].
    split; [by apply (c_snap _ _ Hi)|]. intros ? y [= <-]. apply Hy.
  - destruct (in_statement_run _ _ _ _ _ Hst Hr0 Hr) as (a & ch & Hp & Hi & Hs & Hy). exists a, ch.
    rewrite (p_active _ _ Hp) in Hx. rewrite (p_snaps _ _ Hp) in Hs.
    split_and!; [done..| |by intros ? [= <-]].
    split; [by apply (c_snap _ _ Hi)|]. intros ? y [= <-]. apply Hy.
Qed.

Lemma ok_true {E} (r : result E bool) :
  match r with Ok true => true | _ => false end = true -> r = Ok true.
Proof. by destruct r as [[|]|]. Qed.

Lemma filter_unique {A} (f : A -> bool) (R : A -> A -> Prop) l :
  StronglySorted R l -> (forall x, ~ R x x) ->
  (forall x y, In x l -> In y l -> f x = true -> f y = true -> x = y) ->
  (length (List.filter f l) <= 1)%nat.
Proof.
  intros Hs Hirr Hu. destruct (List.filter f l) as [|x [|y r]] eqn:E; simpl; try lia. exfalso.
  assert (forall z, In z (x :: y :: r) -> In z l /\ f z = true) as Hin
    by (intros z; rewrite <- E; apply filter_In).
  assert (StronglySorted R (x :: y :: r)) as Hs' by (rewrite <- E; by apply StronglySorted_filter).
  apply StronglySorted_inv in Hs' as [_ Hx]. inversion Hx; subst.
  destruct (Hin x ltac:(by left)), (Hin y ltac:(by right; left)).
  assert (x = y) as <- by auto. by eapply Hirr.
Qed.

(** C1: At most one version of a row is live. In every reachable state of a
    single-range engine, over all interleavings of transactions and crashes,
    every reader finds at most one visible version of a row: the number that
    [find_visible_one] and [scan_live] assert to be at most one is. The readers
    are all the code has: also a statement of a READ COMMITTED transaction with
    writes of its own, which reads under the snapshot of its start while other
    transactions commit. *)
Theorem at_most_one_live kv pa s own snap gsnap :
  row_start kv pa -> reads kv pa s own snap ->
  exists vs, read_versions (r_kv s) (t_id tb) rowid = Ok vs /\
    (live_count (global_status (r_kv s) (r_kv s) gsnap) snap own vs <= 1)%nat.
Proof.
  intros Hst Hrd. destruct (reads_legit _ _ _ _ _ Hst Hrd) as (a & ch & Hp & Hi & Hl & Hown).
  destruct (read_versions_repr (r_kv s) (a_vers a)) as (vs & E & Hs & Hvs); [apply Hp..|].
  exists vs. split; [done|].
  eapply filter_unique; [exact Hs|simpl; lia|].
  intros [[x m] row] [[y n] row'] Hx%Hvs Hy%Hvs Fx Fy. cbn [fst snd] in Fx, Fy.
  assert (x = y) as <-; [|by simplify_eq].
  eapply (at_most_one_visible _ _ Hi snap own); try done.
  - apply (visible_repr _ _ Hp gsnap snap own _ _ _ Hx). by apply ok_true.
  - apply (visible_repr _ _ Hp gsnap snap own _ _ _ Hy). by apply ok_true.
Qed.

(** C3: No update is lost. In every reachable state the re-check of a row by the
    transaction that holds its lock either reports a serialization failure,
    under REPEATABLE READ, or answers; and the version it answers with is the
    newest: no transaction that is committed or may still commit has deleted or
    superseded it, and every other version was superseded by a committed
    transaction or by this one, or its creator can never commit. *)
Theorem recheck_finds_newest kv pa s x snap rr :
  row_start kv pa -> rtc rstep (row_init kv pa) s ->
  x ∈ r_active s -> r_lock s = Some x -> stmt_snapshot s x snap rr ->
  match eval_plan_qual (r_kv s) (r_kv s) (r_pa s) snap tb rowid x rr with
  | Err e => e = ESerializationFailure /\ rr = true
  | Ok None => True
  | Ok (Some (c, row)) =>
      exists vs m, read_versions (r_kv s) (t_id tb) rowid = Ok vs /\ In (c, m, row) vs /\
        clog_get (r_kv s) m <> Ok Committed /\ (m ∉ r_active s) /\
        forall y n row', In (y, n, row') vs -> y <> c ->
          clog_get (r_kv s) n = Ok Committed \/ n = x \/
          (clog_get (r_kv s) y <> Ok Committed /\ (y ∉ r_active s))
  end.
Proof.
  intros Hst Hr Hx El [Hsn Hm]. destruct (row_reachable _ _ _ Hst Hr) as (a & ch & Hp & Hi).
  rewrite (p_snaps _ _ Hp) in Hsn.
  pose proof (eval_plan_qual_repr _ _ Hp snap x rr (p_snaps_ok _ _ Hp _ Hsn)) as Hev.
  destruct (eval_plan_qual _ _ _ _ _ _ _ _) as [[[c row]|]|e]; [|done|by destruct Hev as (? & ? & _)].
  rewrite (p_active _ _ Hp) in Hx |- *. rewrite (p_lock _ _ Hp) in El.
  destruct (selects_head _ _ Hi _ _ _ _ _ Hx El Hsn Hev) as (r & m & Ec & Em & [Hia Hic] & Hor & _).
  destruct (read_versions_repr (r_kv s) (a_vers a)) as (vs & E & _ & Hvs); [apply Hp..|].
  exists vs, m. destruct (p_rows _ _ Hp _ _ _ Em) as (_ & Hmu & _).
  split_and!; [done|by apply Hvs|by rewrite (p_com _ _ Hp)|done|].
  intros y n row' Hy%Hvs Hne. destruct (p_rows _ _ Hp _ _ _ Hy) as (Hyu & Hnu & _).
  rewrite !(p_com _ _ Hp) by done.
  destruct (c_ver _ _ Hi _ _ _ Hy) as (_ & _ & [Hin|[? ?]]); [|tauto].
  apply chain_not_head in Hin as [[r' Er]|[b Hb]]; [congruence|].
  destruct (c_adj _ _ Hi _ _ Hb) as ((row'' & Eb) & _). rewrite Hy in Eb. simplify_eq.
  apply adj_elem in Hb as [Hb _].
  destruct (chain_member _ _ Hi _ Hb) as [?|[Hba [r' Er]]]; [by left|].
  simplify_eq. destruct Hor as [->|[Hc _]]; [tauto|]. by destruct (c_disj _ _ Hi b).
Qed.
End RowHistoryKv.

(** ** A concrete run: transaction 1 inserts the row and commits; transaction 2
    locks it. *)

Definition run_pa0 : ProcArray := mkProcArray 1 ∅ PDurable.
Definition run_row : list (Datum (H := model_ext)) := [DInt4 42].

Lemma run_row_ok : row_ok run_row.
Proof. repeat constructor; simpl; width_lia. Qed.

Lemma run_table_ok : u32_ok (t_id sample_table) /\ t_id sample_table <> SYSTEM_TABLE_ID.
Proof. split; [simpl; width_lia|done]. Qed.

Lemma run_rowid_ok : u64_ok 1.
Proof. width_lia. Qed.

Lemma run_start : row_start sample_table 1 kv_new run_pa0.
Proof. split; try done. intros x. by left. Qed.

Definition run_kv1 : MemKv := write_batch kv_new [Put next_xid_key (be_bytes 8 2)].
Definition run_pa1 : ProcArray := mkProcArray 2 {[1]} PDurable.
Definition run_kv2 : MemKv := local_commit run_kv1 [insert_op (t_id sample_table) 1 1 run_row].
Definition run_kv3 : MemKv := local_commit run_kv2 [clog_put_op 1 Committed].
Definition run_pa2 : ProcArray := procarray_finish run_pa1 1.
Definition run_pa3 : ProcArray := mkProcArray 3 {[2]} PDurable.
Definition run_kv4 : MemKv := write_batch run_kv3 [Put next_xid_key (be_bytes 8 3)].

Definition run_inserted : RowSys := mkRowSys run_kv2 run_pa1 ({[1]} ∪ ∅) None None [] (partial_alter (fun _ => None) 1 ∅).

Definition run_locked : RowSys :=
  mkRowSys run_kv4 run_pa3 ({[2]} ∪ (({[1]} ∪ ∅) ∖ {[1]})) (Some 2) None
    [procarray_snapshot run_pa3] (partial_alter (fun _ => None) 2 (partial_alter (fun _ => None) 1 ∅)).

Lemma run_inserted_reachable :
  rtc (rstep (H := model_ext) sample_table 1) (row_init kv_new run_pa0) run_inserted.
Proof.
  eapply rtc_l; [apply (r_begin _ _ _ _ _ _ _ _ _ 1 run_pa1 run_kv1 None); [done|vm_compute; reflexivity|done]|].
  apply rtc_once. unfold run_inserted, run_kv2.
  apply r_insert; [set_solver| |apply run_row_ok]. unfold read_versions.
  assert (scan_prefix run_kv1 (row_key (t_id sample_table) 1) = []) as -> by (vm_compute; reflexivity).
  reflexivity.
Qed.

Lemma run_locked_reachable :
  rtc (rstep (H := model_ext) sample_table 1) (row_init kv_new run_pa0) run_locked.
Proof.
  transitivity run_inserted; [apply run_inserted_reachable|]. unfold run_inserted, run_locked.
  eapply rtc_l; [apply (r_commit _ _ _ _ _ _ _ _ _ 1); [set_solver|done]|].
  eapply rtc_l; [apply (r_finish _ _ _ _ _ _ _ _ _ 1); set_solver|].
  eapply rtc_l; [apply (r_begin _ _ _ _ _ _ _ _ _ 2 run_pa3 run_kv4 None); [done|vm_compute; reflexivity|done]|].
  eapply rtc_l; [apply r_snapshot|].
  apply rtc_once. apply r_acquire. set_solver.
Qed.

Lemma run_versions : read_versions run_kv4 (t_id sample_table) 1 = Ok [(1, 0, run_row)].
Proof.
  unfold read_versions.
  assert (scan_prefix run_kv4 (row_key (t_id sample_table) 1)
          = [(version_key_xid 7 1 1, encode_tuple 1 0 run_row)]) as -> by (vm_compute; reflexivity).
  cbn [mapR snd]. rewrite decode_tuple_encode; [done|width_lia..|apply run_row_ok].
Qed.

Lemma run_recheck :
  eval_plan_qual run_kv4 run_kv4 run_pa3 (procarray_snapshot run_pa3) sample_table 1 2 false
  = Ok (Some (1, run_row)).
Proof.
  unfold eval_plan_qual. rewrite run_versions. rsimpl. cbn [existsb changed_since].
  change (0 =? INVALID_XID) with true. cbn [negb andb orb].
  unfold find_visible_one. cbn [foldM consider].
  assert (satisfies_mvcc 1 0 (procarray_snapshot run_pa3) (Some 2)
            (global_status run_kv4 run_kv4 settled_global) = Ok true) as -> by (vm_compute; reflexivity).
  reflexivity.
Qed.

(** Transaction 2 starts a statement while 1 is still running; 1 commits before the
    statement reads the row. *)
Definition run_kv1b : MemKv := write_batch run_kv2 [Put next_xid_key (be_bytes 8 3)].
Definition run_pa1b : ProcArray := mkProcArray 3 ({[2]} ∪ {[1]}) PDurable.
Definition run_two : RowSys :=
  mkRowSys run_kv1b run_pa1b ({[2]} ∪ ({[1]} ∪ ∅)) None None []
    (partial_alter (fun _ => None) 2 (partial_alter (fun _ => None) 1 ∅)).
Definition run_reading : RowSys :=
  mkRowSys (local_commit run_kv1b [clog_put_op 1 Committed]) run_pa1b (({[2]} ∪ ({[1]} ∪ ∅)) ∖ {[1]})
    None None [procarray_snapshot run_pa1b]
    (partial_alter (fun _ => None) 2 (partial_alter (fun _ => None) 1 ∅)).

Lemma run_two_reachable :
  rtc (rstep (H := model_ext) sample_table 1) (row_init kv_new run_pa0) run_two.
Proof.
  transitivity run_inserted; [apply run_inserted_reachable|]. unfold run_inserted, run_two.
  apply rtc_once, (r_begin _ _ _ _ _ _ _ _ _ 2 run_pa1b run_kv1b None); [done|vm_compute; reflexivity|done].
Qed.

Lemma at_most_one_live_witness :
  exists vs, read_versions (H := model_ext) (r_kv run_reading) 7 1 = Ok vs /\
    (live_count (global_status (r_kv run_reading) (r_kv run_reading) NO_GLOBAL_SNAPSHOT)
       (procarray_snapshot run_pa1b) (Some 2%Z) vs <= 1)%nat.
Proof.
  apply (at_most_one_live sample_table 1 run_table_ok run_rowid_ok kv_new run_pa0 run_reading
           (Some 2) (procarray_snapshot run_pa1b) NO_GLOBAL_SNAPSHOT run_start).
  apply (rd_statement _ _ _ _ _ run_two 2); [apply run_two_reachable| |unfold run_reading; simpl; set_solver].
  apply rtc_once. split_and!; [|done|by intros [? _]].
  apply (r_commit _ _ _ _ _ _ _ _ _ 1); [set_solver|done].
Defined.

Lemma recheck_finds_newest_witness :
  exists vs m, read_versions (H := model_ext) run_kv4 7 1 = Ok vs /\ In (1, m, run_row) vs /\
    clog_get run_kv4 m <> Ok Committed.
Proof.
  pose proof (recheck_finds_newest sample_table 1 run_table_ok run_rowid_ok kv_new run_pa0
                run_locked 2 (procarray_snapshot run_pa3) false run_start run_locked_reachable
                ltac:(unfold run_locked; simpl; set_solver) eq_refl
                ltac:(split; [by left|reflexivity])) as Hn.
  assert (eval_plan_qual (r_kv run_locked) (r_kv run_locked) (r_pa run_locked)
            (procarray_snapshot run_pa3) sample_table 1 2 false = Ok (Some (1, run_row))) as E
    by apply run_recheck.
  rewrite E in Hn. destruct Hn as (vs & m & H1 & H2 & H3 & _). exists vs, m. auto.
Defined.
