(* ===== verification/RowSnapshot.v ===== *)
(** * A snapshot reads the same row for as long as it lives

    On the machines of [RowHistory] and [RowHistoryKv]: once a snapshot is taken, what
    it shows of a row does not change, whatever transactions insert, update, delete,
    commit or abort afterwards. With [SessionProps], by which a REPEATABLE READ block
    reads through one snapshot, this is why its reads repeat. *)
From Stdlib Require Import ZArith Lia.
From stdpp Require Import base list gmap strings sorting relations.
From S2P Require Import Prelude Keys Store Datum ExtModel RowEnc Mvcc StateMachine Catalog Errors.
From S2P Require Import XidAlloc Exec ScanLive RowHistory RowHistoryKv.
Open Scope Z_scope.

Section Abstract.
Context {Row : Type}.
Implicit Types a : Abs (Row := Row).

(** The row as the snapshot shows it: the version [c], with the values [row]. *)
Definition shows a (snap : Snapshot) (c : Z) (row : Row) : Prop :=
  exists m, a_vers a !! c = Some (m, row) /\ seen a snap None c /\ (m = INVALID_XID \/ ~ seen a snap None m).

(** A planned write keeps the values of the version it replaces. *)
Definition pending_keeps a : Prop :=
  forall p, a_pending a = Some p -> exists m, a_vers a !! p_cur p = Some (m, p_row p).

Lemma pending_keeps_step a a' : astep a a' -> pending_keeps a -> pending_keeps a'.
Proof.
  intros Hst Hp. destruct Hst; intros q Eq; cbn in Eq |- *; try done; try by apply Hp.
  - injection Eq as ->. by destruct H3 as [? _].
  - case_decide; [done|by apply Hp].
Qed.

(** A transaction that may still commit is not seen by any snapshot taken so far. *)
Lemma active_not_seen a ch snap x :
  chain_inv a ch -> snap ∈ a_snaps a -> x ∈ a_active a ->
  is_running snap x = true /\ ~ seen a snap None x.
Proof.
  intros Hi Hs Hx. assert (is_running snap x = true) as Hr by (apply (c_snap _ _ Hi _ Hs), (c_act _ _ Hi), Hx).
  split; [done|]. intros [?|[_ ?]]; congruence.
Qed.

Lemma idle_not_seen a snap m : idle_xid a m -> ~ seen a snap None m.
Proof. by intros [_ Hc] [?|[? _]]. Qed.

Lemma shows_same a a' snap c row :
  a_vers a' = a_vers a -> (forall x, seen a' snap None x <-> seen a snap None x) ->
  shows a' snap c row <-> shows a snap c row.
Proof. intros Hv Hs. unfold shows. rewrite Hv. setoid_rewrite Hs. done. Qed.

(** Replacing the head of the chain: neither its old nor its new deleter is seen. *)
Lemma shows_stamp (V : gmap Z (Z * Row)) a a' snap c row c0 m0 m1 row0 :
  a_com a' = a_com a -> a_vers a = V -> V !! c0 = Some (m0, row0) -> a_vers a' = <[c0 := (m1, row0)]> V ->
  (m0 = INVALID_XID \/ ~ seen a snap None m0) -> ~ seen a snap None m1 ->
  shows a' snap c row <-> shows a snap c row.
Proof.
  intros Hc Hv Hl Hv' H0 H1. unfold shows. rewrite Hv, Hv'.
  assert (forall x, seen a' snap None x <-> seen a snap None x) as Hs by (intros x; unfold seen; by rewrite Hc).
  setoid_rewrite Hs. destruct (decide (c = c0)) as [->|Hne].
  - rewrite lookup_insert_eq, Hl. split.
    + intros (m & [= <- <-] & Hsc & _). exists m0. auto.
    + intros (m & [= <- <-] & Hsc & _). exists m1. auto.
  - by rewrite lookup_insert_ne.
Qed.

(** A version of a transaction that is not seen does not show. *)
Lemma shows_new (V : gmap Z (Z * Row)) a a' snap c row x v :
  a_com a' = a_com a -> a_vers a = V -> a_vers a' = <[x := v]> V ->
  ~ seen a snap None x -> shows a' snap c row <-> shows a snap c row.
Proof.
  intros Hc Hv Hv' Hx. unfold shows. rewrite Hv, Hv'.
  assert (forall y, seen a' snap None y <-> seen a snap None y) as Hs by (intros y; unfold seen; by rewrite Hc).
  setoid_rewrite Hs. destruct (decide (c = x)) as [->|Hne]; [|by rewrite lookup_insert_ne].
  split; intros (m & _ & Hsc & _); done.
Qed.

Lemma shows_flush a ch snap x p c row :
  chain_inv a ch -> pending_keeps a -> snap ∈ a_snaps a -> a_lock a = Some x -> a_pending a = Some p ->
  shows (set_vers (flush a x p) a) snap c row <-> shows a snap c row.
Proof.
  intros Hi Hk Hs Hl Hp. destruct (c_pend _ _ Hi p Hp) as (x' & r & m & row' & Hl' & Hx & _ & Hv & Hm & _).
  rewrite Hl in Hl'. injection Hl' as <-. destruct (Hk p Hp) as [m' Hv']. rewrite Hv in Hv'. injection Hv' as <- ->.
  destruct (active_not_seen a ch snap x Hi Hs Hx) as [_ Hnx]. pose proof (idle_not_seen a snap m Hm) as Hnm.
  destruct p as [c0 cur next|c0 cur]; cbn [p_cur p_row flush] in *.
  - destruct (Z.eqb_spec c0 x) as [->|Hne]; [by eapply shows_new|].
    etrans; [eapply (shows_new (<[c0 := (x, cur)]> (a_vers a)) (set_vers (<[c0 := (x, cur)]> (a_vers a)) a)); done|].
    eapply (shows_stamp (a_vers a)); eauto.
  - eapply (shows_stamp (a_vers a)); eauto.
Qed.

Lemma shows_step a a' ch snap c row :
  astep a a' -> chain_inv a ch -> pending_keeps a -> snap ∈ a_snaps a -> snap ∈ a_snaps a' ->
  shows a' snap c row <-> shows a snap c row.
Proof.
  intros Hst Hi Hk Hs Hs'. destruct Hst; try by apply shows_same.
  - eapply (shows_new ∅ _ _ _ _ _ x); [done|done|by rewrite insert_empty|].
    by eapply active_not_seen.
  - by eapply shows_flush.
  - apply shows_same; [done|]. intros y. unfold seen. cbn.
    destruct (active_not_seen a ch snap x Hi Hs H) as [Hr _].
    split; [|set_solver]. intros [?|[[->%elem_of_singleton|Hy]%elem_of_union Hn]]; [by left|congruence|by right].
Qed.
End Abstract.

Section OnTheStore.
Context `{ExtLaws} (tb : Table) (rowid : Z).
Hypothesis Htb : u32_ok (t_id tb) /\ t_id tb <> SYSTEM_TABLE_ID.
Hypothesis Hrow : u64_ok rowid.

(** The row as a transaction without writes of its own reads it. *)
Definition snapshot_read (kv : MemKv) (gsnap snap : Snapshot) : result ExecError (option (Z * list Datum)) :=
  vs ← map_err EKv (read_versions kv (t_id tb) rowid);
  find_visible_one kv kv gsnap snap None vs.

Lemma snapshot_read_repr s a gsnap snap :
  repr tb rowid s a ->
  exists res, snapshot_read (r_kv s) gsnap snap = Ok res /\
    match res with
    | Some (c, row) => shows a snap c row
    | None => forall c row, ~ shows a snap c row
    end.
Proof.
  intros Hp. destruct (read_versions_repr tb rowid Htb Hrow (r_kv s) (a_vers a)) as (vs & Ev & _ & Hvs); [apply Hp..|].
  destruct (find_visible_repr tb rowid Htb s a Hp gsnap snap None vs Hvs) as (res & Er & Hres).
  exists res. unfold snapshot_read. rewrite Ev. rsimpl. split; [done|]. destruct res as [[c row]|].
  - destruct Hres as [[m Hm] (m' & row' & Hm' & Hv)]. rewrite Hm in Hm'. injection Hm' as <- <-. by exists m.
  - intros c row (m & Hm & Hv). apply (Hres c). by exists m, row.
Qed.

Lemma shows_unique (a : Abs (Row := list Datum)) ch snap c row c' row' :
  chain_inv a ch -> snap ∈ a_snaps a -> shows a snap c row -> shows a snap c' row' -> (c, row) = (c', row').
Proof.
  intros Hi Hs (m & Hm & Hv) (m' & Hm' & Hv'). assert (c = c') as <-.
  { eapply (at_most_one_visible a ch Hi snap None); [|done|by exists m, row|by exists m', row'].
    split; [apply (c_snap _ _ Hi _ Hs)|done]. }
  rewrite Hm in Hm'. by injection Hm' as _ ->.
Qed.

Lemma snapshot_reads_agree s a ch s' a' ch' gsnap snap :
  repr tb rowid s a -> repr tb rowid s' a' -> chain_inv a ch -> chain_inv a' ch' ->
  snap ∈ a_snaps a -> snap ∈ a_snaps a' -> (forall c row, shows a' snap c row <-> shows a snap c row) ->
  snapshot_read (r_kv s') gsnap snap = snapshot_read (r_kv s) gsnap snap.
Proof.
  intros Hp Hp' Hi Hi' Hs Hs' Hsh.
  destruct (snapshot_read_repr s a gsnap snap Hp) as (res & -> & Hr).
  destruct (snapshot_read_repr s' a' gsnap snap Hp') as (res' & -> & Hr').
  destruct res as [[c row]|], res' as [[c' row']|]; try done.
  - apply Hsh in Hr'. by rewrite (shows_unique a ch snap c row c' row').
  - by apply Hsh, Hr' in Hr.
  - by apply Hsh, Hr in Hr'.
Qed.

Lemma row_reachable_keeps kv pa s :
  row_start tb rowid kv pa -> rtc (rstep tb rowid) (row_init kv pa) s ->
  exists a ch, repr tb rowid s a /\ chain_inv a ch /\ pending_keeps a.
Proof.
  intros (a & Hp & Hi)%row_start_repr Hr; [|done..].
  assert (exists a ch, repr tb rowid (row_init kv pa) a /\ chain_inv a ch /\ pending_keeps a) as H1.
  { exists a, []. split_and!; [done|done|]. intros p Ep. pose proof (p_pend _ _ _ _ Hp) as Hpp.
    rewrite Ep in Hpp. done. }
  clear Hp Hi a. revert H1. induction Hr as [|s s' s'' Hst _ IH]; [done|]. intros (a & ch & Hp & Hi & Hk).
  apply IH. destruct (rstep_simulated tb rowid Htb Hrow _ _ _ _ Hst Hp Hi) as (a' & [->|Ha] & Hp'); [eauto|].
  destruct (astep_inv _ _ _ Ha Hi) as [ch' Hi']. exists a', ch'. split_and!; [done..|by eapply pending_keeps_step].
Qed.

(** A step after which the snapshot is still alive: any but a crash. *)
Definition live_step (snap : Snapshot) (s s' : RowSys) : Prop := rstep tb rowid s s' /\ snap ∈ r_snaps s'.

(** C2: A snapshot is stable. In every reachable state of a single-range engine, a
    snapshot that has been taken shows the same version of a row, or none, from then
    on: inserts, updates, deletes, commits and aborts of any transactions, in any
    interleaving, do not change what it reads, as long as the engine runs. *)
Theorem snapshot_reads_stable kv pa s s' gsnap snap :
  row_start tb rowid kv pa -> rtc (rstep tb rowid) (row_init kv pa) s -> snap ∈ r_snaps s ->
  rtc (live_step snap) s s' ->
  snapshot_read (r_kv s') gsnap snap = snapshot_read (r_kv s) gsnap snap.
Proof.
  intros Hst Hr Hs Hl. destruct (row_reachable_keeps _ _ _ Hst Hr) as (a & ch & Hp & Hi & Hk).
  clear Hst Hr. revert a ch Hp Hi Hk Hs. induction Hl as [|s s1 s' [Hst Hs1] _ IH]; [done|].
  intros a ch Hp Hi Hk Hs.
  destruct (rstep_simulated tb rowid Htb Hrow _ _ _ _ Hst Hp Hi) as (a1 & Ha & Hp1).
  rewrite (p_snaps _ _ _ _ Hp) in Hs. pose proof Hs1 as Hs1'. rewrite (p_snaps _ _ _ _ Hp1) in Hs1'.
  assert (exists ch1, chain_inv a1 ch1 /\ pending_keeps a1 /\
    (forall c row, shows a1 snap c row <-> shows a snap c row)) as (ch1 & Hi1 & Hk1 & Hsh).
  { destruct Ha as [->|Ha]; [by exists ch|]. destruct (astep_inv _ _ _ Ha Hi) as [ch1 Hi1]. exists ch1.
    split_and!; [done|by eapply pending_keeps_step|]. intros. by eapply shows_step. }
  rewrite (IH a1 ch1) by done. by eapply snapshot_reads_agree.
Qed.
End OnTheStore.

(** ** A run: the row is deleted under a snapshot taken before *)

Definition run_deleted_kv : MemKv :=
  local_commit (local_commit run_kv4 (delete_ops (t_id sample_table) 1 2 1 run_row)) [clog_put_op 2 Committed].

Definition run_deleted : RowSys :=
  mkRowSys run_deleted_kv run_pa3 (({[2]} ∪ (({[1]} ∪ ∅) ∖ {[1]})) ∖ {[2]}) (Some 2) None
    [procarray_snapshot run_pa3] (partial_alter (fun _ => None) 2 (partial_alter (fun _ => None) 1 ∅)).

Lemma run_deleted_live :
  rtc (live_step sample_table 1 (procarray_snapshot run_pa3)) run_locked run_deleted.
Proof.
  unfold run_locked, run_deleted, run_deleted_kv.
  eapply rtc_l; [split; [eapply (r_delete _ _ _ _ _ _ _ 2 (procarray_snapshot run_pa3) false 1 run_row)|]|].
  - set_solver.
  - split; [by left|reflexivity].
  - apply run_recheck.
  - by left.
  - eapply rtc_l; [split; [apply r_flush|by left]|].
    apply rtc_once. split; [apply r_commit; [set_solver|done]|by left].
Qed.

Lemma snapshot_reads_stable_witness :
  snapshot_read (H := model_ext) sample_table 1 run_deleted_kv NO_GLOBAL_SNAPSHOT (procarray_snapshot run_pa3)
  = Ok (Some (1, run_row)).
Proof.
  etrans; [apply (snapshot_reads_stable sample_table 1 run_table_ok run_rowid_ok kv_new run_pa0 run_locked run_deleted
           NO_GLOBAL_SNAPSHOT (procarray_snapshot run_pa3) run_start run_locked_reachable
           ltac:(by left) run_deleted_live)|].
  unfold snapshot_read. change (r_kv run_locked) with run_kv4. rewrite run_versions. rsimpl.
  unfold find_visible_one. cbn [foldM consider].
  assert (satisfies_mvcc 1 0 (procarray_snapshot run_pa3) None
            (global_status run_kv4 run_kv4 NO_GLOBAL_SNAPSHOT) = Ok true) as -> by (vm_compute; reflexivity).
  reflexivity.
Defined.
