(* ===== verification/Engine.v ===== *)
(** * Global decisions and recovery of a range engine (executor/src/lib.rs)

    A range's engine has its own applied store [kv] and a replica of range 0's,
    [catalog_kv], which holds the global commit log. A commit through a range's
    committer is the application of its batch by the replicated state machine
    ([apply_ops]; [None] is its panic). *)
From Stdlib Require Import ZArith Lia.
From stdpp Require Import base list gmap strings sorting relations.
From S2P Require Import Prelude Keys Store Datum ExtModel RowEnc Mvcc StateMachine Catalog Errors XidAlloc LockMgr Exec.
Open Scope Z_scope.

(** [executor/src/lib.rs:260-270] SqlEngine::begin_global_durable *)
Definition begin_global_durable (gtm : Gtm) (kv : MemKv) : option (Z * Gtm * MemKv) :=
  let '(g, gtm) := begin_global gtm in
  kv ← apply_ops kv [next_global_xid_op gtm];
  Some (g, gtm, kv).

(** [executor/src/lib.rs:274-279] SqlEngine::reseed_gtm *)
Definition reseed_gtm (gtm : option Gtm) (kv : MemKv) : result ExecError (option Gtm) :=
  match gtm with
  | Some gtm => g ← gtm_reseed gtm kv; Ok (Some g)
  | None => Ok None
  end.

(** [executor/src/lib.rs:283-303] SqlEngine::commit_global_decision *)
Definition commit_global_decision (gtm : Gtm) (kv : MemKv) (g : Z) (status : XidStatus)
  : option (result ExecError XidStatus * MemKv) :=
  kv ← apply_ops kv [clog_put_op g status; next_global_xid_op gtm];
  Some (map_err EKv (clog_get kv g), kv).

(** A global transaction's decision is recorded. *)
Definition decided (catalog_kv : MemKv) (g : Z) : result KvError bool :=
  st ← clog_get catalog_kv g;
  Ok match st with Committed | Aborted => true | _ => false end.

(** One entry of the commit log, as the recovery scans read it: an undecided
    marker of this range, if it is one. *)
Definition in_doubt_entry (catalog_kv : MemKv) (v : bytes) : result KvError (option Z) :=
  st ← clog_decode v;
  match st with
  | Prepared g => terminal ← decided catalog_kv g; Ok (if (terminal : bool) then None else Some g)
  | _ => Ok None
  end.

(** The loop body of [in_doubt_globals_from]. *)
Definition in_doubt_step (catalog_kv : MemKv) (acc : gset Z * option Z * option Z)
    (e : bytes * bytes) : result KvError (gset Z * option Z * option Z) :=
  let '(gs, first_undecided, max_li) := acc in
  match clog_xid_of (fst e) with
  | None => Ok acc
  | Some li =>
      u ← in_doubt_entry catalog_kv (snd e);
      Ok match u with
         | Some g => ({[g]} ∪ gs,
                      match first_undecided with Some f => Some f | None => Some li end, Some li)
         | None => (gs, first_undecided, Some li)
         end
  end.

(** [u64::saturating_add]. *)
Definition saturating_add_u64 (a b : Z) : Z := Z.min (a + b) (2 ^ 64 - 1).

(** [executor/src/lib.rs:318-349] SqlEngine::in_doubt_globals_from *)
Definition in_doubt_globals_from (kv catalog_kv : MemKv) (scan_lo : Z)
  : option (result ExecError (list Z * Z)) :=
  entries ← scan_range kv (clog_key scan_lo) (clog_key GLOBAL_XID_BASE);
  Some (map_err EKv (
    '(gs, first_undecided, max_li) ← foldM (in_doubt_step catalog_kv) (∅, None, None) entries;
    let new_scan_lo :=
      Z.max (default scan_lo
        match first_undecided with
        | Some f => Some f
        | None => (fun m => saturating_add_u64 m 1) <$> max_li
        end) scan_lo in
    Ok (btree_list gs, new_scan_lo))).

(** [executor/src/lib.rs:352-354] SqlEngine::in_doubt_globals *)
Definition in_doubt_globals (kv catalog_kv : MemKv) : option (result ExecError (list Z)) :=
  r ← in_doubt_globals_from kv catalog_kv 0;
  Some ('(gs, _) ← r; Ok gs).

(** [executor/src/lib.rs:474-479] SqlEngine::clog_scan_lo *)
Definition clog_scan_lo (kv : MemKv) : Z :=
  match kv_get kv clog_scan_lo_key with
  | Some b => if (length b =? 8)%nat then be_val b else 0
  | None => 0
  end.

(** [executor/src/lib.rs:489-499] SqlEngine::advance_clog_scan_lo *)
Definition advance_clog_scan_lo (kv : MemKv) (lo : Z) : option MemKv :=
  if lo <=? clog_scan_lo kv then Some kv
  else apply_ops kv [Put clog_scan_lo_key (be_bytes 8 lo)].

(** The first loop of [reacquire_in_doubt_locks]: the undecided markers. *)
Definition marker_step (catalog_kv : MemKv) (acc : gmap Z Z) (e : bytes * bytes)
  : result KvError (gmap Z Z) :=
  match clog_xid_of (fst e) with
  | None => Ok acc
  | Some li =>
      u ← in_doubt_entry catalog_kv (snd e);
      Ok match u with Some g => <[li := g]> acc | None => acc end
  end.

(** The second loop: the row of a version whose creator is in doubt. *)
Definition lock_step_of (in_doubt : gmap Z Z) (lm : Inner) (e : bytes * bytes) : Inner :=
  match table_rowid_of (fst e), xid_of_key (fst e) with
  | Some row, Ok li =>
      match in_doubt !! li with
      | Some _ => reacquire_exclusive lm row li
      | None => lm
      end
  | _, _ => lm
  end.

(** The contents of a [BTreeMap<u64, u64>], in order. *)
Definition btree_map_list (m : gmap Z Z) : list (Z * Z) :=
  omap (fun k => (fun v => (k, v)) <$> m !! k) (btree_list (dom m)).

(** [executor/src/lib.rs:381-430] SqlEngine::reacquire_in_doubt_locks *)
Definition reacquire_in_doubt_locks (kv catalog_kv : MemKv) (lm : Inner)
  : option (result ExecError (list (Z * Z) * Inner)) :=
  entries ← scan_range kv (clog_key (clog_scan_lo kv)) (clog_key GLOBAL_XID_BASE);
  versions ← scan_range kv (table_prefix (SYSTEM_TABLE_ID + 1)) [255; 255; 255; 255; 255];
  Some (map_err EKv (
    in_doubt ← foldM (marker_step catalog_kv) ∅ entries;
    if bool_decide (in_doubt = ∅) then Ok ([], lm)
    else Ok (btree_map_list in_doubt, foldl (lock_step_of in_doubt) lm versions))).

(** [executor/src/lib.rs:439-441] SqlEngine::release_in_doubt_lock *)
Definition release_in_doubt_lock (lm : Inner) (li : Z) : Inner := (release_all lm li).1.

(** The loop of [staged_local_for]. *)
Fixpoint staged_in (g : Z) (entries : list (bytes * bytes)) : result KvError (option Z) :=
  match entries with
  | [] => Ok None
  | (k, v) :: rest =>
      match clog_xid_of k with
      | None => staged_in g rest
      | Some li =>
          st ← clog_decode v;
          match st with
          | Prepared pg => if pg =? g then Ok (Some li) else staged_in g rest
          | _ => staged_in g rest
          end
      end
  end.

(** [executor/src/lib.rs:455-471] SqlEngine::staged_local_for *)
Definition staged_local_for (kv : MemKv) (g : Z) : option (result ExecError (option Z)) :=
  entries ← scan_range kv (clog_key (clog_scan_lo kv)) (clog_key GLOBAL_XID_BASE);
  Some (map_err EKv (staged_in g entries)).

(** [executor/src/lib.rs:502-507] SqlEngine::finish_global *)
Definition engine_finish_global (gtm : Gtm) (g : Z) : Gtm := gtm_finish_global gtm g.

(** ** Lists of scanned entries *)

Lemma StronglySorted_omap {A B} (R : relation A) (S : relation B) (f : A -> option B) l :
  StronglySorted R l ->
  (forall x y a b, In x l -> In y l -> R x y -> f x = Some a -> f y = Some b -> S a b) ->
  StronglySorted S (omap f l).
Proof.
  induction 1 as [|x l Hl IH Hx]; intros Hf; simpl; [constructor|].
  assert (StronglySorted S (omap f l)) as IH'
    by (apply IH; intros x' y a b ? ?; by apply Hf; right).
  destruct (f x) as [a|] eqn:E; [|done]. constructor; [done|].
  apply List.Forall_forall. intros b Hb%list_elem_of_In.
  apply list_elem_of_omap in Hb as (y & Hy & Ey). rewrite List.Forall_forall in Hx.
  apply list_elem_of_In in Hy. eapply (Hf x y); [by left|by right|by apply Hx|done|done].
Qed.

Definition keys_ok (kv : MemKv) : Prop := forall k v, kv_get kv k = Some v -> bytes_ok k.

(** An undecided marker of the range: local [li], prepared for [g]. *)
Definition undecided (kv catalog_kv : MemKv) (li g : Z) : Prop :=
  clog_get kv li = Ok (Prepared g) /\ decided catalog_kv g = Ok false.

Lemma in_doubt_entry_Some catalog_kv v g :
  in_doubt_entry catalog_kv v = Ok (Some g) <->
  clog_decode v = Ok (Prepared g) /\ decided catalog_kv g = Ok false.
Proof.
  unfold in_doubt_entry. destruct (clog_decode v) as [st|e]; [|by split; [|intros [? _]]].
  cbn [mbind result_bind]. destruct st as [| | |g']; try by split; [|intros [? _]].
  destruct (decided catalog_kv g') as [[|]|e] eqn:E; cbn [mbind result_bind];
    (split; [intros Hd; simplify_eq; by split|intros [Hd Hd']; simplify_eq; congruence]).
Qed.

(** The recovery scan reads exactly the commit log of local ids from the
    watermark on. *)
Lemma In_clog_scan kv lo l k v :
  keys_ok kv -> u64_ok lo ->
  scan_range kv (clog_key lo) (clog_key GLOBAL_XID_BASE) = Some l ->
  forall li, In (k, v) l /\ clog_xid_of k = Some li <->
    k = clog_key li /\ kv_get kv (clog_key li) = Some v /\ lo <= li < GLOBAL_XID_BASE.
Proof.
  intros Hk Hlo E li. rewrite (In_scan_range _ _ _ _ _ _ E).
  assert (u64_ok GLOBAL_XID_BASE) as Hb by (unfold GLOBAL_XID_BASE; width_lia).
  split.
  - intros [(Hg & Hl & Hu) Hx]. apply clog_xid_of_Some in Hx as [-> Hli]; [|by eapply Hk].
    split_and!; [done..| |].
    + apply Z.leb_le. by rewrite <- clog_key_order.
    + unfold lex_lt, lex_ltb in Hu. rewrite clog_key_order in Hu by done.
      destruct (Z.leb_spec GLOBAL_XID_BASE li); [done|lia].
  - intros (-> & Hg & Hr). assert (u64_ok li) as Hli by (unfold GLOBAL_XID_BASE in *; unfold u64_ok in *; lia).
    split_and!; [done| | |by apply clog_xid_of_key].
    + unfold lex_le. rewrite clog_key_order by done. apply Z.leb_le. lia.
    + unfold lex_lt, lex_ltb. rewrite clog_key_order by done.
      rewrite (proj2 (Z.leb_gt _ _)); [done|lia].
Qed.

Lemma clog_get_Prepared kv li g :
  clog_get kv li = Ok (Prepared g) <->
  exists v, kv_get kv (clog_key li) = Some v /\ clog_decode v = Ok (Prepared g).
Proof.
  unfold clog_get. destruct (kv_get kv (clog_key li)) as [v|]; simpl; naive_solver.
Qed.

(** The local ids of the scan are ascending. *)
Lemma clog_scan_sorted kv lo l (f : bytes * bytes -> option Z) :
  keys_ok kv -> u64_ok lo ->
  scan_range kv (clog_key lo) (clog_key GLOBAL_XID_BASE) = Some l ->
  (forall e li, f e = Some li -> clog_xid_of e.1 = Some li) ->
  StronglySorted Z.lt (omap f l).
Proof.
  intros Hk Hlo E Hf. eapply StronglySorted_omap; [by eapply scan_range_strict|].
  intros [k1 v1] [k2 v2] a b H1 H2 Hlt Ha%Hf Hb%Hf. cbn [fst] in *.
  destruct (proj1 (In_clog_scan kv lo l k1 v1 Hk Hlo E a) (conj H1 Ha)) as (-> & _ & Hra).
  destruct (proj1 (In_clog_scan kv lo l k2 v2 Hk Hlo E b) (conj H2 Hb)) as (-> & _ & Hrb).
  unfold entry_lt, lex_lt, lex_ltb in Hlt. cbn [fst] in Hlt.
  assert (u64_ok a /\ u64_ok b) as [? ?] by (unfold GLOBAL_XID_BASE in *; unfold u64_ok in *; lia).
  rewrite clog_key_order in Hlt by done. destruct (Z.leb_spec b a); [done|lia].
Qed.

(** ** The recovery scan *)

(** The local id of an entry that is an undecided marker. *)
Definition undecided_li (catalog_kv : MemKv) (e : bytes * bytes) : option Z :=
  match clog_xid_of e.1, in_doubt_entry catalog_kv e.2 with
  | Some li, Ok (Some _) => Some li
  | _, _ => None
  end.

Lemma last_cons_default {A} (x : A) l d :
  match last (x :: l) with Some m => Some m | None => d end =
  match last l with Some m => Some m | None => Some x end.
Proof. rewrite last_cons. by destruct (last l). Qed.

Lemma in_doubt_fold catalog_kv l gs fu ml :
  (forall e li, In e l -> clog_xid_of e.1 = Some li ->
     exists u, in_doubt_entry catalog_kv e.2 = Ok u) ->
  exists gs', foldM (in_doubt_step catalog_kv) (gs, fu, ml) l =
      Ok (gs', match fu with Some f => Some f | None => head (omap (undecided_li catalog_kv) l) end,
          match last (omap (fun e => clog_xid_of e.1) l) with Some m => Some m | None => ml end) /\
    forall g, g ∈ gs' <-> g ∈ gs \/ exists e li, In e l /\ clog_xid_of e.1 = Some li /\
      in_doubt_entry catalog_kv e.2 = Ok (Some g).
Proof.
  revert gs fu ml; induction l as [|e l IH]; intros gs fu ml Hok.
  { exists gs. split; [by destruct fu|]. naive_solver. }
  cbn [foldM omap list_omap]. unfold undecided_li at 1.
  assert (forall e' li, In e' l -> clog_xid_of e'.1 = Some li ->
            exists u, in_doubt_entry catalog_kv e'.2 = Ok u) as Hok'
    by (intros e' li Hin; apply Hok; by right).
  destruct (clog_xid_of e.1) as [li|] eqn:Ex.
  - destruct (Hok e li ltac:(by left) Ex) as [u Eu]. rewrite Eu.
    assert (in_doubt_step catalog_kv (gs, fu, ml) e = Ok match u with
              | Some g => ({[g]} ∪ gs, match fu with Some f => Some f | None => Some li end, Some li)
              | None => (gs, fu, Some li) end) as ->
      by (unfold in_doubt_step; by rewrite Ex, Eu).
    destruct u as [g0|]; cbn [mbind result_bind].
    + destruct (IH ({[g0]} ∪ gs) (match fu with Some f => Some f | None => Some li end) (Some li) Hok')
        as (gs' & -> & Hg).
      exists gs'. split; [rewrite last_cons_default; by destruct fu|].
      intros g. rewrite Hg, elem_of_union, elem_of_singleton. split.
      * intros [[->|?]|(e' & li' & ? & ? & ?)]; [right; exists e, li; by split_and!; [left|..]|by left|].
        right. exists e', li'. by split_and!; [right|..].
      * intros [?|(e' & li' & [->|?] & Ex' & Ee)]; [by left; right| |right; eauto].
        left. left. congruence.
    + destruct (IH gs fu (Some li) Hok') as (gs' & -> & Hg).
      exists gs'. split; [by rewrite last_cons_default|].
      intros g. rewrite Hg. split; [|].
      * intros [?|(e' & li' & ? & ? & ?)]; [by left|]. right. exists e', li'. by split_and!; [right|..].
      * intros [?|(e' & li' & [->|?] & Ex' & Ee)]; [by left|congruence|right; eauto].
  - assert (in_doubt_step catalog_kv (gs, fu, ml) e = Ok (gs, fu, ml)) as ->
      by (unfold in_doubt_step; by rewrite Ex).
    cbn [mbind result_bind]. destruct (IH gs fu ml Hok') as (gs' & -> & Hg).
    exists gs'. split; [done|]. intros g. rewrite Hg. split; [|].
    + intros [?|(e' & li' & ? & ? & ?)]; [by left|]. right. exists e', li'. by split_and!; [right|..].
    + intros [?|(e' & li' & [->|?] & Ex' & Ee)]; [by left|congruence|right; eauto].
Qed.

(** Every record of the range's commit log can be read and resolved. *)
Definition clog_readable (kv catalog_kv : MemKv) : Prop :=
  forall li v, kv_get kv (clog_key li) = Some v -> exists u, in_doubt_entry catalog_kv v = Ok u.

Lemma scan_range_ordered kv lo :
  u64_ok lo -> lo <= GLOBAL_XID_BASE ->
  exists l, scan_range kv (clog_key lo) (clog_key GLOBAL_XID_BASE) = Some l.
Proof.
  intros Hlo Hle. unfold scan_range, lex_ltb.
  rewrite clog_key_order by (done || (unfold GLOBAL_XID_BASE; width_lia)).
  rewrite (proj2 (Z.leb_le _ _) Hle). simpl. eauto.
Qed.

(** The recovery sweep misses no in-doubt transaction. On a readable commit
    log the scan from a watermark returns exactly the global ids that some local
    transaction at or above it is prepared for and that range 0 has not decided;
    and the watermark it proposes never moves back and never passes an undecided
    marker. *)
Theorem in_doubt_scan_complete kv catalog_kv lo :
  keys_ok kv -> clog_readable kv catalog_kv -> u64_ok lo -> lo <= GLOBAL_XID_BASE ->
  exists gs lo', in_doubt_globals_from kv catalog_kv lo = Some (Ok (gs, lo')) /\ lo <= lo' /\
    (forall g, In g gs <-> exists li, lo <= li < GLOBAL_XID_BASE /\ undecided kv catalog_kv li g) /\
    (forall li g, lo <= li < GLOBAL_XID_BASE -> undecided kv catalog_kv li g -> lo' <= li).
Proof.
  intros Hk Hrd Hlo Hle. unfold in_doubt_globals_from.
  destruct (scan_range_ordered kv lo Hlo Hle) as [l El]. rewrite El. cbn [mbind option_bind].
  pose proof (In_clog_scan kv lo l) as Hin.
  destruct (in_doubt_fold catalog_kv l ∅ None None) as (gs & Ef & Hgs).
  { intros [k v] li He Hx. destruct (proj1 (Hin k v Hk Hlo El li) (conj He Hx)) as (_ & Hg & _).
    by apply (Hrd li). }
  rewrite Ef. cbn [map_err mbind result_bind]. do 2 eexists. split; [reflexivity|].
  assert (forall li g, lo <= li < GLOBAL_XID_BASE /\ undecided kv catalog_kv li g <->
            exists v, In (clog_key li, v) l /\ clog_xid_of (clog_key li) = Some li /\
              in_doubt_entry catalog_kv v = Ok (Some g)) as Hun.
  { intros li g. unfold undecided. rewrite clog_get_Prepared.
    setoid_rewrite in_doubt_entry_Some. split.
    - intros (Hr & (v & Hg & Hd) & Hdec). exists v.
      destruct (proj2 (Hin (clog_key li) v Hk Hlo El li)) as [? ?]; [done|]. done.
    - intros (v & Hl & Hx & Hd & Hdec).
      destruct (proj1 (Hin (clog_key li) v Hk Hlo El li) (conj Hl Hx)) as (_ & ? & ?).
      split; [done|]. split; [eauto|done]. }
  split; [lia|]. split.
  - intros g. rewrite elem_of_btree_list, Hgs. split.
    + intros [?|([k v] & li & He & Hx & Hd)]; [set_solver|]. exists li. apply Hun.
      destruct (proj1 (Hin k v Hk Hlo El li) (conj He Hx)) as (-> & _). eauto.
    + intros (li & (v & ? & ? & ?)%Hun). right. by exists (clog_key li, v), li.
  - intros li g Hr Hu. destruct (proj1 (Hun li g) (conj Hr Hu)) as (v & He & Hx & Hd).
    assert (StronglySorted Z.lt (omap (undecided_li catalog_kv) l)) as Hs.
    { eapply clog_scan_sorted; [done|done|exact El|]. intros e x. unfold undecided_li.
      destruct (clog_xid_of e.1); [|done]. by destruct (in_doubt_entry catalog_kv e.2) as [[]|]. }
    assert (li ∈ omap (undecided_li catalog_kv) l) as Hli.
    { apply list_elem_of_omap. exists (clog_key li, v). split; [by apply list_elem_of_In|].
      unfold undecided_li. cbn [fst snd]. by rewrite Hx, Hd. }
    destruct (omap (undecided_li catalog_kv) l) as [|f r]; [by apply not_elem_of_nil in Hli|].
    simpl. apply StronglySorted_inv in Hs as [_ Hf]. rewrite List.Forall_forall in Hf.
    apply elem_of_cons in Hli as [->|Hli%list_elem_of_In]; [lia|]. apply Hf in Hli. lia.
Qed.

(** ** Locks of the in-doubt rows *)

Lemma marker_fold catalog_kv l acc :
  (forall e li, In e l -> clog_xid_of e.1 = Some li ->
     exists u, in_doubt_entry catalog_kv e.2 = Ok u) ->
  StronglySorted Z.lt (omap (undecided_li catalog_kv) l) ->
  (forall li g, acc !! li = Some g -> Forall (Z.lt li) (omap (undecided_li catalog_kv) l)) ->
  exists m, foldM (marker_step catalog_kv) acc l = Ok m /\
    forall li g, m !! li = Some g <-> acc !! li = Some g \/
      exists e, In e l /\ clog_xid_of e.1 = Some li /\ in_doubt_entry catalog_kv e.2 = Ok (Some g).
Proof.
  revert acc; induction l as [|e l IH]; intros acc Hok Hs Hacc.
  { exists acc. split; [done|]. naive_solver. }
  cbn [foldM]. cbn [omap list_omap] in Hs, Hacc.
  assert (forall e' li, In e' l -> clog_xid_of e'.1 = Some li ->
            exists u, in_doubt_entry catalog_kv e'.2 = Ok u) as Hok'
    by (intros e' li Hin; apply Hok; by right).
  destruct (undecided_li catalog_kv e) as [li|] eqn:Eu.
  - unfold undecided_li in Eu. destruct (clog_xid_of e.1) as [li'|] eqn:Ex; [|done].
    destruct (in_doubt_entry catalog_kv e.2) as [[g0|]|] eqn:Ed; [|done..]. injection Eu as ->.
    assert (marker_step catalog_kv acc e = Ok (<[li := g0]> acc)) as ->
      by (unfold marker_step; by rewrite Ex, Ed).
    cbn [mbind result_bind]. apply StronglySorted_inv in Hs as [Hs Hli].
    destruct (IH (<[li := g0]> acc) Hok' Hs) as (m & -> & Hm).
    { intros x g [[<- _]|[_ Hx]]%lookup_insert_Some; [done|]. apply Hacc in Hx. by inversion Hx. }
    exists m. split; [done|]. intros x g. rewrite Hm, lookup_insert_Some. split.
    + intros [[[<- <-]|[_ ?]]|(e' & ? & ? & ?)]; [right; exists e; by split_and!; [left|..]|by left|].
      right. exists e'. by split_and!; [right|..].
    + intros [Hx|(e' & [<-|He'] & Ex' & Ed')]; [|left; left; split; congruence|right; by exists e'].
      left. right. split; [|done]. intros <-. apply Hacc in Hx. inversion Hx; lia.
  - assert (marker_step catalog_kv acc e = Ok acc) as ->.
    { unfold marker_step. unfold undecided_li in Eu. destruct (clog_xid_of e.1) as [li|] eqn:Ex; [|done].
      destruct (Hok e li ltac:(by left) Ex) as [u Eu']. rewrite Eu' in Eu |- *. by destruct u. }
    cbn [mbind result_bind]. destruct (IH acc Hok' Hs Hacc) as (m & -> & Hm).
    exists m. split; [done|]. intros x g. rewrite Hm. split.
    + intros [?|(e' & ? & ? & ?)]; [by left|]. right. exists e'. by split_and!; [right|..].
    + intros [?|(e' & [<-|?] & Ex' & Ed')]; [by left| |right; by exists e'].
      unfold undecided_li in Eu. by rewrite Ex', Ed' in Eu.
Qed.

(** A row locked exclusively by a transaction. *)
Definition locked_ex (lm : Inner) (row : RowId) (x : Z) : Prop :=
  exists l, locks lm !! row = Some l /\ rl_mode l = Exclusive /\ x ∈ holders l.

Lemma reacquire_locks lm row x : locked_ex (reacquire_exclusive lm row x) row x.
Proof.
  eexists. unfold reacquire_exclusive, with_lock. simpl. rewrite lookup_insert_eq.
  split; [done|]. split; [done|]. simpl. set_solver.
Qed.

Lemma reacquire_keeps lm row x row' y :
  locked_ex lm row' y -> locked_ex (reacquire_exclusive lm row x) row' y.
Proof.
  intros (l & El & Hm & Hy). unfold reacquire_exclusive, with_lock, locked_ex. simpl.
  destruct (decide (row = row')) as [->|Hne].
  - eexists. rewrite lookup_insert_eq, El. split; [done|]. simpl. split; [done|]. set_solver.
  - exists l. by rewrite lookup_insert_ne.
Qed.

Lemma lock_fold_keeps m l lm row y :
  locked_ex lm row y -> locked_ex (foldl (lock_step_of m) lm l) row y.
Proof.
  revert lm; induction l as [|e l IH]; intros lm Hl; [done|]. simpl. apply IH.
  unfold lock_step_of. destruct (table_rowid_of e.1) as [row'|]; [|done].
  destruct (xid_of_key e.1) as [li|]; [|done]. destruct (m !! li); [|done]. by apply reacquire_keeps.
Qed.

Lemma lock_fold_locks m l lm k v row li :
  In (k, v) l -> table_rowid_of k = Some row -> xid_of_key k = Ok li -> is_Some (m !! li) ->
  locked_ex (foldl (lock_step_of m) lm l) row li.
Proof.
  intros Hin Hr Hx [g Hg]. revert lm; induction l as [|e l IH]; intros lm; [done|].
  destruct Hin as [->|Hin]; simpl; [|by apply IH]. apply lock_fold_keeps.
  unfold lock_step_of. cbn [fst]. rewrite Hr, Hx, Hg. apply reacquire_locks.
Qed.

(** The scan of the versions covers every user table. *)
Lemma version_key_scanned t r x :
  u32_ok t -> t <> SYSTEM_TABLE_ID ->
  lex_le (table_prefix (SYSTEM_TABLE_ID + 1)) (version_key_xid t r x) /\
  lex_lt (version_key_xid t r x) [255; 255; 255; 255; 255].
Proof.
  intros Ht Hne. unfold SYSTEM_TABLE_ID in *. split.
  - destruct (decide (t = 1)) as [->|Hne1].
    + unfold version_key_xid, row_key. rewrite <- app_assoc. apply lex_le_prefix.
    + destruct (total lex_le (table_prefix (0 + 1)) (version_key_xid t r x)) as [|Hge]; [done|].
      destruct (decide (version_key_xid t r x = table_prefix (0 + 1))) as [E|Hd]; [by rewrite E|].
      exfalso. assert (lex_lt (version_key_xid t r x) (table_prefix (0 + 1))) as Hlt.
      { apply lex_lt_iff. intros Hle. apply Hd. by apply (anti_symm lex_le). }
      unfold version_key_xid, row_key, table_prefix in Hlt. rewrite <- !app_assoc in Hlt.
      apply lex_lt_heads in Hlt; [|done]. unfold lex_le, put_u32 in Hlt.
      rewrite lex_leb_be_bytes in Hlt by (unfold u32_ok in *; lia).
      apply Z.leb_le in Hlt. unfold u32_ok in Ht. lia.
  - unfold version_key_xid, row_key, table_prefix, lex_lt, lex_ltb. rewrite <- !app_assoc.
    assert (exists a b c d, put_u32 t = [a; b; c; d] /\ bytes_ok [a; b; c; d]) as (a & b & c & d & E & Hb).
    { do 4 eexists. split; [reflexivity|]. apply (be_bytes_ok 4). }
    rewrite E. unfold bytes_ok in Hb. rewrite !Forall_cons in Hb.
    destruct Hb as (? & ? & ? & ? & _). cbn [app lex_leb]. unfold u8_ok in *.
    repeat match goal with |- context [?p <? ?q] => destruct (Z.ltb_spec p q) end; try done; lia.
Qed.

Lemma In_btree_map_list m k v : In (k, v) (btree_map_list m) <-> m !! k = Some v.
Proof.
  unfold btree_map_list. rewrite <- list_elem_of_In, list_elem_of_omap. split.
  - intros (x & _ & E). destruct (m !! x) eqn:Ex; [|done]. simpl in E. by simplify_eq.
  - intros E. exists k. rewrite E. split; [|done].
    apply list_elem_of_In, elem_of_btree_list. by apply elem_of_dom_2 in E.
Qed.

(** The markers that recovery finds, and the locks it makes of them. *)
Lemma reacquire_ok kv catalog_kv lm :
  keys_ok kv -> clog_readable kv catalog_kv -> u64_ok (clog_scan_lo kv) ->
  clog_scan_lo kv <= GLOBAL_XID_BASE ->
  exists m vl lm', reacquire_in_doubt_locks kv catalog_kv lm = Some (Ok (btree_map_list m, lm')) /\
    scan_range kv (table_prefix (SYSTEM_TABLE_ID + 1)) [255; 255; 255; 255; 255] = Some vl /\
    (lm' = foldl (lock_step_of m) lm vl \/ m = ∅) /\
    forall li g, m !! li = Some g <->
      clog_scan_lo kv <= li < GLOBAL_XID_BASE /\ undecided kv catalog_kv li g.
Proof.
  intros Hk Hrd Hlo Hle. unfold reacquire_in_doubt_locks.
  destruct (scan_range_ordered kv _ Hlo Hle) as [l El]. rewrite El. cbn [mbind option_bind].
  destruct (scan_range kv (table_prefix (SYSTEM_TABLE_ID + 1)) [255; 255; 255; 255; 255])
    as [vl|] eqn:Ev; [|by vm_compute in Ev].
  cbn [mbind option_bind]. pose proof (In_clog_scan kv (clog_scan_lo kv) l) as Hin.
  destruct (marker_fold catalog_kv l ∅) as (m & Em & Hm).
  { intros [k v] li He Hx. destruct (proj1 (Hin k v Hk Hlo El li) (conj He Hx)) as (_ & Hg & _).
    by apply (Hrd li). }
  { eapply clog_scan_sorted; [done|done|exact El|]. intros e x. unfold undecided_li.
    destruct (clog_xid_of e.1); [|done]. by destruct (in_doubt_entry catalog_kv e.2) as [[]|]. }
  { by intros. }
  assert (forall li g, m !! li = Some g <->
            clog_scan_lo kv <= li < GLOBAL_XID_BASE /\ undecided kv catalog_kv li g) as Hm'.
  { intros li g. rewrite Hm, lookup_empty. unfold undecided. rewrite clog_get_Prepared.
    setoid_rewrite in_doubt_entry_Some. split.
    - intros [?|([k v] & He & Hx & Hd & Hdec)]; [done|].
      destruct (proj1 (Hin k v Hk Hlo El li) (conj He Hx)) as (-> & ? & ?). eauto 6.
    - intros (Hr & (v & Hg & Hd) & Hdec). right. exists (clog_key li, v).
      destruct (proj2 (Hin (clog_key li) v Hk Hlo El li)) as [? ?]; [done|]. done. }
  rewrite Em. cbn [map_err mbind result_bind]. case_bool_decide as Hem.
  - subst m. exists ∅, vl, lm. by split_and!; [|..|right|].
  - exists m, vl, (foldl (lock_step_of m) lm vl). by split_and!; [|..|left|].
Qed.

(** C26: Recovery locks every in-doubt row before the range serves. On a readable
    commit log [reacquire_in_doubt_locks] returns exactly the undecided markers
    from the durable watermark on, and every stored version of a user table
    written by one of them leaves its row locked exclusively by that
    transaction. *)
Theorem in_doubt_rows_locked kv catalog_kv lm :
  keys_ok kv -> clog_readable kv catalog_kv -> u64_ok (clog_scan_lo kv) ->
  clog_scan_lo kv <= GLOBAL_XID_BASE ->
  exists pairs lm', reacquire_in_doubt_locks kv catalog_kv lm = Some (Ok (pairs, lm')) /\
    (forall li g, In (li, g) pairs <->
       clog_scan_lo kv <= li < GLOBAL_XID_BASE /\ undecided kv catalog_kv li g) /\
    (forall t r li g v, In (li, g) pairs -> u32_ok t -> t <> SYSTEM_TABLE_ID -> u64_ok r ->
       kv_get kv (version_key_xid t r li) = Some v -> locked_ex lm' (t, r) li).
Proof.
  intros Hk Hrd Hlo Hle.
  destruct (reacquire_ok kv catalog_kv lm) as (m & vl & lm' & E & Ev & Hlm & Hm); [done..|].
  exists (btree_map_list m), lm'. split_and!; [done|intros; by rewrite In_btree_map_list|].
  intros t r li g v Hp%In_btree_map_list Ht Hne Hr Hg.
  destruct Hlm as [-> | ->]; [|by rewrite lookup_empty in Hp].
  eapply (lock_fold_locks m vl lm (version_key_xid t r li) v); [| | |by eexists].
  - apply (In_scan_range _ _ _ _ _ _ Ev). split; [done|by apply version_key_scanned].
  - by apply table_rowid_of_row_key.
  - apply xid_of_key_version. apply Hm in Hp as [? _]. unfold GLOBAL_XID_BASE in *.
    unfold u64_ok in *. lia.
Qed.

(** ** The decision of a global transaction *)

Lemma clog_apply_put kv g st kv' :
  u64_ok g -> status_ok st -> apply_op kv (clog_put_op g st) = Some kv' ->
  clog_get kv' g = match kv_get kv (clog_key g) with
                   | Some b => if is_terminal b then clog_get kv g else Ok st
                   | None => Ok st
                   end.
Proof.
  intros Hg Hst E. unfold clog_put_op in E. cbn [apply_op] in E.
  assert (is_counter_key (clog_key g) = false) as Hc.
  { destruct (is_counter_key (clog_key g)) eqn:Ec; [|done].
    apply counter_not_clog in Ec. by rewrite is_clog_key_clog in Ec. }
  rewrite Hc, is_clog_key_clog in E.
  destruct (kv_get kv (clog_key g)) as [b|] eqn:Eb; [destruct (is_terminal b)|]; simplify_eq; [done|..];
    unfold clog_get; rewrite kv_get_put, decide_True by done; by apply clog_decode_value.
Qed.

(** C16: A global transaction has one outcome, everywhere and for good. Whatever
    [commit_global_decision] reports is what was recorded first: the earlier
    decision if there was one, else the requested one. From then on, whatever
    range 0 applies that does not delete the record, any two ranges resolve
    their markers for that transaction to this same outcome in every reader
    whose global snapshot covers it, so a reader sees the transaction's writes
    on all of them or on none. *)
Theorem global_decision_atomic gtm kv g st r kv' later kv'' :
  u64_ok g -> st = Committed \/ st = Aborted ->
  commit_global_decision gtm kv g st = Some (r, kv') ->
  ~ deletes (clog_key g) later -> apply_ops kv' later = Some kv'' ->
  (forall st0, clog_get kv g = Ok st0 ->
     r = Ok match st0 with Committed => Committed | Aborted => Aborted | _ => st end) /\
  forall kv1 kv2 l1 l2 gsnap eff, r = Ok eff ->
    clog_get kv1 l1 = Ok (Prepared g) -> clog_get kv2 l2 = Ok (Prepared g) ->
    is_running gsnap g = false ->
    global_status kv1 kv'' gsnap l1 = Ok eff /\ global_status kv2 kv'' gsnap l2 = Ok eff.
Proof.
  intros Hg Hst Hc Hnd Hl. unfold commit_global_decision in Hc.
  destruct (apply_ops kv _) as [k|] eqn:E; [|done]. cbn [mbind option_bind] in Hc. simplify_eq.
  cbn [apply_ops] in E. apply bind_Some in E as (k1 & E1 & E). apply bind_Some in E as (k2 & E2 & [= ->]).
  assert (clog_get kv' g = clog_get k1 g) as Esame.
  { unfold clog_get. rewrite (apply_op_get _ _ _ _ E2), decide_False; [done|]. simpl. intros Ek.
    by apply (f_equal (take 6)) in Ek. }
  assert (status_ok st) as Hok by (destruct Hst as [-> | ->]; done).
  pose proof (clog_apply_put kv g st k1 Hg Hok E1) as Hput.
  assert (forall eff, clog_get k1 g = Ok eff -> eff = Committed \/ eff = Aborted) as Hterm.
  { intros eff. rewrite Hput. unfold clog_get.
    destruct (kv_get kv (clog_key g)) as [b|]; [|by intros [= <-]].
    destruct (is_terminal b) eqn:Et; [|by intros [= <-]]. apply is_terminal_spec in Et.
    simpl. destruct Et as [-> | ->]; naive_solver. }
  rewrite Esame. split.
  - intros st0 E0. rewrite Hput. unfold clog_get in E0 |- *.
    destruct (kv_get kv (clog_key g)) as [b|]; simpl in E0; [|by simplify_eq].
    destruct (is_terminal b) eqn:Et.
    + apply is_terminal_spec in Et. simpl. rewrite E0 in Et |- *. destruct Et; by simplify_eq.
    + assert (clog_decode b <> Ok Committed /\ clog_decode b <> Ok Aborted) as [? ?].
      { split; intros Ed; assert (is_terminal b = true) by (apply is_terminal_spec; auto); congruence. }
      by destruct st0.
  - intros kv1 kv2 l1 l2 gsnap eff Heff H1 H2 Hrun.
    destruct (clog_get k1 g) as [eff'|] eqn:Ek1; [|done]. simpl in Heff. simplify_eq.
    assert (clog_get kv'' g = Ok eff) as Efin.
    { eapply clog_terminal_stays; [by rewrite Esame|by apply Hterm|exact Hnd|exact Hl]. }
    unfold global_status. rewrite H1, H2. cbn [mbind result_bind].
    unfold is_running in Hrun. by rewrite Hrun.
Qed.

(** ** A concrete range: local transaction 5 wrote row 1 of table 7 and is
    prepared for the first global transaction, undecided on range 0. *)

Definition doubt_g : Z := GLOBAL_XID_BASE.

Definition doubt_kv : MemKv :=
  kv_put (kv_put kv_new (clog_key 5) (clog_value (Prepared doubt_g)))
    (version_key_xid 7 1 5) [].

Lemma doubt_get k v :
  kv_get doubt_kv k = Some v ->
  (k = version_key_xid 7 1 5 /\ v = []) \/
  (k = clog_key 5 /\ v = clog_value (Prepared doubt_g)).
Proof.
  unfold doubt_kv. rewrite !kv_get_put. case_decide; [naive_solver|]. case_decide; [naive_solver|done].
Qed.

Lemma doubt_keys : keys_ok doubt_kv.
Proof.
  intros k v [[-> _]|[-> _]]%doubt_get.
  - apply (bool_decide_unpack _). vm_compute. exact I.
  - apply (bool_decide_unpack _). vm_compute. exact I.
Qed.

Lemma doubt_readable : clog_readable doubt_kv kv_new.
Proof.
  intros li v [[Ek _]|[_ ->]]%doubt_get.
  - apply (f_equal (take 4)) in Ek. vm_compute in Ek. discriminate.
  - exists (Some doubt_g). vm_compute. reflexivity.
Qed.

Lemma doubt_undecided : undecided doubt_kv kv_new 5 doubt_g.
Proof. split; vm_compute; reflexivity. Qed.

Lemma in_doubt_scan_complete_witness :
  exists gs lo', in_doubt_globals_from doubt_kv kv_new 0 = Some (Ok (gs, lo')) /\
    In doubt_g gs /\ lo' <= 5.
Proof.
  destruct (in_doubt_scan_complete doubt_kv kv_new 0 doubt_keys doubt_readable)
    as (gs & lo' & E & _ & Hg & Hlo); [width_lia|unfold GLOBAL_XID_BASE; lia|].
  exists gs, lo'. split; [exact E|]. split.
  - apply Hg. exists 5. split; [unfold GLOBAL_XID_BASE; lia|apply doubt_undecided].
  - apply (Hlo 5 doubt_g); [unfold GLOBAL_XID_BASE; lia|apply doubt_undecided].
Defined.

Lemma in_doubt_rows_locked_witness :
  exists pairs lm', reacquire_in_doubt_locks doubt_kv kv_new lockmgr_new = Some (Ok (pairs, lm')) /\
    In (5, doubt_g) pairs /\ locked_ex lm' (7, 1) 5.
Proof.
  destruct (in_doubt_rows_locked doubt_kv kv_new lockmgr_new doubt_keys doubt_readable)
    as (pairs & lm' & E & Hp & Hl); [vm_compute; intuition congruence|vm_compute; congruence|].
  assert (In (5, doubt_g) pairs) as Hin.
  { apply Hp. split; [vm_compute; intuition congruence|apply doubt_undecided]. }
  exists pairs, lm'. split; [exact E|]. split; [exact Hin|].
  apply (Hl 7 1 5 doubt_g [] Hin); [width_lia|done|width_lia|vm_compute; reflexivity].
Defined.

Definition doubt_gtm : Gtm := mkGtm (GLOBAL_XID_BASE + 1) {[GLOBAL_XID_BASE]}.

Definition doubt_decided : MemKv :=
  kv_put (kv_put kv_new (clog_key doubt_g) (clog_value Committed))
    meta_next_global_xid_key (be_bytes 8 (GLOBAL_XID_BASE + 1)).

Lemma global_decision_atomic_witness :
  global_status doubt_kv doubt_decided
    (mkSnapshot GLOBAL_XID_BASE (GLOBAL_XID_BASE + 1) []) 5 = Ok Committed.
Proof.
  assert (commit_global_decision doubt_gtm kv_new doubt_g Committed
          = Some (Ok Committed, doubt_decided)) as E by (vm_compute; reflexivity).
  destruct (global_decision_atomic doubt_gtm kv_new doubt_g Committed (Ok Committed) doubt_decided
              [] doubt_decided) as [_ Hat]; [vm_compute; intuition congruence|by left|exact E|
              by intros []|reflexivity|].
  apply (Hat doubt_kv doubt_kv 5 5 _ Committed eq_refl); vm_compute; reflexivity.
Defined.
