(* ===== verification/Wire.v ===== *)
(** * The wire protocol's messages (pgwire/src/messages)

    Decoding of frontend messages from a receive buffer and encoding of backend
    messages into a send buffer. A decoder returns its outcome and the buffer it
    leaves: a frame is taken off before its body is read, also when the body is
    then rejected. *)
From Stdlib Require Import ZArith Lia.
From stdpp Require Import base list gmap strings.
From S2P Require Import Prelude Keys Store Datum Catalog Errors.
Open Scope Z_scope.

(** ** Checked readers *)

(** [pgwire/src/messages/frontend.rs:226-231] get_i32 *)
Definition get_i32 (buf : bytes) : result PgError (Z * bytes) :=
  if (length buf <? 4)%nat then Err (pg_protocol "message truncated reading i32")
  else Ok (to_signed 32 (be_val (take 4 buf)), drop 4 buf).

(** [pgwire/src/messages/frontend.rs:233-238] get_i16 *)
Definition get_i16 (buf : bytes) : result PgError (Z * bytes) :=
  if (length buf <? 2)%nat then Err (pg_protocol "message truncated reading i16")
  else Ok (to_signed 16 (be_val (take 2 buf)), drop 2 buf).

(** [pgwire/src/messages/frontend.rs:240-245] get_u8 *)
Definition get_u8 (buf : bytes) : result PgError (Z * bytes) :=
  match buf with
  | [] => Err (pg_protocol "message truncated reading byte")
  | b :: rest => Ok (b, rest)
  end.

(** [pgwire/src/messages/frontend.rs:247-252] get_bytes *)
Definition get_bytes (buf : bytes) (n : nat) : result PgError (bytes * bytes) :=
  if (length buf <? n)%nat then Err (pg_protocol "message truncated reading bytes")
  else Ok (take n buf, drop n buf).

(** [Iterator::position] of the NUL byte. *)
Fixpoint nul_position (buf : bytes) : option nat :=
  match buf with
  | [] => None
  | b :: rest => if b =? 0 then Some 0%nat else S <$> nul_position rest
  end.

(** [pgwire/src/messages/frontend.rs:254-262] get_cstr *)
Definition get_cstr (buf : bytes) : result PgError (string * bytes) :=
  pos ← ok_or (nul_position buf) (pg_protocol "unterminated string");
  s ← ok_or (from_utf8 (take pos buf)) (pg_protocol "string is not valid UTF-8");
  Ok (s, drop (S pos) buf).

(** A [for _ in 0..n] loop that reads items. *)
Fixpoint read_items {A} (item : bytes -> result PgError (A * bytes)) (n : nat) (buf : bytes)
  : result PgError (list A * bytes) :=
  match n with
  | O => Ok ([], buf)
  | S n =>
      '(x, buf) ← item buf;
      '(xs, buf) ← read_items item n buf;
      Ok (x :: xs, buf)
  end.

(** [usize::try_from] of a count. *)
Definition read_count (buf : bytes) : result PgError (nat * bytes) :=
  '(n, buf) ← get_i16 buf;
  if n <? 0 then Err (pg_protocol "negative count in message") else Ok (Z.to_nat n, buf).

(** [pgwire/src/messages/frontend.rs:214-222] decode_i16_vec *)
Definition decode_i16_vec (buf : bytes) : result PgError (list Z * bytes) :=
  '(n, buf) ← read_count buf; read_items get_i16 n buf.

(** ** Characters in error texts *)

(** [u8 as char] in UTF-8. *)
Definition latin1_str (b : Z) : string :=
  if b <? 128 then str_of_bytes [b] else str_of_bytes [192 + b / 64; 128 + b mod 64].

(** A lower-case hexadecimal digit. *)
Definition hex_digit (d : Z) : string := str_of_bytes [if d <? 10 then 48 + d else 87 + d].

(** The [Debug] form of a [char] below 256: the usual escapes, and a code point
    for what is not printable. *)
Definition char_debug (b : Z) : string :=
  let body :=
    if b =? 0 then "\0"
    else if b =? 9 then "\t"
    else if b =? 10 then "\n"
    else if b =? 13 then "\r"
    else if b =? 39 then "\'"
    else if b =? 92 then "\\"
    else if (b <? 32) || ((127 <=? b) && (b <=? 160)) || (b =? 173) then
      "\u{" +:+ (if b <? 16 then hex_digit b else hex_digit (b / 16) +:+ hex_digit (b mod 16)) +:+ "}"
    else latin1_str b in
  "'" +:+ body +:+ "'".

(** ** The startup packet *)

(** [pgwire/src/messages/frontend.rs:10-10] PROTOCOL_3_0 *)
Definition PROTOCOL_3_0 : Z := 196608.
(** [pgwire/src/messages/frontend.rs:11-11] SSL_REQUEST_CODE *)
Definition SSL_REQUEST_CODE : Z := 80877103.
(** [pgwire/src/messages/frontend.rs:12-12] CANCEL_REQUEST_CODE *)
Definition CANCEL_REQUEST_CODE : Z := 80877102.
(** [pgwire/src/messages/frontend.rs:13-13] GSSENC_REQUEST_CODE *)
Definition GSSENC_REQUEST_CODE : Z := 80877104.
(** [pgwire/src/messages/frontend.rs:16-16] MAX_STARTUP_PACKET_LEN *)
Definition MAX_STARTUP_PACKET_LEN : Z := 10000.

(** [pgwire/src/messages/frontend.rs:19-24] StartupPacket *)
Inductive StartupPacket : Type :=
| Startup (params : list (string * string))
| SslRequest
| GssEncRequest
| CancelRequest (process_id secret_key : Z).

(** The parameter loop: each turn takes at least one byte. *)
Fixpoint read_params (fuel : nat) (buf : bytes) : result PgError (list (string * string)) :=
  match fuel with
  | O => Ok []
  | S fuel =>
      '(key, buf) ← get_cstr buf;
      match key with
      | EmptyString => Ok []
      | _ =>
          '(value, buf) ← get_cstr buf;
          params ← read_params fuel buf;
          Ok ((key, value) :: params)
      end
  end.

Definition startup_body (body : bytes) : result PgError StartupPacket :=
  '(code, body) ← get_i32 body;
  if code =? SSL_REQUEST_CODE then Ok SslRequest
  else if code =? GSSENC_REQUEST_CODE then Ok GssEncRequest
  else if code =? CANCEL_REQUEST_CODE then
    '(process_id, body) ← get_i32 body;
    '(secret_key, body) ← get_i32 body;
    Ok (CancelRequest process_id secret_key)
  else if code =? PROTOCOL_3_0 then
    params ← read_params (S (length body)) body;
    Ok (Startup params)
  else
    let u := to_unsigned 32 code in
    Err (pg_protocol ("unsupported frontend protocol " +:+ z_to_string (Z.shiftr u 16) +:+ "."
           +:+ z_to_string (Z.land u 65535) +:+ "; server supports 3.0")).

(** [pgwire/src/messages/frontend.rs:26-69] decode_startup *)
Definition decode_startup (buf : bytes) : result PgError (option StartupPacket) * bytes :=
  if (length buf <? 4)%nat then (Ok None, buf)
  else
    let len := to_signed 32 (be_val (take 4 buf)) in
    if (len <? 8) || (MAX_STARTUP_PACKET_LEN <? len) then
      (Err (pg_protocol ("invalid startup packet length: " +:+ z_to_string len)), buf)
    else
      let len := Z.to_nat len in
      if (length buf <? len)%nat then (Ok None, buf)
      else (p ← startup_body (drop 4 (take len buf)); Ok (Some p), drop len buf).

(** ** Frontend messages *)

(** [pgwire/src/messages/frontend.rs:72-72] MAX_MESSAGE_LEN *)
Definition MAX_MESSAGE_LEN : Z := 67108864.

(** [pgwire/src/messages/frontend.rs:75-111] FrontendMessage *)
Inductive FrontendMessage : Type :=
| Query (sql : string)
| Password (body : bytes)
| Parse (name sql : string) (param_types : list Z)
| Bind (portal statement : string) (param_formats : list Z) (params : list (option bytes))
    (result_formats : list Z)
| Describe (kind : Z) (name : string)
| Execute (portal : string) (max_rows : Z)
| Close (kind : Z) (name : string)
| Sync
| Flush
| Terminate.

(** A type oid: [i32 as u32]. *)
Definition get_oid (buf : bytes) : result PgError (Z * bytes) :=
  '(v, buf) ← get_i32 buf; Ok (to_unsigned 32 v, buf).

(** One parameter of Bind: a negative length is NULL. *)
Definition get_param (buf : bytes) : result PgError (option bytes * bytes) :=
  '(len, buf) ← get_i32 buf;
  if len <? 0 then Ok (None, buf)
  else '(b, buf) ← get_bytes buf (Z.to_nat len); Ok (Some b, buf).

Definition message_body (tag : Z) (body : bytes) : result PgError (FrontendMessage * bytes) :=
  if tag =? 81 then '(sql, body) ← get_cstr body; Ok (Query sql, body)
  else if tag =? 88 then Ok (Terminate, body)
  else if tag =? 83 then Ok (Sync, body)
  else if tag =? 72 then Ok (Flush, body)
  else if tag =? 112 then Ok (Password body, [])
  else if tag =? 80 then
    '(name, body) ← get_cstr body;
    '(sql, body) ← get_cstr body;
    '(n, body) ← read_count body;
    '(types, body) ← read_items get_oid n body;
    Ok (Parse name sql types, body)
  else if tag =? 66 then
    '(portal, body) ← get_cstr body;
    '(statement, body) ← get_cstr body;
    '(param_formats, body) ← decode_i16_vec body;
    '(n, body) ← read_count body;
    '(params, body) ← read_items get_param n body;
    '(result_formats, body) ← decode_i16_vec body;
    Ok (Bind portal statement param_formats params result_formats, body)
  else if tag =? 68 then
    '(kind, body) ← get_u8 body; '(name, body) ← get_cstr body; Ok (Describe kind name, body)
  else if tag =? 69 then
    '(portal, body) ← get_cstr body; '(max_rows, body) ← get_i32 body;
    Ok (Execute portal max_rows, body)
  else if tag =? 67 then
    '(kind, body) ← get_u8 body; '(name, body) ← get_cstr body; Ok (Close kind name, body)
  else Err (pg_protocol ("unknown frontend message tag " +:+ char_debug tag)).

(** The whole frame must be used. *)
Definition decode_frame (tag : Z) (body : bytes) : result PgError (option FrontendMessage) :=
  '(msg, rest) ← message_body tag body;
  match rest with
  | [] => Ok (Some msg)
  | _ => Err (pg_protocol ("invalid message format: " +:+ z_to_string (Z.of_nat (length rest))
                +:+ " trailing bytes after '" +:+ latin1_str tag +:+ "' message"))
  end.

(** [pgwire/src/messages/frontend.rs:113-212] decode_message *)
Definition decode_message (buf : bytes) : result PgError (option FrontendMessage) * bytes :=
  if (length buf <? 5)%nat then (Ok None, buf)
  else
    let tag := default 0 (head buf) in
    let len := to_signed 32 (be_val (take 4 (drop 1 buf))) in
    if (len <? 4) || (MAX_MESSAGE_LEN <? len) then
      (Err (pg_protocol ("invalid message length " +:+ z_to_string len +:+ " for tag "
              +:+ latin1_str tag)), buf)
    else
      let total := S (Z.to_nat len) in
      if (length buf <? total)%nat then (Ok None, buf)
      else (decode_frame tag (drop 5 (take total buf)), drop total buf).

(** ** Backend messages *)

(** [pgwire/src/messages/backend.rs:9-13] TxStatus *)
Inductive TxStatus : Type := TxIdle | TxInTransaction | TxFailed.

(** [pgwire/src/messages/backend.rs:16-22] TxStatus::as_byte *)
Definition tx_status_byte (s : TxStatus) : Z :=
  match s with TxIdle => 73 | TxInTransaction => 84 | TxFailed => 69 end.

(** [pgwire/src/engine.rs:82-91] FieldDescription *)
Record FieldDescription : Type := mkField {
  f_name : string;
  f_table_oid : Z;
  f_column_id : Z;
  f_type_oid : Z;
  f_type_size : Z;
  f_type_modifier : Z;
  f_format : Z
}.

(** [BufMut::put_i16], [put_i32]: two's complement, big-endian. *)
Definition put_i16 (v : Z) : bytes := be_bytes 2 (to_unsigned 16 v).
Definition put_i32 (v : Z) : bytes := be_bytes 4 (to_unsigned 32 v).

(** [pgwire/src/messages/backend.rs:26-38] msg *)
Definition msg (out : bytes) (tag : Z) (body : bytes) : bytes :=
  out ++ tag :: put_i32 (Z.of_nat (length body + 4)) ++ body.

(** [pgwire/src/messages/backend.rs:40-43] put_cstr *)
Definition put_cstr (s : string) : bytes := str_bytes s ++ [0].

(** [pgwire/src/messages/backend.rs:45-47] authentication_ok *)
Definition authentication_ok (out : bytes) : bytes := msg out 82 (put_i32 0).

(** [pgwire/src/messages/backend.rs:49-57] authentication_sasl *)
Definition authentication_sasl (out : bytes) (mechanisms : list string) : bytes :=
  msg out 82 (put_i32 10 ++ concat (put_cstr <$> mechanisms) ++ [0]).

(** [pgwire/src/messages/backend.rs:59-64] authentication_sasl_continue *)
Definition authentication_sasl_continue (out data : bytes) : bytes := msg out 82 (put_i32 11 ++ data).

(** [pgwire/src/messages/backend.rs:66-71] authentication_sasl_final *)
Definition authentication_sasl_final (out data : bytes) : bytes := msg out 82 (put_i32 12 ++ data).

(** [pgwire/src/messages/backend.rs:73-78] parameter_status *)
Definition parameter_status (out : bytes) (name value : string) : bytes :=
  msg out 83 (put_cstr name ++ put_cstr value).

(** [pgwire/src/messages/backend.rs:80-85] backend_key_data *)
Definition backend_key_data (out : bytes) (process_id secret_key : Z) : bytes :=
  msg out 75 (put_i32 process_id ++ put_i32 secret_key).

(** [pgwire/src/messages/backend.rs:87-89] ready_for_query *)
Definition ready_for_query (out : bytes) (status : TxStatus) : bytes :=
  msg out 90 [tx_status_byte status].

(** [pgwire/src/messages/backend.rs:91-93] command_complete *)
Definition command_complete (out : bytes) (tag : string) : bytes := msg out 67 (put_cstr tag).

(** [pgwire/src/messages/backend.rs:95-97] empty_query_response *)
Definition empty_query_response (out : bytes) : bytes := msg out 73 [].

(** [pgwire/src/messages/backend.rs:99-101] parse_complete *)
Definition parse_complete (out : bytes) : bytes := msg out 49 [].

(** [pgwire/src/messages/backend.rs:103-105] bind_complete *)
Definition bind_complete (out : bytes) : bytes := msg out 50 [].

(** [pgwire/src/messages/backend.rs:107-109] close_complete *)
Definition close_complete (out : bytes) : bytes := msg out 51 [].

(** [pgwire/src/messages/backend.rs:111-113] no_data *)
Definition no_data (out : bytes) : bytes := msg out 110 [].

(** [pgwire/src/messages/backend.rs:115-122] parameter_description *)
Definition parameter_description (out : bytes) (type_oids : list Z) : bytes :=
  msg out 116 (put_i16 (Z.of_nat (length type_oids)) ++ concat (put_i32 <$> type_oids)).

Definition put_field (f : FieldDescription) : bytes :=
  put_cstr (f_name f) ++ put_i32 (f_table_oid f) ++ put_i16 (f_column_id f)
  ++ put_i32 (f_type_oid f) ++ put_i16 (f_type_size f) ++ put_i32 (f_type_modifier f)
  ++ put_i16 (f_format f).

(** [pgwire/src/messages/backend.rs:124-137] row_description *)
Definition row_description (out : bytes) (fields : list FieldDescription) : bytes :=
  msg out 84 (put_i16 (Z.of_nat (length fields)) ++ concat (put_field <$> fields)).

Definition put_value (v : option bytes) : bytes :=
  match v with
  | Some b => put_i32 (Z.of_nat (length b)) ++ b
  | None => put_i32 (-1)
  end.

(** [pgwire/src/messages/backend.rs:139-152] data_row *)
Definition data_row (out : bytes) (values : list (option bytes)) : bytes :=
  msg out 68 (put_i16 (Z.of_nat (length values)) ++ concat (put_value <$> values)).

(** [pgwire/src/messages/backend.rs:154-166] error_response *)
Definition error_response (out : bytes) (err : PgError) : bytes :=
  msg out 69 (83 :: put_cstr (severity_str (pe_severity err))
              ++ 86 :: put_cstr (severity_str (pe_severity err))
              ++ 67 :: put_cstr (pe_code err)
              ++ 77 :: put_cstr (pe_message err) ++ [0]).

(** ** Readers against writers *)

Definition cstr_ok (s : string) : Prop := str_ok s /\ ~ In 0 (str_bytes s).

Lemma nul_position_app b rest : ~ In 0 b -> nul_position (b ++ 0 :: rest) = Some (length b).
Proof.
  induction b as [|x b IH]; intros Hn; [done|]. cbn [app nul_position].
  destruct (Z.eqb_spec x 0) as [->|_]; [destruct Hn; by left|].
  rewrite IH; [done|]. intros Hb. apply Hn. by right.
Qed.

Lemma get_cstr_put s rest : cstr_ok s -> get_cstr (put_cstr s ++ rest) = Ok (s, rest).
Proof.
  intros [Hs Hn]. unfold get_cstr, put_cstr. rewrite <- app_assoc. cbn [app].
  rewrite nul_position_app by done. cbn [ok_or mbind result_bind].
  rewrite take_app_length, from_utf8_str_bytes by done. cbn [ok_or mbind result_bind].
  by rewrite <- Nat.add_1_r, drop_app_add.
Qed.

Lemma take_drop_be n v rest :
  take n (be_bytes n v ++ rest) = be_bytes n v /\ drop n (be_bytes n v ++ rest) = rest.
Proof.
  split; [apply take_app_length'|apply drop_app_length']; by rewrite be_bytes_length.
Qed.

Lemma be_ltb_false n v rest : (length (be_bytes n v ++ rest) <? n)%nat = false.
Proof. apply Nat.ltb_ge. rewrite length_app, be_bytes_length. lia. Qed.

Lemma get_i32_put v rest : i32_ok v -> get_i32 (put_i32 v ++ rest) = Ok (v, rest).
Proof.
  intros Hv. unfold get_i32, put_i32. rewrite be_ltb_false.
  destruct (take_drop_be 4 (to_unsigned 32 v) rest) as [-> ->].
  rewrite be_val_be_bytes; [by rewrite signed_unsigned_32|].
  unfold to_unsigned. apply Z.mod_pos_bound. lia.
Qed.

Lemma get_i16_put v rest : i16_ok v -> get_i16 (put_i16 v ++ rest) = Ok (v, rest).
Proof.
  intros Hv. unfold get_i16, put_i16. rewrite be_ltb_false.
  destruct (take_drop_be 2 (to_unsigned 16 v) rest) as [-> ->].
  rewrite be_val_be_bytes; [by rewrite signed_unsigned_16|].
  unfold to_unsigned. apply Z.mod_pos_bound. lia.
Qed.

Lemma get_bytes_app b rest : get_bytes (b ++ rest) (length b) = Ok (b, rest).
Proof.
  unfold get_bytes. rewrite (proj2 (Nat.ltb_ge _ _)) by (rewrite length_app; lia).
  by rewrite take_app_length, drop_app_length.
Qed.

(** An oid as a client writes it. *)
Definition put_oid (v : Z) : bytes := put_i32 v.

Lemma get_oid_put v rest : u32_ok v -> get_oid (put_oid v ++ rest) = Ok (v, rest).
Proof.
  intros Hv. unfold get_oid, put_oid, get_i32, put_i32. rewrite be_ltb_false.
  destruct (take_drop_be 4 (to_unsigned 32 v) rest) as [-> ->].
  cbn [mbind result_bind]. rewrite be_val_be_bytes by (apply Z.mod_pos_bound; lia).
  unfold to_unsigned at 2. rewrite (Z.mod_small v) by (unfold u32_ok in Hv; lia).
  do 2 f_equal. unfold to_signed, to_unsigned. unfold u32_ok in Hv.
  change (2 ^ 32) with 4294967296 in *. change (2 ^ (32 - 1)) with 2147483648.
  destruct (Z.ltb_spec v 2147483648); Z.div_mod_to_equations; lia.
Qed.

Definition value_ok (v : option bytes) : Prop :=
  match v with Some b => Z.of_nat (length b) < 2 ^ 31 | None => True end.

Lemma get_param_put v rest : value_ok v -> get_param (put_value v ++ rest) = Ok (v, rest).
Proof.
  destruct v as [b|]; cbn [put_value value_ok]; intros Hv; unfold get_param.
  - rewrite <- app_assoc, get_i32_put by width_lia. cbn [mbind result_bind].
    rewrite (proj2 (Z.ltb_ge _ _)) by lia. rewrite Nat2Z.id, get_bytes_app. done.
  - rewrite get_i32_put by width_lia. done.
Qed.

Lemma read_items_put {A} (item : bytes -> result PgError (A * bytes)) (w : A -> bytes)
    (P : A -> Prop) l rest :
  (forall x rest, P x -> item (w x ++ rest) = Ok (x, rest)) -> Forall P l ->
  read_items item (length l) (concat (w <$> l) ++ rest) = Ok (l, rest).
Proof.
  intros Hi Hl. induction Hl as [|x l Hx _ IH]; [done|].
  cbn [length read_items]. rewrite fmap_cons. cbn [concat]. rewrite <- app_assoc, Hi by done.
  cbn [mbind result_bind]. rewrite IH. done.
Qed.

Definition count_ok {A} (l : list A) : Prop := Z.of_nat (length l) < 2 ^ 15.

Lemma read_count_put {A} (l : list A) rest :
  count_ok l -> read_count (put_i16 (Z.of_nat (length l)) ++ rest) = Ok (length l, rest).
Proof.
  intros Hl. unfold read_count, count_ok in *. rewrite get_i16_put by width_lia.
  cbn [mbind result_bind]. rewrite (proj2 (Z.ltb_ge _ _)) by lia. by rewrite Nat2Z.id.
Qed.

Definition put_i16_vec (l : list Z) : bytes :=
  put_i16 (Z.of_nat (length l)) ++ concat (put_i16 <$> l).

Lemma decode_i16_vec_put l rest :
  count_ok l -> Forall i16_ok l -> decode_i16_vec (put_i16_vec l ++ rest) = Ok (l, rest).
Proof.
  intros Hc Hl. unfold decode_i16_vec, put_i16_vec. rewrite <- app_assoc, read_count_put by done.
  cbn [mbind result_bind]. apply (read_items_put get_i16 put_i16 i16_ok); [|done].
  intros. by apply get_i16_put.
Qed.

(** ** The protocol's frontend messages *)

(** The tag and body of a message, as the protocol's documentation lays them
    out. *)
Definition frontend_parts (m : FrontendMessage) : Z * bytes :=
  match m with
  | Query sql => (81, put_cstr sql)
  | Password b => (112, b)
  | Parse name sql types =>
      (80, put_cstr name ++ put_cstr sql ++ put_i16 (Z.of_nat (length types))
           ++ concat (put_oid <$> types))
  | Bind portal st pf params rf =>
      (66, put_cstr portal ++ put_cstr st ++ put_i16_vec pf
           ++ put_i16 (Z.of_nat (length params)) ++ concat (put_value <$> params)
           ++ put_i16_vec rf)
  | Describe kind name => (68, kind :: put_cstr name)
  | Execute portal max_rows => (69, put_cstr portal ++ put_i32 max_rows)
  | Close kind name => (67, kind :: put_cstr name)
  | Sync => (83, [])
  | Flush => (72, [])
  | Terminate => (88, [])
  end.

Definition frontend_ok (m : FrontendMessage) : Prop :=
  match m with
  | Query sql => cstr_ok sql
  | Password _ => True
  | Parse name sql types => cstr_ok name /\ cstr_ok sql /\ count_ok types /\ Forall u32_ok types
  | Bind portal st pf params rf =>
      cstr_ok portal /\ cstr_ok st /\ count_ok pf /\ Forall i16_ok pf /\
      count_ok params /\ Forall value_ok params /\ count_ok rf /\ Forall i16_ok rf
  | Describe _ name | Close _ name => cstr_ok name
  | Execute portal max_rows => cstr_ok portal /\ i32_ok max_rows
  | Sync | Flush | Terminate => True
  end.

Definition encode_frontend (m : FrontendMessage) : bytes :=
  let '(tag, body) := frontend_parts m in msg [] tag body.

Lemma message_body_parts m :
  frontend_ok m -> message_body (frontend_parts m).1 (frontend_parts m).2 = Ok (m, []).
Proof.
  intros Hm. destruct m; cbn [frontend_parts frontend_ok fst snd] in *; unfold message_body;
    cbn [Z.eqb Pos.eqb]; try done.
  - rewrite <- (app_nil_r (put_cstr sql)), get_cstr_put by done. done.
  - destruct Hm as (Hn & Hs & Hc & Ht). rewrite get_cstr_put by done. cbn [mbind result_bind].
    rewrite get_cstr_put by done. cbn [mbind result_bind].
    rewrite read_count_put by done. cbn [mbind result_bind].
    rewrite <- (app_nil_r (concat _)).
    rewrite (read_items_put get_oid put_oid u32_ok); [done| |done]. intros. by apply get_oid_put.
  - destruct Hm as (Hp & Hs & Hcp & Hpf & Hcv & Hv & Hcr & Hrf).
    rewrite get_cstr_put by done. cbn [mbind result_bind].
    rewrite get_cstr_put by done. cbn [mbind result_bind].
    rewrite decode_i16_vec_put by done. cbn [mbind result_bind].
    rewrite read_count_put by done. cbn [mbind result_bind].
    rewrite (read_items_put get_param put_value value_ok); [|intros; by apply get_param_put|done].
    cbn [mbind result_bind]. rewrite <- (app_nil_r (put_i16_vec _)).
    rewrite decode_i16_vec_put by done. done.
  - cbn [get_u8 mbind result_bind]. rewrite <- (app_nil_r (put_cstr name)), get_cstr_put by done. done.
  - destruct Hm as [Hp Hr]. rewrite get_cstr_put by done. cbn [mbind result_bind].
    rewrite <- (app_nil_r (put_i32 max_rows)), get_i32_put by done. done.
  - cbn [get_u8 mbind result_bind]. rewrite <- (app_nil_r (put_cstr name)), get_cstr_put by done. done.
Qed.

(** The header of a frame, read from any buffer that starts with it. *)
Lemma frame_header (tag : Z) (body rest : bytes) :
  Z.of_nat (length body + 4) <= MAX_MESSAGE_LEN ->
  let buf := tag :: put_i32 (Z.of_nat (length body + 4)) ++ rest in
  (length buf <? 5)%nat = false /\
  to_signed 32 (be_val (take 4 (drop 1 buf))) = Z.of_nat (length body + 4).
Proof.
  intros Hl buf. unfold MAX_MESSAGE_LEN in Hl. split.
  - apply Nat.ltb_ge. unfold buf. cbn [length]. rewrite length_app. unfold put_i32.
    rewrite be_bytes_length. lia.
  - unfold buf, put_i32.
    match goal with |- context [drop 1 (tag :: ?x)] => change (drop 1 (tag :: x)) with x end.
    destruct (take_drop_be 4 (to_unsigned 32 (Z.of_nat (length body + 4))) rest) as [-> _].
    rewrite be_val_be_bytes by (apply Z.mod_pos_bound; lia).
    apply signed_unsigned_32. width_lia.
Qed.

Lemma decode_framed (tag : Z) (body rest : bytes) :
  Z.of_nat (length body + 4) <= MAX_MESSAGE_LEN ->
  decode_message (msg [] tag body ++ rest) = (decode_frame tag body, rest).
Proof.
  intros Hl. unfold msg. cbn [app]. rewrite <- app_assoc.
  destruct (frame_header tag body (body ++ rest) Hl) as [H5 Hlen].
  unfold decode_message. rewrite H5, Hlen. cbn [head default].
  assert ((Z.of_nat (length body + 4) <? 4) || (MAX_MESSAGE_LEN <? Z.of_nat (length body + 4)) = false)
    as -> by (apply orb_false_iff; split; apply Z.ltb_ge; lia).
  rewrite Nat2Z.id.
  set (hdr := tag :: put_i32 (Z.of_nat (length body + 4))).
  assert (length hdr = 5%nat) as Hh by (unfold hdr, put_i32; cbn [length]; by rewrite be_bytes_length).
  change (tag :: put_i32 (Z.of_nat (length body + 4)) ++ body ++ rest) with (hdr ++ body ++ rest).
  rewrite app_assoc. assert (length (hdr ++ body) = S (length body + 4)) as Hf
    by (rewrite length_app, Hh; lia).
  rewrite (proj2 (Nat.ltb_ge _ _)) by (rewrite length_app, Hf; lia).
  rewrite take_app_length', drop_app_length' by lia.
  by rewrite drop_app_length' by lia.
Qed.

(** Frontend messages round-trip. Every message whose strings are NUL-free
    UTF-8, whose counts and lengths fit their fields and whose frame is within
    the limit is decoded, from its documented encoding followed by anything, to
    itself, leaving what follows; and from a proper prefix of the encoding the
    decoder asks for more and leaves the buffer as it is. *)
Theorem frontend_roundtrip m rest :
  frontend_ok m -> Z.of_nat (length (frontend_parts m).2 + 4) <= MAX_MESSAGE_LEN ->
  decode_message (encode_frontend m ++ rest) = (Ok (Some m), rest) /\
  forall p q, encode_frontend m = p ++ q -> q <> [] -> decode_message p = (Ok None, p).
Proof.
  intros Hm Hl. unfold encode_frontend. pose proof (message_body_parts m Hm) as Hb.
  destruct (frontend_parts m) as [tag body]. cbn [fst snd] in *. split.
  - rewrite decode_framed by done. unfold decode_frame. by rewrite Hb.
  - intros p q E Hq. unfold decode_message.
    destruct (Nat.ltb_spec (length p) 5) as [|H5]; [done|].
    unfold msg in E. cbn [app] in E.
    set (hdr := tag :: put_i32 (Z.of_nat (length body + 4))) in *.
    assert (length hdr = 5%nat) as Hh by (unfold hdr, put_i32; cbn [length]; by rewrite be_bytes_length).
    change (tag :: put_i32 (Z.of_nat (length body + 4)) ++ body) with (hdr ++ body) in E.
    assert (p = hdr ++ drop 5 p) as Ep.
    { rewrite <- (take_drop 5 p) at 1. f_equal.
      apply (f_equal (take 5)) in E. rewrite take_app_length' in E by lia.
      by rewrite take_app_le in E by lia. }
    destruct (frame_header tag body (drop 5 p) Hl) as [_ Hlen].
    change (tag :: put_i32 (Z.of_nat (length body + 4)) ++ drop 5 p) with (hdr ++ drop 5 p) in Hlen.
    rewrite <- Ep in Hlen. rewrite Hlen.
    assert ((Z.of_nat (length body + 4) <? 4) || (MAX_MESSAGE_LEN <? Z.of_nat (length body + 4)) = false)
      as -> by (apply orb_false_iff; split; apply Z.ltb_ge; lia).
    rewrite Nat2Z.id, (proj2 (Nat.ltb_lt _ _)); [done|].
    apply (f_equal length) in E. rewrite !length_app, Hh in E.
    destruct q; [done|]. simpl in E. lia.
Qed.

(** Decoding is independent of how the bytes arrive, and makes progress. It
    takes a prefix off the buffer, nothing when it needs more input; a message
    costs at least five bytes; and once it has an outcome, bytes that arrive later do not
    change it. *)
Theorem decode_message_stream buf r rest :
  decode_message buf = (r, rest) ->
  (exists used, buf = used ++ rest) /\
  (r = Ok None -> rest = buf) /\
  (forall m, r = Ok (Some m) -> (length rest + 5 <= length buf)%nat) /\
  (r <> Ok None -> forall more, decode_message (buf ++ more) = (r, rest ++ more)).
Proof.
  unfold decode_message at 1. destruct (Nat.ltb_spec (length buf) 5) as [|H5].
  { intros [= <- <-]. split_and!; [by exists []|done|done|done]. }
  set (len := to_signed 32 (be_val (take 4 (drop 1 buf)))).
  assert (forall more, (length (buf ++ more) <? 5)%nat = false /\ head (buf ++ more) = head buf /\
            take 4 (drop 1 (buf ++ more)) = take 4 (drop 1 buf)) as Hmore.
  { intros more. destruct buf as [|t b]; [simpl in H5; lia|]. cbn [app head length] in *.
    change (drop 1 (t :: b)) with b. change (drop 1 (t :: b ++ more)) with (b ++ more).
    split_and!; [apply Nat.ltb_ge; rewrite length_app; lia|done|].
    by rewrite take_app_le by lia. }
  destruct ((len <? 4) || (MAX_MESSAGE_LEN <? len)) eqn:Elen.
  { intros [= <- <-]. split_and!; [by exists []|done|done|]. intros _ more.
    destruct (Hmore more) as (E1 & E2 & E3). unfold decode_message.
    rewrite E1, E2, E3. fold len. by rewrite Elen. }
  apply orb_false_iff in Elen as Hb. destruct Hb as [Hb1%Z.ltb_ge Hb2%Z.ltb_ge].
  destruct (Nat.ltb_spec (length buf) (S (Z.to_nat len))) as [Hs|Hs].
  { intros [= <- <-]. split_and!; [by exists []|done|done|done]. }
  intros [= <- <-]. set (total := S (Z.to_nat len)) in *.
  assert (5 <= total)%nat as Ht by (unfold total; lia).
  split_and!.
  - exists (take total buf). by rewrite take_drop.
  - unfold decode_frame. intros E. exfalso.
    apply bind_Ok in E as ([msg' rest'] & _ & E). by destruct rest'.
  - intros m _. rewrite length_drop. lia.
  - intros _ more. destruct (Hmore more) as (E1 & E2 & E3). unfold decode_message.
    rewrite E1, E2, E3. fold len. rewrite Elen. fold total.
    rewrite (proj2 (Nat.ltb_ge _ _)) by (rewrite length_app; lia).
    by rewrite take_app_le, drop_app_le by lia.
Qed.

(** ** Concrete messages *)

Definition sample_bind : FrontendMessage :=
  Bind "p" "s" [1] [Some [1; 2; 3]; None] [0; 1].

Lemma sample_bind_ok : frontend_ok sample_bind.
Proof.
  assert (cstr_ok "p" /\ cstr_ok "s") as [Hp Hs].
  { split; (split; [reflexivity|]); vm_compute; intros [?|[]]; discriminate. }
  unfold sample_bind, frontend_ok, count_ok. cbn [length].
  split_and!; [exact Hp|exact Hs|lia| |lia| |lia|].
  - repeat (apply List.Forall_cons; [width_lia|]). apply List.Forall_nil.
  - repeat (apply List.Forall_cons; [cbn [value_ok length]; try exact I; lia|]). apply List.Forall_nil.
  - repeat (apply List.Forall_cons; [width_lia|]). apply List.Forall_nil.
Qed.

Lemma frontend_roundtrip_witness :
  decode_message (encode_frontend sample_bind ++ [83]) = (Ok (Some sample_bind), [83]).
Proof.
  apply (frontend_roundtrip sample_bind [83]); [apply sample_bind_ok|].
  vm_compute. congruence.
Defined.

Lemma decode_message_stream_witness :
  decode_message ([83; 0; 0; 0; 4] ++ [88]) = (Ok (Some Sync), [88]).
Proof.
  apply (decode_message_stream [83; 0; 0; 0; 4] (Ok (Some Sync)) [] eq_refl). discriminate.
Defined.
