(* ===== verification/Scram.v ===== *)
(** * Password authentication (pgwire/src/scram.rs)

    The server's side of SCRAM-SHA-256: verifiers, which hold no password, the made-up
    verifier of an unknown user, and the two messages of an exchange. The hash, the keyed
    hash, the key derivation and base64 are parameters. *)
From Stdlib Require Import ZArith Lia Ascii.
From stdpp Require Import base list gmap strings.
From S2P Require Import Prelude Text Keys Store Datum Catalog Errors.
Open Scope Z_scope.

(** ** The libraries *)

(** The crates sha2, hmac, pbkdf2 and base64. *)
Class Crypto : Type := {
  sha256 : bytes -> bytes;
  hmac : bytes -> bytes -> bytes;
  pbkdf2_hmac : bytes -> bytes -> Z -> bytes;
  b64_encode : bytes -> string;
  b64_decode : string -> option bytes
}.

(** Digests have 32 bytes; base64 uses its alphabet, its length follows from that of the
    input, and decoding undoes encoding. *)
Definition b64_char (c : ascii) : bool :=
  let b := byte_of_ascii c in
  in_range 65 90 b || in_range 97 122 b || in_range 48 57 b || (b =? 43) || (b =? 47) || (b =? 61).
Definition b64_text (s : string) : bool := forallb b64_char (String.list_ascii_of_string s).

Class CryptoLaws `{Crypto} : Prop := {
  hmac_length k d : length (hmac k d) = 32%nat;
  hmac_bytes k d : bytes_ok (hmac k d);
  b64_roundtrip b : bytes_ok b -> b64_decode (b64_encode b) = Some b;
  b64_alphabet b : b64_text (b64_encode b) = true;
  b64_same_length a b :
    length a = length b -> String.length (b64_encode a) = String.length (b64_encode b)
}.

(** ** Strings *)

(** [str::strip_prefix] *)
Definition strip_prefix (p s : string) : option string :=
  if String.prefix p s then Some (str_drop (String.length p) s) else None.

(** [str::rsplit_once] *)
Fixpoint rsplit_once (pat s : string) : option (string * string) :=
  match s with
  | EmptyString => None
  | String c t =>
      match rsplit_once pat t with
      | Some (head, tail) => Some (String c head, tail)
      | None => (fun tail => ("", tail)) <$> strip_prefix pat s
      end
  end.

(** [Iterator::find_map] *)
Fixpoint find_map {A B} (f : A -> option B) (l : list A) : option B :=
  match l with
  | [] => None
  | x :: l => match f x with Some y => Some y | None => find_map f l end
  end.

(** [pgwire/src/scram.rs:197-201] attr *)
Definition attr (msg : string) (name : ascii) : result PgError string :=
  ok_or (find_map (fun part => strip_prefix (String name EmptyString) part ≫= strip_prefix "=")
                  (split_on "," msg))
    (pg_protocol ("SCRAM: missing attribute '" +:+ String name "'")).

(** ** Verifiers *)

Section Scram.
Context `{Crypto}.

(** [pgwire/src/scram.rs:13-13] DEFAULT_ITERATIONS, as PostgreSQL has it *)
Definition DEFAULT_ITERATIONS : Z := 4096.
(** [pgwire/src/scram.rs:18-18] SALT_LEN *)
Definition SALT_LEN : nat := 16.

(** [pgwire/src/scram.rs:22-27] ScramVerifier *)
Record ScramVerifier : Type := mkVerifier {
  sv_salt : bytes;
  sv_iterations : Z;
  sv_stored_key : bytes;
  sv_server_key : bytes
}.

(** [pgwire/src/scram.rs:30-44] ScramVerifier::from_password *)
Definition from_password (password : string) (salt : bytes) (iterations : Z) : ScramVerifier :=
  let salted := pbkdf2_hmac (str_bytes password) salt iterations in
  let client_key := hmac salted (str_bytes "Client Key") in
  mkVerifier salt iterations (sha256 client_key) (hmac salted (str_bytes "Server Key")).

(** [pgwire/src/scram.rs:47-61] ScramVerifier::mock *)
Definition mock (server_secret : bytes) (user : string) : ScramVerifier :=
  mkVerifier (take SALT_LEN (hmac server_secret (str_bytes ("mock-salt:" +:+ user))))
    DEFAULT_ITERATIONS
    (hmac server_secret (str_bytes ("mock-stored:" +:+ user)))
    (hmac server_secret (str_bytes ("mock-server:" +:+ user))).

(** ** The exchange *)

(** [pgwire/src/scram.rs:64-73] State *)
Inductive ScramState : Type :=
| Initial
| SentServerFirst (client_first_bare server_first full_nonce gs2_header : string)
| Done.

(** [pgwire/src/scram.rs:75-79] ScramServer *)
Record ScramServer : Type := mkScram {
  sc_verifier : ScramVerifier;
  sc_nonce : string;
  sc_state : ScramState
}.

(** [pgwire/src/scram.rs:82-88] ScramServer::from_verifier *)
Definition from_verifier (v : ScramVerifier) (nonce : string) : ScramServer := mkScram v nonce Initial.

Definition in_state (st : ScramState) (s : ScramServer) : ScramServer :=
  mkScram (sc_verifier s) (sc_nonce s) st.

(** The text the server answers the first message with. *)
Definition server_first_of (v : ScramVerifier) (full_nonce : string) : string :=
  "r=" +:+ full_nonce +:+ ",s=" +:+ b64_encode (sv_salt v) +:+ ",i=" +:+ z_to_string (sv_iterations v).

Definition gs2_split (msg : string) : result PgError (string * string) :=
  match strip_prefix "n,," msg, strip_prefix "y,," msg with
  | Some rest, _ => Ok ("n,,", rest)
  | None, Some rest => Ok ("y,,", rest)
  | None, None => Err (pg_protocol "SCRAM: unsupported gs2 header (channel binding not offered)")
  end.

(** [pgwire/src/scram.rs:98-132] handle_client_first *)
Definition handle_client_first (s : ScramServer) (msg : bytes) : ScramServer * result PgError bytes :=
  match sc_state s with
  | Initial =>
      let r :=
        msg ← ok_or (from_utf8 msg) (pg_protocol "SCRAM: client-first is not UTF-8");
        '(gs2_header, bare) ← gs2_split msg;
        client_nonce ← attr bare "r";
        Ok (gs2_header, bare, client_nonce +:+ sc_nonce s) in
      match r with
      | Ok (gs2_header, bare, full_nonce) =>
          let server_first := server_first_of (sc_verifier s) full_nonce in
          (in_state (SentServerFirst bare server_first full_nonce gs2_header) s, Ok (str_bytes server_first))
      | Err e => (s, Err e)
      end
  | _ => (s, Err (pg_protocol "SCRAM: unexpected client-first message"))
  end.

Definition auth_failed : PgError := pg_fatal "28P01" "password authentication failed".

Definition xor_bytes (a b : bytes) : bytes := zip_with Z.lxor a b.

(** The signed text of an exchange. *)
Definition auth_message (bare server_first without_proof : string) : string :=
  bare +:+ "," +:+ server_first +:+ "," +:+ without_proof.

(** [pgwire/src/scram.rs:144-186] handle_client_final, in the state it is meant for *)
Definition check_final (v : ScramVerifier) (bare server_first full_nonce gs2_header : string)
    (msg : bytes) : result PgError bytes :=
  msg ← ok_or (from_utf8 msg) (pg_protocol "SCRAM: client-final is not UTF-8");
  channel ← attr msg "c";
  if negb (String.eqb channel (b64_encode (str_bytes gs2_header)))
  then Err (pg_protocol "SCRAM: channel binding data mismatch")
  else
    nonce ← attr msg "r";
    if negb (String.eqb nonce full_nonce) then Err (pg_protocol "SCRAM: nonce mismatch")
    else
      p ← attr msg "p";
      proof ← ok_or (b64_decode p) (pg_protocol "SCRAM: proof is not valid base64");
      '(without_proof, _) ← ok_or (rsplit_once ",p=" msg) (pg_protocol "SCRAM: missing proof");
      let auth := str_bytes (auth_message bare server_first without_proof) in
      let client_signature := hmac (sv_stored_key v) auth in
      if negb (length proof =? 32)%nat then Err auth_failed
      else if negb (bool_decide (sha256 (xor_bytes proof client_signature) = sv_stored_key v))
      then Err auth_failed
      else Ok (str_bytes ("v=" +:+ b64_encode (hmac (sv_server_key v) auth))).

(** [pgwire/src/scram.rs:134-187] handle_client_final *)
Definition handle_client_final (s : ScramServer) (msg : bytes) : ScramServer * result PgError bytes :=
  (in_state Done s,
   match sc_state s with
   | SentServerFirst bare server_first full_nonce gs2_header =>
       check_final (sc_verifier s) bare server_first full_nonce gs2_header msg
   | _ => Err (pg_protocol "SCRAM: unexpected client-final message")
   end).

End Scram.

(** ** Texts *)

Lemma utf8_valid_app a b : utf8_valid a = true -> utf8_valid (a ++ b) = utf8_valid b.
Proof.
  remember (length a) as n eqn:E. revert a E.
  induction n as [n IH] using (well_founded_induction lt_wf). intros a -> Ha.
  assert (forall t, (length t < length a)%nat -> utf8_valid t = true -> utf8_valid (t ++ b) = utf8_valid b) as IHt
    by (intros t Hl; by apply (IH (length t) Hl t)). clear IH.
  destruct a as [|b0 t0]; [done|]. cbn [utf8_valid app] in *.
  destruct (in_range 0 127 b0); [by apply IHt; [simpl; lia|]|].
  destruct t0 as [|b1 t1]; [done|]. cbn [app] in *.
  destruct (in_range 194 223 b0).
  { apply andb_prop in Ha as [-> Ha]. apply IHt; [simpl; lia|done]. }
  destruct t1 as [|b2 t2]; [done|]. cbn [app] in *.
  destruct (in_range 224 239 b0).
  { apply andb_prop in Ha as [-> Ha]. apply IHt; [simpl; lia|done]. }
  destruct t2 as [|b3 t3]; [done|]. cbn [app] in *.
  apply andb_prop in Ha as [-> Ha]. apply IHt; [simpl; lia|done].
Qed.

Lemma str_ok_app s t : str_ok s -> str_ok t -> str_ok (s +:+ t).
Proof. unfold str_ok. rewrite str_bytes_app. intros Hs Ht. by rewrite utf8_valid_app. Qed.

Lemma b64_text_ok s : b64_text s = true -> str_ok s /\ lacks "," s = true.
Proof.
  unfold str_ok, b64_text. induction s as [|c s IH]; [done|].
  cbn [String.list_ascii_of_string forallb str_bytes utf8_valid lacks]. intros [Hc Hs]%andb_prop.
  destruct (IH Hs) as [E1 E2]. rewrite E2.
  assert (in_range 0 127 (byte_of_ascii c) = true) as ->
    by (unfold b64_char, in_range in *; cbn zeta in Hc; lia).
  split; [done|]. rewrite bool_decide_false; [done|]. intros ->. by vm_compute in Hc.
Qed.

Lemma digits_text s : digits_ok s = true -> str_ok s.
Proof.
  unfold str_ok. induction s as [|c s IH]; [done|].
  cbn [digits_ok str_bytes utf8_valid]. intros [Hc Hs]%andb_prop.
  assert (in_range 0 127 (byte_of_ascii c) = true) as ->; [|by apply IH].
  unfold is_digit in Hc. unfold in_range in *. lia.
Qed.

Lemma strip_prefix_app p s : strip_prefix p (p +:+ s) = Some s.
Proof.
  unfold strip_prefix. assert (String.prefix p (p +:+ s) = true) as ->.
  { induction p as [|c p IH]; [by destruct s|]. rewrite str_app_cons. cbn [String.prefix].
    destruct (ascii_dec c c); [done|congruence]. }
  f_equal. induction p as [|c p IH]; [by destruct s|]. rewrite str_app_cons. done.
Qed.

(** Nothing to cut in text without a comma, and the last cut otherwise. *)
Lemma rsplit_once_none s : lacks "," s = true -> rsplit_once ",p=" s = None.
Proof.
  induction s as [|c s IH]; [done|]. cbn [lacks rsplit_once]. intros [Hc Hs]%andb_prop.
  rewrite IH by done. unfold strip_prefix. cbn [String.prefix].
  destruct (ascii_dec "," c) as [<-|]; [|done]. by rewrite bool_decide_true in Hc.
Qed.

Lemma rsplit_once_app s t : lacks "," t = true -> rsplit_once ",p=" (s +:+ ",p=" +:+ t) = Some (s, t).
Proof.
  intros Ht. induction s as [|c s IH].
  - change ("" +:+ ",p=" +:+ t) with (String "," ("p=" +:+ t)). cbn [rsplit_once].
    rewrite rsplit_once_none by (change "p=" with (String "p" "="); by rewrite lacks_app, Ht).
    change (String "," ("p=" +:+ t)) with (",p=" +:+ t). by rewrite strip_prefix_app.
  - rewrite str_app_cons. cbn [rsplit_once]. by rewrite IH.
Qed.

Lemma split3 a b c :
  lacks "," a = true -> lacks "," b = true -> lacks "," c = true ->
  split_on "," (a +:+ "," +:+ b +:+ "," +:+ c) = [a; b; c].
Proof.
  intros. change ("," +:+ b +:+ "," +:+ c) with (String "," (b +:+ "," +:+ c)).
  rewrite split_on_app by done. change ("," +:+ c) with (String "," c).
  rewrite split_on_app by done. by rewrite split_on_lacks.
Qed.

Lemma three_attrs x y z a b c :
  x <> y -> x <> z -> y <> z -> lacks "," (String x a) = true -> lacks "," (String y b) = true ->
  lacks "," (String z c) = true ->
  let msg := String x ("=" +:+ a) +:+ "," +:+ String y ("=" +:+ b) +:+ "," +:+ String z ("=" +:+ c) in
  attr msg x = Ok a /\ attr msg y = Ok b /\ attr msg z = Ok c.
Proof.
  intros Hxy Hxz Hyz Ha Hb Hc msg. unfold attr.
  assert (split_on "," msg = [String x ("=" +:+ a); String y ("=" +:+ b); String z ("=" +:+ c)]) as ->
    by (apply split3; [exact Ha|exact Hb|exact Hc]).
  assert (forall n v, strip_prefix (String n "") (String n ("=" +:+ v)) ≫= strip_prefix "=" = Some v) as Hyes.
  { intros n v. change (String n ("=" +:+ v)) with (String n "" +:+ ("=" +:+ v)).
    rewrite strip_prefix_app. cbn [mbind option_bind]. apply strip_prefix_app. }
  assert (forall n m v, n <> m -> strip_prefix (String n "") (String m v) ≫= strip_prefix "=" = None) as Hno.
  { intros n m v Hn. unfold strip_prefix. cbn [String.prefix]. destruct (ascii_dec n m); [congruence|done]. }
  cbn [find_map]. rewrite !Hyes, !Hno by auto. done.
Qed.

(** ** The exchange with a client that knows the password *)

Section Exchange.
Context `{Crypto} `{!CryptoLaws}.

(** A client as RFC 5802 has it: its two messages, the second computed from what the
    server sent, and the answer it then expects. *)
Definition client_first_bare (user nonce : string) : string := "n=" +:+ user +:+ ",r=" +:+ nonce.

Definition client_final (password gs2 bare server_first : string) : option (string * string) :=
  match attr server_first "r", attr server_first "s", attr server_first "i" with
  | Ok nonce, Ok salt, Ok iterations =>
      salt ← b64_decode salt;
      let salted := pbkdf2_hmac (str_bytes password) salt (digits_val 0 iterations) in
      let client_key := hmac salted (str_bytes "Client Key") in
      let without_proof := "c=" +:+ b64_encode (str_bytes gs2) +:+ ",r=" +:+ nonce in
      let auth := str_bytes (auth_message bare server_first without_proof) in
      let proof := xor_bytes client_key (hmac (sha256 client_key) auth) in
      Some (without_proof +:+ ",p=" +:+ b64_encode proof,
            "v=" +:+ b64_encode (hmac (hmac salted (str_bytes "Server Key")) auth))
  | _, _, _ => None
  end.

Lemma xor_bytes_length a b : length a = length b -> length (xor_bytes a b) = length a.
Proof. intros. unfold xor_bytes. rewrite length_zip_with. lia. Qed.

Lemma xor_bytes_cancel a b : length a = length b -> xor_bytes (xor_bytes a b) b = a.
Proof.
  revert b; induction a as [|x a IH]; intros [|y b] E; try done. cbn.
  rewrite Z.lxor_assoc, Z.lxor_nilpotent, Z.lxor_0_r. f_equal. apply IH. simpl in E. lia.
Qed.

Lemma xor_bytes_ok a b : bytes_ok a -> bytes_ok b -> bytes_ok (xor_bytes a b).
Proof.
  intros Ha. revert b. induction Ha as [|x a Hx _ IH]; intros b Hb; [constructor|].
  destruct Hb as [|y b Hy Hb]; [constructor|]. constructor; [|by apply IH].
  unfold u8_ok in *. assert (0 <= Z.lxor x y) by (apply Z.lxor_nonneg; lia).
  split; [done|]. destruct (Z.eq_dec (Z.lxor x y) 0) as [->|]; [lia|].
  assert (Z.log2 (Z.lxor x y) < 8); [|change 256 with (2 ^ 8); apply Z.log2_lt_pow2; lia].
  pose proof (Z.log2_lxor x y ltac:(lia) ltac:(lia)).
  assert (forall v, 0 <= v < 256 -> Z.log2 v < 8) as Hl.
  { intros v Hv. destruct (Z.eq_dec v 0) as [->|]; [done|]. apply Z.log2_lt_pow2; [lia|].
    change (2 ^ 8) with 256. lia. }
  pose proof (Hl x ltac:(lia)). pose proof (Hl y ltac:(lia)). lia.
Qed.

Lemma server_first_attrs v nonce :
  lacks "," nonce = true -> 0 <= sv_iterations v ->
  attr (server_first_of v nonce) "r" = Ok nonce /\
  attr (server_first_of v nonce) "s" = Ok (b64_encode (sv_salt v)) /\
  attr (server_first_of v nonce) "i" = Ok (z_to_string (sv_iterations v)).
Proof.
  intros Hn Hi. apply (three_attrs "r" "s" "i" nonce); try done.
  - cbn [lacks]. rewrite (proj2 (b64_text_ok _ (b64_alphabet _))). done.
  - cbn [lacks]. unfold z_to_string. rewrite (proj2 (Z.ltb_ge _ _)) by done.
    rewrite digits_lacks; [done|by apply dec_string_digits|done].
Qed.

(** What a user name and a nonce look like. *)
Definition token_ok (s : string) : Prop := str_ok s /\ lacks "," s = true.

Lemma client_first_read user nonce gs2 :
  gs2 = "n,," \/ gs2 = "y,," -> token_ok user -> token_ok nonce ->
  from_utf8 (str_bytes (gs2 +:+ client_first_bare user nonce)) = Some (gs2 +:+ client_first_bare user nonce) /\
  gs2_split (gs2 +:+ client_first_bare user nonce) = Ok (gs2, client_first_bare user nonce) /\
  attr (client_first_bare user nonce) "r" = Ok nonce.
Proof.
  intros Hg [Hu1 Hu2] [Hn1 Hn2]. unfold client_first_bare. split_and!.
  - apply from_utf8_str_bytes. repeat apply str_ok_app; try done. by destruct Hg as [-> | ->].
  - unfold gs2_split. destruct Hg as [-> | ->]; rewrite strip_prefix_app; done.
  - unfold attr. change ("n=" +:+ user +:+ ",r=" +:+ nonce) with (("n=" +:+ user) +:+ String "," ("r=" +:+ nonce)).
    rewrite split_on_app by done. rewrite split_on_lacks by done. cbn [find_map].
    change ("n=" +:+ user) with (String "n" ("=" +:+ user)). change ("r=" +:+ nonce) with ("r" +:+ ("=" +:+ nonce)).
    rewrite strip_prefix_app. cbn [mbind option_bind]. by rewrite strip_prefix_app.
Qed.

(** The server reads what the client writes in its second message. *)
Lemma client_final_read channel nonce proof :
  token_ok channel -> token_ok nonce -> token_ok proof ->
  let without_proof := "c=" +:+ channel +:+ ",r=" +:+ nonce in
  let msg := without_proof +:+ ",p=" +:+ proof in
  from_utf8 (str_bytes msg) = Some msg /\
  attr msg "c" = Ok channel /\ attr msg "r" = Ok nonce /\ attr msg "p" = Ok proof /\
  rsplit_once ",p=" msg = Some (without_proof, proof).
Proof.
  intros [Hc1 Hc2] [Hn1 Hn2] [Hp1 Hp2] wp msg.
  assert (str_ok msg) by (unfold msg, wp; repeat apply str_ok_app; done).
  split; [by apply from_utf8_str_bytes|].
  destruct (three_attrs "c" "r" "p" channel nonce proof) as (E1 & E2 & E3); try done.
  assert (msg = String "c" ("=" +:+ channel) +:+ "," +:+ String "r" ("=" +:+ nonce) +:+ ","
                +:+ String "p" ("=" +:+ proof)) as Em.
  { unfold msg, wp. change ("c=" +:+ channel +:+ ",r=" +:+ nonce) with ("c=" +:+ (channel +:+ ",r=" +:+ nonce)).
    rewrite !str_app_assoc. done. }
  rewrite <- Em in E1, E2, E3. split_and!; try done. by apply rsplit_once_app.
Qed.

(** A right proof opens the exchange. *)
Lemma check_final_accepts client_key server_key salt iterations bare first nonce gs2 :
  token_ok nonce -> length client_key = 32%nat -> bytes_ok client_key ->
  let v := mkVerifier salt iterations (sha256 client_key) server_key in
  let without_proof := "c=" +:+ b64_encode (str_bytes gs2) +:+ ",r=" +:+ nonce in
  let auth := str_bytes (auth_message bare first without_proof) in
  let proof := xor_bytes client_key (hmac (sha256 client_key) auth) in
  check_final v bare first nonce gs2 (str_bytes (without_proof +:+ ",p=" +:+ b64_encode proof)) =
  Ok (str_bytes ("v=" +:+ b64_encode (hmac server_key auth))).
Proof.
  intros Hn Hl Hk v wp auth proof. unfold check_final.
  assert (forall b, token_ok (b64_encode b)) as Hb by (intros b; apply b64_text_ok, b64_alphabet).
  pose proof (client_final_read (b64_encode (str_bytes gs2)) nonce (b64_encode proof) (Hb _) Hn (Hb _)) as Hr.
  cbn zeta in Hr. fold wp in Hr. destruct Hr as (-> & E1 & E2 & E3 & E4).
  cbn [ok_or mbind result_bind]. rewrite E1. cbn [mbind result_bind]. rewrite String.eqb_refl. cbn [negb].
  rewrite E2. cbn [mbind result_bind]. rewrite String.eqb_refl. cbn [negb].
  rewrite E3. cbn [mbind result_bind].
  assert (length client_key = length (hmac (sha256 client_key) auth)) as Hle by (by rewrite hmac_length).
  rewrite b64_roundtrip by (apply xor_bytes_ok; [done|apply hmac_bytes]). cbn [ok_or mbind result_bind].
  rewrite E4. cbn [ok_or mbind result_bind sv_stored_key v].
  unfold proof at 1. rewrite xor_bytes_length, Hl by done. cbn [Nat.eqb negb].
  fold wp auth. unfold proof. rewrite xor_bytes_cancel, bool_decide_true by done. done.
Qed.

Lemma token_ok_app a b : token_ok a -> token_ok b -> token_ok (a +:+ b).
Proof. intros [??] [Hb1 Hb2]. split; [by apply str_ok_app|]. rewrite lacks_app, Hb2. by rewrite andb_true_r. Qed.

Lemma password_accepted password salt iterations user nonce server_nonce gs2 :
  gs2 = "n,," \/ gs2 = "y,," -> bytes_ok salt -> 0 <= iterations ->
  token_ok user -> token_ok nonce -> token_ok server_nonce ->
  let s := from_verifier (from_password password salt iterations) server_nonce in
  let bare := client_first_bare user nonce in
  exists s1 s2 server_first final server_final,
    handle_client_first s (str_bytes (gs2 +:+ bare)) = (s1, Ok (str_bytes server_first)) /\
    client_final password gs2 bare server_first = Some (final, server_final) /\
    handle_client_final s1 (str_bytes final) = (s2, Ok (str_bytes server_final)).
Proof.
  intros Hg Hs Hi Hu Hn Hsn s bare. destruct (client_first_read user nonce gs2 Hg Hu Hn) as (E1 & E2 & E3).
  fold bare in E1, E2, E3. set (v := from_password password salt iterations).
  pose proof (token_ok_app _ _ Hn Hsn) as Hf. set (full := nonce +:+ server_nonce) in *.
  set (first := server_first_of v full).
  destruct (server_first_attrs v full (proj2 Hf) Hi) as (A1 & A2 & A3). fold first in A1, A2, A3.
  exists (in_state (SentServerFirst bare first full gs2) s), (in_state Done s), first.
  unfold client_final. rewrite A1, A2, A3. cbn [v from_password sv_salt sv_iterations].
  rewrite b64_roundtrip by done. cbn [mbind option_bind].
  assert (digits_val 0 (z_to_string iterations) = iterations) as ->.
  { unfold z_to_string. rewrite (proj2 (Z.ltb_ge _ _)) by done. by apply dec_string_val. }
  do 2 eexists. split_and!; [|reflexivity|].
  - unfold handle_client_first. cbn [s from_verifier sc_state].
    rewrite E1. cbn [ok_or mbind result_bind]. rewrite E2. cbn [mbind result_bind]. rewrite E3. done.
  - unfold handle_client_final. cbn [in_state sc_state sc_verifier s from_verifier]. f_equal.
    apply check_final_accepts; [done|apply hmac_length|apply hmac_bytes].
Qed.

Lemma accepted_knows_key v server_nonce m1 m2 s1 a1 s2 a2 :
  handle_client_first (from_verifier v server_nonce) m1 = (s1, Ok a1) ->
  handle_client_final s1 m2 = (s2, Ok a2) ->
  exists key bare nonce without_proof msg p proof,
    let auth := str_bytes (auth_message bare (server_first_of v (nonce +:+ server_nonce)) without_proof) in
    sha256 key = sv_stored_key v /\
    from_utf8 m2 = Some msg /\ attr msg "p" = Ok p /\ b64_decode p = Some proof /\
    proof = xor_bytes key (hmac (sv_stored_key v) auth) /\
    a2 = str_bytes ("v=" +:+ b64_encode (hmac (sv_server_key v) auth)).
Proof.
  unfold handle_client_first, handle_client_final. cbn [from_verifier sc_state sc_verifier sc_nonce].
  case_match eqn:E1; [|congruence]. destruct a as [[gs2 bare] full]. intros [= <- <-].
  cbn [in_state sc_state sc_verifier]. intros [= _ E2].
  apply bind_Ok in E1 as (m & _ & E1). apply bind_Ok in E1 as ([g b] & _ & E1).
  apply bind_Ok in E1 as (nonce & _ & [= -> -> <-]).
  unfold check_final in E2. apply bind_Ok in E2 as (msg & Em & E2).
  apply bind_Ok in E2 as (channel & _ & E2). destruct (negb _); [done|].
  apply bind_Ok in E2 as (n & _ & E2). destruct (negb _); [done|].
  apply bind_Ok in E2 as (p & Ep & E2). apply bind_Ok in E2 as (proof & Epr & E2).
  apply bind_Ok in E2 as ([wp ?] & _ & E2). cbn zeta in E2.
  destruct (Nat.eqb_spec (length proof) 32) as [Hl|]; [|done]. cbn [negb] in E2.
  case_bool_decide as Hk; [|done]. injection E2 as <-.
  eexists (xor_bytes proof _), bare, nonce, wp, msg, p, proof. cbn zeta. split_and!; [exact Hk| | | | |done].
  - by destruct (from_utf8 m2); [injection Em as <-|].
  - done.
  - by destruct (b64_decode p); [injection Epr as <-|].
  - symmetry. apply xor_bytes_cancel. by rewrite hmac_length.
Qed.

(** C11: SCRAM admits who knows the password, and nobody without the key. A client that
    follows the protocol with the password the verifier was made from is accepted, and the
    server proves in return that it knows the verifier: it answers what the client
    computes from the password alone. Conversely whatever two messages are accepted, the
    proof in the second is the keyed hash of this exchange, with the server's own nonce in
    it, combined with a key whose digest is the stored one; and an exchange that has had
    its second message accepts no other. *)
Theorem scram_exchange_correct :
  (forall password salt iterations user nonce server_nonce gs2,
    gs2 = "n,," \/ gs2 = "y,," -> bytes_ok salt -> 0 <= iterations ->
    token_ok user -> token_ok nonce -> token_ok server_nonce ->
    let s := from_verifier (from_password password salt iterations) server_nonce in
    let bare := client_first_bare user nonce in
    exists s1 s2 server_first final server_final,
      handle_client_first s (str_bytes (gs2 +:+ bare)) = (s1, Ok (str_bytes server_first)) /\
      client_final password gs2 bare server_first = Some (final, server_final) /\
      handle_client_final s1 (str_bytes final) = (s2, Ok (str_bytes server_final))) /\
  (forall v server_nonce m1 m2 s1 a1 s2 a2,
    handle_client_first (from_verifier v server_nonce) m1 = (s1, Ok a1) ->
    handle_client_final s1 m2 = (s2, Ok a2) ->
    (exists key bare nonce without_proof msg p proof,
      let auth := str_bytes (auth_message bare (server_first_of v (nonce +:+ server_nonce)) without_proof) in
      sha256 key = sv_stored_key v /\
      from_utf8 m2 = Some msg /\ attr msg "p" = Ok p /\ b64_decode p = Some proof /\
      proof = xor_bytes key (hmac (sv_stored_key v) auth) /\
      a2 = str_bytes ("v=" +:+ b64_encode (hmac (sv_server_key v) auth))) /\
    forall m3, exists e, handle_client_final s2 m3 = (s2, Err e)).
Proof.
  split; [intros; by apply password_accepted|]. intros v sn m1 m2 s1 a1 s2 a2 E1 E2.
  split; [by eapply accepted_knows_key|]. intros m3.
  unfold handle_client_final in E2. injection E2 as <- _. by eexists.
Qed.

(** An unknown user is answered like a known one: the first answer has the same length,
    whatever the names. *)
Lemma mock_answers_alike secret user v nonce :
  length (sv_salt v) = SALT_LEN -> sv_iterations v = DEFAULT_ITERATIONS ->
  String.length (server_first_of (mock secret user) nonce) = String.length (server_first_of v nonce).
Proof.
  intros Hs Hi. unfold server_first_of. rewrite Hi. cbn [mock sv_salt sv_iterations].
  rewrite !str_length_app. do 3 f_equal. f_equal. apply b64_same_length.
  rewrite length_take, hmac_length, Hs. done.
Qed.

End Exchange.

(** ** An instance of the libraries *)

Definition hex_char (d : Z) : ascii := ascii_of_byte (if d <? 10 then 48 + d else 87 + d).
Definition hex_val (c : ascii) : Z := let b := byte_of_ascii c in if b <? 58 then b - 48 else b - 87.

Fixpoint hex_encode (b : bytes) : string :=
  match b with [] => "" | x :: b => String (hex_char (x / 16 mod 16)) (String (hex_char (x mod 16)) (hex_encode b)) end.
Fixpoint hex_decode (s : string) : option bytes :=
  match s with
  | EmptyString => Some []
  | String c (String d s) => cons (16 * hex_val c + hex_val d) <$> hex_decode s
  | _ => None
  end.

(** A sum of the bytes with their positions, in 32 bytes. *)
Definition toy_digest (b : bytes) : bytes :=
  (fun i => (Z.of_nat i + foldl (fun acc x => 31 * acc + x) 7 b) mod 256) <$> seq 0 32.

#[export] Instance toy_crypto : Crypto := {|
  sha256 := toy_digest;
  hmac k d := toy_digest (k ++ d);
  pbkdf2_hmac p s n := toy_digest (p ++ s ++ [n]);
  b64_encode := hex_encode;
  b64_decode := hex_decode
|}.

Lemma hex_char_ok d : 0 <= d < 16 -> b64_char (hex_char d) = true /\ hex_val (hex_char d) = d.
Proof.
  intros Hd. unfold hex_char. assert (d ∈ [0;1;2;3;4;5;6;7;8;9;10;11;12;13;14;15]) as Hin
    by (repeat (rewrite elem_of_cons); lia).
  repeat (apply elem_of_cons in Hin as [->|Hin]; [done|]). by apply elem_of_nil in Hin.
Qed.

#[export] Instance toy_laws : CryptoLaws.
Proof.
  assert (forall x, 0 <= x mod 16 < 16) as Hm by (intros; apply Z.mod_pos_bound; lia).
  split; cbn [hmac toy_crypto b64_encode b64_decode].
  - done.
  - intros k d. unfold toy_digest. apply Forall_fmap, Forall_true. intros i. unfold u8_ok, compose. apply Z.mod_pos_bound. lia.
  - induction 1 as [|x b Hx _ IH]; [done|]. cbn [hex_encode hex_decode]. rewrite IH. cbn.
    rewrite !(proj2 (hex_char_ok _ (Hm _))). do 2 f_equal. unfold u8_ok in Hx. Z.div_mod_to_equations; lia.
  - induction b as [|x b IH]; [done|]. unfold b64_text in *. cbn [hex_encode String.list_ascii_of_string forallb].
    by rewrite !(proj1 (hex_char_ok _ (Hm _))), IH.
  - induction a as [|x a IH]; intros [|y b] E; try done. cbn [hex_encode String.length].
    injection E as E. by rewrite (IH b).
Qed.

Lemma scram_exchange_correct_witness :
  exists s1 s2 server_first final server_final,
    handle_client_first (from_verifier (from_password "pencil" [1; 2; 3] 4096) "SNONCE")
      (str_bytes "n,,n=user,r=CNONCE") = (s1, Ok (str_bytes server_first)) /\
    client_final "pencil" "n,," "n=user,r=CNONCE" server_first = Some (final, server_final) /\
    handle_client_final s1 (str_bytes final) = (s2, Ok (str_bytes server_final)).
Proof.
  apply (proj1 scram_exchange_correct "pencil" [1; 2; 3] 4096 "user" "CNONCE" "SNONCE" "n,,");
    try (split; reflexivity); [by left| |lia].
  repeat (apply List.Forall_cons; [unfold u8_ok; lia|]). apply List.Forall_nil.
Defined.
