(* ===== verification/Lexer.v ===== *)
(** * Tokens and the lexer (pgparser/src/token.rs, lexer.rs)

    The lexer walks the bytes of the statement text with an index; the model
    walks the suffix that starts there, with the index beside it for the
    positions. [lex_step] is one turn of the loop: it skips white space or a
    comment, or takes one token off.

    The theorems show that the lexer always finishes, where its tokens lie, and
    that every token has a spelling it reads back; and what it does to text
    outside ASCII. *)
From Stdlib Require Import ZArith Lia Ascii.
From stdpp Require Import base list gmap strings sorting.
From S2P Require Import Prelude Keys Store Datum ExtModel Errors.
Open Scope Z_scope.

(** ** Tokens *)

(** [pgparser/src/token.rs:38-132] Keyword *)
Inductive Keyword : Type :=
| KwCreate | KwTable | KwDrop | KwInsert | KwInto | KwValues | KwSelect | KwWith
| KwRecursive | KwFrom | KwWhere | KwOrder | KwBy | KwAsc | KwDesc | KwLimit | KwAnd | KwOr
| KwNot | KwTrue | KwFalse | KwNull | KwAs | KwBegin | KwStart | KwTransaction | KwCommit
| KwEnd | KwRollback | KwAbort | KwUpdate | KwSet | KwDelete | KwIsolation | KwLevel
| KwRead | KwCommitted | KwRepeatable | KwFor | KwShare | KwGroup | KwHaving | KwDistinct
| KwAll | KwIs | KwIn | KwBetween | KwLike | KwIlike | KwCase | KwWhen | KwThen | KwElse
| KwOffset | KwCast | KwJoin | KwInner | KwLeft | KwRight | KwFull | KwOuter | KwCross
| KwOn | KwUsing | KwNatural | KwExists | KwAny | KwSome | KwUnion | KwIntersect | KwExcept
| KwForeign | KwData | KwWrapper | KwServer | KwMapping | KwUser | KwOptions | KwImport
| KwSchema | KwTo | KwIf | KwCurrentUser | KwPublic.

#[export] Instance Keyword_eq_dec : EqDecision Keyword.
Proof. solve_decision. Defined.

(** The words of the keywords, as [from_word] lists them. *)
Definition keyword_words : list (string * Keyword) :=
  [("create", KwCreate); ("table", KwTable); ("drop", KwDrop); ("insert", KwInsert);
   ("into", KwInto); ("values", KwValues); ("select", KwSelect); ("with", KwWith);
   ("recursive", KwRecursive); ("from", KwFrom); ("where", KwWhere); ("order", KwOrder);
   ("by", KwBy); ("asc", KwAsc); ("desc", KwDesc); ("limit", KwLimit); ("and", KwAnd);
   ("or", KwOr); ("not", KwNot); ("true", KwTrue); ("false", KwFalse); ("null", KwNull);
   ("as", KwAs); ("begin", KwBegin); ("start", KwStart); ("transaction", KwTransaction);
   ("commit", KwCommit); ("end", KwEnd); ("rollback", KwRollback); ("abort", KwAbort);
   ("update", KwUpdate); ("set", KwSet); ("delete", KwDelete); ("isolation", KwIsolation);
   ("level", KwLevel); ("read", KwRead); ("committed", KwCommitted);
   ("repeatable", KwRepeatable); ("for", KwFor); ("share", KwShare); ("group", KwGroup);
   ("having", KwHaving); ("distinct", KwDistinct); ("all", KwAll); ("is", KwIs);
   ("in", KwIn); ("between", KwBetween); ("like", KwLike); ("ilike", KwIlike);
   ("case", KwCase); ("when", KwWhen); ("then", KwThen); ("else", KwElse);
   ("offset", KwOffset); ("cast", KwCast); ("join", KwJoin); ("inner", KwInner);
   ("left", KwLeft); ("right", KwRight); ("full", KwFull); ("outer", KwOuter);
   ("cross", KwCross); ("on", KwOn); ("using", KwUsing); ("natural", KwNatural);
   ("exists", KwExists); ("any", KwAny); ("some", KwSome); ("union", KwUnion);
   ("intersect", KwIntersect); ("except", KwExcept); ("foreign", KwForeign);
   ("data", KwData); ("wrapper", KwWrapper); ("server", KwServer); ("mapping", KwMapping);
   ("user", KwUser); ("options", KwOptions); ("import", KwImport); ("schema", KwSchema);
   ("to", KwTo); ("if", KwIf); ("current_user", KwCurrentUser); ("public", KwPublic)].

Fixpoint assoc_word (w : string) (l : list (string * Keyword)) : option Keyword :=
  match l with
  | [] => None
  | (w', k) :: l => if String.eqb w w' then Some k else assoc_word w l
  end.

(** [pgparser/src/token.rs:135-232] Keyword::from_word *)
Definition from_word (w : string) : option Keyword := assoc_word w keyword_words.

(** The derived [Debug] of a keyword: its constructor's name. *)
Definition keyword_debug (k : Keyword) : string :=
  match k with
  | KwCreate => "Create" | KwTable => "Table" | KwDrop => "Drop" | KwInsert => "Insert"
  | KwInto => "Into" | KwValues => "Values" | KwSelect => "Select" | KwWith => "With"
  | KwRecursive => "Recursive" | KwFrom => "From" | KwWhere => "Where" | KwOrder => "Order"
  | KwBy => "By" | KwAsc => "Asc" | KwDesc => "Desc" | KwLimit => "Limit" | KwAnd => "And"
  | KwOr => "Or" | KwNot => "Not" | KwTrue => "True" | KwFalse => "False"
  | KwNull => "Null" | KwAs => "As" | KwBegin => "Begin" | KwStart => "Start"
  | KwTransaction => "Transaction" | KwCommit => "Commit" | KwEnd => "End"
  | KwRollback => "Rollback" | KwAbort => "Abort" | KwUpdate => "Update" | KwSet => "Set"
  | KwDelete => "Delete" | KwIsolation => "Isolation" | KwLevel => "Level"
  | KwRead => "Read" | KwCommitted => "Committed" | KwRepeatable => "Repeatable"
  | KwFor => "For" | KwShare => "Share" | KwGroup => "Group" | KwHaving => "Having"
  | KwDistinct => "Distinct" | KwAll => "All" | KwIs => "Is" | KwIn => "In"
  | KwBetween => "Between" | KwLike => "Like" | KwIlike => "Ilike" | KwCase => "Case"
  | KwWhen => "When" | KwThen => "Then" | KwElse => "Else" | KwOffset => "Offset"
  | KwCast => "Cast" | KwJoin => "Join" | KwInner => "Inner" | KwLeft => "Left"
  | KwRight => "Right" | KwFull => "Full" | KwOuter => "Outer" | KwCross => "Cross"
  | KwOn => "On" | KwUsing => "Using" | KwNatural => "Natural" | KwExists => "Exists"
  | KwAny => "Any" | KwSome => "Some" | KwUnion => "Union" | KwIntersect => "Intersect"
  | KwExcept => "Except" | KwForeign => "Foreign" | KwData => "Data"
  | KwWrapper => "Wrapper" | KwServer => "Server" | KwMapping => "Mapping"
  | KwUser => "User" | KwOptions => "Options" | KwImport => "Import" | KwSchema => "Schema"
  | KwTo => "To" | KwIf => "If" | KwCurrentUser => "CurrentUser" | KwPublic => "Public"
  end.

(** [pgparser/src/token.rs:4-35] Token *)
Inductive Token : Type :=
| TkIdent (s : string) | TkKeyword (k : Keyword) | TkIntLit (s : string)
| TkFloatLit (s : string) | TkStringLit (s : string)
| TkLParen | TkRParen | TkComma | TkSemicolon | TkStar | TkPlus | TkMinus | TkSlash
| TkConcat | TkTypeCast | TkDot | TkEq | TkNe | TkLt | TkLe | TkGt | TkGe
| TkParam (n : Z) | TkEof.

#[export] Instance Token_eq_dec : EqDecision Token.
Proof. solve_decision. Defined.

Section Lexer.
Context `{Ext}.

(** The derived [Debug] of a token. *)
Definition token_debug (t : Token) : string :=
  match t with
  | TkIdent s => "Ident(" +:+ str_debug s +:+ ")"
  | TkKeyword k => "Keyword(" +:+ keyword_debug k +:+ ")"
  | TkIntLit s => "IntLit(" +:+ str_debug s +:+ ")"
  | TkFloatLit s => "FloatLit(" +:+ str_debug s +:+ ")"
  | TkStringLit s => "StringLit(" +:+ str_debug s +:+ ")"
  | TkLParen => "LParen" | TkRParen => "RParen" | TkComma => "Comma"
  | TkSemicolon => "Semicolon" | TkStar => "Star" | TkPlus => "Plus" | TkMinus => "Minus"
  | TkSlash => "Slash" | TkConcat => "Concat" | TkTypeCast => "TypeCast" | TkDot => "Dot"
  | TkEq => "Eq" | TkNe => "Ne" | TkLt => "Lt" | TkLe => "Le" | TkGt => "Gt" | TkGe => "Ge"
  | TkParam n => "Param(" +:+ z_to_string n +:+ ")" | TkEof => "Eof"
  end.

(** ** Bytes *)

Definition b_digit (b : Z) : bool := in_range 48 57 b.
Definition b_alpha (b : Z) : bool := in_range 65 90 b || in_range 97 122 b.
Definition b_word (b : Z) : bool := (b =? 95) || b_alpha b || b_digit b.

(** The byte of an ASCII character. *)
Definition chr (c : Ascii.ascii) : Z := byte_of_ascii c.
Coercion chr : Ascii.ascii >-> Z.

(** [bytes.get(i) == Some(&b)] at the front of a suffix. *)
Definition next_is (b : Z) (s : bytes) : bool :=
  match s with x :: _ => x =? b | [] => false end.
Definition next_sat (p : Z -> bool) (s : bytes) : bool :=
  match s with x :: _ => p x | [] => false end.

(** The longest prefix whose bytes satisfy [p], and what follows. *)
Fixpoint span (p : Z -> bool) (s : bytes) : bytes * bytes :=
  match s with
  | x :: s' => if p x then let '(a, b) := span p s' in (x :: a, b) else ([], s)
  | [] => ([], [])
  end.

(** [String::push(b as char)]: the byte as a code point, in UTF-8. *)
Definition push_byte (b : Z) : bytes :=
  if b <? 128 then [b] else [192 + b / 64; 128 + b mod 64].

(** [pgparser/src/lexer.rs:22-29] lex, a block comment: what follows its closing
    mark. *)
Fixpoint block_end (s : bytes) : option bytes :=
  match s with
  | a :: ((b :: r) as s') => if (a =? "*"%char) && (b =? "/"%char) then Some r else block_end s'
  | _ => None
  end.

(** [pgparser/src/lexer.rs:34-51] lex, the body of a string literal: its value
    and what follows the quote. *)
Fixpoint string_body (s : bytes) : option (bytes * bytes) :=
  match s with
  | [] => None
  | b :: s1 =>
      if b =? "'"%char then
        match s1 with
        | b2 :: s2 =>
            if b2 =? "'"%char then '(v, r) ← string_body s2; Some (chr "'"%char :: v, r)
            else Some ([], s1)
        | [] => Some ([], s1)
        end
      else '(v, r) ← string_body s1; Some (push_byte b ++ v, r)
  end.

(** [pgparser/src/lexer.rs:57-72] lex, the body of a quoted identifier *)
Fixpoint quoted_body (s : bytes) : option (bytes * bytes) :=
  match s with
  | [] => None
  | b :: s1 =>
      if b =? 34 then Some ([], s1)
      else '(v, r) ← quoted_body s1; Some (push_byte b ++ v, r)
  end.

(** [pgparser/src/lexer.rs:132-138] lex, an optional fractional part: its text,
    whether there is one, and what follows *)
Definition frac_body (s : bytes) : bytes * bool * bytes :=
  if next_is "."%char s then
    let '(fs, r) := span b_digit (drop 1 s) in (chr "."%char :: fs, true, r)
  else ([], false, s).

(** [pgparser/src/lexer.rs:139-153] lex, an optional exponent, taken only when a
    digit run follows its sign *)
Definition exp_body (s : bytes) : bytes * bool * bytes :=
  if next_is "e"%char s || next_is "E"%char s then
    let s3 := drop 1 s in
    let '(sg, s4) :=
      if next_is "+"%char s3 || next_is "-"%char s3 then (take 1 s3, drop 1 s3) else ([], s3) in
    if next_sat b_digit s4 then
      let '(xs, r) := span b_digit s4 in (take 1 s ++ sg ++ xs, true, r)
    else ([], false, s)
  else ([], false, s).

(** [pgparser/src/lexer.rs:127-154] lex, the numeric literal at the front: its
    text, whether it is a [FloatLit], and what follows *)
Definition number_body (s : bytes) : bytes * bool * bytes :=
  let '(ds, s1) := span b_digit s in
  let '(frac, f1, s2) := frac_body s1 in
  let '(ex, f2, r) := exp_body s2 in
  (ds ++ frac ++ ex, f1 || f2, r).

(** [str::parse] of an unsigned integer of a width whose maximum is [max]. *)
Definition parse_unsigned (max : Z) (s : string) : option Z :=
  let body := match s with String "+"%char s' => s' | _ => s end in
  match body with
  | EmptyString => None
  | _ => if digits_ok body then
           let v := digits_val 0 body in if v <=? max then Some v else None
         else None
  end.

(** ** The lexer *)

(** One token of [n] bytes. *)
Definition push_tok (t : Token) (i n : Z) (rest : bytes)
  : result ParseError (option (Token * Z) * Z * bytes) := Ok (Some (t, i), i + n, rest).

(** [pgparser/src/lexer.rs:12-183] lex, one turn of the loop, at the byte [c]
    of index [i] with [s1] after it. *)
Definition lex_step (i c : Z) (s1 : bytes)
  : result ParseError (option (Token * Z) * Z * bytes) :=
  let s := c :: s1 in
  let len (x : bytes) := Z.of_nat (length x) in
  if (c =? 32) || (c =? 9) || (c =? 13) || (c =? 10) then Ok (None, i + 1, s1)
  else if (c =? "-"%char) && next_is "-"%char s1 then
    let '(skipped, r) := span (fun b => negb (b =? 10)) s in Ok (None, i + len skipped, r)
  else if (c =? "/"%char) && next_is "*"%char s1 then
    match block_end (drop 1 s1) with
    | None => Err (parse_error_new "unterminated block comment" i)
    | Some r => Ok (None, i + (len s - len r), r)
    end
  else if c =? "'"%char then
    match string_body s1 with
    | None => Err (parse_error_new "unterminated string literal" i)
    | Some (v, r) => push_tok (TkStringLit (str_of_bytes v)) i (len s - len r) r
    end
  else if c =? 34 then
    match quoted_body s1 with
    | None => Err (parse_error_new "unterminated quoted identifier" i)
    | Some (v, r) => push_tok (TkIdent (str_of_bytes v)) i (len s - len r) r
    end
  else if (c =? "<"%char) && next_is "="%char s1 then push_tok TkLe i 2 (drop 1 s1)
  else if (c =? ">"%char) && next_is "="%char s1 then push_tok TkGe i 2 (drop 1 s1)
  else if (c =? "<"%char) && next_is ">"%char s1 then push_tok TkNe i 2 (drop 1 s1)
  else if (c =? "|"%char) && next_is "|"%char s1 then push_tok TkConcat i 2 (drop 1 s1)
  else if (c =? ":"%char) && next_is ":"%char s1 then push_tok TkTypeCast i 2 (drop 1 s1)
  else if c =? "("%char then push_tok TkLParen i 1 s1
  else if c =? ")"%char then push_tok TkRParen i 1 s1
  else if c =? ","%char then push_tok TkComma i 1 s1
  else if c =? ";"%char then push_tok TkSemicolon i 1 s1
  else if c =? "*"%char then push_tok TkStar i 1 s1
  else if c =? "+"%char then push_tok TkPlus i 1 s1
  else if c =? "-"%char then push_tok TkMinus i 1 s1
  else if c =? "/"%char then push_tok TkSlash i 1 s1
  else if c =? "="%char then push_tok TkEq i 1 s1
  else if c =? "<"%char then push_tok TkLt i 1 s1
  else if c =? ">"%char then push_tok TkGt i 1 s1
  else if (c =? "$"%char) && next_sat b_digit s1 then
    let '(ds, r) := span b_digit s1 in
    match parse_unsigned 4294967295 (str_of_bytes ds) with
    | None => Err (parse_error_new "parameter number out of range" i)
    | Some n => push_tok (TkParam n) i (1 + len ds) r
    end
  else if b_digit c || ((c =? "."%char) && next_sat b_digit s1) then
    let '(text, is_float, r) := number_body s in
    push_tok ((if is_float : bool then TkFloatLit else TkIntLit) (str_of_bytes text)) i
      (len text) r
  else if c =? "."%char then push_tok TkDot i 1 s1
  else if (c =? 95) || b_alpha c then
    let '(w, r) := span b_word s in
    let word := to_ascii_lowercase (str_of_bytes w) in
    push_tok match from_word word with Some kw => TkKeyword kw | None => TkIdent word end
      i (len w) r
  else Err (parse_error_new ("unexpected character " +:+ char_debug c) i).

(** The loop; [None] when the fuel runs out. *)
Fixpoint lex_loop (fuel : nat) (i : Z) (s : bytes)
  : option (result ParseError (list (Token * Z))) :=
  match fuel, s with
  | _, [] => Some (Ok [(TkEof, i)])
  | O, _ => None
  | S fuel, c :: s1 =>
      match lex_step i c s1 with
      | Err e => Some (Err e)
      | Ok (t, i, r) =>
          out ← lex_loop fuel i r;
          Some (ts ← out; Ok match t with Some t => t :: ts | None => ts end)
      end
  end.

(** [pgparser/src/lexer.rs:7-187] lex: every turn consumes a byte, so as many
    turns as there are bytes are enough ([lex_loop_total]). *)
Definition lex (sql : string) : result ParseError (list (Token * Z)) :=
  let s := str_bytes sql in
  match lex_loop (length s) 0 s with Some r => r | None => Ok [] end.


(** ** One turn consumes a prefix *)

Lemma span_eq p s : s = (span p s).1 ++ (span p s).2.
Proof.
  induction s as [|x s IH]; [done|]. cbn [span]. destruct (p x); [|done].
  destruct (span p s) as [a b]. cbn [fst snd] in *. by rewrite IH at 1.
Qed.

Lemma block_end_suffix s r : block_end s = Some r -> exists u, s = u ++ r.
Proof.
  revert r; induction s as [|a s IH]; intros r; [done|]. cbn [block_end].
  destruct s as [|b s]; [done|]. destruct (_ && _).
  - intros [= <-]. by exists [a; b].
  - intros (u & ->)%IH. by exists (a :: u).
Qed.

Lemma string_body_suffix n s v r :
  (length s <= n)%nat -> string_body s = Some (v, r) -> exists u, s = u ++ r.
Proof.
  revert s v r; induction n as [|n IH]; intros [|b s] v r Hn; cbn [length] in Hn;
    try done; try lia. cbn [string_body].
  destruct (b =? chr "'").
  - destruct s as [|b2 s2]; [intros [= <- <-]; by exists [b]|].
    destruct (b2 =? chr "'"); [|intros [= <- <-]; by exists [b]].
    cbn [length] in Hn. destruct (string_body s2) as [[v2 r2]|] eqn:E; cbn; [|done].
    intros [= <- <-]. apply IH in E as [u ->]; [|lia]. by exists (b :: b2 :: u).
  - destruct (string_body s) as [[v2 r2]|] eqn:E; cbn; [|done].
    intros [= <- <-]. apply IH in E as [u ->]; [|lia]. by exists (b :: u).
Qed.

Lemma quoted_body_suffix s v r : quoted_body s = Some (v, r) -> exists u, s = u ++ r.
Proof.
  revert v r; induction s as [|b s IH]; intros v r; [done|]. cbn [quoted_body].
  destruct (b =? 34); [intros [= <- <-]; by exists [b]|].
  destruct (quoted_body s) as [[v2 r2]|] eqn:E; cbn; [|done].
  intros [= <- <-]. destruct (IH v2 r2 eq_refl) as [u ->]. by exists (b :: u).
Qed.

Lemma next_is_cons b s : next_is b s = true -> s = b :: drop 1 s.
Proof. destruct s as [|x s]; [done|]. cbn. by intros ->%Z.eqb_eq. Qed.

Lemma frac_body_eq s : s = (frac_body s).1.1 ++ (frac_body s).2.
Proof.
  unfold frac_body. destruct (next_is "."%char s) eqn:En; [|done].
  pose proof (span_eq b_digit (drop 1 s)) as E. apply next_is_cons in En.
  destruct (span b_digit (drop 1 s)) as [fs r]. cbn [fst snd] in *.
  rewrite En, E at 1. done.
Qed.

Lemma exp_body_eq s : s = (exp_body s).1.1 ++ (exp_body s).2.
Proof.
  unfold exp_body. destruct (next_is "e"%char s || next_is "E"%char s); [|done].
  set (s3 := drop 1 s).
  assert (exists sg s4, (if next_is "+"%char s3 || next_is "-"%char s3
      then (take 1 s3, drop 1 s3) else ([], s3)) = (sg, s4) /\ s3 = sg ++ s4)
    as (sg & s4 & -> & E4).
  { destruct (next_is "+"%char s3 || next_is "-"%char s3).
    - exists (take 1 s3), (drop 1 s3). by rewrite take_drop.
    - by exists [], s3. }
  destruct (next_sat b_digit s4); [|done].
  pose proof (span_eq b_digit s4) as E5. destruct (span b_digit s4) as [xs r].
  cbn [fst snd] in *. rewrite <- !app_assoc, <- E5, <- E4. unfold s3. by rewrite take_drop.
Qed.

(** The text of a number is what was taken off. *)
Lemma number_body_eq s : s = (number_body s).1.1 ++ (number_body s).2.
Proof.
  unfold number_body. pose proof (span_eq b_digit s) as E1.
  destruct (span b_digit s) as [ds s1]. pose proof (frac_body_eq s1) as E2.
  destruct (frac_body s1) as [[frac f1] s2]. pose proof (exp_body_eq s2) as E3.
  destruct (exp_body s2) as [[ex f2] r]. cbn [fst snd] in *.
  by rewrite <- !app_assoc, <- E3, <- E2.
Qed.

(** What a successful turn does: it takes a non-empty prefix off, moves the
    index by its length, and places its token at the index. *)
Definition takes (i : Z) (s : bytes) (t : option (Token * Z)) (i' : Z) (r : bytes) : Prop :=
  exists u, s = u ++ r /\ u <> [] /\ i' = i + Z.of_nat (length u) /\
    forall tk, t = Some tk -> snd tk = i.

Lemma takes_intro i u r t n :
  u <> [] -> n = Z.of_nat (length u) -> takes i (u ++ r) (Some (t, i)) (i + n) r.
Proof. intros Hu ->. exists u. split_and!; [done|done|done|]. by intros tk [= <-]. Qed.

Lemma takes_skip i u r n :
  u <> [] -> n = Z.of_nat (length u) -> takes i (u ++ r) None (i + n) r.
Proof. intros Hu ->. exists u. by split_and!. Qed.

Lemma takes_tok1 i c s1 t t' i' r :
  push_tok t i 1 s1 = Ok (t', i', r) -> takes i (c :: s1) t' i' r.
Proof. intros [= <- <- <-]. by apply (takes_intro i [c] s1). Qed.

Lemma takes_tok2 i c x s1 t t' i' r :
  next_is x s1 = true -> push_tok t i 2 (drop 1 s1) = Ok (t', i', r) ->
  takes i (c :: s1) t' i' r.
Proof.
  intros Hn%next_is_cons [= <- <- <-]. rewrite Hn at 1.
  by apply (takes_intro i [c; x] (drop 1 s1)).
Qed.

Lemma len_app_sub (u r : bytes) :
  Z.of_nat (length (u ++ r)) - Z.of_nat (length r) = Z.of_nat (length u).
Proof. rewrite length_app. lia. Qed.

Lemma span_first p x s : p x = true -> exists a b, span p (x :: s) = (x :: a, b) /\ s = a ++ b.
Proof.
  intros Hp. pose proof (span_eq p s) as E. cbn [span]. rewrite Hp.
  destruct (span p s) as [a b]. by exists a, b.
Qed.

Lemma number_body_first c s1 :
  b_digit c || ((c =? "."%char) && next_sat b_digit s1) = true ->
  (number_body (c :: s1)).1.1 <> [].
Proof.
  intros Hc. unfold number_body. destruct (b_digit c) eqn:Ed.
  - destruct (span_first b_digit c s1 Ed) as (a & b & -> & _).
    destruct (frac_body b) as [[frac f1] s2]. by destruct (exp_body s2) as [[ex f2] r].
  - cbn [span]. rewrite Ed. apply andb_prop in Hc as [Hc _].
    unfold frac_body. cbn [next_is]. rewrite Hc.
    destruct (span b_digit (drop 1 (c :: s1))) as [fs s2]. by destruct (exp_body s2) as [[ex f2] r].
Qed.

Lemma lex_step_takes i c s1 t i' r :
  lex_step i c s1 = Ok (t, i', r) -> takes i (c :: s1) t i' r.
Proof.
  unfold lex_step.
  repeat match goal with
  | |- (if ?b then _ else _) = _ -> _ => destruct b eqn:?; [|]
  | H : _ && _ = true |- _ => apply andb_prop in H as [? ?]
  end; try discriminate; try (by apply takes_tok1); try (by eapply takes_tok2).
  - intros [= <- <- <-]. by apply (takes_skip i [c]).
  - destruct (span_first (fun b => negb (b =? 10)) c s1) as (a & b & E & ->).
    { by match goal with Hc : (c =? _) = true |- _ => apply Z.eqb_eq in Hc as -> end. }
    rewrite E. intros [= <- <- <-]. by apply (takes_skip i (c :: a)).
  - destruct (block_end _) as [r'|] eqn:E; [|done]. intros [= <- <- <-].
    apply block_end_suffix in E as [u E]. 
    match goal with Hn : next_is _ s1 = true |- _ => apply next_is_cons in Hn as -> end.
    cbn [drop] in E. rewrite E.
    change (c :: chr "*" :: u ++ r') with ((c :: chr "*" :: u) ++ r').
    apply takes_skip; [done|]. exact (len_app_sub (c :: chr "*" :: u) r').
  - destruct (string_body s1) as [[v r']|] eqn:E; [|done]. intros [= <- <- <-].
    apply (string_body_suffix (length s1)) in E as [u ->]; [|done].
    by apply (takes_intro i (c :: u)), (len_app_sub (c :: u)).
  - destruct (quoted_body s1) as [[v r']|] eqn:E; [|done]. intros [= <- <- <-].
    apply quoted_body_suffix in E as [u ->].
    by apply (takes_intro i (c :: u)), (len_app_sub (c :: u)).
  - pose proof (span_eq b_digit s1) as E. destruct (span b_digit s1) as [ds r'].
    destruct (parse_unsigned _ _); [|done]. intros [= <- <- <-]. cbn [fst snd] in E. subst s1.
    apply (takes_intro i (c :: ds)); [done|]. cbn [length]. lia.
  - pose proof (number_body_eq (c :: s1)) as E.
    match goal with Hd : b_digit c || _ = true |- _ => pose proof (number_body_first c s1 Hd) as Hne end.
    destruct (number_body (c :: s1)) as [[text fl] r']. cbn [fst snd] in *. rewrite E.
    intros [= <- <- <-]. by apply takes_intro.
  - destruct (span_first b_word c s1) as (a & b & E & ->).
    { unfold b_word. by match goal with Hw : _ || b_alpha c = true |- _ => rewrite Hw end. }
    rewrite E. intros [= <- <- <-]. by apply (takes_intro i (c :: a)).
Qed.

Lemma takes_shorter i s t i' r : takes i s t i' r -> (length r < length s)%nat.
Proof.
  intros (u & -> & Hu & _). rewrite length_app. destruct u; [done|]. cbn [length]. lia.
Qed.

Lemma lex_step_not_eof i c s1 t i' r :
  lex_step i c s1 = Ok (t, i', r) -> forall tk, t = Some tk -> fst tk <> TkEof.
Proof.
  unfold lex_step. intros E tk ->. revert E.
  repeat match goal with
  | |- (if ?b then _ else _) = _ -> _ => destruct b; [|]
  end; try discriminate; try (by intros [= <- _ _]).
  - by destruct (span _ _).
  - by destruct (block_end _).
  - destruct (string_body s1) as [[v r']|]; [|done]. by intros [= <- _ _].
  - destruct (quoted_body s1) as [[v r']|]; [|done]. by intros [= <- _ _].
  - destruct (span _ _). destruct (parse_unsigned _ _); [|done]. by intros [= <- _ _].
  - destruct (number_body _) as [[text fl] r']. intros [= <- _ _]. by destruct fl.
  - destruct (span _ _). intros [= <- _ _]. by destruct (from_word _).
Qed.

(** The tokens of a text that starts at index [i]: the end marker last, and
    before it tokens at increasing indices inside the text. *)
Definition lexed (i : Z) (s : bytes) (ts : list (Token * Z)) : Prop :=
  exists init, ts = init ++ [(TkEof, i + Z.of_nat (length s))] /\
    Forall (fun t => fst t <> TkEof /\ i <= snd t < i + Z.of_nat (length s)) init /\
    StronglySorted (fun a b => snd a < snd b) init.

Lemma lexed_step i s t i' r ts :
  takes i s t i' r -> (forall tk, t = Some tk -> fst tk <> TkEof) -> lexed i' r ts ->
  lexed i s match t with Some t => t :: ts | None => ts end.
Proof.
  intros (u & -> & Hu & -> & Hat) Heof (init & -> & Hf & Hs).
  assert (0 < Z.of_nat (length u)) by (destruct u; [done|cbn [length]; lia]).
  assert (i + Z.of_nat (length u) + Z.of_nat (length r) = i + Z.of_nat (length (u ++ r))) as El.
  { rewrite length_app. lia. }
  rewrite El in *.
  assert (Forall (fun x => fst x <> TkEof /\
    i + Z.of_nat (length u) <= snd x < i + Z.of_nat (length (u ++ r))) init) as Hf'.
  { eapply Forall_impl; [exact Hf|]. naive_solver lia. }
  destruct t as [tk|].
  - exists (tk :: init). split; [done|]. specialize (Hat tk eq_refl). split; constructor.
    + split; [by apply Heof|]. rewrite length_app in *. lia.
    + eapply Forall_impl; [exact Hf'|]. naive_solver lia.
    + done.
    + eapply Forall_impl; [exact Hf'|]. naive_solver lia.
  - exists init. split_and!; [done| |done]. eapply Forall_impl; [exact Hf'|]. naive_solver lia.
Qed.

Lemma lex_loop_spec fuel i s :
  (length s <= fuel)%nat ->
  exists r, lex_loop fuel i s = Some r /\ forall ts, r = Ok ts -> lexed i s ts.
Proof.
  revert i s; induction fuel as [|fuel IH]; intros i [|c s1] Hf; cbn [length] in Hf.
  - eexists. split; [done|]. intros ts [= <-]. exists []. split_and!; [|constructor..].
    cbn [length]. by rewrite Z.add_0_r.
  - lia.
  - eexists. split; [done|]. intros ts [= <-]. exists []. split_and!; [|constructor..].
    cbn [length]. by rewrite Z.add_0_r.
  - cbn [lex_loop]. destruct (lex_step i c s1) as [[[t i'] r]|e] eqn:E.
    + pose proof (lex_step_takes _ _ _ _ _ _ E) as Ht.
      pose proof (takes_shorter _ _ _ _ _ Ht) as Hlt. cbn [length] in Hlt.
      destruct (IH i' r) as (res & -> & Hres); [lia|]. cbn [mbind option_bind].
      eexists. split; [done|]. destruct res as [ts|e]; [|done].
      cbn [mbind result_bind]. intros ts' [= <-].
      by eapply lexed_step; [|by eapply lex_step_not_eof|apply Hres].
    + by eexists.
Qed.

Lemma lex_loop_more fuel extra i s r :
  lex_loop fuel i s = Some r -> lex_loop (fuel + extra) i s = Some r.
Proof.
  revert i s r; induction fuel as [|fuel IH]; intros i [|c s1] r; try done.
  { by destruct extra. }
  cbn [lex_loop Nat.add]. destruct (lex_step i c s1) as [[[t i'] r']|e]; [|done].
  destruct (lex_loop fuel i' r') as [out|] eqn:E; [|done]. by rewrite (IH _ _ _ E).
Qed.

(** Lexing always finishes, within one turn per byte (more turns give the
    same answer), and its tokens are laid out in the text: on success the last
    token is the end marker, at the length of the text, and before it come
    tokens other than the marker at strictly increasing byte positions inside
    the text. *)
Theorem lex_total_and_positions (sql : string) (extra : nat) :
  lex_loop (length (str_bytes sql) + extra) 0 (str_bytes sql) = Some (lex sql) /\
  forall ts, lex sql = Ok ts -> lexed 0 (str_bytes sql) ts.
Proof.
  destruct (lex_loop_spec (length (str_bytes sql)) 0 (str_bytes sql)) as (r & E & Hr); [done|].
  unfold lex. rewrite (lex_loop_more _ _ _ _ _ E), E. done.
Qed.

(** ** Spelling tokens *)

(** A text the lexer reads as the token: identifiers in double quotes, string
    literals in single quotes with inner quotes doubled. *)
Fixpoint double_quotes (s : bytes) : bytes :=
  match s with
  | [] => []
  | b :: s => if b =? "'"%char then b :: b :: double_quotes s else b :: double_quotes s
  end.

Definition keyword_word (k : Keyword) : string :=
  default EmptyString (fst <$> find (fun p => bool_decide (snd p = k)) keyword_words).

Definition spell (t : Token) : bytes :=
  match t with
  | TkIdent s => 34 :: str_bytes s ++ [34]
  | TkKeyword k => str_bytes (keyword_word k)
  | TkIntLit s | TkFloatLit s => str_bytes s
  | TkStringLit s => chr "'"%char :: double_quotes (str_bytes s) ++ [chr "'"%char]
  | TkLParen => str_bytes "(" | TkRParen => str_bytes ")" | TkComma => str_bytes ","
  | TkSemicolon => str_bytes ";" | TkStar => str_bytes "*" | TkPlus => str_bytes "+"
  | TkMinus => str_bytes "-" | TkSlash => str_bytes "/" | TkConcat => str_bytes "||"
  | TkTypeCast => str_bytes "::" | TkDot => str_bytes "." | TkEq => str_bytes "="
  | TkNe => str_bytes "<>" | TkLt => str_bytes "<" | TkLe => str_bytes "<="
  | TkGt => str_bytes ">" | TkGe => str_bytes ">="
  | TkParam n => chr "$"%char :: str_bytes (z_to_string n)
  | TkEof => []
  end.

Definition ascii_str (s : string) : bool := forallb (fun b => b <? 128) (str_bytes s).

(** The tokens that have a spelling. *)
Definition spellable (t : Token) : bool :=
  match t with
  | TkIdent s => ascii_str s && forallb (fun b => negb (b =? 34)) (str_bytes s)
  | TkIntLit s =>
      bool_decide (number_body (str_bytes s) = (str_bytes s, false, [])) &&
      next_sat b_digit (str_bytes s)
  | TkFloatLit s =>
      bool_decide (number_body (str_bytes s) = (str_bytes s, true, [])) &&
      match str_bytes s with
      | c :: s1 => b_digit c || ((c =? "."%char) && next_sat b_digit s1)
      | [] => false
      end
  | TkStringLit s => ascii_str s
  | TkParam n => bool_decide (u32_ok n)
  | TkEof => false
  | _ => true
  end.

(** Tokens as a text: each spelled and followed by a space. *)
Definition spell_all (ts : list Token) : bytes := concat (map (fun t => spell t ++ [32]) ts).

(** *** Reading each spelling back, followed by a space *)

Lemma span_sep p s r : p 32 = false -> span p (s ++ 32 :: r) = ((span p s).1, (span p s).2 ++ 32 :: r).
Proof.
  intros Hp. induction s as [|x s IH]; cbn [app span]; [by rewrite Hp|].
  destruct (p x); [|done]. rewrite IH. by destruct (span p s).
Qed.

Lemma next_is_sep b s r : b <> 32 -> next_is b (s ++ 32 :: r) = next_is b s.
Proof. intros Hb. destruct s; [|done]. cbn [app next_is]. by apply Z.eqb_neq. Qed.

Lemma next_sat_sep p s r : p 32 = false -> next_sat p (s ++ 32 :: r) = next_sat p s.
Proof. intros Hb. by destruct s. Qed.

Lemma frac_body_sep s r :
  frac_body (s ++ 32 :: r) = ((frac_body s).1, (frac_body s).2 ++ 32 :: r).
Proof.
  unfold frac_body. rewrite next_is_sep by done. destruct (next_is "."%char s) eqn:E; [|done].
  destruct s as [|x s]; [done|]. cbn [app drop]. rewrite !drop_0, span_sep by done.
  by destruct (span b_digit s).
Qed.

Lemma exp_body_sep s r :
  exp_body (s ++ 32 :: r) = ((exp_body s).1, (exp_body s).2 ++ 32 :: r).
Proof.
  unfold exp_body. rewrite !next_is_sep by done.
  destruct (next_is "e"%char s || next_is "E"%char s) eqn:E; [|done].
  destruct s as [|x s3]; [done|]. cbn [app drop take]. rewrite !drop_0, !take_0.
  rewrite !next_is_sep by done.
  destruct (next_is "+"%char s3 || next_is "-"%char s3) eqn:E3.
  - destruct s3 as [|y s4]; [done|]. cbn [app drop take]. rewrite !drop_0, !take_0.
    rewrite next_sat_sep by done. destruct (next_sat b_digit s4); [|done].
    rewrite span_sep by done. by destruct (span b_digit s4).
  - rewrite next_sat_sep by done. destruct (next_sat b_digit s3); [|done].
    rewrite span_sep by done. by destruct (span b_digit s3).
Qed.

Lemma number_body_sep s r :
  number_body (s ++ 32 :: r) = ((number_body s).1, (number_body s).2 ++ 32 :: r).
Proof.
  unfold number_body. rewrite span_sep by done. destruct (span b_digit s) as [ds s1].
  cbn [fst snd]. rewrite frac_body_sep. destruct (frac_body s1) as [[frac f1] s2].
  cbn [fst snd]. rewrite exp_body_sep. by destruct (exp_body s2) as [[ex f2] r'].
Qed.

Lemma quoted_body_back s r :
  forallb (fun b => b <? 128) s = true -> forallb (fun b => negb (b =? 34)) s = true ->
  quoted_body (s ++ 34 :: r) = Some (s, r).
Proof.
  induction s as [|b s IH]; [done|]. cbn [forallb app quoted_body].
  intros [Ha Has]%andb_prop [Hq Hqs]%andb_prop. apply negb_true_iff in Hq.
  rewrite Hq, IH by done. cbn [mbind option_bind]. unfold push_byte. by rewrite Ha.
Qed.

Lemma string_body_back s r :
  forallb (fun b => b <? 128) s = true ->
  string_body (double_quotes s ++ chr "'"%char :: 32 :: r) = Some (s, 32 :: r).
Proof.
  induction s as [|b s IH]; [done|]. cbn [forallb]. intros [Ha Has]%andb_prop.
  cbn [double_quotes]. destruct (b =? "'"%char) eqn:Eb.
  - cbn [app string_body]. rewrite Eb, IH by done. cbn [mbind option_bind].
    by apply Z.eqb_eq in Eb as ->.
  - cbn [app string_body]. rewrite Eb, IH by done. cbn [mbind option_bind].
    unfold push_byte. by rewrite Ha.
Qed.

Lemma span_all p s r : forallb p s = true -> p 32 = false -> span p (s ++ 32 :: r) = (s, 32 :: r).
Proof.
  intros Hs Hp. induction s as [|x s IH]; cbn [app span]; [by rewrite Hp|].
  cbn [forallb] in Hs. apply andb_prop in Hs as [-> Hs]. by rewrite IH.
Qed.

Lemma digits_ok_bytes s : forallb b_digit (str_bytes s) = digits_ok s.
Proof. induction s as [|c s IH]; [done|]. cbn [str_bytes forallb digits_ok]. by rewrite IH. Qed.

Lemma b_digit_cases c : b_digit c = true -> c ∈ [48; 49; 50; 51; 52; 53; 54; 55; 56; 57].
Proof.
  unfold b_digit, in_range. intros [H1%Z.leb_le H2%Z.leb_le]%andb_prop.
  rewrite !elem_of_cons. lia.
Qed.

(** At a byte that starts a number, the number arm is taken. *)
Lemma lex_step_number i c s1 :
  b_digit c || ((c =? "."%char) && next_sat b_digit s1) = true ->
  lex_step i c s1 =
    let '(text, is_float, r) := number_body (c :: s1) in
    push_tok ((if is_float : bool then TkFloatLit else TkIntLit) (str_of_bytes text)) i
      (Z.of_nat (length text)) r.
Proof.
  intros Hc. destruct (b_digit c) eqn:Ed.
  - apply b_digit_cases in Ed. repeat (apply elem_of_cons in Ed as [->|Ed]; [done|]).
    by apply not_elem_of_nil in Ed.
  - cbn [orb] in Hc. pose proof Hc as [Hd _]%andb_prop. apply Z.eqb_eq in Hd as ->.
    unfold lex_step. rewrite Hc. done.
Qed.

Lemma keyword_word_bytes k :
  forallb b_word (str_bytes (keyword_word k)) = true /\
  from_word (to_ascii_lowercase (keyword_word k)) = Some k /\
  exists c s1, str_bytes (keyword_word k) = c :: s1 /\ in_range 97 122 c = true.
Proof. destruct k; (split_and!; [reflexivity|reflexivity|eexists _, _; split; reflexivity]). Qed.

Lemma lex_step_word i c s1 :
  in_range 97 122 c = true ->
  lex_step i c s1 =
    let '(w, r) := span b_word (c :: s1) in
    let word := to_ascii_lowercase (str_of_bytes w) in
    push_tok match from_word word with Some kw => TkKeyword kw | None => TkIdent word end
      i (Z.of_nat (length w)) r.
Proof.
  intros [H1%Z.leb_le H2%Z.leb_le]%andb_prop.
  assert (c ∈ map Z.of_nat (seq 97 26)) as Hc.
  { apply list_elem_of_fmap. exists (Z.to_nat c). split; [lia|]. apply elem_of_seq. lia. }
  cbn [seq map] in Hc. repeat (apply elem_of_cons in Hc as [->|Hc]; [reflexivity|]).
  by apply not_elem_of_nil in Hc.
Qed.

Lemma parse_unsigned_digits max n :
  0 <= n <= max -> parse_unsigned max (z_to_string n) = Some n.
Proof.
  intros Hn. unfold z_to_string. rewrite (proj2 (Z.ltb_ge n 0)) by lia.
  pose proof (dec_string_digits n ltac:(lia)) as Hd. pose proof (dec_string_val n ltac:(lia)) as Hv.
  pose proof (dec_string_nonempty n) as Hne. unfold parse_unsigned.
  destruct (dec_string n) as [|a s] eqn:E; [done|].
  assert (a <> "+"%char) as Ha.
  { intros ->. by cbn in Hd. }
  assert (match String a s with String "+" s' => s' | _ => String a s end = String a s) as ->.
  { destruct a as [[] [] [] [] [] [] [] []]; try done. }
  rewrite Hd, Hv. by rewrite (proj2 (Z.leb_le _ _)) by lia.
Qed.

Lemma lex_step_param i s1 :
  next_sat b_digit s1 = true ->
  lex_step i (chr "$") s1 =
    let '(ds, r) := span b_digit s1 in
    match parse_unsigned 4294967295 (str_of_bytes ds) with
    | None => Err (parse_error_new "parameter number out of range" i)
    | Some n => push_tok (TkParam n) i (1 + Z.of_nat (length ds)) r
    end.
Proof. intros Hn. unfold lex_step. rewrite Hn. done. Qed.

Lemma lex_step_quoted i s1 :
  lex_step i 34 s1 =
    match quoted_body s1 with
    | None => Err (parse_error_new "unterminated quoted identifier" i)
    | Some (v, r) => push_tok (TkIdent (str_of_bytes v)) i
        (Z.of_nat (length (34 :: s1)) - Z.of_nat (length r)) r
    end.
Proof. done. Qed.

Lemma lex_step_string i s1 :
  lex_step i (chr "'") s1 =
    match string_body s1 with
    | None => Err (parse_error_new "unterminated string literal" i)
    | Some (v, r) => push_tok (TkStringLit (str_of_bytes v)) i
        (Z.of_nat (length (chr "'" :: s1)) - Z.of_nat (length r)) r
    end.
Proof. done. Qed.

(** A non-negative integer's digits. *)
Lemma z_to_string_digits n :
  0 <= n -> forallb b_digit (str_bytes (z_to_string n)) = true /\
    next_sat b_digit (str_bytes (z_to_string n)) = true.
Proof.
  intros Hn. unfold z_to_string. rewrite (proj2 (Z.ltb_ge n 0)) by lia.
  assert (forallb b_digit (str_bytes (dec_string n)) = true) as Hd.
  { rewrite digits_ok_bytes. by apply dec_string_digits. }
  split; [done|]. pose proof (dec_string_nonempty n). destruct (dec_string n) as [|a s]; [done|].
  cbn [str_bytes forallb next_sat] in *. by apply andb_prop in Hd as [-> _].
Qed.

(** A spellable token is read back from its spelling, up to the space. *)
Definition reads (i : Z) (t : Token) (r : bytes) : Prop :=
  exists c s1, spell t ++ 32 :: r = c :: s1 /\
    lex_step i c s1 = Ok (Some (t, i), i + Z.of_nat (length (spell t)), 32 :: r).

Lemma reads_ident i s r : spellable (TkIdent s) = true -> reads i (TkIdent s) r.
Proof.
  intros [Ha Hq]%andb_prop. exists 34, (str_bytes s ++ 34 :: 32 :: r).
  split; [cbn [spell app]; by rewrite <- app_assoc|].
  rewrite lex_step_quoted, quoted_body_back, str_of_str_bytes by done.
  unfold push_tok. cbn [spell]. do 3 f_equal.
  rewrite ?length_cons, ?length_app. cbn [length]. lia.
Qed.

Lemma reads_string i s r : spellable (TkStringLit s) = true -> reads i (TkStringLit s) r.
Proof.
  intros Ha. exists (chr "'"), (double_quotes (str_bytes s) ++ chr "'" :: 32 :: r).
  split; [cbn [spell app]; by rewrite <- app_assoc|].
  rewrite lex_step_string, string_body_back, str_of_str_bytes by done.
  unfold push_tok. cbn [spell]. do 3 f_equal.
  rewrite ?length_cons, ?length_app. cbn [length]. lia.
Qed.

Lemma reads_keyword i k r : reads i (TkKeyword k) r.
Proof.
  destruct (keyword_word_bytes k) as (Hw & Hk & c & s1 & E & Hc).
  exists c, (s1 ++ 32 :: r). cbn [spell]. split; [by rewrite E|].
  rewrite lex_step_word, app_comm_cons, <- E, span_all by done.
  rewrite str_of_str_bytes. cbv zeta. by rewrite Hk.
Qed.

Lemma reads_number i (fl : bool) s r :
  spellable (if fl then TkFloatLit s else TkIntLit s) = true ->
  reads i (if fl then TkFloatLit s else TkIntLit s) r.
Proof.
  intros Ht. unfold reads.
  assert (number_body (str_bytes s) = (str_bytes s, fl, []) /\
    match str_bytes s with
    | c :: s1 => b_digit c || ((c =? "."%char) && next_sat b_digit s1)
    | [] => false
    end = true) as [Hn Hd].
  { destruct fl; cbn [spellable] in Ht; apply andb_prop in Ht as [Hn%bool_decide_eq_true Hd];
      (split; [done|]); [done|].
    destruct (str_bytes s); [done|]. cbn [next_sat] in Hd. by rewrite Hd. }
  assert (spell (if fl then TkFloatLit s else TkIntLit s) = str_bytes s) as -> by by destruct fl.
  destruct (str_bytes s) as [|c s1] eqn:E; [done|]. exists c, (s1 ++ 32 :: r). split; [done|].
  rewrite lex_step_number by (rewrite next_sat_sep; done).
  rewrite app_comm_cons, number_body_sep, Hn.
  cbn [fst snd app]. rewrite <- E, str_of_str_bytes. by destruct fl.
Qed.

Lemma reads_param i n r : u32_ok n -> reads i (TkParam n) r.
Proof.
  intros Hn. destruct (z_to_string_digits n) as [Hd Hs]; [width_lia|].
  exists (chr "$"), (str_bytes (z_to_string n) ++ 32 :: r). split; [done|].
  rewrite lex_step_param by (by rewrite next_sat_sep).
  rewrite span_all by done. rewrite str_of_str_bytes, parse_unsigned_digits by width_lia.
  unfold push_tok. cbn [spell]. do 3 f_equal. rewrite length_cons. lia.
Qed.

Lemma lex_step_spell i t r : spellable t = true -> reads i t r.
Proof.
  intros Ht. destruct t; try discriminate Ht; try (by eexists _, _).
  - by apply reads_ident.
  - by apply reads_keyword.
  - by apply (reads_number i false).
  - by apply (reads_number i true).
  - by apply reads_string.
  - apply reads_param. by apply bool_decide_eq_true in Ht.
Qed.

Lemma lex_loop_spell ts i :
  forallb spellable ts = true ->
  exists fuel out, lex_loop fuel i (spell_all ts) = Some (Ok out) /\ map fst out = ts ++ [TkEof].
Proof.
  revert i; induction ts as [|t ts IH]; intros i.
  - intros _. by exists 0%nat, [(TkEof, i)].
  - intros [Ht Hts]%andb_prop.
    destruct (lex_step_spell i t (spell_all ts) Ht) as (c & s1 & E & Es).
    destruct (IH (i + Z.of_nat (length (spell t)) + 1) Hts) as (fuel & out & Eo & Em).
    exists (S (S fuel)), ((t, i) :: out). split; [|cbn [map fst app]; by rewrite Em].
    unfold spell_all. cbn [map concat]. rewrite <- app_assoc. cbn [app]. fold (spell_all ts).
    rewrite E. cbn [lex_loop]. rewrite Es. cbn [lex_loop].
    change (lex_step ?j 32 ?q) with (Ok (A := option (Token * Z) * Z * bytes) (E := ParseError) (None, j + 1, q)).
    cbn [lex_loop]. rewrite Eo. done.
Qed.

Lemma double_quotes_ok s : bytes_ok s -> bytes_ok (double_quotes s).
Proof.
  induction 1 as [|b s Hb Hs IH]; [constructor|]. cbn [double_quotes].
  destruct (_ =? _); [apply Forall_cons_2; [done|]|]; by apply Forall_cons_2.
Qed.

Lemma byte_ok_1 b : u8_ok b -> bytes_ok [b].
Proof. intros Hb. by apply Forall_cons_2. Qed.

Lemma chr_ok c : u8_ok (chr c).
Proof. apply byte_of_ascii_ok. Qed.

Lemma quoted_ok b s : u8_ok b -> bytes_ok s -> bytes_ok (b :: s ++ [b]).
Proof.
  intros Hb Hs. apply Forall_cons_2; [done|]. apply bytes_ok_app. by auto using byte_ok_1.
Qed.

Lemma spell_ok t : bytes_ok (spell t).
Proof.
  destruct t; cbn [spell]; try apply str_bytes_ok.
  - apply quoted_ok; [done|apply str_bytes_ok].
  - apply quoted_ok; [apply chr_ok|]. apply double_quotes_ok, str_bytes_ok.
  - apply Forall_cons_2; [apply chr_ok|apply str_bytes_ok].
  - constructor.
Qed.

Lemma spell_all_ok ts : bytes_ok (spell_all ts).
Proof.
  induction ts as [|t ts IH]; [constructor|]. unfold spell_all. cbn [map concat].
  rewrite !bytes_ok_app. split; [|exact IH]. split; [apply spell_ok|by apply byte_ok_1].
Qed.

(** Every token has a spelling: any sequence of tokens (identifiers and
    strings in ASCII, an identifier without a double quote, numbers of their
    form, parameters in range) written out one after the other, each followed
    by a space, lexes back to exactly that sequence and the end marker. *)
Theorem lex_spells_back (ts : list Token) :
  forallb spellable ts = true ->
  exists out, lex (str_of_bytes (spell_all ts)) = Ok out /\ map fst out = ts ++ [TkEof].
Proof.
  intros Hts. destruct (lex_loop_spell ts 0 Hts) as (fuel & out & E & Em).
  exists out. split; [|done]. unfold lex. rewrite str_bytes_str_of by apply spell_all_ok.
  destruct (lex_loop_spec (length (spell_all ts)) 0 (spell_all ts)) as (r & Er & _); [done|].
  apply (lex_loop_more _ (length (spell_all ts))) in E.
  apply (lex_loop_more _ fuel) in Er as Er'. rewrite Nat.add_comm, E in Er'. rewrite Er.
  congruence.
Qed.

(** ** Text outside ASCII *)

(** What a text becomes when each of its bytes is taken for a code point. *)
Definition recode (s : bytes) : bytes := concat (map push_byte s).

Lemma string_body_recode s :
  forallb (fun b => negb (b =? "'"%char)) s = true ->
  string_body (s ++ [chr "'"%char]) = Some (recode s, []).
Proof.
  induction s as [|b s IH]; [done|]. cbn [forallb app string_body].
  intros [Hq Hqs]%andb_prop. apply negb_true_iff in Hq. by rewrite Hq, IH.
Qed.

Lemma recode_length s : (length s <= length (recode s))%nat.
Proof.
  induction s as [|b s IH]; [done|]. unfold recode. cbn [map concat]. rewrite length_app.
  fold (recode s). unfold push_byte. destruct (b <? 128); cbn [length]; lia.
Qed.

Lemma recode_same s : recode s = s <-> forallb (fun b => b <? 128) s = true.
Proof.
  induction s as [|b s IH]; [done|]. unfold recode in *. cbn [map concat forallb].
  unfold push_byte at 1. destruct (b <? 128); cbn [app andb].
  - rewrite <- IH. split; [by intros [=]|by intros ->].
  - split; [|done]. intros E%(f_equal length). pose proof (recode_length s).
    unfold recode in *. cbn [length] in E. lia.
Qed.

Lemma recode_ok s : bytes_ok s -> bytes_ok (recode s).
Proof.
  induction 1 as [|b s Hb Hs IH]; [constructor|]. unfold recode. cbn [map concat].
  rewrite bytes_ok_app. split; [|exact IH]. unfold push_byte.
  destruct (Z.ltb_spec b 128); repeat constructor; unfold u8_ok in *; try lia.
  - pose proof (Z.div_pos b 64). lia.
  - pose proof (Z.div_le_upper_bound b 64 4). lia.
  - pose proof (Z.mod_pos_bound b 64). lia.
  - pose proof (Z.mod_pos_bound b 64). lia.
Qed.

(** The value of a string literal is its text exactly when the text is
    ASCII. The lexer takes each byte between the quotes for a code point of its
    own, so a text with any non-ASCII character is read as a different string:
    the UTF-8 encoding of its bytes read as Latin-1. *)
Theorem string_literal_value (s : string) :
  forallb (fun b => negb (b =? "'"%char)) (str_bytes s) = true ->
  lex (str_of_bytes (chr "'"%char :: str_bytes s ++ [chr "'"%char])) =
    Ok [(TkStringLit (str_of_bytes (recode (str_bytes s))), 0);
        (TkEof, 2 + Z.of_nat (length (str_bytes s)))] /\
  (str_of_bytes (recode (str_bytes s)) = s <-> ascii_str s = true).
Proof.
  intros Hq. split.
  - unfold lex. rewrite str_bytes_str_of.
    2: { apply quoted_ok; [apply chr_ok|apply str_bytes_ok]. }
    cbn [length lex_loop]. rewrite lex_step_string, string_body_recode by done.
    unfold push_tok. rewrite length_app. cbn [length Nat.add lex_loop mbind option_bind result_bind].
    replace (0 + _) with (2 + Z.of_nat (length (str_bytes s))).
    2: { rewrite ?length_cons, ?length_app. cbn [length]. lia. }
    by destruct (_ + _)%nat.
  - unfold ascii_str. rewrite <- recode_same. split.
    + intros E%(f_equal str_bytes). by rewrite str_bytes_str_of in E by apply recode_ok, str_bytes_ok.
    + intros ->. apply str_of_str_bytes.
Qed.

End Lexer.

(** ** Witnesses *)

(** The two bytes of an accented letter come out as four. *)
Lemma string_literal_value_witness :
  let s := str_of_bytes [195; 169] in
  lex (H := model_ext) (str_of_bytes (chr "'"%char :: str_bytes s ++ [chr "'"%char])) =
    Ok [(TkStringLit (str_of_bytes [195; 131; 194; 169]), 0); (TkEof, 4)] /\
  (str_of_bytes [195; 131; 194; 169] = s <-> ascii_str s = true).
Proof.
  apply (string_literal_value (H := model_ext) (str_of_bytes [195; 169])). reflexivity.
Defined.
