(* ===== verification/Ast.v ===== *)
(** * The syntax tree (pgparser/src/ast.rs)

    Expressions and queries refer to each other (subqueries are expressions,
    queries hold expressions), so they are one mutual definition; Rust's structs
    appear in it as constructors with the fields in order. The only values from
    outside the parser are the constants the executor folds subqueries into. *)
From Stdlib Require Import ZArith Lia.
From stdpp Require Import base list gmap strings.
From S2P Require Import Prelude Keys Store Datum Errors.
Open Scope Z_scope.

(** [pgparser/src/ast.rs:415-418] UnaryOp *)
Inductive UnaryOp : Type := UNot | UNeg.

(** [pgparser/src/ast.rs:421-436] BinaryOp *)
Inductive BinaryOp : Type :=
| OpAdd | OpSub | OpMul | OpDiv | OpConcat | OpEq | OpNe | OpLt | OpLe | OpGt | OpGe
| OpAnd | OpOr.

#[export] Instance BinaryOp_eq_dec : EqDecision BinaryOp.
Proof. solve_decision. Defined.

(** [pgparser/src/ast.rs:275-281] JoinKind *)
Inductive JoinKind : Type := JInner | JLeft | JRight | JFull | JCross.

#[export] Instance JoinKind_eq_dec : EqDecision JoinKind.
Proof. solve_decision. Defined.

(** [pgparser/src/ast.rs:151-154] RowLockStrength *)
Inductive RowLockStrength : Type := ForUpdate | ForShare.

(** [pgparser/src/ast.rs:139-142] IsolationLevel *)
Inductive IsolationLevel : Type := ReadCommitted | RepeatableRead.

#[export] Instance IsolationLevel_eq_dec : EqDecision IsolationLevel.
Proof. solve_decision. Defined.

(** [pgparser/src/ast.rs:132-135] SetValue *)
Inductive SetValue : Type := SetDefault | SetVal (v : string).

(** [pgparser/src/ast.rs:115-115] OptionList *)
Definition OptionList : Type := list (string * string).

(** [pgparser/src/ast.rs:119-126] ImportSelector *)
Inductive ImportSelector : Type :=
| ImportAll
| LimitTo (tables : list string)
| ImportExcept (tables : list string).

(** [pgparser/src/ast.rs:145-148] ColumnDef *)
Record ColumnDef : Type := mkColumnDef { cd_name : string; cd_ty : ColumnType }.

Section Ast.
Context `{Ext}.

(** [pgparser/src/ast.rs:298-395] Expr, and with it the queries *)
Inductive Expr : Type :=
| IntLiteral (s : string)
| NumericLiteral (s : string)
| StringLiteral (s : string)
| BoolLiteral (b : bool)
| NullLiteral
| ColumnRef (table : option string) (name : string)
| ParamRef (n : Z)
| Unary (op : UnaryOp) (expr : Expr)
| Binary (op : BinaryOp) (left right : Expr)
| Func (name : string) (distinct : bool) (args : FuncArgs)
| IsNull (expr : Expr) (negated : bool)
| InList (expr : Expr) (l : list Expr) (negated : bool)
| Between (expr low high : Expr) (negated : bool)
| Like (expr pattern : Expr) (negated case_insensitive : bool)
| Case (operand : option Expr) (whens : list (Expr * Expr)) (else_result : option Expr)
| Cast (expr : Expr) (ty : ColumnType)
| ScalarSubquery (q : QueryExpr)
| ExistsQuery (q : QueryExpr)
| InSubquery (expr : Expr) (subquery : QueryExpr) (negated : bool)
| Quantified (expr : Expr) (op : BinaryOp) (all : bool) (subquery : QueryExpr)
| Const (value : Datum) (ty : ColumnType)
(** [pgparser/src/ast.rs:409-412] FuncArgs *)
with FuncArgs : Type :=
| ArgStar
| ArgExprs (l : list Expr)
(** [pgparser/src/ast.rs:181-188] QueryExpr *)
with QueryExpr : Type :=
| mkQueryExpr (with_ : option WithClause) (body : SetExpr) (order_by : list OrderItem)
    (limit offset : option Z) (locking : option RowLockStrength)
(** [pgparser/src/ast.rs:198-201] WithClause *)
with WithClause : Type :=
| mkWithClause (recursive : bool) (ctes : list Cte)
(** [pgparser/src/ast.rs:204-208] Cte *)
with Cte : Type :=
| mkCte (name : string) (columns : option (list string)) (query : QueryExpr)
(** [pgparser/src/ast.rs:212-216] QueryBody *)
with QueryBody : Type :=
| BodySelect (s : SelectStmt)
| BodyValues (rows : list (list Expr))
| BodyNested (q : QueryExpr)
(** [pgparser/src/ast.rs:222-232] SetExpr *)
with SetExpr : Type :=
| SetQuery (b : QueryBody)
| SetOperation (op : SetOp) (all : bool) (left right : SetExpr)
(** [pgparser/src/ast.rs:157-175] SelectStmt *)
with SelectStmt : Type :=
| mkSelectStmt (projection : list SelectItem) (from : list TableExpr) (filter : option Expr)
    (distinct : bool) (group_by : list Expr) (having : option Expr)
    (order_by : list OrderItem) (limit offset : option Z) (locking : option RowLockStrength)
(** [pgparser/src/ast.rs:242-250] SelectItem *)
with SelectItem : Type :=
| Wildcard
| QualifiedWildcard (t : string)
| ItemExpr (expr : Expr) (alias : option string)
(** [pgparser/src/ast.rs:256-272] TableExpr *)
with TableExpr : Type :=
| TableRef (name : string) (alias : option string)
| Derived (subquery : QueryExpr) (alias : string) (columns : option (list string))
| Join (left right : TableExpr) (kind : JoinKind) (constraint : JoinConstraint)
(** [pgparser/src/ast.rs:284-289] JoinConstraint *)
with JoinConstraint : Type :=
| JoinOn (e : Expr)
| JoinUsing (cols : list string)
| JoinNatural
| JoinNone
(** [pgparser/src/ast.rs:292-295] OrderItem *)
with OrderItem : Type :=
| mkOrderItem (expr : Expr) (asc : bool).

(** [pgparser/src/ast.rs:6-112] Statement *)
Inductive Statement : Type :=
| CreateTable (name : string) (columns : list ColumnDef)
| DropTable (name : string)
| Insert (table : string) (columns : option (list string)) (rows : list (list Expr))
| Query (q : QueryExpr)
| Begin (isolation : option IsolationLevel)
| Commit
| Rollback
| Update (table : string) (assignments : list (string * Expr)) (filter : option Expr)
| DeleteFrom (table : string) (filter : option Expr)
| SetStmt (local : bool) (name : string) (value : SetValue)
| ShowStmt (name : string)
| ResetStmt (name : string)
| CreateFdw (name : string) (options : OptionList)
| DropFdw (name : string) (if_exists : bool)
| CreateServer (name wrapper : string) (options : OptionList)
| AlterServer (name : string) (options : OptionList)
| DropServer (name : string) (if_exists : bool)
| CreateUserMapping (user server : string) (options : OptionList)
| AlterUserMapping (user server : string) (options : OptionList)
| DropUserMapping (user server : string) (if_exists : bool)
| CreateForeignTable (name : string) (columns : list ColumnDef) (server : string)
    (options : OptionList)
| DropForeignTable (name : string) (if_exists : bool)
| ImportForeignSchema (remote_schema : string) (selector : ImportSelector)
    (server into_schema : string).

(** The fields of a query expression. *)
Definition q_with (q : QueryExpr) : option WithClause := let '(mkQueryExpr w _ _ _ _ _) := q in w.
Definition q_body (q : QueryExpr) : SetExpr := let '(mkQueryExpr _ b _ _ _ _) := q in b.
Definition q_order_by (q : QueryExpr) : list OrderItem :=
  let '(mkQueryExpr _ _ o _ _ _) := q in o.
Definition q_limit (q : QueryExpr) : option Z := let '(mkQueryExpr _ _ _ l _ _) := q in l.
Definition q_offset (q : QueryExpr) : option Z := let '(mkQueryExpr _ _ _ _ o _) := q in o.
Definition q_locking (q : QueryExpr) : option RowLockStrength :=
  let '(mkQueryExpr _ _ _ _ _ l) := q in l.

(** [q.with = with] *)
Definition set_with (w : option WithClause) (q : QueryExpr) : QueryExpr :=
  let '(mkQueryExpr _ b o l f k) := q in mkQueryExpr w b o l f k.

(** [s.order_by = ..; s.limit = ..; s.offset = ..] *)
Definition set_tail (o : list OrderItem) (l f : option Z) (s : SelectStmt) : SelectStmt :=
  let '(mkSelectStmt p fr fi d g h _ _ _ k) := s in mkSelectStmt p fr fi d g h o l f k.

End Ast.
