(* ===== verification/EvalOps.v ===== *)
(** * Evaluation combinators (executor/src/eval.rs, executor/src/clock.rs)

    The parts of expression evaluation that work on values: operators, IN,
    BETWEEN, LIKE, CASE. Where the source takes a closure that evaluates a child
    expression, so do the definitions here. *)
From Stdlib Require Import ZArith Lia.
From stdpp Require Import base list gmap strings.
From S2P Require Import Prelude Text Keys Store Datum DateTimeBin ExtArith DateTime Ops Errors Ast.
Open Scope Z_scope.

(** An outcome of evaluation: a value, an error, or a panic. *)
Abbreviation xresult := (result (fault ExecError)).
Definition raise {A} (e : ExecError) : xresult A := Err (Raised e).

(** [?] on the results of the type layer. *)
Definition ty {A} (r : result TypeError A) : xresult A := map_err (fun e => Raised (EType e)) r.
Definition tyf {A} (r : result (fault TypeError) A) : xresult A := map_fault EType r.

(** ** The LIKE matcher *)

(** The characters of a pattern that the matcher treats specially. *)
Definition C_BACKSLASH : Z := 92.
Definition C_PERCENT : Z := 37.
Definition C_UNDERSCORE : Z := 95.

Definition invalid_escape : ExecError := EType InvalidEscape.

(** The end of [like_match], when the subject is used up: only [%] may remain. *)
Fixpoint like_tail (pb : list Z) : result ExecError bool :=
  match pb with
  | [] => Ok true
  | c :: t =>
      if c =? C_PERCENT then like_tail t
      else if c =? C_BACKSLASH then
        match t with [] => Err invalid_escape | _ => Ok false end
      else Ok false
  end.

(** The state of the loop: the rest of the subject and of the pattern, and the
    last [%]: the pattern behind it and the subject to resume from. *)
Record LikeState : Type := mkLike {
  l_s : list Z;
  l_p : list Z;
  l_star : option (list Z * list Z)
}.

(** One turn that does not match: back to the last [%], one character further. *)
Definition like_backtrack (st : LikeState) : option LikeState :=
  match l_star st with
  | Some (sp, star_s) => Some (mkLike (tail star_s) sp (Some (sp, tail star_s)))
  | None => None
  end.

(** [executor/src/eval.rs:254-296] like_match, one turn of the loop: an error, the
    answer, or the next state *)
Definition like_step (fold : Z -> Z) (st : LikeState) : result ExecError (bool + LikeState) :=
  let backtrack :=
    match like_backtrack st with Some st => inr st | None => inl false end in
  match l_s st, l_p st with
  | c :: s, p :: pt =>
      if p =? C_BACKSLASH then
        match pt with
        | [] => Err invalid_escape
        | lit :: pt => Ok (if c =? fold lit then inr (mkLike s pt (l_star st)) else backtrack)
        end
      else if p =? C_PERCENT then Ok (inr (mkLike (c :: s) pt (Some (pt, c :: s))))
      else if p =? C_UNDERSCORE then Ok (inr (mkLike s pt (l_star st)))
      else Ok (if c =? fold p then inr (mkLike s pt (l_star st)) else backtrack)
  | _, _ => Ok backtrack
  end.

Fixpoint like_loop (fuel : nat) (fold : Z -> Z) (st : LikeState) : result ExecError bool :=
  match l_s st with
  | [] => like_tail (l_p st)
  | _ =>
      match fuel with
      | O => Ok false
      | S fuel =>
          r ← like_step fold st;
          match r with
          | inl b => Ok b
          | inr st => like_loop fuel fold st
          end
      end
  end.

(** Turns enough: every backtrack takes a character of the subject, and between
    two of them every turn takes one of the pattern. *)
Definition like_fuel (s p : list Z) : nat := S (length s) * S (length p).

(** [executor/src/eval.rs:245-311] like_match *)
Definition like_match (s p : string) (ci : bool) : result ExecError bool :=
  let fold := if ci then char_lower else id in
  let sb := map fold (chars s) in
  let pb := chars p in
  like_loop (like_fuel sb pb) fold (mkLike sb pb None).

Section EvalOps.
Context `{ExtArith}.

(** [executor/src/clock.rs:36-41] EvalCtx; the clock by its reading *)
Record EvalCtx : Type := mkCtx {
  cx_now : Timestamp;
  cx_stmt_now : Timestamp;
  cx_time_zone : TimeZone;
  cx_clock : Timestamp
}.

(** ** Operators *)

(** [executor/src/eval.rs:448-465] cmp_result, on the comparison operators *)
Definition cmp_result (op : BinaryOp) (ord : option comparison) : Datum :=
  match ord with
  | None => DNull
  | Some o =>
      DBool match op with
            | OpEq => bool_decide (o = Eq)
            | OpNe => negb (bool_decide (o = Eq))
            | OpLt => bool_decide (o = Lt)
            | OpLe => negb (bool_decide (o = Gt))
            | OpGt => bool_decide (o = Gt)
            | _ => negb (bool_decide (o = Lt))
            end
  end.

Definition is_timestamptz (d : Datum) : bool := match d with DTimestamptz _ => true | _ => false end.

(** [executor/src/eval.rs:410-446] apply_timestamptz_arith *)
Definition apply_timestamptz_arith (op : BinaryOp) (l r : Datum) (ctx : EvalCtx)
  : xresult (option Datum) :=
  if negb (is_timestamptz l) && negb (is_timestamptz r) then Ok None
  else if is_null l || is_null r then Ok (Some DNull)
  else
    let plus ts iv :=
      (Some ∘ DTimestamptz) <$> tyf (timestamptz_plus_interval ts iv (cx_time_zone ctx)) in
    match op, l, r with
    | OpAdd, DTimestamptz ts, DInterval iv | OpAdd, DInterval iv, DTimestamptz ts => plus ts iv
    | OpSub, DTimestamptz ts, DInterval iv => neg ← ty (neg_interval iv); plus ts neg
    | OpSub, DTimestamptz a, DTimestamptz b => Ok (Some (DInterval (timestamptz_diff a b)))
    | _, _, _ => Ok None
    end.

(** [executor/src/eval.rs:372-400] apply_binary *)
Definition apply_binary (op : BinaryOp) (l r : Datum) (ctx : EvalCtx) : xresult Datum :=
  early ← (if bool_decide (op = OpAdd \/ op = OpSub) then apply_timestamptz_arith op l r ctx
           else Ok None);
  match early with
  | Some result => Ok result
  | None =>
      match op with
      | OpAdd => tyf (add l r)
      | OpSub => tyf (sub l r)
      | OpMul => ty (mul l r)
      | OpDiv => ty (div l r)
      | OpAnd => ty (and_op l r)
      | OpOr => ty (or_op l r)
      | OpConcat => tyf (concat_op l r (cx_time_zone ctx))
      | _ => cmp_result op <$> ty (compare l r)
      end
  end.

(** [executor/src/eval.rs:357-367] apply_unary *)
Definition apply_unary (op : UnaryOp) (v : Datum) (ctx : EvalCtx) : xresult Datum :=
  match op with
  | UNot => ty (not_op v)
  | UNeg => match v with
            | DInterval i => DInterval <$> ty (neg_interval i)
            | _ => tyf (sub (DInt4 0) v)
            end
  end.

(** ** Predicates *)

(** The loop of [eval_in_list], in whose course a NULL comparison was seen. *)
Fixpoint in_list_loop (x : Datum) (l : list Expr) (negated : bool) (eval_child : Expr -> xresult Datum)
    (saw_null : bool) : xresult Datum :=
  match l with
  | [] => Ok (if saw_null then DNull else DBool negated)
  | item :: l =>
      v ← eval_child item;
      c ← ty (compare x v);
      match c with
      | Some Eq => Ok (DBool (negb negated))
      | Some _ => in_list_loop x l negated eval_child saw_null
      | None => in_list_loop x l negated eval_child true
      end
  end.

(** [executor/src/eval.rs:176-199] eval_in_list *)
Definition eval_in_list (x : Datum) (l : list Expr) (negated : bool)
    (eval_child : Expr -> xresult Datum) : xresult Datum :=
  if is_null x then Ok DNull else in_list_loop x l negated eval_child false.

(** [executor/src/eval.rs:203-214] eval_between *)
Definition eval_between (x lo hi : Datum) (negated : bool) (ctx : EvalCtx) : xresult Datum :=
  ge ← apply_binary OpGe x lo ctx;
  le ← apply_binary OpLe x hi ctx;
  res ← ty (and_op ge le);
  if negated then ty (not_op res) else Ok res.

(** [executor/src/eval.rs:231-238] as_text *)
Definition as_text (d : Datum) : result ExecError string :=
  match d with
  | DText s => Ok s
  | _ => Err (ETypeMismatch "LIKE/ILIKE operands must be type text")
  end.

(** [executor/src/eval.rs:218-229] eval_like *)
Definition eval_like (s pat : Datum) (negated case_insensitive : bool) : xresult Datum :=
  if is_null s || is_null pat then Ok DNull
  else
    s ← lift (as_text s);
    p ← lift (as_text pat);
    m ← lift (like_match s p case_insensitive);
    Ok (DBool (xorb m negated)).

(** The loops of [eval_case]: the result to evaluate, if a branch is taken. *)
Fixpoint searched_case (whens : list (Expr * Expr)) (eval_child : Expr -> xresult Datum)
  : xresult (option Expr) :=
  match whens with
  | [] => Ok None
  | (cond, result) :: whens =>
      c ← eval_child cond;
      match c with
      | DBool true => Ok (Some result)
      | DBool false | DNull => searched_case whens eval_child
      | _ => raise (ETypeMismatch "argument of CASE/WHEN must be type boolean")
      end
  end.

Fixpoint simple_case (ov : Datum) (whens : list (Expr * Expr)) (eval_child : Expr -> xresult Datum)
  : xresult (option Expr) :=
  match whens with
  | [] => Ok None
  | (val, result) :: whens =>
      vv ← eval_child val;
      c ← ty (compare ov vv);
      if bool_decide (c = Some Eq) then Ok (Some result) else simple_case ov whens eval_child
  end.

(** [executor/src/eval.rs:318-352] eval_case *)
Definition eval_case (operand : option Expr) (whens : list (Expr * Expr)) (else_result : option Expr)
    (eval_child : Expr -> xresult Datum) : xresult Datum :=
  taken ←
    match operand with
    | None => searched_case whens eval_child
    | Some op => ov ← eval_child op; simple_case ov whens eval_child
    end;
  match taken with
  | Some result => eval_child result
  | None => match else_result with Some e => eval_child e | None => Ok DNull end
  end.

End EvalOps.
