(* ===== verification/Like.v ===== *)
(** * LIKE (executor/src/eval.rs)

    The iterative matcher with one backtrack point decides the relation that the
    pattern language defines. *)
From Stdlib Require Import ZArith Lia.
From stdpp Require Import base list gmap strings.
From S2P Require Import Prelude Text Datum Errors EvalOps.
Open Scope Z_scope.

(** ** The pattern language *)

Definition special (c : Z) : bool := (c =? C_BACKSLASH) || (c =? C_PERCENT) || (c =? C_UNDERSCORE).

(** A pattern's matches: [%] any sequence, [_] any character, a backslash the
    character behind it, and any other character itself. *)
Inductive like_spec (fold : Z -> Z) : list Z -> list Z -> Prop :=
| LikeEnd : like_spec fold [] []
| LikeChar c p s : special c = false -> like_spec fold p s -> like_spec fold (c :: p) (fold c :: s)
| LikeEscaped c p s : like_spec fold p s -> like_spec fold (C_BACKSLASH :: c :: p) (fold c :: s)
| LikeOne p x s : like_spec fold p s -> like_spec fold (C_UNDERSCORE :: p) (x :: s)
| LikeManyNone p s : like_spec fold p s -> like_spec fold (C_PERCENT :: p) s
| LikeManyMore p x s :
    like_spec fold (C_PERCENT :: p) s -> like_spec fold (C_PERCENT :: p) (x :: s).

(** Every backslash has a character behind it. *)
Fixpoint escapes_ok (p : list Z) : bool :=
  match p with
  | [] => true
  | c :: p =>
      if c =? C_BACKSLASH then match p with [] => false | _ :: p => escapes_ok p end
      else escapes_ok p
  end.

Section Like.
Context (fold : Z -> Z).

Abbreviation spec := (like_spec fold).

Lemma spec_many p s : spec (C_PERCENT :: p) s <-> exists u v, s = u ++ v /\ spec p v.
Proof.
  split.
  - intros Hs. remember (C_PERCENT :: p) as q eqn:Eq. induction Hs; simplify_eq; try done.
    + by exists [], s.
    + destruct IHHs as (u & v & -> & Hv); [done|]. by exists (x :: u), v.
  - intros (u & v & -> & Hv). induction u as [|x u IH]; cbn [app]; by constructor.
Qed.

Lemma spec_many_suffix p s t : spec (C_PERCENT :: p) t -> spec (C_PERCENT :: p) (s ++ t).
Proof.
  intros (u & v & -> & Hv)%spec_many. apply spec_many. exists (s ++ u), v. by rewrite app_assoc.
Qed.

(** The pattern characters one step consumes for one subject character. *)
Inductive one_char : list Z -> list Z -> Z -> Prop :=
| OneLit c p : special c = false -> one_char (c :: p) p (fold c)
| OneEsc c p : one_char (C_BACKSLASH :: c :: p) p (fold c)
| OneAny p x : one_char (C_UNDERSCORE :: p) p x.

Lemma spec_one q p x s : one_char q p x -> spec p s -> spec q (x :: s).
Proof. intros [] ?; by constructor. Qed.

Lemma spec_one_inv q p x s :
  one_char q p x -> forall y, spec q (y :: s) -> one_char q p y /\ spec p s.
Proof.
  intros Ho y Hs. destruct Ho as [c p Hc|c p|p x]; inversion Hs; subst; try done;
    try (by split; [constructor|]); by vm_compute in Hc.
Qed.

Lemma spec_one_nonempty q p x : one_char q p x -> ~ spec q [].
Proof. intros Ho Hs. destruct Ho as [c p Hc|c p|p x]; inversion Hs; subst; by vm_compute in Hc. Qed.

(** A run of such steps. *)
Inductive run : list Z -> list Z -> list Z -> Prop :=
| RunNil q : run q q []
| RunCons q r p x t : one_char q r x -> run r p t -> run q p (x :: t).

Lemma run_snoc q r p t x : run q r t -> one_char r p x -> run q p (t ++ [x]).
Proof. induction 1; intros Ho; cbn [app]; repeat econstructor; eauto. Qed.

(** What a run consumed, any match of its pattern consumes in length. *)
Lemma run_match q p t s :
  run q p t -> spec q s -> exists a b, s = a ++ b /\ length a = length t /\ spec p b.
Proof.
  intros Hr. revert s; induction Hr as [q|q r p x t Ho Hr IH]; intros s Hs.
  - by exists [], s.
  - destruct s as [|y s]; [by apply (spec_one_nonempty q r x) in Ho|].
    destruct (spec_one_inv q r x s Ho y Hs) as [_ Hs'].
    destruct (IH s Hs') as (a & b & -> & Hl & Hb). exists (y :: a), b. cbn. auto.
Qed.

(** ** The loop *)

(** A state is about the subject and pattern it started with when its backtrack
    point is a run behind. *)
Definition like_inv (st : LikeState) : Prop :=
  match l_star st with
  | Some (sp, ss) => exists t, run sp (l_p st) t /\ ss = t ++ l_s st
  | None => True
  end.

(** What the state can still match. *)
Definition like_value (st : LikeState) : Prop :=
  spec (l_p st) (l_s st) \/
  match l_star st with
  | Some (sp, ss) => ss <> [] /\ spec (C_PERCENT :: sp) (tail ss)
  | None => False
  end.

(** A new [%] makes the old one useless. *)
Lemma newer_star st p c s :
  like_inv st -> l_p st = C_PERCENT :: p -> l_s st = c :: s ->
  like_value st -> spec (C_PERCENT :: p) (c :: s).
Proof.
  intros Hi Ep Es [Hv|Hv]; [by rewrite Ep, Es in Hv|]. unfold like_inv in Hi.
  destruct (l_star st) as [[sp ss]|]; [|done]. destruct Hi as (t & Hr & ->).
  destruct Hv as [_ (u & v & Hu & Hv)%spec_many]. rewrite Ep in Hr.
  destruct (run_match _ _ _ _ Hr Hv) as (a & b & -> & Hl & Hb).
  rewrite Es in Hu.
  assert (exists w, c :: s = w ++ b) as [w ->]; [|by apply spec_many_suffix].
  assert (length b <= length (c :: s))%nat as Hb'.
  { apply (f_equal length) in Hu. rewrite !length_app in Hu.
    destruct t; cbn [tail app length] in *; rewrite ?length_app in Hu; cbn [length] in *; lia. }
  assert (suffix b (t ++ c :: s)) as Hs1.
  { destruct t as [|y t]; cbn [tail app] in *.
    - exists (c :: u ++ a). rewrite Hu. cbn. by rewrite <- app_assoc.
    - exists (y :: u ++ a). rewrite Hu. cbn. by rewrite <- app_assoc. }
  assert (suffix (c :: s) (t ++ c :: s)) as Hs2 by (by exists t).
  destruct (suffix_weak_total _ _ _ Hs1 Hs2) as [[w Hw]|[w Hw]]; [by exists w|].
  exists []. cbn. destruct w; [done|]. rewrite Hw, length_app in Hb'. cbn in Hb'. lia.
Qed.

(** What a turn does: the answer, or a state of the same value that is nearer to
    the end. *)
Definition like_measure (np : nat) (st : LikeState) (ns : nat) : nat :=
  (match l_star st with Some (_, ss) => length ss | None => ns end * S np + length (l_p st))%nat.

Definition state_fits (ns np : nat) (st : LikeState) : Prop :=
  (length (l_p st) <= np)%nat /\ (length (l_s st) <= ns)%nat /\
  match l_star st with
  | Some (sp, ss) => (length sp <= np)%nat /\ (length ss <= ns)%nat
  | None => True
  end.

Lemma special_false c :
  c <> C_BACKSLASH -> c <> C_PERCENT -> c <> C_UNDERSCORE -> special c = false.
Proof. unfold special. lia. Qed.

(** A state with no match where it stands gives the value of its backtrack. *)
Lemma backtrack_value st :
  l_s st <> [] -> like_inv st -> ~ spec (l_p st) (l_s st) ->
  match like_backtrack st with
  | Some st' => like_inv st' /\ (like_value st <-> like_value st') /\
      (forall ns np, state_fits ns np st -> state_fits ns np st' /\
        (like_measure np st' ns < like_measure np st ns)%nat)
  | None => ~ like_value st
  end.
Proof.
  intros Hs Hi Hn. unfold like_backtrack, like_value, like_inv, state_fits, like_measure in *.
  destruct (l_star st) as [[sp ss]|]; [|naive_solver]. cbn.
  destruct Hi as (t & Hr & Ess).
  assert (ss <> []) as Hne by (destruct t, (l_s st); naive_solver).
  split_and!.
  - exists []. split; [constructor|done].
  - rewrite spec_many. split.
    + intros [?|[_ (u & v & Et & Hv)]]; [done|]. rewrite Et.
      destruct u as [|x u]; [by left|right]. split; [done|]. apply spec_many. by exists u, v.
    + intros [Hv|[Ht Hv]]; right; (split; [done|]).
      * by exists [], (tail ss).
      * apply spec_many in Hv as (u & v & Et & Hv). destruct (tail ss) as [|x l]; [done|].
        exists (x :: u), v. cbn in Et. by rewrite Et.
  - intros ns np (Hp & Hs' & Hsp & Hss). destruct ss as [|x ss]; [done|]. cbn in *. lia.
Qed.

(** A turn that takes one character. *)
Lemma advance_value st c s pt :
  l_s st = c :: s -> like_inv st -> one_char (l_p st) pt c -> (length pt < length (l_p st))%nat ->
  let st' := mkLike s pt (l_star st) in
  like_inv st' /\ (like_value st <-> like_value st') /\
  (forall ns np, state_fits ns np st -> state_fits ns np st' /\
    (like_measure np st' ns < like_measure np st ns)%nat).
Proof.
  intros Es Hi Ho Hl. unfold like_inv, like_value, state_fits, like_measure in *.
  cbn [l_s l_p l_star]. rewrite Es in *. split_and!.
  - destruct (l_star st) as [[sp ss]|]; [|done]. destruct Hi as (t & Hr & ->).
    exists (t ++ [c]). split; [by eapply run_snoc|]. by rewrite <- app_assoc.
  - assert (spec (l_p st) (c :: s) <-> spec pt s) as ->; [|done].
    split; [intros Hv; by destruct (spec_one_inv _ _ _ _ Ho _ Hv)|by apply spec_one].
  - intros ns np (Hp & Hs & Hst). cbn [length] in Hs. split; [|lia]. split_and!; [lia..|done].
Qed.

Lemma star_value st c s pt :
  l_s st = c :: s -> like_inv st -> l_p st = C_PERCENT :: pt ->
  let st' := mkLike (c :: s) pt (Some (pt, c :: s)) in
  like_inv st' /\ (like_value st <-> like_value st') /\
  (forall ns np, state_fits ns np st -> state_fits ns np st' /\
    (like_measure np st' ns < like_measure np st ns)%nat).
Proof.
  intros Es Hi Ep st'. split_and!.
  - exists []. split; [constructor|done].
  - split.
    + intros Hv.
      pose proof (newer_star st pt c s Hi Ep Es Hv) as (u & v & Eu & Hu)%spec_many.
      unfold like_value. cbn. destruct u as [|x u]; cbn in Eu.
      * left. by rewrite Eu.
      * right. split; [done|]. injection Eu as -> ->. apply spec_many. by exists u, v.
    + intros [Hv|[_ Hv]]; left; rewrite Ep, Es; [by apply LikeManyNone|by apply LikeManyMore].
  - unfold state_fits, like_measure, like_inv in *. cbn [l_s l_p l_star st']. rewrite Ep, Es in *.
    intros ns np (Hp & Hs & Hst). cbn [length] in *. split; [split_and!; lia|].
    destruct (l_star st) as [[sp ss]|]; [|nia]. destruct Hi as (t & _ & ->).
    rewrite length_app. cbn [length]. nia.
Qed.

(** ** A turn *)

Definition esc_inv (b : bool) (st : LikeState) : Prop :=
  escapes_ok (l_p st) = b /\
  match l_star st with Some (sp, _) => escapes_ok sp = b | None => True end.

Lemma one_char_escapes q p x : one_char q p x -> escapes_ok q = escapes_ok p.
Proof.
  intros [c p' Hc|c p'|p' y]; cbn [escapes_ok]; [|done|done].
  unfold special in Hc. by replace (c =? C_BACKSLASH) with false by lia.
Qed.

(** The result of a turn is right. *)
Definition step_ok (b : bool) (st : LikeState) (r : result ExecError (bool + LikeState)) : Prop :=
  match r with
  | Err e => e = invalid_escape /\ b = false
  | Ok (inl a) => a = false /\ ~ like_value st
  | Ok (inr st') =>
      like_inv st' /\ (like_value st <-> like_value st') /\ esc_inv b st' /\
      (forall ns np, state_fits ns np st -> state_fits ns np st' /\
        (like_measure np st' ns < like_measure np st ns)%nat)
  end.

Lemma backtrack_ok b st :
  l_s st <> [] -> like_inv st -> esc_inv b st -> ~ spec (l_p st) (l_s st) ->
  step_ok b st (Ok match like_backtrack st with Some st => inr st | None => inl false end).
Proof.
  intros Hs Hi He Hn. pose proof (backtrack_value st Hs Hi Hn) as Hb.
  destruct (like_backtrack st) as [st'|] eqn:E; [|done]. destruct Hb as (? & ? & ?).
  split_and!; try done. unfold like_backtrack in E. destruct He as [_ He].
  destruct (l_star st) as [[sp ss]|]; [|done]. by injection E as <-.
Qed.

Lemma advance_ok b st c s pt :
  l_s st = c :: s -> like_inv st -> esc_inv b st -> one_char (l_p st) pt c ->
  step_ok b st (Ok (inr (mkLike s pt (l_star st)))).
Proof.
  intros Es Hi [He1 He2] Ho.
  assert (length pt < length (l_p st))%nat as Hl by (destruct Ho; cbn; lia).
  destruct (advance_value st c s pt Es Hi Ho Hl) as (? & ? & ?). split_and!; try done.
  split; [|done]. cbn. by rewrite <- (one_char_escapes _ _ _ Ho).
Qed.

Lemma like_step_ok b st :
  l_s st <> [] -> like_inv st -> esc_inv b st -> step_ok b st (like_step fold st).
Proof.
  intros Hs Hi He. destruct (l_s st) as [|c s] eqn:Es; [done|]. unfold like_step. rewrite Es.
  destruct (l_p st) as [|p pt] eqn:Ep.
  { apply backtrack_ok; rewrite ?Es, ?Ep; try done. inversion 1. }
  assert (forall x, one_char (p :: pt) x c -> one_char (l_p st) x c) as Ho by (by rewrite Ep).
  assert (~ spec (p :: pt) (c :: s) ->
    step_ok b st (Ok match like_backtrack st with Some st => inr st | None => inl false end)) as Hb.
  { intros. apply backtrack_ok; rewrite ?Es, ?Ep; done. }
  destruct (Z.eqb_spec p C_BACKSLASH) as [->|H1].
  { destruct pt as [|lit pt].
    - split; [done|]. destruct He as [He _]. by rewrite Ep in He.
    - destruct (Z.eqb_spec c (fold lit)) as [->|Hc].
      + eapply advance_ok; try done. apply Ho. constructor.
      + apply Hb. inversion 1; subst; try done. }
  destruct (Z.eqb_spec p C_PERCENT) as [->|H2].
  { destruct (star_value st c s pt Es Hi Ep) as (? & ? & ?). split_and!; try done.
    destruct He as [He _]. rewrite Ep in He. by split. }
  destruct (Z.eqb_spec p C_UNDERSCORE) as [->|H3].
  { eapply advance_ok; try done. apply Ho. constructor. }
  destruct (Z.eqb_spec c (fold p)) as [->|Hc].
  - eapply advance_ok; try done. apply Ho. constructor. by apply special_false.
  - apply Hb. inversion 1; subst; try done.
Qed.

(** ** The whole match *)

Lemma spec_escapes p s : spec p s -> escapes_ok p = true.
Proof.
  induction 1 as [|c p s Hc _ IH| | | |]; cbn [escapes_ok]; try done.
  unfold special in Hc. by replace (c =? C_BACKSLASH) with false by lia.
Qed.

(** An outcome decides a proposition, or is the error of a pattern that ends in
    the middle of an escape. *)
Definition decides (b : bool) (P : Prop) (r : result ExecError bool) : Prop :=
  match r with
  | Ok a => a = true <-> P
  | Err e => e = invalid_escape /\ b = false
  end.

Lemma like_tail_ok p : decides (escapes_ok p) (spec p []) (like_tail p).
Proof.
  induction p as [|c p IH]; [split; [constructor|done]|]. cbn [like_tail escapes_ok].
  destruct (Z.eqb_spec c C_PERCENT) as [->|H1].
  { change (C_PERCENT =? C_BACKSLASH) with false. cbv iota.
    assert (spec (C_PERCENT :: p) [] <-> spec p []) as Hs.
    { rewrite spec_many. split; [|intros; by exists [], []].
      by intros ([|] & v & [= <-] & Hv). }
    unfold decides in *. destruct (like_tail p); [by rewrite Hs|done]. }
  destruct (Z.eqb_spec c C_BACKSLASH) as [->|H2].
  - destruct p as [|x p]; [done|]. split; [done|]. inversion 1.
  - split; [done|]. inversion 1; subst; done.
Qed.

(** With the subject used up, the backtrack point is too short to help. *)
Lemma end_value st :
  l_s st = [] -> like_inv st -> like_value st <-> spec (l_p st) [].
Proof.
  intros Es Hi. unfold like_value. rewrite Es. split; [|auto]. intros [?|Hst]; [done|].
  unfold like_inv in Hi. destruct (l_star st) as [[sp ss]|]; [|done].
  destruct Hi as (t & Hr & ->), Hst as [Hne (u & v & Eu & Hv)%spec_many].
  rewrite Es, app_nil_r in *. destruct (run_match _ _ _ _ Hr Hv) as (a & w & -> & Hl & _).
  apply (f_equal length) in Eu. rewrite !length_app in Eu. destruct t; [done|]. cbn in *. lia.
Qed.

Lemma like_loop_ok b ns np fuel st :
  like_inv st -> esc_inv b st -> state_fits ns np st -> (like_measure np st ns < fuel)%nat ->
  decides b (like_value st) (like_loop fuel fold st).
Proof.
  revert st; induction fuel as [|fuel IH]; intros st Hi He Hf Hm; [lia|]. cbn [like_loop].
  destruct (l_s st) as [|c s] eqn:Es.
  { pose proof (like_tail_ok (l_p st)) as Ht. destruct He as [He _]. rewrite He in Ht.
    pose proof (end_value st Es Hi) as Hv.
    unfold decides in *. destruct (like_tail (l_p st)); [by rewrite Hv|done]. }
  pose proof (like_step_ok b st) as Hstep. rewrite Es in Hstep. specialize (Hstep ltac:(done) Hi He).
  destruct (like_step fold st) as [[a|st']|e]; cbn [mbind result_bind].
  - destruct Hstep as [-> Hn]. by split.
  - destruct Hstep as (Hi' & Hv & He' & Hd). destruct (Hd ns np Hf) as [Hf' Hm'].
    unfold decides in *. specialize (IH st' Hi' He' Hf' ltac:(lia)).
    destruct (like_loop fuel fold st'); [by rewrite Hv|done].
  - done.
Qed.

Lemma like_from_start s p :
  decides (escapes_ok p) (spec p s) (like_loop (like_fuel s p) fold (mkLike s p None)).
Proof.
  assert (spec p s <-> like_value (mkLike s p None)) as Hv by (unfold like_value; cbn; naive_solver).
  unfold decides. pose proof (like_loop_ok (escapes_ok p) (length s) (length p)
    (like_fuel s p) (mkLike s p None)) as Hl. unfold decides in Hl.
  destruct (like_loop _ _ _); [rewrite Hv|]; apply Hl; try done.
  all: unfold state_fits, like_measure, like_fuel; cbn; lia.
Qed.

End Like.

(** The LIKE matcher, which keeps a single backtrack point, decides exactly the
    matches of the pattern language, for LIKE and ILIKE and every pattern and
    subject; the only error is that of a pattern whose last backslash has
    nothing behind it, and such a pattern matches nothing. *)
Theorem like_match_correct (s p : string) (ci : bool) :
  let fold := if ci then char_lower else id in
  match like_match s p ci with
  | Ok b => b = true <-> like_spec fold (chars p) (map fold (chars s))
  | Err e => e = invalid_escape /\ escapes_ok (chars p) = false /\
      forall t, ~ like_spec fold (chars p) t
  end.
Proof.
  intros fold. pose proof (like_from_start fold (map fold (chars s)) (chars p)) as Hd.
  unfold like_match, decides in *. fold fold. destruct (like_loop _ _ _) as [b|e]; [done|].
  destruct Hd as [-> He]. split_and!; try done. intros t Ht%spec_escapes. congruence.
Qed.
