(* ===== verification/Func.v ===== *)
(** * Scalar functions (executor/src/func.rs)

    The row functions: their static result types, given the inference of their
    arguments, and their values, given the evaluation of their arguments. *)
From Stdlib Require Import ZArith Lia.
From stdpp Require Import base list gmap strings.
From S2P Require Import Prelude Text Chars Keys Store Datum Float DateTimeBin ExtArith DateTime.
From S2P Require Import Numeric NumericFn Ops Errors Ast EvalOps.
Open Scope Z_scope.

(** [executor/src/func.rs:32-72] ScalarFunc *)
Inductive ScalarFunc : Type :=
| FLength | FUpper | FLower | FBtrim | FLtrim | FRtrim | FSubstr | FReplace | FConcat
| FAbs | FMod | FCoalesce | FNullIf | FGreatest | FLeast
| FFloor | FCeil | FRound | FTrunc | FSign
| FSqrt | FPower | FExp | FLn | FLog | FPi
| FLpad | FRpad | FLeft | FRight | FRepeat | FReverse | FStrpos | FInitcap | FAscii | FChr.

(** [executor/src/func.rs:77-117] scalar_func *)
Definition scalar_func (name : string) : option ScalarFunc :=
  if one_of name ["length"; "char_length"; "character_length"] then Some FLength
  else if one_of name ["upper"] then Some FUpper
  else if one_of name ["lower"] then Some FLower
  else if one_of name ["btrim"] then Some FBtrim
  else if one_of name ["ltrim"] then Some FLtrim
  else if one_of name ["rtrim"] then Some FRtrim
  else if one_of name ["substr"; "substring"] then Some FSubstr
  else if one_of name ["replace"] then Some FReplace
  else if one_of name ["concat"] then Some FConcat
  else if one_of name ["abs"] then Some FAbs
  else if one_of name ["mod"] then Some FMod
  else if one_of name ["coalesce"] then Some FCoalesce
  else if one_of name ["nullif"] then Some FNullIf
  else if one_of name ["greatest"] then Some FGreatest
  else if one_of name ["least"] then Some FLeast
  else if one_of name ["floor"] then Some FFloor
  else if one_of name ["ceil"; "ceiling"] then Some FCeil
  else if one_of name ["round"] then Some FRound
  else if one_of name ["trunc"] then Some FTrunc
  else if one_of name ["sign"] then Some FSign
  else if one_of name ["sqrt"] then Some FSqrt
  else if one_of name ["power"; "pow"] then Some FPower
  else if one_of name ["exp"] then Some FExp
  else if one_of name ["ln"] then Some FLn
  else if one_of name ["log"] then Some FLog
  else if one_of name ["pi"] then Some FPi
  else if one_of name ["lpad"] then Some FLpad
  else if one_of name ["rpad"] then Some FRpad
  else if one_of name ["left"] then Some FLeft
  else if one_of name ["right"] then Some FRight
  else if one_of name ["repeat"] then Some FRepeat
  else if one_of name ["reverse"] then Some FReverse
  else if one_of name ["strpos"] then Some FStrpos
  else if one_of name ["initcap"] then Some FInitcap
  else if one_of name ["ascii"] then Some FAscii
  else if one_of name ["chr"] then Some FChr
  else None.

(** [executor/src/func.rs:120-122] is_scalar *)
Definition is_scalar (name : string) : bool := bool_decide (scalar_func name <> None).

(** [executor/src/func.rs:124-126] undefined_function *)
Definition undefined_function (name : string) : ExecError :=
  EUndefinedFunction ("function " +:+ name +:+ "(...) does not exist").

(** [executor/src/func.rs:130-134] distinct_not_aggregate *)
Definition distinct_not_aggregate (name : string) : ExecError :=
  EWrongObjectType ("DISTINCT specified, but " +:+ name +:+ " is not an aggregate function").

(** [executor/src/func.rs:625-627] no_matching_function *)
Definition no_matching_function : ExecError :=
  EUndefinedFunction "no function matches the given name and argument types".

(** [executor/src/func.rs:678-684] promote *)
Definition promote (a b : ColumnType) : ColumnType :=
  if bool_decide (a = TInt4 /\ b = TInt4) then TInt4 else TInt8.

(** [executor/src/func.rs:812-820] power_result_type *)
Definition power_result_type (a b : ColumnType) : ColumnType :=
  if bool_decide (a = TFloat8 \/ b = TFloat8) then TFloat8
  else if is_numeric a || is_numeric b then TNumeric None
  else TFloat8.

(** [executor/src/func.rs:796-798] domain *)
Definition domain (sqlstate message : string) : ExecError := EType (Domain sqlstate message).

(** [executor/src/func.rs:914-914] MAX_FIELD_SIZE *)
Definition MAX_FIELD_SIZE : Z := 1073741824.

(** [executor/src/func.rs:918-920] length_too_large *)
Definition length_too_large : ExecError := domain "54000" "requested length too large".

Section Func.
Context `{ExtArith} `{MathLib} `{Unicode} `{!ExtPow}.

(** [pgparser/src/ast.rs:399-404] FuncCall *)
Record FuncCall : Type := mkFuncCall {
  fc_name : string;
  fc_distinct : bool;
  fc_args : FuncArgs
}.

(** [executor/src/func.rs:138-143] exprs_of *)
Definition exprs_of (fc : FuncCall) : result ExecError (list Expr) :=
  match fc_args fc with
  | ArgExprs v => Ok v
  | ArgStar => Err (undefined_function (fc_name fc))
  end.

(** [executor/src/func.rs:147-152] checked_args *)
Definition checked_args (fc : FuncCall) : result ExecError (list Expr) :=
  if fc_distinct fc then Err (distinct_not_aggregate (fc_name fc)) else exprs_of fc.

(** [executor/src/func.rs:686-692] require_arity *)
Definition require_arity (fc : FuncCall) (ok : bool) : xresult () :=
  if ok then Ok () else raise (undefined_function (fc_name fc)).

(** ** Static types *)

Section Types.
Context (infer_type : Expr -> xresult ColumnType).
Context (unify_branch : option ColumnType -> Expr -> xresult (option ColumnType)).

(** [executor/src/func.rs:631-636] require_text *)
Definition require_text (arg : Expr) : xresult () :=
  t ← infer_type arg;
  if bool_decide (t = TText) then Ok () else raise no_matching_function.

(** [executor/src/func.rs:639-644] require_int *)
Definition require_int (arg : Expr) : xresult ColumnType :=
  t ← infer_type arg;
  if bool_decide (t = TInt4 \/ t = TInt8) then Ok t else raise no_matching_function.

(** [executor/src/func.rs:648-655] require_int_or_numeric *)
Definition require_int_or_numeric (arg : Expr) : xresult ColumnType :=
  t ← infer_type arg;
  if bool_decide (t = TInt4 \/ t = TInt8) || is_numeric t then Ok t
  else raise no_matching_function.

(** [executor/src/func.rs:659-666] require_numeric *)
Definition require_numeric (arg : Expr) : xresult ColumnType :=
  t ← infer_type arg;
  if bool_decide (t = TInt4 \/ t = TInt8 \/ t = TFloat8) || is_numeric t then Ok t
  else raise no_matching_function.

(** [executor/src/func.rs:670-676] unify_args *)
Definition unify_args (args : list Expr) : xresult ColumnType :=
  acc ← foldM unify_branch None args;
  Ok (default TText acc).

(** A loop that requires something of every argument. *)
Definition require_all {A} (req : Expr -> xresult A) (args : list Expr) : xresult () :=
  foldM (fun _ a => _ ← req a; Ok ()) () args.

(** [&args[i]], which panics out of range *)
Definition arg_at {A} (args : list A) (i : nat) : xresult A := panic_or (args !! i).

(** [executor/src/func.rs:163-308] scalar_result_type *)
Definition scalar_result_type (fc : FuncCall) : xresult ColumnType :=
  f ← ok_or (scalar_func (fc_name fc)) (Raised (undefined_function (fc_name fc)));
  args ← lift (checked_args fc);
  let n := length args in
  match f with
  | FLength | FAscii =>
      _ ← require_arity fc (Nat.eqb n 1);
      a ← arg_at args 0; _ ← require_text a; Ok TInt4
  | FUpper | FLower | FReverse | FInitcap =>
      _ ← require_arity fc (Nat.eqb n 1);
      a ← arg_at args 0; _ ← require_text a; Ok TText
  | FBtrim | FLtrim | FRtrim =>
      _ ← require_arity fc (Nat.eqb n 1 || Nat.eqb n 2);
      _ ← require_all require_text args; Ok TText
  | FSubstr =>
      _ ← require_arity fc (Nat.eqb n 2 || Nat.eqb n 3);
      a ← arg_at args 0; _ ← require_text a;
      _ ← require_all require_int (drop 1 args); Ok TText
  | FReplace =>
      _ ← require_arity fc (Nat.eqb n 3);
      _ ← require_all require_text args; Ok TText
  | FConcat => Ok TText
  | FAbs =>
      _ ← require_arity fc (Nat.eqb n 1); a ← arg_at args 0; require_numeric a
  | FMod =>
      _ ← require_arity fc (Nat.eqb n 2);
      a ← arg_at args 0; lt ← require_int_or_numeric a;
      b ← arg_at args 1; rt ← require_int_or_numeric b;
      Ok (if is_numeric lt || is_numeric rt then TNumeric None else promote lt rt)
  | FCoalesce | FGreatest | FLeast =>
      _ ← require_arity fc (Nat.leb 1 n); unify_args args
  | FNullIf =>
      _ ← require_arity fc (Nat.eqb n 2);
      a ← arg_at args 0;
      match a with NullLiteral => Ok TText | _ => infer_type a end
  | FFloor | FCeil | FSign =>
      _ ← require_arity fc (Nat.eqb n 1); a ← arg_at args 0; require_numeric a
  | FRound | FTrunc =>
      _ ← require_arity fc (Nat.eqb n 1 || Nat.eqb n 2);
      a ← arg_at args 0;
      if Nat.eqb n 1 then require_numeric a
      else
        t0 ← require_numeric a;
        if bool_decide (t0 = TFloat8) then raise no_matching_function
        else b ← arg_at args 1; _ ← require_int b; Ok (TNumeric None)
  | FSqrt | FExp | FLn | FLog =>
      _ ← require_arity fc (Nat.eqb n 1);
      a ← arg_at args 0; at_ ← require_numeric a;
      Ok (if is_numeric at_ then TNumeric None else TFloat8)
  | FPower =>
      _ ← require_arity fc (Nat.eqb n 2);
      a ← arg_at args 0; ta ← require_numeric a;
      b ← arg_at args 1; tb ← require_numeric b;
      Ok (power_result_type ta tb)
  | FPi => _ ← require_arity fc (Nat.eqb n 0); Ok TFloat8
  | FLpad | FRpad =>
      _ ← require_arity fc (Nat.eqb n 2 || Nat.eqb n 3);
      a ← arg_at args 0; _ ← require_text a;
      b ← arg_at args 1; _ ← require_int b;
      _ ← (if Nat.eqb n 3 then c ← arg_at args 2; require_text c else Ok ());
      Ok TText
  | FLeft | FRight | FRepeat =>
      _ ← require_arity fc (Nat.eqb n 2);
      a ← arg_at args 0; _ ← require_text a;
      b ← arg_at args 1; _ ← require_int b; Ok TText
  | FStrpos =>
      _ ← require_arity fc (Nat.eqb n 2);
      a ← arg_at args 0; _ ← require_text a;
      b ← arg_at args 1; _ ← require_text b; Ok TInt4
  | FChr =>
      _ ← require_arity fc (Nat.eqb n 1);
      a ← arg_at args 0; _ ← require_int a; Ok TText
  end.

End Types.

(** ** Argument values *)

Definition type_name_of (d : Datum) : string :=
  match column_type d with Some t => type_name t | None => "unknown" end.

(** [executor/src/func.rs:713-718] type_error *)
Definition type_error (what : string) (got : Datum) : ExecError :=
  ETypeMismatch (what +:+ " does not accept an argument of type " +:+ type_name_of got).

(** [executor/src/func.rs:697-702] text_arg *)
Definition text_arg (d : Datum) : xresult string :=
  match d with DText s => Ok s | other => raise (type_error "function" other) end.

(** [executor/src/func.rs:705-711] int_arg *)
Definition int_arg (d : Datum) : xresult Z :=
  match d with DInt4 n | DInt8 n => Ok n | other => raise (type_error "function" other) end.

(** [executor/src/func.rs:722-725] text_render *)
Definition text_render (d : Datum) (tz : TimeZone) : xresult string := panic_or (text_of d tz).

(** [executor/src/func.rs:773-779] sign_int *)
Definition sign_int (v : Datum) : xresult Datum :=
  match v with
  | DInt4 n => Ok (DInt4 (Z.sgn n))
  | DInt8 n => Ok (DInt8 (Z.sgn n))
  | other => raise (type_error "sign" other)
  end.

(** [executor/src/func.rs:851-861] float_sign *)
Definition float_sign (x : Z) : Z :=
  if f64_is_nan x then F64_NAN
  else if f64_ltb 0 x then f64_of_Z 1
  else if f64_ltb x 0 then f64_of_Z (-1)
  else 0.

(** [executor/src/func.rs:732-770] round_family *)
Definition round_family (f : ScalarFunc) (v : Datum) (scale : option Z) : xresult Datum :=
  match scale with
  | Some n =>
      bd ← match v with
           | DInt4 i | DInt8 i => Ok (num_from_i64 i)
           | DNumeric d => Ok d
           | other => raise (type_error "function" other)
           end;
      match f with
      | FRound => Ok (DNumeric (num_round bd n))
      | FTrunc => Ok (DNumeric (num_trunc bd n))
      | _ => Err Panicked
      end
  | None =>
      match v with
      | DInt4 _ | DInt8 _ => match f with FSign => sign_int v | _ => Ok v end
      | DFloat8 x =>
          match f with
          | FFloor => Ok (DFloat8 (f64_floor x))
          | FCeil => Ok (DFloat8 (f64_ceil x))
          | FRound => Ok (DFloat8 (f64_round_ties_even x))
          | FTrunc => Ok (DFloat8 (f64_trunc x))
          | FSign => Ok (DFloat8 (float_sign x))
          | _ => Err Panicked
          end
      | DNumeric d =>
          match f with
          | FFloor => Ok (DNumeric (num_floor d))
          | FCeil => Ok (DNumeric (num_ceil d))
          | FRound => Ok (DNumeric (num_round d 0))
          | FTrunc => Ok (DNumeric (num_trunc d 0))
          | FSign => Ok (DNumeric (num_sign d))
          | _ => Err Panicked
          end
      | other => raise (type_error "function" other)
      end
  end.

(** [executor/src/func.rs:785-793] as_f64 *)
Definition fn_as_f64 (d : Datum) : xresult Z :=
  match d with
  | DInt4 n | DInt8 n => Ok (f64_of_Z n)
  | DFloat8 x => Ok x
  | DNumeric d => Ok (num_to_f64 d)
  | other => raise (type_error "function" other)
  end.

(** [executor/src/func.rs:802-808] finite_or_overflow *)
Definition finite_or_overflow (x : Z) : xresult Datum :=
  if f64_is_infinite x then raise (EType Overflow) else Ok (DFloat8 x).

(** [executor/src/func.rs:824-831] to_numeric *)
Definition fn_to_numeric (d : Datum) : xresult BigDecimal :=
  match d with
  | DInt4 n | DInt8 n => Ok (num_from_i64 n)
  | DNumeric d => Ok d
  | other => raise (type_error "power" other)
  end.

(** [executor/src/func.rs:834-848] power *)
Definition power (base exp : Z) : xresult Datum :=
  if f64_eqb base 0 && f64_ltb exp 0 then
    raise (domain "2201F" "zero raised to a negative power is undefined")
  else if f64_ltb base 0 && negb (f64_eqb (f64_fract exp) 0) then
    raise (domain "2201F"
      "a negative number raised to a non-integer power yields a complex result")
  else finite_or_overflow (f64_powf base exp).

(** ** Strings *)

(** [executor/src/func.rs:865-871] trim_ws *)
Definition trim_ws (f : ScalarFunc) (s : string) : string :=
  match f with FLtrim => trim_start s | FRtrim => trim_end s | _ => trim s end.

(** [executor/src/func.rs:873-880] trim_set *)
Definition trim_set (f : ScalarFunc) (s : string) (set : list Z) : string :=
  let in_set c := existsb (Z.eqb c) set in
  of_chars match f with
           | FLtrim => drop_while in_set (chars s)
           | FRtrim => drop_while_end in_set (chars s)
           | _ => drop_while_end in_set (drop_while in_set (chars s))
           end.

Definition slen (l : list Z) : Z := Z.of_nat (length l).

(** [executor/src/func.rs:885-907] substr *)
Definition substr (s : string) (start : Z) (count : option Z) : xresult Datum :=
  let cs := chars s in
  let len := slen cs in
  end_ ← match count with
         | None => Ok (len + 1)
         | Some c =>
             if c <? 0 then raise (EType (TypeMismatch "negative substring length not allowed"))
             else Ok (sat_add_i64 start c)
         end;
  let lo := Z.max start 1 in
  let hi := Z.min end_ (len + 1) in
  if hi <=? lo then Ok (DText "")
  else Ok (DText (of_chars (take (Z.to_nat (hi - lo)) (drop (Z.to_nat (lo - 1)) cs)))).

(** [iter().cycle().take(n)] of a non-empty list *)
Fixpoint cycle_take (fill rest : list Z) (n : nat) : list Z :=
  match n with
  | O => []
  | S n =>
      match rest with
      | c :: rest => c :: cycle_take fill rest n
      | [] => match fill with c :: rest => c :: cycle_take fill rest n | [] => [] end
      end
  end.

(** [executor/src/func.rs:926-948] pad *)
Definition pad (f : ScalarFunc) (s : string) (width : Z) (fill : string) : xresult string :=
  let cs := chars s in
  let len := slen cs in
  if width <=? 0 then Ok ""
  else if MAX_FIELD_SIZE <? width then raise length_too_large
  else if width <=? len then Ok (of_chars (take (Z.to_nat width) cs))
  else
    match chars fill with
    | [] => Ok s
    | fill_chars =>
        let padding := of_chars (cycle_take fill_chars fill_chars (Z.to_nat (width - len))) in
        Ok match f with FLpad => padding +:+ s | _ => s +:+ padding end
    end.

(** [executor/src/func.rs:952-960] left_right *)
Definition left_right (f : ScalarFunc) (s : string) (n : Z) : string :=
  let cs := chars s in
  let len := slen cs in
  let k := if n <? 0 then Z.max (len + n) 0 else Z.min n len in
  of_chars match f with
           | FLeft => take (Z.to_nat k) cs
           | _ => drop (Z.to_nat (len - k)) cs
           end.

(** [executor/src/func.rs:963-972] repeat_str *)
Definition repeat_str (s : string) (n : Z) : xresult Datum :=
  if n <=? 0 then Ok (DText "")
  else if Z.of_nat (String.length s) * n <=? MAX_FIELD_SIZE then Ok (DText (str_times (Z.to_nat n) s))
  else raise length_too_large.

Fixpoint initcap_loop (cs : list Z) (prev_alnum : bool) : list Z :=
  match cs with
  | [] => []
  | c :: cs =>
      if char_is_alphanumeric c then
        (if prev_alnum then char_to_lowercase c else char_to_uppercase c) ++ initcap_loop cs true
      else c :: initcap_loop cs false
  end.

(** [executor/src/func.rs:975-992] initcap *)
Definition initcap (s : string) : string := of_chars (initcap_loop (chars s) false).

(** [executor/src/func.rs:996-1004] strpos *)
Definition strpos (s sub : string) : Z :=
  if bool_decide (sub = "") then 1
  else
    match find_bytes (str_bytes sub) (str_bytes s) with
    | None => 0
    | Some byte_idx => wrap_signed 32 (slen (chars (str_take byte_idx s)) + 1)
    end.

(** [executor/src/func.rs:1008-1019] chr *)
Definition chr (n : Z) : xresult Datum :=
  if n =? 0 then raise (domain "54000" "null character not permitted")
  else if char_ok n then Ok (DText (of_chars [n]))
  else raise (domain "54000" "requested character too large for encoding").

(** ** Evaluation *)

(** [executor/src/func.rs:383-618] eval_eager, on the functions that evaluate all
    their arguments *)
Definition eval_eager (f : ScalarFunc) (fc : FuncCall) (vals : list Datum) (ctx : EvalCtx)
  : xresult Datum :=
  let n := length vals in
  let v0 := arg_at vals 0 in
  let v1 := arg_at vals 1 in
  match f with
  | FConcat =>
      s ← foldM (fun s v => if is_null v then Ok s
                            else t ← text_render v (cx_time_zone ctx); Ok (s +:+ t)) "" vals;
      Ok (DText s)
  | _ =>
    if existsb is_null vals then Ok DNull
    else
    match f with
    | FLength =>
        _ ← require_arity fc (Nat.eqb n 1);
        v ← v0; s ← text_arg v;
        DInt4 <$> ok_or (checked_i32 (slen (chars s))) (Raised (EType Overflow))
    | FUpper =>
        _ ← require_arity fc (Nat.eqb n 1); v ← v0; s ← text_arg v; Ok (DText (str_to_uppercase s))
    | FLower =>
        _ ← require_arity fc (Nat.eqb n 1); v ← v0; s ← text_arg v; Ok (DText (str_to_lowercase s))
    | FBtrim | FLtrim | FRtrim =>
        _ ← require_arity fc (Nat.eqb n 1 || Nat.eqb n 2);
        v ← v0; s ← text_arg v;
        match vals !! 1%nat with
        | None => Ok (DText (trim_ws f s))
        | Some set => cs ← text_arg set; Ok (DText (trim_set f s (chars cs)))
        end
    | FSubstr =>
        _ ← require_arity fc (Nat.eqb n 2 || Nat.eqb n 3);
        v ← v0; s ← text_arg v; w ← v1; start ← int_arg w;
        count ← match vals !! 2%nat with
                | None => Ok None
                | Some c => Some <$> int_arg c
                end;
        substr s start count
    | FReplace =>
        _ ← require_arity fc (Nat.eqb n 3);
        v ← v0; s ← text_arg v; w ← v1; from ← text_arg w; x ← arg_at vals 2; to ← text_arg x;
        Ok (DText (if bool_decide (from = "") then s else str_replace s from to))
    | FAbs =>
        _ ← require_arity fc (Nat.eqb n 1); v ← v0;
        match v with
        | DInt4 x => DInt4 <$> ok_or (checked_i32 (Z.abs x)) (Raised (EType Overflow))
        | DInt8 x => DInt8 <$> ok_or (checked_i64 (Z.abs x)) (Raised (EType Overflow))
        | DFloat8 x => Ok (DFloat8 (f64_abs x))
        | DNumeric d => Ok (DNumeric (num_abs d))
        | other => raise (type_error "abs" other)
        end
    | FMod => _ ← require_arity fc (Nat.eqb n 2); v ← v0; w ← v1; ty (rem v w)
    | FFloor | FCeil | FSign =>
        _ ← require_arity fc (Nat.eqb n 1); v ← v0; round_family f v None
    | FRound | FTrunc =>
        _ ← require_arity fc (Nat.eqb n 1 || Nat.eqb n 2);
        scale ← match vals !! 1%nat with None => Ok None | Some s => Some <$> int_arg s end;
        v ← v0; round_family f v scale
    | FSqrt =>
        _ ← require_arity fc (Nat.eqb n 1); v ← v0;
        match v with
        | DNumeric d => DNumeric <$> tyf (num_sqrt d)
        | _ =>
            x ← fn_as_f64 v;
            if f64_ltb x 0 then
              raise (domain "2201F" "cannot take square root of a negative number")
            else Ok (DFloat8 (f64_sqrt x))
        end
    | FExp =>
        _ ← require_arity fc (Nat.eqb n 1); v ← v0;
        match v with
        | DNumeric d => DNumeric <$> tyf (num_exp d)
        | _ => x ← fn_as_f64 v; finite_or_overflow (f64_exp x)
        end
    | FLn =>
        _ ← require_arity fc (Nat.eqb n 1); v ← v0;
        match v with
        | DNumeric d => DNumeric <$> tyf (num_ln d)
        | _ =>
            x ← fn_as_f64 v;
            if f64_leb x 0 then
              raise (domain "2201E" "cannot take logarithm of a non-positive number")
            else Ok (DFloat8 (f64_ln x))
        end
    | FLog =>
        _ ← require_arity fc (Nat.eqb n 1); v ← v0;
        match v with
        | DNumeric d => DNumeric <$> tyf (num_log10 d)
        | _ =>
            x ← fn_as_f64 v;
            if f64_leb x 0 then
              raise (domain "2201E" "cannot take logarithm of a non-positive number")
            else Ok (DFloat8 (f64_log10 x))
        end
    | FPower =>
        _ ← require_arity fc (Nat.eqb n 2); v ← v0; w ← v1;
        if (is_num v || is_num w) && negb (is_float v || is_float w) then
          b ← fn_to_numeric v; e ← fn_to_numeric w; DNumeric <$> tyf (num_power b e)
        else x ← fn_as_f64 v; y ← fn_as_f64 w; power x y
    | FPi => _ ← require_arity fc (Nat.eqb n 0); Ok (DFloat8 F64_PI)
    | FLpad | FRpad =>
        _ ← require_arity fc (Nat.eqb n 2 || Nat.eqb n 3);
        v ← v0; s ← text_arg v; w ← v1; width ← int_arg w;
        fill ← match vals !! 2%nat with None => Ok " " | Some d => text_arg d end;
        DText <$> pad f s width fill
    | FLeft | FRight =>
        _ ← require_arity fc (Nat.eqb n 2);
        v ← v0; s ← text_arg v; w ← v1; k ← int_arg w; Ok (DText (left_right f s k))
    | FRepeat =>
        _ ← require_arity fc (Nat.eqb n 2);
        v ← v0; s ← text_arg v; w ← v1; k ← int_arg w; repeat_str s k
    | FReverse =>
        _ ← require_arity fc (Nat.eqb n 1);
        v ← v0; s ← text_arg v; Ok (DText (of_chars (rev (chars s))))
    | FInitcap =>
        _ ← require_arity fc (Nat.eqb n 1); v ← v0; s ← text_arg v; Ok (DText (initcap s))
    | FStrpos =>
        _ ← require_arity fc (Nat.eqb n 2);
        v ← v0; s ← text_arg v; w ← v1; sub ← text_arg w; Ok (DInt4 (strpos s sub))
    | FAscii =>
        _ ← require_arity fc (Nat.eqb n 1);
        v ← v0; s ← text_arg v; Ok (DInt4 (default 0 (head (chars s))))
    | FChr => _ ← require_arity fc (Nat.eqb n 1); v ← v0; k ← int_arg v; chr k
    | _ => Err Panicked
    end
  end.

(** The loops of [eval_scalar]. *)
Fixpoint coalesce_loop (args : list Expr) (eval_child : Expr -> xresult Datum) : xresult Datum :=
  match args with
  | [] => Ok DNull
  | a :: args =>
      v ← eval_child a;
      if is_null v then coalesce_loop args eval_child else Ok v
  end.

Definition best_of (want_greater : bool) (best : option Datum) (v : Datum) : xresult (option Datum) :=
  if is_null v then Ok best
  else
    match best with
    | None => Ok (Some v)
    | Some cur =>
        c ← ty (compare v cur);
        let replace :=
          match c with Some Gt => want_greater | Some Lt => negb want_greater | _ => false end in
        Ok (Some (if replace then v else cur))
    end.

(** [executor/src/func.rs:315-378] eval_scalar *)
Definition eval_scalar (fc : FuncCall) (ctx : EvalCtx) (eval_child : Expr -> xresult Datum)
  : xresult Datum :=
  f ← ok_or (scalar_func (fc_name fc)) (Raised (undefined_function (fc_name fc)));
  args ← lift (checked_args fc);
  let nonempty := match args with [] => false | _ => true end in
  match f with
  | FCoalesce => _ ← require_arity fc nonempty; coalesce_loop args eval_child
  | FGreatest | FLeast =>
      _ ← require_arity fc nonempty;
      let want_greater := match f with FGreatest => true | _ => false end in
      best ← foldM (fun best a => v ← eval_child a; best_of want_greater best v) None args;
      Ok (default DNull best)
  | FNullIf =>
      _ ← require_arity fc (Nat.eqb (length args) 2);
      e0 ← arg_at args 0; a ← eval_child e0;
      e1 ← arg_at args 1; b ← eval_child e1;
      c ← ty (compare a b);
      Ok match c with Some Eq => DNull | _ => a end
  | _ => vals ← mapR eval_child args; eval_eager f fc vals ctx
  end.

End Func.
