(* ===== verification/Parser.v ===== *)
(** * The SQL parser (pgparser/src/parser.rs)

    A recursive-descent statement parser with a Pratt loop for expressions. The
    parser's position in its token vector is modelled by the suffix that starts
    there: it only moves forward, and stays on the last token. Its methods are
    functions of a state and error monad; the depth counter, which a guard
    restores on every exit, is an argument.

    The recursion is tied by fuel: [Parsers] is the record of the methods that
    are called recursively, [parsers n] gives them with [n] nested calls left,
    and every other method takes the record. [PStuck] stands for running out of
    fuel and for a panic; ParserTotal.v shows that neither happens. *)
From Stdlib Require Import ZArith Lia Ascii.
From stdpp Require Import base list gmap strings.
From S2P Require Import Prelude Text Keys Store Datum ExtModel Errors Lexer Ast.
Open Scope Z_scope.

(** ** The monad *)

Definition Toks : Type := list (Token * Z).

Inductive presult (A : Type) : Type :=
| POk (a : A) (st : Toks)
| PErr (e : ParseError)
| PStuck.
Arguments POk {A} a st.
Arguments PErr {A} e.
Arguments PStuck {A}.

Definition parser (A : Type) : Type := Toks -> presult A.

#[export] Instance parser_ret : MRet parser := fun A a st => POk a st.
#[export] Instance parser_bind : MBind parser := fun A B f p st =>
  match p st with POk a st => f a st | PErr e => PErr e | PStuck => PStuck end.

Definition get : parser Toks := fun st => POk st st.

(** [pgparser/src/parser.rs:33-33] MAX_DEPTH *)
Definition MAX_DEPTH : nat := 50.

(** [pgparser/src/parser.rs:94-96] Parser::peek *)
Definition tok (st : Toks) : Token := match st with (t, _) :: _ => t | [] => TkEof end.

(** [pgparser/src/parser.rs:107-110] Parser::peek_n: saturates at the last token *)
Definition tok_n (n : nat) (st : Toks) : Token :=
  match st !! Nat.min n (pred (length st)) with Some (t, _) => t | None => TkEof end.

(** [pgparser/src/parser.rs:101-104] Parser::peek2 *)
Definition tok2 : Toks -> Token := tok_n 1.

(** [pgparser/src/parser.rs:116-119] Parser::peek3 *)
Definition tok3 : Toks -> Token := tok_n 2.

(** [pgparser/src/parser.rs:121-123] Parser::peek_pos *)
Definition pos_of (st : Toks) : Z := match st with (_, p) :: _ => p | [] => 0 end.

(** [pgparser/src/parser.rs:125-131] Parser::bump *)
Definition bump : parser Token := fun st =>
  POk (tok st) match st with _ :: ((_ :: _) as st') => st' | _ => st end.

Definition fail_at {A} (pos : Z) (m : string) : parser A := fun _ => PErr (parse_error_new m pos).
Definition fail {A} (m : string) : parser A := fun st => PErr (parse_error_new m (pos_of st)).

(** [ParseError::too_deep(self.peek_pos())], and an error with its own SQLSTATE. *)
Definition fail_too_deep {A} : parser A := fun st => PErr (parse_error_too_deep (pos_of st)).
Definition fail_state {A} (code m : string) : parser A := fun st =>
  PErr (parse_error_sqlstate code m (pos_of st)).

Definition stuck {A} : parser A := fun _ => PStuck.

Definition is_tok (t : Token) (st : Toks) : bool := bool_decide (tok st = t).
Definition is_kw (k : Keyword) (st : Toks) : bool := is_tok (TkKeyword k) st.
Definition kw_in (ks : list Keyword) (t : Token) : bool :=
  match t with TkKeyword k => bool_decide (k ∈ ks) | _ => false end.

(** An identifier token of that name. *)
Definition ident_is (w : string) (t : Token) : bool :=
  match t with TkIdent s => eq_ignore_ascii_case s w | _ => false end.

(** [pgparser/src/parser.rs:133-140] Parser::eat_keyword *)
Definition eat_keyword (k : Keyword) : parser bool := fun st =>
  if is_kw k st then (_ ← bump; mret true) st else POk false st.

(** [pgparser/src/parser.rs:1866-1873] Parser::eat_comma *)
Definition eat_comma : parser bool := fun st =>
  if is_tok TkComma st then (_ ← bump; mret true) st else POk false st.

Section Parser.
Context `{Ext}.

(** [pgparser/src/parser.rs:142-152] Parser::expect *)
Definition expect (want : Token) : parser unit := fun st =>
  if is_tok want st then (_ ← bump; mret ()) st
  else fail ("expected " +:+ token_debug want +:+ ", found " +:+ token_debug (tok st)) st.
Definition expect_kw (k : Keyword) : parser unit := expect (TkKeyword k).

(** [pgparser/src/parser.rs:154-162] Parser::expect_ident *)
Definition expect_ident : parser string :=
  t ← bump;
  match t with
  | TkIdent s => mret s
  | other => fail ("expected identifier, found " +:+ token_debug other)
  end.

(** [pgparser/src/parser.rs:167-176] Parser::expect_ident_eq *)
Definition expect_ident_eq (want : string) : parser unit :=
  st ← get;
  let pos := pos_of st in
  t ← bump;
  if ident_is want t then mret ()
  else fail_at pos ("expected `" +:+ want +:+ "`, found " +:+ token_debug t).

(** [pgparser/src/parser.rs:1876-1884] Parser::expect_string_lit *)
Definition expect_string_lit : parser string :=
  t ← bump;
  match t with
  | TkStringLit s => mret s
  | other => fail ("expected string literal, found " +:+ token_debug other)
  end.

(** [pgparser/src/parser.rs:235-246] Parser::expect_u16 *)
Definition expect_u16 (what : string) : parser Z :=
  st ← get;
  let pos := pos_of st in
  t ← bump;
  match t with
  | TkIntLit s =>
      match parse_unsigned 65535 s with
      | Some n => mret n
      | None => fail_at pos ("invalid " +:+ what)
      end
  | other => fail_at pos ("expected " +:+ what +:+ ", found " +:+ token_debug other)
  end.

(** [pgparser/src/parser.rs:1853-1864] Parser::expect_int_count *)
Definition expect_int_count (what : string) : parser Z :=
  st ← get;
  let pos := pos_of st in
  t ← bump;
  match t with
  | TkIntLit s =>
      match parse_i64 s with
      | Some n => mret n
      | None => fail_at pos (what +:+ " value out of range")
      end
  | other => fail_at pos ("expected " +:+ what +:+ " count, found " +:+ token_debug other)
  end.

(** [pgparser/src/parser.rs:220-232] Parser::parse_numeric_typmod *)
Definition parse_numeric_typmod : parser ColumnType :=
  _ ← expect TkLParen;
  precision ← expect_u16 "numeric precision";
  c ← eat_comma;
  scale ← (if c : bool then expect_u16 "numeric scale" else mret 0);
  _ ← expect TkRParen;
  mret (TNumeric (Some (mkTypmod precision scale))).

(** [pgparser/src/parser.rs:183-216] Parser::parse_type_name *)
Definition parse_type_name : parser ColumnType :=
  st ← get;
  let type_pos := pos_of st in
  type_word ← expect_ident;
  st ← get;
  type_word ←
    (if eq_ignore_ascii_case type_word "double" && ident_is "precision" (tok st) then
       _ ← bump; mret "double precision"
     else mret type_word);
  st ← get;
  type_word ←
    (if (eq_ignore_ascii_case type_word "timestamp" || eq_ignore_ascii_case type_word "time")
        && (is_kw KwWith st || ident_is "without" (tok st)) && ident_is "time" (tok2 st) then
       t ← bump;
       let with_zone := bool_decide (t = TkKeyword KwWith) in
       _ ← expect_ident_eq "time";
       _ ← expect_ident_eq "zone";
       let qualifier := if with_zone then "with" else "without" in
       mret (to_ascii_lowercase type_word +:+ " " +:+ qualifier +:+ " time zone")
     else mret type_word);
  match from_sql_name type_word with
  | None => fail_at type_pos ("unknown type " +:+ dquote +:+ type_word +:+ dquote)
  | Some ty =>
      st ← get;
      if is_numeric ty && is_tok TkLParen st then parse_numeric_typmod else mret ty
  end.

(** ** Lists *)

(** The loops [item { , item }]; each turn that continues takes a comma off, so
    as many turns as there are tokens are enough. *)
Fixpoint sep_loop {A} (fuel : nat) (item : parser A) : parser (list A) :=
  match fuel with
  | O => stuck
  | S fuel =>
      x ← item;
      c ← eat_comma;
      if c : bool then xs ← sep_loop fuel item; mret (x :: xs) else mret [x]
  end.
Definition sep_list {A} (item : parser A) : parser (list A) := fun st =>
  sep_loop (S (length st)) item st.

(** [( ident, ident, .. )], positioned at the parenthesis. *)
Definition paren_idents : parser (list string) :=
  _ ← expect TkLParen; cols ← sep_list expect_ident; _ ← expect TkRParen; mret cols.

(** [pgparser/src/parser.rs:2131-2139] Parser::parse_ident_list *)
Definition parse_ident_list : parser (list string) := paren_idents.

(** [pgparser/src/parser.rs:1838-1849] Parser::opt_column_aliases *)
Definition opt_column_aliases : parser (option (list string)) :=
  st ← get;
  if is_tok TkLParen st then cols ← paren_idents; mret (Some cols) else mret None.

(** [pgparser/src/parser.rs:1828-1836] Parser::opt_alias *)
Definition opt_alias : parser (option string) :=
  a ← eat_keyword KwAs;
  if a : bool then s ← expect_ident; mret (Some s)
  else
    st ← get;
    match tok st with
    | TkIdent _ => s ← expect_ident; mret (Some s)
    | _ => mret None
    end.

(** [pgparser/src/parser.rs:67-76] DepthGuard::enter *)
Definition enter (depth : nat) : parser nat := fun st =>
  let next := S depth in
  if (MAX_DEPTH <? next)%nat then fail_too_deep st else POk next st.

(** The methods that are called recursively, each with the depth it is called at. *)
Record Parsers : Type := mkParsers {
  r_expr : nat -> Z -> parser Expr;
  r_query_expr : nat -> parser QueryExpr;
  r_after_open_paren : nat -> parser QueryExpr;
  r_set_expr : nat -> Z -> parser SetExpr;
  r_join_tree : nat -> parser TableExpr
}.

(** ** Expressions *)

Section Methods.
Variable r : Parsers.

(** [pgparser/src/parser.rs:578-614] Parser::func_call *)
Definition func_call (d : nat) (name : string) : parser Expr :=
  _ ← expect TkLParen;
  st ← get;
  if is_tok TkStar st then
    _ ← bump; _ ← expect TkRParen; mret (Func name false ArgStar)
  else
    dist ← eat_keyword KwDistinct;
    _ ← (if dist : bool then mret true else eat_keyword KwAll);
    st ← get;
    args ← (if is_tok TkRParen st then mret [] else sep_list (r_expr r d 0));
    _ ← expect TkRParen;
    mret (Func name dist (ArgExprs args)).

(** [pgparser/src/parser.rs:619-629] Parser::keyword_func_call *)
Definition keyword_func_call (d : nat) (name : string) : parser Expr :=
  _ ← bump;
  st ← get;
  if is_tok TkLParen st then func_call d name
  else fail ("`" +:+ name +:+ "` is reserved here; use it as a function call `" +:+ name +:+
             "(...)`").

(** [pgparser/src/parser.rs:635-647] Parser::extract_expr *)
Definition extract_expr (d : nat) : parser Expr :=
  _ ← expect TkLParen;
  field ← expect_ident;
  _ ← expect_kw KwFrom;
  source ← r_expr r d 0;
  _ ← expect TkRParen;
  mret (Func "extract" false (ArgExprs [StringLiteral (to_ascii_lowercase field); source])).

(** [pgparser/src/parser.rs:651-659] Parser::parse_is_null *)
Definition parse_is_null (lhs : Expr) : parser Expr :=
  _ ← expect_kw KwIs;
  negated ← eat_keyword KwNot;
  _ ← expect_kw KwNull;
  mret (IsNull lhs negated).

(** A query may start here. *)
Definition query_kws : list Keyword := [KwSelect; KwValues; KwWith].

(** [pgparser/src/parser.rs:664-693] Parser::parse_in *)
Definition parse_in (d : nat) (lhs : Expr) (negated : bool) : parser Expr :=
  _ ← expect_kw KwIn;
  _ ← expect TkLParen;
  st ← get;
  if kw_in query_kws (tok st) then
    q ← r_after_open_paren r d; mret (InSubquery lhs q negated)
  else
    l ← sep_list (r_expr r d 0);
    _ ← expect TkRParen;
    mret (InList lhs l negated).

(** [pgparser/src/parser.rs:698-709] Parser::parse_between *)
Definition parse_between (d : nat) (lhs : Expr) (negated : bool) : parser Expr :=
  _ ← expect_kw KwBetween;
  low ← r_expr r d 4;
  _ ← expect_kw KwAnd;
  high ← r_expr r d 4;
  mret (Between lhs low high negated).

(** [pgparser/src/parser.rs:715-729] Parser::parse_like *)
Definition parse_like (d : nat) (lhs : Expr) (negated case_insensitive : bool) : parser Expr :=
  _ ← bump;
  pattern ← r_expr r d 6;
  mret (Like lhs pattern negated case_insensitive).

(** [pgparser/src/parser.rs:741-747] Parser::case_expr, the loop over WHEN clauses *)
Fixpoint when_loop (fuel : nat) (d : nat) : parser (list (Expr * Expr)) :=
  match fuel with
  | O => stuck
  | S fuel =>
      w ← eat_keyword KwWhen;
      if w : bool then
        cond ← r_expr r d 0;
        _ ← expect_kw KwThen;
        res ← r_expr r d 0;
        ws ← when_loop fuel d;
        mret ((cond, res) :: ws)
      else mret []
  end.

(** [pgparser/src/parser.rs:734-765] Parser::case_expr *)
Definition case_expr (d : nat) : parser Expr :=
  _ ← expect_kw KwCase;
  st ← get;
  operand ← (if is_kw KwWhen st then mret None else e ← r_expr r d 0; mret (Some e));
  st ← get;
  whens ← when_loop (S (length st)) d;
  match whens with
  | [] => fail "CASE requires at least one WHEN clause"
  | _ =>
      el ← eat_keyword KwElse;
      else_result ← (if el : bool then e ← r_expr r d 0; mret (Some e) else mret None);
      _ ← expect_kw KwEnd;
      mret (Case operand whens else_result)
  end.

(** [pgparser/src/parser.rs:770-781] Parser::cast_expr *)
Definition cast_expr (d : nat) : parser Expr :=
  _ ← expect_kw KwCast;
  _ ← expect TkLParen;
  e ← r_expr r d 0;
  _ ← expect_kw KwAs;
  ty ← parse_type_name;
  _ ← expect TkRParen;
  mret (Cast e ty).

Definition datetime_words : list string :=
  ["date"; "time"; "timestamp"; "timestamptz"; "interval"].
Definition niladic_words : list string :=
  ["current_date"; "current_time"; "localtimestamp"; "localtime"; "current_timestamp"].
Definition is_string_lit (t : Token) : bool :=
  match t with TkStringLit _ => true | _ => false end.

(** [pgparser/src/parser.rs:493-567] Parser::prefix, the arm for an identifier *)
Definition prefix_ident (d : nat) (s : string) : parser Expr :=
  let lower := to_ascii_lowercase s in
  st ← get;
  if one_of lower datetime_words && is_string_lit (tok2 st) then
    _ ← bump;
    t ← bump;
    match from_sql_name lower, t with
    | Some ty, TkStringLit v => mret (Cast (StringLiteral v) ty)
    | _, _ => stuck
    end
  else
    _ ← bump;
    st ← get;
    if one_of lower niladic_words && negb (is_tok TkLParen st) then
      mret (Func lower false (ArgExprs []))
    else if String.eqb lower "extract" && is_tok TkLParen st then extract_expr d
    else if is_tok TkLParen st then func_call d s
    else if is_tok TkDot st then
      _ ← bump; name ← expect_ident; mret (ColumnRef (Some s) name)
    else mret (ColumnRef None s).

Definition lit {A} (e : A) : parser A := _ ← bump; mret e.

(** [pgparser/src/parser.rs:417-573] Parser::prefix *)
Definition prefix (d : nat) : parser Expr :=
  st ← get;
  match tok st with
  | TkKeyword KwNot => _ ← bump; e ← r_expr r d 4; mret (Unary UNot e)
  | TkMinus => _ ← bump; e ← r_expr r d 13; mret (Unary UNeg e)
  | TkLParen =>
      if kw_in query_kws (tok2 st) then
        _ ← bump; q ← r_after_open_paren r d; mret (ScalarSubquery q)
      else
        _ ← bump; e ← r_expr r d 0; _ ← expect TkRParen; mret e
  | TkKeyword KwExists =>
      _ ← bump; _ ← expect TkLParen; q ← r_after_open_paren r d; mret (ExistsQuery q)
  | TkIntLit s => lit (IntLiteral s)
  | TkFloatLit s => lit (NumericLiteral s)
  | TkStringLit s => lit (StringLiteral s)
  | TkKeyword KwTrue => lit (BoolLiteral true)
  | TkKeyword KwFalse => lit (BoolLiteral false)
  | TkKeyword KwNull => lit NullLiteral
  | TkKeyword KwCase => case_expr d
  | TkKeyword KwCast => cast_expr d
  | TkKeyword KwLeft => keyword_func_call d "left"
  | TkKeyword KwRight => keyword_func_call d "right"
  | TkParam n => lit (ParamRef n)
  | TkIdent s => prefix_ident d s
  | other => fail ("unexpected token " +:+ token_debug other)
  end.

(** [pgparser/src/parser.rs:310-355] Parser::expr, the postfix predicate at the
    current token, if there is one *)
Definition postfix (d : nat) (lhs : Expr) (st : Toks) : option (parser Expr) :=
  match tok st with
  | TkKeyword KwIs => Some (parse_is_null lhs)
  | TkKeyword KwIn => Some (parse_in d lhs false)
  | TkKeyword KwBetween => Some (parse_between d lhs false)
  | TkKeyword KwLike => Some (parse_like d lhs false false)
  | TkKeyword KwIlike => Some (parse_like d lhs false true)
  | TkKeyword KwNot =>
      match tok2 st with
      | TkKeyword KwIn => Some (_ ← bump; parse_in d lhs true)
      | TkKeyword KwBetween => Some (_ ← bump; parse_between d lhs true)
      | TkKeyword KwLike => Some (_ ← bump; parse_like d lhs true false)
      | TkKeyword KwIlike => Some (_ ← bump; parse_like d lhs true true)
      | _ => None
      end
  | _ => None
  end.

(** [pgparser/src/parser.rs:361-376] Parser::expr, the binary operators and their
    left and right binding powers *)
Definition infix_op (t : Token) : option (BinaryOp * Z * Z) :=
  match t with
  | TkKeyword KwOr => Some (OpOr, 1, 2)
  | TkKeyword KwAnd => Some (OpAnd, 3, 4)
  | TkEq => Some (OpEq, 5, 6)
  | TkNe => Some (OpNe, 5, 6)
  | TkLt => Some (OpLt, 5, 6)
  | TkLe => Some (OpLe, 5, 6)
  | TkGt => Some (OpGt, 5, 6)
  | TkGe => Some (OpGe, 5, 6)
  | TkConcat => Some (OpConcat, 7, 8)
  | TkPlus => Some (OpAdd, 9, 10)
  | TkMinus => Some (OpSub, 9, 10)
  | TkStar => Some (OpMul, 11, 12)
  | TkSlash => Some (OpDiv, 11, 12)
  | _ => None
  end.

Definition is_comparison (op : BinaryOp) : bool :=
  bool_decide (op ∈ [OpEq; OpNe; OpLt; OpLe; OpGt; OpGe]).

(** [pgparser/src/parser.rs:272-413] Parser::expr, one turn of the loop: the new
    left side, and whether to go on *)
Definition pratt_step (d : nat) (min_bp : Z) (lhs : Expr) : parser (Expr * bool) :=
  st ← get;
  if is_tok TkTypeCast st then
    _ ← bump; ty ← parse_type_name; mret (Cast lhs ty, true)
  else if ident_is "at" (tok st) && ident_is "time" (tok2 st) && ident_is "zone" (tok3 st) then
    _ ← bump; _ ← bump; _ ← bump;
    zone ← r_expr r d 11;
    mret (Func "timezone" false (ArgExprs [zone; lhs]), true)
  else
    match (if min_bp <=? 5 then postfix d lhs st else None) with
    | Some p => e ← p; mret (e, true)
    | None =>
        match infix_op (tok st) with
        | None => mret (lhs, false)
        | Some (op, l_bp, r_bp) =>
            if l_bp <? min_bp then mret (lhs, false)
            else
              _ ← bump;
              st ← get;
              if is_comparison op && kw_in [KwAny; KwSome; KwAll] (tok st) then
                let all := is_kw KwAll st in
                _ ← bump;
                _ ← expect TkLParen;
                q ← r_after_open_paren r d;
                mret (Quantified lhs op all q, true)
              else
                rhs ← r_expr r d r_bp;
                mret (Binary op lhs rhs, true)
        end
    end.

(** The loop, with the turns it has left. *)
Fixpoint pratt (turns : nat) (d : nat) (min_bp : Z) (lhs : Expr) : parser Expr :=
  match turns with
  | O => fail_too_deep
  | S turns =>
      '(lhs, go) ← pratt_step d min_bp lhs;
      if go : bool then pratt turns d min_bp lhs else mret lhs
  end.

(** [pgparser/src/parser.rs:249-415] Parser::expr *)
Definition expr (depth : nat) (min_bp : Z) : parser Expr :=
  d ← enter depth;
  lhs ← prefix d;
  pratt MAX_DEPTH d min_bp lhs.

(** ** Queries *)

(** An optional clause: a keyword and an expression. *)
Definition opt_expr (d : nat) (k : Keyword) : parser (option Expr) :=
  b ← eat_keyword k;
  if b : bool then e ← r_expr r d 0; mret (Some e) else mret None.

(** One item of the projection. *)
Definition select_item (d : nat) : parser SelectItem :=
  st ← get;
  if match tok st with TkIdent _ => true | _ => false end
     && bool_decide (tok_n 1 st = TkDot) && bool_decide (tok_n 2 st = TkStar) then
    q ← expect_ident; _ ← bump; _ ← bump; mret (QualifiedWildcard q)
  else
    e ← r_expr r d 0;
    alias ← opt_alias;
    mret (ItemExpr e alias).

(** [pgparser/src/parser.rs:1695-1701] Parser::parse_from *)
Definition parse_from (d : nat) : parser (list TableExpr) := sep_list (r_join_tree r d).

(** [pgparser/src/parser.rs:1193-1284] Parser::select_core *)
Definition select_core (depth : nat) : parser SelectStmt :=
  d ← enter depth;
  _ ← expect_kw KwSelect;
  distinct ← eat_keyword KwDistinct;
  _ ← (if distinct : bool then mret true else eat_keyword KwAll);
  st ← get;
  projection ← (if is_tok TkStar st then _ ← bump; mret [Wildcard]
                else sep_list (select_item d));
  f ← eat_keyword KwFrom;
  from ← (if f : bool then parse_from d else mret []);
  filter ← opt_expr d KwWhere;
  g ← eat_keyword KwGroup;
  group_by ← (if g : bool then _ ← expect_kw KwBy; sep_list (r_expr r d 0) else mret []);
  having ← opt_expr d KwHaving;
  mret (mkSelectStmt projection from filter distinct group_by having [] None None None).

(** One row of VALUES: at least one expression in parentheses. *)
Definition values_row (d : nat) : parser (list Expr) :=
  _ ← expect TkLParen;
  st ← get;
  if is_tok TkRParen st then fail "VALUES row must have at least one expression"
  else row ← sep_list (r_expr r d 0); _ ← expect TkRParen; mret row.

(** [pgparser/src/parser.rs:1286-1308] Parser::values_stmt *)
Definition values_stmt (d : nat) : parser (list (list Expr)) :=
  _ ← expect_kw KwValues; sep_list (values_row d).

Definition order_item (d : nat) : parser OrderItem :=
  e ← r_expr r d 0;
  desc ← eat_keyword KwDesc;
  if desc : bool then mret (mkOrderItem e false)
  else _ ← eat_keyword KwAsc; mret (mkOrderItem e true).

(** LIMIT and OFFSET, each at most once, in either order: three turns at most. *)
Fixpoint limit_loop (turns : nat) (limit offset : option Z) : parser (option Z * option Z) :=
  match turns with
  | O => stuck
  | S turns =>
      l ← (match limit with None => eat_keyword KwLimit | Some _ => mret false end);
      if l : bool then n ← expect_int_count "LIMIT"; limit_loop turns (Some n) offset
      else
        o ← (match offset with None => eat_keyword KwOffset | Some _ => mret false end);
        if o : bool then n ← expect_int_count "OFFSET"; limit_loop turns limit (Some n)
        else mret (limit, offset)
  end.

(** [pgparser/src/parser.rs:1314-1349] Parser::parse_set_tail *)
Definition parse_set_tail (d : nat) : parser (list OrderItem * option Z * option Z) :=
  o ← eat_keyword KwOrder;
  order_by ← (if o : bool then _ ← expect_kw KwBy; sep_list (order_item d) else mret []);
  '(limit, offset) ← limit_loop 3 None None;
  mret (order_by, limit, offset).

(** [pgparser/src/parser.rs:1352-1367] Parser::parse_locking *)
Definition parse_locking : parser (option RowLockStrength) :=
  f ← eat_keyword KwFor;
  if f : bool then
    u ← eat_keyword KwUpdate;
    if u : bool then mret (Some ForUpdate)
    else
      s ← eat_keyword KwShare;
      if s : bool then mret (Some ForShare) else fail "expected UPDATE or SHARE after FOR"
  else mret None.

(** [pgparser/src/parser.rs:1403-1407] Parser::parse_query_tail_and_locking *)
Definition parse_query_tail_and_locking (d : nat)
  : parser (list OrderItem * option Z * option Z * option RowLockStrength) :=
  '(order_by, limit, offset) ← parse_set_tail d;
  locking ← parse_locking;
  mret (order_by, limit, offset, locking).

Definition has_tail (q : QueryExpr) : bool :=
  match q with mkQueryExpr None _ [] None None None => false | _ => true end.

(** [pgparser/src/parser.rs:1409-1446] Parser::query_expr_as_set_branch *)
Definition query_expr_as_set_branch (q : QueryExpr) : parser SetExpr :=
  if negb (has_tail q) then mret (q_body q)
  else match q_locking q with
  | Some _ => fail "FOR UPDATE/SHARE is not allowed with UNION/INTERSECT/EXCEPT"
  | None =>
      match q_body q with
      | SetQuery (BodySelect s) =>
          mret (SetQuery (BodySelect (set_tail (q_order_by q) (q_limit q) (q_offset q) s)))
      | body =>
          mret (SetQuery (BodyNested (mkQueryExpr (q_with q) body (q_order_by q) (q_limit q)
                                        (q_offset q) (q_locking q))))
      end
  end.

(** [pgparser/src/parser.rs:1448-1460] Parser::query_expr_as_outer_primary *)
Definition query_expr_as_outer_primary (q : QueryExpr) : SetExpr :=
  if has_tail q then SetQuery (BodyNested q) else q_body q.

(** [pgparser/src/parser.rs:1462-1502] Parser::finish_query_expr *)
Definition finish_query_expr (body : SetExpr) (order_by : list OrderItem)
    (limit offset : option Z) (locking : option RowLockStrength) : parser QueryExpr :=
  let done_ := mret (mkQueryExpr None body order_by limit offset locking) in
  match locking with
  | None => done_
  | Some _ =>
      match body with
      | SetQuery (BodySelect _) => done_
      | SetQuery (BodyValues _) => fail "FOR UPDATE/SHARE is not allowed with VALUES"
      | SetQuery (BodyNested _) =>
          fail "FOR UPDATE/SHARE is not allowed with a nested query expression"
      | SetOperation _ _ _ _ =>
          fail "FOR UPDATE/SHARE is not allowed with UNION/INTERSECT/EXCEPT"
      end
  end.

(** [pgparser/src/parser.rs:1504-1509] Parser::peek_is_set_op *)
Definition peek_is_set_op (st : Toks) : bool := kw_in [KwUnion; KwExcept; KwIntersect] (tok st).

(** [pgparser/src/parser.rs:1511-1516] Parser::query_tail_or_locking_starts *)
Definition query_tail_or_locking_starts (st : Toks) : bool :=
  kw_in [KwOrder; KwLimit; KwOffset; KwFor] (tok st).

Definition cte_name (c : Cte) : string := let '(mkCte n _ _) := c in n.

(** [pgparser/src/parser.rs:1525-1561] Parser::parse_with_clause, the loop over
    common table expressions, with the ones read so far *)
Fixpoint cte_loop (fuel : nat) (d : nat) (ctes : list Cte) : parser (list Cte) :=
  match fuel with
  | O => stuck
  | S fuel =>
      name ← expect_ident;
      if existsb (fun c => String.eqb (cte_name c) name) ctes then
        fail_state "42712"
          ("table name " +:+ dquote +:+ name +:+ dquote +:+ " specified more than once")
      else
        columns ← opt_column_aliases;
        _ ← expect_kw KwAs;
        _ ← expect TkLParen;
        query ← r_query_expr r d;
        _ ← expect TkRParen;
        let ctes := ctes ++ [mkCte name columns query] in
        c ← eat_comma;
        if c : bool then cte_loop fuel d ctes else mret ctes
  end.

(** [pgparser/src/parser.rs:1518-1563] Parser::parse_with_clause *)
Definition parse_with_clause (d : nat) : parser (option WithClause) :=
  w ← eat_keyword KwWith;
  if w : bool then
    recursive ← eat_keyword KwRecursive;
    st ← get;
    ctes ← cte_loop (S (length st)) d [];
    mret (Some (mkWithClause recursive ctes))
  else mret None.

(** The set operators and their precedence. *)
Definition set_op_of (t : Token) : option (SetOp * Z) :=
  match t with
  | TkKeyword KwUnion => Some (Union, 1)
  | TkKeyword KwExcept => Some (Except, 1)
  | TkKeyword KwIntersect => Some (Intersect, 2)
  | _ => None
  end.

(** [pgparser/src/parser.rs:1576-1615] Parser::set_expr_rest: the loop, with the
    operators it may still take *)
Fixpoint set_expr_rest (turns : nat) (d : nat) (left : SetExpr) (min_prec : Z) : parser SetExpr :=
  st ← get;
  match set_op_of (tok st) with
  | None => mret left
  | Some (op, prec) =>
      if prec <? min_prec then mret left
      else match turns with
      | O => fail_too_deep
      | S turns =>
          _ ← bump;
          all ← eat_keyword KwAll;
          _ ← (if all : bool then mret true else eat_keyword KwDistinct);
          right ← r_set_expr r d (prec + 1);
          set_expr_rest turns d (SetOperation op all left right) min_prec
      end
  end.

(** [pgparser/src/parser.rs:1658-1692] Parser::attach_paren_tail *)
Definition attach_paren_tail (d : nat) (inner : SetExpr) : parser SetExpr :=
  st ← get;
  if kw_in [KwOrder; KwLimit; KwOffset] (tok st) then
    '(order_by, limit, offset) ← parse_set_tail d;
    match inner with
    | SetQuery (BodySelect s) =>
        mret (SetQuery (BodySelect (set_tail order_by limit offset s)))
    | body => mret (SetQuery (BodyNested (mkQueryExpr None body order_by limit offset None)))
    end
  else mret inner.

(** [pgparser/src/parser.rs:1635-1654] Parser::set_primary *)
Definition set_primary (d : nat) : parser SetExpr :=
  st ← get;
  if is_tok TkLParen st then
    _ ← bump;
    st ← get;
    if is_kw KwWith st then
      q ← r_after_open_paren r d; mret (query_expr_as_outer_primary q)
    else
      inner ← r_set_expr r d 0;
      inner ← attach_paren_tail d inner;
      _ ← expect TkRParen;
      mret inner
  else if is_kw KwValues st then rows ← values_stmt d; mret (SetQuery (BodyValues rows))
  else s ← select_core d; mret (SetQuery (BodySelect s)).

(** [pgparser/src/parser.rs:1567-1574] Parser::set_expr *)
Definition set_expr (depth : nat) (min_prec : Z) : parser SetExpr :=
  d ← enter depth;
  left ← set_primary d;
  set_expr_rest MAX_DEPTH d left min_prec.

(** [pgparser/src/parser.rs:1625-1633] Parser::query_expr_after_open_paren *)
Definition query_expr_after_open_paren (d : nat) : parser QueryExpr :=
  w ← parse_with_clause d;
  body ← r_set_expr r d 0;
  '(order_by, limit, offset, locking) ← parse_query_tail_and_locking d;
  _ ← expect TkRParen;
  q ← finish_query_expr body order_by limit offset locking;
  mret (set_with w q).

(** [pgparser/src/parser.rs:1620-1623] Parser::parenthesized_query_expr *)
Definition parenthesized_query_expr (d : nat) : parser QueryExpr :=
  _ ← expect TkLParen; r_after_open_paren r d.

(** The tail of a query and the query it completes. *)
Definition finish_with_tail (d : nat) (w : option WithClause) (body : SetExpr)
  : parser QueryExpr :=
  '(order_by, limit, offset, locking) ← parse_query_tail_and_locking d;
  q ← finish_query_expr body order_by limit offset locking;
  mret (set_with w q).

(** [pgparser/src/parser.rs:1373-1401] Parser::query_expr *)
Definition query_expr (d : nat) : parser QueryExpr :=
  w ← parse_with_clause d;
  st ← get;
  if is_tok TkLParen st then
    q ← parenthesized_query_expr d;
    st ← get;
    if peek_is_set_op st then
      left ← query_expr_as_set_branch q;
      body ← set_expr_rest MAX_DEPTH d left 0;
      finish_with_tail d w body
    else if negb (query_tail_or_locking_starts st) then mret (set_with w q)
    else finish_with_tail d w (query_expr_as_outer_primary q)
  else
    body ← r_set_expr r d 0;
    finish_with_tail d w body.

(** *** FROM *)

(** [pgparser/src/parser.rs:1750-1760] Parser::peek_is_join_start *)
Definition peek_is_join_start (st : Toks) : bool :=
  kw_in [KwJoin; KwInner; KwLeft; KwRight; KwFull; KwCross] (tok st).

(** [pgparser/src/parser.rs:1764-1784] Parser::join_kind *)
Definition join_kind : parser JoinKind :=
  i ← eat_keyword KwInner;
  kind ←
    (if i : bool then mret JInner
     else
       l ← eat_keyword KwLeft;
       if l : bool then _ ← eat_keyword KwOuter; mret JLeft
       else
         ri ← eat_keyword KwRight;
         if ri : bool then _ ← eat_keyword KwOuter; mret JRight
         else
           f ← eat_keyword KwFull;
           if f : bool then _ ← eat_keyword KwOuter; mret JFull
           else
             c ← eat_keyword KwCross;
             mret (if c : bool then JCross else JInner));
  _ ← expect_kw KwJoin;
  mret kind.

(** [pgparser/src/parser.rs:1798-1824] Parser::table_factor *)
Definition table_factor (d : nat) : parser TableExpr :=
  st ← get;
  if is_tok TkLParen st then
    _ ← bump;
    st ← get;
    if kw_in query_kws (tok st) then
      subquery ← r_after_open_paren r d;
      alias ← opt_alias;
      match alias with
      | None => fail "subquery in FROM must have an alias"
      | Some alias => columns ← opt_column_aliases; mret (Derived subquery alias columns)
      end
    else
      inner ← r_join_tree r d;
      _ ← expect TkRParen;
      mret inner
  else
    name ← expect_ident;
    alias ← opt_alias;
    mret (TableRef name alias).

Definition join_constraint (d : nat) (natural : bool) (kind : JoinKind) : parser JoinConstraint :=
  if natural || bool_decide (kind = JCross) then
    mret (if natural then JoinNatural else JoinNone)
  else
    o ← eat_keyword KwOn;
    if o : bool then e ← r_expr r d 0; mret (JoinOn e)
    else
      u ← eat_keyword KwUsing;
      if u : bool then cols ← paren_idents; mret (JoinUsing cols)
      else fail "expected ON or USING after JOIN".

(** [pgparser/src/parser.rs:1708-1745] Parser::join_tree, the loop over joins *)
Fixpoint join_loop (fuel : nat) (d : nat) (left : TableExpr) : parser TableExpr :=
  match fuel with
  | O => stuck
  | S fuel =>
      natural ← eat_keyword KwNatural;
      st ← get;
      if natural || peek_is_join_start st then
        kind ← join_kind;
        right ← table_factor d;
        constraint ← join_constraint d natural kind;
        join_loop fuel d (Join left right kind constraint)
      else mret left
  end.

(** [pgparser/src/parser.rs:1705-1747] Parser::join_tree *)
Definition join_tree (d : nat) : parser TableExpr :=
  left ← table_factor d;
  st ← get;
  join_loop (S (length st)) d left.

End Methods.

(** ** Tying the recursion *)

Fixpoint parsers (fuel : nat) : Parsers :=
  match fuel with
  | O => mkParsers (fun _ _ => stuck) (fun _ => stuck) (fun _ => stuck) (fun _ _ => stuck)
           (fun _ => stuck)
  | S fuel =>
      let r := parsers fuel in
      mkParsers (expr r) (query_expr r) (query_expr_after_open_paren r) (set_expr r) (join_tree r)
  end.

(** ** Statements *)

Section Statements.
Variable r : Parsers.

(** [pgparser/src/parser.rs:2146-2161] Parser::eat_if_exists *)
Definition eat_if_exists : parser bool :=
  i ← eat_keyword KwIf;
  if i : bool then
    st ← get;
    if is_kw KwExists st then _ ← bump; mret true
    else fail ("expected EXISTS after IF, found " +:+ token_debug (tok st))
  else mret false.

(** The two words [TIME ZONE]. *)
Definition time_zone_next (st : Toks) : bool :=
  ident_is "time" (tok st) && ident_is "zone" (tok2 st).

(** [pgparser/src/parser.rs:959-979] Parser::set_value *)
Definition set_value : parser SetValue :=
  st ← get;
  match tok st with
  | TkStringLit s => lit (SetVal s)
  | TkIdent w => if eq_ignore_ascii_case w "default" then lit SetDefault else lit (SetVal w)
  | other => fail ("expected a SET value, found " +:+ token_debug other)
  end.

(** [pgparser/src/parser.rs:983-1005] Parser::set_time_zone_value *)
Definition set_time_zone_value : parser SetValue :=
  st ← get;
  match tok st with
  | TkStringLit s => lit (SetVal s)
  | TkIdent w =>
      if eq_ignore_ascii_case w "default" || eq_ignore_ascii_case w "local"
      then lit SetDefault else lit (SetVal w)
  | other => fail ("expected a TIME ZONE value, found " +:+ token_debug other)
  end.

(** [pgparser/src/parser.rs:915-955] Parser::set_stmt *)
Definition set_stmt : parser Statement :=
  _ ← expect_kw KwSet;
  st ← get;
  let local := ident_is "local" (tok st) && negb (bool_decide (tok2 st = TkEq)) in
  _ ← (if local then bump else mret TkEof);
  st ← get;
  if time_zone_next st then
    _ ← bump; _ ← bump; value ← set_time_zone_value; mret (SetStmt local "timezone" value)
  else
    name ← expect_ident;
    st ← get;
    if is_tok TkEq st || is_kw KwTo st || ident_is "to" (tok st) then
      _ ← bump; value ← set_value; mret (SetStmt local (to_ascii_lowercase name) value)
    else fail "expected `=` or `TO` in SET".

(** [pgparser/src/parser.rs:1008-1023] Parser::show_stmt *)
Definition show_stmt : parser Statement :=
  _ ← bump;
  st ← get;
  if time_zone_next st then _ ← bump; _ ← bump; mret (ShowStmt "timezone")
  else name ← expect_ident; mret (ShowStmt (to_ascii_lowercase name)).

(** [pgparser/src/parser.rs:1026-1041] Parser::reset_stmt *)
Definition reset_stmt : parser Statement :=
  _ ← bump;
  st ← get;
  if time_zone_next st then _ ← bump; _ ← bump; mret (ResetStmt "timezone")
  else name ← expect_ident; mret (ResetStmt (to_ascii_lowercase name)).

(** [pgparser/src/parser.rs:1043-1071] Parser::begin *)
Definition begin : parser Statement :=
  leading ← bump;
  _ ← (if decide (leading = TkKeyword KwStart) then _ ← expect_kw KwTransaction; mret true
       else eat_keyword KwTransaction);
  iso ← eat_keyword KwIsolation;
  if iso : bool then
    _ ← expect_kw KwLevel;
    rep ← eat_keyword KwRepeatable;
    if rep : bool then _ ← expect_kw KwRead; mret (Begin (Some RepeatableRead))
    else
      rd ← eat_keyword KwRead;
      if rd : bool then _ ← expect_kw KwCommitted; mret (Begin (Some ReadCommitted))
      else fail "expected REPEATABLE READ or READ COMMITTED"
  else mret (Begin None).

Definition assignment : parser (string * Expr) :=
  col ← expect_ident; _ ← expect TkEq; value ← r_expr r 0 0; mret (col, value).

(** [pgparser/src/parser.rs:1073-1099] Parser::update *)
Definition update : parser Statement :=
  _ ← expect_kw KwUpdate;
  table ← expect_ident;
  _ ← expect_kw KwSet;
  assignments ← sep_list assignment;
  filter ← opt_expr r 0 KwWhere;
  mret (Update table assignments filter).

(** [pgparser/src/parser.rs:1101-1112] Parser::delete *)
Definition delete_ : parser Statement :=
  _ ← expect_kw KwDelete;
  _ ← expect_kw KwFrom;
  table ← expect_ident;
  filter ← opt_expr r 0 KwWhere;
  mret (DeleteFrom table filter).

Definition column_def : parser ColumnDef :=
  name ← expect_ident; ty ← parse_type_name; mret (mkColumnDef name ty).

Definition column_defs : parser (list ColumnDef) :=
  _ ← expect TkLParen; cols ← sep_list column_def; _ ← expect TkRParen; mret cols.

(** [pgparser/src/parser.rs:1114-1132] Parser::create_table *)
Definition create_table : parser Statement :=
  _ ← expect_kw KwCreate;
  _ ← expect_kw KwTable;
  name ← expect_ident;
  columns ← column_defs;
  mret (CreateTable name columns).

(** [pgparser/src/parser.rs:1134-1143] Parser::drop_table *)
Definition drop_table : parser Statement :=
  _ ← expect_kw KwDrop;
  _ ← expect_kw KwTable;
  _ ← eat_if_exists;
  name ← expect_ident;
  mret (DropTable name).

(** A row of INSERT: like one of VALUES, without the check for an empty row. *)
Definition insert_row : parser (list Expr) :=
  _ ← expect TkLParen; row ← sep_list (r_expr r 0 0); _ ← expect TkRParen; mret row.

(** [pgparser/src/parser.rs:1145-1189] Parser::insert *)
Definition insert : parser Statement :=
  _ ← expect_kw KwInsert;
  _ ← expect_kw KwInto;
  table ← expect_ident;
  columns ← opt_column_aliases;
  _ ← expect_kw KwValues;
  rows ← sep_list insert_row;
  mret (Insert table columns rows).

(** *** Foreign data wrappers *)

Definition option_pair : parser (string * string) :=
  k ← expect_ident; v ← expect_string_lit; mret (k, v).

(** [pgparser/src/parser.rs:1887-1904] Parser::parse_options *)
Definition parse_options : parser OptionList :=
  o ← eat_keyword KwOptions;
  if o : bool then
    _ ← expect TkLParen; opts ← sep_list option_pair; _ ← expect TkRParen; mret opts
  else mret [].

(** [pgparser/src/parser.rs:1909-1926] Parser::parse_user_mapping_user *)
Definition parse_user_mapping_user : parser string :=
  _ ← expect_kw KwFor;
  st ← get;
  match tok st with
  | TkKeyword KwPublic => lit "public"
  | TkKeyword KwCurrentUser => lit "current_user"
  | TkIdent _ => expect_ident
  | other => fail ("expected user name after FOR, found " +:+ token_debug other)
  end.

(** Several keywords in a row. *)
Fixpoint expect_kws (ks : list Keyword) : parser unit :=
  match ks with [] => mret () | k :: ks => _ ← expect_kw k; expect_kws ks end.

(** [pgparser/src/parser.rs:1931-1940] Parser::create_fdw *)
Definition create_fdw : parser Statement :=
  _ ← expect_kws [KwCreate; KwForeign; KwData; KwWrapper];
  name ← expect_ident;
  options ← parse_options;
  mret (CreateFdw name options).

(** [pgparser/src/parser.rs:1943-1952] Parser::drop_fdw *)
Definition drop_fdw : parser Statement :=
  _ ← expect_kws [KwDrop; KwForeign; KwData; KwWrapper];
  if_exists ← eat_if_exists;
  name ← expect_ident;
  mret (DropFdw name if_exists).

(** [pgparser/src/parser.rs:1955-1970] Parser::create_server *)
Definition create_server : parser Statement :=
  _ ← expect_kws [KwCreate; KwServer];
  name ← expect_ident;
  _ ← expect_kws [KwForeign; KwData; KwWrapper];
  wrapper ← expect_ident;
  options ← parse_options;
  mret (CreateServer name wrapper options).

(** [pgparser/src/parser.rs:1973-1981] Parser::alter_server *)
Definition alter_server : parser Statement :=
  _ ← bump;
  _ ← expect_kw KwServer;
  name ← expect_ident;
  options ← parse_options;
  mret (AlterServer name options).

(** [pgparser/src/parser.rs:1984-1991] Parser::drop_server *)
Definition drop_server : parser Statement :=
  _ ← expect_kws [KwDrop; KwServer];
  if_exists ← eat_if_exists;
  name ← expect_ident;
  mret (DropServer name if_exists).

(** [pgparser/src/parser.rs:1994-2008] Parser::create_user_mapping *)
Definition create_user_mapping : parser Statement :=
  _ ← expect_kws [KwCreate; KwUser; KwMapping];
  user ← parse_user_mapping_user;
  _ ← expect_kw KwServer;
  server ← expect_ident;
  options ← parse_options;
  mret (CreateUserMapping user server options).

(** [pgparser/src/parser.rs:2011-2026] Parser::alter_user_mapping *)
Definition alter_user_mapping : parser Statement :=
  _ ← bump;
  _ ← expect_kws [KwUser; KwMapping];
  user ← parse_user_mapping_user;
  _ ← expect_kw KwServer;
  server ← expect_ident;
  options ← parse_options;
  mret (AlterUserMapping user server options).

(** [pgparser/src/parser.rs:2029-2043] Parser::drop_user_mapping *)
Definition drop_user_mapping : parser Statement :=
  _ ← expect_kws [KwDrop; KwUser; KwMapping];
  if_exists ← eat_if_exists;
  user ← parse_user_mapping_user;
  _ ← expect_kw KwServer;
  server ← expect_ident;
  mret (DropUserMapping user server if_exists).

(** [pgparser/src/parser.rs:2046-2073] Parser::create_foreign_table *)
Definition create_foreign_table : parser Statement :=
  _ ← expect_kws [KwCreate; KwForeign; KwTable];
  name ← expect_ident;
  columns ← column_defs;
  _ ← expect_kw KwServer;
  server ← expect_ident;
  options ← parse_options;
  mret (CreateForeignTable name columns server options).

(** [pgparser/src/parser.rs:2076-2084] Parser::drop_foreign_table *)
Definition drop_foreign_table : parser Statement :=
  _ ← expect_kws [KwDrop; KwForeign; KwTable];
  if_exists ← eat_if_exists;
  name ← expect_ident;
  mret (DropForeignTable name if_exists).

Definition into_schema : parser string :=
  i ← eat_keyword KwInto;
  if i : bool then
    st ← get;
    match tok st with
    | TkKeyword KwPublic => lit "public"
    | TkIdent _ => expect_ident
    | other => fail ("expected schema name after INTO, found " +:+ token_debug other)
    end
  else mret "public".

(** [pgparser/src/parser.rs:2087-2128] Parser::import_foreign_schema *)
Definition import_foreign_schema : parser Statement :=
  _ ← expect_kws [KwImport; KwForeign; KwSchema];
  remote_schema ← expect_ident;
  l ← eat_keyword KwLimit;
  selector ←
    (if l : bool then _ ← expect_kw KwTo; ts ← parse_ident_list; mret (LimitTo ts)
     else
       e ← eat_keyword KwExcept;
       if e : bool then ts ← parse_ident_list; mret (ImportExcept ts) else mret ImportAll);
  _ ← expect_kws [KwFrom; KwServer];
  server ← expect_ident;
  into ← into_schema;
  mret (ImportForeignSchema remote_schema selector server into).

(** [pgparser/src/parser.rs:1786-1794] Parser::starts_query_expr *)
Definition starts_query_expr (st : Toks) : bool :=
  kw_in query_kws (tok st) || is_tok TkLParen st.

(** [pgparser/src/parser.rs:1369-1371] Parser::query_statement *)
Definition query_statement : parser Statement := q ← r_query_expr r 0; mret (Query q).

(** [pgparser/src/parser.rs:826-908] Parser::statement *)
Definition statement : parser Statement :=
  st ← get;
  if starts_query_expr st then query_statement
  else match tok st with
  | TkKeyword KwCreate =>
      match tok2 st with
      | TkKeyword KwForeign =>
          match tok3 st with
          | TkKeyword KwTable => create_foreign_table
          | TkKeyword KwData => create_fdw
          | t => fail ("unexpected token after CREATE FOREIGN: " +:+ token_debug t)
          end
      | TkKeyword KwServer => create_server
      | TkKeyword KwUser => create_user_mapping
      | _ => create_table
      end
  | TkKeyword KwDrop =>
      match tok2 st with
      | TkKeyword KwForeign =>
          match tok3 st with
          | TkKeyword KwTable => drop_foreign_table
          | TkKeyword KwData => drop_fdw
          | t => fail ("unexpected token after DROP FOREIGN: " +:+ token_debug t)
          end
      | TkKeyword KwServer => drop_server
      | TkKeyword KwUser => drop_user_mapping
      | _ => drop_table
      end
  | TkKeyword KwImport => import_foreign_schema
  | TkKeyword KwInsert => insert
  | TkKeyword KwBegin | TkKeyword KwStart => begin
  | TkKeyword KwCommit | TkKeyword KwEnd => lit Commit
  | TkKeyword KwRollback | TkKeyword KwAbort => lit Rollback
  | TkKeyword KwUpdate => update
  | TkKeyword KwDelete => delete_
  | TkKeyword KwSet => set_stmt
  | TkIdent s as other =>
      if String.eqb s "show" then show_stmt
      else if String.eqb s "reset" then reset_stmt
      else if String.eqb s "alter" then
        match tok2 st with
        | TkKeyword KwServer => alter_server
        | TkKeyword KwUser => alter_user_mapping
        | t => fail ("unexpected token after ALTER: " +:+ token_debug t)
        end
      else fail ("unexpected statement start " +:+ token_debug other)
  | other => fail ("unexpected statement start " +:+ token_debug other)
  end.

(** The loop that skips semicolons. *)
Fixpoint skip_semicolons (fuel : nat) : parser unit :=
  match fuel with
  | O => stuck
  | S fuel => st ← get; if is_tok TkSemicolon st then _ ← bump; skip_semicolons fuel else mret ()
  end.

(** [pgparser/src/parser.rs:794-824] Parser::program_spanned: each statement with
    the start and the end of its source *)
Fixpoint program_loop (fuel : nat) : parser (list (Statement * (Z * Z))) :=
  match fuel with
  | O => stuck
  | S fuel =>
      st ← get;
      _ ← skip_semicolons (S (length st));
      st ← get;
      if is_tok TkEof st then mret []
      else
        let start := pos_of st in
        s ← statement;
        st ← get;
        let end_ := pos_of st in
        match tok st with
        | TkSemicolon => _ ← bump; ss ← program_loop fuel; mret ((s, (start, end_)) :: ss)
        | TkEof => mret [(s, (start, end_))]
        | other => fail ("expected ; or end of input, found " +:+ token_debug other)
        end
  end.

End Statements.

(** ** Entry points *)

(** Nested calls: at most three between two tokens taken off. *)
Definition parse_fuel (st : Toks) : nat := 3 * length st + 3.

Definition program_spanned : parser (list (Statement * (Z * Z))) := fun st =>
  program_loop (parsers (parse_fuel st)) (S (length st)) st.

(** [pgparser/src/parser.rs:2180-2183] parse; [None] would be a panic or an
    endless run *)
Definition parse (sql : string) : option (result ParseError (list Statement)) :=
  match lex sql with
  | Err e => Some (Err e)
  | Ok toks =>
      match program_spanned toks with
      | POk ss _ => Some (Ok (map fst ss))
      | PErr e => Some (Err e)
      | PStuck => None
      end
  end.

(** [pgparser/src/parser.rs:2190-2196] parse_with_source: each statement with its
    own text *)
Definition parse_with_source (sql : string)
  : option (result ParseError (list (Statement * string))) :=
  match lex sql with
  | Err e => Some (Err e)
  | Ok toks =>
      match program_spanned toks with
      | POk ss _ =>
          Some (Ok (map (fun '(s, (start, end_)) =>
                           (s, trim (str_of_bytes (take (Z.to_nat (end_ - start))
                                                    (drop (Z.to_nat start) (str_bytes sql)))))) ss))
      | PErr e => Some (Err e)
      | PStuck => None
      end
  end.

(** [pgparser/src/parser.rs:2167-2177] parse_expr_for_test *)
Definition parse_expr_for_test (sql : string) : option (result ParseError Expr) :=
  match lex sql with
  | Err e => Some (Err e)
  | Ok toks =>
      match r_expr (parsers (parse_fuel toks)) 0 0 toks with
      | POk e st =>
          if is_tok TkEof st then Some (Ok e)
          else Some (Err (parse_error_new "trailing tokens after expression" (pos_of st)))
      | PErr e => Some (Err e)
      | PStuck => None
      end
  end.

End Parser.
