(* ===== verification/ParserDepth.v ===== *)
(** * How deep the parser's expressions nest

    The depth guard and the turn limit of the expression loop bound the expressions the
    parser returns, and refuse those that open more levels than the limit. A query inside
    an expression counts as one level: the parentheses of FROM and nested WITH clauses do
    not go through the guard. *)
From Stdlib Require Import ZArith Lia.
From stdpp Require Import base list gmap strings sorting.
From S2P Require Import Prelude Keys Store Datum ExtModel Errors Lexer Ast Parser.
Open Scope Z_scope.

(** ** Nesting *)

Section Depth.
Context `{Ext}.

(** The levels of an expression; a query inside it counts as one. *)
Fixpoint expr_depth (e : Expr) : nat :=
  match e with
  | Unary _ e | IsNull e _ | Cast e _ | InSubquery e _ _ | Quantified e _ _ _ => S (expr_depth e)
  | Binary _ a b | Like a b _ _ => S (Nat.max (expr_depth a) (expr_depth b))
  | Func _ _ (ArgExprs l) => S (list_max (map expr_depth l))
  | InList e l _ => S (Nat.max (expr_depth e) (list_max (map expr_depth l)))
  | Between e low high _ => S (Nat.max (expr_depth e) (Nat.max (expr_depth low) (expr_depth high)))
  | Case op ws el =>
      S (Nat.max (from_option expr_depth 0 op)
           (Nat.max (list_max (map (fun w => Nat.max (expr_depth w.1) (expr_depth w.2)) ws))
              (from_option expr_depth 0 el)))%nat
  | _ => 1%nat
  end.

Lemma expr_depth_pos e : (1 <= expr_depth e)%nat.
Proof. destruct e as [| | | | | | | | |? ? []| | | | | | | | | | |]; simpl; lia. Qed.

(** What holds of a result, if there is one. *)
Definition gives {A} (p : parser A) (Q : A -> Prop) : Prop := forall st a st', p st = POk a st' -> Q a.

Lemma gives_any {A} (p : parser A) : gives p (fun _ => True).
Proof. done. Qed.

Lemma gives_bind {A B} (p : parser A) (f : A -> parser B) P Q :
  gives p P -> (forall a, P a -> gives (f a) Q) -> gives (p ≫= f) Q.
Proof.
  intros Hp Hf st b st' E. unfold mbind, parser_bind in E. destruct (p st) as [a st1| |] eqn:Ep; try done.
  eapply Hf; [by eapply Hp|exact E].
Qed.

Lemma gives_skip {A B} (p : parser A) (f : A -> parser B) Q : (forall a, gives (f a) Q) -> gives (p ≫= f) Q.
Proof. intros Hf. by eapply gives_bind; [apply gives_any|]. Qed.

Lemma gives_ret {A} (a : A) (Q : A -> Prop) : Q a -> gives (mret a) Q.
Proof. by intros Ha st b st' [= <- _]. Qed.

Lemma gives_fail {A} m (Q : A -> Prop) : gives (fail m) Q.
Proof. done. Qed.
Lemma gives_stuck {A} (Q : A -> Prop) : gives stuck Q.
Proof. done. Qed.

Lemma gives_weaken {A} (p : parser A) (P Q : A -> Prop) : gives p P -> (forall a, P a -> Q a) -> gives p Q.
Proof. intros Hp HQ st a st' E. by eapply HQ, Hp. Qed.

Lemma gives_sep {A} (p : parser A) (P : A -> Prop) : gives p P -> gives (sep_list p) (Forall P).
Proof.
  intros Hp st. unfold sep_list. generalize (S (length st)) as fuel. intros fuel. revert st.
  fold (gives (sep_loop fuel p) (Forall P)). induction fuel as [|fuel IH]; [done|]. cbn [sep_loop].
  eapply gives_bind; [exact Hp|]. intros a Ha. apply gives_skip. intros c. destruct c.
  - eapply gives_bind; [exact IH|]. intros l Hl. apply gives_ret. by constructor.
  - apply gives_ret. by constructor.
Qed.

Lemma list_max_bound {A} (f : A -> nat) l n : Forall (fun x => (f x <= n)%nat) l -> (list_max (map f l) <= n)%nat.
Proof. induction 1; simpl; lia. Qed.

(** ** One level *)

Section Level.
Context (r : Parsers) (d : nat) (n : nat).
Hypothesis Hr : forall bp, gives (r_expr r d bp) (fun e => (expr_depth e <= n)%nat).

Abbreviation fits k p := (gives p (fun e => (expr_depth e <= k)%nat)).

Ltac level :=
  repeat first
    [ apply gives_fail | apply gives_stuck
    | eapply gives_bind; [apply Hr|intros ? ?]
    | eapply gives_bind; [apply gives_sep, Hr|intros ? ?%(list_max_bound expr_depth)]
    | apply gives_skip; intros ?
    | apply gives_ret; cbn [expr_depth map list_max fold_right] in *; lia
    | match goal with |- gives (if ?b then _ else _) _ => destruct b end
    | match goal with |- gives (match ?x with _ => _ end) _ => destruct x end ].

Lemma func_call_depth name : fits (S (S n)) (func_call r d name).
Proof.
  unfold func_call. apply gives_skip; intros _. apply gives_skip; intros st. destruct (is_tok _ _); [level|].
  do 3 (apply gives_skip; intros ?). apply (gives_bind _ _ (Forall (fun e => (expr_depth e <= n)%nat))).
  - destruct (is_tok _ _); [by apply gives_ret|by apply gives_sep].
  - intros l Hl%(list_max_bound expr_depth). level.
Qed.

Lemma extract_depth : fits (S (S n)) (extract_expr r d).
Proof. unfold extract_expr. level. Qed.

Lemma when_loop_depth fuel :
  gives (when_loop r fuel d) (Forall (fun w => (Nat.max (expr_depth w.1) (expr_depth w.2) <= n)%nat)).
Proof.
  induction fuel as [|fuel IH]; cbn [when_loop]; [apply gives_stuck|]. apply gives_skip. intros w.
  destruct w; [|by apply gives_ret]. eapply gives_bind; [apply Hr|]. intros a Ha. apply gives_skip. intros _.
  eapply gives_bind; [apply Hr|]. intros b Hb. eapply gives_bind; [exact IH|]. intros l Hl.
  apply gives_ret. constructor; [cbn [fst snd] in *; lia|done].
Qed.

Lemma opt_depth (b : bool) :
  gives (if b then e ← r_expr r d 0; mret (Some e) else mret None)
    (fun o => (from_option expr_depth 0 o <= n)%nat).
Proof. destruct b; [|apply gives_ret; simpl; lia]. eapply gives_bind; [apply Hr|]. intros e He. by apply gives_ret. Qed.

Lemma case_depth : fits (S (S n)) (case_expr r d).
Proof.
  unfold case_expr. apply gives_skip; intros _. apply gives_skip; intros st.
  apply (gives_bind _ _ (fun o => (from_option expr_depth 0 o <= n)%nat)).
  { pose proof (opt_depth true) as Ho. destruct (is_kw _ _); [apply gives_ret; simpl; lia|exact Ho]. }
  intros op Hop. apply gives_skip; intros st'. eapply gives_bind; [apply when_loop_depth|].
  intros ws Hws. pose proof (list_max_bound _ _ _ Hws) as Hm. destruct ws as [|w ws]; [apply gives_fail|].
  apply gives_skip. intros el. eapply gives_bind; [apply opt_depth|]. intros er Her. apply gives_skip. intros _.
  apply gives_ret. cbn [expr_depth] in *. lia.
Qed.

Lemma prefix_ident_depth s : fits (S (S n)) (prefix_ident r d s).
Proof.
  unfold prefix_ident. pose proof (func_call_depth s). pose proof extract_depth.
  apply gives_skip. intros st. case_match.
  - apply gives_skip; intros _. apply gives_skip; intros t. level.
  - apply gives_skip; intros _. apply gives_skip; intros st'. repeat (case_match; try done); level.
Qed.

Lemma prefix_depth : fits (S (S n)) (prefix r d).
Proof.
  unfold prefix. apply gives_skip. intros st. pose proof case_depth. pose proof prefix_ident_depth. pose proof func_call_depth.
  unfold lit, keyword_func_call, cast_expr.
  destruct (tok st) as []; try (by auto); try apply gives_fail; try (by level).
  - destruct k; try apply gives_fail; try (by level); try done; try (apply gives_skip; intros _; apply gives_skip; intros st'; case_match; [done|level]).
Qed.

Lemma postfix_depth lhs st p k :
  postfix r d lhs st = Some p -> (expr_depth lhs <= k)%nat -> (n <= k)%nat -> fits (S k) p.
Proof.
  intros E Hl Hk. assert (forall neg, fits (S k) (parse_in r d lhs neg)) as Hin by (intros; unfold parse_in; level).
  assert (forall neg, fits (S k) (parse_between r d lhs neg)) as Hbt by (intros; unfold parse_between; level).
  assert (forall neg ci, fits (S k) (parse_like r d lhs neg ci)) as Hlk by (intros; unfold parse_like; level).
  assert (fits (S k) (parse_is_null lhs)) as Hnull by (unfold parse_is_null; level).
  unfold postfix in E. repeat (case_match; try done); injection E as <-; try done; by apply gives_skip.
Qed.

Lemma pratt_step_depth bp lhs k :
  (expr_depth lhs <= k)%nat -> (S n <= k)%nat ->
  gives (pratt_step r d bp lhs) (fun p => (expr_depth p.1 <= S k)%nat /\ (p.2 = false -> (expr_depth p.1 <= k)%nat)).
Proof.
  intros Hl Hk. unfold pratt_step. apply gives_skip. intros st.
  assert (forall e, (expr_depth e <= S k)%nat -> gives (mret (e, true))
    (fun p => (expr_depth p.1 <= S k)%nat /\ (p.2 = false -> (expr_depth p.1 <= k)%nat))) as Hgo
    by (intros e He; by apply gives_ret).
  case_match; [level; apply Hgo; simpl; lia|]. case_match.
  { level. apply Hgo. cbn [expr_depth map list_max fold_right] in *. lia. }
  destruct (if bp <=? 5 then postfix r d lhs st else None) as [p|] eqn:Ep.
  { eapply gives_bind; [eapply (postfix_depth lhs st _ k); [by case_match|done|lia]|]. intros e He. by apply Hgo. }
  destruct (infix_op (tok st)) as [[[op l_bp] r_bp]|]; [|apply gives_ret; simpl; lia].
  destruct (l_bp <? bp); [apply gives_ret; simpl; lia|]. apply gives_skip; intros _. apply gives_skip; intros st'.
  destruct (is_comparison op && _); level; apply Hgo; cbn [expr_depth] in *; lia.
Qed.

Lemma pratt_depth turns bp lhs k :
  (expr_depth lhs <= k)%nat -> (S n <= k)%nat -> fits (k + pred turns) (pratt r turns d bp lhs).
Proof.
  revert lhs k. induction turns as [|turns IH]; intros lhs k Hl Hk; cbn [pratt]; [done|].
  eapply gives_bind; [by apply pratt_step_depth|]. intros [e go] [H1 H2]. cbn [fst snd] in *. destruct go.
  - destruct turns as [|turns]; [done|]. eapply gives_weaken; [apply (IH e (S k)); lia|]. cbn beta. intros. simpl in *. lia.
  - apply gives_ret. specialize (H2 eq_refl). lia.
Qed.

End Level.

(** What every expression is bounded by that is read at depth [d]. *)
Definition depth_bound (d : nat) : nat := (MAX_DEPTH - d) * S MAX_DEPTH.

Lemma expr_bounded fuel d bp :
  gives (r_expr (parsers fuel) d bp) (fun e => (expr_depth e <= depth_bound d)%nat).
Proof.
  revert d bp. induction fuel as [|fuel IH]; intros d bp; [done|]. cbn [parsers r_expr]. unfold expr, enter.
  destruct (Nat.ltb_spec MAX_DEPTH (S d)) as [|Hd]; [done|].
  apply (gives_bind _ _ (fun x => x = S d)); [by intros st a st' [= <- _]|]. intros ? ->.
  eapply gives_bind; [apply (prefix_depth _ _ (depth_bound (S d))); intros; apply IH|]. intros lhs Hl.
  eapply gives_weaken; [apply (pratt_depth _ _ (depth_bound (S d))); [intros; apply IH|exact Hl|lia]|].
  cbn beta. intros e He. unfold depth_bound in *. assert (MAX_DEPTH - d = S (MAX_DEPTH - S d))%nat as -> by lia.
  cbn [Nat.mul pred]. unfold MAX_DEPTH in *. lia.
Qed.
End Depth.

Section Refusal.
Context `{Ext}.

(** Tokens that open an expression inside the one they begin. *)
Definition opener (t : Token * Z) : Prop := t.1 = TkLParen \/ t.1 = TkMinus \/ t.1 = TkKeyword KwNot.

(** The answer is 54001, statement too complex. *)
Definition refuses {A} (p : parser A) (st : Toks) : Prop := exists pos, p st = PErr (parse_error_too_deep pos).

Lemma refuses_bind {A B} (p : parser A) (f : A -> parser B) st : refuses p st -> refuses (p ≫= f) st.
Proof. intros [pos E]. exists pos. unfold mbind, parser_bind. by rewrite E. Qed.

Lemma refuses_next {A B} (p : parser A) (f : A -> parser B) st a st' :
  p st = POk a st' -> refuses (f a) st' -> refuses (p ≫= f) st.
Proof. intros E [pos E']. exists pos. unfold mbind, parser_bind. by rewrite E. Qed.

Lemma bump_next t st : st <> [] -> bump (t :: st) = POk (tok (t :: st)) st.
Proof. by destruct st. Qed.

Lemma deep_refused fuel d bp openers rest :
  Forall opener openers -> (MAX_DEPTH < d + length openers)%nat -> (MAX_DEPTH < d + fuel)%nat -> (d <= MAX_DEPTH)%nat ->
  refuses (r_expr (parsers fuel) d bp) (openers ++ rest).
Proof.
  revert d bp openers. induction fuel as [|fuel IH]; intros d bp openers Ho Hn Hf Hd; [lia|].
  cbn [parsers r_expr]. unfold expr, enter. destruct (Nat.ltb_spec MAX_DEPTH (S d)) as [|Hlt].
  { apply refuses_bind. by eexists. }
  eapply refuses_next; [done|]. apply refuses_bind.
  destruct openers as [|[t p] [|t2 openers]]; [simpl in Hn; lia|simpl in Hn; lia|].
  apply Forall_cons in Ho as [Ht Ho]. cbn [app] in *.
  assert (forall bp, refuses (r_expr (parsers fuel) (S d) bp) (t2 :: openers ++ rest)) as Hrec.
  { intros bp'. apply (IH (S d) bp' (t2 :: openers)); [done|simpl in *; lia|lia|done]. }
  unfold prefix. eapply refuses_next; [done|]. cbn [tok].
  unfold opener in Ht. cbn [fst] in Ht. destruct Ht as [->|[->| ->]].
  - assert (kw_in query_kws (tok2 ((TkLParen, p) :: t2 :: openers ++ rest)) = false) as ->.
    { unfold tok2, tok_n. cbn [length Nat.min pred lookup list_lookup]. destruct t2 as [t2 p2].
      apply Forall_cons in Ho as [[E|[E|E]] _]; cbn in E; by rewrite E. }
    eapply refuses_next; [by apply bump_next|]. apply refuses_bind, Hrec.
  - eapply refuses_next; [by apply bump_next|]. apply refuses_bind, Hrec.
  - eapply refuses_next; [by apply bump_next|]. apply refuses_bind, Hrec.
Qed.

Lemma select_refused fuel d openers rest p :
  Forall opener openers -> (MAX_DEPTH <= length openers)%nat -> (MAX_DEPTH < fuel)%nat -> (d < 2)%nat ->
  refuses (select_core (parsers fuel) d) ((TkKeyword KwSelect, p) :: openers ++ rest).
Proof.
  intros Ho Hn Hf Hd. unfold select_core. eapply refuses_next; [by destruct d as [|[|]]; [| |lia]|].
  destruct openers as [|t openers]; [simpl in Hn; unfold MAX_DEPTH in Hn; lia|]. cbn [app].
  pose proof Ho as [Ht _]%Forall_cons.
  assert (forall k, k <> KwNot -> is_kw k (t :: openers ++ rest) = false) as Hkw.
  { intros k Hk. unfold is_kw, is_tok. destruct t as [t q]. apply bool_decide_eq_false_2. unfold opener in Ht. cbn in *. naive_solver. }
  assert (is_tok TkStar (t :: openers ++ rest) = false) as Hstar.
  { unfold is_tok. destruct t as [t q]. apply bool_decide_eq_false_2. unfold opener in Ht. cbn in *. naive_solver. }
  eapply refuses_next; [done|]. unfold eat_keyword. eapply refuses_next; [by rewrite Hkw|].
  eapply refuses_next; [by rewrite Hkw|]. eapply refuses_next; [done|]. rewrite Hstar. apply refuses_bind.
  unfold refuses, sep_list. cbn [sep_loop]. apply refuses_bind. unfold select_item.
  eapply refuses_next; [done|].
  assert (match tok (t :: openers ++ rest) with TkIdent _ => true | _ => false end = false) as ->.
  { destruct t as [t q]. unfold opener in Ht. cbn in *. by destruct Ht as [->|[->| ->]]. }
  apply refuses_bind. change (t :: openers ++ rest) with ((t :: openers) ++ rest).
  apply deep_refused; [done|lia|lia|unfold MAX_DEPTH; lia].
Qed.

Lemma program_refused fuel n st :
  is_kw KwSelect st = true -> refuses (select_core (parsers fuel) 1) st ->
  refuses (program_loop (parsers (S (S fuel))) (S n)) st.
Proof.
  intros Hk Hs. assert (forall t, t <> TkKeyword KwSelect -> is_tok t st = false) as Hn.
  { intros t Ht. unfold is_kw, is_tok in *. apply bool_decide_eq_true in Hk. apply bool_decide_eq_false_2. congruence. }
  cbn [program_loop]. eapply refuses_next; [done|]. eapply (refuses_next _ _ _ ()).
  { cbn [skip_semicolons]. unfold mbind at 1, parser_bind at 1. cbn [get]. by rewrite Hn. }
  eapply refuses_next; [done|]. rewrite Hn by done. apply refuses_bind. unfold statement.
  eapply refuses_next; [done|].
  assert (starts_query_expr st = true) as ->.
  { unfold starts_query_expr, is_kw, is_tok in *. apply bool_decide_eq_true in Hk. by rewrite Hk. }
  unfold query_statement. apply refuses_bind. cbn [parsers r_query_expr]. unfold query_expr.
  eapply (refuses_next _ _ _ None).
  { unfold parse_with_clause, eat_keyword, mbind at 1, parser_bind at 1. unfold is_kw. by rewrite Hn. }
  eapply refuses_next; [done|]. rewrite Hn by done. apply refuses_bind. cbn [parsers r_set_expr].
  unfold set_expr. eapply refuses_next; [done|]. apply refuses_bind. unfold set_primary.
  eapply refuses_next; [done|]. unfold is_kw. rewrite !Hn by done. by apply refuses_bind.
Qed.

Lemma parse_refused sql p openers rest :
  lex sql = Ok ((TkKeyword KwSelect, p) :: openers ++ rest) -> Forall opener openers ->
  (MAX_DEPTH <= length openers)%nat -> exists pos, parse sql = Some (Err (parse_error_too_deep pos)).
Proof.
  intros El Ho Hn. unfold parse. rewrite El. unfold program_spanned, parse_fuel.
  set (toks := _ :: openers ++ rest). assert (exists k, 3 * length toks + 3 = S (S k) /\ MAX_DEPTH < k)%nat as (k & -> & Hk).
  { exists (3 * length toks + 1)%nat. unfold toks. cbn [length]. rewrite length_app. lia. }
  destruct (program_refused k (length toks) toks) as [pos ->]; [done|by apply select_refused; [..|lia]|by exists pos].
Qed.

End Refusal.
