(* ===== verification/ParserTotal.v ===== *)
(** * The parser always answers

    For every token sequence the lexer can produce, every method of Parser.v
    returns a result or a parse error within the fuel it is given: it does not
    loop and does not reach one of its panics. The measure is the number of
    tokens left: between two tokens taken off there are at most three nested
    calls. With ParserDepth.v: expressions are bounded in depth, and those that open
    too many levels are refused. *)
From Stdlib Require Import ZArith Lia.
From stdpp Require Import base list gmap strings sorting.
From S2P Require Import Prelude Keys Store Datum ExtModel Errors Lexer Ast Parser ParserDepth.
Open Scope Z_scope.

(** The parser's states: tokens other than the end marker, then the marker. *)
Definition wf (st : Toks) : Prop :=
  exists init p, st = init ++ [(TkEof, p)] /\ Forall (fun t => fst t <> TkEof) init.

(** What holds of a call's result, when it is not stuck. *)
Definition ok {A} (p : parser A) (st : Toks) (Q : A -> Toks -> Prop) : Prop :=
  match p st with POk a st' => Q a st' | PErr _ => True | PStuck => False end.

Definition no_longer {A} (st : Toks) (_ : A) (st' : Toks) : Prop :=
  wf st' /\ (length st' <= length st)%nat.
Definition shorter {A} (st : Toks) (_ : A) (st' : Toks) : Prop :=
  wf st' /\ (length st' < length st)%nat.

Lemma ok_mono {A} (p : parser A) st (Q Q' : A -> Toks -> Prop) :
  ok p st Q -> (forall a st', Q a st' -> Q' a st') -> ok p st Q'.
Proof. unfold ok. destruct (p st); naive_solver. Qed.

Lemma ok_bind {A B} (p : parser A) (f : A -> parser B) st Q :
  ok p st (fun a st' => ok (f a) st' Q) -> ok (p ≫= f) st Q.
Proof. unfold ok, mbind, parser_bind. by destruct (p st). Qed.

Lemma ok_bind_le {A B} (p : parser A) (f : A -> parser B) st Q :
  ok p st (no_longer st) ->
  (forall a st', wf st' -> (length st' <= length st)%nat -> ok (f a) st' Q) ->
  ok (p ≫= f) st Q.
Proof. intros Hp Hf. apply ok_bind. eapply ok_mono; [exact Hp|]. intros a st' []. by apply Hf. Qed.

Lemma ok_bind_lt {A B} (p : parser A) (f : A -> parser B) st Q :
  ok p st (shorter st) ->
  (forall a st', wf st' -> (length st' < length st)%nat -> ok (f a) st' Q) ->
  ok (p ≫= f) st Q.
Proof. intros Hp Hf. apply ok_bind. eapply ok_mono; [exact Hp|]. intros a st' []. by apply Hf. Qed.

Lemma ok_ret {A} (a : A) st (Q : A -> Toks -> Prop) : Q a st -> ok (mret a) st Q.
Proof. done. Qed.

Lemma ok_get {B} (f : Toks -> parser B) st Q : ok (f st) st Q -> ok (get ≫= f) st Q.
Proof. intros Hf. by apply ok_bind. Qed.

Lemma ok_fail {A} m st (Q : A -> Toks -> Prop) : ok (fail m) st Q.
Proof. done. Qed.
Lemma ok_fail_at {A} p m st (Q : A -> Toks -> Prop) : ok (fail_at p m) st Q.
Proof. done. Qed.
Lemma ok_too_deep {A} st (Q : A -> Toks -> Prop) : ok fail_too_deep st Q.
Proof. done. Qed.
Lemma ok_fail_state {A} c m st (Q : A -> Toks -> Prop) : ok (fail_state c m) st Q.
Proof. done. Qed.

(** ** Moving forward *)

Lemma wf_cons t p st : wf ((t, p) :: st) -> t = TkEof /\ st = [] \/ t <> TkEof /\ wf st.
Proof.
  intros (init & q & E & Hi). destruct init as [|x init]; simplify_list_eq; [by left|].
  apply Forall_cons in Hi as [Ht Hi]. right. split; [done|]. by exists init, q.
Qed.

Lemma wf_nonempty st : wf st -> exists t p st', st = (t, p) :: st'.
Proof. intros (init & q & -> & _). destruct init as [|[t p] init]; by eexists _, _, _. Qed.

Lemma bump_spec st :
  wf st -> exists st', bump st = POk (tok st) st' /\ wf st' /\
    (if decide (tok st = TkEof) then st' = st else (length st' < length st)%nat).
Proof.
  intros Hw. destruct (wf_nonempty st Hw) as (t & p & st' & ->). cbn [bump tok].
  destruct (wf_cons _ _ _ Hw) as [[-> ->]|[Ht Hw']].
  - eexists. split; [done|]. split; [done|]. by rewrite decide_True.
  - exists st'. destruct (wf_nonempty st' Hw') as (t' & p' & st'' & ->).
    split; [done|]. split; [done|]. rewrite decide_False by done. cbn [length]. lia.
Qed.

Lemma ok_bump st : wf st -> ok bump st (no_longer st).
Proof.
  intros Hw. destruct (bump_spec st Hw) as (st' & E & Hw' & Hl). unfold ok. rewrite E.
  split; [done|]. case_decide; [by subst|lia].
Qed.

Lemma ok_bump_lt st : wf st -> tok st <> TkEof -> ok bump st (shorter st).
Proof.
  intros Hw Ht. destruct (bump_spec st Hw) as (st' & E & Hw' & Hl). unfold ok. rewrite E.
  rewrite decide_False in Hl by done. done.
Qed.

Lemma ok_bind_bump {B} (f : Token -> parser B) st Q :
  wf st ->
  (forall st', wf st' -> (length st' <= length st)%nat -> ok (f (tok st)) st' Q) ->
  ok (bump ≫= f) st Q.
Proof.
  intros Hw Hf. destruct (bump_spec st Hw) as (st' & E & Hw' & Hl).
  unfold ok, mbind, parser_bind. rewrite E. apply Hf; [done|]. case_decide; [by subst|lia].
Qed.

Lemma ok_bump_then {B} (f : Token -> parser B) st (Q : B -> Toks -> Prop) :
  wf st ->
  (forall st', wf st' -> (length st' <= length st)%nat ->
     tok st = TkEof \/ (length st' < length st)%nat -> ok (f (tok st)) st' Q) ->
  ok (bump ≫= f) st Q.
Proof.
  intros Hw Hf. destruct (bump_spec st Hw) as (st' & E & Hw' & Hl).
  unfold ok, mbind, parser_bind. rewrite E.
  apply Hf; [done|case_decide; [by subst|lia]|case_decide; [by left|by right]].
Qed.

Lemma ok_bind_bump_lt {B} (f : Token -> parser B) st Q :
  wf st -> tok st <> TkEof ->
  (forall st', wf st' -> (length st' < length st)%nat -> ok (f (tok st)) st' Q) ->
  ok (bump ≫= f) st Q.
Proof.
  intros Hw Ht Hf. destruct (bump_spec st Hw) as (st' & E & Hw' & Hl).
  unfold ok, mbind, parser_bind. rewrite E. apply Hf; [done|]. by rewrite decide_False in Hl.
Qed.

Lemma is_tok_tok t st : is_tok t st = true -> tok st = t.
Proof. unfold is_tok. apply bool_decide_eq_true. Qed.

Lemma is_kw_tok k st : is_kw k st = true -> tok st = TkKeyword k.
Proof. apply is_tok_tok. Qed.

Lemma kw_in_not_eof ks t : kw_in ks t = true -> t <> TkEof.
Proof. by intros Hk ->. Qed.

Lemma ok_bind_eat {B} k (f : bool -> parser B) st Q :
  wf st ->
  (forall st', wf st' -> (length st' < length st)%nat -> ok (f true) st' Q) ->
  ok (f false) st Q -> ok (eat_keyword k ≫= f) st Q.
Proof.
  intros Hw Ht Hf. apply ok_bind. unfold eat_keyword.
  unfold ok at 1. destruct (is_kw k st) eqn:E; [|exact Hf].
  apply is_kw_tok in E. change (ok (bump ≫= fun _ => mret true) st (fun a st' => ok (f a) st' Q)).
  apply ok_bind_bump_lt; [done|congruence|]. intros st' Hw' Hl. by apply Ht.
Qed.

Lemma ok_bind_comma {B} (f : bool -> parser B) st Q :
  wf st ->
  (forall st', wf st' -> (length st' < length st)%nat -> ok (f true) st' Q) ->
  ok (f false) st Q -> ok (eat_comma ≫= f) st Q.
Proof.
  intros Hw Ht Hf. apply ok_bind. unfold eat_comma.
  unfold ok at 1. destruct (is_tok TkComma st) eqn:E; [|exact Hf].
  apply is_tok_tok in E. change (ok (bump ≫= fun _ => mret true) st (fun a st' => ok (f a) st' Q)).
  apply ok_bind_bump_lt; [done|congruence|]. intros st' Hw' Hl. by apply Ht.
Qed.

(** One step of a proof about a method: apply the rule of the first call. The
    rules for calls of methods are in the hint database [parse_ok]. *)
Create HintDb parse_ok.
Ltac side := first [assumption | done | congruence | lia
                   | eapply kw_in_not_eof; eassumption].
Ltac eof_absurd :=
  match goal with
  | H : _ = TkEof \/ _ |- _ =>
      destruct H as [H|H]; [exfalso; first [congruence | discriminate | rewrite H in *; discriminate]|]
  end.
Ltac pstep :=
  lazymatch goal with
  | |- ok (mret _) _ _ => apply ok_ret
  | |- ok (fail _) _ _ => apply ok_fail
  | |- ok (fail_at _ _) _ _ => apply ok_fail_at
  | |- ok (fail_state _ _) _ _ => apply ok_fail_state
  | |- ok fail_too_deep _ _ => apply ok_too_deep
  | |- ok (mbind _ get) _ _ => apply ok_get
  | |- ok (mbind _ (mret _)) _ _ => apply ok_bind, ok_ret
  | |- ok (mbind _ (eat_keyword _)) _ _ => apply ok_bind_eat; [side|intros ? ? ?|]
  | |- ok (mbind _ eat_comma) _ _ => apply ok_bind_comma; [side|intros ? ? ?|]
  | |- ok (mbind _ (if ?b then _ else _)) _ _ => destruct b eqn:?
  | |- ok (mbind _ (match ?b with _ => _ end)) _ _ => destruct b eqn:?
  | |- ok (if ?b then _ else _) _ _ => destruct b eqn:?
  | |- ok (match ?b with _ => _ end) _ _ => destruct b eqn:?
  | |- ok (mbind _ bump) _ _ =>
      first [apply ok_bind_bump_lt; [side|side|intros ? ? ?]
            |apply ok_bump_then; [side|intros ? ? ? ?]]
  | |- ok (mbind _ _) _ _ =>
      first [apply ok_bind_lt; [solve [eauto with parse_ok lia]|intros ? ? ? ?]
            |apply ok_bind_le; [solve [eauto with parse_ok lia]|intros ? ? ? ?]
            |apply ok_bind]
  | |- no_longer _ _ _ => split; [assumption|lia]
  | |- shorter _ _ _ => split; [assumption|first [lia | eof_absurd; lia]]
  | |- ok _ _ _ => eapply ok_mono; [solve [eauto with parse_ok lia]|intros ? ? [? ?]]
  end.
Ltac tok_facts :=
  repeat match goal with
  | H : is_tok _ _ = true |- _ => apply is_tok_tok in H
  | H : is_kw _ _ = true |- _ => apply is_kw_tok in H
  end.
Ltac pgo := repeat first [progress cbv beta zeta | progress tok_facts | pstep].

Section Total.
Context `{Ext}.

Lemma ok_expect want st : want <> TkEof -> wf st -> ok (expect want) st (shorter st).
Proof.
  intros Hne Hw. unfold expect. unfold ok. destruct (is_tok want st) eqn:E; [|done].
  apply is_tok_tok in E. change (ok (bump ≫= fun _ => mret ()) st (shorter st)).
  apply ok_bind_bump_lt; [done|congruence|]. intros st' Hw' Hl. by apply ok_ret.
Qed.

Lemma ok_bind_expect {B} want (f : unit -> parser B) st Q :
  want <> TkEof -> wf st ->
  (forall st', wf st' -> (length st' < length st)%nat -> ok (f ()) st' Q) ->
  ok (expect want ≫= f) st Q.
Proof. intros Hne Hw Hf. apply ok_bind_lt; [by apply ok_expect|]. intros []. apply Hf. Qed.

Lemma ok_ident st : wf st -> ok expect_ident st (shorter st).
Proof.
  intros Hw. unfold expect_ident. destruct (decide (tok st = TkEof)) as [E|E].
  - apply ok_bind_bump; [done|]. intros st' _ _. by rewrite E.
  - apply ok_bind_bump_lt; [done|done|]. intros st' Hw' Hl. destruct (tok st); try apply ok_fail.
    by apply ok_ret.
Qed.

#[local] Hint Resolve ok_bump ok_ident : parse_ok.
#[local] Hint Extern 1 (ok (expect _) _ _) => apply ok_expect; [done|assumption] : parse_ok.
#[local] Hint Extern 1 (ok (expect_kw _) _ _) => apply ok_expect; [done|assumption] : parse_ok.

Lemma ok_le {A} (p : parser A) st : ok p st (shorter st) -> ok p st (no_longer st).
Proof. intros Hp. eapply ok_mono; [exact Hp|]. intros a st' []. split; [done|lia]. Qed.

Lemma ok_ident_eq w st : wf st -> ok (expect_ident_eq w) st (shorter st).
Proof. intros Hw. unfold expect_ident_eq. pgo. Qed.

Lemma ok_string_lit st : wf st -> ok expect_string_lit st (shorter st).
Proof. intros Hw. unfold expect_string_lit. pgo. Qed.

Lemma ok_u16 w st : wf st -> ok (expect_u16 w) st (shorter st).
Proof. intros Hw. unfold expect_u16. pgo. Qed.

Lemma ok_int_count w st : wf st -> ok (expect_int_count w) st (shorter st).
Proof. intros Hw. unfold expect_int_count. pgo. Qed.
#[local] Hint Resolve ok_ident_eq ok_string_lit ok_u16 ok_int_count : parse_ok.

Lemma ok_typmod st : wf st -> ok parse_numeric_typmod st (shorter st).
Proof. intros Hw. unfold parse_numeric_typmod. pgo. Qed.
#[local] Hint Resolve ok_typmod : parse_ok.

Lemma ok_type_name st : wf st -> ok parse_type_name st (shorter st).
Proof.
  intros Hw. unfold parse_type_name. pgo.
Qed.

#[local] Hint Resolve ok_type_name : parse_ok.

(** ** Lists *)

Lemma ok_sep_loop {A} fuel (item : parser A) st :
  (length st < fuel)%nat -> wf st ->
  (forall st', wf st' -> (length st' <= length st)%nat -> ok item st' (no_longer st')) ->
  ok (sep_loop fuel item) st (no_longer st).
Proof.
  revert st; induction fuel as [|fuel IH]; intros st Hf Hw Hi; [lia|]. cbn [sep_loop].
  apply ok_bind_le; [by apply Hi|]. intros a st' Hw' Hl. pgo.
Qed.

Lemma ok_sep_list {A} (item : parser A) st :
  wf st ->
  (forall st', wf st' -> (length st' <= length st)%nat -> ok item st' (no_longer st')) ->
  ok (sep_list item) st (no_longer st).
Proof. intros Hw Hi. apply ok_sep_loop; [lia|done|done]. Qed.

Lemma ok_sep_idents st : wf st -> ok (sep_list expect_ident) st (no_longer st).
Proof. intros Hw. apply ok_sep_list; [done|]. intros. by apply ok_le, ok_ident. Qed.
#[local] Hint Resolve ok_sep_idents : parse_ok.

Lemma ok_paren_idents st : wf st -> ok paren_idents st (shorter st).
Proof. intros Hw. unfold paren_idents. pgo. Qed.
#[local] Hint Resolve ok_paren_idents : parse_ok.

Lemma ok_column_aliases st : wf st -> ok opt_column_aliases st (no_longer st).
Proof. intros Hw. unfold opt_column_aliases. pgo. Qed.

Lemma ok_opt_alias st : wf st -> ok opt_alias st (no_longer st).
Proof. intros Hw. unfold opt_alias. pgo. Qed.
#[local] Hint Resolve ok_column_aliases ok_opt_alias : parse_ok.

Lemma ok_enter d st : wf st -> ok (enter d) st (fun _ st' => st' = st).
Proof. intros Hw. unfold enter, ok. by destruct (_ <? _)%nat. Qed.

Lemma ok_bind_enter {B} d (f : nat -> parser B) st Q :
  (forall d', ok (f d') st Q) -> ok (enter d ≫= f) st Q.
Proof.
  intros Hf. apply ok_bind. unfold enter, ok. destruct (_ <? _)%nat; [done|]. apply Hf.
Qed.

(** ** Methods

    The recursive methods answer on every state of fewer than [n] tokens. *)
Section Methods.
Variables (r : Parsers) (n : nat).

Record rec_ok : Prop := {
  rec_expr d m st : wf st -> (length st < n)%nat -> ok (r_expr r d m) st (no_longer st);
  rec_query d st : wf st -> (length st < n)%nat -> ok (r_query_expr r d) st (no_longer st);
  rec_paren d st : wf st -> (length st < n)%nat -> ok (r_after_open_paren r d) st (no_longer st);
  rec_set d m st : wf st -> (length st < n)%nat -> ok (r_set_expr r d m) st (no_longer st);
  rec_join d st : wf st -> (length st < n)%nat -> ok (r_join_tree r d) st (no_longer st)
}.
Hypothesis Hr : rec_ok.

#[local] Hint Extern 1 (ok (r_expr r _ _) _ _) => apply (rec_expr Hr); [assumption|lia] : parse_ok.
#[local] Hint Extern 1 (ok (r_query_expr r _) _ _) =>
  apply (rec_query Hr); [assumption|lia] : parse_ok.
#[local] Hint Extern 1 (ok (r_after_open_paren r _) _ _) =>
  apply (rec_paren Hr); [assumption|lia] : parse_ok.
#[local] Hint Extern 1 (ok (r_set_expr r _ _) _ _) =>
  apply (rec_set Hr); [assumption|lia] : parse_ok.
#[local] Hint Extern 1 (ok (r_join_tree r _) _ _) =>
  apply (rec_join Hr); [assumption|lia] : parse_ok.

Lemma ok_exprs d m st :
  wf st -> (length st < n)%nat -> ok (sep_list (r_expr r d m)) st (no_longer st).
Proof. intros Hw Hl. apply ok_sep_list; [done|]. intros. apply (rec_expr Hr); [done|lia]. Qed.
#[local] Hint Extern 1 (ok (sep_list (r_expr r _ _)) _ _) =>
  apply ok_exprs; [assumption|lia] : parse_ok.

Lemma ok_func_call d name st :
  wf st -> (length st <= n)%nat -> ok (func_call r d name) st (shorter st).
Proof. intros Hw Hl. unfold func_call. pgo. Qed.

#[local] Hint Extern 1 (ok (func_call r _ _) _ _) =>
  apply ok_func_call; [assumption|lia] : parse_ok.

Lemma ok_keyword_func_call d name st :
  wf st -> (length st <= n)%nat -> ok (keyword_func_call r d name) st (no_longer st).
Proof. intros Hw Hl. unfold keyword_func_call. pgo. Qed.
#[local] Hint Extern 1 (ok (keyword_func_call r _ _) _ _) =>
  apply ok_keyword_func_call; [assumption|lia] : parse_ok.

Lemma ok_extract d st :
  wf st -> (length st <= n)%nat -> ok (extract_expr r d) st (shorter st).
Proof. intros Hw Hl. unfold extract_expr. pgo. Qed.
#[local] Hint Extern 1 (ok (extract_expr r _) _ _) =>
  apply ok_extract; [assumption|lia] : parse_ok.

Lemma ok_is_null lhs st : wf st -> ok (parse_is_null lhs) st (shorter st).
Proof. intros Hw. unfold parse_is_null. pgo. Qed.
#[local] Hint Resolve ok_is_null : parse_ok.

Lemma ok_in d lhs neg st :
  wf st -> (length st <= n)%nat -> ok (parse_in r d lhs neg) st (shorter st).
Proof. intros Hw Hl. unfold parse_in. pgo. Qed.
#[local] Hint Extern 1 (ok (parse_in r _ _ _) _ _) =>
  apply ok_in; [assumption|lia] : parse_ok.

Lemma ok_between d lhs neg st :
  wf st -> (length st <= n)%nat -> ok (parse_between r d lhs neg) st (shorter st).
Proof. intros Hw Hl. unfold parse_between. pgo. Qed.
#[local] Hint Extern 1 (ok (parse_between r _ _ _) _ _) =>
  apply ok_between; [assumption|lia] : parse_ok.

Lemma ok_like d lhs neg ci st :
  wf st -> tok st <> TkEof -> (length st <= n)%nat ->
  ok (parse_like r d lhs neg ci) st (shorter st).
Proof. intros Hw Ht Hl. unfold parse_like. pgo. Qed.

Lemma ok_when_loop fuel d st :
  (length st < fuel)%nat -> wf st -> (length st <= n)%nat ->
  ok (when_loop r fuel d) st (no_longer st).
Proof.
  revert st; induction fuel as [|fuel IH]; intros st Hf Hw Hl; [lia|]. cbn [when_loop]. pgo.
Qed.
#[local] Hint Extern 1 (ok (when_loop r _ _) _ _) =>
  apply ok_when_loop; [lia|assumption|lia] : parse_ok.

Lemma ok_case d st :
  wf st -> (length st <= n)%nat -> ok (case_expr r d) st (shorter st).
Proof. intros Hw Hl. unfold case_expr. pgo. Qed.
#[local] Hint Extern 1 (ok (case_expr r _) _ _) =>
  apply ok_case; [assumption|lia] : parse_ok.

Lemma ok_cast d st :
  wf st -> (length st <= n)%nat -> ok (cast_expr r d) st (shorter st).
Proof. intros Hw Hl. unfold cast_expr. pgo. Qed.
#[local] Hint Extern 1 (ok (cast_expr r _) _ _) =>
  apply ok_cast; [assumption|lia] : parse_ok.

(** The token after the one taken off is the one that was looked ahead at. *)
Lemma ok_bump_next {B} (f : Token -> parser B) st (Q : B -> Toks -> Prop) :
  wf st -> tok st <> TkEof ->
  (forall st', wf st' -> (length st' < length st)%nat -> tok st' = tok2 st ->
     ok (f (tok st)) st' Q) ->
  ok (bump ≫= f) st Q.
Proof.
  intros Hw Ht Hf. destruct (wf_nonempty st Hw) as (t & p & st' & ->). cbn [tok] in Ht.
  destruct (wf_cons _ _ _ Hw) as [[-> ->]|[_ Hw']]; [done|].
  destruct (wf_nonempty st' Hw') as (t' & p' & st'' & ->).
  apply (Hf ((t', p') :: st'')); [done|cbn [length]; lia|done].
Qed.

Lemma datetime_word_type w : one_of w datetime_words = true -> exists ty, from_sql_name w = Some ty.
Proof.
  unfold one_of. intros Hw%bool_decide_eq_true. revert Hw. unfold datetime_words.
  intros Hw. repeat (apply elem_of_cons in Hw as [->|Hw]; [by eexists|]).
  by apply not_elem_of_nil in Hw.
Qed.

Lemma lower_idem w : to_ascii_lowercase (to_ascii_lowercase w) = to_ascii_lowercase w.
Proof.
  induction w as [|c w IH]; [done|]. cbn [to_ascii_lowercase]. f_equal; [|done].
  by destruct c as [[] [] [] [] [] [] [] []].
Qed.

Lemma ok_prefix_ident d s st :
  wf st -> (length st <= n)%nat -> tok st = TkIdent s ->
  ok (prefix_ident r d s) st (no_longer st).
Proof.
  intros Hw Hl Ht. unfold prefix_ident. apply ok_get. cbv zeta.
  destruct (one_of _ _ && is_string_lit _) eqn:Hd; [|pgo].
  apply ok_bump_next; [done|congruence|]. intros st1 Hw1 Hl1 Ht1.
  apply andb_prop in Hd as [Hd Hs]. apply datetime_word_type in Hd as [ty ->].
  destruct (tok2 st) eqn:E2; try done. apply ok_bump_then; [done|]. intros st2 Hw2 Hl2 _.
  rewrite Ht1. pgo.
Qed.
#[local] Hint Extern 1 (ok (prefix_ident r _ _) _ _) =>
  apply ok_prefix_ident; [assumption|lia|assumption] : parse_ok.

Lemma ok_lit {A} (a : A) st : wf st -> ok (lit a) st (no_longer st).
Proof. intros Hw. unfold lit. pgo. Qed.
#[local] Hint Resolve ok_lit : parse_ok.

Lemma ok_prefix d st : wf st -> (length st <= n)%nat -> ok (prefix r d) st (no_longer st).
Proof.
  intros Hw Hl. unfold prefix. pgo.
Qed.

#[local] Hint Extern 1 (ok (prefix r _) _ _) => apply ok_prefix; [assumption|lia] : parse_ok.

#[local] Hint Extern 1 (ok (parse_like r _ _ _ _) _ _) =>
  apply ok_like; [assumption|side|lia] : parse_ok.

Lemma ok_postfix d lhs st p :
  wf st -> (length st <= n)%nat -> postfix r d lhs st = Some p -> ok p st (no_longer st).
Proof.
  intros Hw Hl. unfold postfix. destruct (tok st) as [|k| | | | | | | | | | | | | | | | | | | | | |] eqn:Et;
    try done.
  destruct k; try done; try (intros [= <-]; apply ok_le; pgo).
  destruct (tok2 st) as [|k2| | | | | | | | | | | | | | | | | | | | | |] eqn:E2; try done.
  destruct k2; try done; intros [= <-].
  all: apply ok_bump_next; [done|congruence|]; intros st' Hw' Hl' Ht'; pgo.
Qed.

Lemma ok_pratt_step d m lhs st :
  wf st -> (length st <= n)%nat -> ok (pratt_step r d m lhs) st (no_longer st).
Proof.
  intros Hw Hl. unfold pratt_step. apply ok_get.
  destruct (is_tok TkTypeCast st) eqn:E1; [pgo|].
  destruct (_ && _) eqn:E2.
  { apply andb_prop in E2 as [[E2 _]%andb_prop _]. assert (tok st <> TkEof) by by intros Ht; rewrite Ht in E2.
    pgo. }
  destruct (if m <=? 5 then _ else _) as [p|] eqn:Ep.
  - destruct (m <=? 5); [|done]. apply ok_bind_le; [by eapply ok_postfix|]. intros. pgo.
  - destruct (infix_op (tok st)) as [[[op l_bp] r_bp]|] eqn:Eo; [|pgo].
    assert (tok st <> TkEof) by by intros Ht; rewrite Ht in Eo. pgo.
Qed.
#[local] Hint Extern 1 (ok (pratt_step r _ _ _) _ _) =>
  apply ok_pratt_step; [assumption|lia] : parse_ok.

Lemma ok_pratt turns d m lhs st :
  wf st -> (length st <= n)%nat -> ok (pratt r turns d m lhs) st (no_longer st).
Proof.
  revert lhs st; induction turns as [|turns IH]; intros lhs st Hw Hl; cbn [pratt]; pgo.
Qed.
#[local] Hint Extern 1 (ok (pratt r _ _ _ _) _ _) =>
  apply ok_pratt; [assumption|lia] : parse_ok.

Lemma ok_expr d m st : wf st -> (length st <= n)%nat -> ok (expr r d m) st (no_longer st).
Proof. intros Hw Hl. unfold expr. apply ok_bind_enter. intros d'. pgo. Qed.

Lemma ok_opt_expr d k st :
  wf st -> (length st <= n)%nat -> ok (opt_expr r d k) st (no_longer st).
Proof. intros Hw Hl. unfold opt_expr. pgo. Qed.
#[local] Hint Extern 1 (ok (opt_expr r _ _) _ _) =>
  apply ok_opt_expr; [assumption|lia] : parse_ok.

Lemma ok_select_item d st :
  wf st -> (length st < n)%nat -> ok (select_item r d) st (no_longer st).
Proof. intros Hw Hl. unfold select_item. pgo. Qed.
#[local] Hint Extern 1 (ok (select_item r _) _ _) =>
  apply ok_select_item; [assumption|lia] : parse_ok.

Lemma ok_select_items d st :
  wf st -> (length st < n)%nat -> ok (sep_list (select_item r d)) st (no_longer st).
Proof. intros Hw Hl. apply ok_sep_list; [done|]. intros. pgo. Qed.
#[local] Hint Extern 1 (ok (sep_list (select_item r _)) _ _) =>
  apply ok_select_items; [assumption|lia] : parse_ok.

Lemma ok_join_trees d st :
  wf st -> (length st < n)%nat -> ok (sep_list (r_join_tree r d)) st (no_longer st).
Proof. intros Hw Hl. apply ok_sep_list; [done|]. intros. pgo. Qed.
#[local] Hint Extern 1 (ok (sep_list (r_join_tree r _)) _ _) =>
  apply ok_join_trees; [assumption|lia] : parse_ok.

Lemma ok_from d st :
  wf st -> (length st < n)%nat -> ok (parse_from r d) st (no_longer st).
Proof. intros Hw Hl. unfold parse_from. pgo. Qed.
#[local] Hint Extern 1 (ok (parse_from r _) _ _) =>
  apply ok_from; [assumption|lia] : parse_ok.

Lemma ok_select_core d st :
  wf st -> (length st <= n)%nat -> ok (select_core r d) st (shorter st).
Proof. intros Hw Hl. unfold select_core. apply ok_bind_enter. intros d'. pgo. Qed.
#[local] Hint Extern 1 (ok (select_core r _) _ _) =>
  apply ok_select_core; [assumption|lia] : parse_ok.

Lemma ok_values_row d st :
  wf st -> (length st <= n)%nat -> ok (values_row r d) st (no_longer st).
Proof. intros Hw Hl. unfold values_row. pgo. Qed.
#[local] Hint Extern 1 (ok (values_row r _) _ _) =>
  apply ok_values_row; [assumption|lia] : parse_ok.

Lemma ok_values_rows d st :
  wf st -> (length st <= n)%nat -> ok (sep_list (values_row r d)) st (no_longer st).
Proof. intros Hw Hl. apply ok_sep_list; [done|]. intros. pgo. Qed.
#[local] Hint Extern 1 (ok (sep_list (values_row r _)) _ _) =>
  apply ok_values_rows; [assumption|lia] : parse_ok.

Lemma ok_values d st :
  wf st -> (length st <= n)%nat -> ok (values_stmt r d) st (shorter st).
Proof. intros Hw Hl. unfold values_stmt. pgo. Qed.
#[local] Hint Extern 1 (ok (values_stmt r _) _ _) =>
  apply ok_values; [assumption|lia] : parse_ok.

Lemma ok_order_item d st :
  wf st -> (length st < n)%nat -> ok (order_item r d) st (no_longer st).
Proof. intros Hw Hl. unfold order_item. pgo. Qed.
#[local] Hint Extern 1 (ok (order_item r _) _ _) =>
  apply ok_order_item; [assumption|lia] : parse_ok.

Lemma ok_order_items d st :
  wf st -> (length st < n)%nat -> ok (sep_list (order_item r d)) st (no_longer st).
Proof. intros Hw Hl. apply ok_sep_list; [done|]. intros. pgo. Qed.
#[local] Hint Extern 1 (ok (sep_list (order_item r _)) _ _) =>
  apply ok_order_items; [assumption|lia] : parse_ok.

(** LIMIT and OFFSET take at most three turns. *)
Lemma ok_limit_loop turns (limit offset : option Z) st :
  wf st ->
  (match limit with Some _ => 0 | None => 1 end +
   match offset with Some _ => 0 | None => 1 end < turns)%nat ->
  ok (limit_loop turns limit offset) st (no_longer st).
Proof.
  revert limit offset st; induction turns as [|turns IH]; intros limit offset st Hw Ht; [lia|].
  cbn [limit_loop]. destruct limit as [l|], offset as [o|]; pgo; cbn [Nat.add] in *; lia.
Qed.

Lemma ok_set_tail d st : wf st -> (length st <= n)%nat -> ok (parse_set_tail r d) st (no_longer st).
Proof.
  intros Hw Hl. unfold parse_set_tail.
  assert (forall st', wf st' -> ok (limit_loop 3 None None) st' (no_longer st')) as Hlim.
  { intros st' Hw'. apply ok_limit_loop; [done|cbn; lia]. }
  pgo.
Qed.
#[local] Hint Extern 1 (ok (parse_set_tail r _) _ _) =>
  apply ok_set_tail; [assumption|lia] : parse_ok.

Lemma ok_locking st : wf st -> ok (parse_locking) st (no_longer st).
Proof. intros Hw. unfold parse_locking. pgo. Qed.
#[local] Hint Resolve ok_locking : parse_ok.

Lemma ok_tail_locking d st :
  wf st -> (length st <= n)%nat -> ok (parse_query_tail_and_locking r d) st (no_longer st).
Proof. intros Hw Hl. unfold parse_query_tail_and_locking. pgo. Qed.
#[local] Hint Extern 1 (ok (parse_query_tail_and_locking r _) _ _) =>
  apply ok_tail_locking; [assumption|lia] : parse_ok.

Lemma ok_set_branch q st : wf st -> ok (query_expr_as_set_branch q) st (no_longer st).
Proof. intros Hw. unfold query_expr_as_set_branch. pgo. Qed.
#[local] Hint Resolve ok_set_branch : parse_ok.

Lemma ok_finish b o l f k st : wf st -> ok (finish_query_expr b o l f k) st (no_longer st).
Proof. intros Hw. unfold finish_query_expr. pgo. Qed.
#[local] Hint Resolve ok_finish : parse_ok.

Lemma ok_cte_loop fuel d ctes st :
  (length st < fuel)%nat -> wf st -> (length st <= n)%nat ->
  ok (cte_loop r fuel d ctes) st (no_longer st).
Proof.
  revert ctes st; induction fuel as [|fuel IH]; intros ctes st Hf Hw Hl; [lia|].
  cbn [cte_loop]. pgo.
Qed.
#[local] Hint Extern 1 (ok (cte_loop r _ _ _) _ _) =>
  apply ok_cte_loop; [lia|assumption|lia] : parse_ok.

Lemma ok_with_clause d st :
  wf st -> (length st <= n)%nat -> ok (parse_with_clause r d) st (no_longer st).
Proof. intros Hw Hl. unfold parse_with_clause. pgo. Qed.
#[local] Hint Extern 1 (ok (parse_with_clause r _) _ _) =>
  apply ok_with_clause; [assumption|lia] : parse_ok.

Lemma ok_set_rest turns d left m st :
  wf st -> (length st <= n)%nat -> ok (set_expr_rest r turns d left m) st (no_longer st).
Proof.
  revert left st; induction turns as [|turns IH]; intros left st Hw Hl; cbn [set_expr_rest];
    apply ok_get; (destruct (set_op_of (tok st)) as [[op prec]|] eqn:Eo; [|pgo]).
  - pgo.
  - assert (tok st <> TkEof) by by intros Ht; rewrite Ht in Eo. pgo.
Qed.
#[local] Hint Extern 1 (ok (set_expr_rest r _ _ _ _) _ _) =>
  apply ok_set_rest; [assumption|lia] : parse_ok.

Lemma ok_paren_tail d inner st :
  wf st -> (length st <= n)%nat -> ok (attach_paren_tail r d inner) st (no_longer st).
Proof. intros Hw Hl. unfold attach_paren_tail. pgo. Qed.
#[local] Hint Extern 1 (ok (attach_paren_tail r _ _) _ _) =>
  apply ok_paren_tail; [assumption|lia] : parse_ok.

Lemma ok_set_primary d st :
  wf st -> (length st <= n)%nat -> ok (set_primary r d) st (no_longer st).
Proof. intros Hw Hl. unfold set_primary. pgo. Qed.
#[local] Hint Extern 1 (ok (set_primary r _) _ _) =>
  apply ok_set_primary; [assumption|lia] : parse_ok.

Lemma ok_set_expr d m st : wf st -> (length st <= n)%nat -> ok (set_expr r d m) st (no_longer st).
Proof. intros Hw Hl. unfold set_expr. apply ok_bind_enter. intros d'. pgo. Qed.

Lemma ok_join_kind st : wf st -> ok (join_kind) st (shorter st).
Proof. intros Hw. unfold join_kind. pgo. Qed.
#[local] Hint Resolve ok_join_kind : parse_ok.

Lemma ok_table_factor d st :
  wf st -> (length st <= n)%nat -> ok (table_factor r d) st (no_longer st).
Proof. intros Hw Hl. unfold table_factor. pgo. Qed.
#[local] Hint Extern 1 (ok (table_factor r _) _ _) =>
  apply ok_table_factor; [assumption|lia] : parse_ok.

Lemma ok_join_constraint d nat kind st :
  wf st -> (length st <= n)%nat -> ok (join_constraint r d nat kind) st (no_longer st).
Proof. intros Hw Hl. unfold join_constraint. pgo. Qed.
#[local] Hint Extern 1 (ok (join_constraint r _ _ _) _ _) =>
  apply ok_join_constraint; [assumption|lia] : parse_ok.

Lemma ok_join_loop fuel d left st :
  (length st < fuel)%nat -> wf st -> (length st <= n)%nat ->
  ok (join_loop r fuel d left) st (no_longer st).
Proof.
  revert left st; induction fuel as [|fuel IH]; intros left st Hf Hw Hl; [lia|].
  cbn [join_loop]. pgo.
Qed.
#[local] Hint Extern 1 (ok (join_loop r _ _ _) _ _) =>
  apply ok_join_loop; [lia|assumption|lia] : parse_ok.

Lemma ok_join_tree d st :
  wf st -> (length st <= n)%nat -> ok (join_tree r d) st (no_longer st).
Proof. intros Hw Hl. unfold join_tree. pgo. Qed.
#[local] Hint Extern 1 (ok (join_tree r _) _ _) =>
  apply ok_join_tree; [assumption|lia] : parse_ok.

(** The query methods call [set_expr] on their own state. *)
Hypothesis Hset : forall d m st, wf st -> (length st <= n)%nat ->
  ok (r_set_expr r d m) st (no_longer st).
#[local] Hint Extern 0 (ok (r_set_expr r _ _) _ _) => apply Hset; [assumption|lia] : parse_ok.

Lemma ok_after_open_paren d st :
  wf st -> (length st <= n)%nat -> ok (query_expr_after_open_paren r d) st (no_longer st).
Proof. intros Hw Hl. unfold query_expr_after_open_paren. pgo. Qed.
#[local] Hint Extern 1 (ok (query_expr_after_open_paren r _) _ _) =>
  apply ok_after_open_paren; [assumption|lia] : parse_ok.

Lemma ok_finish_with_tail d w body st :
  wf st -> (length st <= n)%nat -> ok (finish_with_tail r d w body) st (no_longer st).
Proof. intros Hw Hl. unfold finish_with_tail. pgo. Qed.
#[local] Hint Extern 1 (ok (finish_with_tail r _ _ _) _ _) =>
  apply ok_finish_with_tail; [assumption|lia] : parse_ok.

Lemma ok_parenthesized d st :
  wf st -> (length st <= n)%nat -> ok (parenthesized_query_expr r d) st (no_longer st).
Proof. intros Hw Hl. unfold parenthesized_query_expr. pgo. Qed.
#[local] Hint Extern 1 (ok (parenthesized_query_expr r _) _ _) =>
  apply ok_parenthesized; [assumption|lia] : parse_ok.

Lemma ok_query_expr d st :
  wf st -> (length st <= n)%nat -> ok (query_expr r d) st (no_longer st).
Proof. intros Hw Hl. unfold query_expr. pgo. Qed.
#[local] Hint Extern 1 (ok (query_expr r _) _ _) =>
  apply ok_query_expr; [assumption|lia] : parse_ok.

End Methods.
(** ** The recursion *)

Lemma parsers_ok fuel :
  (forall d m st, wf st -> (3 * length st + 1 <= fuel)%nat ->
     ok (r_expr (parsers fuel) d m) st (no_longer st)) /\
  (forall d m st, wf st -> (3 * length st + 1 <= fuel)%nat ->
     ok (r_set_expr (parsers fuel) d m) st (no_longer st)) /\
  (forall d st, wf st -> (3 * length st + 1 <= fuel)%nat ->
     ok (r_join_tree (parsers fuel) d) st (no_longer st)) /\
  (forall d st, wf st -> (3 * length st + 2 <= fuel)%nat ->
     ok (r_after_open_paren (parsers fuel) d) st (no_longer st)) /\
  (forall d st, wf st -> (3 * length st + 2 <= fuel)%nat ->
     ok (r_query_expr (parsers fuel) d) st (no_longer st)).
Proof.
  induction fuel as [|fuel (IHe & IHs & IHj & IHp & IHq)]; [split_and!; intros; lia|].
  assert (forall n, (3 * n <= fuel)%nat -> rec_ok (parsers fuel) n) as Hrec.
  { intros n Hn. split; intros.
    - apply IHe; [done|lia].
    - apply IHq; [done|lia].
    - apply IHp; [done|lia].
    - apply IHs; [done|lia].
    - apply IHj; [done|lia]. }
  cbn [parsers r_expr r_set_expr r_join_tree r_after_open_paren r_query_expr]. split_and!; intros.
  - apply (ok_expr _ (length st)); [apply Hrec; lia|done|done].
  - apply (ok_set_expr _ (length st)); [apply Hrec; lia|done|done].
  - apply (ok_join_tree _ (length st)); [apply Hrec; lia|done|done].
  - apply (ok_after_open_paren _ (length st)); [apply Hrec; lia| |done|done].
    intros. apply IHs; [done|lia].
  - apply (ok_query_expr _ (length st)); [apply Hrec; lia| |done|done].
    intros. apply IHs; [done|lia].
Qed.

Lemma parsers_rec_ok fuel n : (3 * n <= fuel)%nat -> rec_ok (parsers fuel) n.
Proof.
  intros Hn. destruct (parsers_ok fuel) as (He & Hs & Hj & Hp & Hq). split; intros.
  - apply He; [done|lia].
  - apply Hq; [done|lia].
  - apply Hp; [done|lia].
  - apply Hs; [done|lia].
  - apply Hj; [done|lia].
Qed.

(** ** Statements *)

Lemma ok_lit_any {A} (a : A) st : wf st -> ok (lit a) st (no_longer st).
Proof. intros Hw. unfold lit. pgo. Qed.
#[local] Hint Resolve ok_lit_any : parse_ok.

Lemma ok_if_exists st : wf st -> ok eat_if_exists st (no_longer st).
Proof. intros Hw. unfold eat_if_exists. pgo. Qed.
#[local] Hint Resolve ok_if_exists : parse_ok.

Lemma ok_set_value st : wf st -> ok set_value st (no_longer st).
Proof. intros Hw. unfold set_value. pgo. Qed.
#[local] Hint Resolve ok_set_value : parse_ok.

Lemma ok_tz_value st : wf st -> ok set_time_zone_value st (no_longer st).
Proof. intros Hw. unfold set_time_zone_value. pgo. Qed.
#[local] Hint Resolve ok_tz_value : parse_ok.

Lemma ok_set_stmt st : wf st -> ok set_stmt st (no_longer st).
Proof. intros Hw. unfold set_stmt. pgo. Qed.
#[local] Hint Resolve ok_set_stmt : parse_ok.

Lemma ok_show st : wf st -> ok show_stmt st (no_longer st).
Proof. intros Hw. unfold show_stmt. pgo. Qed.
#[local] Hint Resolve ok_show : parse_ok.

Lemma ok_reset st : wf st -> ok reset_stmt st (no_longer st).
Proof. intros Hw. unfold reset_stmt. pgo. Qed.
#[local] Hint Resolve ok_reset : parse_ok.

Lemma ok_begin st : wf st -> ok begin st (no_longer st).
Proof. intros Hw. unfold begin. pgo. Qed.
#[local] Hint Resolve ok_begin : parse_ok.

Lemma ok_column_def st : wf st -> ok column_def st (no_longer st).
Proof. intros Hw. unfold column_def. pgo. Qed.
#[local] Hint Resolve ok_column_def : parse_ok.

Lemma ok_column_def_list st : wf st -> ok (sep_list column_def) st (no_longer st).
Proof. intros Hw. apply ok_sep_list; [done|]. intros. by apply ok_column_def. Qed.
#[local] Hint Resolve ok_column_def_list : parse_ok.

Lemma ok_column_defs st : wf st -> ok column_defs st (no_longer st).
Proof. intros Hw. unfold column_defs. pgo. Qed.
#[local] Hint Resolve ok_column_defs : parse_ok.

Lemma ok_create_table st : wf st -> ok create_table st (no_longer st).
Proof. intros Hw. unfold create_table. pgo. Qed.
#[local] Hint Resolve ok_create_table : parse_ok.

Lemma ok_drop_table st : wf st -> ok drop_table st (no_longer st).
Proof. intros Hw. unfold drop_table. pgo. Qed.
#[local] Hint Resolve ok_drop_table : parse_ok.

Lemma ok_option_pair st : wf st -> ok option_pair st (no_longer st).
Proof. intros Hw. unfold option_pair. pgo. Qed.
#[local] Hint Resolve ok_option_pair : parse_ok.

Lemma ok_option_pairs st : wf st -> ok (sep_list option_pair) st (no_longer st).
Proof. intros Hw. apply ok_sep_list; [done|]. intros. by apply ok_option_pair. Qed.
#[local] Hint Resolve ok_option_pairs : parse_ok.

Lemma ok_options st : wf st -> ok parse_options st (no_longer st).
Proof. intros Hw. unfold parse_options. pgo. Qed.
#[local] Hint Resolve ok_options : parse_ok.

Lemma ok_mapping_user st : wf st -> ok parse_user_mapping_user st (no_longer st).
Proof. intros Hw. unfold parse_user_mapping_user. pgo. Qed.
#[local] Hint Resolve ok_mapping_user : parse_ok.

Lemma ok_kws ks st : wf st -> ok (expect_kws ks) st (no_longer st).
Proof.
  revert st; induction ks as [|k ks IH]; intros st Hw; cbn [expect_kws]; pgo.
Qed.
#[local] Hint Resolve ok_kws : parse_ok.

Lemma ok_create_fdw st : wf st -> ok create_fdw st (no_longer st).
Proof. intros Hw. unfold create_fdw. pgo. Qed.
#[local] Hint Resolve ok_create_fdw : parse_ok.

Lemma ok_drop_fdw st : wf st -> ok drop_fdw st (no_longer st).
Proof. intros Hw. unfold drop_fdw. pgo. Qed.
#[local] Hint Resolve ok_drop_fdw : parse_ok.

Lemma ok_create_server st : wf st -> ok create_server st (no_longer st).
Proof. intros Hw. unfold create_server. pgo. Qed.
#[local] Hint Resolve ok_create_server : parse_ok.

Lemma ok_alter_server st : wf st -> ok alter_server st (no_longer st).
Proof. intros Hw. unfold alter_server. pgo. Qed.
#[local] Hint Resolve ok_alter_server : parse_ok.

Lemma ok_drop_server st : wf st -> ok drop_server st (no_longer st).
Proof. intros Hw. unfold drop_server. pgo. Qed.
#[local] Hint Resolve ok_drop_server : parse_ok.

Lemma ok_create_user_mapping st : wf st -> ok create_user_mapping st (no_longer st).
Proof. intros Hw. unfold create_user_mapping. pgo. Qed.
#[local] Hint Resolve ok_create_user_mapping : parse_ok.

Lemma ok_alter_user_mapping st : wf st -> ok alter_user_mapping st (no_longer st).
Proof. intros Hw. unfold alter_user_mapping. pgo. Qed.
#[local] Hint Resolve ok_alter_user_mapping : parse_ok.

Lemma ok_drop_user_mapping st : wf st -> ok drop_user_mapping st (no_longer st).
Proof. intros Hw. unfold drop_user_mapping. pgo. Qed.
#[local] Hint Resolve ok_drop_user_mapping : parse_ok.

Lemma ok_create_foreign_table st : wf st -> ok create_foreign_table st (no_longer st).
Proof. intros Hw. unfold create_foreign_table. pgo. Qed.
#[local] Hint Resolve ok_create_foreign_table : parse_ok.

Lemma ok_drop_foreign_table st : wf st -> ok drop_foreign_table st (no_longer st).
Proof. intros Hw. unfold drop_foreign_table. pgo. Qed.
#[local] Hint Resolve ok_drop_foreign_table : parse_ok.

Lemma ok_into_schema st : wf st -> ok into_schema st (no_longer st).
Proof. intros Hw. unfold into_schema. pgo. Qed.
#[local] Hint Resolve ok_into_schema : parse_ok.

Lemma ok_ident_list st : wf st -> ok parse_ident_list st (no_longer st).
Proof. intros Hw. unfold parse_ident_list. pgo. Qed.
#[local] Hint Resolve ok_ident_list : parse_ok.

Lemma ok_import st : wf st -> ok import_foreign_schema st (no_longer st).
Proof. intros Hw. unfold import_foreign_schema. pgo. Qed.
#[local] Hint Resolve ok_import : parse_ok.

Section Statements.
Variables (r : Parsers) (n : nat).
Hypothesis Hr : rec_ok r n.
#[local] Hint Extern 1 (ok (r_expr r _ _) _ _) => apply (rec_expr _ _ Hr); [assumption|lia] : parse_ok.
#[local] Hint Extern 1 (ok (r_query_expr r _) _ _) =>
  apply (rec_query _ _ Hr); [assumption|lia] : parse_ok.
#[local] Hint Extern 1 (ok (opt_expr r _ _) _ _) =>
  apply (ok_opt_expr _ _ Hr); [assumption|lia] : parse_ok.

Lemma ok_assignment st :
  wf st -> (length st < n)%nat -> ok (assignment r) st (no_longer st).
Proof. intros Hw Hl. unfold assignment. pgo. Qed.
#[local] Hint Extern 1 (ok (assignment r) _ _) =>
  apply ok_assignment; [assumption|lia] : parse_ok.

Lemma ok_assignments st :
  wf st -> (length st < n)%nat -> ok (sep_list (assignment r)) st (no_longer st).
Proof. intros Hw Hl. apply ok_sep_list; [done|]. intros. pgo. Qed.
#[local] Hint Extern 1 (ok (sep_list (assignment r)) _ _) =>
  apply ok_assignments; [assumption|lia] : parse_ok.

Lemma ok_update st :
  wf st -> (length st < n)%nat -> ok (update r) st (no_longer st).
Proof. intros Hw Hl. unfold update. pgo. Qed.
#[local] Hint Extern 1 (ok (update r) _ _) =>
  apply ok_update; [assumption|lia] : parse_ok.

Lemma ok_delete st :
  wf st -> (length st < n)%nat -> ok (delete_ r) st (no_longer st).
Proof. intros Hw Hl. unfold delete_. pgo. Qed.
#[local] Hint Extern 1 (ok (delete_ r) _ _) =>
  apply ok_delete; [assumption|lia] : parse_ok.

Lemma ok_insert_exprs st :
  wf st -> (length st < n)%nat -> ok (sep_list (r_expr r 0 0)) st (no_longer st).
Proof. intros Hw Hl. apply ok_sep_list; [done|]. intros. pgo. Qed.
#[local] Hint Extern 1 (ok (sep_list (r_expr r _ _)) _ _) =>
  apply ok_insert_exprs; [assumption|lia] : parse_ok.

Lemma ok_insert_row st :
  wf st -> (length st < n)%nat -> ok (insert_row r) st (no_longer st).
Proof. intros Hw Hl. unfold insert_row. pgo. Qed.
#[local] Hint Extern 1 (ok (insert_row r) _ _) =>
  apply ok_insert_row; [assumption|lia] : parse_ok.

Lemma ok_insert_rows st :
  wf st -> (length st < n)%nat -> ok (sep_list (insert_row r)) st (no_longer st).
Proof. intros Hw Hl. apply ok_sep_list; [done|]. intros. pgo. Qed.
#[local] Hint Extern 1 (ok (sep_list (insert_row r)) _ _) =>
  apply ok_insert_rows; [assumption|lia] : parse_ok.

Lemma ok_insert st :
  wf st -> (length st < n)%nat -> ok (insert r) st (no_longer st).
Proof. intros Hw Hl. unfold insert. pgo. Qed.
#[local] Hint Extern 1 (ok (insert r) _ _) =>
  apply ok_insert; [assumption|lia] : parse_ok.

Lemma ok_query_statement st :
  wf st -> (length st < n)%nat -> ok (query_statement r) st (no_longer st).
Proof. intros Hw Hl. unfold query_statement. pgo. Qed.
#[local] Hint Extern 1 (ok (query_statement r) _ _) =>
  apply ok_query_statement; [assumption|lia] : parse_ok.

Lemma ok_statement st :
  wf st -> (length st < n)%nat -> ok (statement r) st (no_longer st).
Proof. intros Hw Hl. unfold statement. pgo. Qed.
#[local] Hint Extern 1 (ok (statement r) _ _) =>
  apply ok_statement; [assumption|lia] : parse_ok.

Lemma ok_skip fuel st :
  (length st < fuel)%nat -> wf st -> ok (skip_semicolons fuel) st (no_longer st).
Proof.
  revert st; induction fuel as [|fuel IH]; intros st Hf Hw; [lia|]. cbn [skip_semicolons]. pgo.
Qed.
#[local] Hint Extern 1 (ok (skip_semicolons _) _ _) =>
  apply ok_skip; [lia|assumption] : parse_ok.

Lemma ok_program fuel st :
  (length st < fuel)%nat -> wf st -> (length st < n)%nat ->
  ok (program_loop r fuel) st (no_longer st).
Proof.
  revert st; induction fuel as [|fuel IH]; intros st Hf Hw Hl; [lia|]. cbn [program_loop]. pgo.
Qed.

End Statements.

Lemma lexed_wf i s ts : lexed i s ts -> wf ts.
Proof.
  intros (init & -> & Hf & _). eexists init, _. split; [done|].
  eapply Forall_impl; [exact Hf|]. naive_solver.
Qed.

Lemma parse_answers (sql : string) : exists r, parse sql = Some r.
Proof.
  unfold parse. destruct (lex sql) as [toks|e] eqn:El; [|by eexists].
  destruct (lex_loop_spec (length (str_bytes sql)) 0 (str_bytes sql)) as (res & E & Hres); [done|].
  unfold lex in El. rewrite E in El. pose proof (lexed_wf _ _ _ (Hres _ El)) as Hw.
  assert (ok program_spanned toks (no_longer toks)) as Hok.
  { apply (ok_program _ (S (length toks))); [|lia|done|lia].
    apply parsers_rec_ok. unfold parse_fuel. lia. }
  unfold ok in Hok. destruct (program_spanned toks); [by eexists|by eexists|done].
Qed.

(** C20: Every text is parsed to an answer, and no expression nests without bound. Whatever
    the input, [parse] ends, with statements or with a parse error: the parser does not
    loop, reaches none of its panics, and its nested calls are bounded by the number of
    tokens (three per token), which is the fuel the model supplies. Every expression that
    is read at depth [d] has at most (MAX_DEPTH - d) * (MAX_DEPTH + 1) levels, a query in
    it counting as one; and a SELECT whose first expression opens MAX_DEPTH or more levels
    with parentheses, minus signs and NOTs is refused with 54001, whatever follows. (The
    parentheses of FROM and nested WITH clauses are not guarded, and the model has no
    bound on the stack they need.) *)
Theorem parse_total :
  (forall sql, exists r, parse sql = Some r) /\
  (forall fuel d bp st e st', r_expr (parsers fuel) d bp st = POk e st' ->
     (expr_depth e <= (MAX_DEPTH - d) * (MAX_DEPTH + 1))%nat) /\
  (forall sql p openers rest, lex sql = Ok ((TkKeyword KwSelect, p) :: openers ++ rest) ->
     Forall opener openers -> (MAX_DEPTH <= length openers)%nat ->
     exists pos, parse sql = Some (Err (parse_error_too_deep pos))).
Proof.
  split_and!; [apply parse_answers| |intros; by eapply parse_refused].
  intros fuel d bp st e st' E. apply expr_bounded in E. unfold depth_bound in E. lia.
Qed.

End Total.

(** [SELECT ((( .. 1] with fifty parentheses. *)
Definition deep_openers : Toks := map (fun i => (TkLParen, Z.of_nat i)) (seq 7 50).
Definition deep_sql : string := "SELECT ((((((((((((((((((((((((((((((((((((((((((((((((((1".

Lemma parse_total_witness : exists pos, parse (H := model_ext) deep_sql = Some (Err (parse_error_too_deep pos)).
Proof.
  destruct (parse_total (H := model_ext)) as (_ & _ & Hdeep).
  apply (Hdeep deep_sql 0 deep_openers [(TkIntLit "1", 57); (TkEof, 58)]).
  - vm_compute. reflexivity.
  - apply List.Forall_forall. intros t (i & <- & _)%in_map_iff. by left.
  - vm_compute. lia.
Defined.

(** [SELECT 1 FROM ((( .. t .. )))] with two hundred parentheses is accepted: four times the
    limit that is documented for all nesting. *)
Definition deep_from : string :=
  let repeat c := String.concat "" (replicate 200 c) in
  "SELECT 1 FROM " +:+ repeat "(" +:+ "t" +:+ repeat ")".

Theorem from_parentheses_unguarded :
  exists stmts, parse (H := model_ext) deep_from = Some (Ok stmts) /\ length stmts = 1%nat.
Proof.
  assert (match parse (H := model_ext) deep_from with Some (Ok stmts) => length stmts =? 1 | _ => false end = true)%nat as E
    by (vm_compute; reflexivity).
  destruct (parse deep_from) as [[stmts|e]|]; [|done|done]. exists stmts. split; [done|]. by apply Nat.eqb_eq.
Qed.
