(* ===== verification/ParserExpr.v ===== *)
(** * Expressions are parsed by their precedence

    [show] writes an expression as tokens with only the parentheses that the
    operators' binding powers require. The theorem is that the parser reads
    back from it exactly that expression: operators group by precedence, equal
    ones to the left, casts bind tightest, [NOT] covers comparisons, the bounds
    of BETWEEN stop at its AND, and so on. Expressions with subqueries are not
    covered by the printer. *)
From Stdlib Require Import ZArith Lia Ascii.
From stdpp Require Import base list gmap strings.
From S2P Require Import Prelude Keys Store Datum ExtModel Errors Lexer Ast Parser.
From S2P Require Import ParserTotal.
Open Scope Z_scope.

(** ** Writing expressions *)

Definition op_token (op : BinaryOp) : Token :=
  match op with
  | OpAdd => TkPlus | OpSub => TkMinus | OpMul => TkStar | OpDiv => TkSlash
  | OpConcat => TkConcat | OpEq => TkEq | OpNe => TkNe | OpLt => TkLt | OpLe => TkLe
  | OpGt => TkGt | OpGe => TkGe | OpAnd => TkKeyword KwAnd | OpOr => TkKeyword KwOr
  end.

Definition l_bp (op : BinaryOp) : Z :=
  match op with
  | OpOr => 1 | OpAnd => 3 | OpEq | OpNe | OpLt | OpLe | OpGt | OpGe => 5
  | OpConcat => 7 | OpAdd | OpSub => 9 | OpMul | OpDiv => 11
  end.

Lemma infix_op_token op : infix_op (op_token op) = Some (op, l_bp op, l_bp op + 1).
Proof. by destruct op. Qed.

Definition int_tok (n : Z) : Token := TkIntLit (z_to_string n).

Definition type_tokens (ty : ColumnType) : list Token :=
  match ty with
  | TInt4 => [TkIdent "int4"] | TInt8 => [TkIdent "int8"] | TText => [TkIdent "text"]
  | TBool => [TkIdent "bool"] | TFloat8 => [TkIdent "float8"] | TDate => [TkIdent "date"]
  | TTime => [TkIdent "time"] | TTimestamp => [TkIdent "timestamp"]
  | TTimestamptz => [TkIdent "timestamptz"] | TInterval => [TkIdent "interval"]
  | TBytea => [TkIdent "bytea"] | TNumeric None => [TkIdent "numeric"]
  | TNumeric (Some tm) =>
      [TkIdent "numeric"; TkLParen; int_tok (precision tm); TkComma; int_tok (scale tm); TkRParen]
  end.

Fixpoint commas (l : list (list Token)) : list Token :=
  match l with
  | [] => []
  | [x] => x
  | x :: l => x ++ TkComma :: commas l
  end.

Local Abbreviation kw := TkKeyword (only parsing).
Definition neg_tok (negated : bool) : list Token := if negated then [kw KwNot] else [].
Definition parens (b : bool) (ts : list Token) : list Token :=
  if b then TkLParen :: ts ++ [TkRParen] else ts.

Section Print.
Context `{Ext}.

(** The level an expression stands at: the greatest minimal binding power at
    which it is read without parentheses. *)
Definition level (e : Expr) : Z :=
  match e with
  | Binary op _ _ => l_bp op
  | Unary UNot _ | Between _ _ _ _ => 4
  | IsNull _ _ | InList _ _ _ | Like _ _ _ _ => 5
  | Unary UNeg _ => 13
  | _ => 14
  end.

(** The binding power at which its last operand is read: what follows must not
    continue at it. *)
Definition edge (e : Expr) : Z :=
  match e with
  | Binary op _ _ => l_bp op + 1
  | Unary UNot _ | Between _ _ _ _ => 4
  | Like _ _ _ _ => 6
  | Unary UNeg _ => 13
  | _ => 14
  end.

(** The tokens of an expression, without parentheses around it. *)
Fixpoint bare (e : Expr) : list Token :=
  let show (m : Z) (x : Expr) := parens (level x <? m) (bare x) in
  match e with
  | IntLiteral s => [TkIntLit s]
  | NumericLiteral s => [TkFloatLit s]
  | StringLiteral s => [TkStringLit s]
  | BoolLiteral b => [kw (if b then KwTrue else KwFalse)]
  | NullLiteral => [kw KwNull]
  | ColumnRef None name => [TkIdent name]
  | ColumnRef (Some t) name => [TkIdent t; TkDot; TkIdent name]
  | ParamRef n => [TkParam n]
  | Unary UNot x => kw KwNot :: show 4 x
  | Unary UNeg x => TkMinus :: show 13 x
  | Binary op x y => show (l_bp op) x ++ op_token op :: show (l_bp op + 1) y
  | Func name _ ArgStar => [TkIdent name; TkLParen; TkStar; TkRParen]
  | Func name distinct (ArgExprs args) =>
      TkIdent name :: TkLParen :: (if distinct then [kw KwDistinct] else []) ++
        commas (map (show 0) args) ++ [TkRParen]
  | IsNull x negated => show 5 x ++ kw KwIs :: neg_tok negated ++ [kw KwNull]
  | InList x l negated =>
      show 5 x ++ neg_tok negated ++ kw KwIn :: TkLParen :: commas (map (show 0) l) ++ [TkRParen]
  | Between x low high negated =>
      show 5 x ++ neg_tok negated ++ kw KwBetween :: show 4 low ++ kw KwAnd :: show 4 high
  | Like x pattern negated ci =>
      show 5 x ++ neg_tok negated ++ kw (if ci then KwIlike else KwLike) :: show 6 pattern
  | Case operand whens else_result =>
      kw KwCase ::
        match operand with Some x => show 0 x | None => [] end ++
        concat (map (fun w => match w with
                              | (c, x) => kw KwWhen :: show 0 c ++ kw KwThen :: show 0 x
                              end) whens) ++
        match else_result with Some x => kw KwElse :: show 0 x | None => [] end ++
        [kw KwEnd]
  | Cast x ty => show 14 x ++ TkTypeCast :: type_tokens ty
  | _ => []
  end.

(** The tokens of an expression to be read at a
    minimal binding power *)
Definition show (m : Z) (e : Expr) : list Token := parens (level e <? m) (bare e).

(** ** What can be read back *)

(** Operators applied one after the other to the same left side: each is a turn
    of the loop, which has [MAX_DEPTH] of them. *)
Fixpoint spine (e : Expr) : nat :=
  let left (m : Z) (x : Expr) := if level x <? m then O else spine x in
  match e with
  | Binary op x _ => S (left (l_bp op) x)
  | IsNull x _ | InList x _ _ | Between x _ _ _ | Like x _ _ _ => S (left 5 x)
  | Cast x _ => S (left 14 x)
  | _ => O
  end.

(** Calls of [expr] nested inside the one that reads the expression. *)
Fixpoint cost (e : Expr) : nat :=
  let left (m : Z) (x : Expr) := if level x <? m then S (cost x) else cost x in
  let sub (m : Z) (x : Expr) := S (left m x) in
  match e with
  | Unary UNot x => sub 4 x
  | Unary UNeg x => sub 13 x
  | Binary op x y => Nat.max (left (l_bp op) x) (sub (l_bp op + 1) y)
  | Func _ _ (ArgExprs args) => max_list (map (sub 0) args)
  | IsNull x _ => left 5 x
  | InList x l _ => Nat.max (left 5 x) (max_list (map (sub 0) l))
  | Between x low high _ => Nat.max (left 5 x) (Nat.max (sub 4 low) (sub 4 high))
  | Like x pattern _ _ => Nat.max (left 5 x) (sub 6 pattern)
  | Case operand whens else_result =>
      Nat.max match operand with Some x => sub 0 x | None => O end
        (Nat.max
           (max_list (map (fun w => match w with (c, x) => Nat.max (sub 0 c) (sub 0 x) end) whens))
           match else_result with Some x => sub 0 x | None => O end)
  | Cast x _ => left 14 x
  | _ => O
  end.

Definition type_ok (ty : ColumnType) : bool :=
  match ty with
  | TNumeric (Some tm) =>
      (0 <=? precision tm) && (precision tm <=? 65535) && (0 <=? scale tm) && (scale tm <=? 65535)
  | _ => true
  end.

Definition niladic (s : string) : bool := one_of (to_ascii_lowercase s) niladic_words.

(** The expressions the printer covers: no subquery, no name that the grammar
    reads as something else, no empty list where one is required, and no chain
    of operators longer than the loop allows. *)
Fixpoint printable (e : Expr) : bool :=
  (spine e <? MAX_DEPTH)%nat &&
  match e with
  | IntLiteral _ | NumericLiteral _ | StringLiteral _ | BoolLiteral _ | NullLiteral | ParamRef _ =>
      true
  | ColumnRef None name => negb (niladic name)
  | ColumnRef (Some t) _ => negb (niladic t)
  | Unary _ x | IsNull x _ => printable x
  | Binary _ x y | Like x y _ _ => printable x && printable y
  | Func name distinct ArgStar =>
      negb (String.eqb (to_ascii_lowercase name) "extract") && negb distinct
  | Func name _ (ArgExprs args) =>
      negb (String.eqb (to_ascii_lowercase name) "extract") && forallb printable args
  | InList x l _ => printable x && forallb printable l && negb (bool_decide (l = []))
  | Between x low high _ => printable x && printable low && printable high
  | Case operand whens else_result =>
      match operand with Some x => printable x | None => true end &&
      forallb (fun w => match w with (c, x) => printable c && printable x end) whens &&
      negb (bool_decide (whens = [])) &&
      match else_result with Some x => printable x | None => true end
  | Cast x ty => printable x && type_ok ty
  | _ => false
  end.

Definition left_cost (m : Z) (e : Expr) : nat := if level e <? m then S (cost e) else cost e.
Definition left_spine (m : Z) (e : Expr) : nat := if level e <? m then O else spine e.

(** ** Reading tokens off *)

(** From any state with the tokens [ts], the parser returns [a] and leaves [ts']. *)
Definition yields {A} (p : parser A) (ts : list Token) (a : A) (ts' : list Token) : Prop :=
  forall st, map fst st = ts -> exists st', p st = POk a st' /\ map fst st' = ts'.

Lemma y_bind {A B} (p : parser A) (f : A -> parser B) ts a ts1 b ts2 :
  yields p ts a ts1 -> yields (f a) ts1 b ts2 -> yields (p ≫= f) ts b ts2.
Proof.
  intros Hp Hf st E. destruct (Hp st E) as (st1 & E1 & E1'). destruct (Hf st1 E1') as (st2 & E2 & ?).
  exists st2. unfold mbind, parser_bind. by rewrite E1.
Qed.

Lemma y_ret {A} (a : A) ts : yields (mret a) ts a ts.
Proof. intros st E. by exists st. Qed.

Lemma y_get {B} (f : Toks -> parser B) ts b ts' :
  (forall st, map fst st = ts -> yields (f st) ts b ts') -> yields (get ≫= f) ts b ts'.
Proof. intros Hf st E. exact (Hf st E st E). Qed.

(** A parser that looks at its state before it is one. *)
Lemma y_state {A} (p : parser A) ts a ts' :
  (forall st, map fst st = ts -> yields (fun _ => p st) ts a ts') -> yields p ts a ts'.
Proof. intros Hf st E. exact (Hf st E st E). Qed.

Lemma y_bump t ts : ts <> [] -> yields bump (t :: ts) t ts.
Proof.
  intros Hn st E. destruct st as [|[t' p] [|x st]]; simplify_list_eq. by exists (x :: st).
Qed.

Lemma tok_at st t ts : map fst st = t :: ts -> tok st = t.
Proof. destruct st as [|[t' p] st]; intros E; by simplify_list_eq. Qed.

Lemma tok2_at st t t2 ts : map fst st = t :: t2 :: ts -> tok2 st = t2.
Proof. destruct st as [|[t' p] [|[t'' p'] st]]; intros E; by simplify_list_eq. Qed.

Lemma is_tok_at t' st t ts : map fst st = t :: ts -> is_tok t' st = bool_decide (t = t').
Proof. intros E. unfold is_tok. by rewrite (tok_at _ _ _ E). Qed.

Lemma is_tok_yes st t ts : map fst st = t :: ts -> is_tok t st = true.
Proof. intros E. rewrite (is_tok_at _ _ _ _ E). by apply bool_decide_eq_true. Qed.

Lemma is_tok_no t' st t ts : map fst st = t :: ts -> t <> t' -> is_tok t' st = false.
Proof. intros E Ht. rewrite (is_tok_at _ _ _ _ E). by apply bool_decide_eq_false. Qed.

Lemma y_expect t ts : ts <> [] -> yields (expect t) (t :: ts) () ts.
Proof.
  intros Hn st E. unfold expect. rewrite (is_tok_yes _ _ _ E).
  exact (y_bind _ _ _ _ _ _ _ (y_bump t ts Hn) (y_ret () ts) st E).
Qed.

Lemma y_eat k ts : ts <> [] -> yields (eat_keyword k) (kw k :: ts) true ts.
Proof.
  intros Hn st E. unfold eat_keyword, is_kw. rewrite (is_tok_yes _ _ _ E).
  exact (y_bind _ _ _ _ _ _ _ (y_bump _ ts Hn) (y_ret true ts) st E).
Qed.

Lemma y_eat_not k t ts : t <> kw k -> yields (eat_keyword k) (t :: ts) false (t :: ts).
Proof.
  intros Ht st E. unfold eat_keyword, is_kw. rewrite (is_tok_no _ _ _ _ E Ht). by exists st.
Qed.

Lemma y_comma ts : ts <> [] -> yields eat_comma (TkComma :: ts) true ts.
Proof.
  intros Hn st E. unfold eat_comma. rewrite (is_tok_yes _ _ _ E).
  exact (y_bind _ _ _ _ _ _ _ (y_bump _ ts Hn) (y_ret true ts) st E).
Qed.

Lemma y_comma_not t ts : t <> TkComma -> yields eat_comma (t :: ts) false (t :: ts).
Proof. intros Ht st E. unfold eat_comma. rewrite (is_tok_no _ _ _ _ E Ht). by exists st. Qed.

Lemma y_ident s ts : ts <> [] -> yields expect_ident (TkIdent s :: ts) s ts.
Proof. intros Hn. eapply y_bind; [by apply y_bump|]. apply y_ret. Qed.

Lemma y_u16 what n ts :
  0 <= n <= 65535 -> ts <> [] -> yields (expect_u16 what) (int_tok n :: ts) n ts.
Proof.
  intros Hn Hts. apply y_get. intros st E. eapply y_bind; [by apply y_bump|]. cbn.
  rewrite parse_unsigned_digits by done. apply y_ret.
Qed.

(** ** Where an expression starts and where it stops *)

Ltac tok_cases t := destruct t; try match goal with k : Keyword |- _ => destruct k end.

Definition expr_start (t : Token) : bool :=
  match t with
  | TkMinus | TkLParen | TkIntLit _ | TkFloatLit _ | TkStringLit _ | TkParam _ | TkIdent _ => true
  | TkKeyword k => bool_decide (k ∈ [KwNot; KwTrue; KwFalse; KwNull; KwCase])
  | _ => false
  end.

(** A token that does not continue an expression read at [m]. *)
Definition stop_tok (m : Z) (t : Token) : bool :=
  match t with
  | TkLParen | TkDot | TkStringLit _ | TkIdent _ | TkKeyword KwWith => false
  | TkTypeCast => 14 <=? m
  | TkKeyword KwIs | TkKeyword KwIn | TkKeyword KwBetween | TkKeyword KwLike
  | TkKeyword KwIlike | TkKeyword KwNot => 6 <=? m
  | _ => match infix_op t with Some (_, l, _) => l <? m | None => true end
  end.

Definition stop (m : Z) (ts : list Token) : Prop :=
  match ts with t :: _ => stop_tok m t = true | [] => False end.

Lemma stop_tok_mono m m' t : m <= m' -> stop_tok m t = true -> stop_tok m' t = true.
Proof. intros Hm. tok_cases t; cbn; lia. Qed.

Lemma stop_mono m m' ts : m <= m' -> stop m ts -> stop m' ts.
Proof. destruct ts; [done|]. apply stop_tok_mono. Qed.

Lemma stop_nonempty m ts : stop m ts -> ts <> [].
Proof. by destruct ts. Qed.

Lemma stop_op m op ts : l_bp op < m -> stop m (op_token op :: ts).
Proof. intros Hm. destruct op; cbn in *; lia. Qed.

Lemma pratt_step_stops r d m e ts :
  m < 14 -> stop m ts -> yields (pratt_step r d m e) ts (e, false) ts.
Proof.
  intros Hm. destruct ts as [|t ts]; [done|]. cbn [stop]. intros Hs. apply y_get. intros st E.
  rewrite (is_tok_at _ _ _ _ E). unfold postfix. rewrite (tok_at _ _ _ E).
  rewrite bool_decide_false by (intros ->; cbn in Hs; lia).
  assert (ident_is "at" t = false) as -> by (by destruct t). cbn [andb].
  assert ((if m <=? 5 then postfix r d e st else None) = None) as Hp.
  { destruct (Z.leb_spec m 5); [|done]. unfold postfix. rewrite (tok_at _ _ _ E).
    tok_cases t; cbn in Hs; try done; lia. }
  unfold postfix in Hp. rewrite (tok_at _ _ _ E) in Hp. rewrite Hp.
  destruct (infix_op t) as [[[op l] r']|] eqn:Ei; [|apply y_ret].
  assert ((l <? m) = true) as ->; [|apply y_ret].
  tok_cases t; cbn in Hs, Ei; simplify_eq; done.
Qed.

Lemma pratt_stops r n d m e ts :
  m < 14 -> stop m ts -> yields (pratt r (S n) d m e) ts e ts.
Proof.
  intros Hm Hs. cbn [pratt]. eapply y_bind; [by apply pratt_step_stops|]. apply y_ret.
Qed.

Lemma pratt_turn r n d m e e' ts ts1 b ts2 :
  yields (pratt_step r d m e) ts (e', true) ts1 -> yields (pratt r n d m e') ts1 b ts2 ->
  yields (pratt r (S n) d m e) ts b ts2.
Proof. intros Hp Hr. cbn [pratt]. by eapply y_bind. Qed.

(** ** Types and lists *)

Lemma y_type_word s ty ts :
  from_sql_name s = Some ty -> to_ascii_lowercase s <> "double" ->
  stop 14 ts -> yields parse_type_name (TkIdent s :: ts) ty ts.
Proof.
  intros Hty Hd Hs. destruct ts as [|t ts]; [done|]. cbn [stop] in Hs.
  apply y_get. intros st _. eapply y_bind; [by apply y_ident|]. apply y_get. intros st1 E1.
  assert (eq_ignore_ascii_case s "double" = false) as ->.
  { unfold eq_ignore_ascii_case. by apply String.eqb_neq. }
  cbn [andb]. eapply y_bind; [apply y_ret|]. apply y_get. intros st2 E2. cbv beta.
  unfold is_kw. rewrite (is_tok_at _ _ _ _ E2), (tok_at _ _ _ E2).
  rewrite bool_decide_false by (by intros ->).
  assert (ident_is "without" t = false) as -> by (by destruct t).
  cbn [orb]. rewrite andb_false_r. cbn [andb].
  eapply y_bind; [apply y_ret|]. rewrite Hty. apply y_get. intros st3 E3.
  rewrite (is_tok_no _ _ _ _ E3) by (by intros ->). rewrite andb_false_r. apply y_ret.
Qed.

Lemma y_type ty ts :
  type_ok ty = true -> stop 14 ts -> yields parse_type_name (type_tokens ty ++ ts) ty ts.
Proof.
  intros Hok Hs. pose proof (stop_nonempty _ _ Hs) as Hn.
  destruct ty as [| | | | |[tm|]| | | | | |]; try by apply y_type_word.
  cbn [type_tokens app]. destruct tm as [p s]. cbn [type_ok precision scale] in *.
  rewrite !andb_true_iff, !Z.leb_le in Hok.
  apply y_get. intros st _. eapply y_bind; [by apply y_ident|]. apply y_get. intros st1 E1.
  eapply y_bind; [apply y_ret|]. apply y_get. intros st2 E2. cbv beta.
  eapply y_bind; [apply y_ret|]. apply y_get. intros st3 E3.
  rewrite (is_tok_yes _ _ _ E3). cbn [andb is_numeric].
  eapply y_bind; [by apply y_expect|]. eapply y_bind; [apply y_u16; [lia|done]|].
  eapply y_bind; [by apply y_comma|]. cbv beta.
  eapply y_bind; [apply y_u16; [lia|done]|]. eapply y_bind; [by apply y_expect|]. apply y_ret.
Qed.

Lemma app_cons_ne {A} (l l' : list A) x : l ++ x :: l' <> [].
Proof. by destruct l. Qed.

Lemma y_sep_loop {A} (item : parser A) (pr : A -> list Token) xs n t ts :
  xs <> [] -> (length xs <= n)%nat -> t <> TkComma -> stop 0 (t :: ts) ->
  (forall x rest, x ∈ xs -> stop 0 rest -> yields item (pr x ++ rest) x rest) ->
  yields (sep_loop n item) (commas (map pr xs) ++ t :: ts) xs (t :: ts).
Proof.
  intros Hne Hn Ht Hs. revert n Hn. induction xs as [|x xs IH]; [done|].
  intros [|n] Hn Hx; [cbn in Hn; lia|].
  destruct xs as [|y xs]; cbn [sep_loop map commas].
  - eapply y_bind; [apply Hx; [set_solver|done]|]. eapply y_bind; [by apply y_comma_not|]. apply y_ret.
  - rewrite <- app_assoc. eapply y_bind; [apply Hx; [set_solver|done]|].
    cbn [app]. eapply y_bind; [apply y_comma, app_cons_ne|].
    cbv beta. eapply y_bind; [|apply y_ret].
    apply IH; [done|cbn in *; lia|]. intros z rest Hz. apply Hx. set_solver.
Qed.

Lemma length_commas (l : list (list Token)) : (length l <= S (length (commas l)))%nat.
Proof.
  induction l as [|x [|y l] IH]; [cbn; lia..|].
  change (commas (x :: y :: l)) with (x ++ TkComma :: commas (y :: l)).
  rewrite length_app. cbn [length] in *. lia.
Qed.

Lemma y_sep {A} (item : parser A) (pr : A -> list Token) xs t ts :
  xs <> [] -> t <> TkComma -> stop 0 (t :: ts) ->
  (forall x rest, x ∈ xs -> stop 0 rest -> yields item (pr x ++ rest) x rest) ->
  yields (sep_list item) (commas (map pr xs) ++ t :: ts) xs (t :: ts).
Proof.
  intros Hne Ht Hs Hx. apply y_state. intros st E st' E'. unfold sep_list.
  refine (y_sep_loop item pr xs _ t ts Hne _ Ht Hs Hx st E).
  rewrite <- (length_map fst), E, length_app. pose proof (length_commas (map pr xs)) as Hl.
  rewrite length_map in Hl. cbn [length]. lia.
Qed.

(** ** The first token *)

Lemma bare_start e : printable e = true -> exists t ts, bare e = t :: ts /\ expr_start t = true.
Proof.
  induction e as [| | |[]| |[] | |[] x IH|op x IHx y IHy|name ? [|]|x IHx ?|x IHx ? ?
    |x IHx ? ? ? ? ?|x IHx ? ? ? ?| |x IHx ?| | | | |]; cbn [printable bare];
    rewrite ?andb_true_iff; intros Hp; try (by eexists _, _); try (destruct_and?; done).
  all: (destruct IHx as (t & ts & -> & Ht); [tauto|]);
    match goal with |- context [parens ?b] => destruct b end; by eexists _, _.
Qed.

Lemma show_start m e :
  printable e = true -> exists t ts, show m e = t :: ts /\ expr_start t = true.
Proof.
  intros Hp. unfold show, parens. destruct (level e <? m); [by eexists _, _|]. by apply bare_start.
Qed.

(** ** Reading an expression back *)

(** The expression's tokens bring the call that reads them to the state in which
    it is the left side, with the turns of its spine used. *)
Definition reads_bare (e : Expr) : Prop := forall fuel d m n rest b ts',
  (cost e <= fuel)%nat -> (d + cost e <= MAX_DEPTH)%nat -> m <= level e ->
  (spine e <= n)%nat -> stop (edge e) rest ->
  yields (pratt (parsers fuel) (n - spine e) d m e) rest b ts' ->
  yields (prefix (parsers fuel) d ≫= pratt (parsers fuel) n d m) (bare e ++ rest) b ts'.

Definition reads (e : Expr) : Prop := forall fuel d m rest,
  (left_cost m e < fuel)%nat -> (d + left_cost m e < MAX_DEPTH)%nat -> m < 14 ->
  stop m rest -> yields (r_expr (parsers fuel) d m) (show m e ++ rest) e rest.

Definition readable (e : Expr) : Prop := printable e = true /\ reads_bare e.

Lemma level_edge e : 1 <= level e <= edge e.
Proof. destruct e as [| | | | | | |[]|[]| | | | | | | | | | | |]; cbn; lia. Qed.

Lemma spine_lt e : printable e = true -> (spine e < MAX_DEPTH)%nat.
Proof. destruct e; cbn [printable]; rewrite andb_true_iff, Nat.ltb_lt; tauto. Qed.

Lemma y_enter d ts : (d < MAX_DEPTH)%nat -> yields (enter d) ts (S d) ts.
Proof.
  intros Hd st E. exists st. unfold enter.
  assert ((MAX_DEPTH <? S d)%nat = false) as -> by (apply Nat.ltb_ge; lia). done.
Qed.

Lemma reads_at_level e fuel d m rest :
  readable e -> (cost e < fuel)%nat -> (d + cost e < MAX_DEPTH)%nat -> m <= level e -> m < 14 ->
  stop m rest -> yields (r_expr (parsers fuel) d m) (bare e ++ rest) e rest.
Proof.
  intros [Hp Hb] Hf Hd Hl Hm Hs. destruct fuel as [|fuel]; [lia|].
  change (r_expr (parsers (S fuel)) d m) with (expr (parsers fuel) d m). unfold expr.
  eapply y_bind; [apply y_enter; lia|]. pose proof (spine_lt e Hp) as Hsp.
  apply Hb; [lia..| |].
  - eapply stop_mono; [|exact Hs]. pose proof (level_edge e). lia.
  - replace (MAX_DEPTH - spine e)%nat with (S (MAX_DEPTH - spine e - 1)) by lia.
    by apply pratt_stops.
Qed.

Lemma start_not_query t : expr_start t = true -> kw_in query_kws t = false.
Proof. by tok_cases t. Qed.

Lemma reads_paren e fuel d rest :
  readable e -> (cost e < fuel)%nat -> (d + cost e < MAX_DEPTH)%nat -> rest <> [] ->
  yields (prefix (parsers fuel) d) (TkLParen :: bare e ++ TkRParen :: rest) e rest.
Proof.
  intros He Hf Hd Hr. destruct (bare_start e (proj1 He)) as (t & ts & Et & Ht).
  apply y_get. intros st E. rewrite (tok_at _ _ _ E).
  assert (tok2 st = t) as ->. { rewrite Et in E. exact (tok2_at _ _ _ _ E). }
  rewrite start_not_query by done. eapply y_bind; [apply y_bump, app_cons_ne|].
  eapply y_bind; [|eapply y_bind; [by apply y_expect|apply y_ret]].
  pose proof (level_edge e). apply reads_at_level; [done|lia..|done].
Qed.

Lemma readable_reads e : readable e -> reads e.
Proof.
  intros He fuel d m rest Hf Hd Hm Hs. unfold left_cost in *. unfold show, parens.
  destruct (Z.ltb_spec (level e) m); [|by apply reads_at_level].
  destruct fuel as [|fuel]; [lia|].
  change (r_expr (parsers (S fuel)) d m) with (expr (parsers fuel) d m). unfold expr.
  eapply y_bind; [apply y_enter; lia|]. cbn [app]. rewrite <- app_assoc. cbn [app].
  eapply y_bind; [apply reads_paren; [done|lia..|by eapply stop_nonempty]|].
  by apply pratt_stops.
Qed.

(** The left operand of what follows. *)
Lemma readable_left e fuel d m m' n rest b ts' :
  readable e -> (left_cost m' e <= fuel)%nat -> (d + left_cost m' e <= MAX_DEPTH)%nat -> m <= m' ->
  (left_spine m' e <= n)%nat -> rest <> [] -> (m' <= level e -> stop (edge e) rest) ->
  yields (pratt (parsers fuel) (n - left_spine m' e) d m e) rest b ts' ->
  yields (prefix (parsers fuel) d ≫= pratt (parsers fuel) n d m) (show m' e ++ rest) b ts'.
Proof.
  intros He Hf Hd Hm Hn Hr Hs Hy. unfold left_cost, left_spine in *. unfold show, parens.
  destruct (Z.ltb_spec (level e) m').
  - cbn [app]. rewrite <- app_assoc. cbn [app]. rewrite Nat.sub_0_r in Hy.
    eapply y_bind; [|exact Hy]. apply reads_paren; [done|lia..|done].
  - destruct He as [_ Hb]. apply Hb; [lia..|auto|exact Hy].
Qed.

Lemma follows_op e op ts : l_bp op <= level e -> stop (edge e) (op_token op :: ts).
Proof.
  intros Hl. apply stop_op.
  destruct e as [| | | | | | |[]|op' ? ?| | | | | | | | | | | |]; cbn in *; try destruct op';
    destruct op; cbn in *; lia.
Qed.

Lemma follows_5 e t ts : 5 <= level e -> stop_tok 6 t = true -> stop (edge e) (t :: ts).
Proof.
  intros Hl Ht. eapply stop_mono; [|exact Ht].
  destruct e as [| | | | | | |[]|op' ? ?| | | | | | | | | | | |]; cbn in *; try destruct op'; cbn in *; lia.
Qed.

(** What a prefix reads is a left side by itself. *)
Lemma prefix_reads e :
  spine e = O ->
  (forall fuel d rest, (cost e <= fuel)%nat -> (d + cost e <= MAX_DEPTH)%nat ->
     stop (edge e) rest -> yields (prefix (parsers fuel) d) (bare e ++ rest) e rest) ->
  reads_bare e.
Proof.
  intros Hs Hp fuel d m n rest b ts' Hf Hd Hl Hn Hst Hy. rewrite Hs, Nat.sub_0_r in Hy.
  eapply y_bind; [by apply Hp|exact Hy].
Qed.

Ltac ybind := eapply y_bind; [first [apply y_bump | apply y_expect | apply y_eat | apply y_ident];
                              first [done | apply app_cons_ne | by eapply stop_nonempty]|].

Lemma y_lit r d t e rest :
  (forall st, tok st = t -> prefix r d st = lit e st) -> rest <> [] ->
  yields (prefix r d) (t :: rest) e rest.
Proof.
  intros Hp Hr st E. rewrite (Hp st (tok_at _ _ _ E)). revert st E.
  change (yields (lit e) (t :: rest) e rest). ybind. apply y_ret.
Qed.

Lemma lit_reads e t :
  bare e = [t] -> spine e = O -> (forall r d st, tok st = t -> prefix r d st = lit e st) ->
  reads_bare e.
Proof.
  intros Hb Hs Hp. apply prefix_reads; [done|]. intros fuel d rest _ _ Hst. rewrite Hb.
  apply y_lit; [auto|by eapply stop_nonempty].
Qed.

Ltac lit_tac := eapply lit_reads; [reflexivity..|];
  let Ht := fresh in intros ? ? ? Ht; unfold prefix, get, mbind, parser_bind; by rewrite Ht.

Lemma literal_reads e :
  match e with
  | IntLiteral _ | NumericLiteral _ | StringLiteral _ | BoolLiteral _ | NullLiteral | ParamRef _ =>
      reads_bare e
  | _ => True
  end.
Proof. destruct e as [| | |[]| | | | | | | | | | | | | | | | |]; try done; lit_tac. Qed.

(** An identifier that starts neither a typed literal nor an EXTRACT. *)
Lemma y_prefix_ident r d s t ts e ts' :
  is_string_lit t = false -> (t = TkLParen \/ niladic s = false) ->
  String.eqb (to_ascii_lowercase s) "extract" && bool_decide (t = TkLParen) = false ->
  yields (if bool_decide (t = TkLParen) then func_call r d s
          else if bool_decide (t = TkDot) then
            _ ← bump; name ← expect_ident; mret (ColumnRef (Some s) name)
          else mret (ColumnRef None s)) (t :: ts) e ts' ->
  yields (prefix r d) (TkIdent s :: t :: ts) e ts'.
Proof.
  intros Hstr Hnil Hext Hy. apply y_get. intros st E. rewrite (tok_at _ _ _ E).
  apply y_get. intros st1 E1. rewrite (tok2_at _ _ _ _ E1), Hstr, andb_false_r.
  ybind. apply y_get. intros st2 E2. rewrite !(is_tok_at _ _ _ _ E2).
  assert (one_of (to_ascii_lowercase s) niladic_words && negb (bool_decide (t = TkLParen)) = false)
    as ->.
  { destruct Hnil as [-> | Hnil]; [apply andb_false_r|]. unfold niladic in Hnil. by rewrite Hnil. }
  rewrite Hext. exact Hy.
Qed.

Lemma column_reads table name :
  printable (ColumnRef table name) = true -> reads_bare (ColumnRef table name).
Proof.
  intros Hp. apply prefix_reads; [done|]. intros fuel d rest _ _ Hs.
  pose proof (stop_nonempty _ _ Hs) as Hn.
  destruct table as [t|]; cbn [printable bare andb] in *; apply andb_true_iff in Hp as [_ Hp];
    apply negb_true_iff in Hp.
  - cbn [app]. apply y_prefix_ident; [done|by right|by rewrite andb_false_r|].
    ybind. ybind. apply y_ret.
  - destruct rest as [|t rest]; [done|]. cbn [stop edge] in Hs. cbn [app].
    apply y_prefix_ident; [by destruct t|by right| |].
    + rewrite bool_decide_false by (by intros ->). apply andb_false_r.
    + rewrite !bool_decide_false by (by intros ->). apply y_ret.
Qed.

Lemma unary_reads op x : readable x -> reads_bare (Unary op x).
Proof.
  intros Hx%readable_reads. apply prefix_reads; [by destruct op|].
  intros fuel d rest Hf Hd Hs.
  destruct op; cbn [bare edge cost app] in *; fold (left_cost 4 x) (left_cost 13 x) in *;
    apply y_get; intros st E; rewrite (tok_at _ _ _ E);
    (eapply y_bind; [apply y_bump; destruct rest; [done|apply app_cons_ne]|]);
    (eapply y_bind; [|apply y_ret]); apply Hx; try done; lia.
Qed.

Lemma func_star_reads name :
  printable (Func name false ArgStar) = true -> reads_bare (Func name false ArgStar).
Proof.
  intros Hp. apply prefix_reads; [done|]. intros fuel d rest _ _ Hs.
  cbn [printable] in Hp. rewrite !andb_true_iff, negb_true_iff in Hp.
  destruct Hp as (_ & He & _). cbn [bare app].
  apply y_prefix_ident; [done|by left|by rewrite He|]. rewrite bool_decide_true by done.
  ybind. apply y_get. intros st E. rewrite (is_tok_yes _ _ _ E). ybind. ybind. apply y_ret.
Qed.

Definition sub_cost (m : Z) (e : Expr) : nat := S (left_cost m e).

Lemma max_list_map_le {A} (f : A -> nat) (l : list A) x :
  x ∈ l -> (f x <= max_list (map f l))%nat.
Proof. intros Hx. apply max_list_elem_of_le, list_elem_of_fmap. by exists x. Qed.

(** A list of expressions up to its closing parenthesis. *)
Lemma y_exprs l fuel d rest :
  l <> [] -> Forall readable l -> rest <> [] ->
  (max_list (map (sub_cost 0) l) <= fuel)%nat -> (d + max_list (map (sub_cost 0) l) <= MAX_DEPTH)%nat ->
  yields (sep_list (r_expr (parsers fuel) d 0)) (commas (map (show 0) l) ++ TkRParen :: rest)
    l (TkRParen :: rest).
Proof.
  intros Hne Hl Hr Hf Hd. apply y_sep; [done..|]. intros x rest' Hx Hs.
  pose proof (max_list_map_le (sub_cost 0) l x Hx). unfold sub_cost in *.
  apply (proj1 (Forall_forall _ _) Hl), readable_reads in Hx. apply Hx; [lia..|done].
Qed.

Lemma exprs_start l rest :
  l <> [] -> Forall readable l ->
  exists t ts, commas (map (show 0) l) ++ rest = t :: ts /\ expr_start t = true.
Proof.
  intros Hne Hl. destruct l as [|x l]; [done|]. apply Forall_cons in Hl as [[Hx _] _].
  destruct (show_start 0 x Hx) as (t & ts & Et & Ht).
  destruct l; cbn [map commas]; rewrite Et; by eexists _, _.
Qed.

(** The first token of an argument list, up to its parenthesis. *)
Lemma args_start args rest :
  Forall readable args ->
  exists t ts, commas (map (show 0) args) ++ TkRParen :: rest = t :: ts /\
    (t = TkRParen /\ args = [] \/ expr_start t = true /\ args <> []).
Proof.
  intros Ha. destruct args as [|a args]; [eexists _, _; split; [done|by left]|].
  destruct (exprs_start (a :: args) (TkRParen :: rest)) as (t & ts & Et & Ht); [done..|].
  exists t, ts. split; [done|by right].
Qed.

Lemma y_args args fuel d rest (k : list Expr -> Expr) :
  Forall readable args -> rest <> [] ->
  (max_list (map (sub_cost 0) args) <= fuel)%nat ->
  (d + max_list (map (sub_cost 0) args) <= MAX_DEPTH)%nat ->
  yields (st ← get;
          args ← (if is_tok TkRParen st then mret [] else sep_list (r_expr (parsers fuel) d 0));
          _ ← expect TkRParen; mret (k args))
    (commas (map (show 0) args) ++ TkRParen :: rest) (k args) rest.
Proof.
  intros Ha Hr Hf Hd. apply y_get. intros st E.
  destruct (args_start args rest Ha) as (t & ts & Et & [[-> ->]|[Ht Hne]]).
  - rewrite (is_tok_yes _ _ _ E). eapply y_bind; [apply y_ret|]. ybind. apply y_ret.
  - rewrite Et in E. rewrite (is_tok_no _ _ _ _ E) by (by intros ->).
    eapply y_bind; [by apply y_exprs|]. ybind. apply y_ret.
Qed.

Lemma func_reads name distinct args :
  printable (Func name distinct (ArgExprs args)) = true -> Forall readable args ->
  reads_bare (Func name distinct (ArgExprs args)).
Proof.
  intros Hp Ha. apply prefix_reads; [done|]. intros fuel d rest Hf Hd Hs%stop_nonempty.
  cbn [printable] in Hp. rewrite !andb_true_iff, negb_true_iff in Hp. destruct Hp as (_ & He & _).
  change (bare (Func name distinct (ArgExprs args))) with
    (TkIdent name :: TkLParen :: (if distinct then [kw KwDistinct] else []) ++
       commas (map (show 0) args) ++ [TkRParen]).
  cbn [app]. rewrite <- !app_assoc. cbn [app].
  apply y_prefix_ident; [done|by left|by rewrite He|]. rewrite bool_decide_true by done.
  pose proof (y_args args fuel d rest (fun l => Func name distinct (ArgExprs l)) Ha Hs Hf Hd) as Hargs.
  destruct (args_start args rest Ha) as (t & ts & Et & Ht). rewrite Et in *.
  eapply y_bind; [apply y_expect; by destruct distinct|].
  apply y_get. intros st E. destruct distinct; cbn [app] in *.
  - rewrite (is_tok_no _ _ _ _ E) by done. ybind. eapply y_bind; [apply y_ret|]. exact Hargs.
  - assert (t <> TkStar /\ t <> kw KwDistinct /\ t <> kw KwAll) as (? & ? & ?).
    { by destruct Ht as [[-> _]|[Ht _]]; [|repeat split; intros ->]. }
    rewrite (is_tok_no _ _ _ _ E) by done.
    eapply y_bind; [by apply y_eat_not|]. eapply y_bind; [by apply y_eat_not|]. exact Hargs.
Qed.

(** ** Operators after a left operand *)

(** An expression read by one turn of the loop, after its left operand. *)
Lemma turn_reads e x m' t tail :
  bare e = show m' x ++ t :: tail -> readable x -> (left_cost m' x <= cost e)%nat ->
  spine e = S (left_spine m' x) -> level e <= m' ->
  (m' <= level x -> forall ts, stop (edge x) (t :: ts)) ->
  (forall fuel d m rest, (cost e <= fuel)%nat -> (d + cost e <= MAX_DEPTH)%nat -> m <= level e ->
     stop (edge e) rest ->
     yields (pratt_step (parsers fuel) d m x) (t :: tail ++ rest) (e, true) rest) ->
  reads_bare e.
Proof.
  intros Hb Hx Hc Hsp Hl Hfol Hstep fuel d m n rest b ts' Hf Hd Hm Hn Hs Hy.
  rewrite Hb, <- app_assoc. cbn [app].
  apply readable_left; [done|lia..|done|intros Hle; by apply Hfol|].
  replace (n - left_spine m' x)%nat with (S (n - spine e)) by lia.
  eapply pratt_turn; [by apply Hstep|exact Hy].
Qed.

(** A turn at a token that is neither a cast nor an identifier. *)
Lemma y_turn_postfix r d m x t ts p e rest :
  m <= 5 -> t <> TkTypeCast -> ident_is "at" t = false ->
  (forall st, map fst st = t :: ts -> postfix r d x st = Some p) ->
  yields p (t :: ts) e rest ->
  yields (pratt_step r d m x) (t :: ts) (e, true) rest.
Proof.
  intros Hm Ht Hat Hp Hy. apply y_get. intros st E. rewrite (is_tok_no _ _ _ _ E Ht).
  rewrite (tok_at _ _ _ E), Hat. cbn [andb].
  assert ((m <=? 5) = true) as -> by lia. rewrite (Hp st E).
  eapply y_bind; [exact Hy|apply y_ret].
Qed.

Lemma is_null_reads x negated : readable x -> reads_bare (IsNull x negated).
Proof.
  intros Hx. eapply (turn_reads _ x 5); [reflexivity|done|done|done|cbn; lia| |].
  - intros Hl ts. by apply follows_5.
  - intros fuel d m rest _ _ Hm Hs%stop_nonempty. cbn [level] in Hm.
    apply (y_turn_postfix _ _ _ _ _ _ (parse_is_null x)); [lia|done|done| |].
    + intros st E. unfold postfix. by rewrite (tok_at _ _ _ E).
    + destruct negated; cbn [neg_tok app]; (ybind; [..]).
      * ybind. ybind. apply y_ret.
      * eapply y_bind; [by apply y_eat_not|]. ybind. apply y_ret.
Qed.

(** The predicates that may be negated, by their keyword. *)
Definition predicate (r : Parsers) (d : nat) (x : Expr) (negated : bool) (k : Keyword) : parser Expr :=
  match k with
  | KwIn => parse_in r d x negated
  | KwBetween => parse_between r d x negated
  | KwLike => parse_like r d x negated false
  | _ => parse_like r d x negated true
  end.

Lemma predicate_reads e x negated k tail :
  k ∈ [KwIn; KwBetween; KwLike; KwIlike] ->
  bare e = show 5 x ++ neg_tok negated ++ kw k :: tail -> readable x ->
  (left_cost 5 x <= cost e)%nat -> spine e = S (left_spine 5 x) -> level e <= 5 ->
  (forall fuel d rest, (cost e <= fuel)%nat -> (d + cost e <= MAX_DEPTH)%nat ->
     stop (edge e) rest ->
     yields (predicate (parsers fuel) d x negated k) (kw k :: tail ++ rest) e rest) ->
  reads_bare e.
Proof.
  intros Hk Hb Hx Hc Hsp Hl Hy. destruct negated.
  - eapply (turn_reads _ x 5 (kw KwNot)); [exact Hb|done..|intros Hl' ts; by apply follows_5|].
    intros fuel d m rest Hf Hd Hm Hs. cbn [app].
    apply (y_turn_postfix _ _ _ _ _ _ (_ ← bump; predicate (parsers fuel) d x true k));
      [lia|done|done| |].
    + intros st E. unfold postfix. rewrite (tok_at _ _ _ E), (tok2_at _ _ _ _ E).
      repeat (apply elem_of_cons in Hk as [-> |Hk]; [done|]). by apply elem_of_nil in Hk.
    + ybind. by apply Hy.
  - eapply (turn_reads _ x 5 (kw k)); [exact Hb|done..| |].
    + intros Hl' ts. apply follows_5; [done|]. by destruct k; cbn in Hk |- *; try set_solver.
    + intros fuel d m rest Hf Hd Hm Hs.
      apply (y_turn_postfix _ _ _ _ _ _ (predicate (parsers fuel) d x false k));
        [lia|done|done| |by apply Hy].
      intros st E. unfold postfix. rewrite (tok_at _ _ _ E).
      repeat (apply elem_of_cons in Hk as [-> |Hk]; [done|]). by apply elem_of_nil in Hk.
Qed.

Lemma in_list_reads x l negated :
  readable x -> Forall readable l -> l <> [] -> reads_bare (InList x l negated).
Proof.
  intros Hx Hl Hne. apply (predicate_reads _ x negated KwIn (TkLParen :: commas (map (show 0) l) ++ [TkRParen]));
    [set_solver|reflexivity|done|cbn [cost]; apply Nat.le_max_l|done|done|].
  intros fuel d rest Hf Hd Hs%stop_nonempty.
  change (cost (InList x l negated)) with
    (Nat.max (left_cost 5 x) (max_list (map (sub_cost 0) l))) in *.
  cbn [app predicate]. rewrite <- app_assoc. cbn [app].
  destruct (exprs_start l (TkRParen :: rest) Hne Hl) as (t & ts & Et & Ht).
  ybind. eapply y_bind; [apply y_expect, app_cons_ne|]. apply y_get. intros st E.
  rewrite Et in E. rewrite (tok_at _ _ _ E), start_not_query by done.
  eapply y_bind; [apply y_exprs; [done..|lia|lia]|]. ybind. apply y_ret.
Qed.

Lemma show_app_ne m e ts : readable e -> show m e ++ ts <> [].
Proof. intros [Hp _]. by destruct (show_start m e Hp) as (t & ts' & -> & _). Qed.

Lemma between_reads x low high negated :
  readable x -> readable low -> readable high -> reads_bare (Between x low high negated).
Proof.
  intros Hx Hlow Hhigh. eapply (predicate_reads _ x negated KwBetween);
    [set_solver|reflexivity|done|cbn [cost]; apply Nat.le_max_l|done|cbn; lia|].
  intros fuel d rest Hf Hd Hs.
  change (cost (Between x low high negated)) with
    (Nat.max (left_cost 5 x) (Nat.max (sub_cost 4 low) (sub_cost 4 high))) in *.
  unfold sub_cost in *. fold (show 4 low) (show 4 high). cbn [predicate].
  rewrite <- app_assoc. cbn [app].
  eapply y_bind; [apply y_expect, app_cons_ne|].
  eapply y_bind; [apply readable_reads; [done|lia..|done]|].
  eapply y_bind; [apply y_expect; by apply show_app_ne|].
  eapply y_bind; [apply readable_reads; [done|lia..|done]|]. apply y_ret.
Qed.

Lemma like_reads x pattern negated ci :
  readable x -> readable pattern -> reads_bare (Like x pattern negated ci).
Proof.
  intros Hx Hpat. eapply (predicate_reads _ x negated (if ci then KwIlike else KwLike));
    [destruct ci; set_solver|reflexivity|done|cbn [cost]; apply Nat.le_max_l|done|done|].
  intros fuel d rest Hf Hd Hs.
  change (cost (Like x pattern negated ci)) with
    (Nat.max (left_cost 5 x) (sub_cost 6 pattern)) in *.
  unfold sub_cost in *. fold (show 6 pattern).
  assert (predicate (parsers fuel) d x negated (if ci then KwIlike else KwLike) =
          parse_like (parsers fuel) d x negated ci) as -> by (by destruct ci).
  eapply y_bind; [apply y_bump; by apply show_app_ne|].
  eapply y_bind; [apply readable_reads; [done|lia..|done]|]. apply y_ret.
Qed.

Lemma op_not_ident op : op_token op <> TkTypeCast /\ ident_is "at" (op_token op) = false.
Proof. by destruct op. Qed.

Lemma postfix_op r d x st op ts : map fst st = op_token op :: ts -> postfix r d x st = None.
Proof. intros E. unfold postfix. rewrite (tok_at _ _ _ E). by destruct op. Qed.

Lemma start_not_quantifier t : expr_start t = true -> kw_in [KwAny; KwSome; KwAll] t = false.
Proof. by tok_cases t. Qed.

Lemma binary_reads op x y : readable x -> readable y -> reads_bare (Binary op x y).
Proof.
  intros Hx Hy. apply (turn_reads _ x (l_bp op) (op_token op) (show (l_bp op + 1) y));
    [reflexivity|done|cbn [cost]; apply Nat.le_max_l|done|done|intros Hl ts; by apply follows_op|].
  intros fuel d m rest Hf Hd Hm Hs. cbn [level edge] in *.
  change (cost (Binary op x y)) with
    (Nat.max (left_cost (l_bp op) x) (sub_cost (l_bp op + 1) y)) in *. unfold sub_cost in *.
  destruct (op_not_ident op) as [H1 H2].
  apply y_get. intros st E. rewrite (is_tok_no _ _ _ _ E H1), (postfix_op _ _ _ _ _ _ E).
  rewrite (tok_at _ _ _ E), H2, infix_op_token. cbn [andb].
  assert ((if m <=? 5 then None (A := parser Expr) else None) = None) as -> by (by destruct (m <=? 5)).
  assert ((l_bp op <? m) = false) as -> by lia.
  eapply y_bind; [apply y_bump; by apply show_app_ne|]. apply y_get. intros st1 E1.
  destruct (show_start (l_bp op + 1) y (proj1 Hy)) as (t & ts & Et & Ht).
  assert (tok st1 = t) as ->. { rewrite Et in E1. exact (tok_at _ _ _ E1). }
  rewrite start_not_quantifier, andb_false_r by done.
  eapply y_bind; [apply readable_reads; [done|lia..|destruct op; cbn; lia|done]|]. apply y_ret.
Qed.

Lemma cast_reads x ty : readable x -> type_ok ty = true -> reads_bare (Cast x ty).
Proof.
  intros Hx Hty. apply (turn_reads _ x 14 TkTypeCast (type_tokens ty));
    [reflexivity|done|done|done|done| |].
  - intros Hl ts. pose proof (level_edge x). cbn. lia.
  - intros fuel d m rest _ _ Hm Hs. apply y_get. intros st E. rewrite (is_tok_yes _ _ _ E).
    eapply y_bind; [apply y_bump; by destruct ty as [| | | | |[]| | | | | |]|].
    eapply y_bind; [by apply y_type|]. apply y_ret.
Qed.

(** ** CASE *)

Definition when_tokens (w : Expr * Expr) : list Token :=
  match w with (c, x) => kw KwWhen :: show 0 c ++ kw KwThen :: show 0 x end.
Definition when_cost (w : Expr * Expr) : nat :=
  match w with (c, x) => Nat.max (sub_cost 0 c) (sub_cost 0 x) end.
Definition opt_cost (o : option Expr) : nat := match o with Some x => sub_cost 0 x | None => O end.

Lemma y_whens whens n fuel d t ts :
  Forall (fun w => readable w.1 /\ readable w.2) whens ->
  t <> kw KwWhen -> stop 0 (t :: ts) -> (length whens < n)%nat ->
  (max_list (map when_cost whens) <= fuel)%nat ->
  (d + max_list (map when_cost whens) <= MAX_DEPTH)%nat ->
  yields (when_loop (parsers fuel) n d) (concat (map when_tokens whens) ++ t :: ts) whens (t :: ts).
Proof.
  intros Hw Ht Hs. revert n. induction whens as [|[c x] whens IH]; intros [|n] Hn Hf Hd;
    [cbn in Hn; lia| |cbn in Hn; lia|]; cbn [when_loop].
  - eapply y_bind; [by apply y_eat_not|]. apply y_ret.
  - apply Forall_cons in Hw as [[Hc Hx] Hw]. cbn [fst snd] in *.
    cbn [map max_list_with when_cost length id] in Hf, Hd, Hn. unfold sub_cost in *.
    cbn [map concat when_tokens app]. rewrite <- !app_assoc. cbn [app].
    eapply y_bind; [apply y_eat, app_cons_ne|]. cbv beta.
    eapply y_bind; [apply readable_reads; [done|lia..|done]|].
    eapply y_bind; [apply y_expect; by apply show_app_ne|].
    assert (stop 0 (concat (map when_tokens whens) ++ t :: ts)) as Hs'.
    { destruct whens as [|[c' x'] whens]; [done|]. cbn. done. }
    eapply y_bind; [apply readable_reads; [done|lia..|exact Hs']|].
    eapply y_bind; [apply IH; [done|lia..]|]. apply y_ret.
Qed.

Lemma length_whens whens : (length whens <= length (concat (map when_tokens whens)))%nat.
Proof.
  induction whens as [|[c x] whens IH]; [cbn; lia|]. cbn [map concat]. rewrite length_app.
  cbn [length when_tokens]. lia.
Qed.

Lemma whens_start whens t ts :
  exists t' ts', concat (map when_tokens whens) ++ t :: ts = t' :: ts' /\
    (t' = kw KwWhen \/ t' = t /\ whens = []).
Proof. destruct whens as [|[c x] whens]; eexists _, _; (split; [reflexivity|]); auto. Qed.

Definition else_tokens (o : option Expr) : list Token :=
  match o with Some x => kw KwElse :: show 0 x | None => [] end.

Lemma y_else o fuel d rest :
  (forall x, o = Some x -> readable x) -> rest <> [] ->
  (opt_cost o <= fuel)%nat -> (d + opt_cost o <= MAX_DEPTH)%nat ->
  yields (el ← eat_keyword KwElse;
          if el : bool then e ← r_expr (parsers fuel) d 0; mret (Some e) else mret None)
    (else_tokens o ++ kw KwEnd :: rest) o (kw KwEnd :: rest).
Proof.
  intros Ho Hr Hf Hd. destruct o as [x|]; cbn [else_tokens opt_cost app] in *.
  - unfold sub_cost in *. specialize (Ho x eq_refl). ybind. cbv beta.
    eapply y_bind; [apply readable_reads; [done|lia..|done]|]. apply y_ret.
  - eapply y_bind; [by apply y_eat_not|]. apply y_ret.
Qed.

Lemma y_bind_assoc {A B C} (p : parser A) (f : A -> parser B) (g : B -> parser C) ts c ts' :
  yields ((p ≫= f) ≫= g) ts c ts' -> yields (p ≫= fun a => f a ≫= g) ts c ts'.
Proof.
  intros Hy st E. destruct (Hy st E) as (st' & E1 & E2). exists st'. split; [|done].
  unfold mbind, parser_bind in *. by destruct (p st).
Qed.

Lemma case_reads operand whens else_result :
  (forall x, operand = Some x -> readable x) ->
  Forall (fun w => readable w.1 /\ readable w.2) whens -> whens <> [] ->
  (forall x, else_result = Some x -> readable x) ->
  reads_bare (Case operand whens else_result).
Proof.
  intros Ho Hw Hne He. apply prefix_reads; [done|]. intros fuel d rest Hf Hd Hs%stop_nonempty.
  change (cost (Case operand whens else_result)) with
    (Nat.max (opt_cost operand) (Nat.max (max_list (map when_cost whens)) (opt_cost else_result))) in *.
  change (bare (Case operand whens else_result)) with
    (kw KwCase :: match operand with Some x => show 0 x | None => [] end ++
       concat (map when_tokens whens) ++ else_tokens else_result ++ [kw KwEnd]).
  cbn [app]. rewrite <- !app_assoc. cbn [app].
  assert (exists t ts, else_tokens else_result ++ kw KwEnd :: rest = t :: ts /\
            t <> kw KwWhen /\ stop_tok 0 t = true) as (t & ts & Et & Ht & Hst).
  { by destruct else_result; eexists _, _. }
  destruct (whens_start whens t ts) as (t1 & ts1 & Et1 & [-> |[-> ?]]); [|done].
  apply y_get. intros st E. rewrite (tok_at _ _ _ E).
  eapply y_bind; [apply y_expect; destruct operand; [by apply show_app_ne, Ho|by rewrite Et, Et1]|].
  apply y_get. intros st1 E1. eapply (y_bind _ _ _ operand).
  { unfold is_kw. destruct operand as [x|].
    - specialize (Ho x eq_refl). destruct (show_start 0 x (proj1 Ho)) as (t2 & ts2 & Et2 & Ht2).
      rewrite Et2 in E1. rewrite (is_tok_no _ _ _ _ E1) by (by intros ->). unfold opt_cost, sub_cost in *.
      eapply y_bind; [apply readable_reads; [done|lia..|by rewrite Et, Et1]|]. apply y_ret.
    - rewrite Et, Et1 in E1. rewrite (is_tok_yes _ _ _ E1). apply y_ret. }
  apply y_get. intros st2 E2. rewrite Et in *.
  eapply y_bind; [apply y_whens; [done..| |lia|lia]|].
  { rewrite <- (length_map fst st2), E2, length_app. pose proof (length_whens whens). cbn [length]. lia. }
  destruct whens as [|w whens]; [done|]. rewrite <- Et. apply y_bind_assoc.
  eapply y_bind; [apply y_else; [done|done|lia..]|]. ybind. apply y_ret.
Qed.

(** ** All of them *)

Definition short (e : Expr) : Prop := (cost e < length (bare e))%nat.

Lemma length_show m e : (length (bare e) <= length (show m e))%nat.
Proof.
  unfold show, parens. destruct (level e <? m); [|done]. cbn [length]. rewrite length_app. lia.
Qed.

Lemma left_cost_length m e : short e -> (left_cost m e < length (show m e))%nat.
Proof.
  intros Hc. unfold short in Hc. unfold left_cost, show, parens. destruct (level e <? m); [|done].
  cbn [length]. rewrite length_app. cbn [length]. lia.
Qed.

Lemma length_in_commas {A} (pr : A -> list Token) (l : list A) x :
  x ∈ l -> (length (pr x) <= length (commas (map pr l)))%nat.
Proof.
  induction l as [|y l IH]; [by intros ?%elem_of_nil|]. intros [-> |Hx]%elem_of_cons.
  - destruct l; [done|]. cbn [map commas]. rewrite length_app. lia.
  - specialize (IH Hx). destruct l as [|z l]; [by apply elem_of_nil in Hx|].
    change (commas (map pr (y :: z :: l))) with (pr y ++ TkComma :: commas (map pr (z :: l))).
    rewrite length_app. cbn [length]. lia.
Qed.

Lemma max_list_map_bound {A} (f : A -> nat) (l : list A) k :
  (forall x, x ∈ l -> (f x <= k)%nat) -> (max_list (map f l) <= k)%nat.
Proof.
  induction l as [|x l IH]; intros Hl; cbn; [lia|].
  pose proof (Hl x). specialize (IH (fun y Hy => Hl y (list_elem_of_further _ _ _ Hy))).
  pose proof (Hl x (list_elem_of_here _ _)). lia.
Qed.

Lemma exprs_cost l : Forall short l ->
  (max_list (map (sub_cost 0) l) <= length (commas (map (show 0) l)))%nat.
Proof.
  intros Hl. apply max_list_map_bound. intros x Hx. unfold sub_cost.
  pose proof (left_cost_length 0 x (proj1 (Forall_forall _ _) Hl x Hx)).
  pose proof (length_in_commas (show 0) l x Hx). lia.
Qed.

Lemma length_in_whens whens w :
  w ∈ whens -> (length (when_tokens w) <= length (concat (map when_tokens whens)))%nat.
Proof.
  induction whens as [|w' whens IH]; [by intros ?%elem_of_nil|].
  cbn [map concat]. rewrite length_app. intros [-> |Hw%IH]%elem_of_cons; lia.
Qed.

Lemma length_when c x :
  (length (when_tokens (c, x)) = 2 + length (show 0 c) + length (show 0 x))%nat.
Proof. cbn [when_tokens length]. rewrite length_app. cbn [length]. lia. Qed.

Lemma whens_cost whens : Forall (fun w => short w.1 /\ short w.2) whens ->
  (max_list (map when_cost whens) <= length (concat (map when_tokens whens)))%nat.
Proof.
  intros Hl. apply max_list_map_bound. intros [c x] Hx. cbn [when_cost]. unfold sub_cost.
  destruct (proj1 (Forall_forall _ _) Hl _ Hx) as [Hc Hx']. cbn [fst snd] in *.
  pose proof (left_cost_length 0 c Hc). pose proof (left_cost_length 0 x Hx').
  pose proof (length_in_whens whens _ Hx) as Hlen. rewrite length_when in Hlen. lia.
Qed.

(** Induction over an expression and those inside it. *)
Lemma printable_induction (P : Expr -> Prop) :
  (forall e, match e with
             | IntLiteral _ | NumericLiteral _ | StringLiteral _ | BoolLiteral _ | NullLiteral
             | ParamRef _ | ColumnRef _ _ | Func _ _ ArgStar => P e
             | Unary _ x | IsNull x _ | Cast x _ => P x -> P e
             | Binary _ x y | Like x y _ _ => P x -> P y -> P e
             | Func _ _ (ArgExprs l) => Forall P l -> P e
             | InList x l _ => P x -> Forall P l -> P e
             | Between x y z _ => P x -> P y -> P z -> P e
             | Case o whens els =>
                 (forall x, o = Some x -> P x) -> Forall (fun w => P w.1 /\ P w.2) whens ->
                 (forall x, els = Some x -> P x) -> P e
             | _ => P e
             end) ->
  forall e, P e.
Proof.
  intros HP. fix IH 1. intros e. specialize (HP e).
  destruct e as [| | | | | | | | |name ds [|l]| |x l ?| | |o whens els|x ?| | | | |];
    try exact HP; apply HP; clear HP; try apply IH.
  - revert l. fix go 1. intros [|x l]; constructor; [apply IH|apply go].
  - revert l. fix go 1. intros [|y l]; constructor; [apply IH|apply go].
  - destruct o as [x|]; [|discriminate]. intros y [= <-]. apply IH.
  - revert whens. fix go 1. intros [|[c x] whens]; constructor; [split; apply IH|apply go].
  - destruct els as [x|]; [|discriminate]. intros y [= <-]. apply IH.
Qed.

Lemma printable_list (Q : Expr -> Prop) l :
  Forall (fun x => printable x = true -> Q x) l -> forallb printable l = true -> Forall Q l.
Proof.
  induction 1 as [|x l Hx _ IH]; [constructor|]. cbn [forallb]. rewrite andb_true_iff.
  intros [Hpx Hp]. constructor; auto.
Qed.

Lemma printable_whens (Q : Expr -> Prop) whens :
  Forall (fun w => (printable w.1 = true -> Q w.1) /\ (printable w.2 = true -> Q w.2)) whens ->
  forallb (fun w => match w with (c, x) => printable c && printable x end) whens = true ->
  Forall (fun w => Q w.1 /\ Q w.2) whens.
Proof.
  induction 1 as [|[c x] whens [Hc Hx] _ IH]; [constructor|]. cbn [forallb fst snd].
  rewrite !andb_true_iff. intros [[Hpc Hpx] Hp]. constructor; auto.
Qed.

Lemma printable_opt (Q : Expr -> Prop) o :
  (forall x, o = Some x -> printable x = true -> Q x) ->
  match o with Some x => printable x | None => true end = true -> forall x, o = Some x -> Q x.
Proof. intros Ho Hp x ->. auto. Qed.

Ltac printable_parts :=
  match goal with Hp : printable _ = true |- _ =>
    pose proof Hp; cbn [printable] in Hp;
    rewrite ?andb_true_iff, ?negb_true_iff, ?bool_decide_eq_false in Hp; destruct_and?
  end.

Lemma all_readable e : printable e = true -> readable e.
Proof.
  revert e. apply (printable_induction (fun e => printable e = true -> readable e)). intros e.
  destruct e as [| | | | |tbl name| |op x|op x y|name [] [|l]|x ng|x l ng|x low high ng|x pat ng ci
    |o whens els|x ty| | | | |]; intros; (split; [done|]); printable_parts; try done;
    match goal with |- reads_bare ?e => try exact (literal_reads e) end.
  - by apply column_reads.
  - by apply unary_reads; auto.
  - apply binary_reads; auto.
  - apply func_reads; [done|]. by apply printable_list.
  - by apply func_star_reads.
  - apply func_reads; [done|]. by apply printable_list.
  - apply is_null_reads; auto.
  - apply in_list_reads; [auto|by apply printable_list|done].
  - apply between_reads; auto.
  - apply like_reads; auto.
  - apply case_reads; [by apply printable_opt|by apply printable_whens|done|by apply printable_opt].
  - apply cast_reads; auto.
Qed.

Lemma case_short o whens els :
  (forall x, o = Some x -> short x) -> Forall (fun w => short w.1 /\ short w.2) whens ->
  (forall x, els = Some x -> short x) -> short (Case o whens els).
Proof.
  intros Ho Hw He. unfold short.
  change (cost (Case o whens els)) with
    (Nat.max (opt_cost o) (Nat.max (max_list (map when_cost whens)) (opt_cost els))).
  change (bare (Case o whens els)) with
    (kw KwCase :: match o with Some x => show 0 x | None => [] end ++
       concat (map when_tokens whens) ++ else_tokens els ++ [kw KwEnd]).
  pose proof (whens_cost whens Hw). cbn [length]. rewrite !length_app. cbn [length].
  assert (opt_cost o <= length match o with Some x => show 0 x | None => [] end)%nat.
  { destruct o as [x|]; [|cbn; lia]. exact (left_cost_length 0 x (Ho x eq_refl)). }
  assert (opt_cost els <= length (else_tokens els))%nat.
  { destruct els as [x|]; [|cbn; lia]. pose proof (left_cost_length 0 x (He x eq_refl)).
    unfold opt_cost, sub_cost. cbn [else_tokens length]. lia. }
  lia.
Qed.

(** The cost and the length of an operator and its operands. *)
Ltac short_tac :=
  repeat match goal with
         | Hx : short ?x |- context [if level ?x <? ?m then _ else _] =>
             change (if level x <? m then S (cost x) else cost x) with (left_cost m x);
             change (parens (level x <? m) (bare x)) with (show m x);
             pose proof (left_cost_length m x Hx)
         end;
  cbn [length]; rewrite ?length_app; cbn [length]; rewrite ?length_app; cbn [length]; lia.

Lemma all_short e : printable e = true -> short e.
Proof.
  revert e. apply (printable_induction (fun e => printable e = true -> short e)). intros e.
  destruct e as [| | | | |[] name| |[] x|op x y|name ds [|l]|x ng|x l ng|x low high ng|x pat ng ci
    |o whens els|x ty| | | | |]; intros; printable_parts; try done; try (unfold short; cbn; lia).
  all: repeat match goal with
       | Hx : printable ?x = true -> short ?x, Hp : printable ?x = true |- _ => specialize (Hx Hp)
       | Hl : Forall _ ?l, Hp : forallb printable ?l = true |- _ =>
           apply (printable_list short l Hl), exprs_cost in Hp; clear Hl
       end.
  all: try (unfold short; cbn [cost bare]; short_tac).
  - unfold short. change (cost _) with (max_list (map (sub_cost 0) l)).
    change (bare _) with (TkIdent name :: TkLParen :: (if ds then [kw KwDistinct] else []) ++
                            commas (map (show 0) l) ++ [TkRParen]). short_tac.
  - unfold short. change (cost _) with (Nat.max (left_cost 5 x) (max_list (map (sub_cost 0) l))).
    change (bare _) with (show 5 x ++ neg_tok ng ++ kw KwIn :: TkLParen ::
                            commas (map (show 0) l) ++ [TkRParen]).
    pose proof (left_cost_length 5 x ltac:(assumption)). short_tac.
  - apply case_short; [by apply printable_opt|by apply printable_whens|by apply printable_opt].
Qed.


(** Nested no deeper than the parser allows. *)
Definition fits (e : Expr) : bool := printable e && (cost e <? MAX_DEPTH)%nat.

(** C19: The expression parser groups operators by their precedence and nothing
    else: the text of an expression, written with only the parentheses that the
    binding powers require, is read back as exactly that expression. It covers
    every operator and their associativity, NOT, unary minus, casts, IS NULL,
    IN lists, BETWEEN, LIKE and ILIKE with their negations, CASE, function calls
    and parameters, for expressions within the nesting and chain limits. *)
Theorem expr_reads_back (e : Expr) :
  fits e = true -> forallb spellable (show 0 e) = true ->
  parse_expr_for_test (str_of_bytes (spell_all (show 0 e))) = Some (Ok e).
Proof.
  intros [Hp Hc%Nat.ltb_lt]%andb_prop Hs.
  destruct (lex_spells_back _ Hs) as (out & E & Em). unfold parse_expr_for_test. rewrite E.
  pose proof (left_cost_length 0 e (all_short e Hp)) as Hl.
  assert (left_cost 0 e = cost e) as Hlc.
  { unfold left_cost. pose proof (level_edge e). by assert ((level e <? 0) = false) as -> by lia. }
  destruct (readable_reads e (all_readable e Hp) (parse_fuel out) 0%nat 0 [TkEof]) with (st := out)
    as (st' & -> & Et); [|lia|done|done|done|by rewrite (is_tok_yes _ _ _ Et)].
  unfold parse_fuel. rewrite <- (length_map fst out), Em, length_app. lia.
Qed.

End Print.

(** ** Witness *)

(** [-a.b :: numeric(10,2) * (1 + 2) NOT BETWEEN $1 AND 'x' || f(DISTINCT y) AND NOT c IS NULL
    OR CASE WHEN d IN (1, 2) THEN 1 END = 3 - (4 - 5)] *)
Lemma expr_reads_back_witness :
  let e :=
    Binary OpOr
      (Binary OpAnd
         (Between
            (Binary OpMul
               (Unary UNeg (Cast (ColumnRef (Some "a") "b") (TNumeric (Some (mkTypmod 10 2)))))
               (Binary OpAdd (IntLiteral "1") (IntLiteral "2")))
            (ParamRef 1)
            (Binary OpConcat (StringLiteral "x") (Func "f" true (ArgExprs [ColumnRef None "y"])))
            true)
         (Unary UNot (IsNull (ColumnRef None "c") false)))
      (Binary OpEq
         (Case None [(InList (ColumnRef None "d") [IntLiteral "1"; IntLiteral "2"] false,
                      IntLiteral "1")] None)
         (Binary OpSub (IntLiteral "3") (Binary OpSub (IntLiteral "4") (IntLiteral "5")))) in
  parse_expr_for_test (H := model_ext) (str_of_bytes (spell_all (show 0 e))) = Some (Ok e).
Proof. apply (expr_reads_back (H := model_ext)); reflexivity. Defined.

(** ** Two gaps of the parser

    The nesting limit does not reach parenthesised joins: a FROM clause is read
    however deep its parentheses go. And the WITH clause inside a parenthesised
    query is lost when the query stands by itself. *)
Section Gaps.
Context `{Ext}.

(** [t] inside [n] pairs of parentheses. *)
Fixpoint nested (n : nat) (t : string) : list Token :=
  match n with O => [TkIdent t] | S n => TkLParen :: nested n t ++ [TkRParen] end.

(** What may follow a table: neither an alias nor another join. *)
Definition after_table (ts : list Token) : Prop :=
  match ts with TkRParen :: _ | TkEof :: _ => True | _ => False end.

Lemma y_join_done r fuel d left ts :
  after_table ts -> yields (join_loop r (S fuel) d left) ts left ts.
Proof.
  intros Ha. destruct ts as [|t ts]; [done|]. cbn [join_loop].
  eapply y_bind; [apply y_eat_not; by destruct t|]. apply y_get. intros st E.
  unfold peek_is_join_start. rewrite (tok_at _ _ _ E).
  assert (kw_in [KwJoin; KwInner; KwLeft; KwRight; KwFull; KwCross] t = false) as ->
    by (by destruct t). apply y_ret.
Qed.

Lemma y_table r d t ts :
  after_table ts -> yields (table_factor r d) (TkIdent t :: ts) (TableRef t None) ts.
Proof.
  intros Ha. destruct ts as [|x ts]; [done|]. apply y_get. intros st E.
  rewrite (is_tok_no _ _ _ _ E) by done. eapply y_bind; [by apply y_ident|].
  eapply y_bind; [|apply y_ret]. eapply y_bind; [apply y_eat_not; by destruct x|].
  apply y_get. intros st1 E1. rewrite (tok_at _ _ _ E1). destruct x; try done; apply y_ret.
Qed.

Lemma nested_start n t ts :
  exists x ts', nested n t ++ ts = x :: ts' /\ kw_in query_kws x = false.
Proof. destruct n; by eexists _, _. Qed.

Lemma y_nested n t fuel d ts :
  (n < fuel)%nat -> after_table ts ->
  yields (r_join_tree (parsers fuel) d) (nested n t ++ ts) (TableRef t None) ts.
Proof.
  revert fuel ts. induction n as [|n IH]; intros [|fuel] ts Hf Ha; try lia;
    change (r_join_tree (parsers (S fuel)) d) with (join_tree (parsers fuel) d); cbn [nested app].
  - eapply y_bind; [by apply y_table|]. apply y_get. intros st E. by apply y_join_done.
  - rewrite <- app_assoc. cbn [app]. eapply y_bind.
    + apply y_get. intros st E. rewrite (is_tok_yes _ _ _ E).
      destruct (nested_start n t (TkRParen :: ts)) as (x & ts' & Ex & Hx).
      eapply y_bind; [apply y_bump; by rewrite Ex|]. apply y_get. intros st1 E1.
      rewrite Ex in E1. rewrite (tok_at _ _ _ E1), Hx.
      eapply y_bind; [apply IH; [lia|done]|].
      eapply y_bind; [apply y_expect; by destruct ts|apply y_ret].
    + apply y_get. intros st E. by apply y_join_done.
Qed.

(** SELECT * FROM the nested table. *)
Definition select_nested (n : nat) (t : string) : list Token :=
  [TkKeyword KwSelect; TkStar; TkKeyword KwFrom] ++ nested n t.

Definition select_all (t : string) : QueryExpr :=
  mkQueryExpr None
    (SetQuery (BodySelect (mkSelectStmt [Wildcard] [TableRef t None] None false [] None [] None None
                             None))) [] None None None.

Ltac ynot := eapply y_bind; [by apply y_eat_not|]; cbv beta iota.

Lemma y_select_core n t fuel d :
  (n < fuel)%nat -> (d < MAX_DEPTH)%nat ->
  yields (select_core (parsers fuel) d) (select_nested n t ++ [TkEof])
    (mkSelectStmt [Wildcard] [TableRef t None] None false [] None [] None None None) [TkEof].
Proof.
  intros Hn Hd. destruct (nested_start n t [TkEof]) as (x & ts & Ex & Hx).
  unfold select_nested. cbn [app]. eapply y_bind; [by apply y_enter|].
  eapply y_bind; [by apply y_expect|]. ynot. ynot.
  apply y_get. intros st E. rewrite (is_tok_yes _ _ _ E).
  eapply y_bind; [eapply y_bind; [by apply y_bump|apply y_ret]|].
  eapply y_bind; [apply y_eat; by rewrite Ex|]. cbv beta iota.
  eapply (y_bind _ _ _ [TableRef t None] [TkEof]).
  - apply y_state. intros st1 E1 st2 E2. unfold parse_from, sep_list. cbn [sep_loop].
    refine (y_bind _ _ _ _ _ _ _ (y_nested n t fuel _ [TkEof] Hn I) _ st1 E1).
    eapply y_bind; [by apply y_comma_not|]. apply y_ret.
  - eapply y_bind; [eapply y_bind; [by apply y_eat_not|apply y_ret]|]. ynot.
    eapply y_bind; [apply y_ret|].
    eapply y_bind; [eapply y_bind; [by apply y_eat_not|apply y_ret]|]. apply y_ret.
Qed.

Lemma y_select_query n t fuel :
  (S n < fuel)%nat ->
  yields (query_expr (parsers fuel) 0) (select_nested n t ++ [TkEof]) (select_all t) [TkEof].
Proof.
  intros Hn. destruct fuel as [|fuel]; [lia|]. unfold select_nested. cbn [app].
  eapply y_bind; [eapply y_bind; [by apply y_eat_not|apply y_ret]|].
  apply y_get. intros st E. rewrite (is_tok_no _ _ _ _ E) by done.
  eapply (y_bind _ _ _ (SetQuery (BodySelect (mkSelectStmt [Wildcard] [TableRef t None] None false []
                                               None [] None None None))) [TkEof]).
  - change (r_set_expr (parsers (S fuel)) 0 0) with (set_expr (parsers fuel) 0 0).
    eapply y_bind; [apply y_enter; unfold MAX_DEPTH; lia|].
    eapply y_bind.
    + apply y_get. intros st1 E1. unfold is_kw.
      rewrite (is_tok_no _ _ _ _ E1), (is_tok_no _ _ _ _ E1) by done.
      eapply y_bind; [apply (y_select_core n t); [lia|unfold MAX_DEPTH; lia]|apply y_ret].
    + change MAX_DEPTH with (S 49). cbn [set_expr_rest]. apply y_get. intros st1 E1.
      rewrite (tok_at _ _ _ E1). apply y_ret.
  - eapply (y_bind _ _ _ ([], None, None, None) [TkEof]); [|apply y_ret].
    eapply (y_bind _ _ _ ([], None, None) [TkEof]).
    + ynot. eapply y_bind; [apply y_ret|]. eapply (y_bind _ _ _ (None, None)); [|apply y_ret].
      cbn [limit_loop]. ynot. ynot. apply y_ret.
    + eapply y_bind; [|apply y_ret]. eapply y_bind; [by apply y_eat_not|apply y_ret].
Qed.

Lemma nested_length n t : (length (nested n t) = 2 * n + 1)%nat.
Proof.
  induction n as [|n IH]; [done|]. cbn [nested length]. rewrite length_app, IH. cbn. lia.
Qed.

Lemma nested_spellable n t :
  spellable (TkIdent t) = true -> forallb spellable (nested n t) = true.
Proof.
  intros Ht. induction n as [|n IH]; cbn [nested forallb]; [by rewrite Ht|].
  rewrite forallb_app, IH. done.
Qed.

(** A program of one statement. *)
Lemma program_one r fuel t ts s st :
  t <> TkSemicolon -> t <> TkEof -> yields (statement r) (t :: ts) s [TkEof] ->
  map fst st = t :: ts ->
  exists span st', program_loop r (S fuel) st = POk [(s, span)] st'.
Proof.
  intros H1 H2 Hs E. destruct (Hs st E) as (st' & Es & E').
  exists (pos_of st, pos_of st'), st'. cbn [program_loop skip_semicolons].
  unfold mbind, mret, parser_bind, parser_ret, get.
  rewrite (is_tok_no _ _ _ _ E H1), (is_tok_no _ _ _ _ E H2), Es, (tok_at _ _ _ E'). done.
Qed.

(** The nesting limit is not enforced on parenthesised joins: a SELECT from a
    table inside [n] pairs of parentheses is accepted for every [n], far beyond
    [MAX_DEPTH] as well, instead of being refused as too complex. *)
Theorem from_parens_not_limited (n : nat) (t : string) :
  spellable (TkIdent t) = true ->
  parse (str_of_bytes (spell_all (select_nested n t))) = Some (Ok [Query (select_all t)]).
Proof.
  intros Ht. destruct (lex_spells_back (select_nested n t)) as (out & E & Em).
  { unfold select_nested. cbn [app forallb]. by rewrite nested_spellable. }
  unfold parse. rewrite E. unfold program_spanned.
  assert (S (S n) < parse_fuel out)%nat as Hf.
  { unfold parse_fuel. rewrite <- (length_map fst out), Em, length_app. unfold select_nested.
    rewrite length_app, nested_length. cbn. lia. }
  destruct (program_one (parsers (parse_fuel out)) (length out) (TkKeyword KwSelect)
              ([TkStar; TkKeyword KwFrom] ++ nested n t ++ [TkEof]) (Query (select_all t)) out)
    as (span & st' & ->); [done|done| |exact Em|done].
  apply y_get. intros st E1. unfold starts_query_expr. rewrite (tok_at _ _ _ E1).
  destruct (parse_fuel out) as [|fuel]; [lia|].
  eapply y_bind; [|apply y_ret]. apply (y_select_query n t). lia.
Qed.

(** What follows a query that stands by itself. *)
Definition after_query (st : Toks) : bool :=
  negb (peek_is_set_op st) && negb (query_tail_or_locking_starts st).

(** A query in parentheses that stands by itself loses its own WITH clause:
    whatever the query inside the parentheses is read as, the result is that
    query with the WITH clause that stood before the parenthesis, here none, so
    the names it defines are no longer bound. *)
Theorem parenthesised_with_is_lost (r : Parsers) (d : nat) (p : Z) (st st' : Toks) (q : QueryExpr) :
  st <> [] -> r_after_open_paren r d st = POk q st' -> after_query st' = true ->
  query_expr r d ((TkLParen, p) :: st) = POk (set_with None q) st'.
Proof.
  intros Hne Hq [Hs%negb_true_iff Ht]%andb_prop.
  destruct st as [|x st]; [done|].
  unfold query_expr, parse_with_clause, parenthesized_query_expr.
  unfold mbind, mret, parser_bind, parser_ret, get.
  change (eat_keyword KwWith ((TkLParen, p) :: x :: st)) with (POk false ((TkLParen, p) :: x :: st)).
  cbv beta iota.
  change (is_tok TkLParen ((TkLParen, p) :: x :: st)) with true. cbv beta iota.
  change (expect TkLParen ((TkLParen, p) :: x :: st)) with (POk () (x :: st)). cbv beta iota.
  by rewrite Hq, Hs, Ht.
Qed.

End Gaps.

(** ** Witnesses *)

(** Two hundred parentheses, four times the limit. *)
Lemma from_parens_not_limited_witness :
  (MAX_DEPTH < 200)%nat /\
  parse (H := model_ext) (str_of_bytes (spell_all (select_nested 200 "t"))) =
    Some (Ok [Query (select_all "t")]).
Proof.
  split; [unfold MAX_DEPTH; lia|]. apply (from_parens_not_limited (H := model_ext)). reflexivity.
Defined.

(** [WITH x AS (SELECT * FROM t) SELECT * FROM x], closing its parenthesis: the
    query read inside it has the clause, the one around it has not. *)
Definition with_tokens : Toks :=
  map (fun t => (t, 0))
    ([TkKeyword KwWith; TkIdent "x"; TkKeyword KwAs; TkLParen] ++ select_nested 0 "t" ++ [TkRParen] ++
     select_nested 0 "x" ++ [TkRParen; TkEof]).

Lemma parenthesised_with_is_lost_witness :
  let r := parsers (H := model_ext) 20 in
  let q := set_with (Some (mkWithClause false [mkCte "x" None (select_all "t")])) (select_all "x") in
  r_after_open_paren r 0 with_tokens = POk q [(TkEof, 0)] /\
  query_expr (H := model_ext) r 0 ((TkLParen, 0) :: with_tokens) = POk (select_all "x") [(TkEof, 0)].
Proof.
  split; [reflexivity|].
  apply (parenthesised_with_is_lost (H := model_ext) (parsers (H := model_ext) 20) 0 0 with_tokens
           [(TkEof, 0)]
           (set_with (Some (mkWithClause false [mkCte "x" None (select_all "t")])) (select_all "x")));
    [done|reflexivity|reflexivity].
Defined.
