(* ===== verification/Calendar.v ===== *)
(** * The calendar operations of jiff

    The constructors and calendar fields of civil dates that the date/time
    functions call, beside those of [Ext] and [ExtArith], with what jiff
    documents of them, and their instance over day counts. *)
From Stdlib Require Import ZArith Lia.
From stdpp Require Import base list gmap strings.
From S2P Require Import Prelude Datum ExtModel ExtArith.
Open Scope Z_scope.

Class ExtCal `{ExtArith} : Type := {
  (* Date::new and DateTime::new *)
  date_new : Z -> Z -> Z -> option Date;
  datetime_new : Z -> Z -> Z -> Z -> Z -> Z -> Z -> option DateTime;
  (* weekday().to_monday_one_offset(), to_sunday_zero_offset() *)
  date_monday_one : Date -> Z;
  date_sunday_zero : Date -> Z;
  date_day_of_year : Date -> Z;
  date_days_in_month : Date -> Z;
  (* iso_week_date(): its year and week *)
  date_iso_year : Date -> Z;
  date_iso_week : Date -> Z
}.

(** The civil fields of a date and time. *)
Record Civil : Type := mkCivil {
  cv_year : Z; cv_month : Z; cv_day : Z;
  cv_hour : Z; cv_minute : Z; cv_second : Z; cv_nanos : Z
}.

Definition civil_fields `{ExtArith} (t : DateTime) : Civil :=
  mkCivil (date_year (datetime_date t)) (date_month (datetime_date t)) (date_day (datetime_date t))
    (time_hour (datetime_time t)) (time_minute (datetime_time t)) (time_second (datetime_time t))
    (time_subsec_nanosecond (datetime_time t)).

Class ExtCalLaws `{ExtCal} : Prop := {
  (* a constructor that succeeds gives the fields it was given *)
  date_new_fields y m d x :
    date_new y m d = Some x -> date_year x = y /\ date_month x = m /\ date_day x = d;
  (* the first of every month of the years -9999 to 9999 is a date *)
  date_new_first y m : -9999 <= y <= 9999 -> 1 <= m <= 12 -> is_Some (date_new y m 1);
  (* and no other year has one *)
  date_new_year y m d x : date_new y m d = Some x -> -9999 <= y <= 9999;
  days_in_month_range d : 28 <= date_days_in_month d <= 31;
  monday_one_range d : 1 <= date_monday_one d <= 7
}.

(** ** Over day counts *)

(** 2000-01-01 is a Saturday. *)
Definition weekday_one (n : Z) : Z := (n + 5) mod 7 + 1.

Definition year_of (n : Z) : Z := (civil_of_days n).1.1.

(** The Monday of the first ISO week of a year: that of January the 4th. *)
Definition iso_start (y : Z) : Z :=
  let n := days_of_civil y 1 4 in n - (weekday_one n - 1).

Definition iso_year_of (n : Z) : Z :=
  let y := year_of n in
  if n <? iso_start y then y - 1 else if n <? iso_start (y + 1) then y else y + 1.

Definition cdate_new (y m d : Z) : option Z :=
  if in_range (-9999) 9999 y && in_range 1 12 m && in_range 1 (month_len y m) d
  then Some (days_of_civil y m d) else None.

(** Civil datetimes of the model count microseconds, so a finer fraction is not
    one of them. *)
Definition cdatetime_new (y mo d h mi s n : Z) : option Z :=
  day ← cdate_new y mo d;
  t ← ctime_new h mi s n;
  Some (day * US_PER_DAY + `t / 1000).

#[export] Instance model_cal : ExtCal := {|
  date_new := cdate_new : Z -> Z -> Z -> option Date;
  datetime_new := cdatetime_new : Z -> Z -> Z -> Z -> Z -> Z -> Z -> option DateTime;
  date_monday_one (n : Z) := weekday_one n;
  date_sunday_zero (n : Z) := weekday_one n mod 7;
  date_day_of_year (n : Z) := n - days_of_civil (year_of n) 1 1 + 1;
  date_days_in_month (n : Z) :=
    let '(y, m, _) := civil_of_days n in Z.max 28 (Z.min 31 (month_len y m));
  date_iso_year (n : Z) := iso_year_of n;
  date_iso_week (n : Z) := (n - iso_start (iso_year_of n)) / 7 + 1
|}.

(** ** The laws *)

Local Ltac Zify.zify_post_hook ::= Z.to_euclidean_division_equations.

(** The year of a 400-year cycle from the day of the cycle; years start in
    March, and the last day of a year is there in leap years only. *)
Lemma yoe_of_doe y doy :
  0 <= y < 400 -> 0 <= doy <= 365 ->
  (doy = 365 -> (y + 1) mod 4 = 0 /\ ((y + 1) mod 100 <> 0 \/ (y + 1) mod 400 = 0)) ->
  let doe := y * 365 + y / 4 - y / 100 + doy in
  0 <= doe < 146097 /\ (doe - doe / 1460 + doe / 36524 - doe / 146096) / 365 = y.
Proof.
  intros Hy Hd Hl doe.
  assert (exists a b c, y = 100 * a + 4 * b + c /\ 0 <= a <= 3 /\ 0 <= b <= 24 /\ 0 <= c <= 3)
    as (a & b & c & Ey & Ha & Hb & Hc).
  { exists (y / 100), (y mod 100 / 4), ((y mod 100) mod 4). lia. }
  assert (y / 100 = a) by lia. assert (y / 4 = 25 * a + b) by lia.
  assert (doy = 365 -> c = 3 /\ (b < 24 \/ a = 3)) as Hl' by lia.
  assert (doe = 36524 * a + 1461 * b + 365 * c + doy) as Edoe by lia.
  clearbody doe. clear Hl. split; [lia|].
  assert (doe / 146096 = if bool_decide (doe = 146096) then 1 else 0) as ->.
  { case_bool_decide; lia. }
  assert (doe / 36524 = a + if bool_decide (doe = 146096) then 1 else 0) as ->.
  { case_bool_decide; lia. }
  replace (doe / 1460) with (25 * a + b + (24 * a + b + 365 * c + doy) / 1460) by lia. lia.
Qed.

(** The month, counted from March, and its day, from the day of the year. *)
Lemma month_of_doy mp d :
  0 <= mp <= 11 -> 1 <= d <= 31 -> (mp ∈ [1; 3; 6; 8; 11] -> d <= 30) ->
  let doy := (153 * mp + 2) / 5 + d - 1 in
  (5 * doy + 2) / 153 = mp /\ 0 <= doy <= 336 + d.
Proof.
  intros Hm Hd H30 doy.
  assert (mp = 0 \/ mp = 1 \/ mp = 2 \/ mp = 3 \/ mp = 4 \/ mp = 5 \/ mp = 6 \/ mp = 7 \/
          mp = 8 \/ mp = 9 \/ mp = 10 \/ mp = 11) as C by lia.
  assert (mp ∈ [1; 3; 6; 8; 11] <-> mp = 1 \/ mp = 3 \/ mp = 6 \/ mp = 8 \/ mp = 11) as E by set_solver.
  rewrite E in H30. subst doy. destruct_or! C; subst mp; split; lia.
Qed.

(** The days before a year: whole cycles, and the years of the current one. *)
Lemma cycle_days y :
  y / 400 * 146097 + (y mod 400 * 365 + y mod 400 / 4 - y mod 400 / 100) =
  365 * y + y / 4 - y / 100 + y / 400.
Proof.
  assert (y mod 400 / 4 = y / 4 - 100 * (y / 400)) by lia.
  assert (y mod 400 / 100 = y / 100 - 4 * (y / 400)) by lia. lia.
Qed.

Lemma days_of_civil_eq y m d :
  let y' := if m <=? 2 then y - 1 else y in
  days_of_civil y m d =
  365 * y' + y' / 4 - y' / 100 + y' / 400 +
  ((153 * (m + (if 2 <? m then -3 else 9)) + 2) / 5 + d - 1) - 730425.
Proof. intros y'. rewrite <- cycle_days. unfold days_of_civil. fold y'. lia. Qed.

(** Decide the comparisons of constants in the goal. *)
Ltac eval_tests :=
  repeat match goal with
  | |- context [?a <=? ?b] => let v := eval vm_compute in (a <=? b) in change (a <=? b) with v
  | |- context [?a <? ?b] => let v := eval vm_compute in (a <? b) in change (a <? b) with v
  end; cbv iota.

Lemma month_len_bounds y m :
  1 <= m <= 12 ->
  28 <= month_len y m <= 31 /\ (m ∈ [4; 6; 9; 11] -> month_len y m = 30) /\
  (m = 2 -> month_len y m <= 29 /\
     (month_len y m = 29 -> y mod 4 = 0 /\ (y mod 100 <> 0 \/ y mod 400 = 0))).
Proof.
  intros Hm. assert (m ∈ [4; 6; 9; 11] <-> m = 4 \/ m = 6 \/ m = 9 \/ m = 11) as -> by set_solver.
  assert (m = 1 \/ m = 2 \/ m = 3 \/ m = 4 \/ m = 5 \/ m = 6 \/ m = 7 \/ m = 8 \/
          m = 9 \/ m = 10 \/ m = 11 \/ m = 12) as C by lia.
  unfold month_len. rewrite !days_of_civil_eq.
  destruct_or! C; subst m; cbn [Z.eqb Pos.eqb]; eval_tests; rewrite ?Z.add_simpl_r;
    split_and!; lia.
Qed.

Lemma civil_of_days_of_civil y m d :
  1 <= m <= 12 -> 1 <= d <= month_len y m -> civil_of_days (days_of_civil y m d) = (y, m, d).
Proof.
  intros Hm Hd. destruct (month_len_bounds y m Hm) as (Hl & H30 & Hfeb).
  set (y' := if m <=? 2 then y - 1 else y).
  set (mp := m + (if 2 <? m then -3 else 9)).
  assert (0 <= mp <= 11) by (unfold mp; destruct (Z.ltb_spec 2 m); lia).
  destruct (month_of_doy mp d) as [Emp Hdoy]; [lia|lia| |].
  { intros Hin. assert (mp = 1 \/ mp = 3 \/ mp = 6 \/ mp = 8 \/ mp = 11) as C by set_solver.
    unfold mp in C. destruct (Z.ltb_spec 2 m); [|lia]. rewrite <- H30; [lia|].
    assert (m = 4 \/ m = 6 \/ m = 9 \/ m = 11) as C' by lia. set_solver. }
  set (doy := (153 * mp + 2) / 5 + d - 1) in *.
  destruct (yoe_of_doe (y' mod 400) doy) as [Hdoe Eyoe]; [lia | |  |].
  { unfold doy, mp in *. destruct (Z.ltb_spec 2 m); [lia|]. assert (m = 1 \/ m = 2) by lia. lia. }
  { intros E365. assert (m = 2) as ->.
    { unfold doy, mp in *. destruct (Z.ltb_spec 2 m); lia. }
    unfold y'. simpl. destruct Hfeb as [Hf1 Hf2]; [done|].
    assert (d = 29) by (unfold doy, mp in E365; simpl in E365; lia). lia. }
  set (doe := y' mod 400 * 365 + y' mod 400 / 4 - y' mod 400 / 100 + doy) in *.
  assert (days_of_civil y m d = y' / 400 * 146097 + doe - 730425) as -> by done.
  unfold civil_of_days.
  replace (y' / 400 * 146097 + doe - 730425 + 730425) with (doe + y' / 400 * 146097) by lia.
  rewrite Z.div_add, Z.mod_add, (Z.div_small doe), (Z.mod_small doe), Eyoe by lia.
  replace (doe - (365 * (y' mod 400) + y' mod 400 / 4 - y' mod 400 / 100)) with doy by (unfold doe; lia).
  rewrite Emp. unfold doy, mp, y'.
  destruct (Z.ltb_spec 2 m), (Z.leb_spec m 2); try lia;
    destruct (Z.ltb_spec (m + -3) 10), (Z.ltb_spec (m + 9) 10); try lia; repeat f_equal; try lia.
  all: destruct (Z.leb_spec (m + -3 + 3) 2), (Z.leb_spec (m + 9 - 9) 2),
    (Z.leb_spec (m + -3 - 9) 2); lia.
Qed.

Lemma cdate_new_Some y m d x :
  cdate_new y m d = Some x ->
  -9999 <= y <= 9999 /\ 1 <= m <= 12 /\ 1 <= d <= month_len y m /\ civil_of_days x = (y, m, d).
Proof.
  unfold cdate_new, in_range. destruct (_ && _) eqn:E; [intros [= <-]|done].
  rewrite !andb_true_iff, !Z.leb_le in E. split_and!; try lia.
  apply civil_of_days_of_civil; lia.
Qed.

#[export] Instance model_cal_laws : ExtCalLaws.
Proof.
  split.
  - intros y m d x (_ & _ & _ & E)%cdate_new_Some.
    change ((civil_of_days x).1.1 = y /\ (civil_of_days x).1.2 = m /\ (civil_of_days x).2 = d).
    by rewrite E.
  - intros y m Hy Hm. change (is_Some (cdate_new y m 1)). unfold cdate_new, in_range.
    pose proof (month_len_bounds y m Hm).
    replace (_ && _) with true; [by eexists|].
    symmetry. rewrite !andb_true_iff, !Z.leb_le. lia.
  - intros y m d x (? & _)%cdate_new_Some. done.
  - intros d. cbn -[civil_of_days month_len]. destruct (civil_of_days d) as [[y m] ?]. lia.
  - intros d. cbn -[weekday_one]. unfold weekday_one. lia.
Qed.
