(* ===== verification/DateTimeFmt.v ===== *)
(** * Templates of dates and times (pgtypes/src/datetime.rs)

    The to_char engine for dates, times and intervals, the template-driven parse
    of to_timestamp and to_date, the make constructors and the justification of
    intervals. *)
From Stdlib Require Import ZArith Lia Ascii.
From stdpp Require Import base list gmap strings.
From S2P Require Import Prelude Text Chars Datum Float DateTimeBin ExtArith DateTime Calendar.
Open Scope Z_scope.

(** ** Fields *)

(** [pgtypes/src/datetime.rs:937-953] DateTimeFields *)
Record DateTimeFields : Type := mkFields {
  df_year : Z; df_month : Z; df_day : Z;
  df_hour : Z; df_minute : Z; df_second : Z; df_micros : Z;
  df_iso_dow : Z; df_dow : Z; df_doy : Z;
  df_iso_week : Z; df_iso_year : Z; df_week_of_year : Z; df_week_of_month : Z;
  df_tz_offset_secs : option Z
}.

(** [pgtypes/src/datetime.rs:958-983] from_civil; the fields of a civil datetime
    are non-negative but for its year, so no cast loses anything *)
Definition from_civil `{ExtCal} (dt : DateTime) (tz_offset_secs : option Z) : DateTimeFields :=
  let date := datetime_date dt in
  let time := datetime_time dt in
  let doy := date_day_of_year date in
  let day := date_day date in
  mkFields (date_year date) (date_month date) day
    (time_hour time) (time_minute time) (time_second time)
    (Z.quot (time_subsec_nanosecond time) 1000)
    (date_monday_one date) (date_sunday_zero date + 1) doy
    (date_iso_week date) (date_iso_year date)
    (Z.quot (doy - 1) 7 + 1) (Z.quot (day - 1) 7 + 1)
    tz_offset_secs.

(** [pgtypes/src/datetime.rs:996-1028] FieldSource *)
Record FieldSource : Type := mkSource {
  f_year : Z; f_month : Z; f_day : Z;
  f_hour : Z; f_minute : Z; f_second : Z; f_micros : Z;
  f_iso_dow : Z; f_dow : Z; f_doy : Z;
  f_iso_week : Z; f_iso_year : Z; f_week_of_year : Z; f_week_of_month : Z;
  f_tz_offset_secs : option Z;
  f_month_name_index : Z;
  f_day_name_index : Z
}.

(** [pgtypes/src/datetime.rs:1030-1084] impl, of FieldSource for DateTimeFields *)
Definition datetime_source (f : DateTimeFields) : FieldSource :=
  mkSource (df_year f) (df_month f) (df_day f)
    (df_hour f) (df_minute f) (df_second f) (df_micros f)
    (df_iso_dow f) (df_dow f) (df_doy f)
    (df_iso_week f) (df_iso_year f) (df_week_of_year f) (df_week_of_month f)
    (df_tz_offset_secs f)
    (df_month f - 1) (df_dow f - 1).

(** [pgtypes/src/datetime.rs:1093-1161] IntervalFields, and FieldSource for it;
    the name indices are the trait's own *)
Definition interval_source (iv : Interval) : FieldSource :=
  let mo := Z.rem (months iv) 12 in
  mkSource (Z.quot (months iv) 12) mo (days iv)
    (Z.quot (micros iv) 3600000000)
    (Z.rem (Z.quot (micros iv) 60000000) 60)
    (Z.rem (Z.quot (micros iv) 1000000) 60)
    (Z.rem (micros iv) 1000000)
    0 0 0 0 0 0 0 None
    (mo mod 12) ((0 - 1) mod 7).

(** [pgtypes/src/datetime.rs:1164-1166] ROMAN_MONTHS *)
Definition ROMAN_MONTHS : list string :=
  ["I"; "II"; "III"; "IV"; "V"; "VI"; "VII"; "VIII"; "IX"; "X"; "XI"; "XII"].

(** [pgtypes/src/datetime.rs:1170-1183] MONTH_NAMES *)
Definition MONTH_NAMES : list string :=
  ["January"; "February"; "March"; "April"; "May"; "June"; "July"; "August"; "September";
   "October"; "November"; "December"].

(** [pgtypes/src/datetime.rs:1186-1194] DAY_NAMES *)
Definition DAY_NAMES : list string :=
  ["Sunday"; "Monday"; "Tuesday"; "Wednesday"; "Thursday"; "Friday"; "Saturday"].

(** Indexing a table, which panics out of range. *)
Definition name_at (table : list string) (i : Z) : result (fault TypeError) string :=
  panic_or (if i <? 0 then None else table !! Z.to_nat i).

(** ** Rendering *)

(** [pgtypes/src/datetime.rs:1286-1292] matches_at, on the characters from the
    position on *)
Definition matches_at (cs : list Z) (kw : string) : bool := starts_with (chars kw) cs.

(** [pgtypes/src/datetime.rs:1297-1314] ordinal_suffix *)
Definition ordinal_suffix (n : Z) (upper : bool) : string :=
  let abs := Z.abs n mod 100 in
  let s :=
    if in_range 11 13 abs then "th"
    else match abs mod 10 with
         | 1 => "st" | 2 => "nd" | 3 => "rd" | _ => "th"
         end in
  if upper then to_ascii_uppercase s else s.

(** [pgtypes/src/datetime.rs:1318-1326] pad_num *)
Definition pad_num (value : Z) (width : nat) (fm : bool) : string :=
  if fm then z_to_string value
  else if value <? 0 then "-" +:+ pad_int width (Z.abs value)
  else pad_int width value.

(** [format!("{name:<width$}")] *)
Definition pad_right (width : nat) (s : string) : string :=
  s +:+ str_repeat (width - length (chars s)) " "%char.

(** [pgtypes/src/datetime.rs:1330-1336] pad_name *)
Definition pad_name (name : string) (width : nat) (fm : bool) : string :=
  if fm then name else pad_right width name.

(** [pgtypes/src/datetime.rs:1341-1347] pad_roman *)
Definition pad_roman (numeral : string) (fm : bool) : string :=
  if fm then numeral else pad_right 4 numeral.

(** [pgtypes/src/datetime.rs:1353-1366] meridiem *)
Definition meridiem (hour : Z) (lower dotted : bool) : string :=
  let pm := 12 <=? hour in
  let s :=
    match pm, dotted with
    | false, false => "AM"
    | true, false => "PM"
    | false, true => "A.M."
    | true, true => "P.M."
    end in
  if lower then to_ascii_lowercase s else s.

(** [pgtypes/src/datetime.rs:1370-1383] era *)
Definition era (year : Z) (lower dotted : bool) : string :=
  let bc := year <=? 0 in
  let s :=
    match bc, dotted with
    | false, false => "AD"
    | true, false => "BC"
    | false, true => "A.D."
    | true, true => "B.C."
    end in
  if lower then to_ascii_lowercase s else s.

(** [pgtypes/src/datetime.rs:1388-1392] NameCase *)
Inductive NameCase : Type := Title | Upper | Lower.

(** [pgtypes/src/datetime.rs:1394-1400] cased *)
Definition cased (name : string) (case : NameCase) : string :=
  match case with
  | Title => name
  | Upper => to_ascii_uppercase name
  | Lower => to_ascii_lowercase name
  end.

(** [pgtypes/src/datetime.rs:1406-1408] hour12 *)
Definition hour12 (hour : Z) : Z := (hour + 11) mod 12 + 1.

(** [pgtypes/src/datetime.rs:1412-1416] offset_hh *)
Definition offset_hh (secs : Z) : string :=
  (if secs <? 0 then "-" else "+") +:+ pad_int 2 (Z.abs secs / 3600).

(** A keyword of the template and what it renders: the text, and the number an
    ordinal suffix may follow. *)
Definition Pattern : Type := string * (unit -> result (fault TypeError) (string * option Z)).

Definition number (kw : string) (v : Z) (width : nat) (fm : bool) : Pattern :=
  (kw, fun _ => Ok (pad_num v width fm, Some v)).
Definition bare (kw : string) (v : Z) : Pattern := (kw, fun _ => Ok (z_to_string v, Some v)).
Definition text (kw : string) (s : unit -> string) : Pattern := (kw, fun _ => Ok (s tt, None)).
Definition name (kw : string) (s : result (fault TypeError) string) (show : string -> string) : Pattern :=
  (kw, fun _ => s ← s; Ok (show s, None)).

(** [pgtypes/src/datetime.rs:1427-1492] match_pattern, the patterns of the year,
    the ISO year and the century, in the order they are tried *)
Definition year_patterns (f : FieldSource) (fm : bool) : list Pattern :=
  let y := f_year f in
  let iy := f_iso_year f in
  [ number "YYYY" y 4 fm;
    number "YYY" (y mod 1000) 3 fm;
    ("Y,YYY", fun _ =>
       Ok (z_to_string (Z.quot y 1000) +:+ "," +:+ pad_int 3 (Z.abs (Z.rem y 1000)), Some y));
    number "YY" (y mod 100) 2 fm;
    number "Y" (y mod 10) 1 fm;
    number "IDDD" ((f_iso_week f - 1) * 7 + f_iso_dow f) 3 fm;
    number "IYYY" iy 4 fm;
    number "IYY" (iy mod 1000) 3 fm;
    number "IW" (f_iso_week f) 2 fm;
    number "IY" (iy mod 100) 2 fm;
    bare "ID" (f_iso_dow f);
    number "I" (iy mod 10) 1 fm;
    number "CC" (if y <? 1 then Z.quot (y - 99) 100 else Z.quot (y + 99) 100) 2 fm ].

(** [pgtypes/src/datetime.rs:1493-1548] match_pattern, the patterns of the era and
    the month *)
Definition month_patterns (f : FieldSource) (fm : bool) : list Pattern :=
  let y := wrap_signed 32 (f_year f) in
  let month := name_at MONTH_NAMES (f_month_name_index f) in
  let roman := name_at ROMAN_MONTHS (f_month_name_index f) in
  let full c s := pad_name (cased s c) 9 fm in
  let short c s := cased (str_take 3 s) c in
  [ text "A.D." (fun _ => era y false true);
    text "B.C." (fun _ => era y false true);
    text "a.d." (fun _ => era y true true);
    text "b.c." (fun _ => era y true true);
    text "AD" (fun _ => era y false false);
    text "BC" (fun _ => era y false false);
    text "ad" (fun _ => era y true false);
    text "bc" (fun _ => era y true false);
    number "MM" (f_month f) 2 fm;
    name "Month" month (full Title);
    name "MONTH" month (full Upper);
    name "month" month (full Lower);
    name "Mon" month (short Title);
    name "MON" month (short Upper);
    name "mon" month (short Lower);
    name "RM" roman (fun s => pad_roman s fm);
    name "rm" roman (fun s => pad_roman (to_ascii_lowercase s) fm) ].

(** [pgtypes/src/datetime.rs:1549-1595] match_pattern, the patterns of the day, the
    week and the quarter *)
Definition day_patterns (f : FieldSource) (fm : bool) : list Pattern :=
  let day := name_at DAY_NAMES (f_day_name_index f) in
  let full c s := pad_name (cased s c) 9 fm in
  let short c s := cased (str_take 3 s) c in
  [ number "DDD" (f_doy f) 3 fm;
    number "DD" (f_day f) 2 fm;
    name "Day" day (full Title);
    name "DAY" day (full Upper);
    name "day" day (full Lower);
    name "Dy" day (short Title);
    name "DY" day (short Upper);
    name "dy" day (short Lower);
    bare "D" (f_dow f);
    number "WW" (f_week_of_year f) 2 fm;
    bare "W" (f_week_of_month f);
    bare "Q" (Z.quot (f_month f - 1) 3 + 1) ].

(** [pgtypes/src/datetime.rs:1596-1632] match_pattern, the patterns of the time *)
Definition time_patterns (f : FieldSource) (fm : bool) : list Pattern :=
  let h12 := hour12 (f_hour f) in
  let past_midnight := f_hour f * 3600 + f_minute f * 60 + f_second f in
  [ number "HH24" (f_hour f) 2 fm;
    number "HH12" h12 2 fm;
    number "HH" h12 2 fm;
    number "MI" (f_minute f) 2 fm;
    bare "SSSSS" past_midnight;
    bare "SSSS" past_midnight;
    number "SS" (f_second f) 2 fm;
    number "MS" (Z.quot (f_micros f) 1000) 3 fm;
    number "US" (f_micros f) 6 fm ].

(** [pgtypes/src/datetime.rs:1642-1696] match_pattern, the patterns of the half of
    the day and the time zone *)
Definition zone_patterns (f : FieldSource) : list Pattern :=
  let h := f_hour f in
  let zone (k : Z -> string) (_ : unit) :=
    match f_tz_offset_secs f with Some secs => k secs | None => "" end in
  let mins secs := Z.abs secs mod 3600 / 60 in
  [ text "A.M." (fun _ => meridiem h false true);
    text "P.M." (fun _ => meridiem h false true);
    text "a.m." (fun _ => meridiem h true true);
    text "p.m." (fun _ => meridiem h true true);
    text "AM" (fun _ => meridiem h false false);
    text "PM" (fun _ => meridiem h false false);
    text "am" (fun _ => meridiem h true false);
    text "pm" (fun _ => meridiem h true false);
    text "TZH" (zone offset_hh);
    text "TZM" (zone (fun secs => pad_int 2 (mins secs)));
    text "OF" (zone (fun secs =>
      if mins secs =? 0 then offset_hh secs else offset_hh secs +:+ ":" +:+ pad_int 2 (mins secs)));
    text "TZ" (zone offset_hh);
    text "tz" (zone offset_hh) ].

(** The first keyword of a table that the template has here. *)
Fixpoint first_pattern (ps : list Pattern) (cs : list Z) : option Pattern :=
  match ps with
  | [] => None
  | p :: ps => if matches_at cs p.1 then Some p else first_pattern ps cs
  end.

(** [pgtypes/src/datetime.rs:1633-1641] match_pattern, FF1 to FF6 *)
Definition fraction_pattern (f : FieldSource) (cs : list Z) : option (nat * string) :=
  if matches_at cs "FF" then
    match drop 2 cs with
    | d :: _ =>
        if in_range 48 57 d && in_range 1 6 (d - 48) then
          Some (3%nat, str_take (Z.to_nat (d - 48)) (pad_int 6 (f_micros f)))
        else None
    | [] => None
    end
  else None.

(** [pgtypes/src/datetime.rs:1421-1698] match_pattern: the characters taken, the
    text, and the number *)
Definition match_pattern (cs : list Z) (f : FieldSource) (fm : bool)
  : result (fault TypeError) (option (nat * string * option Z)) :=
  let use p := r ← p.2 tt; Ok (Some (length (chars p.1), r.1, r.2)) in
  match first_pattern (year_patterns f fm ++ month_patterns f fm ++ day_patterns f fm ++
                       time_patterns f fm) cs with
  | Some p => use p
  | None =>
      match fraction_pattern f cs with
      | Some (n, s) => Ok (Some (n, s, None))
      | None =>
          match first_pattern (zone_patterns f) cs with
          | Some p => use p
          | None => Ok None
          end
      end
  end.

(** The inside of a quoted run: its characters and what follows the closing quote. *)
Fixpoint quoted_run (cs : list Z) : list Z * list Z :=
  match cs with
  | [] => ([], [])
  | c :: t =>
      if c =? 34 then ([], t)
      else if c =? 92 then
        match t with
        | d :: t => let '(a, b) := quoted_run t in (d :: a, b)
        | [] => ([c], [])
        end
      else let '(a, b) := quoted_run t in (c :: a, b)
  end.

(** [pgtypes/src/datetime.rs:1217-1283] render_tokens, from a position on: the rest
    of the template, the text so far, the fill mode and the last number *)
Fixpoint render_loop (fuel : nat) (src : FieldSource) (cs : list Z) (out : string)
  (fill_mode : bool) (last_number : option Z) : result (fault TypeError) string :=
  match cs, fuel with
  | [], _ | _, O => Ok out
  | c :: t, S fuel =>
      if c =? 34 then
        let '(lit, rest) := quoted_run t in
        render_loop fuel src rest (out +:+ of_chars lit) fill_mode None
      else if matches_at cs "FM" then render_loop fuel src (drop 2 cs) out true last_number
      else
        match last_number, matches_at cs "TH" || matches_at cs "th" with
        | Some n, true =>
            render_loop fuel src (drop 2 cs) (out +:+ ordinal_suffix n (c =? 84)) fill_mode None
        | _, _ =>
            m ← match_pattern cs src fill_mode;
            match m with
            | Some (kw, rendered, number) =>
                render_loop fuel src (drop kw cs) (out +:+ rendered) false number
            | None => render_loop fuel src t (out +:+ of_chars [c]) fill_mode None
            end
        end
  end.

(** [pgtypes/src/datetime.rs:1217-1283] render_tokens; every turn takes a character
    of the template *)
Definition render_tokens (template : string) (src : FieldSource) : result (fault TypeError) string :=
  let cs := chars template in render_loop (length cs) src cs "" false None.

(** [pgtypes/src/datetime.rs:1200-1202] format_datetime *)
Definition format_datetime (template : string) (fields : DateTimeFields)
  : result (fault TypeError) string :=
  render_tokens template (datetime_source fields).

(** [pgtypes/src/datetime.rs:1209-1211] format_interval *)
Definition format_interval (iv : Interval) (template : string) : result (fault TypeError) string :=
  render_tokens template (interval_source iv).

(** ** Parsing *)

(** [pgtypes/src/datetime.rs:1707-1716] ParsedDateTime *)
Record ParsedDateTime : Type := mkParsed {
  p_year : Z; p_month : Z; p_day : Z;
  p_hour : Z; p_minute : Z; p_second : Z; p_micros : Z;
  p_tz_offset_secs : option Z
}.

(** [pgtypes/src/datetime.rs:1721-1732] default *)
Definition parsed_default : ParsedDateTime := mkParsed 1 1 1 0 0 0 0 None.

(** Assignments to a field. *)
Definition set_year (p : ParsedDateTime) (v : Z) : ParsedDateTime :=
  mkParsed v (p_month p) (p_day p) (p_hour p) (p_minute p) (p_second p) (p_micros p) (p_tz_offset_secs p).
Definition set_month (p : ParsedDateTime) (v : Z) : ParsedDateTime :=
  mkParsed (p_year p) v (p_day p) (p_hour p) (p_minute p) (p_second p) (p_micros p) (p_tz_offset_secs p).
Definition set_day (p : ParsedDateTime) (v : Z) : ParsedDateTime :=
  mkParsed (p_year p) (p_month p) v (p_hour p) (p_minute p) (p_second p) (p_micros p) (p_tz_offset_secs p).
Definition set_hour (p : ParsedDateTime) (v : Z) : ParsedDateTime :=
  mkParsed (p_year p) (p_month p) (p_day p) v (p_minute p) (p_second p) (p_micros p) (p_tz_offset_secs p).
Definition set_minute (p : ParsedDateTime) (v : Z) : ParsedDateTime :=
  mkParsed (p_year p) (p_month p) (p_day p) (p_hour p) v (p_second p) (p_micros p) (p_tz_offset_secs p).
Definition set_second (p : ParsedDateTime) (v : Z) : ParsedDateTime :=
  mkParsed (p_year p) (p_month p) (p_day p) (p_hour p) (p_minute p) v (p_micros p) (p_tz_offset_secs p).
Definition set_micros (p : ParsedDateTime) (v : Z) : ParsedDateTime :=
  mkParsed (p_year p) (p_month p) (p_day p) (p_hour p) (p_minute p) (p_second p) v (p_tz_offset_secs p).

(** [pgtypes/src/datetime.rs:1739-1742] Meridiem *)
Inductive Meridiem : Type := Am | Pm.

(** [pgtypes/src/datetime.rs:1870-1884] ParseField *)
Inductive ParseField : Type :=
| PNum (max : nat) (set : ParsedDateTime -> Z -> ParsedDateTime)
| PMonthAbbrev
| PMonthFull
| PDayNameSkip (len : nat)
| PMeridiem.

(** [pgtypes/src/datetime.rs:1890-1969] match_parse_pattern, its table, in the order
    the keywords are tried; a pattern takes the characters of its keyword *)
Definition parse_patterns : list (string * ParseField) :=
  [ ("YYYY", PNum 4 set_year);
    ("YYY", PNum 3 set_year);
    ("YY", PNum 2 set_year);
    ("Y", PNum 1 set_year);
    ("MM", PNum 2 set_month);
    ("Month", PMonthFull); ("MONTH", PMonthFull); ("month", PMonthFull);
    ("Mon", PMonthAbbrev); ("MON", PMonthAbbrev); ("mon", PMonthAbbrev);
    ("DD", PNum 2 set_day);
    ("Day", PDayNameSkip 9); ("DAY", PDayNameSkip 9); ("day", PDayNameSkip 9);
    ("Dy", PDayNameSkip 3); ("DY", PDayNameSkip 3); ("dy", PDayNameSkip 3);
    ("HH24", PNum 2 set_hour);
    ("HH12", PNum 2 set_hour);
    ("HH", PNum 2 set_hour);
    ("MI", PNum 2 set_minute);
    ("SS", PNum 2 set_second);
    ("US", PNum 6 set_micros);
    ("MS", PNum 3 (fun p v => set_micros p (v * 1000)));
    ("A.M.", PMeridiem); ("P.M.", PMeridiem); ("a.m.", PMeridiem); ("p.m.", PMeridiem);
    ("AM", PMeridiem); ("PM", PMeridiem); ("am", PMeridiem); ("pm", PMeridiem) ].

Fixpoint find_pattern (ps : list (string * ParseField)) (cs : list Z) : option (nat * ParseField) :=
  match ps with
  | [] => None
  | p :: ps => if matches_at cs p.1 then Some (length (chars p.1), p.2) else find_pattern ps cs
  end.

Definition match_parse_pattern (tchars : list Z) : option (nat * ParseField) :=
  find_pattern parse_patterns tchars.

(** The digits of a number at most [max] long, its value, and what is left. *)
Fixpoint digit_run (max : nat) (v : Z) (cs : list Z) : Z * list Z :=
  match max, cs with
  | S max, c :: t => if in_range 48 57 c then digit_run max (v * 10 + (c - 48)) t else (v, cs)
  | _, _ => (v, cs)
  end.

(** [pgtypes/src/datetime.rs:1974-1984] consume_number *)
Definition consume_number (cs : list Z) (max : nat) : option (Z * list Z) :=
  let '(v, rest) := digit_run max 0 cs in
  if Nat.eqb (length rest) (length cs) then None else Some (v, rest).

(** [pgtypes/src/datetime.rs:2049-2057] input_starts_with_ci *)
Definition input_starts_with_ci (cs needle : list Z) : bool :=
  starts_with (map char_lower needle) (map char_lower cs).

(** The first name of a table the input starts with: its place, and what is left. *)
Fixpoint find_name (i : Z) (names : list (list Z)) (cs : list Z) : option (Z * list Z) :=
  match names with
  | [] => None
  | n :: names =>
      if input_starts_with_ci cs n then Some (i, drop (length n) cs) else find_name (i + 1) names cs
  end.

(** [pgtypes/src/datetime.rs:1990-2003] consume_month_name *)
Definition consume_month_name (cs : list Z) (abbrev : bool) : option (Z * list Z) :=
  let needle n := if abbrev then take 3 (chars n) else chars n in
  find_name 1 (map needle MONTH_NAMES) cs.

(** [pgtypes/src/datetime.rs:2031-2046] consume_meridiem *)
Definition consume_meridiem (cs : list Z) : option (Meridiem * list Z) :=
  match find_name 0 (map chars ["a.m."; "p.m."; "am"; "pm"]) cs with
  | Some (i, rest) => Some (if Z.even i then Am else Pm, rest)
  | None => None
  end.

Section Parse.
Context `{Unicode}.

Fixpoint skip_alphabetic (len : nat) (cs : list Z) : list Z :=
  match len, cs with
  | S len, c :: t => if char_is_alphabetic c then skip_alphabetic len t else cs
  | _, _ => cs
  end.

(** [pgtypes/src/datetime.rs:2008-2027] consume_day_name *)
Definition consume_day_name (cs : list Z) (len : nat) : list Z :=
  match find_name 0 (flat_map (fun n => [chars n; take 3 (chars n)]) DAY_NAMES) cs with
  | Some (_, rest) => rest
  | None => skip_alphabetic len cs
  end.

(** [pgtypes/src/datetime.rs:2062-2066] skip_separators *)
Definition skip_separators (cs : list Z) : list Z :=
  drop_while (fun c => negb (char_is_alphanumeric c)) cs.

(** [pgtypes/src/datetime.rs:2074-2082] match_literal *)
Definition match_literal (lit : Z) (cs : list Z) : list Z :=
  if char_is_alphanumeric lit then
    match cs with
    | c :: t => if char_lower c =? char_lower lit then t else cs
    | [] => cs
    end
  else skip_separators cs.

(** The state of the parse: the template, the input, the fields, the half of the day. *)
Definition ParseState : Type := list Z * ParsedDateTime * option Meridiem.

Definition bad_shape (input : string) : TypeError := InvalidDatetimeFormat "timestamp" input.

(** One pattern of the template against the input. *)
Definition parse_field (input : string) (f : ParseField) (st : ParseState) : result TypeError ParseState :=
  let '(cs, out, mer) := st in
  match f with
  | PNum max set =>
      r ← ok_or (consume_number cs max) (bad_shape input); Ok (r.2, set out r.1, mer)
  | PMonthAbbrev =>
      r ← ok_or (consume_month_name cs true) (bad_shape input); Ok (r.2, set_month out r.1, mer)
  | PMonthFull =>
      r ← ok_or (consume_month_name cs false) (bad_shape input); Ok (r.2, set_month out r.1, mer)
  | PDayNameSkip len => Ok (consume_day_name cs len, out, mer)
  | PMeridiem => r ← ok_or (consume_meridiem cs) (bad_shape input); Ok (r.2, out, Some r.1)
  end.

(** [pgtypes/src/datetime.rs:1774-1833] parse_by_template, the walk over the template *)
Fixpoint parse_loop (fuel : nat) (input : string) (tcs : list Z) (st : ParseState)
  : result TypeError ParseState :=
  match tcs, fuel with
  | [], _ | _, O => Ok st
  | c :: t, S fuel =>
      if c =? 34 then
        let '(lit, rest) := quoted_run t in
        let '(cs, out, mer) := st in
        parse_loop fuel input rest (foldl (fun cs l => match_literal l cs) cs lit, out, mer)
      else if matches_at tcs "FM" then parse_loop fuel input (drop 2 tcs) st
      else
        match match_parse_pattern tcs with
        | Some (consumed, f) =>
            st ← parse_field input f st;
            parse_loop fuel input (drop consumed tcs) st
        | None =>
            let '(cs, out, mer) := st in
            parse_loop fuel input t (match_literal c cs, out, mer)
        end
  end.

Definition out_of_range (what : string) (v : Z) : TypeError :=
  DatetimeFieldOverflow (what +:+ "=" +:+ z_to_string v).

(** [pgtypes/src/datetime.rs:1835-1846] parse_by_template, the half of the day *)
Definition fold_meridiem (m : option Meridiem) (out : ParsedDateTime) : ParsedDateTime :=
  match m with
  | None => out
  | Some m =>
      let h := p_hour out mod 12 in
      set_hour out match m with Am => h | Pm => h + 12 end
  end.

(** [pgtypes/src/datetime.rs:1848-1866] parse_by_template, the ranges of the fields *)
Definition validate_parsed (out : ParsedDateTime) : result TypeError ParsedDateTime :=
  if negb (in_range 1 12 (p_month out)) then Err (out_of_range "month" (p_month out))
  else if negb (in_range 1 31 (p_day out)) then Err (out_of_range "day" (p_day out))
  else if 23 <? p_hour out then Err (out_of_range "hour" (p_hour out))
  else if 59 <? p_minute out then Err (out_of_range "minute" (p_minute out))
  else if 59 <? p_second out then Err (out_of_range "second" (p_second out))
  else Ok out.

(** [pgtypes/src/datetime.rs:1755-1867] parse_by_template *)
Definition parse_by_template (template input : string) : result TypeError ParsedDateTime :=
  let tcs := chars template in
  st ← parse_loop (length tcs) input tcs (chars input, parsed_default, None);
  let '(_, out, mer) := st in
  validate_parsed (fold_meridiem mer out).

End Parse.

(** ** Constructors *)

(** [pgtypes/src/datetime.rs:2098-2102] field_overflow *)
Definition field_overflow (value : string) : TypeError := DatetimeFieldOverflow value.

(** [pgtypes/src/datetime.rs:2108-2122] split_seconds *)
Definition split_seconds (sec : Z) : option (Z * Z) :=
  if negb (f64_is_finite sec) then None
  else
    let whole := f64_trunc sec in
    if negb (f64_leb (f64_of_Z (-128)) whole && f64_leb whole (f64_of_Z 127)) then None
    else
      let micros :=
        f64_as_i32 (f64_round_half_up (f64_mul (f64_fract sec) (f64_of_Z 1000000))) in
      Some (f64_as_int (-128) 127 whole, micros * 1000).

(** [i16::try_from] and [i8::try_from] *)
Definition try_i16 (n : Z) : option Z := if in_range (-32768) 32767 n then Some n else None.
Definition try_i8 (n : Z) : option Z := if in_range (-128) 127 n then Some n else None.

Section Make.
Context `{ExtCal}.

(** [pgtypes/src/datetime.rs:2126-2132] make_date *)
Definition make_date (year month day : Z) : result TypeError Date :=
  let label :=
    z_to_string year +:+ "-" +:+ z_to_string month +:+ "-" +:+ z_to_string day in
  y ← ok_or (try_i16 year) (field_overflow label);
  mo ← ok_or (try_i8 month) (field_overflow label);
  d ← ok_or (try_i8 day) (field_overflow label);
  ok_or (date_new y mo d) (field_overflow label).

(** [pgtypes/src/datetime.rs:2136-2142] make_time *)
Definition make_time (hour min sec : Z) : result TypeError Time :=
  let label := z_to_string hour +:+ ":" +:+ z_to_string min +:+ ":" +:+ f64_display sec in
  h ← ok_or (try_i8 hour) (field_overflow label);
  mi ← ok_or (try_i8 min) (field_overflow label);
  sn ← ok_or (split_seconds sec) (field_overflow label);
  ok_or (time_new h mi sn.1 sn.2) (field_overflow label).

(** [pgtypes/src/datetime.rs:2147-2158] make_timestamp_civil *)
Definition make_timestamp_civil (y mo d h mi sec : Z) : result TypeError DateTime :=
  date ← make_date y mo d;
  time ← make_time h mi sec;
  Ok (date_to_datetime date time).

End Make.

(** [round(secs * 1e6)] as an i64, or [None] when it does not fit *)
Definition seconds_to_micros (secs : Z) : option Z :=
  if negb (f64_is_finite secs) then None
  else
    let f := f64_round_half_up (f64_mul secs (f64_of_Z 1000000)) in
    if f64_leb (f64_of_Z 9223372036854775808) (f64_abs f) then None else Some (f64_as_i64 f).

(** [pgtypes/src/datetime.rs:2164-2203] make_interval *)
Definition make_interval (years months weeks days hours mins secs : Z) : result TypeError Interval :=
  let label := field_overflow "make_interval" in
  months ← ok_or (m ← checked_i32 (years * 12); checked_i32 (m + months)) label;
  days ← ok_or (d ← checked_i32 (weeks * 7); checked_i32 (d + days)) label;
  sec_micros ← ok_or (seconds_to_micros secs) label;
  micros ← ok_or (s ← checked_i64 ((hours * 60 + mins) * 60);
                  us ← checked_i64 (s * 1000000);
                  checked_i64 (us + sec_micros)) label;
  Ok (mkInterval months days micros).

(** ** Justification *)

Definition narrow_i32 (label : string) (n : Z) : result TypeError Z :=
  ok_or (checked_i32 n) (field_overflow label).

(** [pgtypes/src/datetime.rs:2210-2218] justify_days *)
Definition justify_days (iv : Interval) : result TypeError Interval :=
  m ← narrow_i32 "justify_days" (months iv + Z.quot (days iv) 30);
  Ok (mkInterval m (Z.rem (days iv) 30) (micros iv)).

(** [pgtypes/src/datetime.rs:2225-2233] justify_hours *)
Definition justify_hours (iv : Interval) : result TypeError Interval :=
  d ← narrow_i32 "justify_hours" (days iv + Z.quot (micros iv) USECS_PER_DAY);
  Ok (mkInterval (months iv) d (Z.rem (micros iv) USECS_PER_DAY)).

(** [pgtypes/src/datetime.rs:2239-2280] justify_interval *)
Definition justify_interval (iv : Interval) : result TypeError Interval :=
  let d := days iv + Z.quot (micros iv) USECS_PER_DAY in
  let us := Z.rem (micros iv) USECS_PER_DAY in
  let m := months iv + Z.quot d 30 in
  let d := Z.rem d 30 in
  let '(m, d) :=
    if (0 <? m) && ((d <? 0) || ((d =? 0) && (us <? 0))) then (m - 1, d + 30)
    else if (m <? 0) && ((0 <? d) || ((d =? 0) && (0 <? us))) then (m + 1, d - 30)
    else (m, d) in
  let '(d, us) :=
    if (0 <? d) && (us <? 0) then (d - 1, us + USECS_PER_DAY)
    else if (d <? 0) && (0 <? us) then (d + 1, us - USECS_PER_DAY)
    else (d, us) in
  m ← narrow_i32 "justify_interval" m;
  d ← narrow_i32 "justify_interval" d;
  Ok (mkInterval m d us).

