(* ===== verification/DateTimeFn.v ===== *)
(** * Date and time functions (executor/src/datetime_fn.rs)

    The clock family, extract and date_part, date_trunc, age and timezone: their
    static result types, given the inference of their arguments, and their
    values, given the evaluation of their arguments. *)
From Stdlib Require Import ZArith Lia Ascii.
From stdpp Require Import base list gmap strings.
From S2P Require Import Prelude Text Chars Keys Store Datum Float DateTimeBin ExtArith DateTime.
From S2P Require Import Calendar DateTimeFmt Numeric NumericFn Ops Errors Ast EvalOps Func.
Open Scope Z_scope.

(** [executor/src/datetime_fn.rs:29-53] DtFunc *)
Inductive DtFunc : Type :=
| DtTransactionTimestamp | DtStatementTimestamp | DtClockTimestamp
| DtCurrentDate | DtCurrentTime | DtLocalTimestamp
| DtExtract | DtDatePart | DtDateTrunc | DtAge | DtTimezone.

(** [executor/src/datetime_fn.rs:58-73] datetime_func *)
Definition datetime_func (name : string) : option DtFunc :=
  if one_of name ["now"; "current_timestamp"; "transaction_timestamp"] then Some DtTransactionTimestamp
  else if one_of name ["statement_timestamp"] then Some DtStatementTimestamp
  else if one_of name ["clock_timestamp"] then Some DtClockTimestamp
  else if one_of name ["current_date"] then Some DtCurrentDate
  else if one_of name ["current_time"; "localtime"] then Some DtCurrentTime
  else if one_of name ["localtimestamp"] then Some DtLocalTimestamp
  else if one_of name ["extract"] then Some DtExtract
  else if one_of name ["date_part"] then Some DtDatePart
  else if one_of name ["date_trunc"] then Some DtDateTrunc
  else if one_of name ["age"] then Some DtAge
  else if one_of name ["timezone"] then Some DtTimezone
  else None.

(** [executor/src/datetime_fn.rs:76-78] is_datetime_func *)
Definition is_datetime_func (name : string) : bool := bool_decide (datetime_func name <> None).

(** [executor/src/datetime_fn.rs:95-97] invalid_param *)
Definition invalid_param (msg : string) : ExecError := EInvalidParameterValue msg.

(** [executor/src/datetime_fn.rs:491-493] unknown_field *)
Definition unknown_field (field : string) : ExecError :=
  invalid_param ("unit " +:+ quoted field +:+ " not recognized").

(** ** The texts of fields *)

(** [executor/src/datetime_fn.rs:496-503] century_of *)
Definition century_of (y : Z) : Z :=
  if 0 <? y then Z.quot (y + 99) 100 else Z.quot (y - 99) 100.

(** [executor/src/datetime_fn.rs:506-512] millennium_of *)
Definition millennium_of (y : Z) : Z :=
  if 0 <? y then Z.quot (y + 999) 1000 else Z.quot (y - 999) 1000.

(** [executor/src/datetime_fn.rs:514-516] int_str *)
Definition int_str (n : Z) : string := z_to_string n.

(** [executor/src/datetime_fn.rs:520-530] seconds_str *)
Definition seconds_str (secs subsec_nanos : Z) : string :=
  let micros := Z.abs (Z.quot subsec_nanos 1000) in
  if micros =? 0 then z_to_string secs
  else z_to_string secs +:+ "." +:+ trim_zeros (pad_int 6 micros).

(** [(divisor as f64).log10().round()], on the powers of ten it is called with *)
Definition log10_round (divisor : Z) : nat := String.length (dec_string divisor) - 1.

(** [executor/src/datetime_fn.rs:547-562] decimal_micros_scaled *)
Definition decimal_micros_scaled (total_micros divisor : Z) : string :=
  if Z.rem total_micros divisor =? 0 then z_to_string (Z.quot total_micros divisor)
  else
    let abs := Z.abs total_micros in
    let frac := pad_int (log10_round divisor) (abs mod divisor) in
    (if total_micros <? 0 then "-" else "") +:+ z_to_string (abs / divisor) +:+ "." +:+ trim_zeros frac.

Definition total_micros_of (secs subsec_nanos : Z) : Z := secs * 1000000 + Z.quot subsec_nanos 1000.

(** [executor/src/datetime_fn.rs:534-537] millis_str *)
Definition millis_str (secs subsec_nanos : Z) : string :=
  decimal_micros_scaled (total_micros_of secs subsec_nanos) 1000.

(** [executor/src/datetime_fn.rs:540-543] micros_str *)
Definition micros_str (secs subsec_nanos : Z) : string := z_to_string (total_micros_of secs subsec_nanos).

(** [executor/src/datetime_fn.rs:566-568] epoch_string_micros *)
Definition epoch_string_micros (total_micros : Z) : string := decimal_micros_scaled total_micros 1000000.

(** [executor/src/datetime_fn.rs:465-489] extract_from_interval *)
Definition extract_from_interval (field : string) (iv : Interval) : xresult string :=
  let m := months iv in
  let secs_whole := Z.quot (micros iv) 1000000 in
  let subsec := Z.rem (micros iv) 1000000 in
  if one_of field ["millennium"] then Ok (int_str (Z.quot m 12000))
  else if one_of field ["century"] then Ok (int_str (Z.quot m 1200))
  else if one_of field ["decade"] then Ok (int_str (Z.quot m 120))
  else if one_of field ["year"] then Ok (int_str (Z.quot m 12))
  else if one_of field ["quarter"] then Ok (int_str (Z.quot (Z.rem m 12) 3 + 1))
  else if one_of field ["month"] then Ok (int_str (Z.rem m 12))
  else if one_of field ["day"] then Ok (int_str (days iv))
  else if one_of field ["hour"] then Ok (int_str (Z.quot secs_whole 3600))
  else if one_of field ["minute"] then Ok (int_str (Z.quot (Z.rem secs_whole 3600) 60))
  else if one_of field ["second"] then Ok (seconds_str (Z.rem secs_whole 60) (subsec * 1000))
  else if one_of field ["milliseconds"] then Ok (millis_str (Z.rem secs_whole 60) (subsec * 1000))
  else if one_of field ["microseconds"] then Ok (micros_str (Z.rem secs_whole 60) (subsec * 1000))
  else if one_of field ["epoch"] then
    let w := wrap_signed 64 in
    Ok (epoch_string_micros (w (w ((m * 30 + days iv) * 86400000000) + micros iv)))
  else raise (unknown_field field).

Section DateTimeFn.
Context `{ExtCal}.

Definition clock_micros (t : Time) : Z :=
  time_hour t * 3600000000 + time_minute t * 60000000 + time_second t * 1000000 +
  Z.quot (time_subsec_nanosecond t) 1000.

(** [executor/src/datetime_fn.rs:445-461] extract_from_time *)
Definition extract_from_time (field : string) (t : Time) : xresult string :=
  let s := time_second t in
  let n := time_subsec_nanosecond t in
  if one_of field ["hour"] then Ok (int_str (time_hour t))
  else if one_of field ["minute"] then Ok (int_str (time_minute t))
  else if one_of field ["second"] then Ok (seconds_str s n)
  else if one_of field ["milliseconds"] then Ok (millis_str s n)
  else if one_of field ["microseconds"] then Ok (micros_str s n)
  else if one_of field ["epoch"] then Ok (epoch_string_micros (clock_micros t))
  else raise (unknown_field field).

(** [executor/src/datetime_fn.rs:357-359] unix_epoch_civil *)
Definition unix_epoch_civil : xresult DateTime := panic_or (datetime_new 1970 1 1 0 0 0 0).

(** [executor/src/datetime_fn.rs:389-442] extract_from_datetime; a span holds the
    difference of any two civil datetimes, so [since] does not fail *)
Definition extract_from_datetime (field : string) (dt : DateTime) (tz_offset_secs : option Z)
  : xresult string :=
  let date := datetime_date dt in
  let time := datetime_time dt in
  let year := date_year date in
  let s := time_second time in
  let n := time_subsec_nanosecond time in
  let zone (k : Z -> Z) :=
    match tz_offset_secs with
    | Some secs => Ok (int_str (k secs))
    | None => raise (unknown_field field)
    end in
  if one_of field ["century"] then Ok (int_str (century_of year))
  else if one_of field ["decade"] then Ok (int_str (year / 10))
  else if one_of field ["millennium"] then Ok (int_str (millennium_of year))
  else if one_of field ["year"] then Ok (int_str year)
  else if one_of field ["isoyear"] then Ok (int_str (date_iso_year date))
  else if one_of field ["quarter"] then Ok (int_str (Z.quot (date_month date - 1) 3 + 1))
  else if one_of field ["month"] then Ok (int_str (date_month date))
  else if one_of field ["day"] then Ok (int_str (date_day date))
  else if one_of field ["hour"] then Ok (int_str (time_hour time))
  else if one_of field ["minute"] then Ok (int_str (time_minute time))
  else if one_of field ["second"] then Ok (seconds_str s n)
  else if one_of field ["milliseconds"] then Ok (millis_str s n)
  else if one_of field ["microseconds"] then Ok (micros_str s n)
  else if one_of field ["dow"] then Ok (int_str (date_sunday_zero date))
  else if one_of field ["isodow"] then Ok (int_str (date_monday_one date))
  else if one_of field ["doy"] then Ok (int_str (date_day_of_year date))
  else if one_of field ["week"] then Ok (int_str (date_iso_week date))
  else if one_of field ["epoch"] then
    e ← unix_epoch_civil; Ok (epoch_string_micros (datetime_since_us dt e))
  else if one_of field ["timezone"] then zone id
  else if one_of field ["timezone_hour"] then zone (fun secs => Z.quot secs 3600)
  else if one_of field ["timezone_minute"] then zone (fun secs => Z.quot (Z.rem secs 3600) 60)
  else raise (unknown_field field).

(** [executor/src/datetime_fn.rs:364-384] extract_field *)
Definition extract_field (field : string) (source : Datum) (tz : TimeZone) : xresult string :=
  match source with
  | DDate d => extract_from_datetime field (date_to_midnight d) None
  | DTimestamp dt => extract_from_datetime field dt None
  | DTimestamptz ts =>
      if one_of field ["epoch"] then Ok (epoch_string_micros (ts_as_microsecond ts))
      else extract_from_datetime field (tz_to_datetime tz ts) (Some (tz_to_offset tz ts))
  | DInterval iv => extract_from_interval field iv
  | DTime t => extract_from_time field t
  | other => raise (type_error "extract" other)
  end.

(** ** Truncation *)

Definition or_invalid {A} (msg : string) (o : option A) : xresult A :=
  ok_or o (Raised (invalid_param msg)).

(** [executor/src/datetime_fn.rs:603-647] trunc_datetime *)
Definition trunc_datetime (unit : string) (dt : DateTime) : xresult DateTime :=
  let d := datetime_date dt in
  let '(y, m, day) := (date_year d, date_month d, date_day d) in
  let t := datetime_time dt in
  let mkn y m d h mi s n := or_invalid "date_trunc out of range" (datetime_new y m d h mi s n) in
  let mk y m d h mi s := mkn y m d h mi s 0 in
  if one_of unit ["microseconds"] then Ok dt
  else if one_of unit ["milliseconds"] then
    mkn y m day (time_hour t) (time_minute t) (time_second t)
      (Z.quot (time_subsec_nanosecond t) 1000000 * 1000000)
  else if one_of unit ["second"] then mk y m day (time_hour t) (time_minute t) (time_second t)
  else if one_of unit ["minute"] then mk y m day (time_hour t) (time_minute t) 0
  else if one_of unit ["hour"] then mk y m day (time_hour t) 0 0
  else if one_of unit ["day"] then mk y m day 0 0 0
  else if one_of unit ["week"] then
    let back := date_monday_one d - 1 in
    match date_plus_days d (- back) with
    | Ok monday => Ok (date_to_midnight monday)
    | Err (Raised _) => raise (invalid_param "date_trunc week out of range")
    | Err Panicked => Err Panicked
    end
  else if one_of unit ["month"] then mk y m 1 0 0 0
  else if one_of unit ["quarter"] then mk y (Z.quot (m - 1) 3 * 3 + 1) 1 0 0 0
  else if one_of unit ["year"] then mk y 1 1 0 0 0
  else if one_of unit ["decade"] then mk (Z.quot y 10 * 10) 1 1 0 0 0
  else if one_of unit ["century"] then
    mk (wrap_signed 16 ((century_of y - 1) * 100 + 1)) 1 1 0 0 0
  else if one_of unit ["millennium"] then
    mk (wrap_signed 16 ((millennium_of y - 1) * 1000 + 1)) 1 1 0 0 0
  else raise (unknown_field unit).

(** [executor/src/datetime_fn.rs:650-714] trunc_interval *)
Definition trunc_interval (unit : string) (iv : Interval) : xresult Interval :=
  let m := months iv in
  let d := days iv in
  let us := micros iv in
  let secs := Z.quot us 1000000 in
  let whole n := mkInterval (Z.quot m n * n) 0 0 in
  if one_of unit ["microseconds"] then Ok iv
  else if one_of unit ["milliseconds"] then Ok (mkInterval m d (Z.quot us 1000 * 1000))
  else if one_of unit ["second"] then Ok (mkInterval m d (secs * 1000000))
  else if one_of unit ["minute"] then Ok (mkInterval m d (Z.quot secs 60 * 60000000))
  else if one_of unit ["hour"] then Ok (mkInterval m d (Z.quot secs 3600 * 3600000000))
  else if one_of unit ["day"] then Ok (mkInterval m d 0)
  else if one_of unit ["month"] then Ok (mkInterval m 0 0)
  else if one_of unit ["quarter"] then Ok (whole 3)
  else if one_of unit ["year"] then Ok (whole 12)
  else if one_of unit ["decade"] then Ok (whole 120)
  else if one_of unit ["century"] then Ok (whole 1200)
  else if one_of unit ["millennium"] then Ok (whole 12000)
  else raise (unknown_field unit).

(** [executor/src/datetime_fn.rs:575-600] date_trunc *)
Definition date_trunc (unit : string) (source : Datum) (zone : option TimeZone) (session_tz : TimeZone)
  : xresult Datum :=
  match source with
  | DTimestamp dt => DTimestamp <$> trunc_datetime unit dt
  | DDate d => DTimestamp <$> trunc_datetime unit (date_to_midnight d)
  | DTimestamptz ts =>
      let tz := default session_tz zone in
      truncated ← trunc_datetime unit (tz_to_datetime tz ts);
      ts ← or_invalid "timestamp out of range for date_trunc" (datetime_to_zoned_ts truncated tz);
      Ok (DTimestamptz ts)
  | DInterval iv => DInterval <$> trunc_interval unit iv
  | other => raise (type_error "date_trunc" other)
  end.

(** ** Age *)

(** [executor/src/datetime_fn.rs:755-760] time_micros *)
Definition age_time_micros (t : Time) : Z := clock_micros t.

(** [executor/src/datetime_fn.rs:763-769] prev_month *)
Definition prev_month (year month : Z) : Z * Z :=
  if month =? 1 then (year - 1, 12) else (year, month - 1).

(** [executor/src/datetime_fn.rs:772-776] days_in_month *)
Definition days_in_month (year month : Z) : xresult Z :=
  d ← panic_or (date_new year month 1); Ok (date_days_in_month d).

(** [executor/src/datetime_fn.rs:721-753] age *)
Definition age (end_ start : DateTime) : xresult Interval :=
  let ed := datetime_date end_ in
  let sd := datetime_date start in
  let years := date_year ed - date_year sd in
  let months := date_month ed - date_month sd in
  let days := date_day ed - date_day sd in
  let micros := age_time_micros (datetime_time end_) - age_time_micros (datetime_time start) in
  let '(micros, days) :=
    if micros <? 0 then (micros + 86400000000, days - 1) else (micros, days) in
  dm ← (if days <? 0 then
          let '(by_, bm) := prev_month (date_year ed) (date_month ed) in
          n ← days_in_month by_ bm;
          Ok (days + n, months - 1)
        else Ok (days, months));
  let '(days, months) := dm in
  let '(months, years) := if months <? 0 then (months + 12, years - 1) else (months, years) in
  Ok (mkInterval (wrap_signed 32 (years * 12 + months)) (wrap_signed 32 days) micros).

(** [executor/src/datetime_fn.rs:783-792] timezone_convert *)
Definition timezone_convert (tz : TimeZone) (value : Datum) : xresult Datum :=
  match value with
  | DTimestamp dt =>
      ts ← or_invalid "timestamp out of range for time zone conversion" (datetime_to_zoned_ts dt tz);
      Ok (DTimestamptz ts)
  | DTimestamptz ts => Ok (DTimestamp (tz_to_datetime tz ts))
  | other => raise (type_error "timezone" other)
  end.

(** ** Arguments *)

(** [executor/src/datetime_fn.rs:321-328] literal_field *)
Definition literal_field (e : Expr) : xresult string :=
  match e with
  | StringLiteral s => Ok (to_ascii_lowercase s)
  | _ => raise (EUndefinedFunction "extract requires a field name")
  end.

(** A zone by its name: UTC in any case, or one of the database. *)
Definition zone_by_name (name : string) : xresult TimeZone :=
  if bool_decide (to_ascii_lowercase name = "utc") then Ok tz_utc
  else or_invalid ("time zone " +:+ quoted name +:+ " not recognized") (tz_get name).

(** [executor/src/datetime_fn.rs:332-341] zone_arg *)
Definition zone_arg (d : Datum) : xresult TimeZone :=
  match d with
  | DText s => zone_by_name s
  | other => raise (type_error "timezone" other)
  end.

(** [executor/src/datetime_fn.rs:345-352] as_datetime *)
Definition as_datetime (d : Datum) (tz : TimeZone) : xresult DateTime :=
  match d with
  | DTimestamp dt => Ok dt
  | DDate dd => Ok (date_to_midnight dd)
  | DTimestamptz ts => Ok (tz_to_datetime tz ts)
  | other => raise (type_error "age" other)
  end.

(** ** Result types *)

(** [executor/src/datetime_fn.rs:108-166] datetime_func_result_type *)
Definition datetime_func_result_type (infer_type : Expr -> xresult ColumnType) (fc : FuncCall)
  : xresult ColumnType :=
  f ← ok_or (datetime_func (fc_name fc)) (Raised (undefined_function (fc_name fc)));
  args ← lift (exprs_of fc);
  let n := length args in
  match f with
  | DtTransactionTimestamp | DtStatementTimestamp | DtClockTimestamp =>
      _ ← require_arity fc (Nat.eqb n 0); Ok TTimestamptz
  | DtCurrentDate => _ ← require_arity fc (Nat.eqb n 0); Ok TDate
  | DtCurrentTime => _ ← require_arity fc (Nat.eqb n 0); Ok TTime
  | DtLocalTimestamp => _ ← require_arity fc (Nat.eqb n 0); Ok TTimestamp
  | DtExtract => _ ← require_arity fc (Nat.eqb n 2); Ok (TNumeric None)
  | DtDatePart => _ ← require_arity fc (Nat.eqb n 2); Ok TFloat8
  | DtDateTrunc =>
      _ ← require_arity fc (Nat.eqb n 2 || Nat.eqb n 3);
      a ← arg_at args 1; t ← infer_type a;
      Ok (match t with TDate => TTimestamp | other => other end)
  | DtAge => _ ← require_arity fc (Nat.eqb n 1 || Nat.eqb n 2); Ok TInterval
  | DtTimezone =>
      _ ← require_arity fc (Nat.eqb n 2);
      a ← arg_at args 1; t ← infer_type a;
      Ok (match t with TTimestamp => TTimestamptz | TTimestamptz => TTimestamp | other => other end)
  end.

(** ** Values *)

Definition invalid_text (type_name value : string) : fault ExecError :=
  Raised (EType (InvalidText type_name value)).

Definition field_text (what : string) (d : Datum) : xresult string :=
  match d with
  | DText s => Ok (to_ascii_lowercase s)
  | other => raise (type_error what other)
  end.

Section Eval.
Context (ctx : EvalCtx) (eval_child : Expr -> xresult Datum).

(** [executor/src/datetime_fn.rs:205-223] eval_datetime, extract *)
Definition eval_extract (fc : FuncCall) (args : list Expr) : xresult Datum :=
  _ ← require_arity fc (Nat.eqb (length args) 2);
  a0 ← arg_at args 0; field ← literal_field a0;
  a1 ← arg_at args 1; source ← eval_child a1;
  if is_null source then Ok DNull
  else
    v ← extract_field field source (cx_time_zone ctx);
    d ← ok_or (parse v) (invalid_text "numeric" v);
    Ok (DNumeric d).

(** [executor/src/datetime_fn.rs:224-244] eval_datetime, date_part *)
Definition eval_date_part (fc : FuncCall) (args : list Expr) : xresult Datum :=
  _ ← require_arity fc (Nat.eqb (length args) 2);
  a0 ← arg_at args 0; field_d ← eval_child a0;
  a1 ← arg_at args 1; source ← eval_child a1;
  if is_null field_d || is_null source then Ok DNull
  else
    field ← field_text "date_part" field_d;
    v ← extract_field field source (cx_time_zone ctx);
    x ← ok_or (f64_parse v) (invalid_text "double precision" v);
    Ok (DFloat8 x).

(** [executor/src/datetime_fn.rs:246-264] eval_datetime, date_trunc *)
Definition eval_date_trunc (fc : FuncCall) (args : list Expr) : xresult Datum :=
  _ ← require_arity fc (Nat.eqb (length args) 2 || Nat.eqb (length args) 3);
  a0 ← arg_at args 0; unit_d ← eval_child a0;
  a1 ← arg_at args 1; source ← eval_child a1;
  zone ← match args !! 2%nat with
         | Some a => d ← eval_child a; z ← zone_arg d; Ok (Some z)
         | None => Ok None
         end;
  if is_null unit_d || is_null source then Ok DNull
  else
    unit ← field_text "date_trunc" unit_d;
    date_trunc unit source zone (cx_time_zone ctx).

(** [executor/src/datetime_fn.rs:266-294] eval_datetime, age *)
Definition eval_age (fc : FuncCall) (args : list Expr) : xresult Datum :=
  let tz := cx_time_zone ctx in
  _ ← require_arity fc (Nat.eqb (length args) 1 || Nat.eqb (length args) 2);
  a0 ← arg_at args 0; a ← eval_child a0;
  if is_null a then Ok DNull
  else
    match args !! 1%nat with
    | Some e =>
        b ← eval_child e;
        if is_null b then Ok DNull
        else
          end_ ← as_datetime a tz;
          start ← as_datetime b tz;
          DInterval <$> age end_ start
    | None =>
        let today := datetime_date (tz_to_datetime tz (cx_now ctx)) in
        start ← as_datetime a tz;
        DInterval <$> age (date_to_midnight today) start
    end.

(** [executor/src/datetime_fn.rs:296-305] eval_datetime, timezone *)
Definition eval_timezone (fc : FuncCall) (args : list Expr) : xresult Datum :=
  _ ← require_arity fc (Nat.eqb (length args) 2);
  a0 ← arg_at args 0; zone_d ← eval_child a0;
  a1 ← arg_at args 1; value ← eval_child a1;
  if is_null zone_d || is_null value then Ok DNull
  else
    tz ← zone_arg zone_d;
    timezone_convert tz value.

(** [executor/src/datetime_fn.rs:171-307] eval_datetime *)
Definition eval_datetime (fc : FuncCall) : xresult Datum :=
  f ← ok_or (datetime_func (fc_name fc)) (Raised (undefined_function (fc_name fc)));
  args ← lift (exprs_of fc);
  let local := tz_to_datetime (cx_time_zone ctx) (cx_now ctx) in
  let niladic (d : Datum) := _ ← require_arity fc (Nat.eqb (length args) 0); Ok d in
  match f with
  | DtTransactionTimestamp => niladic (DTimestamptz (cx_now ctx))
  | DtStatementTimestamp => niladic (DTimestamptz (cx_stmt_now ctx))
  | DtClockTimestamp => niladic (DTimestamptz (cx_clock ctx))
  | DtCurrentDate => niladic (DDate (datetime_date local))
  | DtCurrentTime => niladic (DTime (datetime_time local))
  | DtLocalTimestamp => niladic (DTimestamp local)
  | DtExtract => eval_extract fc args
  | DtDatePart => eval_date_part fc args
  | DtDateTrunc => eval_date_trunc fc args
  | DtAge => eval_age fc args
  | DtTimezone => eval_timezone fc args
  end.

End Eval.

End DateTimeFn.
