(* ===== verification/FormatFn.v ===== *)
(** * Formatting and constructor functions (executor/src/format_fn.rs)

    to_char, to_timestamp, to_date, the make constructors and the justify
    normalizers as SQL functions: their static result types and their values. *)
From Stdlib Require Import ZArith Lia Ascii.
From stdpp Require Import base list gmap strings.
From S2P Require Import Prelude Text Chars Keys Store Datum Float DateTimeBin ExtArith DateTime.
From S2P Require Import Calendar DateTimeFmt Numeric NumericFn Ops Errors Ast EvalOps Func DateTimeFn.
Open Scope Z_scope.

(** [executor/src/format_fn.rs:27-51] FmtFunc *)
Inductive FmtFunc : Type :=
| FmToChar | FmToTimestamp | FmToDate
| FmMakeDate | FmMakeTime | FmMakeTimestamp | FmMakeTimestamptz | FmMakeInterval
| FmJustifyDays | FmJustifyHours | FmJustifyInterval.

(** [executor/src/format_fn.rs:55-70] format_func *)
Definition format_func (name : string) : option FmtFunc :=
  if one_of name ["to_char"] then Some FmToChar
  else if one_of name ["to_timestamp"] then Some FmToTimestamp
  else if one_of name ["to_date"] then Some FmToDate
  else if one_of name ["make_date"] then Some FmMakeDate
  else if one_of name ["make_time"] then Some FmMakeTime
  else if one_of name ["make_timestamp"] then Some FmMakeTimestamp
  else if one_of name ["make_timestamptz"] then Some FmMakeTimestamptz
  else if one_of name ["make_interval"] then Some FmMakeInterval
  else if one_of name ["justify_days"] then Some FmJustifyDays
  else if one_of name ["justify_hours"] then Some FmJustifyHours
  else if one_of name ["justify_interval"] then Some FmJustifyInterval
  else None.

(** [executor/src/format_fn.rs:73-75] is_format_func *)
Definition is_format_func (name : string) : bool := bool_decide (format_func name <> None).

(** [executor/src/format_fn.rs:165-170] is_numeric_like *)
Definition is_numeric_like (t : ColumnType) : bool :=
  bool_decide (t = TInt4 \/ t = TInt8 \/ t = TFloat8) || is_numeric t.

(** [executor/src/format_fn.rs:149-162] is_formattable *)
Definition is_formattable (t : ColumnType) : bool :=
  match t with
  | TDate | TTime | TTimestamp | TTimestamptz | TInterval => true
  | t => is_numeric_like t
  end.

(** [executor/src/format_fn.rs:463-474] check_arity, the arities of each function *)
Definition arity_ok (f : FmtFunc) (n : nat) : bool :=
  match f with
  | FmToChar | FmToDate => Nat.eqb n 2
  | FmToTimestamp => Nat.eqb n 1 || Nat.eqb n 2
  | FmMakeDate | FmMakeTime => Nat.eqb n 3
  | FmMakeTimestamp => Nat.eqb n 6
  | FmMakeTimestamptz => Nat.eqb n 6 || Nat.eqb n 7
  | FmMakeInterval => Nat.leb n 7
  | FmJustifyDays | FmJustifyHours | FmJustifyInterval => Nat.eqb n 1
  end.

Section FormatFn.
Context `{ExtCal} `{Unicode}.

Definition check_arity (f : FmtFunc) (fc : FuncCall) (n : nat) : xresult () :=
  require_arity fc (arity_ok f n).

(** ** Result types *)

Section Types.
Context (infer_type : Expr -> xresult ColumnType).

(** [executor/src/format_fn.rs:173-180] require_text_args *)
Definition require_text_args (fc : FuncCall) (args : list Expr) : xresult () :=
  require_all (fun a =>
    t ← infer_type a;
    if bool_decide (t = TText) then Ok () else raise (undefined_function (fc_name fc))) args.

(** [executor/src/format_fn.rs:81-146] format_func_result_type *)
Definition format_func_result_type (fc : FuncCall) : xresult ColumnType :=
  f ← ok_or (format_func (fc_name fc)) (Raised (undefined_function (fc_name fc)));
  args ← lift (exprs_of fc);
  let n := length args in
  let need (b : bool) : xresult () :=
    if b then Ok () else raise (undefined_function (fc_name fc)) in
  match f with
  | FmToChar =>
      _ ← require_arity fc (Nat.eqb n 2);
      a0 ← arg_at args 0; v ← infer_type a0;
      _ ← need (is_formattable v);
      a1 ← arg_at args 1; t ← infer_type a1;
      _ ← need (bool_decide (t = TText));
      Ok TText
  | FmToTimestamp =>
      _ ← require_arity fc (Nat.eqb n 1 || Nat.eqb n 2);
      _ ← (if Nat.eqb n 1 then
             a0 ← arg_at args 0; a ← infer_type a0; need (is_numeric_like a)
           else require_text_args fc args);
      Ok TTimestamptz
  | FmToDate =>
      _ ← require_arity fc (Nat.eqb n 2);
      _ ← require_text_args fc args;
      Ok TDate
  | FmMakeDate => _ ← require_arity fc (Nat.eqb n 3); Ok TDate
  | FmMakeTime => _ ← require_arity fc (Nat.eqb n 3); Ok TTime
  | FmMakeTimestamp => _ ← require_arity fc (Nat.eqb n 6); Ok TTimestamp
  | FmMakeTimestamptz => _ ← require_arity fc (Nat.eqb n 6 || Nat.eqb n 7); Ok TTimestamptz
  | FmMakeInterval => _ ← require_arity fc (Nat.leb n 7); Ok TInterval
  | FmJustifyDays | FmJustifyHours | FmJustifyInterval =>
      _ ← require_arity fc (Nat.eqb n 1); Ok TInterval
  end.

End Types.

(** ** Argument values *)

(** [executor/src/format_fn.rs:490-495] text_value *)
Definition text_value (d : Datum) (name : string) : xresult string :=
  match d with DText s => Ok s | d => raise (type_error name d) end.

(** [executor/src/format_fn.rs:498-508] int_arg *)
Definition fmt_int_arg (d : Datum) (name : string) : xresult Z :=
  match d with
  | DInt4 n => Ok n
  | DInt8 n =>
      ok_or (checked_i32 n) (Raised (EType (DatetimeFieldOverflow (z_to_string n))))
  | d => raise (type_error name d)
  end.

(** [executor/src/format_fn.rs:511-519] f64_arg *)
Definition f64_arg (d : Datum) (name : string) : xresult Z :=
  match d with
  | DInt4 n | DInt8 n => Ok (f64_of_Z n)
  | DFloat8 x => Ok x
  | DNumeric d => Ok (num_to_f64 d)
  | d => raise (type_error name d)
  end.

(** [executor/src/format_fn.rs:522-527] interval_value *)
Definition interval_value (d : Datum) (name : string) : xresult Interval :=
  match d with DInterval iv => Ok iv | d => raise (type_error name d) end.

(** [executor/src/format_fn.rs:531-542] zone_arg *)
Definition fmt_zone_arg (d : Datum) (name : string) : xresult TimeZone :=
  match d with DText s => zone_by_name s | d => raise (type_error name d) end.

(** ** Values *)

(** [executor/src/format_fn.rs:331-368] to_char *)
Definition to_char (value : Datum) (template : string) (ctx : EvalCtx) (name : string) : xresult Datum :=
  let civil dt off := tyf (format_datetime template (from_civil dt off)) in
  text ← match value with
         | DDate d => civil (date_to_midnight d) None
         | DTimestamp dt => civil dt None
         | DTime t =>
             d ← panic_or (date_new 2000 1 1);
             civil (combine_date_time d t) None
         | DTimestamptz ts =>
             civil (tz_to_datetime (cx_time_zone ctx) ts) (Some (tz_to_offset (cx_time_zone ctx) ts))
         | DInterval iv => tyf (format_interval iv template)
         | DInt4 n | DInt8 n => ty (format_numeric template (num_from_i64 n))
         | DNumeric d => ty (format_numeric template d)
         | DFloat8 f => bd ← ty (num_from_f64 f); ty (format_numeric template bd)
         | _ => raise (undefined_function name)
         end;
  Ok (DText text).

Definition overflow_of (value : string) : fault ExecError := Raised (EType (DatetimeFieldOverflow value)).

(** [executor/src/format_fn.rs:372-393] to_timestamp_epoch *)
Definition to_timestamp_epoch (value : Datum) (name : string) : xresult Datum :=
  secs ← f64_arg value name;
  micros ← ok_or (seconds_to_micros secs) (overflow_of (f64_display secs));
  ts ← ok_or (ts_from_microsecond micros) (overflow_of (f64_display secs));
  Ok (DTimestamptz ts).

(** [executor/src/format_fn.rs:422-437] civil_from_parsed *)
Definition civil_from_parsed (p : ParsedDateTime) : xresult DateTime :=
  ok_or (datetime_new (wrap_signed 16 (p_year p)) (wrap_signed 8 (p_month p))
           (wrap_signed 8 (p_day p)) (wrap_signed 8 (p_hour p)) (wrap_signed 8 (p_minute p))
           (wrap_signed 8 (p_second p)) (wrap_signed 32 (p_micros p * 1000)))
    (overflow_of (z_to_string (p_year p) +:+ "-" +:+ z_to_string (p_month p) +:+ "-" +:+
                  z_to_string (p_day p))).

(** [executor/src/format_fn.rs:397-407] to_timestamp_template *)
Definition to_timestamp_template (template input : string) (ctx : EvalCtx) : xresult Datum :=
  p ← ty (parse_by_template template input);
  dt ← civil_from_parsed p;
  ts ← ok_or (datetime_to_zoned_ts dt (cx_time_zone ctx)) (overflow_of input);
  Ok (DTimestamptz ts).

(** [executor/src/format_fn.rs:410-418] to_date *)
Definition to_date (template input : string) : xresult Datum :=
  p ← ty (parse_by_template template input);
  d ← ok_or (date_new (wrap_signed 16 (p_year p)) (wrap_signed 8 (p_month p)) (wrap_signed 8 (p_day p)))
        (overflow_of input);
  Ok (DDate d).

(** The six fields of make_timestamp and make_timestamptz, in their order. *)
Definition civil_args (vals : list Datum) (name : string) : xresult (list Z * Z * DateTime) :=
  ints ← mapR (fun i => d ← arg_at vals i; fmt_int_arg d name) [0; 1; 2; 3; 4]%nat;
  d5 ← arg_at vals 5; sec ← f64_arg d5 name;
  match ints with
  | [y; mo; d; h; mi] => dt ← ty (make_timestamp_civil y mo d h mi sec); Ok (ints, sec, dt)
  | _ => Err Panicked
  end.

Definition civil_label (ints : list Z) (sec : Z) : string :=
  match map z_to_string ints with
  | [y; mo; d; h; mi] =>
      y +:+ "-" +:+ mo +:+ "-" +:+ d +:+ " " +:+ h +:+ ":" +:+ mi +:+ ":" +:+ f64_display sec
  | _ => ""
  end.

(** [executor/src/format_fn.rs:281-305] eval_format, make_interval *)
Definition eval_make_interval (vals : list Datum) (name : string) : xresult Datum :=
  let get_int i := match vals !! i with Some d => fmt_int_arg d name | None => Ok 0 end in
  years ← get_int 0%nat;
  months ← get_int 1%nat;
  weeks ← get_int 2%nat;
  days ← get_int 3%nat;
  hours ← get_int 4%nat;
  mins ← get_int 5%nat;
  secs ← match vals !! 6%nat with Some d => f64_arg d name | None => Ok 0 end;
  DInterval <$> ty (make_interval years months weeks days hours mins secs).

(** [executor/src/format_fn.rs:190-326] eval_format *)
Definition eval_format (fc : FuncCall) (ctx : EvalCtx) (eval_child : Expr -> xresult Datum)
  : xresult Datum :=
  let name := fc_name fc in
  f ← ok_or (format_func name) (Raised (undefined_function name));
  args ← lift (exprs_of fc);
  vals ← mapR eval_child args;
  let n := length vals in
  if existsb is_null vals then _ ← check_arity f fc n; Ok DNull
  else
    _ ← require_arity fc (arity_ok f n);
    let justify (k : Interval -> result TypeError Interval) :=
      d ← arg_at vals 0; iv ← interval_value d name; DInterval <$> ty (k iv) in
    match f with
    | FmToChar =>
        d1 ← arg_at vals 1; template ← text_value d1 name;
        d0 ← arg_at vals 0; to_char d0 template ctx name
    | FmToTimestamp =>
        d0 ← arg_at vals 0;
        if Nat.eqb n 1 then to_timestamp_epoch d0 name
        else
          input ← text_value d0 name;
          d1 ← arg_at vals 1; template ← text_value d1 name;
          to_timestamp_template template input ctx
    | FmToDate =>
        d0 ← arg_at vals 0; input ← text_value d0 name;
        d1 ← arg_at vals 1; template ← text_value d1 name;
        to_date template input
    | FmMakeDate =>
        d0 ← arg_at vals 0; y ← fmt_int_arg d0 name;
        d1 ← arg_at vals 1; mo ← fmt_int_arg d1 name;
        d2 ← arg_at vals 2; d ← fmt_int_arg d2 name;
        DDate <$> ty (make_date y mo d)
    | FmMakeTime =>
        d0 ← arg_at vals 0; h ← fmt_int_arg d0 name;
        d1 ← arg_at vals 1; mi ← fmt_int_arg d1 name;
        d2 ← arg_at vals 2; sec ← f64_arg d2 name;
        DTime <$> ty (make_time h mi sec)
    | FmMakeTimestamp => r ← civil_args vals name; Ok (DTimestamp r.2)
    | FmMakeTimestamptz =>
        r ← civil_args vals name;
        zone ← match vals !! 6%nat with
               | Some z => fmt_zone_arg z name
               | None => Ok (cx_time_zone ctx)
               end;
        ts ← ok_or (datetime_to_zoned_ts r.2 zone) (overflow_of (civil_label r.1.1 r.1.2));
        Ok (DTimestamptz ts)
    | FmMakeInterval => eval_make_interval vals name
    | FmJustifyDays => justify justify_days
    | FmJustifyHours => justify justify_hours
    | FmJustifyInterval => justify justify_interval
    end.

End FormatFn.
