(* ===== verification/AggCall.v ===== *)
(** * Equality and size of expressions (pgparser/src/ast.rs)

    The equality that the derived [PartialEq] of the syntax tree decides (values
    inside it compare by [Datum]'s own equality), and the height of an
    expression, which bounds the recursion of the passes over it. *)
From Stdlib Require Import ZArith Lia.
From stdpp Require Import base list gmap strings.
From S2P Require Import Prelude Keys Store Datum Errors Ast.
From S2P Require Import Text EvalOps Func.
Open Scope Z_scope.

Section Eqb.
Context {A : Type} (eqb : A -> A -> bool).

Fixpoint list_eqb (a b : list A) : bool :=
  match a, b with
  | [], [] => true
  | x :: a, y :: b => eqb x y && list_eqb a b
  | _, _ => false
  end.

Definition option_eqb (a b : option A) : bool :=
  match a, b with
  | None, None => true
  | Some x, Some y => eqb x y
  | _, _ => false
  end.

Definition pair_eqb (a b : A * A) : bool := eqb a.1 b.1 && eqb a.2 b.2.

End Eqb.

Definition eq_b {A} `{EqDecision A} (x y : A) : bool := bool_decide (x = y).

#[export] Instance UnaryOp_eq_dec : EqDecision UnaryOp.
Proof. solve_decision. Defined.
#[export] Instance RowLockStrength_eq_dec : EqDecision RowLockStrength.
Proof. solve_decision. Defined.
#[export] Instance SetOp_eq_dec : EqDecision SetOp.
Proof. solve_decision. Defined.

Section ExprEq.
Context `{Ext}.

(** [pgparser/src/ast.rs:297-298] Expr, its derived equality *)
Fixpoint expr_eqb (a b : Expr) {struct a} : bool :=
  match a, b with
  | IntLiteral x, IntLiteral y | NumericLiteral x, NumericLiteral y
  | StringLiteral x, StringLiteral y => eq_b x y
  | BoolLiteral x, BoolLiteral y => eq_b x y
  | NullLiteral, NullLiteral => true
  | ColumnRef t x, ColumnRef u y => eq_b t u && eq_b x y
  | ParamRef x, ParamRef y => eq_b x y
  | Unary o x, Unary p y => eq_b o p && expr_eqb x y
  | Binary o x x', Binary p y y' => eq_b o p && expr_eqb x y && expr_eqb x' y'
  | Func n d l, Func m e k => eq_b n m && eq_b d e && args_eqb l k
  | IsNull x n, IsNull y m => expr_eqb x y && eq_b n m
  | InList x l n, InList y k m => expr_eqb x y && list_eqb expr_eqb l k && eq_b n m
  | Between x l h n, Between y k i m =>
      expr_eqb x y && expr_eqb l k && expr_eqb h i && eq_b n m
  | Like x p n c, Like y q m d => expr_eqb x y && expr_eqb p q && eq_b n m && eq_b c d
  | Case o w e, Case p v f =>
      option_eqb expr_eqb o p && list_eqb (pair_eqb expr_eqb) w v && option_eqb expr_eqb e f
  | Cast x t, Cast y u => expr_eqb x y && eq_b t u
  | ScalarSubquery q, ScalarSubquery r | ExistsQuery q, ExistsQuery r => query_eqb q r
  | InSubquery x q n, InSubquery y r m => expr_eqb x y && query_eqb q r && eq_b n m
  | Quantified x o a q, Quantified y p b r =>
      expr_eqb x y && eq_b o p && eq_b a b && query_eqb q r
  | Const v t, Const w u => datum_eqb v w && eq_b t u
  | _, _ => false
  end
with args_eqb (a b : FuncArgs) {struct a} : bool :=
  match a, b with
  | ArgStar, ArgStar => true
  | ArgExprs l, ArgExprs k => list_eqb expr_eqb l k
  | _, _ => false
  end
with query_eqb (a b : QueryExpr) {struct a} : bool :=
  match a, b with
  | mkQueryExpr w s o l f k, mkQueryExpr w' s' o' l' f' k' =>
      option_eqb with_eqb w w' && set_expr_eqb s s' && list_eqb order_eqb o o' &&
      eq_b l l' && eq_b f f' && eq_b k k'
  end
with with_eqb (a b : WithClause) {struct a} : bool :=
  match a, b with
  | mkWithClause r c, mkWithClause r' c' => eq_b r r' && list_eqb cte_eqb c c'
  end
with cte_eqb (a b : Cte) {struct a} : bool :=
  match a, b with
  | mkCte n c q, mkCte n' c' q' => eq_b n n' && eq_b c c' && query_eqb q q'
  end
with body_eqb (a b : QueryBody) {struct a} : bool :=
  match a, b with
  | BodySelect s, BodySelect s' => select_eqb s s'
  | BodyValues r, BodyValues r' => list_eqb (list_eqb expr_eqb) r r'
  | BodyNested q, BodyNested q' => query_eqb q q'
  | _, _ => false
  end
with set_expr_eqb (a b : SetExpr) {struct a} : bool :=
  match a, b with
  | SetQuery s, SetQuery s' => body_eqb s s'
  | SetOperation o al l r, SetOperation o' al' l' r' =>
      eq_b o o' && eq_b al al' && set_expr_eqb l l' && set_expr_eqb r r'
  | _, _ => false
  end
with select_eqb (a b : SelectStmt) {struct a} : bool :=
  match a, b with
  | mkSelectStmt p f w d g h o l fs k, mkSelectStmt p' f' w' d' g' h' o' l' fs' k' =>
      list_eqb item_eqb p p' && list_eqb table_eqb f f' && option_eqb expr_eqb w w' &&
      eq_b d d' && list_eqb expr_eqb g g' && option_eqb expr_eqb h h' &&
      list_eqb order_eqb o o' && eq_b l l' && eq_b fs fs' && eq_b k k'
  end
with item_eqb (a b : SelectItem) {struct a} : bool :=
  match a, b with
  | Wildcard, Wildcard => true
  | QualifiedWildcard t, QualifiedWildcard t' => eq_b t t'
  | ItemExpr e n, ItemExpr e' n' => expr_eqb e e' && eq_b n n'
  | _, _ => false
  end
with table_eqb (a b : TableExpr) {struct a} : bool :=
  match a, b with
  | TableRef n l, TableRef n' l' => eq_b n n' && eq_b l l'
  | Derived q n c, Derived q' n' c' => query_eqb q q' && eq_b n n' && eq_b c c'
  | Join l r k c, Join l' r' k' c' =>
      table_eqb l l' && table_eqb r r' && eq_b k k' && constraint_eqb c c'
  | _, _ => false
  end
with constraint_eqb (a b : JoinConstraint) {struct a} : bool :=
  match a, b with
  | JoinOn e, JoinOn e' => expr_eqb e e'
  | JoinUsing c, JoinUsing c' => eq_b c c'
  | JoinNatural, JoinNatural | JoinNone, JoinNone => true
  | _, _ => false
  end
with order_eqb (a b : OrderItem) {struct a} : bool :=
  match a, b with
  | mkOrderItem e d, mkOrderItem e' d' => expr_eqb e e' && eq_b d d'
  end.

(** The height of an expression; a subquery is a leaf of it. *)
Fixpoint expr_height (e : Expr) : nat :=
  match e with
  | Unary _ x | Cast x _ | IsNull x _ | InSubquery x _ _ | Quantified x _ _ _ => S (expr_height x)
  | Binary _ x y | Like x y _ _ => S (Nat.max (expr_height x) (expr_height y))
  | Func _ _ args => S (args_height args)
  | InList x l _ => S (Nat.max (expr_height x) (list_max (map expr_height l)))
  | Between x l h _ => S (Nat.max (expr_height x) (Nat.max (expr_height l) (expr_height h)))
  | Case o w e =>
      S (Nat.max (from_option expr_height 0%nat o)
           (Nat.max (list_max (map (fun p => Nat.max (expr_height p.1) (expr_height p.2)) w))
              (from_option expr_height 0%nat e)))
  | _ => 1%nat
  end
with args_height (a : FuncArgs) : nat :=
  match a with
  | ArgStar => 0%nat
  | ArgExprs l => list_max (map expr_height l)
  end.

Lemma list_max_elem {A} (f : A -> nat) l x : x ∈ l -> (f x <= list_max (map f l))%nat.
Proof. induction 1; simpl; lia. Qed.

End ExprEq.

(** ** Aggregate calls (executor/src/agg.rs)

    Which calls are aggregates, where they may appear, and their static types,
    given the inference of their argument. *)
(** [executor/src/agg.rs:34-40] AggFunc *)
Inductive AggFunc : Type := AgCount | AgSum | AgAvg | AgMin | AgMax.

#[export] Instance AggFunc_eq_dec : EqDecision AggFunc.
Proof. solve_decision. Defined.

(** [executor/src/agg.rs:45-54] aggregate_func *)
Definition aggregate_func (name : string) : option AggFunc :=
  if one_of name ["count"] then Some AgCount
  else if one_of name ["sum"] then Some AgSum
  else if one_of name ["avg"] then Some AgAvg
  else if one_of name ["min"] then Some AgMin
  else if one_of name ["max"] then Some AgMax
  else None.

Definition is_aggregate (name : string) : bool := bool_decide (aggregate_func name <> None).

Section AggCall.
Context `{Ext}.

(** [executor/src/agg.rs:57-92] contains_aggregate *)
Fixpoint contains_aggregate (e : Expr) : bool :=
  match e with
  | Func name _ args => is_aggregate name || args_contain_aggregate args
  | Unary _ x | IsNull x _ | Cast x _ => contains_aggregate x
  | Binary _ l r => contains_aggregate l || contains_aggregate r
  | InList x l _ => contains_aggregate x || existsb contains_aggregate l
  | Between x lo hi _ => contains_aggregate x || contains_aggregate lo || contains_aggregate hi
  | Like x p _ _ => contains_aggregate x || contains_aggregate p
  | Case o w e =>
      from_option contains_aggregate false o ||
      existsb (fun cr => contains_aggregate cr.1 || contains_aggregate cr.2) w ||
      from_option contains_aggregate false e
  | _ => false
  end
with args_contain_aggregate (a : FuncArgs) : bool :=
  match a with
  | ArgStar => false
  | ArgExprs args => existsb contains_aggregate args
  end.

(** [executor/src/agg.rs:96-104] is_aggregate_query *)
Definition is_aggregate_query (s : SelectStmt) : bool :=
  let '(mkSelectStmt projection _ _ _ group_by having order_by _ _ _) := s in
  negb (bool_decide (length group_by = 0%nat)) ||
  match having with Some _ => true | None => false end ||
  existsb (fun item => match item with
                       | ItemExpr expr _ => contains_aggregate expr
                       | _ => false
                       end) projection ||
  existsb (fun o => let '(mkOrderItem e _) := o in contains_aggregate e) order_by.

(** [executor/src/agg.rs:169-171] undefined_for_arg *)
Definition undefined_for_arg (name : string) (t : ColumnType) : ExecError :=
  EUndefinedFunction ("function " +:+ name +:+ "(" +:+ type_name t +:+ ") does not exist").

(** [executor/src/agg.rs:109-119] func_in_scalar_context_error *)
Definition func_in_scalar_context_error (fc : FuncCall) : ExecError :=
  if is_aggregate (fc_name fc) then
    EGrouping ("aggregate function " +:+ quoted (fc_name fc) +:+
               " is not allowed here (aggregates cannot be nested)")
  else undefined_function (fc_name fc).

(** [executor/src/agg.rs:174-180] count_arity *)
Definition count_arity (fc : FuncCall) : result ExecError () :=
  match fc_args fc with
  | ArgStar | ArgExprs [_] => Ok ()
  | _ => Err (undefined_function "count")
  end.

(** [executor/src/agg.rs:184-189] single_value_arg *)
Definition single_value_arg (fc : FuncCall) : result ExecError Expr :=
  match fc_args fc with
  | ArgExprs [a] => Ok a
  | _ => Err (undefined_function (fc_name fc))
  end.

(** [executor/src/agg.rs:123-163] func_result_type *)
Definition func_result_type (infer_type : Expr -> xresult ColumnType) (fc : FuncCall)
  : xresult ColumnType :=
  match aggregate_func (fc_name fc) with
  | None => raise (undefined_function (fc_name fc))
  | Some AgCount => _ ← lift (count_arity fc); Ok TInt8
  | Some AgSum =>
      arg ← lift (single_value_arg fc);
      t ← infer_type arg;
      match t with
      | TInt4 | TInt8 => Ok TInt8
      | TFloat8 => Ok TFloat8
      | TNumeric _ => Ok (TNumeric None)
      | other => raise (undefined_for_arg "sum" other)
      end
  | Some AgAvg =>
      arg ← lift (single_value_arg fc);
      t ← infer_type arg;
      match t with
      | TFloat8 => Ok TFloat8
      | TInt4 | TInt8 | TNumeric _ => Ok (TNumeric None)
      | other => raise (undefined_for_arg "avg" other)
      end
  | Some AgMin | Some AgMax => arg ← lift (single_value_arg fc); infer_type arg
  end.

(** [executor/src/agg.rs:253-260] reject_nested_aggregate *)
Definition reject_nested_aggregate (arg : Expr) : result ExecError () :=
  if contains_aggregate arg then Err (EGrouping "aggregate function calls cannot be nested")
  else Ok ().

End AggCall.
