(* ===== verification/Eval.v ===== *)
(** * Evaluation and type inference of expressions (executor/src/eval.rs)

    The depth-limited evaluator and the static result types, over the functions
    of the executor. The evaluator's recursion is the source's own depth limit;
    inference has none in the source, and recurses here over the height of the
    expression, which [infer_fuel] shows to be enough. *)
From Stdlib Require Import ZArith Lia Ascii.
From stdpp Require Import base list gmap strings.
From S2P Require Import Prelude Text Chars Keys Store Datum Float DateTimeBin ExtArith DateTime.
From S2P Require Import Calendar Numeric NumericFn Ops Cast Errors Catalog Scope Ast AggCall.
From S2P Require Import EvalOps Func DateTimeFn FormatFn.
Open Scope Z_scope.

(** [executor/src/eval.rs:24-24] MAX_EVAL_DEPTH *)
Definition MAX_EVAL_DEPTH : nat := 150.

Definition params_unsupported : ExecError := EUnsupported "query parameters ($n) are not supported".
Definition subqueries_unsupported : ExecError :=
  EUnsupported "subqueries are only supported in SELECT".

(** [executor/src/eval.rs:627-630] is_temporal *)
Definition is_temporal_type (t : ColumnType) : bool :=
  match t with TDate | TTime | TTimestamp | TTimestamptz | TInterval => true | _ => false end.

Definition is_int_type (t : ColumnType) : bool := match t with TInt4 | TInt8 => true | _ => false end.
Definition is_number_type (t : ColumnType) : bool :=
  match t with TInt4 | TInt8 | TFloat8 | TNumeric _ => true | _ => false end.

(** [executor/src/eval.rs:638-676] datetime_result_type *)
Definition datetime_result_type (op : BinaryOp) (lt rt : ColumnType) : option ColumnType :=
  if negb (is_temporal_type lt) && negb (is_temporal_type rt) then None
  else
    match op, lt, rt with
    | OpAdd, TDate, (TInt4 | TInt8) | OpSub, TDate, (TInt4 | TInt8) => Some TDate
    | OpAdd, (TInt4 | TInt8), TDate => Some TDate
    | OpSub, TDate, TDate => Some TInt4
    | (OpAdd | OpSub), TDate, TInterval | OpAdd, TInterval, TDate => Some TTimestamp
    | (OpAdd | OpSub), TTimestamp, TInterval | OpAdd, TInterval, TTimestamp => Some TTimestamp
    | (OpAdd | OpSub), TTimestamptz, TInterval | OpAdd, TInterval, TTimestamptz => Some TTimestamptz
    | OpSub, TTimestamp, TTimestamp | OpSub, TTimestamptz, TTimestamptz => Some TInterval
    | (OpAdd | OpSub), TInterval, TInterval => Some TInterval
    | (OpMul | OpDiv), TInterval, r => if is_number_type r then Some TInterval else None
    | OpMul, l, TInterval => if is_number_type l then Some TInterval else None
    | (OpAdd | OpSub), TTime, TInterval | OpAdd, TInterval, TTime => Some TTime
    | OpAdd, TDate, TTime | OpAdd, TTime, TDate => Some TTimestamp
    | _, _, _ => None
    end.

(** [executor/src/eval.rs:682-693] numeric_result_type *)
Definition numeric_result_type (lt rt : ColumnType) : ColumnType :=
  if bool_decide (lt = TFloat8) || bool_decide (rt = TFloat8) then TFloat8
  else if is_numeric lt || is_numeric rt then TNumeric None
  else if bool_decide (lt = TInt4) && bool_decide (rt = TInt4) then TInt4
  else TInt8.

(** [executor/src/eval.rs:605-624] unify_types *)
Definition unify_types (a b : ColumnType) : result ExecError ColumnType :=
  if bool_decide (a = b) then Ok a
  else
    match a, b with
    | TInt4, TInt8 | TInt8, TInt4 => Ok TInt8
    | _, _ =>
        if bool_decide (a = TFloat8) || bool_decide (b = TFloat8) then Ok TFloat8
        else if is_number_type a && is_number_type b then Ok (TNumeric None)
        else Err (ETypeMismatch ("types " +:+ type_name a +:+ " and " +:+ type_name b +:+
                                 " cannot be matched"))
    end.

Section Eval.
Context `{ExtCal} `{MathLib} `{Unicode} `{!ExtPow}.

(** ** Types *)

Section Infer.
Context (infer : Expr -> xresult ColumnType).

(** [executor/src/eval.rs:590-603] unify_branch *)
Definition unify_branch (acc : option ColumnType) (e : Expr) : xresult (option ColumnType) :=
  match e with
  | NullLiteral => Ok acc
  | _ =>
      t ← infer e;
      match acc with
      | None => Ok (Some t)
      | Some a => u ← lift (unify_types a t); Ok (Some u)
      end
  end.

(** [executor/src/eval.rs:572-585] infer_case_type *)
Definition infer_case_type (whens : list (Expr * Expr)) (else_result : option Expr)
  : xresult ColumnType :=
  acc ← foldM (fun acc w => unify_branch acc w.2) None whens;
  acc ← match else_result with Some e => unify_branch acc e | None => Ok acc end;
  Ok (default TText acc).

(** [executor/src/eval.rs:467-567] infer_type, one level *)
Definition infer_step (scope : Scope) (e : Expr) : xresult ColumnType :=
  match e with
  | IntLiteral s =>
      d ← ty (int_literal s);
      match d with DInt4 _ => Ok TInt4 | DInt8 _ => Ok TInt8 | _ => Err Panicked end
  | NumericLiteral _ => Ok (TNumeric None)
  | StringLiteral _ => Ok TText
  | BoolLiteral _ => Ok TBool
  | NullLiteral => Ok TText
  | ParamRef _ => raise params_unsupported
  | ColumnRef table name =>
      idx ← lift (resolve scope table name);
      panic_or (ty_at scope idx)
  | Unary UNot _ => Ok TBool
  | Unary UNeg x => infer x
  | Binary op l r =>
      match op with
      | OpAdd | OpSub | OpMul | OpDiv =>
          lt ← infer l; rt ← infer r;
          Ok (default (numeric_result_type lt rt) (datetime_result_type op lt rt))
      | OpConcat =>
          lt ← infer l; rt ← infer r;
          if negb (bool_decide (lt = TText)) && negb (bool_decide (rt = TText)) then
            raise (EUndefinedFunction ("operator does not exist: " +:+ type_name lt +:+ " || " +:+
                                       type_name rt))
          else Ok TText
      | _ => Ok TBool
      end
  | Func name distinct args =>
      let fc := mkFuncCall name distinct args in
      if is_scalar name then scalar_result_type infer unify_branch fc
      else if is_datetime_func name then datetime_func_result_type infer fc
      else if is_format_func name then format_func_result_type infer fc
      else func_result_type infer fc
  | IsNull _ _ | InList _ _ _ | Between _ _ _ _ | Like _ _ _ _ => Ok TBool
  | Case _ whens else_result => infer_case_type whens else_result
  | Cast x ty =>
      from ← infer x;
      if cast_allowed from ty then Ok ty
      else raise (EType (CannotCast (type_name from) (type_name ty)))
  | Const _ ty => Ok ty
  | ExistsQuery _ | InSubquery _ _ _ | Quantified _ _ _ _ => Ok TBool
  | ScalarSubquery _ =>
      raise (EUnsupported "internal: scalar subquery must be resolved before type inference")
  end.

End Infer.

Fixpoint infer_go (fuel : nat) (scope : Scope) (e : Expr) : xresult ColumnType :=
  match fuel with
  | O => Err Panicked
  | S fuel => infer_step (infer_go fuel scope) scope e
  end.

(** [executor/src/eval.rs:467-567] infer_type *)
Definition infer_type (e : Expr) (scope : Scope) : xresult ColumnType :=
  infer_go (expr_height e) scope e.

(** ** Values *)

(** [pgtypes::numeric::parse(s)] of a numeric literal *)
Definition numeric_literal (s : string) : xresult Datum :=
  d ← ok_or (parse s) (Raised (EType (InvalidText "numeric" s)));
  Ok (DNumeric d).

Section EvalStep.
Context (ctx : EvalCtx) (child : Expr -> xresult Datum).

(** [executor/src/eval.rs:53-170] eval_depth, one level below the depth test *)
Definition eval_step (scope : Scope) (values : list Datum) (e : Expr) : xresult Datum :=
  match e with
  | IntLiteral s => ty (int_literal s)
  | NumericLiteral s => numeric_literal s
  | StringLiteral s => Ok (DText s)
  | BoolLiteral b => Ok (DBool b)
  | NullLiteral => Ok DNull
  | ParamRef _ => raise params_unsupported
  | ColumnRef table name =>
      idx ← lift (resolve scope table name);
      panic_or (values !! idx)
  | Unary op x => v ← child x; apply_unary op v ctx
  | Binary op l r => l ← child l; r ← child r; apply_binary op l r ctx
  | Func name distinct args =>
      let fc := mkFuncCall name distinct args in
      if is_scalar name then eval_scalar fc ctx child
      else if is_datetime_func name then eval_datetime ctx child fc
      else if is_format_func name then eval_format fc ctx child
      else raise (func_in_scalar_context_error fc)
  | IsNull x negated => v ← child x; Ok (DBool (xorb (is_null v) negated))
  | InList x l negated => x ← child x; eval_in_list x l negated child
  | Between x lo hi negated =>
      x ← child x; lo ← child lo; hi ← child hi; eval_between x lo hi negated ctx
  | Like s p negated ci => s ← child s; p ← child p; eval_like s p negated ci
  | Case operand whens else_result => eval_case operand whens else_result child
  | Cast x t => v ← child x; tyf (cast v t (cx_time_zone ctx))
  | Const value _ => Ok value
  | ScalarSubquery _ | ExistsQuery _ | InSubquery _ _ _ | Quantified _ _ _ _ =>
      raise subqueries_unsupported
  end.

End EvalStep.

(** [executor/src/eval.rs:42-171] eval_depth, by the levels left: none at a depth
    above [MAX_EVAL_DEPTH] *)
Fixpoint eval_depth (levels : nat) (scope : Scope) (values : list Datum) (ctx : EvalCtx) (e : Expr)
  : xresult Datum :=
  match levels with
  | O => raise EStackDepthExceeded
  | S levels => eval_step ctx (eval_depth levels scope values ctx) scope values e
  end.

(** [executor/src/eval.rs:29-36] eval *)
Definition eval (e : Expr) (scope : Scope) (values : list Datum) (ctx : EvalCtx) : xresult Datum :=
  eval_depth (S MAX_EVAL_DEPTH) scope values ctx e.

End Eval.

(** ** Depth of evaluation and inference

    The passes over an expression look only at its children, so the height of
    the expression is fuel enough for type inference, and expressions no higher
    than the limit never run into it. *)
Lemma bind_ext {E A B} (r : result E A) (f g : A -> result E B) :
  (forall a, r = Ok a -> f a = g a) -> (r ≫= f) = (r ≫= g).
Proof. destruct r; simpl; auto. Qed.

Lemma foldM_ext {E A S} (f g : S -> A -> result E S) s l :
  (forall s a, a ∈ l -> f s a = g s a) -> foldM f s l = foldM g s l.
Proof.
  revert s; induction l as [|a l IH]; intros s Hl; [done|]. simpl.
  rewrite Hl by set_solver. apply bind_ext. intros s' _. apply IH. set_solver.
Qed.

Lemma mapR_ext {E A B} (f g : A -> result E B) l :
  (forall a, a ∈ l -> f a = g a) -> mapR f l = mapR g l.
Proof.
  induction l as [|a l IH]; intros Hl; [done|]. simpl.
  rewrite Hl by set_solver. apply bind_ext. intros b _. rewrite IH; [done|set_solver].
Qed.

Section Fuel.
Context `{ExtCal} `{MathLib} `{Unicode} `{!ExtPow}.

Lemma arg_at_elem {A} (args : list A) i a : arg_at args i = Ok a -> a ∈ args.
Proof.
  unfold arg_at, panic_or, ok_or. destruct (args !! i) eqn:E; [intros [= <-]|done].
  by eapply list_elem_of_lookup_2.
Qed.

(** ** Inference *)

Section Agree.
Context (f g : Expr -> xresult ColumnType).

Definition agree (l : list Expr) : Prop := forall a, a ∈ l -> f a = g a.

Lemma unify_branch_ext acc e : f e = g e -> unify_branch f acc e = unify_branch g acc e.
Proof. intros E. destruct e; simpl; rewrite ?E; done. Qed.

Lemma require_all_ext {A} (r r' : Expr -> xresult A) args :
  (forall a, a ∈ args -> r a = r' a) -> require_all r args = require_all r' args.
Proof. intros Hr. apply foldM_ext. intros s a Ha. by rewrite Hr. Qed.

End Agree.

(** Rewrite an inferred type of an argument by the agreement [H] on them. *)
Ltac agree_args H :=
  repeat first
    [ reflexivity
    | apply bind_ext; intros
    | match goal with
      | E : arg_at ?l _ = Ok ?a |- _ =>
          pose proof (H a ltac:(eapply arg_at_elem; exact E)); clear E
      end
    | match goal with E : ?f ?a = ?g ?a |- context [?f ?a] => rewrite E end
    | match goal with |- mbind ?k _ = mbind ?k _ => apply (f_equal (mbind k)) end
    | case_match ].

Lemma scalar_result_type_ext f g fc args :
  fc_args fc = ArgExprs args -> agree f g args ->
  scalar_result_type f (unify_branch f) fc = scalar_result_type g (unify_branch g) fc.
Proof.
  intros Ea Hag. unfold scalar_result_type, unify_args, checked_args, exprs_of. rewrite Ea.
  apply bind_ext; intros s _. destruct (fc_distinct fc); [done|]. simpl.
  assert (foldM (unify_branch f) None args = foldM (unify_branch g) None args) as Hu.
  { apply foldM_ext. intros. by apply unify_branch_ext, Hag. }
  assert (require_all (require_text f) args = require_all (require_text g) args) as Ht.
  { apply require_all_ext. intros a Ha. unfold require_text. by rewrite Hag. }
  assert (require_all (require_int f) (drop 1 args) = require_all (require_int g) (drop 1 args))
    as Hi.
  { apply require_all_ext. intros a Ha. unfold require_int. rewrite Hag; [done|].
    rewrite <- (take_drop 1 args). set_solver. }
  destruct s; rewrite ?Hu, ?Ht, ?Hi;
    unfold require_numeric, require_int, require_int_or_numeric, require_text; agree_args Hag.
Qed.

Lemma datetime_func_result_type_ext f g fc args :
  fc_args fc = ArgExprs args -> agree f g args ->
  datetime_func_result_type f fc = datetime_func_result_type g fc.
Proof.
  intros Ea Hag. unfold datetime_func_result_type, exprs_of. rewrite Ea. simpl. agree_args Hag.
Qed.

Lemma format_func_result_type_ext f g fc args :
  fc_args fc = ArgExprs args -> agree f g args ->
  format_func_result_type f fc = format_func_result_type g fc.
Proof.
  intros Ea Hag. unfold format_func_result_type, exprs_of. rewrite Ea. simpl.
  assert (require_text_args f fc args = require_text_args g fc args) as ->.
  { apply require_all_ext. intros a Ha. by rewrite Hag. }
  agree_args Hag.
Qed.

Lemma func_result_type_ext f g fc args :
  fc_args fc = ArgExprs args -> agree f g args -> func_result_type f fc = func_result_type g fc.
Proof.
  intros Ea Hag. unfold func_result_type, single_value_arg. rewrite Ea.
  assert (forall x, args = [x] -> f x = g x) as Hx by (intros x ->; apply Hag; set_solver).
  destruct args as [|x [|y l]]; simpl; [done| |done]. by rewrite (Hx x).
Qed.

(** One level of inference looks at expressions of smaller height only. *)
Lemma infer_step_ext f g scope e :
  (forall x, (expr_height x < expr_height e)%nat -> f x = g x) ->
  infer_step f scope e = infer_step g scope e.
Proof.
  intros Hfg. destruct e; simpl in *; try done; try (rewrite ?Hfg by lia; done).
  - destruct args as [|args].
    + unfold scalar_result_type, datetime_func_result_type, format_func_result_type,
        func_result_type, checked_args, exprs_of, single_value_arg. simpl.
      repeat case_match; try done; apply bind_ext; by intros.
    + assert (agree f g args) as Hag.
      { intros a Ha. apply Hfg. pose proof (list_max_elem expr_height args a Ha). simpl. lia. }
      set (fc := mkFuncCall _ _ _).
      rewrite (scalar_result_type_ext f g fc args), (datetime_func_result_type_ext f g fc args),
        (format_func_result_type_ext f g fc args), (func_result_type_ext f g fc args); done.
  - unfold infer_case_type.
    rewrite (foldM_ext _ (fun acc w => unify_branch g acc w.2)).
    + apply bind_ext. intros acc _. destruct else_result as [x|]; [|done].
      rewrite (unify_branch_ext f g); [done|]. apply Hfg. simpl. lia.
    + intros acc w Hw. apply unify_branch_ext, Hfg.
      pose proof (list_max_elem (fun p => Nat.max (expr_height p.1) (expr_height p.2)) whens w Hw).
      simpl in *. lia.
Qed.

(** The height of an expression is fuel enough: more changes nothing. *)
Lemma infer_fuel n scope e : (expr_height e <= n)%nat -> infer_go n scope e = infer_type e scope.
Proof.
  unfold infer_type. enough (forall n m, expr_height e <= n -> expr_height e <= m ->
    infer_go n scope e = infer_go m scope e)%nat by auto.
  clear n. intros n. revert e. induction n as [n IH] using lt_wf_ind. intros e m Hn Hm.
  destruct n as [|n]; [destruct e; simpl in Hn; lia|].
  destruct m as [|m]; [destruct e; simpl in Hm; lia|]. simpl.
  apply infer_step_ext. intros x Hx. apply IH; lia.
Qed.

(** [infer_type] by its own recursion. *)
Lemma infer_type_eq e scope :
  infer_type e scope = infer_step (fun x => infer_type x scope) scope e.
Proof.
  rewrite <- (infer_fuel (S (expr_height e))) by lia. simpl. apply infer_step_ext.
  intros x Hx. apply infer_fuel. lia.
Qed.

End Fuel.
