(* ===== verification/Project.v ===== *)
(** * Rows of a SELECT (executor/src/exec.rs)

    The parts of SELECT execution that work on rows: the WHERE test, the select
    list, ORDER BY, DISTINCT, OFFSET and LIMIT, the assignment coercion, and the
    cells of a result. [slice::sort_by] is the stable sort, which is what it does
    when the comparison is a total preorder. *)
From Stdlib Require Import ZArith Lia Ascii.
From stdpp Require Import base list gmap strings.
From S2P Require Import Prelude Text Chars Keys Store Datum Float DateTimeBin ExtArith DateTime.
From S2P Require Import Calendar Numeric NumericFn Ops Cast Errors Catalog Scope Ast AggCall.
From S2P Require Import EvalOps Func DateTimeFn FormatFn Eval Wire.
Open Scope Z_scope.

(** [pgwire/src/engine.rs:23-26] Cell *)
Record Cell : Type := mkCell { cell_text : bytes; cell_binary : bytes }.

(** [pgwire/src/engine.rs:29-39] QueryResult *)
Inductive QueryResult : Type :=
| QRows (fields : list FieldDescription) (rows : list (list (option Cell))) (tag : string)
| QCommand (tag : string)
| QEmpty.

(** [executor/src/exec.rs:1788-1798] field *)
Definition field (name : string) (ty : ColumnType) : FieldDescription :=
  mkField name 0 0 (oid ty) (type_size ty) (-1) 0.

(** [executor/src/exec.rs:1800-1819] column_type_from_oid *)
Definition column_type_from_oid (o : Z) : result ExecError ColumnType :=
  if o =? 16 then Ok TBool
  else if o =? 23 then Ok TInt4
  else if o =? 20 then Ok TInt8
  else if o =? 25 then Ok TText
  else if o =? 701 then Ok TFloat8
  else if o =? 1700 then Ok (TNumeric None)
  else if o =? 1082 then Ok TDate
  else if o =? 1083 then Ok TTime
  else if o =? 1114 then Ok TTimestamp
  else if o =? 1184 then Ok TTimestamptz
  else if o =? 1186 then Ok TInterval
  else Err (EUnsupported ("unknown query field type oid " +:+ z_to_string o)).

(** ** Sorting *)

Section Sort.
Context {A : Type} (cmp : A -> A -> comparison).

(** Before the first element that is not smaller. *)
Fixpoint insert_by (x : A) (l : list A) : list A :=
  match l with
  | [] => [x]
  | y :: l => match cmp y x with Lt => y :: insert_by x l | _ => x :: y :: l end
  end.

(** [slice::sort_by] *)
Definition sort_by (l : list A) : list A := foldr insert_by [] l.

End Sort.

(** [executor/src/exec.rs:1704-1715] apply_offset_limit *)
Definition apply_offset_limit {A} (rows : list A) (offset limit : option Z) : list A :=
  let rows :=
    match offset with
    | Some off => drop (Nat.min (Z.to_nat (Z.max off 0)) (length rows)) rows
    | None => rows
    end in
  match limit with
  | Some limit => take (Z.to_nat (Z.max limit 0)) rows
  | None => rows
  end.

Section Project.
Context `{ExtCal} `{MathLib} `{Unicode} `{!ExtPow}.

Definition Row : Type := list Datum.

(** [HashSet<Vec<Datum>>] membership: rows equal value by value. *)
Definition row_eqb (a b : Row) : bool := list_eqb datum_eqb a b.

(** [retain(|r| seen.insert(..))] on a part of every element: the first
    occurrence of each is kept *)
Fixpoint dedup_on {A} (part : A -> Row) (seen : list Row) (l : list A) : list A :=
  match l with
  | [] => []
  | x :: l =>
      if existsb (row_eqb (part x)) seen then dedup_on part seen l
      else x :: dedup_on part (part x :: seen) l
  end.

(** [executor/src/exec.rs:777-793] row_matches *)
Definition row_matches (filter : option Expr) (scope : Scope) (row : Row) (ctx : EvalCtx)
  : xresult bool :=
  match filter with
  | None => Ok true
  | Some f =>
      v ← eval f scope row ctx;
      match v with
      | DBool b => Ok b
      | DNull => Ok false
      | _ => raise (ETypeMismatch "argument of WHERE must be type boolean")
      end
  end.

(** The loop that keeps the rows of a WHERE. *)
Definition filter_rows (filter : option Expr) (scope : Scope) (ctx : EvalCtx) (rows : list Row)
  : xresult (list Row) :=
  foldM (fun kept row => b ← row_matches filter scope row ctx; Ok (if b : bool then kept ++ [row] else kept))
    [] rows.

(** ** Assignment *)

(** [executor/src/exec.rs:652-724] coerce *)
Definition coerce (value : Datum) (target : ColumnType) (ctx : EvalCtx) : xresult Datum :=
  let mismatch :=
    raise (ETypeMismatch ("column is of type " +:+ type_name target +:+
                          " but expression is of type " +:+ type_name_of value)) in
  let float_to_int f lo hi mk :=
    let r := f64_round_ties_even f in
    if f64_is_finite r && f64_leb (f64_of_Z lo) r && f64_leb r (f64_of_Z hi)
    then Ok (mk (f64_as_int lo hi r)) else raise (EType Overflow) in
  let numeric_target := tyf (cast value target (cx_time_zone ctx)) in
  match value, target with
  | (DInt4 _ | DInt8 _ | DFloat8 _ | DNumeric _), TNumeric _ => numeric_target
  | DNull, _ => Ok DNull
  | DBool b, TBool => Ok (DBool b)
  | DInt4 n, TInt4 => Ok (DInt4 n)
  | DInt4 n, TInt8 => Ok (DInt8 n)
  | DInt8 n, TInt8 => Ok (DInt8 n)
  | DInt8 n, TInt4 => match checked_i32 n with Some n => Ok (DInt4 n) | None => raise (EType Overflow) end
  | DText s, TText => Ok (DText s)
  | DFloat8 f, TFloat8 => Ok (DFloat8 f)
  | (DInt4 n | DInt8 n), TFloat8 => Ok (DFloat8 (f64_of_Z n))
  | DFloat8 f, TInt4 => float_to_int f (-2147483648) 2147483647 DInt4
  | DFloat8 f, TInt8 => float_to_int f (-9223372036854775808) 9223372036854775807 DInt8
  | DNumeric d, TFloat8 => Ok (DFloat8 (num_to_f64 d))
  | DNumeric d, TInt4 => DInt4 <$> ty (num_to_i32 d)
  | DNumeric d, TInt8 => DInt8 <$> ty (num_to_i64 d)
  | DDate d, TDate => Ok (DDate d)
  | DTime t, TTime => Ok (DTime t)
  | DTimestamp ts, TTimestamp => Ok (DTimestamp ts)
  | DTimestamptz ts, TTimestamptz => Ok (DTimestamptz ts)
  | DInterval iv, TInterval => Ok (DInterval iv)
  | _, _ => mismatch
  end.

(** ** The select list *)

(** [executor/src/exec.rs:1779-1786] derived_name *)
Definition derived_name (e : Expr) : string :=
  match e with
  | ColumnRef _ name => name
  | Func name _ _ => name
  | _ => "?column?"
  end.

(** The output columns: descriptions, expressions and types, side by side. *)
Definition Projection : Type := list (FieldDescription * Expr * ColumnType).

Definition column_output (c : ColumnBinding) : FieldDescription * Expr * ColumnType :=
  (field (b_name c) (b_ty c), ColumnRef (b_qualifier c) (b_name c), b_ty c).

(** [executor/src/exec.rs:1733-1774] resolve_projection, one item *)
Definition resolve_item (scope : Scope) (item : SelectItem) : xresult Projection :=
  match item with
  | Wildcard =>
      match scope with
      | [] => raise (EUnsupported "SELECT * with no FROM clause is not supported")
      | _ => Ok (map column_output scope)
      end
  | QualifiedWildcard q =>
      match List.filter (has_qualifier q) scope with
      | [] => raise (EMissingFromEntry q)
      | cols => Ok (map column_output cols)
      end
  | ItemExpr e alias =>
      ty ← infer_type e scope;
      Ok [(field (default (derived_name e) alias) ty, e, ty)]
  end.

(** [executor/src/exec.rs:1722-1777] resolve_projection *)
Definition resolve_projection (items : list SelectItem) (scope : Scope) : xresult Projection :=
  outs ← mapR (resolve_item scope) items;
  Ok (concat outs).

Definition pr_fields (p : Projection) : list FieldDescription := map (fun x => x.1.1) p.
Definition pr_exprs (p : Projection) : list Expr := map (fun x => x.1.2) p.
Definition pr_types (p : Projection) : list ColumnType := map snd p.

(** ** ORDER BY *)

(** [executor/src/exec.rs:1590-1593] SelectOrderKey *)
Inductive SelectOrderKey : Type :=
| KeyOutput (i : nat)
| KeySource (e : Expr).

(** [executor/src/exec.rs:1679-1700] order_output_exprs_equivalent *)
Definition order_output_exprs_equivalent (scope : Scope) (a b : Expr) : bool :=
  expr_eqb a b ||
  match a, b with
  | ColumnRef ta na, ColumnRef tb nb =>
      match resolve scope ta na, resolve scope tb nb with
      | Ok l, Ok r => Nat.eqb l r
      | _, _ => false
      end
  | _, _ => false
  end.

(** The loop of [output_label_index] from column [i] on. *)
Fixpoint label_loop (scope : Scope) (all : Projection) (name : string) (i : nat)
    (found : option nat) (p : Projection) : xresult (option nat) :=
  match p with
  | [] => Ok found
  | (f, e, _) :: p =>
      if bool_decide (f_name f = name) then
        match found with
        | Some prev =>
            prev_e ← panic_or (pr_exprs all !! prev);
            if order_output_exprs_equivalent scope prev_e e
            then label_loop scope all name (S i) found p
            else raise (EAmbiguousOrderBy name)
        | None => label_loop scope all name (S i) (Some i) p
        end
      else label_loop scope all name (S i) found p
  end.

(** [executor/src/exec.rs:1658-1677] output_label_index *)
Definition output_label_index (scope : Scope) (p : Projection) (name : string)
  : xresult (option nat) := label_loop scope p name 0 None p.

(** [Iterator::position] *)
Fixpoint position {A} (f : A -> bool) (l : list A) : option nat :=
  match l with
  | [] => None
  | x :: l => if f x then Some 0%nat else S <$> position f l
  end.

Definition not_in_select_list (pos : string) : ExecError :=
  EInvalidColumnReference ("ORDER BY position " +:+ pos +:+ " is not in select list").

(** [executor/src/exec.rs:1630-1654] resolve_select_order_key, an item that names no
    output column *)
Definition source_order_key (e : Expr) (scope : Scope) (p : Projection) (require_output : bool)
  : xresult SelectOrderKey :=
  if require_output then
    match position (fun x => order_output_exprs_equivalent scope x e) (pr_exprs p) with
    | Some i => Ok (KeyOutput i)
    | None =>
        _ ← match e with
            | ColumnRef (Some table) name => lift (resolve scope (Some table) name)
            | _ => Ok 0%nat
            end;
        raise (EInvalidColumnReference
                 "for SELECT DISTINCT, ORDER BY expressions must appear in select list")
    end
  else Ok (KeySource e).

(** [executor/src/exec.rs:1611-1656] resolve_select_order_key *)
Definition resolve_select_order_key (item : OrderItem) (scope : Scope) (p : Projection)
    (require_output : bool) : xresult SelectOrderKey :=
  let '(mkOrderItem e _) := item in
  match e with
  | IntLiteral s =>
      pos ← ok_or (parse_i32 s) (Raised (ESyntax "non-integer constant in ORDER BY"));
      if (pos <=? 0) || (Z.of_nat (length p) <? pos) then raise (not_in_select_list (z_to_string pos))
      else Ok (KeyOutput (Z.to_nat pos - 1))
  | ColumnRef None name =>
      i ← output_label_index scope p name;
      match i with
      | Some i => Ok (KeyOutput i)
      | None => source_order_key e scope p require_output
      end
  | _ => source_order_key e scope p require_output
  end.

(** [executor/src/exec.rs:1598-1609] resolve_select_order_keys *)
Definition resolve_select_order_keys (order_by : list OrderItem) (scope : Scope) (p : Projection)
    (require_output : bool) : xresult (list SelectOrderKey) :=
  mapR (fun item => resolve_select_order_key item scope p require_output) order_by.

Definition is_asc (o : OrderItem) : bool := let '(mkOrderItem _ asc) := o in asc.

(** [executor/src/exec.rs:1841-1872] order_cmp, one key *)
Definition key_cmp (asc : bool) (x y : Datum) : comparison :=
  match is_null x, is_null y with
  | true, true => Eq
  | true, false => if asc then Gt else Lt
  | false, true => if asc then Lt else Gt
  | false, false =>
      let base := match compare x y with Ok (Some o) => o | _ => Eq end in
      if asc then base else CompOpp base
  end.

(** [executor/src/exec.rs:1833-1876] order_cmp, on keys aligned to the items *)
Fixpoint order_cmp (a b : list Datum) (order_by : list OrderItem) : comparison :=
  match order_by, a, b with
  | o :: order_by, x :: a, y :: b =>
      match key_cmp (is_asc o) x y with
      | Eq => order_cmp a b order_by
      | c => c
      end
  | _, _, _ => Eq
  end.

(** Sorting rows by the keys computed for them. *)
Definition sort_keyed (order_by : list OrderItem) (keyed : list (list Datum * Row)) : list Row :=
  map snd (sort_by (fun a b => order_cmp a.1 b.1 order_by) keyed).

(** [executor/src/exec.rs:1551-1566] project_rows *)
Definition project_rows (out_exprs : list Expr) (scope : Scope) (rows : list Row) (ctx : EvalCtx)
  : xresult (list Row) :=
  mapR (fun row => mapR (fun e => eval e scope row ctx) out_exprs) rows.

(** The clauses of a SELECT that its rows go through. *)
Record RowClauses : Type := mkRowClauses {
  rc_distinct : bool;
  rc_order_by : list OrderItem;
  rc_limit : option Z;
  rc_offset : option Z
}.

(** [executor/src/exec.rs:1489-1497] project_rows_ordered, the sort keys of a row of the
    output *)
Definition output_keys (keys : list SelectOrderKey) (row : Row) : xresult (list Datum) :=
  mapR (fun k => match k with KeyOutput i => panic_or (row !! i) | KeySource _ => Err Panicked end) keys.

(** [executor/src/exec.rs:1514-1522] project_rows_ordered, the sort keys of a row of the
    source *)
Definition source_keys (keys : list SelectOrderKey) (out_exprs : list Expr) (scope : Scope)
    (ctx : EvalCtx) (row : Row) : xresult (list Datum) :=
  mapR (fun k => match k with
                 | KeyOutput i => e ← panic_or (out_exprs !! i); eval e scope row ctx
                 | KeySource e => eval e scope row ctx
                 end) keys.

(** [executor/src/exec.rs:1468-1530] project_rows_ordered *)
Definition project_rows_ordered (c : RowClauses) (scope : Scope) (p : Projection) (kept : list Row)
    (ctx : EvalCtx) : xresult (list Row) :=
  let ob := rc_order_by c in
  let out_exprs := pr_exprs p in
  order_keys ← resolve_select_order_keys ob scope p (rc_distinct c);
  if rc_distinct c then
    projected ← project_rows out_exprs scope kept ctx;
    let projected := dedup_on id [] projected in
    projected ←
      match ob with
      | [] => Ok projected
      | _ =>
          keyed ← mapR (fun r => keys ← output_keys order_keys r; Ok (keys, r)) projected;
          Ok (sort_keyed ob keyed)
      end;
    Ok (apply_offset_limit projected (rc_offset c) (rc_limit c))
  else
    kept ←
      match ob with
      | [] => Ok kept
      | _ =>
          keyed ← mapR (fun r => keys ← source_keys order_keys out_exprs scope ctx r; Ok (keys, r)) kept;
          Ok (sort_keyed ob keyed)
      end;
    project_rows out_exprs scope (apply_offset_limit kept (rc_offset c) (rc_limit c)) ctx.

(** ** Results *)

(** [executor/src/exec.rs:1821-1829] datum_to_cell *)
Definition datum_to_cell (d : Datum) (tz : TimeZone) : xresult (option Cell) :=
  if is_null d then Ok None
  else
    text ← panic_or (encode_text d tz);
    binary ← panic_or (encode_binary d);
    Ok (Some (mkCell text binary)).

(** [executor/src/exec.rs:1573-1584] rows_result *)
Definition rows_result (fields : list FieldDescription) (projected : list Row) (tz : TimeZone)
  : xresult QueryResult :=
  rows ← mapR (mapR (fun d => datum_to_cell d tz)) projected;
  Ok (QRows fields rows ("SELECT " +:+ z_to_string (Z.of_nat (length rows)))).

(** [executor/src/exec.rs:1538-1547] project_order_limit *)
Definition project_order_limit (projection : list SelectItem) (c : RowClauses) (scope : Scope)
    (kept : list Row) (ctx : EvalCtx) : xresult QueryResult :=
  p ← resolve_projection projection scope;
  rows ← project_rows_ordered c scope p kept ctx;
  rows_result (pr_fields p) rows (cx_time_zone ctx).

End Project.
