(* ===== verification/Join.v ===== *)
(** * Joins (executor/src/join.rs)

    Nested-loop joins of materialized relations, with USING and NATURAL merging
    their columns. *)
From Stdlib Require Import ZArith Lia Ascii.
From stdpp Require Import base list gmap strings.
From S2P Require Import Prelude Text Chars Keys Store Datum Float DateTimeBin ExtArith DateTime.
From S2P Require Import Calendar Numeric NumericFn Ops Cast Errors Catalog Scope Ast AggCall.
From S2P Require Import EvalOps Func DateTimeFn FormatFn Eval Wire Project.
Open Scope Z_scope.

(** [executor/src/join.rs:166-174] natural_common_columns *)
Definition natural_common_columns (left_ right_ : Scope) : list string :=
  foldl (fun out c =>
    if existsb (fun rc => bool_decide (b_name rc = b_name c)) right_ &&
       negb (bool_decide (b_name c ∈ out))
    then out ++ [b_name c] else out) [] left_.

(** The positions of a list, each with its element. *)
Definition enumerate {A} (l : list A) : list (nat * A) := zip (seq 0 (length l)) l.

(** The elements at the positions that are not in [skip]. *)
Definition remaining {A} (skip : list nat) (l : list A) : list A :=
  map snd (List.filter (fun p => negb (bool_decide (p.1 ∈ skip))) (enumerate l)).

Section Join.
Context `{ExtCal} `{MathLib} `{Unicode} `{!ExtPow}.

(** [executor/src/join.rs:17-20] Relation *)
Record Relation : Type := mkRelation { rel_scope : Scope; rel_rows : list Row }.

(** A qualifier of the right side that the left side has too. *)
Definition shared_qualifier (left_ right_ : Scope) : option string :=
  head (omap (fun c => q ← b_qualifier c; if existsb (has_qualifier q) left_ then Some q else None)
          right_).

Definition null_row (n : nat) : Row := replicate n DNull.

(** [executor/src/join.rs:75-98] join_relations, whether two rows match *)
Definition join_matches (pairs : list (nat * nat)) (on_pred : option Expr) (combined : Scope)
    (ctx : EvalCtx) (lrow rrow : Row) : xresult bool :=
  match pairs with
  | _ :: _ =>
      foldM (fun (ok : bool) (p : nat * nat) =>
        if ok then
          l ← panic_or (lrow !! p.1);
          r ← panic_or (rrow !! p.2);
          c ← ty (compare l r);
          Ok (bool_decide (c = Some Eq))
        else Ok false) true pairs
  | [] =>
      match on_pred with
      | None => Ok true
      | Some e =>
          v ← eval e combined (lrow ++ rrow) ctx;
          match v with
          | DBool b => Ok b
          | DNull => Ok false
          | _ => raise (ETypeMismatch "JOIN/ON condition must be boolean")
          end
      end
  end.

(** The rows of the right side that one row of the left side joins with, by their
    positions. *)
Definition left_matches (matches : Row -> Row -> xresult bool) (l : Row) (right_ : list Row)
  : xresult (list (nat * Row)) :=
  foldM (fun acc p => b ← matches l p.2; Ok (if b : bool then acc ++ [p] else acc)) []
    (enumerate right_).

(** [executor/src/join.rs:100-143] join_relations, the rows of each kind of join *)
Definition join_rows (matches : Row -> Row -> xresult bool) (kind : JoinKind) (lw rw : nat)
    (left_ right_ : list Row) : xresult (list Row) :=
  let want_left := bool_decide (kind = JLeft \/ kind = JFull) in
  let want_right := bool_decide (kind = JRight \/ kind = JFull) in
  per_left ← mapR (fun l =>
    ms ← left_matches matches l right_;
    Ok (l, ms)) left_;
  let joined :=
    flat_map (fun '(l, ms) =>
      match ms with
      | [] => if want_left then [l ++ null_row rw] else []
      | _ => map (fun p => l ++ p.2) ms
      end) per_left in
  let matched := flat_map (fun '(_, ms) => map fst ms) per_left in
  Ok (joined ++
      if want_right then
        map (fun r => null_row lw ++ r) (remaining matched right_)
      else []).

(** [executor/src/join.rs:180-247] coalesce_join_columns *)
Definition coalesce_join_columns (left_ right_ : Scope) (pairs : list (nat * nat))
    (join_names : list string) (rows : list Row) : xresult Relation :=
  let lw := scope_width left_ in
  let left_join := map fst pairs in
  let right_join := map snd pairs in
  merged ← mapR (fun p : (nat * nat) * string =>
    t ← panic_or (ty_at left_ p.1.1); Ok (mkBinding None p.2 t)) (zip pairs join_names);
  new_rows ← mapR (fun row =>
    keys ← mapR (fun p : nat * nat =>
      lv ← panic_or (row !! p.1);
      if is_null lv then panic_or (row !! (lw + p.2)%nat) else Ok lv) pairs;
    Ok (keys ++ remaining left_join (take lw row) ++ remaining right_join (drop lw row))) rows;
  Ok (mkRelation (merged ++ remaining left_join left_ ++ remaining right_join right_) new_rows).

(** [executor/src/join.rs:26-161] join_relations *)
Definition join_relations (left_ right_ : Relation) (kind : JoinKind) (constraint : JoinConstraint)
    (ctx : EvalCtx) : xresult Relation :=
  match shared_qualifier (rel_scope left_) (rel_scope right_) with
  | Some q => raise (EDuplicateAlias q)
  | None =>
      let ls := rel_scope left_ in
      let rs := rel_scope right_ in
      let combined := ls ++ rs in
      let join_cols :=
        match constraint with
        | JoinUsing cols => cols
        | JoinNatural => natural_common_columns ls rs
        | JoinOn _ | JoinNone => []
        end in
      pairs ← mapR (fun jc =>
        li ← lift (resolve ls None jc);
        ri ← lift (resolve rs None jc);
        Ok (li, ri)) join_cols;
      let on_pred := match constraint with JoinOn e => Some e | _ => None end in
      rows ← join_rows (join_matches pairs on_pred combined ctx) kind (scope_width ls)
               (scope_width rs) (rel_rows left_) (rel_rows right_);
      match pairs with
      | [] => Ok (mkRelation combined rows)
      | _ => coalesce_join_columns ls rs pairs join_cols rows
      end
  end.

End Join.
