(* ===== verification/Aggregate.v ===== *)
(** * Grouping and aggregation (executor/src/agg.rs)

    The aggregates of a query, the check of its expressions against GROUP BY, the
    accumulators, and the fold of the rows into groups. A [HashSet] or [HashMap]
    keyed by values is a list searched by their equality; groups keep the order
    of their first rows. *)
From Stdlib Require Import ZArith Lia Ascii.
From stdpp Require Import base list gmap strings.
From S2P Require Import Prelude Text Chars Keys Store Datum Float DateTimeBin ExtArith DateTime.
From S2P Require Import Calendar Numeric NumericFn Ops Cast Errors Catalog Scope Ast AggCall.
From S2P Require Import EvalOps Func DateTimeFn FormatFn Eval Wire Project.
Open Scope Z_scope.

(** [executor/src/agg.rs:29-29] MAX_GROUPED_DEPTH *)
Definition MAX_GROUPED_DEPTH : nat := 150.

(** [executor/src/agg.rs:416-420] ungrouped_column *)
Definition ungrouped_column (name : string) : ExecError :=
  EGrouping ("column " +:+ quoted name +:+
             " must appear in the GROUP BY clause or be used in an aggregate function").

Section Aggregate.
Context `{ExtCal} `{MathLib} `{Unicode} `{!ExtPow}.

(** [executor/src/agg.rs:197-202] AggSpec *)
Record AggSpec : Type := mkSpec {
  sp_func : AggFunc;
  sp_arg : option Expr;
  sp_arg_type : option ColumnType;
  sp_distinct : bool
}.

Definition spec_eqb (a b : AggSpec) : bool :=
  eq_b (sp_func a) (sp_func b) && option_eqb expr_eqb (sp_arg a) (sp_arg b) &&
  eq_b (sp_arg_type a) (sp_arg_type b) && eq_b (sp_distinct a) (sp_distinct b).

(** [executor/src/agg.rs:206-251] spec_of *)
Definition spec_of (fc : FuncCall) (scope : Scope) : xresult AggSpec :=
  func ← ok_or (aggregate_func (fc_name fc)) (Raised (undefined_function (fc_name fc)));
  match func with
  | AgCount =>
      match fc_args fc with
      | ArgStar => Ok (mkSpec func None None (fc_distinct fc))
      | ArgExprs [a] =>
          _ ← lift (reject_nested_aggregate a);
          t ← infer_type a scope;
          Ok (mkSpec func (Some a) (Some t) (fc_distinct fc))
      | _ => raise (undefined_function "count")
      end
  | _ =>
      arg ← lift (single_value_arg fc);
      _ ← lift (reject_nested_aggregate arg);
      t ← infer_type arg scope;
      if match func with AgSum | AgAvg => true | _ => false end && negb (is_number_type t)
      then raise (undefined_for_arg (fc_name fc) t)
      else Ok (mkSpec func (Some arg) (Some t) (fc_distinct fc))
  end.

Definition row_function (name : string) : bool :=
  is_scalar name || is_datetime_func name || is_format_func name.

(** [executor/src/agg.rs:264-335] collect_specs *)
Fixpoint collect_specs (scope : Scope) (specs : list AggSpec) (e : Expr) {struct e} : xresult (list AggSpec) :=
  match e with
  | Func name distinct args =>
      if is_aggregate name then
        spec ← spec_of (mkFuncCall name distinct args) scope;
        Ok (if existsb (spec_eqb spec) specs then specs else specs ++ [spec])
      else if row_function name then
        collect_args scope specs args
      else raise (undefined_function name)
  | Unary _ x | IsNull x _ | Cast x _ => collect_specs scope specs x
  | Binary _ l r | Like l r _ _ => specs ← collect_specs scope specs l; collect_specs scope specs r
  | InList x l _ =>
      specs ← collect_specs scope specs x;
      (fix go specs l {struct l} := match l with
                         | [] => Ok specs
                         | a :: l => specs ← collect_specs scope specs a; go specs l
                         end) specs l
  | Between x lo hi _ =>
      specs ← collect_specs scope specs x;
      specs ← collect_specs scope specs lo;
      collect_specs scope specs hi
  | Case operand whens else_result =>
      specs ← match operand with Some o => collect_specs scope specs o | None => Ok specs end;
      specs ← (fix go specs l {struct l} := match l with
                                 | [] => Ok specs
                                 | (c, r) :: l =>
                                     specs ← collect_specs scope specs c;
                                     specs ← collect_specs scope specs r;
                                     go specs l
                                 end) specs whens;
      match else_result with Some e => collect_specs scope specs e | None => Ok specs end
  | _ => Ok specs
  end
with collect_args (scope : Scope) (specs : list AggSpec) (args : FuncArgs) {struct args} : xresult (list AggSpec) :=
  match args with
  | ArgStar => Ok specs
  | ArgExprs l =>
      (fix go specs l {struct l} := match l with
                         | [] => Ok specs
                         | a :: l => specs ← collect_specs scope specs a; go specs l
                         end) specs l
  end.

(** [executor/src/agg.rs:340-414] validate_grouped *)
Fixpoint validate_grouped (group_by : list Expr) (e : Expr) : result ExecError () :=
  if match e with Func name _ _ => is_aggregate name | _ => false end then Ok ()
  else if existsb (fun g => expr_eqb g e) group_by then Ok ()
  else
    match e with
    | ColumnRef _ name => Err (ungrouped_column name)
    | Unary _ x | IsNull x _ | Cast x _ => validate_grouped group_by x
    | Binary _ l r | Like l r _ _ => _ ← validate_grouped group_by l; validate_grouped group_by r
    | Func name _ args =>
        if row_function name then validate_args group_by args
        else Err (undefined_function name)
    | InList x l _ =>
        _ ← validate_grouped group_by x;
        (fix go l := match l with
                     | [] => Ok ()
                     | a :: l => _ ← validate_grouped group_by a; go l
                     end) l
    | Between x lo hi _ =>
        _ ← validate_grouped group_by x;
        _ ← validate_grouped group_by lo;
        validate_grouped group_by hi
    | Case operand whens else_result =>
        _ ← match operand with Some o => validate_grouped group_by o | None => Ok () end;
        _ ← (fix go l := match l with
                         | [] => Ok ()
                         | (c, r) :: l =>
                             _ ← validate_grouped group_by c; _ ← validate_grouped group_by r; go l
                         end) whens;
        match else_result with Some e => validate_grouped group_by e | None => Ok () end
    | _ => Ok ()
    end
with validate_args (group_by : list Expr) (args : FuncArgs) : result ExecError () :=
  match args with
  | ArgStar => Ok ()
  | ArgExprs l =>
      (fix go l := match l with
                   | [] => Ok ()
                   | a :: l => _ ← validate_grouped group_by a; go l
                   end) l
  end.

(** [executor/src/agg.rs:444-580] eval_grouped_depth, by the levels left *)
Fixpoint eval_grouped_depth (levels : nat) (scope : Scope) (group_by : list Expr) (key : Row)
    (specs : list AggSpec) (results : list Datum) (ctx : EvalCtx) (e : Expr) : xresult Datum :=
  match levels with
  | O => raise EStackDepthExceeded
  | S levels =>
      let child := eval_grouped_depth levels scope group_by key specs results ctx in
      let grouped :=
        match position (fun g => expr_eqb g e) group_by with
        | Some i => panic_or (key !! i)
        | None =>
            match e with
            | ColumnRef _ name => raise (ungrouped_column name)
            | Func name _ _ =>
                if row_function name then eval_step ctx child scope [] e
                else raise (undefined_function name)
            | _ => eval_step ctx child scope [] e
            end
        end in
      match e with
      | Func name distinct args =>
          if is_aggregate name then
            spec ← spec_of (mkFuncCall name distinct args) scope;
            i ← ok_or (position (fun s => spec_eqb s spec) specs)
                  (Raised (EGrouping "aggregate not resolved"));
            panic_or (results !! i)
          else grouped
      | _ => grouped
      end
  end.

(** [executor/src/agg.rs:427-437] eval_grouped *)
Definition eval_grouped (e : Expr) (scope : Scope) (group_by : list Expr) (key : Row)
    (specs : list AggSpec) (results : list Datum) (ctx : EvalCtx) : xresult Datum :=
  eval_grouped_depth (S MAX_GROUPED_DEPTH) scope group_by key specs results ctx e.

(** ** Accumulators *)

(** [executor/src/agg.rs:586-621] Acc: each with the values seen, when DISTINCT *)
Inductive Acc : Type :=
| AccCount (n : Z)
| AccSumI (acc : option Z)
| AccSumF (acc : Z) (any : bool)
| AccSumN (acc : option Datum)
| AccMinMax (best : option Datum)
| AccAvg (sum : Z) (n : Z)
| AccAvgN (sum : option Datum) (n : Z).

Definition AccSeen : Type := Acc * option (list Datum).

(** [executor/src/agg.rs:624-655] new *)
Definition acc_new (spec : AggSpec) : AccSeen :=
  (match sp_func spec with
   | AgCount => AccCount 0
   | AgSum =>
       match sp_arg_type spec with
       | Some TFloat8 => AccSumF 0 false
       | Some (TNumeric _) => AccSumN None
       | _ => AccSumI None
       end
   | AgAvg => if eq_b (sp_arg_type spec) (Some TFloat8) then AccAvg 0 0 else AccAvgN None 0
   | AgMin | AgMax => AccMinMax None
   end,
   if sp_distinct spec then Some [] else None).

(** [executor/src/agg.rs:794-800] as_i64 *)
Definition agg_as_i64 (d : Datum) : option Z :=
  match d with DInt4 n | DInt8 n => Some n | _ => None end.

(** [executor/src/agg.rs:802-809] as_f64 *)
Definition agg_as_f64 (d : Datum) : option Z :=
  match d with
  | DInt4 n | DInt8 n => Some (f64_of_Z n)
  | DFloat8 f => Some f
  | _ => None
  end.

Definition bad_argument (name : string) (v : Datum) : fault ExecError :=
  Raised (undefined_for_arg name (default TText (column_type v))).

(** [executor/src/agg.rs:701-758] fold_row, a value that counts *)
Definition fold_value (func : AggFunc) (acc : Acc) (v : Datum) (ctx : EvalCtx) : xresult Acc :=
  match acc with
  | AccCount n => Ok (AccCount (wrap_signed 64 (n + 1)))
  | AccSumI acc =>
      add ← ok_or (agg_as_i64 v) (bad_argument "sum" v);
      next ← match acc with
             | Some cur => ok_or (checked_i64 (cur + add)) (Raised (EType Overflow))
             | None => Ok add
             end;
      Ok (AccSumI (Some next))
  | AccSumF acc _ =>
      x ← ok_or (agg_as_f64 v) (bad_argument "sum" v);
      Ok (AccSumF (f64_add acc x) true)
  | AccSumN acc =>
      next ← match acc with None => Ok v | Some cur => tyf (add cur v) end;
      Ok (AccSumN (Some next))
  | AccAvgN sum n =>
      vn ← tyf (cast v (TNumeric None) (cx_time_zone ctx));
      next ← match sum with None => Ok vn | Some cur => tyf (add cur vn) end;
      Ok (AccAvgN (Some next) (wrap_signed 64 (n + 1)))
  | AccAvg sum n =>
      x ← ok_or (agg_as_f64 v) (bad_argument "avg" v);
      Ok (AccAvg (f64_add sum x) (wrap_signed 64 (n + 1)))
  | AccMinMax best =>
      take_it ← match best with
             | None => Ok true
             | Some cur =>
                 ord ← ty (compare v cur);
                 Ok match func, ord with
                    | AgMin, Some Lt | AgMax, Some Gt => true
                    | _, _ => false
                    end
             end;
      Ok (AccMinMax (if take_it : bool then Some v else best))
  end.

(** [executor/src/agg.rs:670-760] fold_row *)
Definition fold_row (spec : AggSpec) (scope : Scope) (row : Row) (ctx : EvalCtx) (a : AccSeen)
  : xresult AccSeen :=
  let '(acc, seen) := a in
  match sp_func spec, sp_arg spec with
  | AgCount, None =>
      Ok (match acc with AccCount n => AccCount (wrap_signed 64 (n + 1)) | acc => acc end, seen)
  | _, None => Err Panicked
  | func, Some arg =>
      v ← eval arg scope row ctx;
      if is_null v then Ok a
      else
        match seen with
        | Some vs =>
            if existsb (datum_eqb v) vs then Ok a
            else acc ← fold_value func acc v ctx; Ok (acc, Some (v :: vs))
        | None => acc ← fold_value func acc v ctx; Ok (acc, None)
        end
  end.

(** [executor/src/agg.rs:762-791] finish *)
Definition acc_finish (acc : Acc) : xresult Datum :=
  match acc with
  | AccCount n => Ok (DInt8 n)
  | AccSumI acc => Ok (match acc with Some n => DInt8 n | None => DNull end)
  | AccSumF acc any => Ok (if any : bool then DFloat8 acc else DNull)
  | AccSumN acc => Ok (default DNull acc)
  | AccMinMax best => Ok (default DNull best)
  | AccAvg sum n => Ok (if n =? 0 then DNull else DFloat8 (f64_div sum (f64_of_Z n)))
  | AccAvgN sum n =>
      match sum with
      | Some s => if 0 <? n then ty (div s (DInt8 n)) else Ok DNull
      | None => Ok DNull
      end
  end.

(** ** Groups *)

Definition Group : Type := Row * list AccSeen.

(** Folding a row into the accumulators of its group. *)
Definition fold_group (specs : list AggSpec) (scope : Scope) (row : Row) (ctx : EvalCtx)
    (accs : list AccSeen) : xresult (list AccSeen) :=
  mapR (fun p : AggSpec * AccSeen => fold_row p.1 scope row ctx p.2) (zip specs accs).

(** The group of a key, updated, or a new one behind the others. *)
Fixpoint update_group (specs : list AggSpec) (scope : Scope) (row : Row) (ctx : EvalCtx) (key : Row)
    (groups : list Group) : xresult (list Group) :=
  match groups with
  | [] => accs ← fold_group specs scope row ctx (map acc_new specs); Ok [(key, accs)]
  | (k, accs) :: groups =>
      if row_eqb k key then accs ← fold_group specs scope row ctx accs; Ok ((k, accs) :: groups)
      else groups ← update_group specs scope row ctx key groups; Ok ((k, accs) :: groups)
  end.

(** [executor/src/agg.rs:874-902] aggregate_rows, the fold of the rows into groups *)
Definition fold_groups (group_by : list Expr) (specs : list AggSpec) (scope : Scope) (ctx : EvalCtx)
    (rows : list Row) : xresult (list Group) :=
  groups ← foldM (fun groups row =>
    key ← mapR (fun g => eval g scope row ctx) group_by;
    update_group specs scope row ctx key groups) [] rows;
  Ok (match group_by, groups with
      | [], [] => [([], map acc_new specs)]
      | _, _ => groups
      end).

(** [executor/src/agg.rs:904-941] aggregate_rows, one group: its keys for ORDER BY
    and its output row, unless HAVING drops it *)
Definition finish_group (s : SelectStmt) (scope : Scope) (out_exprs : list Expr)
    (order_keys : list SelectOrderKey) (specs : list AggSpec) (ctx : EvalCtx) (g : Group)
  : xresult (option (Row * Row)) :=
  let '(mkSelectStmt _ _ _ _ group_by having _ _ _ _) := s in
  let '(key, accs) := g in
  results ← mapR (fun a => acc_finish a.1) accs;
  let ev e := eval_grouped e scope group_by key specs results ctx in
  keep ← match having with
         | None => Ok true
         | Some h =>
             v ← ev h;
             match v with
             | DBool b => Ok b
             | DNull => Ok false
             | _ => raise (ETypeMismatch "argument of HAVING must be type boolean")
             end
         end;
  if keep : bool then
    projected ← mapR ev out_exprs;
    sort_keys ← mapR (fun k => match k with
                               | KeyOutput i => panic_or (projected !! i)
                               | KeySource e => ev e
                               end) order_keys;
    Ok (Some (sort_keys, projected))
  else Ok None.

(** [executor/src/agg.rs:832-950] aggregate_rows, up to the sort: the keys for ORDER BY
    and the output row of each group that HAVING keeps, DISTINCT applied *)
Definition group_output (s : SelectStmt) (scope : Scope) (rows : list Row) (ctx : EvalCtx)
  : xresult (list (Row * Row)) :=
  let '(mkSelectStmt projection _ _ distinct group_by having order_by _ _ _) := s in
  p ← resolve_projection projection scope;
  let out_exprs := pr_exprs p in
  order_keys ← resolve_select_order_keys order_by scope p distinct;
  _ ← (if existsb contains_aggregate group_by
       then raise (EGrouping "aggregate functions are not allowed in GROUP BY") else Ok ());
  let sources := omap (fun k => match k with KeySource e => Some e | KeyOutput _ => None end) order_keys in
  specs ← foldM (fun specs e =>
    specs ← collect_specs scope specs e;
    _ ← lift (validate_grouped group_by e);
    Ok specs) [] (out_exprs ++ option_list having ++ sources);
  groups ← fold_groups group_by specs scope ctx rows;
  out ← mapR (finish_group s scope out_exprs order_keys specs ctx) groups;
  let out := omap id out in
  Ok (if distinct then dedup_on snd [] out else out).

(** [executor/src/agg.rs:832-958] aggregate_rows *)
Definition aggregate_rows (s : SelectStmt) (scope : Scope) (rows : list Row) (ctx : EvalCtx)
  : xresult (list Row) :=
  let '(mkSelectStmt _ _ _ _ _ _ order_by limit offset _) := s in
  out ← group_output s scope rows ctx;
  let out := match order_by with
             | [] => out
             | _ => sort_by (fun a b => order_cmp a.1 b.1 order_by) out
             end in
  Ok (map snd (apply_offset_limit out offset limit)).

(** [executor/src/agg.rs:817-826] execute_aggregate *)
Definition execute_aggregate (s : SelectStmt) (scope : Scope) (rows : list Row) (ctx : EvalCtx)
  : xresult QueryResult :=
  let '(mkSelectStmt projection _ _ _ _ _ _ _ _ _) := s in
  p ← resolve_projection projection scope;
  out_rows ← aggregate_rows s scope rows ctx;
  rows_result (pr_fields p) out_rows (cx_time_zone ctx).

End Aggregate.
