(* ===== verification/Values.v ===== *)
(** * VALUES lists, and relations under a name (executor/src/values.rs, cte.rs)

    The schema and rows of a VALUES list, ORDER BY over a finished relation, and
    the renaming of the columns of derived tables and common table expressions. *)
From Stdlib Require Import ZArith Lia Ascii.
From stdpp Require Import base list gmap strings.
From S2P Require Import Prelude Text Chars Keys Store Datum Float DateTimeBin ExtArith DateTime.
From S2P Require Import Calendar Numeric NumericFn Ops Cast Errors Catalog Scope Ast AggCall.
From S2P Require Import EvalOps Func DateTimeFn FormatFn Eval Wire Project Join.
Open Scope Z_scope.

(** [executor/src/values.rs:9-13] ValuesSchema *)
Record ValuesSchema : Type := mkValuesSchema {
  vs_names : list string;
  vs_types : list ColumnType;
  vs_unknown : list bool
}.

(** [executor/src/values.rs:201-213] unify_values_col *)
Definition unify_values_col (lt : ColumnType) (lunk : bool) (rt : ColumnType) (runk : bool)
  : result ExecError (ColumnType * bool) :=
  match lunk, runk with
  | true, true => Ok (lt, true)
  | true, false => Ok (rt, false)
  | false, true => Ok (lt, false)
  | false, false => t ← unify_types lt rt; Ok (t, false)
  end.

(** [executor/src/values.rs:133-146] scope_from_schema *)
Definition scope_from_schema (schema : ValuesSchema) (qualifier : option string) : Scope :=
  map (fun p => mkBinding qualifier p.1 p.2) (zip (vs_names schema) (vs_types schema)).

Section Values.
Context `{ExtCal} `{MathLib} `{Unicode} `{!ExtPow}.

(** [executor/src/values.rs:193-195] is_unknown_literal; setops.rs has the same *)
Definition is_unknown_literal (e : Expr) : bool :=
  match e with NullLiteral | StringLiteral _ => true | _ => false end.

(** [executor/src/values.rs:197-199] infer_values_expr_type *)
Definition infer_values_expr_type (e : Expr) : xresult ColumnType := infer_type e scope_empty.

(** One row folded into the types of the columns. *)
Definition unify_values_row (width : nat) (cols : list (ColumnType * bool)) (row : list Expr)
  : xresult (list (ColumnType * bool)) :=
  if negb (Nat.eqb (length row) width) then raise EValuesColumnCount
  else
    mapR (fun p : (ColumnType * bool) * Expr =>
      ty ← infer_values_expr_type p.2;
      lift (unify_values_col p.1.1 p.1.2 ty (is_unknown_literal p.2))) (zip cols row).

(** [executor/src/values.rs:165-191] analyze_values *)
Definition analyze_values (rows : list (list Expr)) : xresult ValuesSchema :=
  let width := match rows with [] => 0%nat | row :: _ => length row end in
  cols ← foldM (unify_values_row width) (replicate width (TText, true)) rows;
  Ok (mkValuesSchema (map (fun n => "column" +:+ z_to_string (Z.of_nat n)) (seq 1 width))
        (map (fun c : ColumnType * bool => if c.2 then TText else c.1) cols)
        (map snd cols)).

(** [executor/src/values.rs:15-17] describe_values *)
Definition describe_values (rows : list (list Expr)) : xresult ValuesSchema := analyze_values rows.

(** [executor/src/values.rs:68-86] values_to_relation_with_schema *)
Definition values_to_relation_with_schema (rows : list (list Expr)) (ctx : EvalCtx)
    (schema : ValuesSchema) : xresult Relation :=
  rows ← mapR (fun row =>
    mapR (fun p : Expr * ColumnType =>
      value ← eval p.1 scope_empty [] ctx;
      tyf (cast value p.2 (cx_time_zone ctx))) (zip row (vs_types schema))) rows;
  Ok (mkRelation (scope_from_schema schema None) rows).

(** [executor/src/values.rs:19-25] values_to_relation *)
Definition values_to_relation (rows : list (list Expr)) (ctx : EvalCtx) : xresult Relation :=
  schema ← analyze_values rows;
  values_to_relation_with_schema rows ctx schema.

(** [executor/src/values.rs:148-163] order_key; setops.rs has the same *)
Definition order_key (e : Expr) (scope : Scope) (row : Row) (ctx : EvalCtx) : xresult Datum :=
  match e with
  | IntLiteral s =>
      pos ← ok_or (parse_usize s) (Raised (not_in_select_list s));
      if (pos =? 0) || (Z.of_nat (scope_width scope) <? pos)
      then raise (not_in_select_list (z_to_string pos))
      else panic_or (row !! (Z.to_nat pos - 1)%nat)
  | _ => eval e scope row ctx
  end.

(** [executor/src/values.rs:95-106] apply_query_order, sorting the rows of a finished
    relation, then OFFSET and LIMIT. *)
Definition order_rows (scope : Scope) (rows : list Row) (order_by : list OrderItem)
    (offset limit : option Z) (ctx : EvalCtx) : xresult (list Row) :=
  rows ←
    match order_by with
    | [] => Ok rows
    | _ =>
        keyed ← mapR (fun row =>
          keys ← mapR (fun o => let '(mkOrderItem e _) := o in order_key e scope row ctx) order_by;
          Ok (keys, row)) rows;
        Ok (sort_keyed order_by keyed)
    end;
  Ok (apply_offset_limit rows offset limit).

(** [executor/src/values.rs:88-109] apply_query_order *)
Definition apply_query_order (rel : Relation) (order_by : list OrderItem) (offset limit : option Z)
    (ctx : EvalCtx) : xresult Relation :=
  rows ← order_rows (rel_scope rel) (rel_rows rel) order_by offset limit ctx;
  Ok (mkRelation (rel_scope rel) rows).

Definition requalify (alias : string) (scope : Scope) : Scope :=
  map (fun c => mkBinding (Some alias) (b_name c) (b_ty c)) scope.

(** [executor/src/values.rs:111-131] requalify_derived *)
Definition requalify_derived (rel : Relation) (alias : string) (columns : option (list string))
  : result ExecError Relation :=
  let scope := rel_scope rel in
  scope ←
    match columns with
    | Some names =>
        if negb (Nat.eqb (length names) (scope_width scope)) then
          Err (EDerivedColumnAliasCount (Z.of_nat (scope_width scope)) (Z.of_nat (length names)))
        else Ok (map (fun p : ColumnBinding * string =>
                   mkBinding (b_qualifier p.1) p.2 (b_ty p.1)) (zip scope names))
    | None => Ok scope
    end;
  Ok (mkRelation (requalify alias scope) (rel_rows rel)).

(** ** Common table expressions *)

(** [executor/src/cte.rs:12-14] CteContext *)
Definition CteContext : Type := gmap string Relation.

(** [executor/src/cte.rs:34-41] reject_recursive *)
Definition reject_recursive (w : WithClause) : result ExecError () :=
  let '(mkWithClause recursive _) := w in
  if recursive then Err (EUnsupported "recursive CTEs are not supported yet") else Ok ().

(** [executor/src/cte.rs:43-49] requalify_cte *)
Definition requalify_cte (rel : Relation) (alias : string) : Relation :=
  mkRelation (requalify alias (rel_scope rel)) (rel_rows rel).

(** [executor/src/cte.rs:51-57] apply_cte_column_aliases *)
Definition apply_cte_column_aliases (rel : Relation) (name : string) (columns : option (list string))
  : result ExecError Relation := requalify_derived rel name columns.

(** [executor/src/exec.rs:1326-1333] reject_nested_relation_locking *)
Definition reject_nested_relation_locking (locking : option RowLockStrength) : result ExecError () :=
  match locking with
  | Some _ => Err (EUnsupported "FOR UPDATE/SHARE is not supported in CTEs or derived tables")
  | None => Ok ()
  end.

End Values.
