(* ===== verification/SetOps.v ===== *)
(** * Set operations (executor/src/setops.rs)

    UNION, INTERSECT and EXCEPT on rows: the unification of column types, and
    the multiset semantics of each operator. A [HashMap] from rows to counts is
    the function that counts; a [HashSet] of rows is a list of them. *)
From Stdlib Require Import ZArith Lia Ascii.
From stdpp Require Import base list gmap strings.
From S2P Require Import Prelude Text Chars Keys Store Datum Float DateTimeBin ExtModel ExtArith DateTime.
From S2P Require Import Calendar Numeric NumericFn Ops Cast Errors Catalog Scope Ast AggCall.
From S2P Require Import EvalOps Func DateTimeFn FormatFn Eval Wire Project Join.
Open Scope Z_scope.

(** [executor/src/setops.rs:25-25] MAX_SETOP_DEPTH *)
Definition MAX_SETOP_DEPTH : nat := 150.

(** [executor/src/setops.rs:33-37] ResolvedCol *)
Record ResolvedCol : Type := mkCol { rcol_name : string; rcol_ty : ColumnType; rcol_unknown : bool }.

(** [executor/src/setops.rs:53-67] unify_col *)
Definition unify_col (lt : ColumnType) (lunk : bool) (rt : ColumnType) (runk : bool)
  : result ExecError (ColumnType * bool) :=
  match lunk, runk with
  | true, true => Ok (lt, true)
  | true, false => Ok (rt, false)
  | false, true => Ok (lt, false)
  | false, false => t ← unify_types lt rt; Ok (t, false)
  end.

(** [executor/src/setops.rs:167-169] output_type *)
Definition output_type (c : ResolvedCol) : ColumnType := if rcol_unknown c then TText else rcol_ty c.

(** [executor/src/setops.rs:139-163] resolve_set_columns, the columns of an operation
    from those of its sides *)
Definition unify_columns (op : SetOp) (l r : list ResolvedCol) : result ExecError (list ResolvedCol) :=
  if negb (Nat.eqb (length l) (length r)) then
    Err (ESetOpColumnCount op (Z.of_nat (length l)) (Z.of_nat (length r)))
  else
    mapR (fun p : ResolvedCol * ResolvedCol =>
      u ← unify_col (rcol_ty p.1) (rcol_unknown p.1) (rcol_ty p.2) (rcol_unknown p.2);
      Ok (mkCol (rcol_name p.1) u.1 u.2)) (zip l r).

Section SetOps.
Context `{ExtCal} `{MathLib} `{Unicode} `{!ExtPow}.

(** [executor/src/setops.rs:358-377] coerce_rows *)
Definition coerce_rows (rows : list Row) (scope : Scope) (tys : list ColumnType) (ctx : EvalCtx)
  : xresult (list Row) :=
  mapR (fun row =>
    mapR (fun p : nat * Datum =>
      from ← panic_or (ty_at scope p.1);
      to ← panic_or (tys !! p.1);
      if bool_decide (from = to) || is_null p.2 then Ok p.2
      else tyf (cast p.2 to (cx_time_zone ctx))) (enumerate row)) rows.

(** [executor/src/setops.rs:380-389] dedup_keep_order *)
Definition dedup_keep_order (rows : list Row) : list Row := dedup_on id [] rows.

(** [executor/src/setops.rs:392-398] counts, and a lookup in it *)
Definition row_count (rows : list Row) (row : Row) : nat :=
  length (List.filter (fun r => row_eqb row r) rows).

(** [executor/src/setops.rs:402-421] intersect *)
Definition intersect (lrows rrows : list Row) (all : bool) : list Row :=
  flat_map (fun row =>
    let rcount := row_count rrows row in
    if Nat.eqb rcount 0 then []
    else replicate (if all then Nat.min (row_count lrows row) rcount else 1%nat) row)
    (dedup_keep_order lrows).

(** [executor/src/setops.rs:425-447] except *)
Definition except (lrows rrows : list Row) (all : bool) : list Row :=
  flat_map (fun row =>
    let rcount := row_count rrows row in
    replicate (if all then (row_count lrows row - rcount)%nat
               else if Nat.eqb rcount 0 then 1%nat else 0%nat) row)
    (dedup_keep_order lrows).

(** [executor/src/setops.rs:336-352] combine_rows *)
Definition combine_rows (op : SetOp) (all : bool) (lrows rrows : list Row) : list Row :=
  match op with
  | Union => if all then lrows ++ rrows else dedup_keep_order (lrows ++ rrows)
  | Intersect => intersect lrows rrows all
  | Except => except lrows rrows all
  end.

End SetOps.

(** ** Rows as multisets *)

Section RowSets.
Context `{Ext} `{!ExtLaws}.

Lemma row_eqb_refl (r : Row) : row_eqb r r = true.
Proof. induction r; simpl; [done|]. by rewrite datum_eqb_refl. Qed.

Lemma row_eqb_sym (a b : Row) : row_eqb a b = true -> row_eqb b a = true.
Proof.
  revert b; induction a as [|x a IH]; intros [|y b]; simpl; try done.
  rewrite !andb_true_iff. intros [Hx Ha]. split; [by apply datum_eqb_sym|by apply IH].
Qed.

Lemma row_eqb_trans (a b c : Row) : row_eqb a b = true -> row_eqb b c = true -> row_eqb a c = true.
Proof.
  revert b c; induction a as [|x a IH]; intros [|y b] [|z c]; simpl; try done.
  rewrite !andb_true_iff. intros [? ?] [? ?]. split; [by eapply datum_eqb_trans|by eapply IH].
Qed.

(** Equal rows are equal to the same rows. *)
Lemma row_eqb_congr (a b c : Row) : row_eqb a b = true -> row_eqb c a = row_eqb c b.
Proof.
  intros E. destruct (row_eqb c a) eqn:Ea, (row_eqb c b) eqn:Eb; try done.
  - by rewrite (row_eqb_trans _ _ _ Ea E) in Eb.
  - by rewrite (row_eqb_trans _ _ _ Eb (row_eqb_sym _ _ E)) in Ea.
Qed.

Lemma row_eqb_comm (a b : Row) : row_eqb a b = row_eqb b a.
Proof.
  destruct (row_eqb a b) eqn:E, (row_eqb b a) eqn:E'; try done.
  - by rewrite (row_eqb_sym _ _ E) in E'.
  - by rewrite (row_eqb_sym _ _ E') in E.
Qed.

Lemma row_count_congr rows a b : row_eqb a b = true -> row_count rows a = row_count rows b.
Proof.
  intros E. unfold row_count. f_equal. induction rows as [|r rows IH]; simpl; [done|].
  rewrite (row_eqb_comm a r), (row_eqb_comm b r), (row_eqb_congr a b r E). by rewrite IH.
Qed.

Lemma row_count_app l r row : row_count (l ++ r) row = (row_count l row + row_count r row)%nat.
Proof. unfold row_count. by rewrite List.filter_app, length_app. Qed.

Lemma row_count_cons x l row :
  row_count (x :: l) row = ((if row_eqb row x then 1 else 0) + row_count l row)%nat.
Proof. unfold row_count; simpl. by destruct (row_eqb row x). Qed.

Lemma row_count_replicate n x row :
  row_count (replicate n x) row = if row_eqb row x then n else 0%nat.
Proof.
  induction n; simpl; [by destruct (row_eqb row x)|]. rewrite row_count_cons, IHn.
  by destruct (row_eqb row x).
Qed.

(** What the occurrences of a row add up to when every element of a list becomes a
    number of copies that depends on the element's value only. *)
Lemma row_count_flat_map (n : Row -> nat) l row :
  (forall a b, row_eqb a b = true -> n a = n b) ->
  row_count (flat_map (fun r => replicate (n r) r) l) row = (row_count l row * n row)%nat.
Proof.
  intros Hn. induction l as [|x l IH]; [done|]. simpl flat_map.
  rewrite row_count_app, row_count_replicate, row_count_cons, IH.
  destruct (row_eqb row x) eqn:E; [|lia]. rewrite (Hn row x E). lia.
Qed.

(** Deduplication keeps one occurrence of every row that has not been seen. *)
Lemma dedup_on_count seen l row :
  row_count (dedup_on id seen l) row =
  if existsb (row_eqb row) seen then 0%nat else Nat.min 1 (row_count l row).
Proof.
  revert seen. induction l as [|x l IH]; intros seen; simpl dedup_on.
  { change (row_count [] row) with 0%nat. by destruct (existsb _ _). }
  unfold id at 1. rewrite row_count_cons. destruct (existsb (row_eqb x) seen) eqn:Ex.
  - rewrite IH. destruct (existsb (row_eqb row) seen) eqn:Er; [done|].
    destruct (row_eqb row x) eqn:E; [|done]. exfalso.
    apply existsb_exists in Ex as (y & Hy & Exy).
    assert (existsb (row_eqb row) seen = true) as Ht; [|congruence].
    apply existsb_exists. exists y. split; [done|]. by eapply row_eqb_trans.
  - change (id x) with x. rewrite row_count_cons, IH. simpl existsb. destruct (row_eqb row x) eqn:E; simpl.
    + assert (existsb (row_eqb row) seen = false) as ->; [|lia].
      apply not_true_is_false. intros Ht. apply existsb_exists in Ht as (y & Hy & Ery).
      assert (existsb (row_eqb x) seen = true); [|congruence].
      apply existsb_exists. exists y. split; [done|].
      eapply row_eqb_trans; [apply row_eqb_sym, E|done].
    + by destruct (existsb (row_eqb row) seen).
Qed.

Lemma dedup_keep_order_count l row : row_count (dedup_keep_order l) row = Nat.min 1 (row_count l row).
Proof. apply dedup_on_count. Qed.

Lemma dedup_on_subseteq {A} (part : A -> Row) seen (l : list A) : dedup_on part seen l `sublist_of` l.
Proof.
  revert seen; induction l as [|x l IH]; intros seen; simpl; [constructor|].
  destruct (existsb _ _); constructor; auto.
Qed.

Lemma min_one n : n = 0%nat /\ Nat.min 1 n = 0%nat \/ (n <> 0 /\ Nat.min 1 n = 1)%nat.
Proof. lia. Qed.

(** The number of times a row occurs in the result, from the times it occurs on
    each side. *)
Definition set_op_count (op : SetOp) (all : bool) (n m : nat) : nat :=
  match op, all with
  | Union, true => n + m
  | Union, false => Nat.min 1 (n + m)
  | Intersect, true => Nat.min n m
  | Intersect, false => Nat.min 1 (Nat.min n m)
  | Except, true => n - m
  | Except, false => if Nat.eqb m 0 then Nat.min 1 n else 0
  end.

Lemma intersect_flat l r all :
  intersect l r all = flat_map (fun row => replicate
    (if Nat.eqb (row_count r row) 0 then 0%nat
     else if all then Nat.min (row_count l row) (row_count r row) else 1%nat) row) (dedup_keep_order l).
Proof.
  unfold intersect. apply flat_map_ext. intros row. by destruct (Nat.eqb (row_count r row) 0).
Qed.

Lemma combine_rows_source op all l r row :
  In row (combine_rows op all l r) -> In row (match op with Union => l ++ r | _ => l end).
Proof.
  assert (forall n, In row (flat_map (fun x => replicate (n x) x) (dedup_keep_order l)) -> In row l) as Hf.
  { intros n. rewrite in_flat_map. intros (x & Hx & Hr).
    apply list_elem_of_In, elem_of_replicate in Hr as [-> _].
    apply list_elem_of_In in Hx. apply list_elem_of_In.
    eapply elem_of_sublist; [done|apply dedup_on_subseteq]. }
  unfold combine_rows. destruct op.
  - destruct all; [done|]. rewrite <- !list_elem_of_In. intros Hr.
    eapply elem_of_sublist; [exact Hr|apply dedup_on_subseteq].
  - rewrite intersect_flat. apply Hf.
  - apply Hf.
Qed.

(** UNION, INTERSECT and EXCEPT, with and without ALL, have the multiset
    semantics of SQL: a row that occurs n times on the left and m times on the
    right (rows are the same when their values are not distinct, NULL with NULL)
    occurs in the result n + m, min(n, m) or n - m times with ALL, and at most once
    without it; every row of the result is a row of the inputs, of the left one for
    INTERSECT and EXCEPT. *)
Theorem set_operations_are_multiset_operations op all l r :
  (forall row, row_count (combine_rows op all l r) row =
               set_op_count op all (row_count l row) (row_count r row)) /\
  (forall row, In row (combine_rows op all l r) ->
               In row (match op with Union => l ++ r | _ => l end)).
Proof.
  split; [intros row|intros row; apply combine_rows_source].
  destruct op; unfold combine_rows, set_op_count.
  - destruct all; by rewrite ?dedup_keep_order_count, row_count_app.
  - rewrite intersect_flat, row_count_flat_map, dedup_keep_order_count.
    + destruct all, (Nat.eqb_spec (row_count r row) 0), (min_one (row_count l row)) as [[-> ->]|[? ->]]; lia.
    + intros a b E. by rewrite !(row_count_congr _ a b E).
  - unfold except. rewrite row_count_flat_map, dedup_keep_order_count.
    + destruct all, (Nat.eqb_spec (row_count r row) 0), (min_one (row_count l row)) as [[-> ->]|[? ->]]; lia.
    + intros a b E. by rewrite !(row_count_congr _ a b E).
Qed.

End RowSets.

(** A row that occurs twice on the left only occurs twice. *)
Lemma set_operations_are_multiset_operations_witness :
  row_count (combine_rows Except true [[DInt4 1]; [DNull]; [DInt4 1]; [DNull]] [[DNull]; [DInt4 2]])
    [DInt4 1] = 2%nat.
Proof.
  exact (proj1 (set_operations_are_multiset_operations Except true
    [[DInt4 1]; [DNull]; [DInt4 1]; [DNull]] [[DNull]; [DInt4 2]]) [DInt4 1]).
Defined.
