(* ===== verification/ScanBounds.v ===== *)
(** * Offset pushdown into foreign scans (executor/src/exec.rs, foreign.rs)

    The bounds that the WHERE of a query over one Kafka topic gives for the scan
    of a partition, and the interface of a foreign scanner. *)
From Stdlib Require Import ZArith Lia Ascii.
From stdpp Require Import base list gmap strings.
From S2P Require Import Prelude Text Keys Store Datum Errors Catalog Ast ExtArith EvalOps.
Open Scope Z_scope.

(** [executor/src/foreign.rs:19-26] ScanBounds *)
Record ScanBounds : Type := mkBounds {
  start_offsets : list (Z * Z);
  end_offsets : list (Z * Z)
}.

Definition no_bounds : ScanBounds := mkBounds [] [].

(** [executor/src/foreign.rs:32-39] ImportFilter *)
Inductive ImportFilter : Type :=
| FilterAll
| FilterOnly (names : list string)
| FilterExcept (names : list string).

(** [executor/src/foreign.rs:45-52] from_selector *)
Definition from_selector (s : ImportSelector) : ImportFilter :=
  match s with
  | ImportAll => FilterAll
  | LimitTo names => FilterOnly names
  | ImportExcept names => FilterExcept names
  end.

(** [executor/src/foreign.rs:58-64] retains *)
Definition retains (f : ImportFilter) (name : string) : bool :=
  match f with
  | FilterAll => true
  | FilterOnly names => bool_decide (name ∈ names)
  | FilterExcept names => negb (bool_decide (name ∈ names))
  end.

(** [executor/src/foreign.rs:118-125] ImportedTable *)
Record ImportedTable : Type := mkImported {
  im_name : string;
  im_columns : list Column;
  im_options : list (string * string)
}.

(** [executor/src/exec.rs:938-945] OffsetBound *)
Inductive OffsetBound : Type :=
| StartIncl (v : Z)
| EndExcl (v : Z)
| OffsetBetween (start end_ : Z).

Section ScanBounds.
Context `{ExtArith}.

(** [executor/src/foreign.rs:72-111] ForeignScanner *)
Record ForeignScanner : Type := mkScanner {
  fs_scan : Table -> ForeignServer -> option UserMapping -> ScanBounds -> EvalCtx ->
            xresult (list (list Datum));
  fs_import_schema : ForeignServer -> option UserMapping -> ImportFilter ->
            xresult (list ImportedTable)
}.

(** [executor/src/exec.rs:27-30] ForeignCtx *)
Record ForeignCtx : Type := mkForeignCtx {
  fx_scanner : option ForeignScanner;
  fx_current_user : string
}.

(** [executor/src/exec.rs:35-40] none *)
Definition foreign_none : ForeignCtx := mkForeignCtx None "public".

(** [executor/src/exec.rs:879-891] collect_conjuncts *)
Fixpoint collect_conjuncts (e : Expr) : list Expr :=
  match e with
  | Binary OpAnd l r => collect_conjuncts l ++ collect_conjuncts r
  | _ => [e]
  end.

(** [executor/src/exec.rs:896-901] envelope_col *)
Definition envelope_col (e : Expr) : option string :=
  match e with ColumnRef _ name => Some name | _ => None end.

Definition is_envelope (name : string) (e : Expr) : bool := bool_decide (envelope_col e = Some name).

(** [executor/src/exec.rs:906-915] int_literal *)
Fixpoint bound_literal (e : Expr) : option Z :=
  match e with
  | IntLiteral s => parse_i64 s
  | Unary UNeg e => (fun v => wrap_signed 64 (- v)) <$> bound_literal e
  | _ => None
  end.

(** [executor/src/exec.rs:918-935] match_partition_eq *)
Definition match_partition_eq (e : Expr) : option Z :=
  match e with
  | Binary OpEq l r =>
      v ← (if is_envelope "_partition" l then bound_literal r
           else if is_envelope "_partition" r then bound_literal l
           else None);
      if decide (i32_ok v) then Some v else None
  | _ => None
  end.

(** [executor/src/exec.rs:990-999] mirror_op *)
Definition mirror_op (op : BinaryOp) : option BinaryOp :=
  match op with
  | OpLt => Some OpGt
  | OpLe => Some OpGe
  | OpGt => Some OpLt
  | OpGe => Some OpLe
  | _ => None
  end.

(** [executor/src/exec.rs:951-986] match_offset_bound; the additions wrap *)
Definition match_offset_bound (e : Expr) : option OffsetBound :=
  match e with
  | Binary op l r =>
      '(op, lit) ←
        (if is_envelope "_offset" l then lit ← bound_literal r; Some (op, lit)
         else if is_envelope "_offset" r then op ← mirror_op op; lit ← bound_literal l; Some (op, lit)
         else None);
      match op with
      | OpGe => Some (StartIncl lit)
      | OpGt => Some (StartIncl (wrap_signed 64 (lit + 1)))
      | OpLe => Some (EndExcl (wrap_signed 64 (lit + 1)))
      | OpLt => Some (EndExcl lit)
      | _ => None
      end
  | Between x low high false =>
      if is_envelope "_offset" x then
        lo ← bound_literal low;
        hi ← bound_literal high;
        Some (OffsetBetween lo (wrap_signed 64 (hi + 1)))
      else None
  | _ => None
  end.

(** The single partition of the conjuncts: [None] when two of them differ. *)
Fixpoint partition_anchor (found : option Z) (cs : list Expr) : option (option Z) :=
  match cs with
  | [] => Some found
  | c :: cs =>
      match match_partition_eq c, found with
      | None, _ => partition_anchor found cs
      | Some p, None => partition_anchor (Some p) cs
      | Some p, Some prev => if p =? prev then partition_anchor found cs else None
      end
  end.

Definition tighten (f : Z -> Z -> Z) (cur : option Z) (v : Z) : option Z :=
  Some (match cur with None => v | Some c => f c v end).

(** The tightest start and end of the conjuncts. *)
Definition tighten_bound (acc : option Z * option Z) (c : Expr) : option Z * option Z :=
  match match_offset_bound c with
  | Some (StartIncl v) => (tighten Z.max acc.1 v, acc.2)
  | Some (EndExcl v) => (acc.1, tighten Z.min acc.2 v)
  | Some (OffsetBetween s e) => (tighten Z.max acc.1 s, tighten Z.min acc.2 e)
  | None => acc
  end.

(** [executor/src/exec.rs:815-875] extract_scan_bounds *)
Definition extract_scan_bounds (filter : option Expr) : ScanBounds :=
  match filter with
  | None => no_bounds
  | Some f =>
      let conjuncts := collect_conjuncts f in
      match partition_anchor None conjuncts with
      | None | Some None => no_bounds
      | Some (Some p) =>
          let '(start, end_) := foldl tighten_bound (None, None) conjuncts in
          mkBounds (match start with Some s => [(p, s)] | None => [] end)
            (match end_ with Some e => [(p, e)] | None => [] end)
      end
  end.

End ScanBounds.
