(* ===== verification/Describe.v ===== *)
(** * The schema of a query (executor/src/query.rs, setops.rs, subquery.rs, cte.rs,
      values.rs, exec.rs)

    The passes that find the output columns of a query without running it, as
    Describe needs them and as set operations do before they run. They call each
    other along the syntax tree, and recurse on it. *)
From Stdlib Require Import ZArith Lia Ascii.
From stdpp Require Import base list gmap strings.
From S2P Require Import Prelude Text Chars Keys Store Datum Float DateTimeBin ExtArith DateTime.
From S2P Require Import Calendar Numeric NumericFn Ops Cast Errors Catalog Scope Ast AggCall.
From S2P Require Import EvalOps Func DateTimeFn FormatFn Eval Wire Project Join Values SetOps.
Open Scope Z_scope.

Section Describe.
Context `{ExtCal} `{MathLib} `{Unicode} `{!ExtPow}.

(** The context [EvalCtx::test_default()], under which no row is evaluated. *)
Context (default_ctx : EvalCtx).

Definition cat {A} (r : result CatalogError A) : xresult A := map_err (fun e => Raised (ECatalog e)) r.

(** The columns that descriptions announce. *)
Definition bindings_of_fields (fields : list FieldDescription) : xresult Scope :=
  mapR (fun f => t ← lift (column_type_from_oid (f_type_oid f)); Ok (mkBinding None (f_name f) t)) fields.

(** A base table or common table expression by name, without its rows. *)
Definition table_schema (catalog_kv : MemKv) (ctes : CteContext) (name : string) (alias : option string)
  : xresult Relation :=
  match ctes !! name with
  | Some rel => Ok (mkRelation (rel_scope (requalify_cte rel (default name alias))) [])
  | None =>
      t ← cat (get_table catalog_kv name);
      Ok (mkRelation (scope_single t (default (t_name t) alias)) [])
  end.

Definition nested_locking_error : ExecError :=
  EUnsupported "FOR UPDATE/SHARE is not supported in CTEs or derived tables".

(** [executor/src/query.rs:172-185] describe_query_expr_inner, the locking clauses it
    rejects *)
Definition describe_locking (allow_locking : bool) (locking : option RowLockStrength)
    (w : option WithClause) : result ExecError () :=
  match locking with
  | None => Ok ()
  | Some _ =>
      if allow_locking then
        match w with
        | Some w => _ ← reject_recursive w; Err (EUnsupported "FOR UPDATE/SHARE with CTEs is not supported")
        | None => Ok ()
        end
      else Err nested_locking_error
  end.

(** [executor/src/query.rs:166-218] describe_query_expr_inner *)
Fixpoint describe_query (catalog_kv : MemKv) (allow_locking : bool) (ctes : CteContext) (q : QueryExpr)
  {struct q} : xresult (list FieldDescription) :=
  let '(mkQueryExpr w body _ _ _ locking) := q in
  _ ← lift (describe_locking allow_locking locking w);
  query_ctes ← match w with
               | Some w => describe_with_clause catalog_kv ctes w
               | None => Ok ctes
               end;
  match body with
  | SetQuery (BodySelect s) =>
      _ ← (if allow_locking then Ok ()
           else let '(mkSelectStmt _ _ _ _ _ _ _ _ _ k) := s in
                lift (reject_nested_relation_locking k));
      p ← select_schema catalog_kv query_ctes ∅ s;
      Ok (pr_fields p)
  | SetQuery (BodyValues rows) =>
      rows ← mapR (mapR (resolve_types_in_expr catalog_kv query_ctes)) rows;
      schema ← describe_values rows;
      Ok (map (fun c => field (b_name c) (b_ty c)) (scope_from_schema schema None))
  | SetQuery (BodyNested nested) => describe_query catalog_kv false query_ctes nested
  | SetOperation op _ l r =>
      l ← resolve_set_columns catalog_kv query_ctes 1 l;
      r ← resolve_set_columns catalog_kv query_ctes 1 r;
      cols ← lift (unify_columns op l r);
      Ok (map (fun c => field (rcol_name c) (output_type c)) cols)
  end
(** [executor/src/cte.rs:93-124] describe_with_clause *)
with describe_with_clause (catalog_kv : MemKv) (ctes : CteContext) (w : WithClause) {struct w}
  : xresult CteContext :=
  let '(mkWithClause recursive l) := w in
  _ ← lift (reject_recursive w);
  foldM (describe_cte catalog_kv) ctes l
with describe_cte (catalog_kv : MemKv) (out : CteContext) (c : Cte) {struct c} : xresult CteContext :=
  let '(mkCte name columns query) := c in
  fields ← describe_query catalog_kv false out query;
  scope ← bindings_of_fields fields;
  rel ← lift (apply_cte_column_aliases (mkRelation scope []) name columns);
  Ok (<[name := rel]> out)
(** [executor/src/setops.rs:74-163] resolve_set_columns *)
with resolve_set_columns (catalog_kv : MemKv) (ctes : CteContext) (depth : nat) (e : SetExpr) {struct e}
  : xresult (list ResolvedCol) :=
  if Nat.ltb MAX_SETOP_DEPTH depth then raise EStackDepthExceeded
  else
    match e with
    | SetQuery (BodySelect s) =>
        _ ← (let '(mkSelectStmt _ _ _ _ _ _ _ _ _ k) := s in lift (reject_nested_relation_locking k));
        p ← select_schema catalog_kv ctes ctes s;
        Ok (map (fun x : FieldDescription * Expr * ColumnType =>
              mkCol (f_name x.1.1) x.2 (is_unknown_literal x.1.2)) p)
    | SetQuery (BodyValues rows) =>
        rows ← mapR (mapR (resolve_types_in_expr catalog_kv ctes)) rows;
        schema ← describe_values rows;
        Ok (map (fun c => mkCol (b_name c) (b_ty c) false) (scope_from_schema schema None))
    | SetQuery (BodyNested nested) =>
        fields ← describe_query catalog_kv false ctes nested;
        scope ← bindings_of_fields fields;
        Ok (map (fun c => mkCol (b_name c) (b_ty c) false) scope)
    | SetOperation op _ l r =>
        l ← resolve_set_columns catalog_kv ctes (S depth) l;
        r ← resolve_set_columns catalog_kv ctes (S depth) r;
        lift (unify_columns op l r)
    end
(** The select list of a SELECT, typed over its FROM; the scalar subqueries of the
    select list see the context [type_ctes]. *)
with select_schema (catalog_kv : MemKv) (ctes type_ctes : CteContext) (s : SelectStmt) {struct s}
  : xresult Projection :=
  let '(mkSelectStmt projection from _ _ _ _ _ _ _ _) := s in
  scope ← match from with
          | [] => Ok scope_empty
          | first :: rest =>
              acc ← table_expr_schema catalog_kv ctes first;
              rel ← foldM (fun acc te =>
                next ← table_expr_schema catalog_kv ctes te;
                join_relations acc next JCross JoinNone default_ctx) acc rest;
              Ok (rel_scope rel)
          end;
  projection ← mapR (resolve_types_in_item catalog_kv type_ctes) projection;
  resolve_projection projection scope
(** [executor/src/exec.rs:1263-1324] build_table_expr_schema_with_ctes *)
with table_expr_schema (catalog_kv : MemKv) (ctes : CteContext) (te : TableExpr) {struct te}
  : xresult Relation :=
  match te with
  | TableRef name alias => table_schema catalog_kv ctes name alias
  | Join l r kind constraint =>
      l ← table_expr_schema catalog_kv ctes l;
      r ← table_expr_schema catalog_kv ctes r;
      join_relations l r kind constraint default_ctx
  | Derived subquery alias columns =>
      fields ← describe_query catalog_kv false ctes subquery;
      scope ← bindings_of_fields fields;
      lift (requalify_derived (mkRelation scope []) alias columns)
  end
(** [executor/src/subquery.rs:338-353] resolve_types_in_projection_with_ctes, one item *)
with resolve_types_in_item (catalog_kv : MemKv) (ctes : CteContext) (it : SelectItem) {struct it}
  : xresult SelectItem :=
  match it with
  | ItemExpr e alias => e ← resolve_types_in_expr catalog_kv ctes e; Ok (ItemExpr e alias)
  | other => Ok other
  end
(** [executor/src/subquery.rs:374-414] resolve_types_in_expr, scalar_subquery_type *)
with resolve_types_in_expr (catalog_kv : MemKv) (ctes : CteContext) (e : Expr) {struct e} : xresult Expr :=
  match e with
  | ScalarSubquery q =>
      fields ← describe_query catalog_kv false ctes q;
      match fields with
      | [f] => t ← lift (column_type_from_oid (f_type_oid f)); Ok (Const DNull t)
      | _ => raise ESubqueryColumns
      end
  | Unary op x => x ← resolve_types_in_expr catalog_kv ctes x; Ok (Unary op x)
  | Binary op l r =>
      l ← resolve_types_in_expr catalog_kv ctes l;
      r ← resolve_types_in_expr catalog_kv ctes r;
      Ok (Binary op l r)
  | Cast x t => x ← resolve_types_in_expr catalog_kv ctes x; Ok (Cast x t)
  | other => Ok other
  end.

(** [executor/src/query.rs:150-156] describe_query_expr *)
Definition describe_query_expr (catalog_kv : MemKv) (q : QueryExpr) : xresult (list FieldDescription) :=
  describe_query catalog_kv true ∅ q.

(** [executor/src/exec.rs:1882-1893] describe, of the statements parsed *)
Definition describe (catalog_kv : MemKv) (statements : list Statement) : xresult (list FieldDescription) :=
  match statements with
  | Ast.Query q :: _ => describe_query_expr catalog_kv q
  | _ => Ok []
  end.

End Describe.
