(* ===== verification/Query.v ===== *)
(** * Running a query (executor/src/query.rs, subquery.rs, setops.rs, cte.rs, exec.rs)

    The read path: a query expression with its WITH clause, its body (a SELECT,
    VALUES, a nested query or a set operation) and its tail; the subqueries of its
    expressions, run once and folded to constants; the FROM clause. These functions
    call each other along the syntax tree, and recurse on it. *)
From Stdlib Require Import ZArith Lia Ascii.
From stdpp Require Import base list gmap strings.
From S2P Require Import Prelude Text Chars Keys Store Datum Float DateTimeBin ExtArith DateTime.
From S2P Require Import Calendar Numeric NumericFn Ops Cast Mvcc Errors Catalog Scope Exec Ast.
From S2P Require Import AggCall EvalOps Func DateTimeFn FormatFn Eval Wire Project Join Aggregate.
From S2P Require Import Values SetOps ScanBounds Describe.
Open Scope Z_scope.

Section Query.
Context `{ExtCal} `{MathLib} `{Unicode} `{!ExtPow}.
Context (default_ctx : EvalCtx).

(** [executor/src/subquery.rs:23-37] SubCtx, without the CTEs, which change *)
Record ReadEnv : Type := mkEnv {
  en_catalog_kv : MemKv;
  en_kv : MemKv;
  en_global : MemKv;
  en_gsnap : Snapshot;
  en_snapshot : Snapshot;
  en_own : option Z;
  en_ctx : EvalCtx;
  en_fctx : ForeignCtx
}.

(** ** Subqueries folded to constants *)

(** [executor/src/subquery.rs:225-232] no_locking *)
Definition no_locking (q : QueryExpr) : result ExecError () :=
  match q_locking q with
  | Some _ => Err (EUnsupported "FOR UPDATE/SHARE is not allowed inside a subquery")
  | None => Ok ()
  end.

Definition first_cell (row : Row) : xresult Datum := panic_or (head row).

(** [executor/src/subquery.rs:257-273] run_scalar, on the relation *)
Definition scalar_of (rel : Relation) : xresult (Datum * ColumnType) :=
  match rel_scope rel with
  | [c] =>
      match rel_rows rel with
      | [] => Ok (DNull, b_ty c)
      | [row] => v ← first_cell row; Ok (v, b_ty c)
      | _ => raise ECardinalityViolation
      end
  | _ => raise ESubqueryColumns
  end.

(** [executor/src/subquery.rs:276-284] run_single_column, on the relation *)
Definition single_column_of (rel : Relation) : xresult (ColumnType * list Datum) :=
  match rel_scope rel with
  | [c] => vs ← mapR first_cell (rel_rows rel); Ok (b_ty c, vs)
  | _ => raise ESubqueryColumns
  end.

(** [executor/src/subquery.rs:289-320] lower_quantified *)
Definition lower_quantified (lhs : Expr) (op : BinaryOp) (all : bool) (ty : ColumnType)
    (values : list Datum) : Expr :=
  let cmp v := Binary op lhs (Const v ty) in
  match values with
  | [] => Const (DBool all) TBool
  | v :: vs => fold_left (fun prev v => Binary (if all then OpAnd else OpOr) prev (cmp v)) vs (cmp v)
  end.

(** ** Tables *)

(** [executor/src/exec.rs:1006-1022] is_single_foreign_table *)
Definition is_single_foreign_table (env : ReadEnv) (from : list TableExpr) (ctes : CteContext) : bool :=
  match fx_scanner (en_fctx env), from with
  | Some _, [TableRef name _] =>
      match ctes !! name with
      | Some _ => false
      | None =>
          match get_table (en_catalog_kv env) name with
          | Ok t => match t_foreign t with Some _ => true | None => false end
          | Err _ => false
          end
      end
  | _, _ => false
  end.

(** [executor/src/exec.rs:1094-1111] build_table_expr, a foreign table *)
Definition scan_foreign (env : ReadEnv) (t : Table) (meta : ForeignTableMeta) (bounds : option ScanBounds)
  : xresult (list Row) :=
  scanner ← lift (ok_or (fx_scanner (en_fctx env))
                    (EUnsupported "foreign tables require the `kafka` feature"));
  server ← cat (get_server (en_catalog_kv env) (fm_server meta));
  let mapping :=
    match get_user_mapping (en_catalog_kv env) (fx_current_user (en_fctx env)) (fm_server meta) with
    | Ok m => Some m
    | Err _ => None
    end in
  fs_scan scanner t server mapping (default no_bounds bounds) (en_ctx env).

(** [executor/src/exec.rs:1084-1118] build_table_expr, a named relation *)
Definition table_relation (env : ReadEnv) (ctes : CteContext) (name : string) (alias : option string)
    (bounds : option ScanBounds) : xresult Relation :=
  match ctes !! name with
  | Some rel => Ok (requalify_cte rel (default name alias))
  | None =>
      t ← cat (get_table (en_catalog_kv env) name);
      let scope := scope_single t (default (t_name t) alias) in
      rows ← match t_foreign t with
             | Some meta => scan_foreign env t meta bounds
             | None =>
                 live ← lift (scan_live (en_kv env) (en_global env) (en_gsnap env) (en_snapshot env)
                                (en_own env) t);
                 Ok (map snd live)
             end;
      Ok (mkRelation scope rows)
  end.

(** [executor/src/exec.rs:1209-1235] select_to_relation_with_ctes, over the rows of
    FROM *)
Definition run_select (s : SelectStmt) (relation : Relation) (ctx : EvalCtx) : xresult Relation :=
  let '(mkSelectStmt projection _ filter distinct _ _ order_by limit offset _) := s in
  let scope := rel_scope relation in
  kept ← filter_rows filter scope ctx (rel_rows relation);
  p ← resolve_projection projection scope;
  let out_scope := map (fun x : FieldDescription * Expr * ColumnType =>
    mkBinding None (f_name x.1.1) x.2) p in
  rows ← (if is_aggregate_query s then aggregate_rows s scope kept ctx
          else project_rows_ordered (mkRowClauses distinct order_by limit offset) scope p kept ctx);
  Ok (mkRelation out_scope rows).

Definition locking_select_error : ExecError :=
  EUnsupported "locking SELECT must use execute_read_locking".

(** [executor/src/query.rs:67-71] query_to_relation_with_ctes, its locking clause *)
Definition plain_select (locking : option RowLockStrength) : result ExecError () :=
  match locking with Some _ => Err locking_select_error | None => Ok () end.

(** [executor/src/setops.rs:205-230] set_expr_to_relation, over the combined rows *)
Definition finish_set (cols : list ResolvedCol) (rows : list Row) (order_by : list OrderItem)
    (offset limit : option Z) (ctx : EvalCtx) : xresult Relation :=
  let scope := map (fun c => mkBinding None (rcol_name c) (output_type c)) cols in
  apply_query_order (mkRelation scope rows) order_by offset limit ctx.

(** ** The read path *)

(** [executor/src/subquery.rs:93-222] resolve_expr, with the runs of a subquery
    (235-249) *)
Fixpoint resolve_expr (env : ReadEnv) (ctes : CteContext) (e : Expr) {struct e} : xresult Expr :=
  match e with
  | IntLiteral _ | NumericLiteral _ | StringLiteral _ | BoolLiteral _ | NullLiteral
  | ColumnRef _ _ | ParamRef _ | Const _ _ => Ok e
  | Unary op x => x ← resolve_expr env ctes x; Ok (Unary op x)
  | Binary op l r => l ← resolve_expr env ctes l; r ← resolve_expr env ctes r; Ok (Binary op l r)
  | Func name distinct args => args ← resolve_args env ctes args; Ok (Func name distinct args)
  | IsNull x negated => x ← resolve_expr env ctes x; Ok (IsNull x negated)
  | InList x l negated =>
      x ← resolve_expr env ctes x;
      l ← mapR (resolve_expr env ctes) l;
      Ok (InList x l negated)
  | Between x low high negated =>
      x ← resolve_expr env ctes x;
      low ← resolve_expr env ctes low;
      high ← resolve_expr env ctes high;
      Ok (Between x low high negated)
  | Like x pattern negated ci =>
      x ← resolve_expr env ctes x;
      pattern ← resolve_expr env ctes pattern;
      Ok (Like x pattern negated ci)
  | Case operand whens else_result =>
      operand ← match operand with
                | Some o => o ← resolve_expr env ctes o; Ok (Some o)
                | None => Ok None
                end;
      whens ← mapR (fun w : Expr * Expr =>
        let '(c, r) := w in
        c ← resolve_expr env ctes c; r ← resolve_expr env ctes r; Ok (c, r)) whens;
      else_result ← match else_result with
                    | Some o => o ← resolve_expr env ctes o; Ok (Some o)
                    | None => Ok None
                    end;
      Ok (Case operand whens else_result)
  | Cast x t => x ← resolve_expr env ctes x; Ok (Cast x t)
  | ScalarSubquery q =>
      _ ← lift (no_locking q);
      rel ← query_to_relation_with_ctes env ctes q;
      '(value, t) ← scalar_of rel;
      Ok (Const value t)
  | ExistsQuery q =>
      _ ← lift (no_locking q);
      rel ← query_to_relation_with_ctes env ctes q;
      Ok (Const (DBool (match rel_rows rel with [] => false | _ => true end)) TBool)
  | InSubquery x q negated =>
      _ ← lift (no_locking q);
      rel ← query_to_relation_with_ctes env ctes q;
      '(t, values) ← single_column_of rel;
      x ← resolve_expr env ctes x;
      Ok (InList x (map (fun v => Const v t) values) negated)
  | Quantified x op all q =>
      _ ← lift (no_locking q);
      rel ← query_to_relation_with_ctes env ctes q;
      '(t, values) ← single_column_of rel;
      lhs ← resolve_expr env ctes x;
      Ok (lower_quantified lhs op all t values)
  end
with resolve_args (env : ReadEnv) (ctes : CteContext) (a : FuncArgs) {struct a} : xresult FuncArgs :=
  match a with
  | ArgStar => Ok ArgStar
  | ArgExprs l => l ← mapR (resolve_expr env ctes) l; Ok (ArgExprs l)
  end
(** [executor/src/subquery.rs:67-80] resolve_order_items, one item *)
with resolve_order_item (env : ReadEnv) (ctes : CteContext) (o : OrderItem) {struct o} : xresult OrderItem :=
  let '(mkOrderItem e asc) := o in
  e ← resolve_expr env ctes e;
  Ok (mkOrderItem e asc)
with resolve_item_expr (env : ReadEnv) (ctes : CteContext) (it : SelectItem) {struct it} : xresult SelectItem :=
  match it with
  | ItemExpr e alias => e ← resolve_expr env ctes e; Ok (ItemExpr e alias)
  | other => Ok other
  end
(** [executor/src/query.rs:30-148] query_to_relation_with_ctes *)
with query_to_relation_with_ctes (env : ReadEnv) (ctes : CteContext) (q : QueryExpr) {struct q}
  : xresult Relation :=
  let '(mkQueryExpr w body order_by limit offset locking) := q in
  query_ctes ← match w with
               | Some w => evaluate_with_clause env ctes w
               | None => Ok ctes
               end;
  let order := mapR (resolve_order_item env query_ctes) order_by in
  match body with
  | SetQuery (BodySelect s) =>
      _ ← lift (plain_select locking);
      select_to_relation_with_ctes env query_ctes (Some (order, limit, offset)) s
  | SetQuery (BodyValues rows) =>
      rows ← mapR (mapR (resolve_expr env query_ctes)) rows;
      rel ← values_to_relation rows (en_ctx env);
      order_by ← order;
      apply_query_order rel order_by offset limit (en_ctx env)
  | SetQuery (BodyNested nested) =>
      _ ← lift (plain_select locking);
      rel ← query_to_relation_with_ctes env query_ctes nested;
      order_by ← order;
      apply_query_order rel order_by offset limit (en_ctx env)
  | SetOperation op all l r =>
      order_by ← order;
      cols ← resolve_set_columns default_ctx (en_catalog_kv env) query_ctes 0 body;
      let out_tys := map output_type cols in
      lrows ← fold_set env query_ctes out_tys 1 l;
      rrows ← fold_set env query_ctes out_tys 1 r;
      finish_set cols (combine_rows op all lrows rrows) order_by offset limit (en_ctx env)
  end
(** [executor/src/cte.rs:60-91] evaluate_with_clause *)
with evaluate_with_clause (env : ReadEnv) (parent : CteContext) (w : WithClause) {struct w}
  : xresult CteContext :=
  let '(mkWithClause _ l) := w in
  _ ← lift (reject_recursive w);
  foldM (evaluate_cte env) parent l
with evaluate_cte (env : ReadEnv) (out : CteContext) (c : Cte) {struct c} : xresult CteContext :=
  let '(mkCte name columns query) := c in
  _ ← (match q_locking query with
       | Some _ => raise (EUnsupported "FOR UPDATE/SHARE is not supported in CTEs")
       | None => Ok ()
       end);
  rel ← query_to_relation_with_ctes env out query;
  rel ← lift (apply_cte_column_aliases rel name columns);
  Ok (<[name := rel]> out)
(** [executor/src/setops.rs:259-333] fold *)
with fold_set (env : ReadEnv) (ctes : CteContext) (out_tys : list ColumnType) (depth : nat) (e : SetExpr)
  {struct e} : xresult (list Row) :=
  if Nat.ltb MAX_SETOP_DEPTH depth then raise EStackDepthExceeded
  else
    match e with
    | SetQuery (BodySelect s) =>
        rel ← select_to_relation_with_ctes env ctes None s;
        coerce_rows (rel_rows rel) (rel_scope rel) out_tys (en_ctx env)
    | SetQuery (BodyValues rows) =>
        rows ← mapR (mapR (resolve_expr env ctes)) rows;
        rel ← values_to_relation rows (en_ctx env);
        coerce_rows (rel_rows rel) (rel_scope rel) out_tys (en_ctx env)
    | SetQuery (BodyNested nested) =>
        rel ← query_to_relation_with_ctes env ctes nested;
        coerce_rows (rel_rows rel) (rel_scope rel) out_tys (en_ctx env)
    | SetOperation op all l r =>
        lrows ← fold_set env ctes out_tys (S depth) l;
        rrows ← fold_set env ctes out_tys (S depth) r;
        Ok (combine_rows op all lrows rrows)
    end
(** [executor/src/exec.rs:1151-1236] select_to_relation_with_ctes; the tail of the
    query expression, when there is one, replaces the statement's own *)
with select_to_relation_with_ctes (env : ReadEnv) (ctes : CteContext)
    (tail_ : option (xresult (list OrderItem) * option Z * option Z)) (s : SelectStmt) {struct s}
  : xresult Relation :=
  let '(mkSelectStmt projection from filter distinct group_by having own_order own_limit own_offset own_lock) := s in
  let own_order := mapR (resolve_order_item env ctes) own_order in
  let '(order, limit, offset, lock) :=
    match tail_ with
    | Some (o, l, f) => (o, l, f, None)
    | None => (own_order, own_limit, own_offset, own_lock)
    end in
  _ ← lift (reject_nested_relation_locking lock);
  projection ← mapR (resolve_item_expr env ctes) projection;
  filter ← match filter with
           | Some f => f ← resolve_expr env ctes f; Ok (Some f)
           | None => Ok None
           end;
  having ← match having with
           | Some h => h ← resolve_expr env ctes h; Ok (Some h)
           | None => Ok None
           end;
  group_by ← mapR (resolve_expr env ctes) group_by;
  order_by ← order;
  relation ←
    match from with
    | [] => Ok (mkRelation scope_empty [[]])
    | first :: rest =>
        let pushed := if is_single_foreign_table env from ctes
                      then Some (extract_scan_bounds filter) else None in
        acc ← build_table_expr env ctes pushed first;
        foldM (fun acc te =>
          next ← build_table_expr env ctes None te;
          join_relations acc next JCross JoinNone (en_ctx env)) acc rest
    end;
  run_select (mkSelectStmt projection from filter distinct group_by having order_by limit offset lock)
    relation (en_ctx env)
(** [executor/src/exec.rs:1067-1146] build_table_expr *)
with build_table_expr (env : ReadEnv) (ctes : CteContext) (bounds : option ScanBounds) (te : TableExpr)
  {struct te} : xresult Relation :=
  match te with
  | TableRef name alias => table_relation env ctes name alias bounds
  | Join l r kind constraint =>
      l ← build_table_expr env ctes None l;
      r ← build_table_expr env ctes None r;
      join_relations l r kind constraint (en_ctx env)
  | Derived subquery alias columns =>
      inner ← query_to_relation_with_ctes env ctes subquery;
      lift (requalify_derived inner alias columns)
  end.

(** [executor/src/query.rs:220-228] relation_to_rows_result *)
Definition relation_to_rows_result (rel : Relation) (ctx : EvalCtx) : xresult QueryResult :=
  rows_result (map (fun c => field (b_name c) (b_ty c)) (rel_scope rel)) (rel_rows rel) (cx_time_zone ctx).

(** [executor/src/query.rs:12-27] query_to_relation *)
Definition query_to_relation (env : ReadEnv) (q : QueryExpr) : xresult Relation :=
  query_to_relation_with_ctes env ∅ q.

(** [executor/src/exec.rs:1336-1354] execute_read *)
Definition execute_read (env : ReadEnv) (stmt : Statement) : xresult QueryResult :=
  match stmt with
  | Ast.Query q =>
      rel ← query_to_relation env q;
      relation_to_rows_result rel (en_ctx env)
  | _ => raise (EUnsupported "not a query statement")
  end.

End Query.
