(* ===== verification/RangeMap.v ===== *)
(** * The range map (cluster/src/range/map.rs, cluster/src/range/meta.rs)

    The static partition of the table ids into ranges, its replicated descriptor
    blob, and the routines that seed and read the blob on range 0. The theorems show
    that a map routes every table id to the one range whose span contains it, that
    whatever the decoder accepts is such a map, and that a map reads back from the
    store it was seeded in, also after a second seed. *)
From Stdlib Require Import ZArith Lia.
From stdpp Require Import base list gmap strings sorting.
From S2P Require Import Prelude Keys Store Mvcc StateMachine.
Open Scope Z_scope.

(** [cluster/src/range/map.rs:18-20] RangeMap *)
Record RangeMap : Type := mkRangeMap { boundaries : list Z }.

(** [cluster/src/range/map.rs:24-28] RangeMap::single *)
Definition single : RangeMap := mkRangeMap [].

(** [slice::windows(2)], every pair of neighbours. *)
Fixpoint windows2 {A} (l : list A) : list (A * A) :=
  match l with
  | x :: ((y :: _) as l') => (x, y) :: windows2 l'
  | _ => []
  end.

(** [cluster/src/range/map.rs:32-42] RangeMap::with_boundaries, [None] when an
    assertion fails *)
Definition with_boundaries (bs : list Z) : option RangeMap :=
  if forallb (fun b => negb (b =? 0)) bs && forallb (fun w => w.1 <? w.2) (windows2 bs)
  then Some (mkRangeMap bs) else None.

(** [cluster/src/range/map.rs:45-47] range_count *)
Definition range_count (m : RangeMap) : nat := S (length (boundaries m)).

(** The cast of a [usize] to a range id. *)
Definition as_range_id (n : nat) : Z := Z.of_nat n mod 2 ^ 32.

(** [slice::partition_point] *)
Definition partition_point {A} (p : A -> bool) (l : list A) : nat :=
  match binary_search_by (fun x => if p x then Lt else Gt) l with inl i => i | inr i => i end.

(** [cluster/src/range/map.rs:50-53] range_for_table *)
Definition range_for_table (m : RangeMap) (table_id : Z) : Z :=
  as_range_id (partition_point (fun b => b <=? table_id) (boundaries m)).

(** [cluster/src/range/map.rs:56-58] range_ids *)
Definition range_ids (m : RangeMap) : list Z := seqZ 0 (as_range_id (range_count m)).

(** [cluster/src/range/map.rs:62-62] RANGE_MAP_VERSION *)
Definition RANGE_MAP_VERSION : Z := 1.

(** [cluster/src/range/map.rs:70-74] RangeDescriptor *)
Record RangeDescriptor : Type := mkDescriptor {
  range_id : Z;
  start_table_id : Z;
  end_ : option Z
}.

(** [cluster/src/range/map.rs:78-90] descriptors. The index [boundaries[i - 1]] is in
    range for every id of the map. *)
Definition descriptors (m : RangeMap) : list RangeDescriptor :=
  map (fun i => mkDescriptor i
         (if i =? 0 then 0 else nth (Z.to_nat i - 1) (boundaries m) 0)
         (boundaries m !! Z.to_nat i))
    (range_ids m).

Definition descriptor_bytes (d : RangeDescriptor) : bytes :=
  be_bytes 4 (range_id d) ++ be_bytes 4 (start_table_id d) ++
  match end_ d with
  | Some e => 1 :: be_bytes 4 e
  | None => 0 :: be_bytes 4 0
  end.

(** [cluster/src/range/map.rs:95-114] to_descriptor_bytes *)
Definition to_descriptor_bytes (m : RangeMap) : bytes :=
  let descs := descriptors m in
  RANGE_MAP_VERSION :: be_bytes 4 (Z.of_nat (length descs)) ++ concat (map descriptor_bytes descs).

(** [cluster/src/range/map.rs:172-178] take_u8 *)
Definition map_take_u8 (cur : bytes) : result KvError (Z * bytes) :=
  match cur with
  | [] => Err (CorruptRow "truncated range map")
  | h :: rest => Ok (h, rest)
  end.

(** [cluster/src/range/map.rs:180-187] take_n *)
Definition map_take_n (cur : bytes) (n : nat) : result KvError (bytes * bytes) :=
  if bool_decide (length cur < n)%nat then Err (CorruptRow "truncated range-map field")
  else Ok (take n cur, drop n cur).

Definition map_take_u32 (cur : bytes) : result KvError (Z * bytes) :=
  '(b, cur) ← map_take_n cur 4; Ok (be_val b, cur).

(** One turn of the loop over the descriptors: the end of a range that has one. *)
Definition check_descriptor (i : nat) (is_last : bool) (expected_start range_id start end_present end_raw : Z)
  : result KvError (option Z) :=
  if negb (range_id =? Z.of_nat i) then
    Err (CorruptRow ("range ids must be contiguous 0..N; got " +:+ z_to_string range_id +:+
                     " at position " +:+ z_to_string (Z.of_nat i)))
  else if negb (start =? expected_start) then
    Err (CorruptRow ("range " +:+ z_to_string (Z.of_nat i) +:+ " starts at " +:+ z_to_string start +:+
                     ", expected " +:+ z_to_string expected_start +:+ " (ranges must be contiguous)"))
  else
    match is_last, end_present with
    | true, 0 => Ok None
    | true, _ => Err (CorruptRow "last range must be unbounded")
    | false, 1 =>
        if end_raw <=? start then Err (CorruptRow "range end must exceed start") else Ok (Some end_raw)
    | false, _ => Err (CorruptRow "non-last range must be bounded")
    end.

(** [cluster/src/range/map.rs:134-167] from_descriptor_bytes, the loop over the
    last [n] descriptors, which start at position [i] *)
Fixpoint read_descriptors (n i : nat) (expected_start : Z) (cur : bytes) : result KvError (list Z) :=
  match n with
  | O => Ok []
  | S n =>
      '(range_id, cur) ← map_take_u32 cur;
      '(start, cur) ← map_take_u32 cur;
      '(end_present, cur) ← map_take_u8 cur;
      '(end_raw, cur) ← map_take_u32 cur;
      e ← check_descriptor i (match n with O => true | _ => false end)
            expected_start range_id start end_present end_raw;
      bs ← read_descriptors n (S i) (default expected_start e) cur;
      Ok (option_list e ++ bs)
  end.

(** [cluster/src/range/map.rs:121-169] from_descriptor_bytes *)
Definition from_descriptor_bytes (b : bytes) : result KvError RangeMap :=
  '(version, cur) ← map_take_u8 b;
  if negb (version =? RANGE_MAP_VERSION) then
    Err (CorruptRow ("unknown range-map version " +:+ z_to_string version))
  else
    '(count, cur) ← map_take_u32 cur;
    if count =? 0 then Err (CorruptRow "range map has zero ranges")
    else
      bs ← read_descriptors (Z.to_nat count) 0 0 cur;
      Ok (mkRangeMap bs).

(** ** The replicated blob (meta.rs) *)

(** [cluster/src/range/meta.rs:14-19] read_range_map *)
Definition read_range_map (store : MemKv) : result KvError (option RangeMap) :=
  match kv_get store meta_range_map_key with
  | Some b => m ← from_descriptor_bytes b; Ok (Some m)
  | None => Ok None
  end.

(** [cluster/src/range/meta.rs:23-34] write_range_map, on the applied store of range 0
    ([None]: the state machine panics) *)
Definition write_range_map (store : MemKv) (m : RangeMap) : option MemKv :=
  apply_ops store [Put meta_range_map_key (to_descriptor_bytes m)].

(** [cluster/src/range/meta.rs:40-52] seed_if_absent, where the store read is the
    applied store the write goes to *)
Definition seed_if_absent (store : MemKv) (m : RangeMap) : option (result KvError MemKv) :=
  match read_range_map store with
  | Err e => Some (Err e)
  | Ok (Some _) => Some (Ok store)
  | Ok None => Ok <$> write_range_map store m
  end.

Inductive RangeMapWait : Type :=
| Decoded (m : RangeMap)
| DecodeFailed (e : KvError)
| TimedOut.

(** [cluster/src/range/meta.rs:58-82] wait_for_range_map: [store] is the applied store
    at the first turn of the loop and [later] what the turns after it find, one per
    wake-up before the deadline *)
Fixpoint wait_for_range_map (store : MemKv) (later : list MemKv) : RangeMapWait :=
  match read_range_map store with
  | Err e => DecodeFailed e
  | Ok (Some m) => Decoded m
  | Ok None =>
      match later with
      | [] => TimedOut
      | store :: later => wait_for_range_map store later
      end
  end.

(** ** Maps that partition the table ids *)

(** What [with_boundaries] asserts, of boundaries that are table ids. *)
Record map_ok (m : RangeMap) : Prop := {
  ok_sorted : StronglySorted Z.lt (0 :: boundaries m);
  ok_ids : Forall u32_ok (boundaries m);
  ok_count : Z.of_nat (range_count m) < 2 ^ 32
}.

(** The table ids of a descriptor: from its start up to, not including, its end. *)
Definition in_span (t : Z) (d : RangeDescriptor) : Prop :=
  start_table_id d <= t /\ match end_ d with Some e => t < e | None => True end.

Lemma windows2_sorted {A} (f : A -> A -> bool) (R : A -> A -> Prop) l :
  (forall x y, f x y = true <-> R x y) -> Transitive R ->
  (forallb (fun w => f w.1 w.2) (windows2 l) = true <-> StronglySorted R l).
Proof.
  intros Hf HR. induction l as [|x [|y l] IH].
  - split; [constructor|done].
  - split; [repeat constructor|done].
  - cbn [windows2 forallb fst snd]. rewrite andb_true_iff, IH, Hf. split.
    + intros [Hxy Hs]. constructor; [done|]. apply StronglySorted_inv in Hs as [_ Hall].
      constructor; [done|]. eapply Forall_impl; [exact Hall|]. intros z Hz. by etrans.
    + intros [Hs Hall]%StronglySorted_inv. by inversion Hall.
Qed.

Lemma with_boundaries_Some bs m :
  Forall u32_ok bs ->
  (with_boundaries bs = Some m <-> m = mkRangeMap bs /\ StronglySorted Z.lt (0 :: bs)).
Proof.
  intros Hbs. unfold with_boundaries.
  destruct (forallb (fun b => negb (b =? 0)) bs) eqn:E0; cbn [andb].
  - destruct (forallb _ (windows2 bs)) eqn:E1.
    + apply (windows2_sorted Z.ltb Z.lt) in E1; [|intros; apply Z.ltb_lt|exact _].
      split; [|naive_solver]. intros [= <-]. split; [done|]. constructor; [done|].
      rewrite forallb_forall in E0. rewrite Forall_forall in Hbs |- *. intros b Hb.
      specialize (E0 b (proj1 (list_elem_of_In _ _) Hb)). specialize (Hbs b Hb).
      apply negb_true_iff, Z.eqb_neq in E0. unfold u32_ok in Hbs. lia.
    + split; [done|]. intros [_ [Hs _]%StronglySorted_inv].
      apply (windows2_sorted Z.ltb Z.lt) in Hs; [|intros; apply Z.ltb_lt|exact _]. congruence.
  - split; [done|]. intros [_ [_ Hall]%StronglySorted_inv]. exfalso.
    apply not_true_iff_false in E0. apply E0, forallb_forall. intros b Hb.
    rewrite Forall_forall in Hall. apply list_elem_of_In in Hb. specialize (Hall b Hb).
    apply negb_true_iff, Z.eqb_neq. lia.
Qed.

Lemma partition_point_spec bs t :
  StronglySorted Z.lt bs ->
  let k := partition_point (fun b => b <=? t) bs in
  (k <= length bs)%nat /\ forall j b, bs !! j = Some b -> (b <=? t) = (j <? k)%nat.
Proof.
  intros Hs. unfold partition_point.
  pose proof (binary_search_by_spec (fun b => if b <=? t then Lt else Gt) bs) as Hb.
  destruct (binary_search_by _ bs) as [i|i].
  - destruct Hb as (x & _ & Hx); [|by destruct (x <=? t)].
    eapply StronglySorted_weaken_in; [|exact Hs]. intros x y _ _ Hxy.
    destruct (Z.leb_spec x t), (Z.leb_spec y t); done || lia.
  - destruct Hb as [Hi Hj].
    { eapply StronglySorted_weaken_in; [|exact Hs]. intros x y _ _ Hxy.
      destruct (Z.leb_spec x t), (Z.leb_spec y t); done || lia. }
    split; [done|]. intros j b Hb. specialize (Hj j b Hb).
    by destruct (b <=? t), (j <? i)%nat.
Qed.

Lemma as_range_id_small n : Z.of_nat n < 2 ^ 32 -> as_range_id n = Z.of_nat n.
Proof. intros Hn. apply Z.mod_small. lia. Qed.

Lemma descriptors_lookup m i d :
  Z.of_nat (range_count m) < 2 ^ 32 ->
  (descriptors m !! i = Some d <->
   (i < range_count m)%nat /\
   d = mkDescriptor (Z.of_nat i) (nth i (0 :: boundaries m) 0) (boundaries m !! i)).
Proof.
  intros Hc. unfold descriptors, range_ids. rewrite as_range_id_small by done.
  rewrite list_lookup_fmap, fmap_Some. setoid_rewrite lookup_seqZ.
  assert (forall i', i' = Z.of_nat i ->
    mkDescriptor i' (if i' =? 0 then 0 else nth (Z.to_nat i' - 1) (boundaries m) 0) (boundaries m !! Z.to_nat i') =
    mkDescriptor (Z.of_nat i) (nth i (0 :: boundaries m) 0) (boundaries m !! i)) as Hd.
  { intros i' ->. rewrite Nat2Z.id. destruct i as [|i]; [done|].
    destruct (Z.eqb_spec (Z.of_nat (S i)) 0); [lia|]. cbn [nth]. by rewrite Nat.sub_succ, Nat.sub_0_r. }
  split.
  - intros (i' & [-> Hi] & ->). split; [lia|]. by apply Hd.
  - intros [Hi ->]. eexists. split; [split; [reflexivity|lia]|]. symmetry. by apply Hd.
Qed.

Lemma descriptors_length m : Z.of_nat (range_count m) < 2 ^ 32 -> length (descriptors m) = range_count m.
Proof.
  intros Hc. unfold descriptors, range_ids. rewrite length_map, length_seqZ.
  rewrite as_range_id_small by done. lia.
Qed.

(** A table id is in the span of the range it is routed to, and of no other. *)
Lemma in_span_iff m t i d :
  map_ok m -> 0 <= t -> descriptors m !! i = Some d ->
  (in_span t d <-> i = partition_point (fun b => b <=? t) (boundaries m)).
Proof.
  intros [Hs _ Hc] Ht Hd. apply descriptors_lookup in Hd as [Hi ->]; [|done].
  pose proof (proj1 (StronglySorted_inv Hs)) as Hs'.
  destruct (partition_point_spec _ t Hs') as [Hk Hj].
  set (k := partition_point _ _) in *. clearbody k. unfold in_span. cbn [start_table_id end_].
  assert (nth i (0 :: boundaries m) 0 <= t <-> (i <= k)%nat) as ->.
  { destruct i as [|i]; cbn [nth]; [lia|]. unfold range_count in Hi.
    destruct (lookup_lt_is_Some_2 (boundaries m) i) as [b Hb]; [lia|].
    rewrite (nth_lookup_Some _ _ _ _ Hb). specialize (Hj i b Hb).
    destruct (Z.leb_spec b t), (Nat.ltb_spec i k); done || lia. }
  destruct (boundaries m !! i) as [b|] eqn:Hb.
  - specialize (Hj i b Hb). destruct (Z.leb_spec b t), (Nat.ltb_spec i k); done || lia.
  - apply lookup_ge_None in Hb. unfold range_count in Hi. lia.
Qed.

(** ** The blob *)

(** The descriptors of the ranges from position [i] on, the first starting at [s]. *)
Fixpoint descs_from (i : nat) (s : Z) (bs : list Z) : list RangeDescriptor :=
  match bs with
  | [] => [mkDescriptor (Z.of_nat i) s None]
  | b :: bs => mkDescriptor (Z.of_nat i) s (Some b) :: descs_from (S i) b bs
  end.

Lemma descs_from_length i s bs : length (descs_from i s bs) = S (length bs).
Proof. revert i s; induction bs as [|b bs IH]; intros i s; simpl; [done|]. by rewrite IH. Qed.

Lemma descs_from_lookup i s bs j :
  (j < S (length bs))%nat ->
  descs_from i s bs !! j = Some (mkDescriptor (Z.of_nat (i + j)) (nth j (s :: bs) 0) (bs !! j)).
Proof.
  revert i s j; induction bs as [|b bs IH]; intros i s [|j] Hj; cbn [descs_from length] in *;
    [by rewrite Nat.add_0_r|lia|by rewrite Nat.add_0_r|].
  rewrite lookup_cons, IH by lia. cbn [nth]. by rewrite <- Nat.add_succ_comm.
Qed.

Lemma descriptors_from m :
  Z.of_nat (range_count m) < 2 ^ 32 -> descriptors m = descs_from 0 0 (boundaries m).
Proof.
  intros Hc. apply list_eq_same_length with (n := range_count m);
    [apply descs_from_length|by apply descriptors_length|].
  intros j d d' Hj Hd Hd'. apply descriptors_lookup in Hd as [_ ->]; [|done].
  rewrite descs_from_lookup in Hd' by exact Hj. by injection Hd' as <-.
Qed.

Lemma map_take_u32_be v rest : u32_ok v -> map_take_u32 (be_bytes 4 v ++ rest) = Ok (v, rest).
Proof.
  intros Hv. unfold map_take_u32, map_take_n. rewrite length_app, be_bytes_length.
  rewrite bool_decide_eq_false_2 by lia. rsimpl.
  rewrite take_app_length' by (by rewrite be_bytes_length).
  rewrite drop_app_length' by (by rewrite be_bytes_length). by rewrite be_val_be_bytes.
Qed.

Lemma read_descriptors_S n i s cur :
  read_descriptors (S n) i s cur =
  '(range_id, cur) ← map_take_u32 cur;
  '(start, cur) ← map_take_u32 cur;
  '(end_present, cur) ← map_take_u8 cur;
  '(end_raw, cur) ← map_take_u32 cur;
  e ← check_descriptor i (match n with O => true | _ => false end) s range_id start end_present end_raw;
  bs ← read_descriptors n (S i) (default s e) cur;
  Ok (option_list e ++ bs).
Proof. done. Qed.

Lemma read_descs_from i s bs rest :
  StronglySorted Z.lt (s :: bs) -> Forall u32_ok (s :: bs) -> Z.of_nat (i + length bs) < 2 ^ 32 ->
  read_descriptors (S (length bs)) i s (concat (map descriptor_bytes (descs_from i s bs)) ++ rest) = Ok bs.
Proof.
  revert i s rest; induction bs as [|b bs IH]; intros i s rest Hs Hok Hi;
    inversion Hok as [|?? Hs0 Hbs]; subst; rewrite read_descriptors_S; cbn [descs_from map concat length];
    unfold descriptor_bytes at 1; cbn [range_id start_table_id end_]; rewrite <- !app_assoc;
    rewrite map_take_u32_be by (split; lia); rsimpl; rewrite map_take_u32_be by done; rsimpl;
    rewrite <- app_comm_cons; cbn [map_take_u8 mbind result_bind].
  - rewrite map_take_u32_be by (split; lia). rsimpl. unfold check_descriptor.
    by rewrite !Z.eqb_refl.
  - inversion Hbs as [|?? Hb0 _]; subst. rewrite map_take_u32_be by done. rsimpl.
    apply StronglySorted_inv in Hs as [Hs Hlt]. inversion Hlt as [|?? Hsb _]; subst.
    unfold check_descriptor. rewrite !Z.eqb_refl. cbn [negb].
    destruct (Z.leb_spec b s); [lia|]. rsimpl. cbn [default option_list].
    rewrite IH by (done || cbn [length] in Hi; lia). done.
Qed.

Lemma from_to_descriptor_bytes m :
  map_ok m -> from_descriptor_bytes (to_descriptor_bytes m) = Ok m.
Proof.
  intros [Hs Hok Hc]. unfold from_descriptor_bytes, to_descriptor_bytes. cbn [map_take_u8 mbind result_bind].
  change (RANGE_MAP_VERSION =? RANGE_MAP_VERSION) with true. cbn [negb].
  rewrite descriptors_length by done. rewrite map_take_u32_be by (split; lia). rsimpl.
  unfold range_count in *. destruct (Z.eqb_spec (Z.of_nat (S (length (boundaries m)))) 0); [lia|].
  rewrite Nat2Z.id, descriptors_from by done.
  rewrite <- (app_nil_r (concat _)), read_descs_from; [|done| |lia].
  - by destruct m.
  - constructor; [done|exact Hok].
Qed.

Lemma map_take_u32_Ok cur v rest :
  bytes_ok cur -> map_take_u32 cur = Ok (v, rest) -> u32_ok v /\ bytes_ok rest.
Proof.
  unfold map_take_u32, map_take_n. intros Hok. case_bool_decide; [done|]. rsimpl. intros [= <- <-].
  assert (length (take 4 cur) = 4%nat) as Hl by (rewrite length_take; lia).
  split; [|by apply Forall_drop]. unfold u32_ok.
  pose proof (be_val_bound (take 4 cur) ltac:(by apply Forall_take)) as Hb. by rewrite Hl in Hb.
Qed.

Lemma map_take_u8_Ok cur v rest : bytes_ok cur -> map_take_u8 cur = Ok (v, rest) -> bytes_ok rest.
Proof. destruct cur; [done|]. cbn [map_take_u8]. intros H [= _ <-]. by inversion H. Qed.

Lemma check_descriptor_Ok i is_last s rid st ep er e :
  check_descriptor i is_last s rid st ep er = Ok e ->
  st = s /\ match e with Some b => is_last = false /\ b = er /\ s < b | None => is_last = true end.
Proof.
  unfold check_descriptor. destruct (rid =? Z.of_nat i); [|done]. cbn [negb].
  destruct (Z.eqb_spec st s) as [->|]; [|done]. cbn [negb]. intros He. split; [done|].
  destruct is_last.
  - destruct ep; [by injection He as <-|done|done].
  - destruct ep as [|[]|]; try done. destruct (Z.leb_spec er s); [done|].
    injection He as <-. split_and!; [done|done|lia].
Qed.

(** The decoder only accepts boundaries that increase from the expected start. *)
Lemma read_descriptors_Ok n i s cur bs :
  bytes_ok cur -> u32_ok s -> read_descriptors n i s cur = Ok bs ->
  StronglySorted Z.lt (s :: bs) /\ Forall u32_ok bs /\ length bs = pred n.
Proof.
  revert i s cur bs; induction n as [|n IH]; intros i s cur bs Hcur Hs Hr; cbn [read_descriptors] in Hr.
  { injection Hr as <-. split_and!; [by repeat constructor|constructor|done]. }
  apply bind_Ok in Hr as ([rid c1] & H1 & Hr). apply map_take_u32_Ok in H1 as [_ Hc1]; [|done].
  apply bind_Ok in Hr as ([st c2] & H2 & Hr). apply map_take_u32_Ok in H2 as [_ Hc2]; [|done].
  apply bind_Ok in Hr as ([ep c3] & H3 & Hr). apply map_take_u8_Ok in H3 as Hc3; [|done].
  apply bind_Ok in Hr as ([er c4] & H4 & Hr). apply map_take_u32_Ok in H4 as [Her Hc4]; [|done].
  apply bind_Ok in Hr as (e & He & Hr). apply check_descriptor_Ok in He as [-> He].
  apply bind_Ok in Hr as (bs' & Hr & Hbs). injection Hbs as <-. destruct e as [b|].
  - destruct He as (Hn & -> & Hlt). destruct n as [|n]; [done|].
    apply IH in Hr as (Hsort & Hok & Hlen); [|done|done]. cbn [default option_list app] in *.
    split_and!; [|by constructor|simpl; lia]. constructor; [done|]. constructor; [done|].
    apply StronglySorted_inv in Hsort as [_ Hall]. eapply Forall_impl; [exact Hall|]. simpl. lia.
  - destruct n; [|done]. cbn [read_descriptors default option_list app] in *. injection Hr as <-.
    split_and!; [by repeat constructor|constructor|done].
Qed.

Lemma from_descriptor_bytes_ok b m :
  bytes_ok b -> from_descriptor_bytes b = Ok m -> map_ok m.
Proof.
  intros Hb Hr. unfold from_descriptor_bytes in Hr.
  apply bind_Ok in Hr as ([v c1] & H1 & Hr). apply map_take_u8_Ok in H1 as Hc1; [|done].
  destruct (v =? RANGE_MAP_VERSION); [|done]. cbn [negb] in Hr.
  apply bind_Ok in Hr as ([n c2] & H2 & Hr). apply map_take_u32_Ok in H2 as [Hn Hc2]; [|done].
  destruct (Z.eqb_spec n 0); [done|]. apply bind_Ok in Hr as (bs & Hr & Hm). injection Hm as <-.
  apply read_descriptors_Ok in Hr as (Hs & Hok & Hlen); [|done|done].
  split; [done|done|]. unfold range_count. cbn [boundaries]. unfold u32_ok in Hn. lia.
Qed.

Lemma read_absent store : kv_get store meta_range_map_key = None -> read_range_map store = Ok None.
Proof. intros Hn. unfold read_range_map. by rewrite Hn. Qed.

Lemma wait_absent store earlier last :
  Forall (fun s => kv_get s meta_range_map_key = None) (store :: earlier) ->
  wait_for_range_map store (earlier ++ [last]) = wait_for_range_map last [].
Proof.
  revert store; induction earlier as [|s earlier IH]; intros store Hall; inversion Hall; subst;
    cbn [app wait_for_range_map]; rewrite (read_absent store) by done; [done|by apply IH].
Qed.

(** ** Properties *)

(** Routing by the range map is a partition of the table ids: whatever blob the
    decoder accepts gives a map with a range for every table id, whose descriptor has
    the id of the range in its place and a span that contains the table id, and no
    other descriptor's span contains it; table 0, the system table, is in range 0. *)
Theorem decoded_map_partitions b m t :
  bytes_ok b -> from_descriptor_bytes b = Ok m -> u32_ok t ->
  range_for_table m 0 = 0 /\
  In (range_for_table m t) (range_ids m) /\
  exists d, descriptors m !! Z.to_nat (range_for_table m t) = Some d /\
    range_id d = range_for_table m t /\ in_span t d /\
    forall d', In d' (descriptors m) -> in_span t d' -> d' = d.
Proof.
  intros Hb Hm Ht. apply from_descriptor_bytes_ok in Hm as Hok; [|done].
  pose proof (ok_count _ Hok) as Hc. pose proof (ok_sorted _ Hok) as Hs.
  pose proof (proj1 (StronglySorted_inv Hs)) as Hs'.
  assert (forall t, Z.of_nat (partition_point (fun b => b <=? t) (boundaries m)) < Z.of_nat (range_count m)) as Hlt.
  { intros t'. destruct (partition_point_spec (boundaries m) t') as [Hk _]; [done|]. unfold range_count. lia. }
  assert (forall t, range_for_table m t = Z.of_nat (partition_point (fun b => b <=? t) (boundaries m))) as Hr.
  { intros t'. apply as_range_id_small. specialize (Hlt t'). lia. }
  split_and!.
  - rewrite Hr. destruct (partition_point_spec (boundaries m) 0) as [Hk Hj]; [done|].
    destruct (partition_point _ _) as [|k]; [done|]. exfalso.
    destruct (lookup_lt_is_Some_2 (boundaries m) 0) as [b0 Hb0]; [lia|].
    specialize (Hj 0%nat b0 Hb0). apply Z.leb_le in Hj.
    apply StronglySorted_inv in Hs as [_ Hall]. rewrite Forall_forall in Hall.
    specialize (Hall b0 (list_elem_of_lookup_2 _ _ _ Hb0)). lia.
  - rewrite Hr. apply list_elem_of_In, elem_of_seqZ. rewrite as_range_id_small by done.
    specialize (Hlt t). lia.
  - rewrite Hr, Nat2Z.id. set (k := partition_point _ _) in *.
    destruct (lookup_lt_is_Some_2 (descriptors m) k) as [d Hd].
    { rewrite descriptors_length by done. specialize (Hlt t). unfold k. lia. }
    exists d. split; [done|]. split.
    { apply descriptors_lookup in Hd as [_ ->]; [done|done]. }
    split; [by apply (in_span_iff m t k d Hok (proj1 Ht) Hd)|].
    intros d' Hin Hsp. apply list_elem_of_In, list_elem_of_lookup in Hin as [j Hj].
    apply (in_span_iff m t j d' Hok (proj1 Ht) Hj) in Hsp. fold k in Hsp. subst j.
    rewrite Hd in Hj. by injection Hj as <-.
Qed.

Lemma decoded_map_partitions_witness :
  from_descriptor_bytes (to_descriptor_bytes (mkRangeMap [10; 20])) = Ok (mkRangeMap [10; 20]) /\
  range_for_table (mkRangeMap [10; 20]) 10 = 1 /\
  exists d, descriptors (mkRangeMap [10; 20]) !! 1%nat = Some d /\ in_span 10 d.
Proof.
  split; [reflexivity|]. split; [reflexivity|].
  destruct (decoded_map_partitions (to_descriptor_bytes (mkRangeMap [10; 20])) (mkRangeMap [10; 20]) 10)
    as (_ & _ & d & Hd & _ & Hin & _).
  - apply (bool_decide_unpack (Forall u8_ok _)). vm_compute. exact I.
  - reflexivity.
  - unfold u32_ok. lia.
  - exists d. split; [exact Hd|exact Hin].
Defined.

(** A valid range map survives its blob and is seeded once: seeding an empty range-0
    store makes it readable and ends every wait for it, the map read back is the one
    that was seeded, and a second seed, of any map, changes nothing. *)
Theorem seeded_map_reads_back store bs m other :
  Forall u32_ok bs -> Z.of_nat (length bs) + 1 < 2 ^ 32 -> with_boundaries bs = Some m ->
  kv_get store meta_range_map_key = None ->
  exists store', seed_if_absent store m = Some (Ok store') /\
    read_range_map store' = Ok (Some m) /\
    (forall earlier, Forall (fun s => kv_get s meta_range_map_key = None) earlier ->
       wait_for_range_map store (earlier ++ [store']) = Decoded m) /\
    seed_if_absent store' other = Some (Ok store').
Proof.
  intros Hu Hl Hm Hnone. apply with_boundaries_Some in Hm as [-> Hs]; [|done].
  assert (map_ok (mkRangeMap bs)) as Hok by (split; [done|done|unfold range_count; cbn [boundaries]; lia]).
  set (store' := kv_put store meta_range_map_key (to_descriptor_bytes (mkRangeMap bs))).
  assert (read_range_map store' = Ok (Some (mkRangeMap bs))) as Hread.
  { unfold read_range_map, store'. rewrite kv_get_put, decide_True by done.
    by rewrite from_to_descriptor_bytes. }
  exists store'. unfold seed_if_absent. rewrite read_absent, Hread by done.
  split; [done|]. split; [done|]. split; [|done]. intros earlier Hall.
  rewrite wait_absent by (by constructor). cbn [wait_for_range_map]. by rewrite Hread.
Qed.

Lemma seeded_map_reads_back_witness :
  exists store', seed_if_absent kv_new (mkRangeMap [2]) = Some (Ok store') /\
    read_range_map store' = Ok (Some (mkRangeMap [2])).
Proof.
  destruct (seeded_map_reads_back kv_new [2] (mkRangeMap [2]) single) as (store' & Hseed & Hread & _).
  - repeat constructor; unfold u32_ok; lia.
  - simpl; lia.
  - reflexivity.
  - reflexivity.
  - exists store'. split; [exact Hseed|exact Hread].
Defined.
