(* ===== verification/Act.v ===== *)
(** * Actions

    Computations on a shared state, which end with a value, an error of the executor or
    a panic, and a program logic for them: [wp m Q E s] says that the action [m] run in
    state [s] ends in a state where [Q] holds of its value, or [E] of its error. *)
From stdpp Require Import base list gmap strings.
From S2P Require Import Prelude Errors EvalOps.

(** Actions on a state, which fail with an error of the executor or panic. *)
Definition act (S A : Type) : Type := S -> S * xresult A.

#[export] Instance act_ret S : MRet (act S) := fun A a s => (s, Ok a).
#[export] Instance act_bind S : MBind (act S) := fun A B f m s =>
  match m s with
  | (s, Ok a) => f a s
  | (s, Err e) => (s, Err e)
  end.

Definition io_lift {S A} (r : xresult A) : act S A := fun s => (s, r).
Definition io_raise {S A} (e : ExecError) : act S A := io_lift (raise e).
Definition io_get {S} : act S S := fun s => (s, Ok s).
Definition io_modify {S} (f : S -> S) : act S () := fun s => (f s, Ok ()).
Definition io_await {S A} (f : S -> S * result ExecError A) : act S A :=
  fun s => let '(s, r) := f s in (s, lift r).

(** An error as a value; a panic is not caught. *)
Definition io_try {S A} (m : act S A) : act S (result ExecError A) := fun s =>
  match m s with
  | (s, Ok a) => (s, Ok (Ok a))
  | (s, Err (Raised e)) => (s, Ok (Err e))
  | (s, Err Panicked) => (s, Err Panicked)
  end.

Fixpoint io_fold {St A S} (f : S -> A -> act St S) (acc : S) (l : list A) : act St S :=
  match l with
  | [] => mret acc
  | x :: l => acc ← f acc x; io_fold f acc l
  end.

(** ** The logic *)

Definition wp {S A} (m : act S A) (Q : A -> S -> Prop) (E : fault ExecError -> S -> Prop) (s : S) : Prop :=
  match m s with
  | (s, Ok a) => Q a s
  | (s, Err e) => E e s
  end.

Section Logic.
Context {S : Type}.

Lemma wp_run {A} (m : act S A) Q E s s' r :
  wp m Q E s -> m s = (s', r) -> match r with Ok a => Q a s' | Err e => E e s' end.
Proof. unfold wp. intros Hw Em. by rewrite Em in Hw. Qed.

Lemma wp_mono {A} (m : act S A) (Q Q' : A -> S -> Prop) (E E' : fault ExecError -> S -> Prop) s :
  wp m Q E s -> (forall a s, Q a s -> Q' a s) -> (forall e s, E e s -> E' e s) -> wp m Q' E' s.
Proof. unfold wp. destruct (m s) as [s' [a|e]]; auto. Qed.

Lemma wp_bind {A B} (m : act S A) (f : A -> act S B) Q E s :
  wp m (fun a => wp (f a) Q E) E s -> wp (m ≫= f) Q E s.
Proof. unfold wp, mbind, act_bind. by destruct (m s) as [s' [a|e]]. Qed.

Lemma wp_ret {A} (a : A) (Q : A -> S -> Prop) E s : Q a s -> wp (mret a) Q E s.
Proof. done. Qed.

Lemma wp_lift {A} (r : xresult A) (Q : A -> S -> Prop) E s :
  (forall a, r = Ok a -> Q a s) -> (forall e, r = Err e -> E e s) -> wp (io_lift r) Q E s.
Proof. unfold wp, io_lift. destruct r; auto. Qed.

Lemma wp_raise {A} e (Q : A -> S -> Prop) E s : E (Raised e) s -> wp (io_raise e) Q E s.
Proof. done. Qed.

Lemma wp_get (Q : S -> S -> Prop) E s : Q s s -> wp io_get Q E s.
Proof. done. Qed.

Lemma wp_modify (f : S -> S) (Q : () -> S -> Prop) E s : Q () (f s) -> wp (io_modify f) Q E s.
Proof. done. Qed.

Lemma wp_await {A} (f : S -> S * result ExecError A) (Q : A -> S -> Prop) E s :
  (forall s' a, f s = (s', Ok a) -> Q a s') -> (forall s' e, f s = (s', Err e) -> E (Raised e) s') ->
  wp (io_await f) Q E s.
Proof.
  intros HQ HE. unfold wp, io_await. destruct (f s) as [s' [a|e]] eqn:Ef; [by apply HQ|by apply HE].
Qed.

Lemma wp_try {A} (m : act S A) (Q : result ExecError A -> S -> Prop) E s :
  wp m (fun a => Q (Ok a)) (fun e s => match e with Raised e => Q (Err e) s | Panicked => E Panicked s end) s ->
  wp (io_try m) Q E s.
Proof. unfold wp, io_try. by destruct (m s) as [s' [a|[e|]]]. Qed.

(** A loop that keeps an invariant. *)
Lemma wp_fold {A T} (f : T -> A -> act S T) (I : T -> S -> Prop) E l acc s :
  I acc s -> (forall acc x s, In x l -> I acc s -> wp (f acc x) I E s) -> wp (io_fold f acc l) I E s.
Proof.
  revert acc s; induction l as [|x l IH]; intros acc s HI Hf; cbn [io_fold]; [by apply wp_ret|].
  apply wp_bind. eapply wp_mono; [apply Hf; [by left|done]| |done]. intros acc' s' HI'.
  apply IH; [done|]. intros. apply Hf; [by right|done].
Qed.
End Logic.

(** One step of a computation whose first action is known. *)
Ltac wp_step :=
  lazymatch goal with
  | |- wp (mbind _ _) _ _ _ => apply wp_bind
  | |- wp (mret _) _ _ _ => apply wp_ret
  | |- wp (io_raise _) _ _ _ => apply wp_raise
  | |- wp io_get _ _ _ => apply wp_get
  | |- wp (io_modify _) _ _ _ => apply wp_modify
  | |- wp (io_try _) _ _ _ => apply wp_try
  end.
