(* ===== verification/Write.v ===== *)
(** * Statements that write (executor/src/exec.rs)

    DDL, INSERT, UPDATE, DELETE and the locking SELECT, over the state that the
    sessions of a range share: the store, the transaction registry, the row-id
    sequences and the row-lock table. A computation on this state is an [io] action;
    what happens while one waits, for a lock or for a batch to commit, is an operation
    of the class [Awaits], so that the theorems hold whatever other sessions do
    meanwhile. *)
From Stdlib Require Import ZArith Lia Ascii.
From stdpp Require Import base list gmap strings.
From S2P Require Import Prelude Text Chars Keys Store Datum Float DateTimeBin ExtArith DateTime.
From S2P Require Import Calendar Numeric NumericFn Ops Cast Mvcc Errors Catalog Scope XidAlloc LockMgr.
From S2P Require Import Exec Ast AggCall EvalOps Func DateTimeFn FormatFn Eval Wire Project.
From S2P Require Import Join Aggregate Values SetOps ScanBounds Describe Query Act.
Open Scope Z_scope.

(** ** EngineState state and actions *)

(** [executor/src/lib.rs:63-77] SqlEngine, what its sessions change. [sh_range0] is
    range 0's store on the engine of another range, and [None] where the catalog is in
    the engine's own store. *)
Record EngineState : Type := mkShared {
  sh_kv : MemKv;
  sh_range0 : option MemKv;
  sh_pa : ProcArray;
  sh_seq : SequenceManager;
  sh_locks : Inner
}.

Definition catalog_kv (s : EngineState) : MemKv := default (sh_kv s) (sh_range0 s).
Definition set_kv (kv : MemKv) (s : EngineState) : EngineState :=
  mkShared kv (sh_range0 s) (sh_pa s) (sh_seq s) (sh_locks s).
Definition set_pa (pa : ProcArray) (s : EngineState) : EngineState :=
  mkShared (sh_kv s) (sh_range0 s) pa (sh_seq s) (sh_locks s).
Definition set_locks (l : Inner) (s : EngineState) : EngineState :=
  mkShared (sh_kv s) (sh_range0 s) (sh_pa s) (sh_seq s) l.

(** What an await does to the shared state, and how it ends: the traits [Committer]
    and [Linearizer], the barrier on range 0, the row locks and the catalog lock. *)
Class Awaits : Type := {
  aw_commit : list WriteOp -> EngineState -> EngineState * result ExecError ();
  aw_readable : EngineState -> EngineState * result ExecError ();
  aw_range0_readable : EngineState -> EngineState * result ExecError ();
  aw_acquire : RowId -> LockMode -> Z -> EngineState -> EngineState * bool;
  aw_catalog_lock : EngineState -> EngineState
}.

(** Actions on the shared state. *)
Abbreviation io := (act EngineState).

Section Write.
Context `{ExtCal} `{MathLib} `{Unicode} `{!ExtPow}.
Context (default_ctx : EvalCtx) `{!Awaits}.

(** ** DDL *)

(** [executor/src/exec.rs:222-224] command *)
Definition command (tag : string) : QueryResult := QCommand tag.

(** [executor/src/exec.rs:234-240] normalize_mapping_user *)
Definition normalize_mapping_user (user : string) : string :=
  if eq_ignore_ascii_case user "current_user" || eq_ignore_ascii_case user "public"
  then "public" else user.

(** [executor/src/exec.rs:244-250] ignore_missing, on the store the catalog leaves *)
Definition ignore_missing (kv : MemKv) (r : result CatalogError MemKv) (if_exists : bool)
  : result ExecError MemKv :=
  match r with
  | Ok kv' => Ok kv'
  | Err (UndefinedObject n) => if if_exists then Ok kv else Err (ECatalog (UndefinedObject n))
  | Err e => Err (ECatalog e)
  end.

Definition table_columns (columns : list ColumnDef) : list Column :=
  map (fun c => mkColumn (cd_name c) (cd_ty c)) columns.

(** Catalog operations that write the store themselves. *)
Definition direct (tag : string) (r : result ExecError MemKv) : io (QueryResult * list WriteOp) :=
  kv ← io_lift (lift r);
  _ ← io_modify (set_kv kv);
  mret (command tag, []).

Definition cat_err {A} (r : result CatalogError A) : result ExecError A := map_err ECatalog r.

(** The tables that IMPORT FOREIGN SCHEMA creates, one after the other: a failure
    leaves the ones before it in the store. *)
Fixpoint import_tables (server : string) (tables : list ImportedTable) : io () :=
  match tables with
  | [] => mret ()
  | t :: tables =>
      s ← io_get;
      r ← io_lift (lift (cat_err (create_foreign_table (sh_kv s) (im_name t) (im_columns t) server (im_options t))));
      _ ← io_modify (set_kv r.2);
      import_tables server tables
  end.

(** [executor/src/exec.rs:63-219] execute_ddl *)
Definition execute_ddl (stmt : Statement) (fctx : ForeignCtx) : io (QueryResult * list WriteOp) :=
  s ← io_get;
  let kv := sh_kv s in
  match stmt with
  | CreateTable name columns =>
      '(_, ops) ← io_lift (lift (cat_err (create_table_ops kv name (table_columns columns))));
      mret (QCommand "CREATE TABLE", ops)
  | DropTable name =>
      ops ← io_lift (lift (cat_err (drop_table_ops kv name)));
      mret (QCommand "DROP TABLE", ops)
  | CreateFdw name options =>
      direct "CREATE FOREIGN DATA WRAPPER" (cat_err (create_fdw kv name options))
  | DropFdw name if_exists =>
      direct "DROP FOREIGN DATA WRAPPER" (ignore_missing kv (drop_fdw kv name) if_exists)
  | CreateServer name wrapper options =>
      direct "CREATE SERVER" (cat_err (create_server kv name wrapper options))
  | DropServer name if_exists =>
      direct "DROP SERVER" (ignore_missing kv (drop_server kv name) if_exists)
  | CreateUserMapping user server options =>
      direct "CREATE USER MAPPING"
        (cat_err (create_user_mapping kv (normalize_mapping_user user) server options))
  | DropUserMapping user server if_exists =>
      direct "DROP USER MAPPING"
        (ignore_missing kv (drop_user_mapping kv (normalize_mapping_user user) server) if_exists)
  | CreateForeignTable name columns server options =>
      direct "CREATE FOREIGN TABLE"
        (r ← cat_err (create_foreign_table kv name (table_columns columns) server options); Ok r.2)
  | DropForeignTable name if_exists =>
      direct "DROP FOREIGN TABLE"
        (match drop_table kv name with
         | Err (UndefinedTable n) => if if_exists then Ok kv else Err (ECatalog (UndefinedTable n))
         | r => cat_err r
         end)
  | AlterServer _ _ => io_raise (EUnsupported "ALTER SERVER not supported")
  | AlterUserMapping _ _ _ => io_raise (EUnsupported "ALTER USER MAPPING not supported")
  | ImportForeignSchema _ selector server _ =>
      srv ← io_lift (lift (cat_err (get_server kv server)));
      let mapping := res_ok (get_user_mapping kv (fx_current_user fctx) server) in
      match fx_scanner fctx with
      | None => io_raise (EUnsupported "foreign tables require the `kafka` feature")
      | Some scanner =>
          tables ← io_lift (fs_import_schema scanner srv mapping (from_selector selector));
          _ ← import_tables (srv_name srv) tables;
          mret (command "IMPORT FOREIGN SCHEMA", [])
      end
  | _ => io_raise (EUnsupported "not a DDL statement")
  end.

(** ** INSERT *)

(** [executor/src/exec.rs:254-265] resolve_targets *)
Definition resolve_targets (t : Table) (columns : option (list string)) : result ExecError (list nat) :=
  match columns with
  | Some cols => mapR (fun c => ok_or (column_index t c) (EUndefinedColumn c)) cols
  | None => Ok (seq 0 (length (t_columns t)))
  end.

(** [v[idx] = coerce(value, t.columns[idx].ty)] *)
Definition assign (t : Table) (ctx : EvalCtx) (row : Row) (idx : nat) (v : Datum) : xresult Row :=
  c ← panic_or (t_columns t !! idx);
  v ← coerce v (c_ty c) ctx;
  if bool_decide (idx < length row)%nat then Ok (<[idx := v]> row) else Err Panicked.

(** The row of one VALUES item: the columns it does not name are NULL. *)
Definition insert_row (t : Table) (target_idx : list nat) (ctx : EvalCtx) (row_exprs : list Expr)
  : xresult Row :=
  if negb (length row_exprs =? length target_idx)%nat then
    raise (ETypeMismatch "INSERT has the wrong number of expressions for the target columns")
  else
    foldM (fun full '(slot, e) => v ← eval e scope_empty [] ctx; assign t ctx full slot v)
      (replicate (length (t_columns t)) DNull) (zip target_idx row_exprs).

(** The versions of the rows of an INSERT, from row id [rowid] up. *)
Fixpoint insert_rows (t : Table) (target_idx : list nat) (xid : Z) (ctx : EvalCtx) (rowid : Z)
    (rows : list (list Expr)) : xresult (list WriteOp) :=
  match rows with
  | [] => Ok []
  | row_exprs :: rows =>
      full ← insert_row t target_idx ctx row_exprs;
      ops ← insert_rows t target_idx xid ctx (rowid + 1) rows;
      Ok (insert_op (t_id t) rowid xid full :: ops)
  end.

Definition io_seq_alloc (table count : Z) : io (Z * option WriteOp) := fun s =>
  match seq_alloc (sh_seq s) (sh_kv s) table count with
  | Ok (start, op, sq, kv) => (mkShared kv (sh_range0 s) (sh_pa s) sq (sh_locks s), Ok (start, op))
  | Err e => (s, Err (Raised e))
  end.

(** [executor/src/exec.rs:294-341] execute_write, INSERT *)
Definition execute_insert (table : string) (columns : option (list string)) (rows : list (list Expr))
    (xid : Z) (ctx : EvalCtx) : io (QueryResult * list WriteOp) :=
  match rows with
  | [] => mret (QCommand "INSERT 0 0", [])
  | _ =>
      s ← io_get;
      t ← io_lift (lift (cat_err (get_table (catalog_kv s) table)));
      target_idx ← io_lift (lift (resolve_targets t columns));
      '(start, seq_op) ← io_seq_alloc (t_id t) (Z.of_nat (length rows));
      ops ← io_lift (insert_rows t target_idx xid ctx start rows);
      mret (QCommand ("INSERT 0 " +:+ z_to_string (Z.of_nat (length rows))), option_list seq_op ++ ops)
  end.

(** ** Rows under their locks *)

(** The per-row steps that UPDATE, DELETE and the locking SELECT share: the filter on
    the row as scanned, the lock, the re-read under the lock, the filter again. The
    result is the version to work on. *)
Definition locked_row (t : Table) (scope : Scope) (filter : option Expr) (mode : LockMode)
    (snapshot : Snapshot) (xid : Z) (repeatable_read : bool) (ctx : EvalCtx) (v : Version)
  : io (option (Z * Row)) :=
  let '(rowid, _, scanned_row) := v in
  matches_ ← io_lift (row_matches filter scope scanned_row ctx);
  if negb matches_ then mret None
  else
    granted ← (fun s => let '(s, b) := aw_acquire (t_id t, rowid) mode xid s in (s, Ok b) : EngineState * xresult bool);
    if negb granted then io_raise EDeadlock
    else
      s ← io_get;
      found ← io_lift (lift (eval_plan_qual (sh_kv s) (catalog_kv s) (sh_pa s) snapshot t rowid xid repeatable_read));
      match found with
      | None => mret None
      | Some (cur_xmin, cur_row) =>
          matches_ ← io_lift (row_matches filter scope cur_row ctx);
          mret (if matches_ : bool then Some (cur_xmin, cur_row) else None)
      end.

(** The snapshots and identity a statement runs with. *)
Record StmtCtx : Type := mkStmt {
  st_gsnap : Snapshot;
  st_snapshot : Snapshot;
  st_xid : Z;
  st_rr : bool
}.

(** The loop over the rows the statement sees: [work] gives the operations on each row
    that is locked and still matches. *)
Definition write_rows (t : Table) (filter : option Expr) (st : StmtCtx) (ctx : EvalCtx)
    (work : Z -> Z -> Row -> xresult (list WriteOp)) : io (Z * list WriteOp) :=
  let scope := scope_single t (t_name t) in
  s ← io_get;
  scanned ← io_lift (lift (scan_live (sh_kv s) (catalog_kv s) (st_gsnap st) (st_snapshot st) (Some (st_xid st)) t));
  io_fold (fun '(n, ops) v =>
    found ← locked_row t scope filter Exclusive (st_snapshot st) (st_xid st) (st_rr st) ctx v;
    match found with
    | None => mret (n, ops)
    | Some (cur_xmin, cur_row) =>
        new ← io_lift (work v.1.1 cur_xmin cur_row);
        mret (n + 1, ops ++ new)
    end) (0, []) scanned.

(** The row an UPDATE makes of the current one; the assignments read the old values. *)
Definition updated_row (t : Table) (targets : list (nat * Expr)) (scope : Scope) (ctx : EvalCtx) (cur_row : Row)
  : xresult Row :=
  foldM (fun next '(idx, e) => v ← eval e scope cur_row ctx; assign t ctx next idx v) cur_row targets.

(** [executor/src/exec.rs:342-429] execute_write, UPDATE *)
Definition execute_update (table : string) (assignments : list (string * Expr)) (filter : option Expr)
    (st : StmtCtx) (ctx : EvalCtx) : io (QueryResult * list WriteOp) :=
  s ← io_get;
  t ← io_lift (lift (cat_err (get_table (catalog_kv s) table)));
  let scope := scope_single t (t_name t) in
  targets ← io_lift (lift (mapR (fun '(col, e) =>
    idx ← ok_or (column_index t col) (EUndefinedColumn col); Ok (idx, e)) assignments));
  '(n, ops) ← write_rows t filter st ctx (fun rowid cur_xmin cur_row =>
    next ← updated_row t targets scope ctx cur_row;
    Ok (update_ops (t_id t) rowid (st_xid st) cur_xmin cur_row next));
  mret (QCommand ("UPDATE " +:+ z_to_string n), ops).

(** [executor/src/exec.rs:430-491] execute_write, DELETE *)
Definition execute_delete (table : string) (filter : option Expr) (st : StmtCtx) (ctx : EvalCtx)
  : io (QueryResult * list WriteOp) :=
  s ← io_get;
  t ← io_lift (lift (cat_err (get_table (catalog_kv s) table)));
  '(n, ops) ← write_rows t filter st ctx (fun rowid cur_xmin cur_row =>
    Ok (delete_ops (t_id t) rowid (st_xid st) cur_xmin cur_row));
  mret (QCommand ("DELETE " +:+ z_to_string n), ops).

(** [executor/src/exec.rs:278-494] execute_write *)
Definition execute_write (st : StmtCtx) (stmt : Statement) (ctx : EvalCtx)
  : io (QueryResult * list WriteOp) :=
  match stmt with
  | Insert table columns rows => execute_insert table columns rows (st_xid st) ctx
  | Update table assignments filter => execute_update table assignments filter st ctx
  | DeleteFrom table filter => execute_delete table filter st ctx
  | _ => io_raise (EUnsupported "not a write statement")
  end.

(** ** Locking SELECT *)

Definition opt_mapR {E A B} (f : A -> result E B) (o : option A) : result E (option B) :=
  match o with
  | Some x => y ← f x; Ok (Some y)
  | None => Ok None
  end.

(** [executor/src/subquery.rs:42-62] resolve_in_select *)
Definition resolve_in_select (env : ReadEnv) (s : SelectStmt) : xresult SelectStmt :=
  let '(mkSelectStmt projection from filter distinct group_by having order_by limit offset lock) := s in
  let resolve := resolve_expr default_ctx env ∅ in
  projection ← mapR (resolve_item_expr default_ctx env ∅) projection;
  filter ← opt_mapR resolve filter;
  having ← opt_mapR resolve having;
  group_by ← mapR resolve group_by;
  order_by ← mapR (resolve_order_item default_ctx env ∅) order_by;
  Ok (mkSelectStmt projection from filter distinct group_by having order_by limit offset lock).

(** [executor/src/exec.rs:1360-1462] execute_read_locking *)
Definition execute_read_locking (st : StmtCtx) (mode : LockMode) (s : SelectStmt) (ctx : EvalCtx)
  : io QueryResult :=
  sh ← io_get;
  let env := mkEnv (catalog_kv sh) (sh_kv sh) (catalog_kv sh) (st_gsnap st) (st_snapshot st)
               (Some (st_xid st)) ctx foreign_none in
  s ← io_lift (resolve_in_select env s);
  let '(mkSelectStmt projection from filter distinct _ _ order_by limit offset _) := s in
  if is_aggregate_query s then
    io_raise (EUnsupported "FOR UPDATE/SHARE is not allowed with aggregate functions or GROUP BY")
  else if distinct then
    io_raise (EUnsupported "FOR UPDATE/SHARE is not allowed with DISTINCT clause")
  else
    t ← match from with
        | [TableRef name _] => io_lift (lift (cat_err (get_table (catalog_kv sh) name)))
        | [] => io_raise (EUnsupported "FOR UPDATE/SHARE requires a FROM clause")
        | _ => io_raise (EUnsupported "FOR UPDATE/SHARE with a join is not supported")
        end;
    let scope := scope_single t (t_name t) in
    scanned ← io_lift (lift (scan_live (sh_kv sh) (catalog_kv sh) (st_gsnap st) (st_snapshot st)
                               (Some (st_xid st)) t));
    kept ← io_fold (fun kept v =>
      found ← locked_row t scope filter mode (st_snapshot st) (st_xid st) (st_rr st) ctx v;
      match found with
      | None => mret kept
      | Some (_, cur_row) => mret (kept ++ [cur_row])
      end) [] scanned;
    io_lift (project_order_limit projection (mkRowClauses distinct order_by limit offset) scope kept ctx).

End Write.
