(* ===== verification/Session.v ===== *)
(** * Sessions (executor/src/session.rs)

    One connection's transaction state machine over the shared state of its engine:
    BEGIN, COMMIT and ROLLBACK, reads with their snapshots, DDL, writes in autocommit
    and in a block, the locking SELECT, the session parameter TimeZone, and the
    participant side of a cross-range transaction. *)
From Stdlib Require Import ZArith Lia Ascii.
From stdpp Require Import base list gmap strings.
From S2P Require Import Lexer Parser.
From S2P Require Import Prelude Text Chars Keys Store Datum Float DateTimeBin ExtArith DateTime.
From S2P Require Import Calendar Numeric NumericFn Ops Cast Mvcc Errors Catalog Scope XidAlloc LockMgr.
From S2P Require Import Exec Ast AggCall EvalOps Func DateTimeFn FormatFn Eval Wire Project.
From S2P Require Import Join Aggregate Values SetOps ScanBounds Describe Query Act Write.
Open Scope Z_scope.

(** ** Session parameters *)

(** [executor/src/session.rs:78-82] GucState *)
Record GucState : Type := mkGuc {
  committed : string;
  txn_session_override : option string;
  txn_local_override : option string
}.

(** [executor/src/session.rs:85-91] GucState::default *)
Definition guc_default : GucState := mkGuc "UTC" None None.

(** [executor/src/session.rs:97-102] GucState::effective *)
Definition effective (g : GucState) : string :=
  default (default (committed g) (txn_session_override g)) (txn_local_override g).

(** [executor/src/session.rs:105-107] GucState::set_session *)
Definition set_session (v : string) (g : GucState) : GucState :=
  mkGuc (committed g) (Some v) (txn_local_override g).

(** [executor/src/session.rs:110-112] GucState::set_local *)
Definition set_local (v : string) (g : GucState) : GucState :=
  mkGuc (committed g) (txn_session_override g) (Some v).

(** [executor/src/session.rs:116-118] GucState::reset *)
Definition guc_reset (g : GucState) : GucState := set_session "UTC" g.

(** [executor/src/session.rs:122-127] GucState::commit *)
Definition guc_commit (g : GucState) : GucState :=
  mkGuc (default (committed g) (txn_session_override g)) None None.

(** [executor/src/session.rs:130-133] GucState::rollback *)
Definition guc_rollback (g : GucState) : GucState := mkGuc (committed g) None None.

Section Session.
Context `{ExtCal} `{MathLib} `{Unicode} `{!ExtPow}.
Context (default_ctx : EvalCtx) `{!Awaits} (clock : EngineState -> Timestamp).

(** [executor/src/session.rs:24-51] TxnCtx *)
Record TxnCtx : Type := mkTxn {
  tx_xid : option Z;
  tx_snapshot : Snapshot;
  tx_rr : bool;
  tx_gsnap : option Snapshot;
  tx_written : list (Z * Z);
  tx_now : Timestamp
}.

(** [executor/src/session.rs:56-60] TxnState *)
Inductive TxnState : Type :=
| Idle
| InTransaction (c : TxnCtx)
| Failed (c : TxnCtx).

(** [executor/src/session.rs:153-194] SqlSession; the handles to shared state are in
    [EngineState], and of [gtm] and [range0_barrier] only whether they are there matters *)
Record SqlSession : Type := mkSession {
  ss_state : TxnState;
  ss_guc : GucState;
  ss_global_xid : option Z;
  ss_mode : PersistMode;
  ss_gtm : bool;
  ss_barrier : bool;
  ss_scanner : option ForeignScanner
}.

(** [executor/src/session.rs:201-234] SqlSession::new *)
Definition session_new (mode : PersistMode) (gtm barrier : bool) (scanner : option ForeignScanner) : SqlSession :=
  mkSession Idle guc_default None mode gtm barrier scanner.

Definition with_state (st : TxnState) (s : SqlSession) : SqlSession :=
  mkSession st (ss_guc s) (ss_global_xid s) (ss_mode s) (ss_gtm s) (ss_barrier s) (ss_scanner s).
Definition with_guc (g : GucState) (s : SqlSession) : SqlSession :=
  mkSession (ss_state s) g (ss_global_xid s) (ss_mode s) (ss_gtm s) (ss_barrier s) (ss_scanner s).
Definition with_global (g : option Z) (s : SqlSession) : SqlSession :=
  mkSession (ss_state s) (ss_guc s) g (ss_mode s) (ss_gtm s) (ss_barrier s) (ss_scanner s).

(** Actions of a session on its own and the shared state. *)
Abbreviation sact := (act (SqlSession * EngineState)).

Definition shared {A} (m : io A) : sact A := fun '(s, sh) => let '(sh, r) := m sh in ((s, sh), r).
Definition self : sact SqlSession := fun st => (st, Ok st.1).
Definition set_self (f : SqlSession -> SqlSession) : sact () := fun '(s, sh) => ((f s, sh), Ok ()).

Definition io_commit (ops : list WriteOp) : io () := io_await (aw_commit ops).

(** [self.procarray.finish(xid); self.lockmgr.release_all(xid)] *)
Definition finish_xid (xid : Z) : io () :=
  io_modify (fun s => set_locks (release_all (sh_locks s) xid).1 (set_pa (procarray_finish (sh_pa s) xid) s)).

Definition io_begin_write : io Z := fun s =>
  let '(xid, pa, kv) := begin_write (sh_pa s) (sh_kv s) in (set_kv kv (set_pa pa s), Ok xid).

(** The commit-log entry of a batch in the replicated mode: the counter advance. *)
Definition counter_ops (mode : PersistMode) (pa : ProcArray) : list WriteOp :=
  match mode with PReplicated => [next_xid_op pa] | PDurable => [] end.

(** [executor/src/session.rs:238-259] eval_ctx *)
Definition eval_ctx (s : SqlSession) (sh : EngineState) : EvalCtx :=
  let stmt_now := clock sh in
  let now := match ss_state s with InTransaction c | Failed c => tx_now c | Idle => stmt_now end in
  let tzname := effective (ss_guc s) in
  let time_zone := if eq_ignore_ascii_case tzname "UTC" then tz_utc else default tz_utc (tz_get tzname) in
  mkCtx now stmt_now time_zone stmt_now.

Definition get_ctx : sact EvalCtx := fun st => (st, Ok (eval_ctx st.1 st.2)).

(** [executor/src/session.rs:380-385] ensure_global_readable *)
Definition ensure_global_readable : sact () :=
  s ← self; if ss_barrier s then shared (io_await aw_range0_readable) else mret ().

(** [executor/src/session.rs:568-580] global_read_snapshot *)
Definition global_read_snapshot (stored : option Snapshot) : sact Snapshot :=
  match stored with
  | Some snap => mret snap
  | None =>
      s ← self;
      if ss_gtm s || ss_barrier s
      then shared (sh ← io_get; io_lift (lift (durable_global_snapshot (catalog_kv sh))))
      else mret NO_GLOBAL_SNAPSHOT
  end.

(** [executor/src/session.rs:987-992] local_xid *)
Definition local_xid (s : SqlSession) : option Z :=
  match ss_state s with InTransaction c | Failed c => tx_xid c | Idle => None end.

(** ** Parameters *)

Definition default_parameter (v : SetValue) (dflt : string) : bool :=
  match v with SetVal v => eq_ignore_ascii_case v dflt | SetDefault => true end.

(** [executor/src/session.rs:271-330] set_guc *)
Definition set_guc (local : bool) (name : string) (value : SetValue) : sact QueryResult :=
  if negb (eq_ignore_ascii_case name "timezone") then
    default_ok ← (if String.eqb name "datestyle" then mret (default_parameter value "ISO, MDY")
                  else if String.eqb name "intervalstyle" then mret (default_parameter value "postgres")
                  else io_raise (EUnrecognizedParameter name));
    if negb default_ok
    then io_raise (EInvalidParameterValue (match value with SetVal v => v | SetDefault => "DEFAULT" end))
    else mret (QCommand "SET")
  else
    let zone := match value with SetDefault => "UTC" | SetVal v => v end in
    if negb (eq_ignore_ascii_case zone "UTC") && negb (bool_decide (is_Some (tz_get zone)))
    then io_raise (EInvalidParameterValue zone)
    else
      s ← self;
      let guc := (if local then set_local zone else set_session zone) (ss_guc s) in
      let guc := match ss_state s with InTransaction _ => guc | _ => guc_commit guc end in
      _ ← set_self (with_guc guc);
      mret (QCommand "SET").

(** [executor/src/session.rs:334-345] reset_guc *)
Definition reset_guc (name : string) : sact QueryResult :=
  if negb (eq_ignore_ascii_case name "timezone") then io_raise (EUnrecognizedParameter name)
  else
    s ← self;
    let guc := guc_reset (ss_guc s) in
    let guc := match ss_state s with Idle => guc_commit guc | _ => guc end in
    _ ← set_self (with_guc guc);
    mret (QCommand "RESET").

(** [executor/src/session.rs:350-374] show_guc *)
Definition show_guc (name : string) : sact QueryResult :=
  if negb (eq_ignore_ascii_case name "timezone") then io_raise (EUnrecognizedParameter name)
  else
    s ← self;
    let value := str_bytes (effective (ss_guc s)) in
    mret (QRows [field "TimeZone" TText] [[Some (mkCell value value)]] "SHOW").

(** ** Transaction control *)

(** [executor/src/session.rs:444-462] abort_ctx *)
Definition abort_ctx (c : TxnCtx) : io () :=
  match tx_xid c with
  | None => mret ()
  | Some xid =>
      r ← io_try (io_commit [clog_put_op xid Aborted]);
      _ ← finish_xid xid;
      io_lift (lift r)
  end.

(** [executor/src/session.rs:464-501] begin *)
Definition begin (isolation : option IsolationLevel) : sact QueryResult :=
  s ← self;
  match ss_state s with
  | InTransaction _ => mret (QCommand "BEGIN")
  | _ =>
      let rr := match isolation with Some RepeatableRead => true | _ => false end in
      _ ← (if rr then _ ← shared (io_await aw_readable); ensure_global_readable else mret ());
      snapshot ← shared (sh ← io_get; mret (procarray_snapshot (sh_pa sh)));
      gsnap ← (if rr then g ← global_read_snapshot None; mret (Some g) else mret None);
      now ← shared (sh ← io_get; mret (clock sh));
      _ ← set_self (with_state (InTransaction (mkTxn None snapshot rr gsnap [] now)));
      mret (QCommand "BEGIN")
  end.

(** [executor/src/session.rs:503-549] commit_cmd *)
Definition commit_cmd : sact QueryResult :=
  s ← self;
  _ ← set_self (with_state Idle);
  match ss_state s with
  | InTransaction c =>
      _ ← match tx_xid c with
          | None => mret ()
          | Some xid =>
              shared (sh ← io_get;
                      r ← io_try (io_commit (clog_put_op xid Committed :: counter_ops (ss_mode s) (sh_pa sh)));
                      _ ← finish_xid xid;
                      io_lift (lift r))
          end;
      _ ← set_self (fun s => with_guc (guc_commit (ss_guc s)) s);
      mret (QCommand "COMMIT")
  | Failed c =>
      _ ← shared (abort_ctx c);
      _ ← set_self (fun s => with_guc (guc_rollback (ss_guc s)) s);
      mret (QCommand "ROLLBACK")
  | Idle => mret (QCommand "COMMIT")
  end.

(** [executor/src/session.rs:551-561] rollback_cmd *)
Definition rollback_cmd : sact QueryResult :=
  s ← self;
  _ ← set_self (with_state Idle);
  _ ← match ss_state s with
      | InTransaction c | Failed c => shared (abort_ctx c)
      | Idle => mret ()
      end;
  _ ← set_self (fun s => with_guc (guc_rollback (ss_guc s)) s);
  mret (QCommand "ROLLBACK").

(** ** Reads *)

(** The local snapshot of the registry, as it is now. *)
Definition fresh_snapshot : sact Snapshot :=
  shared (sh ← io_get; mret (procarray_snapshot (sh_pa sh))).

Definition set_snapshot (snap : Snapshot) (c : TxnCtx) : TxnCtx :=
  mkTxn (tx_xid c) snap (tx_rr c) (tx_gsnap c) (tx_written c) (tx_now c).

(** [executor/src/session.rs:737-785] read_context *)
Definition read_context : sact (Snapshot * option Z * Snapshot) :=
  s ← self;
  match ss_state s with
  | Idle =>
      _ ← shared (io_await aw_readable);
      _ ← ensure_global_readable;
      gsnap ← global_read_snapshot None;
      snap ← fresh_snapshot;
      mret (snap, None, gsnap)
  | InTransaction c =>
      if tx_rr c then
        gsnap ← global_read_snapshot (tx_gsnap c);
        mret (tx_snapshot c, tx_xid c, gsnap)
      else
        _ ← shared (io_await aw_readable);
        _ ← ensure_global_readable;
        snap ← fresh_snapshot;
        gsnap ← global_read_snapshot None;
        _ ← set_self (with_state (InTransaction (set_snapshot snap c)));
        mret (snap, tx_xid c, gsnap)
  | Failed _ => io_lift (Err Panicked)
  end.

Definition foreign_ctx (s : SqlSession) : ForeignCtx := mkForeignCtx (ss_scanner s) "public".

(** [executor/src/session.rs:582-602] run_select *)
Definition run_read (stmt : Statement) : sact QueryResult :=
  '(snapshot, own, gsnap) ← read_context;
  ctx ← get_ctx;
  s ← self;
  shared (sh ← io_get;
          io_lift (execute_read default_ctx
            (mkEnv (catalog_kv sh) (sh_kv sh) (catalog_kv sh) gsnap snapshot own ctx (foreign_ctx s)) stmt)).

(** [executor/src/session.rs:971-981] ensure_write_xid *)
Definition ensure_write_xid : sact () :=
  s ← self;
  match ss_state s with
  | InTransaction c =>
      match tx_xid c with
      | Some _ => mret ()
      | None =>
          xid ← shared io_begin_write;
          set_self (with_state (InTransaction
            (mkTxn (Some xid) (tx_snapshot c) (tx_rr c) (tx_gsnap c) (tx_written c) (tx_now c))))
      end
  | _ => mret ()
  end.

(** The context of a block that a statement of it runs in. *)
Definition block : sact TxnCtx :=
  s ← self; match ss_state s with InTransaction c => mret c | _ => io_lift (Err Panicked) end.

(** The snapshots of a statement of a block: a new local snapshot and a new global one
    under READ COMMITTED, the ones fixed at BEGIN under REPEATABLE READ. *)
Definition statement_ctx : sact StmtCtx :=
  c ← block;
  _ ← (if tx_rr c then mret ()
       else snap ← fresh_snapshot; set_self (with_state (InTransaction (set_snapshot snap c))));
  gsnap ← global_read_snapshot (if tx_rr c then tx_gsnap c else None);
  c ← block;
  xid ← io_lift (panic_or (tx_xid c));
  mret (mkStmt gsnap (tx_snapshot c) xid (tx_rr c)).

(** [executor/src/session.rs:628-729] run_select_locking *)
Definition run_select_locking (sel : SelectStmt) (strength : RowLockStrength) : sact QueryResult :=
  let mode := match strength with ForUpdate => Exclusive | ForShare => Shared end in
  s ← self;
  match ss_state s with
  | InTransaction c =>
      _ ← (if tx_rr c then mret () else _ ← shared (io_await aw_readable); ensure_global_readable);
      _ ← ensure_write_xid;
      st ← statement_ctx;
      ctx ← get_ctx;
      shared (execute_read_locking default_ctx st mode sel ctx)
  | Idle =>
      _ ← shared (io_await aw_readable);
      _ ← ensure_global_readable;
      xid ← shared io_begin_write;
      snapshot ← fresh_snapshot;
      gsnap ← global_read_snapshot None;
      ctx ← get_ctx;
      result ← io_try (shared (execute_read_locking default_ctx (mkStmt gsnap snapshot xid false) mode sel ctx));
      _ ← shared (finish_xid xid);
      io_lift (lift result)
  | Failed _ => io_lift (Err Panicked)
  end.

(** [executor/src/session.rs:604-622] run_query_locking *)
Definition run_query_locking (q : QueryExpr) (strength : RowLockStrength) : sact QueryResult :=
  match q_with q with
  | Some w =>
      _ ← io_lift (lift (reject_recursive w));
      io_raise (EUnsupported "FOR UPDATE/SHARE with CTEs is not supported")
  | None =>
      match q_body q with
      | SetQuery (BodySelect s) =>
          run_select_locking (set_tail (q_order_by q) (q_limit q) (q_offset q) s) strength
      | _ => io_raise (EUnsupported "locking is only supported on SELECT")
      end
  end.

(** ** Writes *)

(** [executor/src/session.rs:793-804] run_ddl *)
Definition run_ddl (stmt : Statement) : sact QueryResult :=
  s ← self;
  shared (_ ← io_modify aw_catalog_lock;
          '(result, ops) ← execute_ddl stmt (foreign_ctx s);
          _ ← io_commit ops;
          mret result).

(** The rows that a batch of versions touches. *)
Definition touched (ops : list WriteOp) : list (Z * Z) :=
  omap (fun op => match op with Put key _ => table_rowid_of key | Delete _ => None end) ops.

(** One row of the fence: the versions that another transaction left in doubt. *)
Definition fence_version (kv global : MemKv) (li g : Z) (adopted : option Z) (v : bytes)
  : result KvError (option Z) :=
  '(xmin, _, _) ← decode_tuple v;
  if xmin =? li then Ok adopted
  else
    st ← clog_get kv xmin;
    match st with
    | Prepared g_old =>
        if g_old =? g then Ok adopted
        else
          decision ← clog_get global g_old;
          Ok (match decision with
              | Committed | Aborted => adopted
              | _ => Some (match adopted with Some a => Z.min a g_old | None => g_old end)
              end)
    | _ => Ok adopted
    end.

(** [executor/src/session.rs:1032-1063] effective_global_xid *)
Definition effective_global_xid (g : Z) : sact Z :=
  s ← self;
  match local_xid s, ss_state s with
  | Some li, (InTransaction c | Failed c) =>
      shared (sh ← io_get;
              adopted ← io_lift (lift (map_err EKv
                (foldM (fun adopted '(table_id, rowid) =>
                   foldM (fun adopted '(_, v) => fence_version (sh_kv sh) (catalog_kv sh) li g adopted v)
                     adopted (scan_prefix (sh_kv sh) (row_key table_id rowid))) None (tx_written c))));
              mret (default g adopted))
  | _, _ => mret g
  end.

Definition add_written (rows : list (Z * Z)) (c : TxnCtx) : TxnCtx :=
  mkTxn (tx_xid c) (tx_snapshot c) (tx_rr c) (tx_gsnap c) (tx_written c ++ rows) (tx_now c).

(** The marker of a participant: [Prepared(xid -> g)], fenced. *)
Definition prepare_ops (xid : Z) : sact (list WriteOp) :=
  s ← self;
  match ss_global_xid s with
  | None => mret []
  | Some g =>
      eff ← effective_global_xid g;
      _ ← set_self (with_global (Some eff));
      mret [clog_put_op xid (Prepared eff)]
  end.

(** [executor/src/session.rs:808-907] run_write, in a block *)
Definition run_write_in_block (stmt : Statement) : sact QueryResult :=
  _ ← ensure_write_xid;
  _ ← ensure_global_readable;
  st ← statement_ctx;
  ctx ← get_ctx;
  '(result, ops) ← shared (execute_write st stmt ctx);
  c ← block;
  _ ← set_self (with_state (InTransaction (add_written (touched ops) c)));
  marker ← prepare_ops (st_xid st);
  s ← self;
  _ ← shared (sh ← io_get; io_commit (ops ++ marker ++ counter_ops (ss_mode s) (sh_pa sh)));
  _ ← (match ss_global_xid s with
       | Some _ => shared (io_modify (fun sh => set_pa (procarray_finish (sh_pa sh) (st_xid st)) sh))
       | None => mret ()
       end);
  mret result.

(** [executor/src/session.rs:908-964] run_write, in autocommit *)
Definition run_write_autocommit (stmt : Statement) : sact QueryResult :=
  _ ← ensure_global_readable;
  xid ← shared io_begin_write;
  snapshot ← fresh_snapshot;
  gsnap ← global_read_snapshot None;
  ctx ← get_ctx;
  s ← self;
  shared (
    outcome ← io_try (execute_write (mkStmt gsnap snapshot xid false) stmt ctx);
    match outcome with
    | Err e =>
        _ ← io_try (io_commit [clog_put_op xid Aborted]);
        _ ← finish_xid xid;
        io_raise e
    | Ok (result, ops) =>
        sh ← io_get;
        r ← io_try (io_commit (ops ++ clog_put_op xid Committed :: counter_ops (ss_mode s) (sh_pa sh)));
        _ ← finish_xid xid;
        _ ← io_lift (lift r);
        mret result
    end).

(** [executor/src/session.rs:806-967] run_write *)
Definition run_write (stmt : Statement) : sact QueryResult :=
  s ← self;
  match ss_state s with
  | InTransaction _ => run_write_in_block stmt
  | Idle => run_write_autocommit stmt
  | Failed _ => io_lift (Err Panicked)
  end.

(** ** Statements *)

(** [executor/src/session.rs:398-429] run_one, the dispatch *)
Definition run_statement (stmt : Statement) : sact QueryResult :=
  match stmt with
  | Begin isolation => begin isolation
  | Commit => commit_cmd
  | Rollback => rollback_cmd
  | Insert _ _ _ | Update _ _ _ | DeleteFrom _ _ => run_write stmt
  | Ast.Query q =>
      match q_locking q with
      | Some strength => run_query_locking q strength
      | None => run_read stmt
      end
  | SetStmt local name value => set_guc local name value
  | ResetStmt name => reset_guc name
  | ShowStmt name => show_guc name
  | _ => run_ddl stmt
  end.

Definition ends_transaction (stmt : Statement) : bool :=
  match stmt with Commit | Rollback => true | _ => false end.

(** [executor/src/session.rs:392-440] run_one *)
Definition run_one (stmt : Statement) : sact QueryResult :=
  s ← self;
  match ss_state s, ends_transaction stmt with
  | Failed _, false => io_raise EInFailedTransaction
  | _, _ =>
      r ← io_try (run_statement stmt);
      match r with
      | Ok result => mret result
      | Err e =>
          _ ← set_self (fun s => match ss_state s with
                                 | InTransaction c => with_state (Failed c) s
                                 | _ => s
                                 end);
          io_raise e
      end
  end.

(** ** Participants of a cross-range transaction *)

(** [executor/src/session.rs:999-1004] ensure_began *)
Definition ensure_began : sact () :=
  s ← self;
  match ss_state s with
  | Idle => _ ← begin None; mret ()
  | _ => mret ()
  end.

(** [executor/src/session.rs:1077-1088] join_global *)
Definition join_global (g : Z) : sact () :=
  _ ← set_self (with_global (Some g));
  s ← self;
  match local_xid s with
  | None => mret ()
  | Some local =>
      marker ← prepare_ops local;
      _ ← shared (io_commit marker);
      shared (io_modify (fun sh => set_pa (procarray_finish (sh_pa sh) local) sh))
  end.

(** [executor/src/session.rs:1109-1116] finish_current_txn *)
Definition finish_current_txn : sact () :=
  s ← self;
  _ ← match local_xid s with
      | Some xid => shared (finish_xid xid)
      | None => mret ()
      end;
  set_self (fun s => with_state Idle (with_global None s)).

(** [executor/src/session.rs:1094-1096] commit_release *)
Definition commit_release : sact () := finish_current_txn.

(** [executor/src/session.rs:1101-1103] abort_release *)
Definition abort_release : sact () := finish_current_txn.

(** [executor/src/session.rs:1128-1130] drop *)
Definition session_drop : sact () := finish_current_txn.

(** ** The session interface *)

(** The statements of a query string. The parser always ends; [Panicked] stands for the
    fuel of its model running out, which never happens. *)
Definition parse_sql (sql : string) : xresult (list Statement) :=
  match Parser.parse sql with
  | Some r => lift (map_err EParse r)
  | None => Err Panicked
  end.

Fixpoint run_all (stmts : list Statement) : sact (list QueryResult) :=
  match stmts with
  | [] => mret []
  | stmt :: stmts => r ← run_one stmt; rs ← run_all stmts; mret (r :: rs)
  end.

(** [executor/src/session.rs:1134-1147] simple_query, with the errors of the executor *)
Definition simple_query (sql : string) : sact (list QueryResult) :=
  if String.eqb (trim sql) "" then mret [QEmpty]
  else
    statements ← io_lift (parse_sql sql);
    match statements with
    | [] => mret [QEmpty]
    | _ => run_all statements
    end.

(** [executor/src/session.rs:1149-1151] describe *)
Definition describe_sql (sql : string) : sact (list FieldDescription) :=
  statements ← io_lift (parse_sql sql);
  shared (sh ← io_get; io_lift (describe default_ctx (catalog_kv sh) statements)).

(** [executor/src/session.rs:1153-1159] tx_status *)
Definition tx_status (s : SqlSession) : TxStatus :=
  match ss_state s with
  | Idle => TxIdle
  | InTransaction _ => TxInTransaction
  | Failed _ => TxFailed
  end.

End Session.
