(* ===== verification/LibModel.v ===== *)
(** * Concrete libraries for the evaluator

    Instances of the classes that stand for the Unicode tables, the math library
    and decimal powers, on which the evaluator runs: the Unicode tables for the
    ASCII characters, a math library without transcendental functions, and powers of
    the decimals of [ExtModel]. *)
From Stdlib Require Import ZArith Lia Ascii.
From stdpp Require Import base list gmap strings.
From S2P Require Import Prelude Text Keys Store Datum Float Chars DateTimeBin ExtModel ExtArith.
From S2P Require Import DateTime Calendar Numeric NumericFn EvalOps.
From S2P Require Import Mvcc Errors XidAlloc LockMgr.
From S2P Require Import Project Act Write Session.
Open Scope Z_scope.

Definition upper_byte (c : Z) : Z := if (97 <=? c) && (c <=? 122) then c - 32 else c.
Definition lower_byte (c : Z) : Z := if (65 <=? c) && (c <=? 90) then c + 32 else c.
Definition alphabetic_byte (c : Z) : bool := (97 <=? lower_byte c) && (lower_byte c <=? 122).

#[export] Instance ascii_unicode : Unicode := {|
  str_to_uppercase s := str_of_bytes (map upper_byte (str_bytes s));
  str_to_lowercase s := str_of_bytes (map lower_byte (str_bytes s));
  char_to_uppercase c := [upper_byte c];
  char_to_lowercase c := [lower_byte c];
  char_is_alphanumeric c := alphabetic_byte c || (48 <=? c) && (c <=? 57);
  char_is_alphabetic := alphabetic_byte
|}.

Definition quiet_nan : Z := 9221120237041090560.

#[export] Instance no_math : MathLib := {|
  f64_exp _ := quiet_nan;
  f64_ln _ := quiet_nan;
  f64_log10 _ := quiet_nan;
  f64_powf _ _ := quiet_nan;
  DBig := unit;
  dbig_new _ _ := None;
  dbig_display _ := "NaN";
  dbig_cmp_zero _ := Eq;
  dbig_exp x := x;
  dbig_ln x := x;
  dbig_sqrt x := x;
  dbig_powf x _ := x
|}.

#[export] Instance model_pow : ExtPow := {|
  bd_powi (d : BigDecimal) n := (d.1 ^ n, d.2 * n)
|}.

(** The Unix epoch in UTC, as [EvalCtx::test_default] has it, with a clock that
    stands still. *)
Definition epoch : CTimestamp := exist _ 0 eq_refl.

Definition epoch_ctx : EvalCtx := mkCtx (epoch : Timestamp) (epoch : Timestamp) tz_utc (epoch : Timestamp).

(** ** A session alone on its engine

    An instance of [Awaits]: no other session runs, reads need no barrier, a committer
    that writes the batch to the store (or refuses it), and row locks that are granted
    when they are free. *)
Definition solo_acquire (row : RowId) (mode : LockMode) (xid : Z) (s : EngineState) : EngineState * bool :=
  match try_acquire_locked elements (sh_locks s) row mode xid with
  | Some (Acquired, locks) => (set_locks locks s, true)
  | _ => (s, false)
  end.

Definition solo (accepts : bool) : Awaits := {|
  aw_commit ops s := if accepts then (set_kv (local_commit (sh_kv s) ops) s, Ok ()) else (s, Err EUnavailable);
  aw_readable s := (s, Ok ());
  aw_range0_readable s := (s, Ok ());
  aw_acquire := solo_acquire;
  aw_catalog_lock s := s
|}.

Definition solo_clock : EngineState -> CTimestamp := fun _ => epoch.

(** A new single-range engine on an empty store, and a connection to it. *)
Definition solo_engine : EngineState :=
  mkShared kv_new None (mkProcArray 1 ∅ PDurable) (seq_new PDurable) lockmgr_new.
Definition solo_session : SqlSession := session_new PDurable false false None.
