(* ===== verification/SessionProps.v ===== *)
(** * What a session guarantees

    Theorems about the statements of a session, over every behaviour of the parts it
    waits for: the committer, the read gates, the row locks, and the sessions that run
    meanwhile. A block keeps its context from BEGIN to its end, a failed block refuses
    work and changes nothing, the end of a transaction leaves neither its id among the
    running ones nor a row lock, and the settings made in a block follow its outcome. *)
From Stdlib Require Import ZArith Lia Ascii.
From stdpp Require Import base list gmap strings.
From S2P Require Import Prelude Text Chars Keys Store Datum Float DateTimeBin ExtModel ExtArith DateTime.
From S2P Require Import Calendar Numeric NumericFn Ops Cast Mvcc Errors Catalog Scope XidAlloc LockMgr.
From S2P Require Import Exec Ast AggCall EvalOps Func DateTimeFn FormatFn Eval Wire Project.
From S2P Require Import Join Aggregate Values SetOps ScanBounds Describe Query Act Write Session LibModel.
Open Scope Z_scope.

Section SessionProps.
Context `{ExtCal} `{MathLib} `{Unicode} `{!ExtPow}.
Context (default_ctx : EvalCtx) `{!Awaits} (clock : EngineState -> Timestamp).

Local Abbreviation state := (SqlSession * EngineState)%type.
Local Abbreviation sact := (act state).

(** ** Rules for the actions of a session *)

Lemma wp_shared {A} (m : io A) (Q : A -> state -> Prop) E s sh :
  wp m (fun a sh => Q a (s, sh)) (fun e sh => E e (s, sh)) sh -> wp (shared m) Q E (s, sh).
Proof. unfold wp, shared. by destruct (m sh) as [sh' [a|e]]. Qed.

(** When only the session matters, whatever the shared state becomes. *)
Lemma wp_shared_any {A} (m : io A) (Q : A -> state -> Prop) E s sh :
  (forall a sh, Q a (s, sh)) -> (forall e sh, E e (s, sh)) -> wp (shared m) Q E (s, sh).
Proof. intros HQ HE. apply wp_shared. unfold wp. destruct (m sh) as [sh' [a|e]]; auto. Qed.

Lemma wp_self (Q : SqlSession -> state -> Prop) E s sh : Q s (s, sh) -> wp self Q E (s, sh).
Proof. done. Qed.

Lemma wp_set_self f (Q : () -> state -> Prop) E s sh : Q () (f s, sh) -> wp (set_self f) Q E (s, sh).
Proof. done. Qed.

Lemma wp_get_ctx (Q : EvalCtx -> state -> Prop) E s sh :
  Q (eval_ctx clock s sh) (s, sh) -> wp (get_ctx clock) Q E (s, sh).
Proof. done. Qed.

(** Actions that leave the session as it is. *)
Definition reads {A} (m : sact A) : Prop :=
  forall s sh, wp m (fun _ st => st.1 = s) (fun _ st => st.1 = s) (s, sh).

Lemma wp_reads {A B} (m : sact A) (f : A -> sact B) (Q : B -> state -> Prop) E s sh :
  reads m -> (forall e sh, E e (s, sh)) -> (forall a sh, wp (f a) Q E (s, sh)) -> wp (m ≫= f) Q E (s, sh).
Proof.
  intros Hm HE Hf. apply wp_bind. eapply wp_mono; [apply Hm| |].
  - intros a [s' sh'] Hs. simpl in Hs. subst s'. apply Hf.
  - intros e [s' sh'] Hs. simpl in Hs. subst s'. apply HE.
Qed.

Lemma reads_shared {A} (m : io A) : reads (shared m).
Proof. intros s sh. by apply wp_shared_any. Qed.

Lemma reads_fresh_snapshot : reads fresh_snapshot.
Proof. apply reads_shared. Qed.

Lemma reads_global_readable : reads ensure_global_readable.
Proof.
  intros s sh. unfold ensure_global_readable. wp_step. apply wp_self.
  destruct (ss_barrier s); [apply reads_shared|done].
Qed.

Lemma reads_global_read_snapshot stored : reads (global_read_snapshot stored).
Proof.
  intros s sh. unfold global_read_snapshot. destruct stored; [done|]. wp_step. apply wp_self.
  destruct (_ || _); [apply reads_shared|done].
Qed.

Create HintDb reads.
#[local] Hint Resolve reads_shared reads_fresh_snapshot reads_global_readable reads_global_read_snapshot : reads.

(** ** Blocks *)

(** What a block keeps from its BEGIN: the isolation level, the start time, the
    snapshots under REPEATABLE READ, and the transaction id once there is one. *)
Record same_block (c c' : TxnCtx) : Prop := {
  sb_rr : tx_rr c' = tx_rr c;
  sb_now : tx_now c' = tx_now c;
  sb_snapshot : tx_rr c = true -> tx_snapshot c' = tx_snapshot c;
  sb_gsnap : tx_gsnap c' = tx_gsnap c;
  sb_xid : forall x, tx_xid c = Some x -> tx_xid c' = Some x
}.

Instance same_block_preorder : PreOrder same_block.
Proof.
  split; [by split|]. intros a b c [R1 N1 S1 G1 X1] [R2 N2 S2 G2 X2].
  split; try congruence; [|auto]. intros Hr. rewrite S2 by congruence. auto.
Qed.

(** The session is in the block of [c], with the settings [g]. *)
Definition in_block (c : TxnCtx) (g : GucState) (s : SqlSession) : Prop :=
  exists c', ss_state s = InTransaction c' /\ same_block c c' /\ ss_guc s = g.

Definition failed_block (c : TxnCtx) (g : GucState) (s : SqlSession) : Prop :=
  exists c', ss_state s = Failed c' /\ same_block c c' /\ ss_guc s = g.

(** The action stays in the block and keeps the settings, whether it succeeds or not. *)
Definition stays {A} (c : TxnCtx) (g : GucState) (m : sact A) : Prop :=
  forall s sh, in_block c g s -> wp m (fun _ st => in_block c g st.1) (fun _ st => in_block c g st.1) (s, sh).

Lemma stays_bind {A B} c g (m : sact A) (f : A -> sact B) :
  stays c g m -> (forall a, stays c g (f a)) -> stays c g (m ≫= f).
Proof.
  intros Hm Hf s sh Hs. apply wp_bind. eapply wp_mono; [by apply Hm| |done].
  intros a [s' sh'] Hs'. by apply Hf.
Qed.

Lemma stays_shared {A} c g (m : io A) : stays c g (shared m).
Proof. intros s sh Hs. by apply wp_shared_any. Qed.

Lemma stays_lift {A} c g (r : xresult A) : stays c g (io_lift r).
Proof. intros s sh Hs. by apply wp_lift. Qed.

Lemma stays_raise {A} c g e : stays c g (io_raise (A := A) e).
Proof. intros s sh Hs. by apply wp_raise. Qed.

Lemma stays_ret {A} c g (a : A) : stays c g (mret a).
Proof. intros s sh Hs. by apply wp_ret. Qed.

Lemma stays_self c g : stays c g self.
Proof. intros s sh Hs. by apply wp_self. Qed.

Lemma stays_get_ctx c g : stays c g (get_ctx clock).
Proof. intros s sh Hs. by apply wp_get_ctx. Qed.

Lemma stays_try {A} c g (m : sact A) : stays c g m -> stays c g (io_try m).
Proof. intros Hm s sh Hs. apply wp_try. eapply wp_mono; [by apply Hm|done|]. by intros []. Qed.

Lemma stays_global c g x : stays c g (set_self (with_global x)).
Proof. intros s sh Hs. by apply wp_set_self. Qed.

Create HintDb stays.
Lemma stays_fresh c g : stays c g fresh_snapshot.
Proof. apply stays_shared. Qed.

#[local] Hint Resolve stays_fresh stays_shared stays_lift stays_raise stays_ret stays_self stays_get_ctx
  stays_try stays_global stays_bind : stays.

Ltac stays_auto :=
  repeat first
    [ progress auto with stays nocore
    | apply stays_bind; [|intros]
    | apply stays_try
    | match goal with |- stays _ _ (if ?b then _ else _) => destruct b end
    | match goal with |- stays _ _ (match ?x with _ => _ end) => destruct x end ].

Lemma stays_global_readable c g : stays c g ensure_global_readable.
Proof. unfold ensure_global_readable. stays_auto. Qed.

Lemma stays_global_read_snapshot c g stored : stays c g (global_read_snapshot stored).
Proof. unfold global_read_snapshot. stays_auto. Qed.

Lemma stays_effective c g x : stays c g (effective_global_xid x).
Proof. unfold effective_global_xid. stays_auto. Qed.

Lemma stays_prepare c g xid : stays c g (prepare_ops xid).
Proof.
  unfold prepare_ops. apply stays_bind; [apply stays_self|]. intros s.
  destruct (ss_global_xid s); [|apply stays_ret]. apply stays_bind; [apply stays_effective|].
  intros. stays_auto.
Qed.

#[local] Hint Resolve stays_global_readable stays_global_read_snapshot stays_effective stays_prepare : stays.

(** Replacing the context of the block by one that keeps it. *)
Lemma wp_set_block c g c' c'' s sh (Q : () -> state -> Prop) E :
  ss_state s = InTransaction c' -> same_block c c' -> ss_guc s = g -> same_block c' c'' ->
  (forall s', in_block c g s' -> ss_state s' = InTransaction c'' -> Q () (s', sh)) ->
  wp (set_self (with_state (InTransaction c''))) Q E (s, sh).
Proof.
  intros Hs Hc Hg Hc' HQ. apply wp_set_self, HQ; [|done]. exists c''. split_and!; [done| |done].
  by etrans.
Qed.

Lemma same_block_snapshot c snap : tx_rr c = false -> same_block c (set_snapshot snap c).
Proof. intros Hr. split; try done. congruence. Qed.

Lemma stays_write_xid c g : stays c g ensure_write_xid.
Proof.
  intros s sh (c' & Hs & Hc & Hg). unfold ensure_write_xid. wp_step. apply wp_self. rewrite Hs.
  destruct (tx_xid c') eqn:Hx; [wp_step; by exists c'|]. wp_step. apply wp_shared_any.
  - intros xid sh'. eapply (wp_set_block c g); [done..| |by intros]. split; try done. congruence.
  - intros. by exists c'.
Qed.

Lemma stays_statement_ctx c g : stays c g statement_ctx.
Proof.
  intros s sh Hb. pose proof Hb as (c' & Hs & Hc & Hg). unfold statement_ctx, block.
  wp_step. wp_step. apply wp_self. rewrite Hs. wp_step. wp_step.
  assert (stays c g (gsnap ← global_read_snapshot (if tx_rr c' then tx_gsnap c' else None);
    c0 ← (s0 ← self; match ss_state s0 with InTransaction c0 => mret c0 | _ => io_lift (Err Panicked) end);
    xid ← io_lift (panic_or (tx_xid c0)); mret (mkStmt gsnap (tx_snapshot c0) xid (tx_rr c0)))) as Hrest.
  { stays_auto. }
  destruct (tx_rr c') eqn:Hr; [wp_step; by apply Hrest|].
  wp_step. unfold fresh_snapshot. apply wp_shared_any; [|intros; exact Hb].
  intros snap sh'. eapply (wp_set_block c g); [done..|by apply same_block_snapshot|].
  intros s' Hb' _. by apply Hrest.
Qed.

#[local] Hint Resolve stays_write_xid stays_statement_ctx : stays.

Lemma stays_read_context c g : stays c g read_context.
Proof.
  intros s sh Hb. pose proof Hb as (c' & Hs & Hc & Hg). unfold read_context.
  wp_step. apply wp_self. rewrite Hs. destruct (tx_rr c') eqn:Hr.
  { revert Hb. apply (stays_bind c g); [apply stays_global_read_snapshot|]. intros. apply stays_ret. }
  do 4 (apply wp_reads; [auto with reads|done|]; intros).
  wp_step. eapply (wp_set_block c g); [done..|by apply same_block_snapshot|].
  intros s' Hs' _. by wp_step.
Qed.

Lemma stays_run_read c g stmt : stays c g (run_read default_ctx clock stmt).
Proof.
  unfold run_read. apply stays_bind; [apply stays_read_context|]. intros [[snap own] gsnap]. stays_auto.
Qed.

Lemma stays_locking c g q k : stays c g (run_query_locking default_ctx clock q k).
Proof.
  assert (forall sel, stays c g (run_select_locking default_ctx clock sel k)) as Hsel.
  { intros sel. unfold run_select_locking. apply stays_bind; [apply stays_self|]. intros s.
    destruct (ss_state s); stays_auto. }
  unfold run_query_locking. destruct (q_with q); [stays_auto|].
  destruct (q_body q) as [[]|]; try apply stays_raise. apply Hsel.
Qed.

Lemma stays_run_write c g stmt : stays c g (run_write clock stmt).
Proof.
  intros s sh Hb. pose proof Hb as (c' & Hs & _). unfold run_write. wp_step. apply wp_self. rewrite Hs.
  clear c' Hs. revert s sh Hb. fold (stays c g (run_write_in_block clock stmt)).
  unfold run_write_in_block. do 4 (apply stays_bind; [by auto with stays|intros]).
  apply stays_bind; [apply stays_shared|]. intros [result ops].
  intros s sh (c' & Hs & Hc & Hg). wp_step. unfold block. wp_step. apply wp_self. rewrite Hs. wp_step.
  wp_step. eapply (wp_set_block c g); [done..|by split|].
  intros s' Hb' _. cbn beta.
  match goal with |- wp ?m _ _ _ => enough (stays c g m) as Hrest by (by apply Hrest) end.
  stays_auto.
Qed.

(** ** Statements of a block *)

(** What a statement asks for the time zone: the value, and whether for the block only. *)
Definition zone_setting (stmt : Statement) : option (bool * string) :=
  match stmt with
  | SetStmt local name value =>
      if eq_ignore_ascii_case name "timezone"
      then Some (local, match value with SetDefault => "UTC" | SetVal v => v end) else None
  | ResetStmt name => if eq_ignore_ascii_case name "timezone" then Some (false, "UTC") else None
  | _ => None
  end.

(** The value the last such statement of a block asks for. *)
Definition last_setting (local : bool) (stmts : list Statement) : option string :=
  foldl (fun last stmt => match zone_setting stmt with
                          | Some (l, zone) => if eqb l local then Some zone else last
                          | None => last
                          end) None stmts.

Definition stage (g : GucState) (stmt : Statement) : GucState :=
  match zone_setting stmt with
  | Some (true, zone) => mkGuc (committed g) (txn_session_override g) (Some zone)
  | Some (false, zone) => mkGuc (committed g) (Some zone) (txn_local_override g)
  | None => g
  end.

Lemma stage_last stmts g :
  foldl stage (mkGuc g None None) stmts = mkGuc g (last_setting false stmts) (last_setting true stmts).
Proof.
  unfold last_setting. generalize (@None string) at 1 3. generalize (@None string).
  induction stmts as [|stmt stmts IH]; intros l n; [done|]. cbn [foldl]. unfold stage at 2.
  by destruct (zone_setting stmt) as [[[|] zone]|]; cbn; rewrite IH.
Qed.

Definition sets (stmt : Statement) : bool :=
  match stmt with SetStmt _ _ _ | ResetStmt _ => true | _ => false end.

Lemma stage_other g stmt : sets stmt = false -> stage g stmt = g.
Proof. by destruct stmt. Qed.

(** SET and RESET stage what they ask for, or fail and change nothing. *)
Lemma sets_stage c g stmt s sh :
  sets stmt = true -> in_block c g s ->
  wp (run_statement default_ctx clock stmt) (fun _ st => in_block c (stage g stmt) st.1)
    (fun _ st => in_block c g st.1) (s, sh).
Proof.
  intros Hset Hb. pose proof Hb as (c' & Hs & Hc & <-). destruct stmt; try done; cbn [run_statement].
  - unfold set_guc, stage. cbn [zone_setting]. destruct (eq_ignore_ascii_case name "timezone"); cbn [negb].
    + case_match; [by wp_step|]. wp_step. apply wp_self. rewrite Hs. wp_step. apply wp_set_self. wp_step.
      exists c'. by destruct local.
    + revert s sh Hb Hs Hc.
      match goal with |- forall s sh, _ -> _ -> _ -> wp ?m _ _ _ => assert (forall g, stays c g m) as Hd by (intros; stays_auto) end.
      intros s sh Hb _ _. by apply Hd.
  - unfold reset_guc, stage. cbn [zone_setting]. destruct (eq_ignore_ascii_case name "timezone"); cbn [negb]; [|by wp_step].
    wp_step. apply wp_self. rewrite Hs. wp_step. apply wp_set_self. wp_step. by exists c'.
Qed.

(** Every other statement but COMMIT and ROLLBACK leaves the session in the block. *)
Lemma stays_statement c g stmt :
  ends_transaction stmt = false -> sets stmt = false -> stays c g (run_statement default_ctx clock stmt).
Proof.
  assert (stays c g (run_ddl stmt)) as Hddl by (unfold run_ddl; stays_auto).
  assert (forall name, stays c g (show_guc name)) as Hshow by (intros; unfold show_guc; stays_auto).
  intros He Hn. destruct stmt; try done; cbn [run_statement]; auto using stays_run_write.
  - destruct (q_locking q); [apply stays_locking|apply stays_run_read].
  - intros s sh Hb. pose proof Hb as (c' & Hs & _). unfold begin. wp_step. apply wp_self.
    rewrite Hs. by wp_step.
Qed.

(** A statement of a block ends in the block, or in the failed block after an error. *)
Lemma run_one_in_block c g stmt s sh s' sh' r :
  ends_transaction stmt = false -> in_block c g s ->
  run_one default_ctx clock stmt (s, sh) = ((s', sh'), r) ->
  match r with
  | Ok _ => in_block c (stage g stmt) s'
  | Err (Raised _) => failed_block c g s'
  | Err Panicked => True
  end.
Proof.
  intros He Hb. pose proof Hb as (c' & Hs & _).
  apply (wp_run _ (fun _ st => in_block c (stage g stmt) st.1)
    (fun e st => match e with Raised _ => failed_block c g st.1 | Panicked => True end)).
  unfold run_one. wp_step. apply wp_self. rewrite Hs. wp_step. wp_step.
  apply (wp_mono _ (fun _ st => in_block c (stage g stmt) st.1) _ (fun _ st => in_block c g st.1)).
  - destruct (sets stmt) eqn:Eset; [by apply sets_stage|]. rewrite stage_other by done. by apply stays_statement.
  - intros a [s1 sh1] Hs1. by wp_step.
  - intros [e|] [s1 sh1] (c1 & Hs1 & Hc1 & Hg1); [|done]. wp_step. apply wp_set_self. wp_step.
    simpl in *. rewrite Hs1. by exists c1.
Qed.

(** In a failed block a statement that does not end it is refused, and nothing
    changes. *)
Lemma run_one_failed c stmt s sh :
  ss_state s = Failed c -> ends_transaction stmt = false ->
  run_one default_ctx clock stmt (s, sh) = ((s, sh), Err (Raised EInFailedTransaction)).
Proof. intros Hs He. unfold run_one, mbind, act_bind. cbn [self fst]. by rewrite Hs, He. Qed.

(** A client's statements, one after the other; between two of them other sessions
    change the shared state. *)
Inductive client : list Statement -> SqlSession -> SqlSession -> Prop :=
| client_done s : client [] s s
| client_step stmt stmts s sh s1 sh1 r s' :
    run_one default_ctx clock stmt (s, sh) = ((s1, sh1), r) -> r <> Err Panicked ->
    client stmts s1 s' -> client (stmt :: stmts) s s'.

Lemma client_failed c g stmts s s' :
  client stmts s s' -> forallb (fun stmt => negb (ends_transaction stmt)) stmts = true ->
  failed_block c g s -> failed_block c g s'.
Proof.
  induction 1 as [|stmt stmts s sh s1 sh1 r s' Hrun Hr _ IH]; [done|].
  cbn [forallb]. intros [He%negb_true_iff Hes]%andb_true_iff Hf. apply IH; [done|].
  pose proof Hf as (c' & Hs & _). rewrite (run_one_failed _ _ _ _ Hs He) in Hrun. by injection Hrun as <- _ _.
Qed.

Lemma stage_committed g stmt : committed (stage g stmt) = committed g.
Proof. unfold stage. by destruct (zone_setting stmt) as [[[|] ?]|]. Qed.

Lemma client_block c g stmts s s' :
  client stmts s s' -> forallb (fun stmt => negb (ends_transaction stmt)) stmts = true -> in_block c g s ->
  in_block c (foldl stage g stmts) s' \/ exists g', committed g' = committed g /\ failed_block c g' s'.
Proof.
  intros Hcl. revert g. induction Hcl as [|stmt stmts s sh s1 sh1 r s' Hrun Hr Hcl IH]; intros g; [by left|].
  cbn [forallb]. intros [He%negb_true_iff Hes]%andb_true_iff Hb.
  pose proof (run_one_in_block _ _ _ _ _ _ _ _ He Hb Hrun) as Hone. destruct r as [a|[e|]]; [| |done].
  - destruct (IH _ Hes Hone) as [|(g' & Hg & ?)]; [by left|right]. exists g'. by rewrite Hg, stage_committed.
  - right. exists g. split; [done|]. by eapply client_failed.
Qed.

(** BEGIN opens a block and keeps the settings. *)
Lemma begin_block iso s sh s' sh' r :
  ss_state s = Idle -> begin clock iso (s, sh) = ((s', sh'), Ok r) ->
  exists c, ss_state s' = InTransaction c /\ ss_guc s' = ss_guc s /\
    tx_rr c = (match iso with Some RepeatableRead => true | _ => false end) /\
    (tx_rr c = true -> exists g, tx_gsnap c = Some g).
Proof.
  intros Hs Hrun. set (rr := match iso with Some RepeatableRead => true | _ => false end).
  refine (wp_run _ (fun _ st => exists c, ss_state st.1 = InTransaction c /\ ss_guc st.1 = ss_guc s /\
    tx_rr c = rr /\ (tx_rr c = true -> exists g, tx_gsnap c = Some g)) (fun _ _ => True) _ _ _ _ Hrun).
  unfold begin. wp_step. apply wp_self. rewrite Hs. fold rr. apply wp_reads; [|done|].
  { intros s1 sh1. destruct rr; [|done]. apply wp_reads; [auto with reads|done|]. intros. apply reads_global_readable. }
  intros _ sh1. apply wp_reads; [auto with reads|done|]. intros snap sh2.
  wp_step. apply (wp_mono _ (fun g st => st.1 = s /\ (rr = true -> exists x, g = Some x)) _ (fun _ _ => True)); [| |done].
  - destruct rr; [|by wp_step]. apply wp_reads; [auto with reads|done|]. intros g sh3. wp_step. eauto.
  - intros g [s3 sh3] [Hs3 Hg]. simpl in Hs3. subst s3. apply wp_reads; [auto with reads|done|].
    intros now sh4. wp_step. apply wp_set_self. wp_step. eexists. split_and!; [done|done|done|].
    simpl. intros Hr. by apply Hg.
Qed.

(** ** Properties *)

(** C5: A REPEATABLE READ block reads under one snapshot: whatever statements follow its
    BEGIN, and whatever other sessions do between and during them, every read of the
    block sees through the local and the global snapshot that BEGIN took, until the
    block fails or ends. *)
Theorem block_reads_one_snapshot s0 sh0 s sh r :
  ss_state s0 = Idle -> begin clock (Some RepeatableRead) (s0, sh0) = ((s, sh), Ok r) ->
  exists snap gsnap, forall stmts s',
    client stmts s s' -> forallb (fun stmt => negb (ends_transaction stmt)) stmts = true ->
    (exists c, ss_state s' = Failed c) \/
    forall sh', exists own, read_context (s', sh') = ((s', sh'), Ok (snap, own, gsnap)).
Proof.
  intros Hs0 Hb. destruct (begin_block _ _ _ _ _ _ Hs0 Hb) as (c & Hs & _ & Hrr & Hg).
  destruct (Hg Hrr) as [g Hgs]. exists (tx_snapshot c), g. intros stmts s' Hcl Hall.
  destruct (client_block c (ss_guc s) _ _ _ Hcl Hall) as [Hin|(g' & _ & c' & Hf & _)];
    [by exists c|right|left; by exists c'].
  destruct Hin as (c' & Hs' & [R _ S G _] & _). intros sh'. exists (tx_xid c').
  unfold read_context, mbind, act_bind, self. cbn [fst]. rewrite Hs', R, Hrr, S, G, Hgs by done. done.
Qed.

(** C6: An error aborts the block it happens in: the session keeps the block's context
    (its transaction id, and so its row locks, stay), refuses every further statement
    with 25P02 and changes nothing, and then COMMIT does exactly what ROLLBACK does. *)
Theorem error_aborts_block stmt s sh s1 sh1 e c :
  ss_state s = InTransaction c -> ends_transaction stmt = false ->
  run_one default_ctx clock stmt (s, sh) = ((s1, sh1), Err (Raised e)) ->
  (exists c1, ss_state s1 = Failed c1 /\ same_block c c1) /\
  (forall stmt' sh', ends_transaction stmt' = false ->
     run_one default_ctx clock stmt' (s1, sh') = ((s1, sh'), Err (Raised EInFailedTransaction))) /\
  (forall sh', run_one default_ctx clock Commit (s1, sh') = run_one default_ctx clock Rollback (s1, sh')).
Proof.
  intros Hs He Hrun.
  assert (in_block c (ss_guc s) s) as Hb by (by exists c).
  destruct (run_one_in_block _ _ _ _ _ _ _ _ He Hb Hrun) as (c1 & Hs1 & Hc1 & _).
  split_and!; [by exists c1|intros; by eapply run_one_failed|].
  intros sh'. unfold run_one, mbind, act_bind. cbn [self fst]. rewrite Hs1. cbn [ends_transaction run_statement].
  assert (commit_cmd (s1, sh') = rollback_cmd (s1, sh')) as Hcr.
  { unfold commit_cmd, rollback_cmd, mbind, act_bind. cbn [self fst set_self]. by rewrite Hs1. }
  unfold io_try. by rewrite Hcr.
Qed.

(** A transaction id that no snapshot counts as running and no row lock names. *)
Definition released (x : Z) (sh : EngineState) : Prop :=
  (x ∉ running (sh_pa sh)) /\ forall row, ~ holds (sh_locks sh) row x.

Lemma wp_finish x (Q : () -> EngineState -> Prop) E sh :
  (forall sh', released x sh' -> sh_kv sh' = sh_kv sh -> Q () sh') -> wp (finish_xid x) Q E sh.
Proof.
  intros HQ. unfold finish_xid. wp_step. apply HQ; [|done]. split; [|apply release_all_holds].
  simpl. set_solver.
Qed.

Lemma wp_commit_finish ops x (Q : () -> EngineState -> Prop) E sh :
  (forall sh', released x sh' -> (aw_commit ops sh).2 = Ok () -> Q () sh') ->
  (forall sh' e, released x sh' -> (aw_commit ops sh).2 = Err e -> E (Raised e) sh') ->
  wp (r ← io_try (io_commit ops); _ ← finish_xid x; io_lift (lift r)) Q E sh.
Proof.
  intros HQ HE. wp_step. wp_step. apply wp_await.
  - intros sh1 [] Hc. wp_step. apply wp_finish. intros sh2 Hr _. apply wp_lift; [|done].
    intros [] _. apply HQ; [done|]. by rewrite Hc.
  - intros sh1 e Hc. wp_step. apply wp_finish. intros sh2 Hr _. apply wp_lift; [done|].
    intros e' [= <-]. apply HE; [done|]. by rewrite Hc.
Qed.

Definition commit_batch (s : SqlSession) (sh : EngineState) (x : Z) : list WriteOp :=
  clog_put_op x Committed :: counter_ops (ss_mode s) (sh_pa sh).

Definition is_write (stmt : Statement) : bool :=
  match stmt with Insert _ _ _ | Update _ _ _ | DeleteFrom _ _ => true | _ => false end.

(** What an end of the block of [x] leaves, and when it answers COMMIT. *)
Definition ended (s : SqlSession) (sh : EngineState) (x : Z) (commits : Prop)
    (r : xresult QueryResult) (st : state) : Prop :=
  ss_state st.1 = Idle /\ released x st.2 /\
  (r = Ok (QCommand "COMMIT") <-> commits /\ (aw_commit (commit_batch s sh x) sh).2 = Ok ()).

Lemma abort_ctx_releases c x (Q : () -> EngineState -> Prop) E sh :
  tx_xid c = Some x -> (forall sh', released x sh' -> Q () sh') ->
  (forall e sh', released x sh' -> E e sh') -> wp (abort_ctx c) Q E sh.
Proof.
  intros Hx HQ HE. unfold abort_ctx. rewrite Hx. by apply wp_commit_finish; auto.
Qed.

Lemma commit_ended s sh c x :
  ss_state s = InTransaction c -> tx_xid c = Some x ->
  wp commit_cmd (fun a => ended s sh x True (Ok a)) (fun e => ended s sh x True (Err e)) (s, sh).
Proof.
  intros Hs Hx. unfold commit_cmd. wp_step. apply wp_self. wp_step. apply wp_set_self.
  rewrite Hs, Hx. wp_step. apply wp_shared. wp_step. wp_step.
  apply wp_commit_finish.
  - intros sh' Hr Hc. wp_step. apply wp_set_self. wp_step. split_and!; [done|done|].
    split; [|done]. intros _. by split.
  - intros sh' e Hr Hc. split_and!; [done|done|]. split; [done|]. intros [_ Hok].
    unfold commit_batch in Hok. by rewrite Hok in Hc.
Qed.

Lemma rollback_ended s sh c x (Hs : ss_state s = InTransaction c \/ ss_state s = Failed c) :
  tx_xid c = Some x ->
  wp rollback_cmd (fun a => ended s sh x False (Ok a)) (fun e => ended s sh x False (Err e)) (s, sh).
Proof.
  intros Hx. unfold rollback_cmd. wp_step. apply wp_self. wp_step. apply wp_set_self. wp_step.
  assert (forall (Q : () -> state -> Prop) E st,
    wp (shared (abort_ctx c)) Q E st ->
    wp (match ss_state s with InTransaction c | Failed c => shared (abort_ctx c) | Idle => mret () end) Q E st) as Hw.
  { intros Q E st Hw. by destruct Hs as [-> | ->]. }
  apply Hw, wp_shared, (abort_ctx_releases c x); [done| |].
  - intros sh' Hr. wp_step. apply wp_set_self. wp_step. split_and!; [done|done|]. naive_solver.
  - intros e sh' Hr. split_and!; [done|done|]. naive_solver.
Qed.

(** An ending statement runs to Idle, so its error leaves the state alone. *)
Lemma run_one_ends stmt s sh x P :
  ends_transaction stmt = true ->
  wp (run_statement default_ctx clock stmt) (fun a => ended s sh x P (Ok a)) (fun e => ended s sh x P (Err e)) (s, sh) ->
  wp (run_one default_ctx clock stmt) (fun a => ended s sh x P (Ok a)) (fun e => ended s sh x P (Err e)) (s, sh).
Proof.
  intros He Hw. unfold run_one. wp_step. apply wp_self. rewrite He.
  assert (wp (r ← io_try (run_statement default_ctx clock stmt);
    match r with
    | Ok result => mret result
    | Err e => _ ← set_self (fun s => match ss_state s with InTransaction c => with_state (Failed c) s | _ => s end);
               io_raise e
    end) (fun a => ended s sh x P (Ok a)) (fun e => ended s sh x P (Err e)) (s, sh)) as Hall.
  { wp_step. wp_step. eapply wp_mono; [exact Hw| |].
    - intros a st Ha. by wp_step.
    - intros [e|] [s1 sh1] (Hi & Hr & Hc); [|done]. wp_step. apply wp_set_self. wp_step.
      simpl in Hi. rewrite Hi. by split_and!. }
  by destruct (ss_state s).
Qed.

(** An autocommit write of a single-range engine. *)
Lemma autocommit_releases stmt s sh s' sh' r :
  ss_state s = Idle -> ss_gtm s = false -> ss_barrier s = false -> is_write stmt = true ->
  run_one default_ctx clock stmt (s, sh) = ((s', sh'), r) -> r <> Err Panicked ->
  ss_state s' = Idle /\ released (next_xid (sh_pa sh)) sh' /\
  (forall a, r = Ok a -> exists sh1 ops, (aw_commit (ops ++ commit_batch s sh1 (next_xid (sh_pa sh))) sh1).2 = Ok ()).
Proof.
  intros Hs Hg Hb Hw Hrun. set (x := next_xid (sh_pa sh)).
  set (Q := fun (r : xresult QueryResult) (st : state) => r <> Err Panicked ->
    ss_state st.1 = Idle /\ released x st.2 /\
    (forall a, r = Ok a -> exists sh1 ops, (aw_commit (ops ++ commit_batch s sh1 x) sh1).2 = Ok ())).
  enough (wp (run_one default_ctx clock stmt) (fun a => Q (Ok a)) (fun e => Q (Err e)) (s, sh)) as Hq.
  { pose proof (wp_run _ _ _ _ _ _ Hq Hrun) as Hr. unfold Q in Hr. by destruct r. }
  unfold run_one. wp_step. apply wp_self. rewrite Hs. wp_step. wp_step.
  assert (run_statement default_ctx clock stmt = run_write clock stmt) as -> by (by destruct stmt).
  unfold run_write. wp_step. apply wp_self. rewrite Hs. unfold run_write_autocommit, ensure_global_readable.
  wp_step. wp_step. apply wp_self. rewrite Hb. wp_step. wp_step. apply wp_shared.
  unfold io_begin_write. unfold wp at 1. destruct (begin_write (sh_pa sh) (sh_kv sh)) as [[xid pa] kv] eqn:Ebw.
  assert (xid = x) as -> by (by injection Ebw as <- _ _). wp_step. apply wp_shared.
  wp_step. wp_step. wp_step. unfold global_read_snapshot. wp_step. wp_step. apply wp_self. rewrite Hg, Hb. cbn [orb].
  wp_step. wp_step. apply wp_get_ctx. wp_step. apply wp_self. apply wp_shared.
  wp_step. wp_step. unfold wp at 1.
  destruct (execute_write _ _ _ _) as [sh2 [[result ops]|[e|]]]; [| |intros ?; done].
  - wp_step. wp_step.
    match goal with |- wp ?m _ _ _ => change m with (r ← io_try (io_commit (ops ++ commit_batch s sh2 x));
      _ ← finish_xid x; _ ← io_lift (lift r); mret result) end.
    wp_step. wp_step. apply wp_await.
    + intros sh3 [] Hc. wp_step. apply wp_finish. intros sh4 Hr _. wp_step. apply wp_lift; [|done].
      intros [] _. wp_step. wp_step. intros _. split_and!; [done|done|]. intros a _. exists sh2, ops. by rewrite Hc.
    + intros sh3 e Hc. wp_step. apply wp_finish. intros sh4 Hr _. wp_step. apply wp_lift; [done|].
      intros e' [= <-]. wp_step. apply wp_set_self. rewrite Hs. wp_step. intros _. by split_and!.
  - wp_step. wp_step. apply wp_await.
    + intros sh3 [] _. wp_step. apply wp_finish. intros sh4 Hr _. wp_step. wp_step. apply wp_set_self.
      rewrite Hs. wp_step. intros _. by split_and!.
    + intros sh3 e' _. wp_step. apply wp_finish. intros sh4 Hr _. wp_step. wp_step. apply wp_set_self.
      rewrite Hs. wp_step. intros _. by split_and!.
Qed.

(** C4: A transaction that is over leaves nothing behind. COMMIT and ROLLBACK of a block
    that has a transaction id, also when the committer fails, make the session idle,
    take the id out of the running set and free all its row locks, and so does the end
    of a dropped connection; COMMIT is answered exactly when the block had not failed
    and the committer accepted its commit record. A write in autocommit on a
    single-range engine does the same with the id it takes, and succeeds only when the
    batch that ends with its commit record was accepted. *)
Theorem transactions_leave_nothing_behind s sh :
  (forall stmt c x s' sh' r,
     ss_state s = InTransaction c \/ ss_state s = Failed c -> tx_xid c = Some x ->
     ends_transaction stmt = true -> run_one default_ctx clock stmt (s, sh) = ((s', sh'), r) ->
     ss_state s' = Idle /\ released x sh' /\
     (r = Ok (QCommand "COMMIT") <->
      (stmt = Commit /\ ss_state s = InTransaction c) /\ (aw_commit (commit_batch s sh x) sh).2 = Ok ())) /\
  (forall x, local_xid s = Some x ->
     let '(s', sh') := (session_drop (s, sh)).1 in ss_state s' = Idle /\ released x sh') /\
  (forall stmt s' sh' r,
     ss_state s = Idle -> ss_gtm s = false -> ss_barrier s = false -> is_write stmt = true ->
     run_one default_ctx clock stmt (s, sh) = ((s', sh'), r) -> r <> Err Panicked ->
     ss_state s' = Idle /\ released (next_xid (sh_pa sh)) sh' /\
     (forall a, r = Ok a -> exists sh1 ops,
        (aw_commit (ops ++ commit_batch s sh1 (next_xid (sh_pa sh))) sh1).2 = Ok ())).
Proof.
  split_and!.
  - intros stmt c x s' sh' r Hs Hx He Hrun.
    assert (wp (run_one default_ctx clock stmt)
      (fun a => ended s sh x (stmt = Commit /\ ss_state s = InTransaction c) (Ok a))
      (fun e => ended s sh x (stmt = Commit /\ ss_state s = InTransaction c) (Err e)) (s, sh)) as Hw.
    { apply run_one_ends; [done|].
      assert (forall m P P', (P <-> P') ->
        wp m (fun a => ended s sh x P (Ok a)) (fun e => ended s sh x P (Err e)) (s, sh) ->
        wp m (fun a => ended s sh x P' (Ok a)) (fun e => ended s sh x P' (Err e)) (s, sh)) as Hiff.
      { intros m P P' HP Hm. eapply wp_mono; [exact Hm| |]; intros ? ? (? & ? & ?); split_and!; tauto. }
      destruct stmt; try done; cbn [run_statement].
      - destruct Hs as [Hs|Hs].
        + apply (Hiff _ True); [tauto|]. by eapply commit_ended.
        + assert (commit_cmd (s, sh) = rollback_cmd (s, sh)) as Hcr.
          { unfold commit_cmd, rollback_cmd, mbind, act_bind. cbn [self fst set_self]. by rewrite Hs. }
          apply (Hiff _ False); [split; [done|intros [_ E]; congruence]|].
          unfold wp. rewrite Hcr. by apply (rollback_ended s sh c x); [right|].
      - apply (Hiff _ False); [split; [done|by intros [? _]]|]. by eapply rollback_ended. }
    pose proof (wp_run _ _ _ _ _ _ Hw Hrun) as Hr. by destruct r.
  - intros x Hx.
    assert (wp session_drop (fun _ st => ss_state st.1 = Idle /\ released x st.2) (fun _ _ => False) (s, sh)) as Hw.
    { unfold session_drop, finish_current_txn. wp_step. apply wp_self. rewrite Hx. wp_step. apply wp_shared.
      apply wp_finish. intros sh' Hr _. by apply wp_set_self. }
    unfold wp in Hw. destruct (session_drop (s, sh)) as [[s' sh'] [a|e]]; [exact Hw|done].
  - intros. by eapply autocommit_releases.
Qed.

(** The end of a block: what it answers and what it does to the settings. *)
Lemma end_settings stmt s sh s' sh' tag c :
  ends_transaction stmt = true -> ss_state s = InTransaction c \/ ss_state s = Failed c ->
  run_one default_ctx clock stmt (s, sh) = ((s', sh'), Ok (QCommand tag)) ->
  let commits := match stmt, ss_state s with Commit, InTransaction _ => true | _, _ => false end in
  tag = (if commits then "COMMIT" else "ROLLBACK") /\
  ss_guc s' = (if commits then guc_commit else guc_rollback) (ss_guc s).
Proof.
  intros He Hs Hrun commits.
  set (Q := fun (a : QueryResult) (st : state) => forall tag, a = QCommand tag ->
    tag = (if commits then "COMMIT" else "ROLLBACK") /\
    ss_guc st.1 = (if commits then guc_commit else guc_rollback) (ss_guc s)).
  enough (wp (run_one default_ctx clock stmt) Q (fun _ _ => True) (s, sh)) as Hw
    by exact (wp_run _ _ _ _ _ _ Hw Hrun tag eq_refl).
  assert (wp (run_statement default_ctx clock stmt) Q (fun _ _ => True) (s, sh)) as Hst.
  { unfold Q, commits. clear Q commits Hrun. destruct stmt; try done; cbn [run_statement]; unfold commit_cmd, rollback_cmd;
      wp_step; apply wp_self; wp_step; apply wp_set_self.
    - destruct Hs as [-> | ->].
      + wp_step. destruct (tx_xid c); [apply wp_shared_any; [|done]; intros _ sh2|wp_step];
          (wp_step; apply wp_set_self; wp_step; by intros tag' [= <-]).
      + wp_step. apply wp_shared_any; [|done]. intros _ sh2. wp_step. apply wp_set_self. wp_step.
        by intros tag' [= <-].
    - wp_step. destruct Hs as [-> | ->]; apply wp_shared_any; try done; intros _ sh2;
        (wp_step; apply wp_set_self; wp_step; by intros tag' [= <-]). }
  unfold run_one. wp_step. apply wp_self. rewrite He.
  destruct Hs as [-> | ->]; wp_step; wp_step; (eapply wp_mono; [exact Hst| |]);
    [by intros; wp_step|by intros [e|] [s2 sh2] _|by intros; wp_step|by intros [e|] [s2 sh2] _].
Qed.


(** When the commit record of a block is refused, COMMIT returns the error before it
    ends the settings of the block: the session is idle, the transaction is over, and
    the value of SET LOCAL is still in force. *)
Theorem failed_commit_keeps_local_setting s sh c x zone e :
  ss_state s = InTransaction c -> tx_xid c = Some x -> txn_local_override (ss_guc s) = Some zone ->
  (aw_commit (commit_batch s sh x) sh).2 = Err e ->
  exists s' sh', run_one default_ctx clock Commit (s, sh) = ((s', sh'), Err (Raised e)) /\
    ss_state s' = Idle /\ effective (ss_guc s') = zone.
Proof.
  intros Hs Hx Hl Hc. unfold run_one, mbind, act_bind, io_try, self. cbn [fst]. rewrite Hs.
  cbn [ends_transaction run_statement]. unfold commit_cmd, mbind, act_bind, self, set_self, shared.
  cbn [fst]. rewrite Hs, Hx. unfold io_get, io_try, io_commit, io_await. unfold commit_batch in Hc.
  destruct (aw_commit _ sh) as [sh1 r]. simpl in Hc. subst r. cbn.
  eexists _, _. split; [done|]. split; [done|]. unfold effective. simpl. by rewrite Hl.
Qed.

End SessionProps.

(** ** A session alone *)

Definition solo_now : @Timestamp model_ext := epoch.

Definition begun : SqlSession * EngineState := (begin (H5 := solo true) solo_clock (Some RepeatableRead) (solo_session, solo_engine)).1.

Lemma block_reads_one_snapshot_witness :
  exists snap gsnap, forall stmts s',
    client (H5 := solo true) epoch_ctx solo_clock stmts begun.1 s' ->
    forallb (fun stmt => negb (ends_transaction stmt)) stmts = true ->
    (exists c, ss_state s' = Failed c) \/
    forall sh', exists own, read_context (H5 := solo true) (s', sh') = ((s', sh'), Ok (snap, own, gsnap)).
Proof.
  exact (block_reads_one_snapshot epoch_ctx (H5 := solo true) solo_clock solo_session solo_engine
    begun.1 begun.2 (QCommand "BEGIN") eq_refl eq_refl).
Defined.

Lemma error_aborts_block_witness :
  exists c1, ss_state (run_one (H5 := solo true) epoch_ctx solo_clock (ResetStmt "search_path") begun).1.1 = Failed c1.
Proof.
  destruct (error_aborts_block epoch_ctx (H5 := solo true) solo_clock (ResetStmt "search_path") begun.1 begun.2
    (run_one (H5 := solo true) epoch_ctx solo_clock (ResetStmt "search_path") begun).1.1 begun.2
    (EUnrecognizedParameter "search_path")
    (mkTxn None (procarray_snapshot (sh_pa solo_engine)) true (Some NO_GLOBAL_SNAPSHOT) [] solo_now)
    eq_refl eq_refl eq_refl) as [(c1 & Hc1 & _) _].
  exists c1. exact Hc1.
Defined.

Lemma transactions_leave_nothing_behind_witness :
  released 1 (run_one (H5 := solo true) epoch_ctx solo_clock (Insert "t" None []) (solo_session, solo_engine)).1.2.
Proof.
  destruct (transactions_leave_nothing_behind epoch_ctx (H5 := solo true) solo_clock solo_session solo_engine)
    as (_ & _ & Hauto).
  destruct (Hauto (Insert "t" None [])
    (run_one (H5 := solo true) epoch_ctx solo_clock (Insert "t" None []) (solo_session, solo_engine)).1.1
    (run_one (H5 := solo true) epoch_ctx solo_clock (Insert "t" None []) (solo_session, solo_engine)).1.2
    (Ok (QCommand "INSERT 0 0"))) as (_ & Hr & _); [reflexivity..|done|exact Hr].
Defined.

(** SET LOCAL and SET in a block, with values the library knows. *)
Definition set_zones : list Statement :=
  [SetStmt true "timezone" (SetVal "UTC"); SetStmt false "TimeZone" (SetVal "utc")].
Definition after_set : SqlSession * EngineState :=
  (run_one (H5 := solo true) epoch_ctx solo_clock (SetStmt true "timezone" (SetVal "UTC")) begun).1.
Definition after_sets : SqlSession * EngineState :=
  (run_one (H5 := solo true) epoch_ctx solo_clock (SetStmt false "TimeZone" (SetVal "utc")) after_set).1.


(** A block with a transaction id and a SET LOCAL. *)
Definition local_block : SqlSession :=
  mkSession (InTransaction (mkTxn (Some 1) (procarray_snapshot (sh_pa solo_engine)) false None [] solo_now))
    (mkGuc "UTC" None (Some "Asia/Tokyo")) None PDurable false false None.

Lemma failed_commit_keeps_local_setting_witness :
  exists s' sh', run_one (H5 := solo false) epoch_ctx solo_clock Commit (local_block, solo_engine) =
      ((s', sh'), Err (Raised EUnavailable)) /\
    ss_state s' = Idle /\ effective (ss_guc s') = "Asia/Tokyo".
Proof.
  exact (failed_commit_keeps_local_setting epoch_ctx (H5 := solo false) solo_clock local_block solo_engine
    (mkTxn (Some 1) (procarray_snapshot (sh_pa solo_engine)) false None [] solo_now) 1 "Asia/Tokyo" EUnavailable
    eq_refl eq_refl eq_refl eq_refl).
Defined.
