(* ===== verification/Connection.v ===== *)
(** * Connections (pgwire/src/session.rs, server.rs, stub.rs)

    One client's connection from the first byte to its end: the TLS question, the startup
    packet, authentication, and the loop that serves queries in the simple and the
    extended protocol, over any engine; and the registry through which another connection
    cancels a running query. Bytes arrive in pieces; writing to the socket does not fail.
    What other connections do to the registry is given as a list of moments, one for each
    call of the engine. *)
From Stdlib Require Import ZArith Lia Ascii.
From stdpp Require Import base list gmap strings.
From S2P Require Import Prelude Text Chars Keys Store Datum Float DateTimeBin ExtArith Calendar NumericFn Catalog Errors.
From S2P Require Import XidAlloc LockMgr EvalOps Func Eval Wire Project ScanBounds Query Act Write Session Scram.
Open Scope Z_scope.

(** ** Cancelling (server.rs) *)

(** [pgwire/src/server.rs:41-47] CancelTarget: whether the token in the slot has fired, and
    the pending flag *)
Record CancelTarget : Type := mkTarget { ct_fired : bool; ct_pending : bool }.

(** [pgwire/src/server.rs:55-57] CancelRegistry, with the counter NEXT_PID *)
Record CancelRegistry : Type := mkRegistry {
  cr_next_pid : Z;
  cr_sessions : gmap (Z * Z) CancelTarget
}.

(** [pgwire/src/server.rs:62-79] register: the secret is random *)
Definition register (secret : Z) (reg : CancelRegistry) : CancelRegistry * (Z * Z) :=
  let key := (cr_next_pid reg, secret) in
  (mkRegistry (wrap_signed 32 (cr_next_pid reg + 1)) (<[key := mkTarget false false]> (cr_sessions reg)), key).

(** [pgwire/src/server.rs:86-96] cancel *)
Definition cancel (key : Z * Z) (reg : CancelRegistry) : CancelRegistry :=
  mkRegistry (cr_next_pid reg) (alter (fun _ => mkTarget true true) key (cr_sessions reg)).

(** [pgwire/src/server.rs:119-126] begin_query: whether the new token has fired already *)
Definition begin_query (key : Z * Z) (reg : CancelRegistry) : CancelRegistry * bool :=
  let pending := from_option ct_pending false (cr_sessions reg !! key) in
  (mkRegistry (cr_next_pid reg) (alter (fun _ => mkTarget pending false) key (cr_sessions reg)), pending).

(** [pgwire/src/server.rs:130-136] drop *)
Definition unregister (key : Z * Z) (reg : CancelRegistry) : CancelRegistry :=
  mkRegistry (cr_next_pid reg) (delete key (cr_sessions reg)).

(** ** Engines (engine.rs) *)

(** [pgwire/src/engine.rs:46-79] Engine, Session: sessions [S] on a shared state [W]. A
    query may be dropped where it waits; [en_interrupted] is what it has done by the n-th
    time, if it waits so often. *)
Class WireEngine (S W : Type) : Type := {
  en_connect : W -> S;
  en_simple_query : string -> S * W -> (S * W) * result (fault PgError) (list QueryResult);
  en_interrupted : string -> nat -> S * W -> option (S * W);
  en_describe : string -> S * W -> (S * W) * result (fault PgError) (list FieldDescription);
  en_tx_status : S -> TxStatus;
  en_drop : S * W -> W
}.

(** When another connection cancels: not around this call of the engine, before it (since
    the last one), or the n-th time it waits. *)
Inductive Moment : Type := Quiet | Before | During (n : nat).

Record Server (W : Type) : Type := mkServer {
  sv_registry : CancelRegistry;
  sv_world : W;
  sv_moments : list Moment
}.
Arguments mkServer {W}. Arguments sv_registry {W}. Arguments sv_world {W}. Arguments sv_moments {W}.

(** ** Configuration *)

(** [pgwire/src/session.rs:19-29] AuthMode *)
Inductive AuthMode : Type :=
| Trust
| ScramSha256 (verifiers : gmap string ScramVerifier) (mock_secret : bytes).

(** [pgwire/src/session.rs:32-37] SessionConfig *)
Record SessionConfig : Type := mkConfig { cf_auth : AuthMode; cf_params : list (string * string) }.

(** [pgwire/src/session.rs:48-61] default_server_params *)
Definition default_server_params : list (string * string) :=
  [("server_version", "18.0"); ("server_encoding", "UTF8"); ("client_encoding", "UTF8");
   ("DateStyle", "ISO, MDY"); ("integer_datetimes", "on");
   ("standard_conforming_strings", "on"); ("TimeZone", "UTC")].

(** [pgwire/src/session.rs:40-45] SessionConfig::trust *)
Definition trust : SessionConfig := mkConfig Trust default_server_params.

(** ** The extended protocol *)

(** [pgwire/src/session.rs:66-70] Prepared *)
Record Prepared : Type := mkPrepared {
  pr_sql : string;
  pr_param_types : list Z;
  pr_fields : list FieldDescription
}.

(** [pgwire/src/session.rs:73-78] Portal *)
Record Portal : Type := mkPortal {
  po_sql : string;
  po_fields : list FieldDescription;
  po_formats : list Z
}.

(** [pgwire/src/session.rs:81-86] ExtendedState *)
Record ExtendedState : Type := mkExt {
  ex_statements : gmap string Prepared;
  ex_portals : gmap string Portal;
  ex_failed : bool
}.

Definition ext_default : ExtendedState := mkExt ∅ ∅ false.
Definition set_statements (m : gmap string Prepared) (ext : ExtendedState) : ExtendedState :=
  mkExt m (ex_portals ext) (ex_failed ext).
Definition set_portals (m : gmap string Portal) (ext : ExtendedState) : ExtendedState :=
  mkExt (ex_statements ext) m (ex_failed ext).
Definition set_failed (b : bool) (ext : ExtendedState) : ExtendedState :=
  mkExt (ex_statements ext) (ex_portals ext) b.

Definition validate_format (code : Z) : result PgError Z :=
  if (code =? 0) || (code =? 1) then Ok code
  else Err (pg_protocol ("invalid format code " +:+ z_to_string code)).

(** [pgwire/src/session.rs:88-104] resolve_formats *)
Definition resolve_formats (requested : list Z) (ncols : nat) : result PgError (list Z) :=
  match requested with
  | [] => Ok (replicate ncols 0)
  | [code] => code ← validate_format code; Ok (replicate ncols code)
  | _ =>
      if (length requested =? ncols)%nat then mapR validate_format requested
      else Err (pg_protocol ("bind message has " +:+ z_to_string (Z.of_nat (length requested))
                  +:+ " result formats but query has " +:+ z_to_string (Z.of_nat ncols) +:+ " columns"))
  end.

(** [pgwire/src/session.rs:106-109] fail_extended *)
Definition fail_extended (ext : ExtendedState) (out : bytes) (e : PgError) : ExtendedState * bytes :=
  (set_failed true ext, error_response out e).

Definition no_statement (name : string) : PgError :=
  pg_error "26000" ("prepared statement " +:+ quoted name +:+ " does not exist").
Definition no_portal (name : string) : PgError :=
  pg_error "34000" ("portal " +:+ quoted name +:+ " does not exist").

Definition is_named (name : string) : bool := negb (String.eqb name "").

(** [pgwire/src/session.rs:138-168] handle_bind *)
Definition handle_bind (ext : ExtendedState) (portal statement : string) (result_formats : list Z)
    (out : bytes) : result PgError (ExtendedState * bytes) :=
  prepared ← ok_or (ex_statements ext !! statement) (no_statement statement);
  if is_named portal && bool_decide (is_Some (ex_portals ext !! portal)) then
    Err (pg_error "42P03" ("cursor " +:+ quoted portal +:+ " already exists"))
  else
    formats ← resolve_formats result_formats (length (pr_fields prepared));
    Ok (set_portals (<[portal := mkPortal (pr_sql prepared) (pr_fields prepared) formats]> (ex_portals ext)) ext,
        bind_complete out).

Definition with_format (f : FieldDescription) (format : Z) : FieldDescription :=
  mkField (f_name f) (f_table_oid f) (f_column_id f) (f_type_oid f) (f_type_size f) (f_type_modifier f) format.

Definition describe_rows (out : bytes) (fields : list FieldDescription) : bytes :=
  match fields with [] => no_data out | _ => row_description out fields end.

(** [pgwire/src/session.rs:170-222] handle_describe *)
Definition handle_describe (ext : ExtendedState) (kind : Z) (name : string) (out : bytes) : result PgError bytes :=
  if kind =? 83 then
    prepared ← ok_or (ex_statements ext !! name) (no_statement name);
    Ok (describe_rows (parameter_description out (pr_param_types prepared)) (pr_fields prepared))
  else if kind =? 80 then
    portal ← ok_or (ex_portals ext !! name) (no_portal name);
    Ok (match po_fields portal with
        | [] => no_data out
        | fields => row_description out (zip_with with_format fields (po_formats portal))
        end)
  else Err (pg_protocol ("invalid describe kind " +:+ char_debug kind)).

(** The loop over the rows of a result. *)
Definition write_rows (out : bytes) (rows : list (list (option bytes))) : bytes := foldl data_row out rows.

Definition cell_as (format : Z) (c : Cell) : bytes := if format =? 1 then cell_binary c else cell_text c.

Definition formatted (formats : list Z) (row : list (option Cell)) : list (option bytes) :=
  zip_with (fun cell format => cell_as format <$> cell) row formats.

(** [pgwire/src/session.rs:253-282] handle_execute, what it sends *)
Definition write_portal (out : bytes) (formats : list Z) (results : list QueryResult) : bytes :=
  match results with
  | QRows _ rows tag :: _ => command_complete (write_rows out (formatted formats <$> rows)) tag
  | QCommand tag :: _ => command_complete out tag
  | QEmpty :: _ | [] => empty_query_response out
  end.

Definition as_text (row : list (option Cell)) : list (option bytes) :=
  (fun cell : option Cell => cell_text <$> cell) <$> row.

(** [pgwire/src/session.rs:591-609] write_results *)
Definition write_results (out : bytes) (results : list QueryResult) : bytes :=
  foldl (fun out result =>
    match result with
    | QRows fields rows tag =>
        command_complete (write_rows (row_description out fields) (as_text <$> rows)) tag
    | QCommand tag => command_complete out tag
    | QEmpty => empty_query_response out
    end) out results.

(** ** The loop *)

(** Where a connection is. *)
Inductive Phase (S : Type) : Type :=
| Greeting
| Starting
| SaslInitial (key : Z * Z) (user : string) (verifier : ScramVerifier)
| SaslFinal (key : Z * Z) (user : string) (scram : ScramServer)
| Serving (key : Z * Z) (session : S) (ext : ExtendedState)
| Closed.
Arguments Greeting {S}. Arguments Starting {S}. Arguments SaslInitial {S}. Arguments SaslFinal {S}.
Arguments Serving {S}. Arguments Closed {S}.

(** The bytes received and not read yet, and all bytes sent. *)
Record Conn (S : Type) : Type := mkConn { cn_in : bytes; cn_out : bytes; cn_phase : Phase S }.
Arguments mkConn {S}. Arguments cn_in {S}. Arguments cn_out {S}. Arguments cn_phase {S}.

Section Connection.
Context `{Crypto} {S W : Type} `{!WireEngine S W}.
(** The configuration, whether TLS is offered, and what is drawn at random for this
    connection: its secret and its nonce. *)
Context (config : SessionConfig) (tls : bool) (secret : Z) (server_nonce : string).

Definition set_world (w : W) (sv : Server W) : Server W := mkServer (sv_registry sv) w (sv_moments sv).
Definition set_registry (r : CancelRegistry) (sv : Server W) : Server W := mkServer r (sv_world sv) (sv_moments sv).

Definition canceled : PgError := pg_error "57014" "canceling statement due to user request".

(** [begin_query] with the cancelling around it: whether the token has fired, and where
    it will. *)
Definition next_token (key : Z * Z) (sv : Server W) : Server W * (bool * option nat) :=
  let moment := default Quiet (head (sv_moments sv)) in
  let reg := match moment with Before => cancel key (sv_registry sv) | _ => sv_registry sv end in
  let '(reg, fired) := begin_query key reg in
  let reg := match moment with During _ => cancel key reg | _ => reg end in
  (mkServer reg (sv_world sv) (tail (sv_moments sv)),
   (fired, match moment with During n => Some n | _ => None end)).

(** A query of the engine against its token: the token is looked at first. *)
Definition guarded_query (token : bool * option nat) (sql : string) (s : S) (sv : Server W)
  : (S * Server W) * result (fault PgError) (list QueryResult) :=
  if token.1 then ((s, sv), Err (Raised canceled))
  else
    match n ← token.2; en_interrupted sql n (s, sv_world sv) with
    | Some (s, w) => ((s, set_world w sv), Err (Raised canceled))
    | None => let '((s, w), r) := en_simple_query sql (s, sv_world sv) in ((s, set_world w sv), r)
    end.

(** [pgwire/src/session.rs:111-136] handle_parse *)
Definition handle_parse (ext : ExtendedState) (name sql : string) (param_types : list Z) (out : bytes)
    (s : S) (sv : Server W) : (S * Server W) * result (fault PgError) (ExtendedState * bytes) :=
  if is_named name && bool_decide (is_Some (ex_statements ext !! name)) then
    ((s, sv), Err (Raised (pg_error "42P05" ("prepared statement " +:+ quoted name +:+ " already exists"))))
  else
    let '((s, w), r) := en_describe sql (s, sv_world sv) in
    ((s, set_world w sv),
     fields ← r;
     Ok (set_statements (<[name := mkPrepared sql param_types fields]> (ex_statements ext)) ext, parse_complete out)).

(** [pgwire/src/session.rs:224-284] handle_execute *)
Definition handle_execute (ext : ExtendedState) (portal_name : string) (token : bool * option nat)
    (out : bytes) (s : S) (sv : Server W) : (S * Server W) * result (fault PgError) bytes :=
  match ex_portals ext !! portal_name with
  | None => ((s, sv), Err (Raised (no_portal portal_name)))
  | Some portal =>
      let '((s, sv), r) := guarded_query token (po_sql portal) s sv in
      ((s, sv), results ← r; Ok (write_portal out (po_formats portal) results))
  end.

(** The reaction to a message of the extended protocol: an error is reported once. *)
Definition extended (ext : ExtendedState) (r : result (fault PgError) (ExtendedState * bytes))
  : bytes * option ExtendedState :=
  match r with
  | Ok (ext, out) => (out, Some ext)
  | Err (Raised e) => let '(ext, out) := fail_extended ext [] e in (out, Some ext)
  | Err Panicked => ([], None)
  end.

(** [pgwire/src/session.rs:466-490] run_session, the arm of Query *)
Definition serve_query (key : Z * Z) (s : S) (ext : ExtendedState) (sql : string) (sv : Server W)
  : (S * Server W) * (bytes * option ExtendedState) :=
  let '(sv, token) := next_token key sv in
  let '((s, sv), outcome) := guarded_query token sql s sv in
  ((s, sv),
   match outcome with
   | Ok results => (ready_for_query (write_results [] results) (en_tx_status s), Some ext)
   | Err (Raised e) =>
       match pe_severity e with
       | SevFatal => (error_response [] e, None)
       | SevError => (ready_for_query (error_response [] e) (en_tx_status s), Some ext)
       end
   | Err Panicked => ([], None)
   end).

(** [pgwire/src/session.rs:557-579] run_session, the arm of Close *)
Definition handle_close (ext : ExtendedState) (kind : Z) (name : string) : result PgError (ExtendedState * bytes) :=
  if kind =? 83 then Ok (set_statements (delete name (ex_statements ext)) ext, close_complete [])
  else if kind =? 80 then Ok (set_portals (delete name (ex_portals ext)) ext, close_complete [])
  else Err (pg_protocol ("invalid close kind " +:+ char_debug kind)).

(** [pgwire/src/session.rs:500-579] run_session, the arms of the extended protocol, when no error is
    outstanding *)
Definition serve_extended (key : Z * Z) (s : S) (ext : ExtendedState) (m : FrontendMessage) (sv : Server W)
  : (S * Server W) * (bytes * option ExtendedState) :=
  match m with
  | Parse name sql param_types =>
      let '((s, sv), r) := handle_parse ext name sql param_types [] s sv in ((s, sv), extended ext r)
  | Bind portal statement _ _ result_formats =>
      ((s, sv), extended ext (lift (handle_bind ext portal statement result_formats [])))
  | Describe kind name =>
      ((s, sv), extended ext (out ← lift (handle_describe ext kind name []); Ok (ext, out)))
  | Execute portal _ =>
      let '(sv, token) := next_token key sv in
      let '((s, sv), r) := handle_execute ext portal token [] s sv in
      ((s, sv), extended ext (out ← r; Ok (ext, out)))
  | Close kind name => ((s, sv), extended ext (lift (handle_close ext kind name)))
  | _ => ((s, sv), ([], Some ext))
  end.

(** [pgwire/src/session.rs:464-586] run_session, the reaction to a message: what is sent, and
    the state to go on with, if any *)
Definition serve_message (key : Z * Z) (s : S) (ext : ExtendedState) (m : FrontendMessage) (sv : Server W)
  : (S * Server W) * (bytes * option ExtendedState) :=
  match m with
  | Terminate => ((s, sv), ([], None))
  | Query sql => serve_query key s ext sql sv
  | Sync =>
      ((s, sv), (ready_for_query [] (en_tx_status s), Some (set_portals ∅ (set_failed false ext))))
  | Flush => ((s, sv), ([], Some ext))
  | Password _ =>
      ((s, sv), (error_response [] (pg_protocol "unexpected password message outside authentication"), None))
  | _ => if ex_failed ext then ((s, sv), ([], Some ext)) else serve_extended key s ext m sv
  end.

(** [pgwire/src/session.rs:433-446] run_session, from the end of authentication to the first
    ReadyForQuery *)
Definition start_session (key : Z * Z) (out : bytes) (sv : Server W) : bytes * Phase S :=
  let out := foldl (fun out '(name, value) => parameter_status out name value) out (cf_params config) in
  let out := backend_key_data out key.1 key.2 in
  let session := en_connect (sv_world sv) in
  (ready_for_query out (en_tx_status session), Serving key session ext_default).

(** [pgwire/src/session.rs:360-372] send_auth_failure *)
Definition send_auth_failure (user : string) : bytes :=
  error_response [] (pg_fatal "28P01" ("password authentication failed for user " +:+ quoted user)).

(** [pgwire/src/session.rs:300-321] authenticate, up to the first answer of the client *)
Definition authenticate (key : Z * Z) (params : list (string * string)) (sv : Server W) : bytes * Phase S :=
  match cf_auth config with
  | Trust => start_session key (authentication_ok []) sv
  | ScramSha256 verifiers mock_secret =>
      let user := default "" (snd <$> List.find (fun '(k, _) => String.eqb k "user") params) in
      let verifier := default (mock mock_secret user) (verifiers !! user) in
      (authentication_sasl [] ["SCRAM-SHA-256"], SaslInitial key user verifier)
  end.

(** [pgwire/src/session.rs:326-343] authenticate, the first answer of the client *)
Definition sasl_initial (key : Z * Z) (user : string) (verifier : ScramVerifier) (body : bytes) : bytes * Phase S :=
  match get_cstr body with
  | Err _ => ([], Closed)
  | Ok (mechanism, body) =>
      if negb (String.eqb mechanism "SCRAM-SHA-256") then (send_auth_failure user, Closed)
      else
        match get_i32 body with
        | Err _ => ([], Closed)
        | Ok (len, client_first) =>
            if len <? 0 then (send_auth_failure user, Closed)
            else
              match handle_client_first (from_verifier verifier server_nonce) client_first with
              | (scram, Ok server_first) =>
                  (authentication_sasl_continue [] server_first, SaslFinal key user scram)
              | (_, Err _) => (send_auth_failure user, Closed)
              end
        end
  end.

(** [pgwire/src/session.rs:348-355] authenticate, the second answer of the client *)
Definition sasl_final (key : Z * Z) (user : string) (scram : ScramServer) (client_final : bytes) (sv : Server W)
  : bytes * Phase S :=
  match handle_client_final scram client_final with
  | (_, Ok server_final) =>
      start_session key (authentication_ok (authentication_sasl_final [] server_final)) sv
  | (_, Err _) => (send_auth_failure user, Closed)
  end.

(** What is dropped at the end of a connection: the session, and the entry in the
    registry. *)
Definition phase_drop (p : Phase S) (sv : Server W) : Server W :=
  match p with
  | Greeting | Starting | Closed => sv
  | SaslInitial key _ _ | SaslFinal key _ _ => set_registry (unregister key (sv_registry sv)) sv
  | Serving key s _ => set_world (en_drop (s, sv_world sv)) (set_registry (unregister key (sv_registry sv)) sv)
  end.

(** The end of a turn: [rest] is what is left to read. *)
Definition go_on (c : Conn S) (rest sent : bytes) (p : Phase S) (sv : Server W) : Conn S * Server W :=
  (mkConn rest (cn_out c ++ sent) p, sv).

Definition hang_up (c : Conn S) (sent : bytes) (p : Phase S) (sv : Server W) : Conn S * Server W :=
  (mkConn [] (cn_out c ++ sent) Closed, phase_drop p sv).

(** A phase that is over hangs up. *)
Definition move_on (c : Conn S) (rest sent : bytes) (old new : Phase S) (sv : Server W) : Conn S * Server W :=
  match new with
  | Closed => hang_up c sent old sv
  | _ => go_on c rest sent new sv
  end.

(** [pgwire/src/server.rs:192-243] handle_conn; [None] is a wait for more input *)
Definition greet (c : Conn S) (sv : Server W) : option (Conn S * Server W) :=
  let buf := cn_in c in
  if (length buf <? 8)%nat then None
  else if to_signed 32 (be_val (take 4 (drop 4 buf))) =? SSL_REQUEST_CODE then
    match (decode_startup buf).2 with
    | [] => Some (go_on c [] [if tls then 83 else 78] Starting sv)
    | _ => Some (hang_up c [] Greeting sv)
    end
  else Some (go_on c buf [] Starting sv).

(** [pgwire/src/server.rs:251-296] startup_loop, a turn *)
Definition startup_turn (c : Conn S) (sv : Server W) : option (Conn S * Server W) :=
  match decode_startup (cn_in c) with
  | (Ok (Some (SslRequest | GssEncRequest)), rest) => Some (go_on c rest [78] Starting sv)
  | (Ok (Some (CancelRequest pid key)), _) =>
      Some (hang_up c [] Starting (set_registry (cancel (pid, key) (sv_registry sv)) sv))
  | (Ok (Some (Startup params)), rest) =>
      let '(reg, key) := register secret (sv_registry sv) in
      let sv := set_registry reg sv in
      let '(sent, p) := authenticate key params sv in
      Some (go_on c rest sent p sv)
  | (Ok None, _) => None
  | (Err e, _) => Some (hang_up c (error_response [] e) Starting sv)
  end.

(** [pgwire/src/session.rs:389-405] read_password, then [k] *)
Definition password_turn (c : Conn S) (p : Phase S) (k : bytes -> bytes * Phase S) (sv : Server W)
  : option (Conn S * Server W) :=
  match decode_message (cn_in c) with
  | (Ok (Some (Password body)), rest) => let '(sent, p') := k body in Some (move_on c rest sent p p' sv)
  | (Ok (Some _), _) | (Err _, _) => Some (hang_up c [] p sv)
  | (Ok None, _) => None
  end.

(** [pgwire/src/session.rs:448-587] run_session, a turn of its loop *)
Definition serve_turn (c : Conn S) (key : Z * Z) (s : S) (ext : ExtendedState) (sv : Server W)
  : option (Conn S * Server W) :=
  match decode_message (cn_in c) with
  | (Ok None, _) => None
  | (Err e, _) => Some (hang_up c (error_response [] e) (Serving key s ext) sv)
  | (Ok (Some m), rest) =>
      let '((s, sv), (sent, next)) := serve_message key s ext m sv in
      Some match next with
           | Some ext => go_on c rest sent (Serving key s ext) sv
           | None => hang_up c sent (Serving key s ext) sv
           end
  end.

(** One turn of whichever loop the connection is in. *)
Definition turn (st : Conn S * Server W) : option (Conn S * Server W) :=
  let '(c, sv) := st in
  match cn_phase c with
  | Greeting => greet c sv
  | Starting => startup_turn c sv
  | SaslInitial key user v => password_turn c (cn_phase c) (sasl_initial key user v) sv
  | SaslFinal key user scram => password_turn c (cn_phase c) (fun body => sasl_final key user scram body sv) sv
  | Serving key s ext => serve_turn c key s ext sv
  | Closed => None
  end.

(** Turns until more input is needed. *)
Fixpoint drain (fuel : nat) (st : Conn S * Server W) : Conn S * Server W :=
  match fuel with
  | O => st
  | Datatypes.S fuel => match turn st with Some st => drain fuel st | None => st end
  end.

(** Every turn but the first takes at least a byte off the buffer. *)
Definition settle (st : Conn S * Server W) : Conn S * Server W := drain (length (cn_in st.1) + 2) st.

(** A read of the socket: some bytes, or none at the end of the stream. *)
Definition receive (b : bytes) (st : Conn S * Server W) : Conn S * Server W :=
  let '(c, sv) := st in
  match cn_phase c, b with
  | Closed, _ => st
  | p, [] => hang_up c [] p sv
  | p, _ => settle (mkConn (cn_in c ++ b) (cn_out c) p, sv)
  end.

Definition accept : Conn S := mkConn [] [] Greeting.

End Connection.

(** ** The canned engine (stub.rs) *)

(** [pgwire/src/stub.rs:9-10] STUB_VERSION, the text *)
Definition STUB_VERSION : string :=
  "PostgreSQL 18.0 (crabgresql 0.1.0) on aarch64, compiled by rustc, 64-bit".

(** [pgwire/src/stub.rs:96-98] normalize *)
Definition normalize (sql : string) : string :=
  to_ascii_lowercase (trim (trim_end_char ";" (trim sql))).

(** [pgwire/src/stub.rs:100-102] select_tag *)
Definition select_tag (rows : list (list (option Cell))) : string :=
  "SELECT " +:+ z_to_string (Z.of_nat (length rows)).

(** [pgwire/src/stub.rs:104-114] int4_field *)
Definition int4_field (name : string) : FieldDescription := mkField name 0 0 23 4 (-1) 0.
(** [pgwire/src/stub.rs:116-126] text_field *)
Definition text_field (name : string) : FieldDescription := mkField name 0 0 25 (-1) (-1) 0.
(** [pgwire/src/stub.rs:128-133] int4_cell *)
Definition int4_cell (v : Z) : Cell := mkCell (str_bytes (z_to_string v)) (put_i32 v).
(** [pgwire/src/stub.rs:135-141] text_cell *)
Definition text_cell (v : string) : Cell := mkCell (str_bytes v) (str_bytes v).

Definition one_row (f : FieldDescription) (c : Cell) : QueryResult :=
  let rows := [[Some c]] in QRows [f] rows (select_tag rows).

(** [pgwire/src/stub.rs:34-60] canned *)
Definition canned (sql : string) : result PgError (list QueryResult) :=
  let other := normalize sql in
  if String.eqb other "" then Ok [QEmpty]
  else if String.eqb other "select 1" then Ok [one_row (int4_field "?column?") (int4_cell 1)]
  else if String.eqb other "select version()" then Ok [one_row (text_field "version") (text_cell STUB_VERSION)]
  else Err (pg_error "0A000" ("stub engine does not implement: " +:+ other)).

(** [str::strip_suffix] of a character *)
Definition strip_suffix (c : ascii) (s : string) : option string :=
  match String.length s with
  | O => None
  | S n => if String.eqb (str_drop n s) (String c "") then Some (str_take n s) else None
  end.

Definition sleep_secs (sql : string) : option Z :=
  rest ← strip_prefix "select pg_sleep(" (normalize sql);
  n ← strip_suffix ")" rest;
  parse_usize n.

(** [pgwire/src/stub.rs:64-81] simple_query *)
Definition stub_query (sql : string) : result PgError (list QueryResult) :=
  match sleep_secs sql with
  | Some _ => Ok [one_row (text_field "pg_sleep") (text_cell "")]
  | None => canned sql
  end.

(** [pgwire/src/stub.rs:84-89] describe *)
Definition stub_describe (sql : string) : result PgError (list FieldDescription) :=
  results ← canned sql;
  Ok (match results with QRows fields _ _ :: _ => fields | _ => [] end).

(** Only [pg_sleep] waits, once. *)
#[export] Instance stub_engine : WireEngine () () := {|
  en_connect _ := ();
  en_simple_query sql st := (st, lift (stub_query sql));
  en_interrupted sql n st := if bool_decide (is_Some (sleep_secs sql)) && (n =? 0)%nat then Some st else None;
  en_describe sql st := (st, lift (stub_describe sql));
  en_tx_status _ := TxIdle;
  en_drop _ := ()
|}.

(** ** The SQL engine *)

Definition pg_fault {A} (r : xresult A) : result (fault PgError) A :=
  map_err (fun e => match e with Raised e => Raised (into_pg e) | Panicked => Panicked end) r.

Section Sql.
Context `{ExtCal} `{MathLib} `{Unicode} `{!ExtPow}.
Context (default_ctx : EvalCtx) `{!Awaits} (clock : EngineState -> Timestamp).
(** How the engine was opened, and what a statement has done where it waits. *)
Context (mode : PersistMode) (gtm barrier : bool) (scanner : option ForeignScanner).
Context (interrupted : string -> nat -> SqlSession * EngineState -> option (SqlSession * EngineState)).

(** [executor/src/session.rs:1133-1160] Session, for SqlSession: as a session of the wire protocol *)
Definition sql_engine : WireEngine SqlSession EngineState := {|
  en_connect _ := session_new mode gtm barrier scanner;
  en_simple_query sql st := let '(st, r) := simple_query default_ctx clock sql st in (st, pg_fault r);
  en_interrupted := interrupted;
  en_describe sql st := let '(st, r) := describe_sql default_ctx sql st in (st, pg_fault r);
  en_tx_status := tx_status;
  en_drop st := (session_drop st).1.2
|}.
End Sql.
