(* ===== verification/ConnectionProps.v ===== *)
(** * Conversations (pgwire/src/session.rs, server.rs)

    What a client sees of a connection, for every engine: it does not matter how its bytes
    are cut into packets; every message is answered as the protocol says, with what the
    engine gives; what a cancel request reaches; and that nothing is served to a client
    that has not proved its password. *)
From Stdlib Require Import ZArith Lia Ascii.
From stdpp Require Import base list gmap strings.
From S2P Require Import Prelude Text Keys Store Datum Catalog Errors Wire Project Scram Connection.
Open Scope Z_scope.

(** ** Input in pieces *)

(** What the startup decoder has read does not depend on what follows. *)
Lemma decode_startup_stream buf r rest :
  decode_startup buf = (r, rest) -> r <> Ok None ->
  (forall p, r = Ok (Some p) -> (length rest < length buf)%nat) /\ buf <> [] /\
  forall more, decode_startup (buf ++ more) = (r, rest ++ more).
Proof.
  unfold decode_startup at 1. destruct (Nat.ltb_spec (length buf) 4) as [|H4]; [by intros [= <- <-]|].
  assert (buf <> []) as Hne by (by intros ->; simpl in H4; lia).
  assert (forall more, (length (buf ++ more) <? 4)%nat = false /\ take 4 (buf ++ more) = take 4 buf) as Hm.
  { intros more. split; [apply Nat.ltb_ge; rewrite length_app; lia|by rewrite take_app_le by lia]. }
  set (len := to_signed 32 (be_val (take 4 buf))).
  destruct ((len <? 8) || (MAX_STARTUP_PACKET_LEN <? len)) eqn:El.
  { intros [= <- <-] _. split_and!; [done|done|]. intros more. unfold decode_startup.
    destruct (Hm more) as [-> ->]. fold len. by rewrite El. }
  destruct (Nat.ltb_spec (length buf) (Z.to_nat len)) as [|Hl]; [by intros [= <- <-]|].
  intros [= <- <-] _. apply orb_false_iff in El as Hb. destruct Hb as [Hb%Z.ltb_ge _].
  split_and!; [intros p _; rewrite length_drop; lia|done|]. intros more. unfold decode_startup.
  destruct (Hm more) as [-> ->]. fold len. rewrite El.
  rewrite (proj2 (Nat.ltb_ge _ _)) by (rewrite length_app; lia).
  by rewrite take_app_le, drop_app_le by lia.
Qed.

Lemma decode_message_more buf r rest :
  decode_message buf = (r, rest) -> r <> Ok None ->
  (forall m, r = Ok (Some m) -> (length rest < length buf)%nat) /\ buf <> [] /\
  forall more, decode_message (buf ++ more) = (r, rest ++ more).
Proof.
  intros E Hr. pose proof E as E'. apply decode_message_stream in E' as (_ & _ & Hl & Hm).
  split_and!; [intros m Em; specialize (Hl m Em); lia| |by apply Hm].
  intros ->. by injection E as <- _.
Qed.

Section Pieces.
Context `{Crypto} {S W : Type} `{!WireEngine S W}.
Context (config : SessionConfig) (tls : bool) (secret : Z) (server_nonce : string).

Abbreviation turn := (turn config tls secret server_nonce).
Abbreviation drain := (drain config tls secret server_nonce).
Abbreviation settle := (settle config tls secret server_nonce).
Abbreviation receive := (receive config tls secret server_nonce).
Abbreviation state := (Conn S * Server W)%type.

Definition is_closed (p : Phase S) : bool := match p with Closed => true | _ => false end.
Definition is_greeting (p : Phase S) : bool := match p with Greeting => true | _ => false end.

(** More input; a closed connection does not take any. *)
Definition more (b : bytes) (st : state) : state :=
  let '(c, sv) := st in
  (if is_closed (cn_phase c) then c else mkConn (cn_in c ++ b) (cn_out c) (cn_phase c), sv).

Lemma more_go_on b c rest sent p sv :
  is_closed p = false -> more b (go_on c rest sent p sv) = go_on c (rest ++ b) sent p sv.
Proof. intros Hp. unfold more, go_on. cbn [cn_phase]. by rewrite Hp. Qed.

Lemma more_hang_up b c sent p (sv : Server W) : more b (hang_up c sent p sv) = hang_up c sent p sv.
Proof. done. Qed.

Lemma more_move_on b c rest sent p p' sv :
  more b (move_on c rest sent p p' sv) = move_on c (rest ++ b) sent p p' sv.
Proof. destruct p'; done. Qed.

Lemma authenticate_open key params sv : is_closed (authenticate config key params sv).2 = false.
Proof. unfold authenticate. by destruct (cf_auth config). Qed.

(** A turn [t] of one of the loops reads a prefix of its input, at least a byte of it, and
    does the same whatever follows. *)
Definition reads_prefix (t : Conn S -> option state) (c : Conn S) : Prop := forall st',
  t c = Some st' ->
  (length (cn_in st'.1) < length (cn_in c))%nat /\ is_greeting (cn_phase st'.1) = false /\
  forall b, t (mkConn (cn_in c ++ b) (cn_out c) (cn_phase c)) = Some (more b st').

Lemma go_on_prefix c rest sent p (sv : Server W) :
  (length rest < length (cn_in c))%nat -> is_closed p = false -> is_greeting p = false ->
  (length (cn_in (go_on c rest sent p sv).1) < length (cn_in c))%nat /\
  is_greeting (cn_phase (go_on c rest sent p sv).1) = false /\
  forall b, go_on (mkConn (cn_in c ++ b) (cn_out c) (cn_phase c)) (rest ++ b) sent p sv
            = more b (go_on c rest sent p sv).
Proof. intros Hl Hc Hg. split_and!; [done|done|]. intros b. by rewrite more_go_on. Qed.

Lemma hang_up_prefix c sent p (sv : Server W) :
  cn_in c <> [] ->
  (length (cn_in (hang_up c sent p sv).1) < length (cn_in c))%nat /\
  is_greeting (cn_phase (hang_up c sent p sv).1) = false /\
  forall b, hang_up (mkConn (cn_in c ++ b) (cn_out c) (cn_phase c)) sent p sv
            = more b (hang_up c sent p sv).
Proof. intros Hne. split_and!; [|done|done]. cbn. destruct (cn_in c); [done|simpl; lia]. Qed.

Lemma startup_prefix sv c : reads_prefix (fun c => startup_turn config secret c sv) c.
Proof.
  intros st'. unfold startup_turn. destruct (decode_startup (cn_in c)) as [r rest] eqn:Ed.
  destruct r as [[p|]|e]; [|done|].
  - destruct (decode_startup_stream _ _ _ Ed ltac:(done)) as (Hl & Hne & Hm). specialize (Hl p eq_refl).
    cbn [cn_in]. destruct p as [params| | |pid k].
    + destruct (register _ _) as [reg key] eqn:Er.
      pose proof (authenticate_open key params (set_registry reg sv)) as Hop.
      destruct (authenticate _ _ _ _) as [sent p] eqn:Ea. intros [= <-].
      destruct (go_on_prefix c rest sent p (set_registry reg sv)) as (H1 & H2 & H3); [done|done| |].
      { unfold authenticate in Ea. by destruct (cf_auth config); injection Ea as <- <-. }
      split_and!; [done|done|]. intros b. by rewrite Hm, Ea, H3.
    + intros [= <-]. destruct (go_on_prefix c rest [78] Starting sv) as (H1 & H2 & H3); try done.
      split_and!; [done|done|]. intros b. by rewrite Hm, H3.
    + intros [= <-]. destruct (go_on_prefix c rest [78] Starting sv) as (H1 & H2 & H3); try done.
      split_and!; [done|done|]. intros b. by rewrite Hm, H3.
    + intros [= <-]. edestruct (hang_up_prefix c) as (H1 & H2 & H3); [done|].
      split_and!; [exact H1|done|]. intros b. by rewrite Hm, H3.
  - destruct (decode_startup_stream _ _ _ Ed ltac:(done)) as (_ & Hne & Hm). intros [= <-].
    edestruct (hang_up_prefix c) as (H1 & H2 & H3); [done|].
    split_and!; [exact H1|done|]. intros b. cbn [cn_in]. by rewrite Hm, H3.
Qed.
Lemma password_prefix k p sv c :
  (forall body, is_greeting (k body).2 = false) -> reads_prefix (fun c => password_turn c p k sv) c.
Proof.
  intros Hk st'. unfold password_turn. destruct (decode_message (cn_in c)) as [r rest] eqn:Ed.
  destruct r as [[m|]|e]; [|done|].
  - destruct (decode_message_more _ _ _ Ed ltac:(done)) as (Hl & Hne & Hm). specialize (Hl m eq_refl).
    cbn [cn_in]. assert (forall st, hang_up c [] p sv = st ->
      (length (cn_in st.1) < length (cn_in c))%nat /\ is_greeting (cn_phase st.1) = false /\
      forall b, hang_up (mkConn (cn_in c ++ b) (cn_out c) (cn_phase c)) [] p sv = more b st) as Hh
      by (intros st <-; by apply hang_up_prefix).
    destruct m; try (intros [= <-]; destruct (Hh _ eq_refl) as (H1 & H2 & H3); split_and!;
      [done|done|intros b; by rewrite Hm, H3]).
    specialize (Hk body). destruct (k body) as [sent p'] eqn:Ek. cbn [snd] in Hk. intros [= <-].
    destruct (is_closed p') eqn:Ec.
    + destruct p'; try done. cbn [move_on]. edestruct (hang_up_prefix c) as (H1 & H2 & H3); [done|].
      split_and!; [exact H1|done|]. intros b. by rewrite Hm, Ek, <- H3.
    + destruct (go_on_prefix c rest sent p' sv) as (H1 & H2 & H3); try done.
      assert (forall c rest, move_on c rest sent p p' sv = go_on c rest sent p' sv) as Hgo by (by destruct p').
      rewrite Hgo. split_and!; [done|done|]. intros b. by rewrite Hm, Ek, Hgo, H3.
  - destruct (decode_message_more _ _ _ Ed ltac:(done)) as (_ & Hne & Hm). intros [= <-].
    edestruct (hang_up_prefix c) as (H1 & H2 & H3); [done|].
    split_and!; [exact H1|done|]. intros b. cbn [cn_in]. by rewrite Hm, H3.
Qed.

Lemma serve_prefix key s ext sv c : reads_prefix (fun c => serve_turn c key s ext sv) c.
Proof.
  intros st'. unfold serve_turn. destruct (decode_message (cn_in c)) as [r rest] eqn:Ed.
  destruct r as [[m|]|e]; [|done|].
  - destruct (decode_message_more _ _ _ Ed ltac:(done)) as (Hl & Hne & Hm). specialize (Hl m eq_refl).
    cbn [cn_in]. destruct (serve_message key s ext m sv) as [[s' sv'] [sent [ext'|]]] eqn:Es; intros [= <-].
    + destruct (go_on_prefix c rest sent (Serving key s' ext') sv') as (H1 & H2 & H3); try done.
      split_and!; [done|done|]. intros b. by rewrite Hm, Es, H3.
    + edestruct (hang_up_prefix c) as (H1 & H2 & H3); [done|].
      split_and!; [exact H1|done|]. intros b. by rewrite Hm, Es, H3.
  - destruct (decode_message_more _ _ _ Ed ltac:(done)) as (_ & Hne & Hm). intros [= <-].
    edestruct (hang_up_prefix c) as (H1 & H2 & H3); [done|].
    split_and!; [exact H1|done|]. intros b. cbn [cn_in]. by rewrite Hm, H3.
Qed.

Lemma sasl_initial_not_greeting key user v body :
  is_greeting (sasl_initial server_nonce key user v body).2 = false.
Proof. unfold sasl_initial. repeat (case_match; try done). Qed.

Lemma sasl_final_not_greeting key user scram sv body :
  is_greeting (sasl_final config key user scram body sv).2 = false.
Proof. unfold sasl_final. repeat (case_match; try done). Qed.

Lemma turn_more st st' :
  is_greeting (cn_phase st.1) = false -> turn st = Some st' ->
  (length (cn_in st'.1) < length (cn_in st.1))%nat /\ is_greeting (cn_phase st'.1) = false /\
  forall b, turn (more b st) = Some (more b st').
Proof.
  destruct st as [c sv]. cbn [fst]. intros Hg. unfold more at 1. unfold Connection.turn.
  destruct (cn_phase c) as [| |key user v|key user scram|key s ext|] eqn:Ep; try done;
    cbn [is_closed cn_phase]; rewrite <- Ep.
  - apply startup_prefix.
  - apply password_prefix. intros. apply sasl_initial_not_greeting.
  - apply password_prefix. intros. apply sasl_final_not_greeting.
  - apply serve_prefix.
Qed.

(** Enough turns are enough. *)
Lemma drain_fuel f g st :
  is_greeting (cn_phase st.1) = false -> (length (cn_in st.1) < f)%nat -> (length (cn_in st.1) < g)%nat ->
  drain f st = drain g st.
Proof.
  revert g st; induction f as [|f IH]; intros [|g] st Hg Hf Hgl; try lia. cbn [Connection.drain].
  destruct (turn st) as [st'|] eqn:Et; [|done]. destruct (turn_more _ _ Hg Et) as (Hl & Hg' & _).
  apply IH; [done|lia..].
Qed.

Lemma drain_turn f st st' :
  is_greeting (cn_phase st.1) = false -> (length (cn_in st.1) < f)%nat -> turn st = Some st' ->
  drain f st = drain f st'.
Proof.
  intros Hg Hf Et. destruct (turn_more _ _ Hg Et) as (Hl & Hg' & _). destruct f as [|f]; [lia|].
  cbn [Connection.drain]. rewrite Et. apply (drain_fuel f (Datatypes.S f)); [done|lia..].
Qed.

Lemma more_fields b st :
  cn_phase (more b st).1 = cn_phase st.1 /\ (length (cn_in (more b st).1) <= length (cn_in st.1) + length b)%nat.
Proof.
  destruct st as [c sv]. unfold more. cbn [fst]. destruct (is_closed _); cbn [cn_phase cn_in].
  - split; [done|lia].
  - split; [done|]. rewrite length_app. lia.
Qed.

Lemma drain_more f g st b :
  is_greeting (cn_phase st.1) = false -> (length (cn_in st.1) + length b < g)%nat ->
  drain g (more b st) = drain g (more b (drain f st)) /\
  is_greeting (cn_phase (drain f st).1) = false /\ (length (cn_in (drain f st).1) <= length (cn_in st.1))%nat.
Proof.
  revert st; induction f as [|f IH]; intros st Hg Hf; [done|]. cbn [Connection.drain].
  destruct (turn st) as [st'|] eqn:Et; [|done]. destruct (turn_more _ _ Hg Et) as (Hl & Hg' & Hm).
  destruct (more_fields b st) as [Ep El].
  rewrite (drain_turn g _ (more b st')); [|by rewrite Ep|lia|done].
  destruct (IH st' Hg') as (E & E1 & E2); [lia|]. split_and!; [done|done|lia].
Qed.

Lemma receive_more b c sv :
  b <> [] -> is_closed (cn_phase c) = false -> receive b (c, sv) = settle (more b (c, sv)).
Proof.
  intros Hb Hc. unfold Connection.receive, more. rewrite Hc.
  destruct (cn_phase c) eqn:Ep; try done; destruct b; try done.
Qed.

Lemma receive_app a b st :
  is_greeting (cn_phase st.1) = false -> a <> [] -> b <> [] ->
  receive b (receive a st) = receive (a ++ b) st /\ is_greeting (cn_phase (receive a st).1) = false.
Proof.
  destruct st as [c sv]. cbn [fst]. intros Hg Ha Hb.
  destruct (is_closed (cn_phase c)) eqn:Hc.
  { unfold Connection.receive. by destruct (cn_phase c) eqn:Ep; cbn; rewrite ?Ep. }
  assert (a ++ b <> []) as Hab by (by destruct a).
  rewrite !receive_more by done. unfold Connection.settle.
  destruct (more_fields a (c, sv)) as [Ep El]. cbn [fst] in Ep, El.
  set (f := (length (cn_in (more a (c, sv)).1) + 2)%nat).
  set (g := (length (cn_in c) + length (a ++ b) + 2)%nat).
  assert (more (a ++ b) (c, sv) = more b (more a (c, sv))) as Em.
  { unfold more. rewrite Hc. cbn [cn_phase cn_in cn_out]. by rewrite Hc, app_assoc. }
  destruct (drain_more f g (more a (c, sv)) b) as (E & E1 & E2);
    [by rewrite Ep|unfold g; rewrite length_app; lia|].
  split; [|done].
  rewrite (drain_fuel _ g (more (a ++ b) (c, sv))).
  2: { by rewrite (proj1 (more_fields _ _)). }
  2: { pose proof (proj2 (more_fields (a ++ b) (c, sv))). cbn [fst] in *. lia. }
  2: { pose proof (proj2 (more_fields (a ++ b) (c, sv))). cbn [fst] in *. unfold g. lia. }
  rewrite Em, E. destruct (drain f (more a (c, sv))) as [c1 sv1]. cbn [fst] in *.
  destruct (is_closed (cn_phase c1)) eqn:Hc1.
  - unfold more. rewrite Hc1. unfold Connection.receive.
    destruct (cn_phase c1) eqn:Ec; try done. unfold g. rewrite Nat.add_comm. cbn. by rewrite Ec.
  - rewrite receive_more by done. unfold Connection.settle.
    pose proof (more_fields b (c1, sv1)) as [F1 F2]. cbn [fst] in *.
    apply drain_fuel; [by rewrite F1|lia|]. unfold g. rewrite length_app. lia.
Qed.

(** C10: A conversation does not depend on how the network cuts it. Once the question of
    TLS is settled, a connection that receives its bytes in any pieces, from startup
    through authentication to the last query, ends where it ends when it receives them at
    once: the same bytes sent, the same state of the session and of the engine, whichever
    calls of the engine other connections cancel. *)
Theorem pieces_do_not_matter st b chunks :
  is_greeting (cn_phase st.1) = false -> Forall (fun c => c <> []) (b :: chunks) ->
  foldl (fun st c => receive c st) st (b :: chunks) = receive (concat (b :: chunks)) st.
Proof.
  intros Hg Hne. revert st b Hg Hne. induction chunks as [|c chunks IH]; intros st b Hg Hne.
  - cbn. by rewrite app_nil_r.
  - apply Forall_cons in Hne as [Hb Hne]. assert (c <> []) as Hc by (by apply Forall_cons in Hne as [? _]).
    destruct (receive_app b c st Hg Hb Hc) as [_ Hg'].
    cbn [foldl]. change (foldl _ (receive c (receive b st)) chunks)
      with (foldl (fun st c => receive c st) (receive b st) (c :: chunks)).
    rewrite IH by done. cbn [concat].
    apply receive_app; [done|done|by destruct c].
Qed.
End Pieces.

(** ** The protocol *)

(** The messages of the server after startup. *)
Inductive Reply : Type :=
| ErrorReply (e : PgError)
| ReadyReply (s : TxStatus)
| RowsReply (fields : list FieldDescription)
| DataReply (values : list (option bytes))
| CompleteReply (tag : string)
| EmptyReply
| ParseReply
| BindReply
| CloseReply
| NoDataReply
| ParamsReply (oids : list Z).

Definition encode_reply (r : Reply) : bytes :=
  match r with
  | ErrorReply e => error_response [] e
  | ReadyReply s => ready_for_query [] s
  | RowsReply fields => row_description [] fields
  | DataReply values => data_row [] values
  | CompleteReply tag => command_complete [] tag
  | EmptyReply => empty_query_response []
  | ParseReply => parse_complete []
  | BindReply => bind_complete []
  | CloseReply => close_complete []
  | NoDataReply => no_data []
  | ParamsReply oids => parameter_description [] oids
  end.

Definition encode_replies (rs : list Reply) : bytes := concat (encode_reply <$> rs).

(** The replies to the result of a statement: with a description of its rows in the simple
    protocol, without in the extended one. *)
Definition statement_replies (described : bool) (enc : list (option Cell) -> list (option bytes))
    (r : QueryResult) : list Reply :=
  match r with
  | QRows fields rows tag =>
      (if described then [RowsReply fields] else []) ++ (DataReply <$> (enc <$> rows)) ++ [CompleteReply tag]
  | QCommand tag => [CompleteReply tag]
  | QEmpty => [EmptyReply]
  end.

(** A portal runs one statement. *)
Definition portal_replies (formats : list Z) (results : list QueryResult) : list Reply :=
  from_option (statement_replies false (formatted formats)) [EmptyReply] (head results).

Definition rows_reply (fields : list FieldDescription) : Reply :=
  match fields with [] => NoDataReply | _ => RowsReply fields end.

Definition is_extended (m : FrontendMessage) : bool :=
  match m with Parse _ _ _ | Bind _ _ _ _ _ | Wire.Describe _ _ | Execute _ _ | Close _ _ => true | _ => false end.

Section Protocol.
Context {S W : Type} `{!WireEngine S W} (key : Z * Z).

(** Another connection has asked to cancel, or does so around this query. *)
Definition cancel_requested (sv : Server W) : Prop :=
  from_option ct_pending false (cr_sessions (sv_registry sv) !! key) = true \/
  exists m, head (sv_moments sv) = Some m /\ m <> Quiet.

(** What comes of a query: what the engine answers, unless it is cancelled. *)
Inductive outcome (sql : string) (s : S) (sv : Server W) : result (fault PgError) (list QueryResult) -> Prop :=
| oc_engine : outcome sql s sv (en_simple_query sql (s, sv_world sv)).2
| oc_canceled : cancel_requested sv -> outcome sql s sv (Err (Raised canceled)).

(** The reasons to refuse a message of the extended protocol. *)
Definition refused (s : S) (ext : ExtendedState) (sv : Server W) (m : FrontendMessage) (e : PgError) : Prop :=
  match m with
  | Parse name sql _ =>
      (name <> "" /\ is_Some (ex_statements ext !! name)) \/
      (en_describe sql (s, sv_world sv)).2 = Err (Raised e)
  | Bind portal st _ _ formats =>
      match ex_statements ext !! st with
      | None => True
      | Some pr => (portal <> "" /\ is_Some (ex_portals ext !! portal)) \/
                   resolve_formats formats (length (pr_fields pr)) = Err e
      end
  | Wire.Describe kind name =>
      (kind = 83 -> ex_statements ext !! name = None) /\ (kind = 80 -> ex_portals ext !! name = None)
  | Execute portal _ =>
      match ex_portals ext !! portal with
      | None => True
      | Some po => outcome (po_sql po) s sv (Err (Raised e))
      end
  | Close kind _ => kind <> 83 /\ kind <> 80
  | _ => False
  end.

(** The replies the protocol asks for, to a message that is read in the state of [s], [ext]
    and [sv] and leaves the session [s']; and whether an error is outstanding then. *)
Inductive answered (s : S) (ext : ExtendedState) (sv : Server W) (s' : S) :
    FrontendMessage -> list Reply -> bool -> Prop :=
| an_query sql results :
    outcome sql s sv (Ok results) ->
    answered s ext sv s' (Query sql)
      (concat (statement_replies true as_text <$> results) ++ [ReadyReply (en_tx_status s')]) (ex_failed ext)
| an_query_error sql e :
    outcome sql s sv (Err (Raised e)) -> pe_severity e = SevError ->
    answered s ext sv s' (Query sql) [ErrorReply e; ReadyReply (en_tx_status s')] (ex_failed ext)
| an_sync : answered s ext sv s' Sync [ReadyReply (en_tx_status s')] false
| an_flush : answered s ext sv s' Flush [] (ex_failed ext)
| an_skipped m : ex_failed ext = true -> is_extended m = true -> answered s ext sv s' m [] true
| an_refused m e : ex_failed ext = false -> refused s ext sv m e -> answered s ext sv s' m [ErrorReply e] true
| an_parse name sql types fields :
    ex_failed ext = false -> (en_describe sql (s, sv_world sv)).2 = Ok fields ->
    answered s ext sv s' (Parse name sql types) [ParseReply] false
| an_bind portal st pr pf ps rf :
    ex_failed ext = false -> ex_statements ext !! st = Some pr ->
    answered s ext sv s' (Bind portal st pf ps rf) [BindReply] false
| an_statement name pr :
    ex_failed ext = false -> ex_statements ext !! name = Some pr ->
    answered s ext sv s' (Wire.Describe 83 name) [ParamsReply (pr_param_types pr); rows_reply (pr_fields pr)] false
| an_portal name po :
    ex_failed ext = false -> ex_portals ext !! name = Some po ->
    answered s ext sv s' (Wire.Describe 80 name)
      [match po_fields po with
       | [] => NoDataReply
       | fields => RowsReply (zip_with with_format fields (po_formats po))
       end] false
| an_execute portal po rows results :
    ex_failed ext = false -> ex_portals ext !! portal = Some po -> outcome (po_sql po) s sv (Ok results) ->
    answered s ext sv s' (Execute portal rows) (portal_replies (po_formats po) results) false
| an_close kind name :
    ex_failed ext = false -> kind = 83 \/ kind = 80 -> answered s ext sv s' (Close kind name) [CloseReply] false.

(** The messages after which the server closes the connection: the client's Terminate, a
    password nobody asked for, a query the engine answers with a fatal error, and one on
    which it panics. *)
Inductive ends (s : S) (ext : ExtendedState) (sv : Server W) : FrontendMessage -> list Reply -> Prop :=
| en_terminate : ends s ext sv Terminate []
| en_password b e : ends s ext sv (Password b) [ErrorReply e]
| en_fatal sql e :
    outcome sql s sv (Err (Raised e)) -> pe_severity e = SevFatal -> ends s ext sv (Query sql) [ErrorReply e]
| en_query_panic sql : outcome sql s sv (Err Panicked) -> ends s ext sv (Query sql) []
| en_parse_panic name sql types :
    ex_failed ext = false -> (en_describe sql (s, sv_world sv)).2 = Err Panicked ->
    ends s ext sv (Parse name sql types) []
| en_execute_panic portal po rows :
    ex_failed ext = false -> ex_portals ext !! portal = Some po -> outcome (po_sql po) s sv (Err Panicked) ->
    ends s ext sv (Execute portal rows) [].

(** The replies to the messages of an input, each read in the state the one before it
    left, and whether the connection is still open. *)
Inductive conversation : S -> ExtendedState -> Server W -> list FrontendMessage -> option PgError ->
    list Reply -> bool -> Prop :=
| cv_wait s ext sv : conversation s ext sv [] None [] true
| cv_broken s ext sv e : conversation s ext sv [] (Some e) [ErrorReply e] false
| cv_answer s ext sv m sent rs s' ext' sv' ms e rs' open :
    serve_message key s ext m sv = ((s', sv'), (sent, Some ext')) ->
    answered s ext sv s' m rs (ex_failed ext') ->
    conversation s' ext' sv' ms e rs' open -> conversation s ext sv (m :: ms) e (rs ++ rs') open
| cv_end s ext sv m rs ms e : ends s ext sv m rs -> conversation s ext sv (m :: ms) e rs false.
End Protocol.

(** The messages of an input, and the error that ends it, if any. *)
Fixpoint messages (fuel : nat) (b : bytes) : list FrontendMessage * option PgError :=
  match fuel with
  | O => ([], None)
  | S fuel =>
      match decode_message b with
      | (Ok (Some m), rest) => let '(ms, e) := messages fuel rest in (m :: ms, e)
      | (Ok None, _) => ([], None)
      | (Err e, _) => ([], Some e)
      end
  end.

Definition messages_of (b : bytes) : list FrontendMessage * option PgError := messages (S (length b)) b.

(** The messages that ask for a ReadyForQuery, and the replies that are one. *)
Definition asks (m : FrontendMessage) : bool := match m with Query _ | Sync => true | _ => false end.
Definition is_ready (r : Reply) : bool := match r with ReadyReply _ => true | _ => false end.
Definition count {A} (p : A -> bool) (l : list A) : nat := length (List.filter p l).

Lemma count_app {A} (p : A -> bool) l k : count p (l ++ k) = (count p l + count p k)%nat.
Proof. unfold count. by rewrite List.filter_app, length_app. Qed.

Lemma statement_replies_ready d enc r : count is_ready (statement_replies d enc r) = 0%nat.
Proof.
  destruct r as [fields rows tag|tag|]; [|done|done]. cbn [statement_replies]. rewrite !count_app.
  assert (count is_ready (DataReply <$> (enc <$> rows)) = 0%nat) as -> by (by induction rows). by destruct d.
Qed.

Lemma answered_ready {S W : Type} `{!WireEngine S W} (key : Z * Z) (s s' : S) ext (sv : Server W) m rs f :
  answered key s ext sv s' m rs f -> count is_ready rs = count asks [m].
Proof.
  destruct 1 as [sql results _| | | |m _ Hm|m e _ Hr| | |name pr|name po|portal po rows results _ _ _|]; try done.
  - rewrite count_app. assert (count is_ready (concat (statement_replies true as_text <$> results)) = 0%nat) as ->; [|done].
    induction results as [|r results IH]; [done|]. rewrite fmap_cons. cbn [concat].
    by rewrite count_app, IH, statement_replies_ready.
  - by destruct m.
  - by destruct m.
  - unfold count. cbn. by destruct (pr_fields pr).
  - unfold count. cbn. by destruct (po_fields po).
  - unfold portal_replies. destruct results as [|r results]; [done|]. cbn [head from_option].
    by rewrite statement_replies_ready.
Qed.

(** While the connection is open, every question has its ReadyForQuery. *)
Lemma conversation_ready {S W : Type} `{!WireEngine S W} (key : Z * Z) (s : S) ext (sv : Server W) ms e rs :
  conversation key s ext sv ms e rs true -> count is_ready rs = count asks ms.
Proof.
  remember true as open eqn:Eo. induction 1 as [| |s ext sv m sent rs s' ext' sv' ms e rs' open _ Ha _ IH|]; try done.
  rewrite count_app, IH by done. change (m :: ms) with ([m] ++ ms). rewrite count_app. f_equal.
  by eapply answered_ready.
Qed.

(** ** What is sent *)

Lemma encode_replies_app a b : encode_replies (a ++ b) = encode_replies a ++ encode_replies b.
Proof. unfold encode_replies. by rewrite fmap_app, concat_app. Qed.

Lemma write_rows_replies out rows : write_rows out rows = out ++ encode_replies (DataReply <$> rows).
Proof.
  unfold write_rows. revert out; induction rows as [|row rows IH]; intros out; [by rewrite app_nil_r|].
  cbn [foldl]. rewrite IH. rewrite fmap_cons. change (DataReply row :: (DataReply <$> rows))
    with ([DataReply row] ++ (DataReply <$> rows)).
  rewrite encode_replies_app, app_assoc. f_equal. unfold encode_replies. cbn. by rewrite app_nil_r.
Qed.

Lemma encode_one r : encode_replies [r] = encode_reply r.
Proof. unfold encode_replies. cbn. apply app_nil_r. Qed.

Lemma write_portal_replies formats results :
  write_portal [] formats results = encode_replies (portal_replies formats results).
Proof.
  destruct results as [|[fields rows tag|tag|] results];
    cbn [write_portal portal_replies head from_option statement_replies app]; rewrite ?encode_one; try done.
  by rewrite write_rows_replies, encode_replies_app, encode_one.
Qed.

Lemma write_results_replies out results :
  write_results out results = out ++ encode_replies (concat (statement_replies true as_text <$> results)).
Proof.
  unfold write_results. revert out; induction results as [|r results IH]; intros out; [by rewrite app_nil_r|].
  cbn [foldl]. rewrite IH, fmap_cons. cbn [concat]. rewrite encode_replies_app, app_assoc. f_equal.
  destruct r as [fields rows tag|tag|]; cbn [statement_replies]; rewrite ?encode_one; try done.
  rewrite write_rows_replies, !encode_replies_app, !encode_one, !app_assoc. done.
Qed.

Section Answers.
Context `{Crypto} {S W : Type} `{!WireEngine S W}.
Context (config : SessionConfig) (tls : bool) (secret : Z) (server_nonce : string) (key : Z * Z).

(** What a reaction amounts to. *)
Definition reacts (s : S) (ext : ExtendedState) (sv : Server W) (s' : S) (m : FrontendMessage) (sent : bytes)
    (next : option ExtendedState) : Prop :=
  exists rs, sent = encode_replies rs /\
    match next with
    | Some ext' => answered key s ext sv s' m rs (ex_failed ext')
    | None => ends key s ext sv m rs
    end.

Lemma guarded_cases token sql s (sv : Server W) st r :
  guarded_query token sql s sv = (st, r) ->
  r = (en_simple_query sql (s, sv_world sv)).2 \/
  (r = Err (Raised canceled) /\ (token.1 = true \/ is_Some token.2)).
Proof.
  unfold guarded_query. destruct token as [[|] n]; cbn [fst snd]; [intros [= <- <-]; auto|].
  destruct (n ≫= _) as [[s2 w2]|] eqn:En.
  - intros [= <- <-]. right. split; [done|]. right. by destruct n.
  - destruct (en_simple_query _ _) as [[s2 w2] r2]. intros [= <- <-]. by left.
Qed.

Lemma token_cancel (sv sv1 : Server W) token :
  next_token key sv = (sv1, token) ->
  sv_world sv1 = sv_world sv /\ (token.1 = true \/ is_Some token.2 -> cancel_requested key sv).
Proof.
  unfold next_token, begin_query. intros [= <- <-]. cbn [fst snd sv_world]. split; [done|].
  unfold cancel_requested. destruct (head (sv_moments sv)) as [mo|]; cbn.
  - destruct mo as [| |n]; [|right; by eexists|right; by eexists]. intros [?|[? ?]]; [by left|done].
  - intros [?|[? ?]]; [by left|done].
Qed.

Lemma query_outcome sql s (sv sv1 : Server W) token st r :
  next_token key sv = (sv1, token) -> guarded_query token sql s sv1 = (st, r) -> outcome key sql s sv r.
Proof.
  intros [Ew Hc]%token_cancel [->|[-> Ht]]%guarded_cases; [rewrite Ew; apply oc_engine|by apply oc_canceled, Hc].
Qed.

Lemma extended_reacts s ext (sv : Server W) s' m r sent next :
  extended ext r = (sent, next) -> ex_failed ext = false ->
  match r with
  | Ok (ext', out) => ex_failed ext' = false /\ exists rs, out = encode_replies rs /\ answered key s ext sv s' m rs false
  | Err (Raised e) => refused key s ext sv m e
  | Err Panicked => ends key s ext sv m []
  end -> reacts s ext sv s' m sent next.
Proof.
  intros Ex Hf Hr. destruct r as [[ext' out]|[e|]]; injection Ex as <- <-.
  - destruct Hr as (Hf' & rs & -> & Ha). exists rs. by rewrite Hf'.
  - exists [ErrorReply e]. split; [by rewrite encode_one|]. by constructor.
  - exists []. by split.
Qed.

Lemma named_in_use {A} (m : gmap string A) name :
  is_named name && bool_decide (is_Some (m !! name)) = true -> name <> "" /\ is_Some (m !! name).
Proof. intros [Hn ?%bool_decide_eq_true]%andb_true_iff. split; [|done]. by intros ->. Qed.

Lemma parse_reacts s ext (sv : Server W) name sql types st r sent next :
  handle_parse ext name sql types [] s sv = (st, r) -> extended ext r = (sent, next) -> ex_failed ext = false ->
  reacts s ext sv st.1 (Parse name sql types) sent next.
Proof.
  intros Eh Ex Hf. apply (extended_reacts _ _ _ _ _ _ _ _ Ex Hf). unfold handle_parse in Eh.
  case_match eqn:En; [injection Eh as <- <-; left; by apply named_in_use|].
  destruct (en_describe sql _) as [[s1 w1] d] eqn:Ed. injection Eh as <- <-.
  assert ((en_describe sql (s, sv_world sv)).2 = d) as Ed' by (by rewrite Ed).
  destruct d as [fields|[e|]]; cbn.
  - split; [done|]. exists [ParseReply]. split; [by rewrite encode_one|by eapply an_parse].
  - by right.
  - by apply en_parse_panic.
Qed.

Lemma bind_reacts s ext (sv : Server W) portal st pf ps rf sent next :
  extended ext (lift (handle_bind ext portal st rf [])) = (sent, next) -> ex_failed ext = false ->
  reacts s ext sv s (Bind portal st pf ps rf) sent next.
Proof.
  intros Ex Hf. apply (extended_reacts _ _ _ _ _ _ _ _ Ex Hf). unfold handle_bind, lift.
  destruct (ex_statements ext !! st) as [pr|] eqn:Es; cbn [ok_or]; rsimpl; [|unfold refused; by rewrite Es].
  destruct (is_named portal && _) eqn:En; rsimpl; [unfold refused; rewrite Es; left; by apply named_in_use|].
  destruct (resolve_formats rf (length (pr_fields pr))) as [formats|e] eqn:Er; rsimpl; [|unfold refused; rewrite Es; by right].
  split; [done|]. exists [BindReply]. split; [by rewrite encode_one|by eapply an_bind].
Qed.

Lemma describe_reacts s ext (sv : Server W) kind name sent next :
  extended ext (out ← lift (handle_describe ext kind name []); Ok (ext, out)) = (sent, next) -> ex_failed ext = false ->
  reacts s ext sv s (Wire.Describe kind name) sent next.
Proof.
  intros Ex Hf. apply (extended_reacts _ _ _ _ _ _ _ _ Ex Hf). unfold handle_describe, lift.
  destruct (Z.eqb_spec kind 83) as [->|H83]; [|destruct (Z.eqb_spec kind 80) as [->|H80]].
  - destruct (ex_statements ext !! name) as [pr|] eqn:Es; cbn [ok_or]; rsimpl; [|unfold refused; by rewrite Es].
    split; [done|]. eexists. split; [|by apply (an_statement _ _ _ _ _ _ pr)].
    change (encode_replies [ParamsReply (pr_param_types pr); rows_reply (pr_fields pr)])
      with (parameter_description [] (pr_param_types pr) ++ encode_replies [rows_reply (pr_fields pr)]).
    rewrite encode_one. by destruct (pr_fields pr).
  - destruct (ex_portals ext !! name) as [po|] eqn:Es; cbn [ok_or]; rsimpl; [|unfold refused; by rewrite Es].
    split; [done|]. eexists. split; [|by apply (an_portal _ _ _ _ _ _ po)].
    rewrite encode_one. by destruct (po_fields po).
  - by split.
Qed.

Lemma execute_reacts s ext (sv sv1 : Server W) portal rows token st r sent next :
  next_token key sv = (sv1, token) -> handle_execute ext portal token [] s sv1 = (st, r) ->
  extended ext (out ← r; Ok (ext, out)) = (sent, next) -> ex_failed ext = false ->
  reacts s ext sv st.1 (Execute portal rows) sent next.
Proof.
  intros Et Eh Ex Hf. apply (extended_reacts _ _ _ _ _ _ _ _ Ex Hf). unfold handle_execute in Eh.
  destruct (ex_portals ext !! portal) as [po|] eqn:Ep; [|injection Eh as <- <-; unfold refused; rsimpl; by rewrite Ep].
  destruct (guarded_query token (po_sql po) s sv1) as [[s2 sv2] o] eqn:Eg. injection Eh as <- <-.
  pose proof (query_outcome _ _ _ _ _ _ _ Et Eg) as Ho. destruct o as [results|[e|]]; rsimpl.
  - split; [done|]. eexists. split; [apply write_portal_replies|by eapply an_execute].
  - unfold refused. by rewrite Ep.
  - by eapply en_execute_panic.
Qed.

Lemma close_reacts s ext (sv : Server W) kind name sent next :
  extended ext (lift (handle_close ext kind name)) = (sent, next) -> ex_failed ext = false ->
  reacts s ext sv s (Close kind name) sent next.
Proof.
  intros Ex Hf. apply (extended_reacts _ _ _ _ _ _ _ _ Ex Hf). unfold handle_close, lift.
  destruct (Z.eqb_spec kind 83) as [->|H83]; [|destruct (Z.eqb_spec kind 80) as [->|H80]]; cbn; [..|done];
    (split; [done|]; exists [CloseReply]; split; [by rewrite encode_one|]; apply an_close; [done|auto]).
Qed.

Lemma serve_query_reacts s ext sql (sv : Server W) st sent next :
  serve_query key s ext sql sv = (st, (sent, next)) -> reacts s ext sv st.1 (Query sql) sent next.
Proof.
  unfold serve_query. destruct (next_token key sv) as [sv1 token] eqn:Et.
  destruct (guarded_query token sql s sv1) as [[s2 sv2] o] eqn:Eg.
  pose proof (query_outcome _ _ _ _ _ _ _ Et Eg) as Ho. destruct o as [results|[e|]].
  - intros [= <- <- <-]. eexists. split; [|by apply an_query].
    rewrite encode_replies_app, encode_one. pose proof (write_results_replies [] results) as Ew. cbn [app] in Ew. by rewrite <- Ew.
  - destruct (pe_severity e) eqn:Es; intros [= <- <- <-].
    + exists [ErrorReply e; ReadyReply (en_tx_status s2)]. split; [|by apply an_query_error].
      change [ErrorReply e; ReadyReply (en_tx_status s2)] with ([ErrorReply e] ++ [ReadyReply (en_tx_status s2)]).
      by rewrite encode_replies_app, !encode_one.
    + exists [ErrorReply e]. split; [by rewrite encode_one|by constructor].
  - intros [= <- <- <-]. exists []. split; [done|by constructor].
Qed.

Lemma serve_message_reacts s ext m (sv : Server W) st sent next :
  serve_message key s ext m sv = (st, (sent, next)) -> reacts s ext sv st.1 m sent next.
Proof.
  unfold serve_message. destruct (is_extended m) eqn:Em.
  - assert ((if ex_failed ext then ((s, sv), ([], Some ext)) else serve_extended key s ext m sv)
      = (st, (sent, next)) -> reacts s ext sv st.1 m sent next) as Hx; [|by destruct m].
    destruct (ex_failed ext) eqn:Ef.
    { intros [= <- <- <-]. exists []. rewrite Ef. split; [done|by constructor]. }
    unfold serve_extended. destruct m as [| |name sql types|portal stm pf ps rf|kind name|portal rows|kind name| | |]; try done.
    + destruct (handle_parse _ _ _ _ _ _ _) as [[s' sv'] r] eqn:Eh. intros [= <- Ex].
      by apply (parse_reacts _ _ _ _ _ _ _ _ _ _ Eh).
    + intros [= <- Ex]. by apply bind_reacts.
    + intros [= <- Ex]. by apply describe_reacts.
    + destruct (next_token key sv) as [sv1 token] eqn:Et. destruct (handle_execute _ _ _ _ _ _) as [[s2 sv2] r] eqn:Eh.
      intros [= <- Ex]. by apply (execute_reacts _ _ _ _ _ _ _ _ _ _ _ Et Eh).
    + intros [= <- Ex]. by apply close_reacts.
  - destruct m; try done.
    + apply serve_query_reacts.
    + intros [= <- <- <-]. eexists [ErrorReply _]. split; [by rewrite encode_one|constructor].
    + intros [= <- <- <-]. eexists [ReadyReply _]. split; [by rewrite encode_one|constructor].
    + intros [= <- <- <-]. exists []. split; [done|constructor].
    + intros [= <- <- <-]. exists []. split; [done|constructor].
Qed.

Definition is_serving (p : Phase S) : bool := match p with Serving _ _ _ => true | _ => false end.

Lemma drain_converses f g b out s ext (sv : Server W) :
  (length b < f)%nat -> (length b < g)%nat ->
  let c := (drain config tls secret server_nonce f (mkConn b out (Serving key s ext), sv)).1 in
  exists rs, cn_out c = out ++ encode_replies rs /\
    conversation key s ext sv (messages g b).1 (messages g b).2 rs (is_serving (cn_phase c)).
Proof.
  revert g b out s ext sv; induction f as [|f IH]; intros [|g] b out s ext sv Hf Hg; try lia.
  cbn [drain messages]. unfold turn. cbn [cn_phase]. unfold serve_turn. cbn [cn_in].
  destruct (decode_message b) as [[[m|]|e] rest] eqn:Ed.
  - destruct (decode_message_more _ _ _ Ed ltac:(done)) as (Hl & _ & _). specialize (Hl m eq_refl).
    destruct (serve_message key s ext m sv) as [[s' sv'] [sent next]] eqn:Es.
    destruct (serve_message_reacts _ _ _ _ _ _ _ Es) as (rs & -> & Ha).
    destruct (messages g rest) as [ms e] eqn:Em. cbn [fst snd].
    destruct next as [ext'|].
    + destruct (IH g rest (out ++ encode_replies rs) s' ext' sv') as (rs' & Eo & Hc); [lia|lia|].
      rewrite Em in Hc. exists (rs ++ rs'). unfold go_on. cbn [cn_out].
      split; [by rewrite encode_replies_app, app_assoc|]. by eapply cv_answer.
    + exists rs. destruct f as [|f]; [lia|]. cbn. split; [done|]. by constructor.
  - exists []. cbn. split; [by rewrite app_nil_r|constructor].
  - exists [ErrorReply e]. destruct f as [|f].
    { destruct b; [done|simpl in Hf; lia]. }
    cbn. rewrite app_nil_r. split; [done|constructor].
Qed.


End Answers.

(** ** Authentication *)

(** A request for encryption may come first. *)
Inductive skips : bytes -> bytes -> Prop :=
| sk_here b : skips b b
| sk_request b b' r p :
    decode_startup b = (Ok (Some p), b') -> p = SslRequest \/ p = GssEncRequest -> skips b' r -> skips b r.

(** The user a startup packet names. *)
Definition user_of (params : list (string * string)) : string :=
  default "" (snd <$> List.find (fun '(k, _) => String.eqb k "user") params).

(** The input names the user, and goes on with [rest]. *)
Definition names_user (inp : bytes) (user : string) (rest : bytes) : Prop :=
  exists b params, skips inp b /\ decode_startup b = (Ok (Some (Startup params)), rest) /\ user = user_of params.

(** The body of the client's first answer: the mechanism and its message. *)
Definition sasl_response (body first : bytes) : Prop :=
  exists rest len, get_cstr body = Ok ("SCRAM-SHA-256", rest) /\ get_i32 rest = Ok (len, first).

Lemma skips_app inp rest more : skips inp rest -> skips (inp ++ more) (rest ++ more).
Proof.
  induction 1 as [b|b b' r p E Hp _ IH]; [constructor|].
  destruct (decode_startup_stream _ _ _ E ltac:(done)) as (_ & _ & Hm). by eapply sk_request.
Qed.

Lemma skips_snoc inp b b' p :
  skips inp b -> decode_startup b = (Ok (Some p), b') -> p = SslRequest \/ p = GssEncRequest -> skips inp b'.
Proof. induction 1; intros; eapply sk_request; eauto using skips. Qed.

Lemma names_user_app inp user rest more : names_user inp user rest -> names_user (inp ++ more) user (rest ++ more).
Proof.
  intros (b & params & Hs & E & Hu). destruct (decode_startup_stream _ _ _ E ltac:(done)) as (_ & _ & Hm).
  exists (b ++ more), params. split_and!; [by apply skips_app|apply Hm|done].
Qed.

(** What [greet] answers is a request for TLS. *)
Lemma greet_request buf :
  (8 <= length buf)%nat -> to_signed 32 (be_val (take 4 (drop 4 buf))) = SSL_REQUEST_CODE ->
  (decode_startup buf).2 = [] -> decode_startup buf = (Ok (Some SslRequest), []).
Proof.
  intros Hl Hc. assert (buf <> []) as Hne by (by intros ->; simpl in Hl; lia).
  unfold decode_startup. rewrite (proj2 (Nat.ltb_ge _ _)) by lia.
  set (len := to_signed 32 (be_val (take 4 buf))). destruct ((len <? 8) || _) eqn:El; [done|].
  apply orb_false_iff in El as [El%Z.ltb_ge _]. case_match eqn:Ev; [done|]. cbn [snd]. intros ->. f_equal.
  unfold startup_body, get_i32. rewrite (proj2 (Nat.ltb_ge _ _)).
  2: { apply Nat.ltb_ge in Ev. rewrite length_drop, length_take. lia. }
  rewrite skipn_firstn_comm, take_take, Nat.min_l by lia. rsimpl. by rewrite Hc.
Qed.

Section Authentication.
Context `{Crypto} `{!CryptoLaws} {S W : Type} `{!WireEngine S W}.
Context (config : SessionConfig) (tls : bool) (secret : Z) (server_nonce : string).
Context (verifiers : gmap string ScramVerifier) (mock_secret : bytes).
Hypothesis scram_only : cf_auth config = ScramSha256 verifiers mock_secret.

Abbreviation turn := (turn config tls secret server_nonce).
Abbreviation drain := (drain config tls secret server_nonce).
Abbreviation receive := (receive config tls secret server_nonce).

Definition verifier_of (user : string) : ScramVerifier :=
  default (mock mock_secret user) (verifiers !! user).

(** The message proves a key whose digest the verifier stores: it holds the key combined
    with the keyed hash of an exchange that has this connection's nonce in it. *)
Definition proves_key (v : ScramVerifier) (final : bytes) : Prop :=
  exists key bare nonce without_proof msg p,
    let auth := str_bytes (auth_message bare (server_first_of v (nonce +:+ server_nonce)) without_proof) in
    sha256 key = sv_stored_key v /\ from_utf8 final = Some msg /\ attr msg "p" = Ok p /\
    b64_decode p = Some (xor_bytes key (hmac (sv_stored_key v) auth)).

(** The exchange's first message is accepted, with the verifier of [user]. *)
Definition first_done (inp : bytes) (user : string) (scram : ScramServer) (rest : bytes) : Prop :=
  exists b body first a, names_user inp user b /\ decode_message b = (Ok (Some (Password body)), rest) /\
    sasl_response body first /\
    handle_client_first (from_verifier (verifier_of user) server_nonce) first = (scram, Ok a).

(** The input holds an accepted exchange: a startup packet that names a user, and then the
    two messages, of which the second proves the key in the verifier of that user. *)
Definition admitted (inp : bytes) : Prop :=
  exists user scram scram' b final rest a, first_done inp user scram b /\
    decode_message b = (Ok (Some (Password final)), rest) /\
    handle_client_final scram final = (scram', Ok a) /\ proves_key (verifier_of user) final.

Lemma first_done_app inp user scram rest more :
  first_done inp user scram rest -> first_done (inp ++ more) user scram (rest ++ more).
Proof.
  intros (b & body & first & a & Hn & E & Hr). destruct (decode_message_more _ _ _ E ltac:(done)) as (_ & _ & Hm).
  exists (b ++ more), body, first, a. split_and!; [by apply names_user_app|apply Hm|apply Hr..].
Qed.

Lemma admitted_app inp more : admitted inp -> admitted (inp ++ more).
Proof.
  intros (user & scram & scram' & b & final & rest & a & Hf & E & Hr).
  destruct (decode_message_more _ _ _ E ltac:(done)) as (_ & _ & Hm).
  exists user, scram, scram', (b ++ more), final, (rest ++ more), a. split_and!; [by apply first_done_app|apply Hm|apply Hr..].
Qed.

(** Where a connection is in the input it has received; until the exchange is accepted the
    engine is not touched. *)
Definition guarded (w : W) (inp : bytes) (st : Conn S * Server W) : Prop :=
  match cn_phase st.1 with
  | Serving _ _ _ => admitted inp
  | Closed => admitted inp \/ sv_world st.2 = w
  | SaslInitial _ user v =>
      (names_user inp user (cn_in st.1) /\ v = verifier_of user) /\ sv_world st.2 = w
  | SaslFinal _ user scram => first_done inp user scram (cn_in st.1) /\ sv_world st.2 = w
  | Greeting => inp = cn_in st.1 /\ sv_world st.2 = w
  | Starting => skips inp (cn_in st.1) /\ sv_world st.2 = w
  end.

Lemma hang_up_guarded w inp c sent sv :
  guarded w inp (c, sv) -> guarded w inp (hang_up c sent (cn_phase c) sv).
Proof.
  unfold guarded. cbn [fst snd hang_up cn_phase]. destruct (cn_phase c); cbn [phase_drop]; intuition.
Qed.

Lemma more_guarded w inp c b sv :
  guarded w inp (c, sv) -> guarded w (inp ++ b) (mkConn (cn_in c ++ b) (cn_out c) (cn_phase c), sv).
Proof.
  unfold guarded. cbn [fst snd cn_phase cn_in]. destruct (cn_phase c).
  - intros [-> ?]. done.
  - intros [? ?]. split; [by apply skips_app|done].
  - intros [[? ?] ?]. split_and!; [by apply names_user_app|done..].
  - intros [? ?]. split; [by apply first_done_app|done].
  - apply admitted_app.
  - intros [?|?]; [left; by apply admitted_app|by right].
Qed.

Lemma startup_guarded w inp c sv st' :
  cn_phase c = Starting -> skips inp (cn_in c) -> sv_world sv = w ->
  startup_turn config secret c sv = Some st' -> guarded w inp st'.
Proof.
  intros Ep Hs Hw. unfold startup_turn. destruct (decode_startup _) as [[[[params| | |pid k]|]|e] rest] eqn:Ed; try done.
  - destruct (register _ _) as [reg key]. unfold authenticate. rewrite scram_only. intros [= <-].
    split_and!; [|done..]. by exists (cn_in c), params.
  - intros [= <-]. split; [|done]. eapply skips_snoc; eauto.
  - intros [= <-]. split; [|done]. eapply skips_snoc; eauto.
  - intros [= <-]. by right.
  - intros [= <-]. by right.
Qed.

Lemma password_guarded w inp c p k sv st' :
  guarded w inp (c, sv) -> cn_phase c = p ->
  (forall body rest out, decode_message (cn_in c) = (Ok (Some (Password body)), rest) -> (k body).2 <> Closed ->
     guarded w inp (mkConn rest out (k body).2, sv)) ->
  password_turn c p k sv = Some st' -> guarded w inp st'.
Proof.
  intros Hg <- Hk. unfold password_turn.
  destruct (decode_message _) as [[[m|]|e] rest] eqn:Ed; [|done|intros [= <-]; by apply hang_up_guarded].
  destruct m; try (intros [= <-]; by apply hang_up_guarded).
  specialize (Hk body rest). destruct (k body) as [sent p']. cbn [snd] in Hk. intros [= <-].
  destruct p'; try (by apply Hk). by apply hang_up_guarded.
Qed.

Lemma initial_guarded w inp c key user sv st' :
  guarded w inp (c, sv) -> cn_phase c = SaslInitial key user (verifier_of user) ->
  names_user inp user (cn_in c) -> sv_world sv = w ->
  password_turn c (cn_phase c) (sasl_initial server_nonce key user (verifier_of user)) sv = Some st' -> guarded w inp st'.
Proof.
  intros Hg Ep Hn Hw. apply password_guarded; [done|done|]. intros body rest out Ed. unfold sasl_initial.
  destruct (get_cstr body) as [[mech b]|] eqn:Eb; [|done]. destruct (String.eqb_spec mech "SCRAM-SHA-256") as [->|]; [|done].
  cbn [negb]. destruct (get_i32 b) as [[len first]|] eqn:Ei; [|done]. case_match; [done|].
  destruct (handle_client_first _ first) as [scram [a|e]] eqn:Eh; [|done]. intros _.
  split; [|done]. exists (cn_in c), body, first, a. split_and!; [done..| |done]. by exists b, len.
Qed.

Lemma final_guarded w inp c key user scram sv st' :
  guarded w inp (c, sv) -> cn_phase c = SaslFinal key user scram ->
  first_done inp user scram (cn_in c) ->
  password_turn c (cn_phase c) (fun body => sasl_final config key user scram body sv) sv = Some st' -> guarded w inp st'.
Proof.
  intros Hg Ep Hf. apply password_guarded; [done|done|]. intros body rest out Ed. unfold sasl_final.
  destruct (handle_client_final scram body) as [scram' [a|e]] eqn:Eh; [|done]. intros _.
  exists user, scram, scram', (cn_in c), body, rest, a. split_and!; [done..|].
  destruct Hf as (b & bd & first & a1 & _ & _ & _ & Eh1).
  destruct (accepted_knows_key _ _ _ _ _ _ _ _ Eh1 Eh) as (k & bare & nonce & wp & msg & p & proof & Hk & Hm & Hp & Hd & -> & _).
  by exists k, bare, nonce, wp, msg, p.
Qed.

Lemma turn_guarded w inp st st' : guarded w inp st -> turn st = Some st' -> guarded w inp st'.
Proof.
  destruct st as [c sv]. intros Hg. unfold Connection.turn.
  destruct (cn_phase c) as [| |key user v|key user scram|key s ext|] eqn:Ep; try done;
    pose proof Hg as Hg'; unfold guarded in Hg'; cbn [fst snd] in Hg'; rewrite Ep in Hg'; try rewrite <- Ep.
  - destruct Hg' as [-> Hw]. unfold greet. destruct (Nat.ltb_spec (length (cn_in c)) 8) as [|Hl]; [done|].
    destruct (Z.eqb_spec (to_signed 32 (be_val (take 4 (drop 4 (cn_in c))))) SSL_REQUEST_CODE) as [Hc|].
    + destruct (decode_startup (cn_in c)).2 eqn:Ed; intros [= <-]; [|by right]. split; [|done].
      apply greet_request in Ed; [|done..]. eapply sk_request; [exact Ed|by left|constructor].
    + intros [= <-]. split; [constructor|done].
  - destruct Hg' as [Hs Hw]. by apply startup_guarded.
  - destruct Hg' as [[Hn ->] Hw]. by apply (initial_guarded w inp c key user).
  - destruct Hg' as [Hf Hw]. by apply (final_guarded w inp c key user scram).
  - unfold serve_turn. destruct (decode_message _) as [[[m|]|e] rest]; [|done|].
    + destruct (serve_message _ _ _ _ _) as [[s' sv'] [sent [ext'|]]]; intros [= <-]; [done|by left].
    + intros [= <-]. by left.
Qed.

Lemma receive_guarded w inp b st : guarded w inp st -> guarded w (inp ++ b) (receive b st).
Proof.
  intros Hg. assert (forall inp fuel st, guarded w inp st -> guarded w inp (drain fuel st)) as Hd.
  { clear Hg st inp b. intros inp. induction fuel as [|fuel IH]; intros st Hg; [done|]. cbn [Connection.drain].
    destruct (turn st) as [st'|] eqn:Et; [|done]. apply IH. by eapply turn_guarded. }
  destruct st as [c sv]. unfold Connection.receive, settle. pose proof (more_guarded w inp c b sv Hg) as Hm.
  destruct b as [|x b].
  - rewrite app_nil_r. destruct (cn_phase c) eqn:Ep; try done; rewrite <- Ep; by apply hang_up_guarded.
  - destruct (cn_phase c) eqn:Ep; try (apply Hd; exact Hm). unfold guarded in *. cbn [fst snd cn_phase] in *. by rewrite Ep.
Qed.

(** C8: Nothing is served before the password is proved. On a server that authenticates
    with SCRAM, whatever bytes a client sends in whatever pieces, a connection reaches its
    queries, and the engine's state changes, only after the bytes received hold an
    accepted exchange: a startup packet that names a user, and the two messages of the
    exchange, of which the second proves, for the nonce drawn for this connection, a key
    whose digest is the one stored for that user (for an unknown user, in a made-up
    verifier). *)
Theorem served_only_when_admitted (sv : Server W) chunks :
  let st := foldl (fun st b => receive b st) (accept, sv) chunks in
  (is_serving (cn_phase st.1) = true -> admitted (concat chunks)) /\
  (sv_world st.2 <> sv_world sv -> admitted (concat chunks)).
Proof.
  intros st. assert (guarded (sv_world sv) (concat chunks) st) as Hg.
  { unfold st. assert (guarded (sv_world sv) [] (accept, sv)) as Hg0 by done. revert Hg0.
    change (concat chunks) with ([] ++ concat chunks). generalize (@nil Z) as inp.
    generalize (@accept S, sv) as st0. induction chunks as [|b chunks IH]; intros st0 inp Hg0; [by rewrite app_nil_r|].
    cbn [foldl concat]. rewrite app_assoc. apply IH. by apply receive_guarded. }
  unfold guarded in Hg. destruct (cn_phase st.1); cbn; naive_solver.
Qed.

End Authentication.

(** ** Cancelling *)

(** C32: One cancel request stops two queries. The registry remembers a request until the
    next query begins, also when the request has already stopped the query it was meant
    for: a query that is interrupted by a request is reported as cancelled, and so is the
    next one, although nobody cancelled it and the engine was never asked. *)
Theorem one_cancel_stops_two_queries {S W : Type} `{!WireEngine S W} (key : Z * Z) sql sql' n
    (s s1 : S) (w w1 : W) reg target ext :
  cr_sessions reg !! key = Some target -> ct_pending target = false ->
  en_interrupted sql n (s, w) = Some (s1, w1) ->
  let ask q st := serve_query key st.1 ext q st.2 in
  let '(st1, reply1) := ask sql (s, mkServer reg w [During n; Quiet]) in
  let '(st2, reply2) := ask sql' st1 in
  st1.1 = s1 /\ reply1 = (ready_for_query (error_response [] canceled) (en_tx_status s1), Some ext) /\
  st2.1 = s1 /\ sv_world st2.2 = w1 /\
  reply2 = (ready_for_query (error_response [] canceled) (en_tx_status s1), Some ext).
Proof.
  intros Ht Hp Hi. destruct target as [fired pending]. cbn in Hp. subst pending.
  unfold serve_query, next_token, begin_query, guarded_query. cbn. rewrite Ht. cbn. rewrite Hi. cbn.
  by rewrite !lookup_alter_eq, Ht.
Qed.

(** ** A client of the canned engine *)

(** Asleep in its first query. *)
Lemma one_cancel_stops_two_queries_witness :
  let reg := (register 7 (mkRegistry 1 ∅)).1 in
  let ask q st := serve_query (1, 7) st.1 ext_default q st.2 in
  let '(st1, reply1) := ask "SELECT pg_sleep(30)" (tt, mkServer reg tt [During 0; Quiet]) in
  let '(st2, reply2) := ask "SELECT 1" st1 in
  st1.1 = tt /\ reply1 = (ready_for_query (error_response [] canceled) TxIdle, Some ext_default) /\
  st2.1 = tt /\ sv_world st2.2 = tt /\
  reply2 = (ready_for_query (error_response [] canceled) TxIdle, Some ext_default).
Proof.
  exact (one_cancel_stops_two_queries (1, 7) "SELECT pg_sleep(30)" "SELECT 1" 0 tt tt tt tt
    (register 7 (mkRegistry 1 ∅)).1 (mkTarget false false) ext_default eq_refl eq_refl eq_refl).
Defined.

Definition sample_session : bytes :=
  encode_frontend (Parse "" "SELECT 1" []) ++ encode_frontend (Execute "p" 0) ++ encode_frontend Flush
  ++ encode_frontend Sync ++ encode_frontend (Query "SELECT 1").


Lemma pieces_do_not_matter_witness :
  let st := (mkConn [] [] Starting, mkServer (mkRegistry 1 ∅) tt []) in
  foldl (fun st c => receive trust false 7 "n" c st) st
    [[0; 0]; [0; 9; 0; 3; 0]; [0; 0; 81; 0; 0; 0; 5]; [0; 88]] =
  receive trust false 7 "n" (concat [[0; 0]; [0; 9; 0; 3; 0]; [0; 0; 81; 0; 0; 0; 5]; [0; 88]]) st.
Proof.
  apply (pieces_do_not_matter trust false 7 "n"); [reflexivity|].
  repeat (apply List.Forall_cons; [discriminate|]). apply List.Forall_nil.
Defined.

(** A client that proves its password. *)
Definition scram_config : SessionConfig :=
  mkConfig (ScramSha256 {["crab" := from_password "pencil" [1; 2; 3] 4096]} [9]) [].

Definition startup_packet : bytes :=
  let body := put_i32 PROTOCOL_3_0 ++ put_cstr "user" ++ put_cstr "crab" ++ [0] in
  put_i32 (Z.of_nat (length body + 4)) ++ body.

Definition sasl_first_packet : bytes :=
  let first := str_bytes ("n,," +:+ client_first_bare "" "CNONCE") in
  encode_frontend (Password (put_cstr "SCRAM-SHA-256" ++ put_i32 (Z.of_nat (length first)) ++ first)).

Definition sasl_final_packet : bytes :=
  let first := server_first_of (from_password "pencil" [1; 2; 3] 4096) "CNONCESNONCE" in
  match client_final "pencil" "n,," (client_first_bare "" "CNONCE") first with
  | Some (final, _) => encode_frontend (Password (str_bytes final))
  | None => []
  end.

Lemma served_only_when_admitted_witness :
  admitted "SNONCE" {["crab" := from_password "pencil" [1; 2; 3] 4096]} [9]
    (concat [startup_packet; sasl_first_packet; sasl_final_packet]).
Proof.
  apply (proj1 (served_only_when_admitted scram_config false 7 "SNONCE" {["crab" := from_password "pencil" [1; 2; 3] 4096]} [9]
    eq_refl (mkServer (mkRegistry 1 ∅) tt []) [startup_packet; sasl_first_packet; sasl_final_packet])).
  vm_compute. reflexivity.
Defined.
