(* ===== verification/Router.v ===== *)
(** * The gateway of a connection (cluster/src/range/router.rs)

    One connection to a node of a cluster whose tables are split over ranges: each
    statement is routed to the range of its tables, runs on this node's session for
    that range when the node leads it, and is forwarded to the leader otherwise. A
    transaction that touches a second range becomes a global one, committed by a single
    decision in range 0. *)
From Stdlib Require Import ZArith Lia Ascii.
From stdpp Require Import base list gmap strings.
From S2P Require Import Lexer Parser.
From S2P Require Import Prelude Text Chars Keys Store Datum Float DateTimeBin ExtArith DateTime.
From S2P Require Import Calendar Numeric NumericFn Ops Cast Mvcc Errors Catalog Scope XidAlloc LockMgr.
From S2P Require Import Exec Ast AggCall EvalOps Func DateTimeFn FormatFn Eval Wire Project.
From S2P Require Import Join Aggregate Values SetOps ScanBounds Describe Query RangeMap Act Write Session.
Open Scope Z_scope.

Abbreviation RangeId := Z (only parsing).

(** ** The ranges a statement reads *)

Section Ranges.
Context `{Ext} (catalog_kv : MemKv) (map : RangeMap).

(** [cluster/src/range/router.rs:339-342] range_of *)
Definition range_of (table_name : string) : result ExecError RangeId :=
  t ← map_err ECatalog (get_table catalog_kv table_name);
  Ok (range_for_table map (t_id t)).

(** [cluster/src/range/router.rs:637-639] CteRangeCtx *)
Definition CteRangeCtx : Type := list string.

(** [cluster/src/range/router.rs:646-648] CteRangeCtx::contains *)
Definition ctx_contains (ctx : CteRangeCtx) (name : string) : bool := existsb (String.eqb name) (rev ctx).

(** A table that is not one of the query's own names: its range, if it is stored in
    one. *)
Definition collect_table (ctx : CteRangeCtx) (name : string) (out : gset Z) : result ExecError (gset Z) :=
  if ctx_contains ctx name then Ok out
  else
    t ← map_err ECatalog (get_table catalog_kv name);
    Ok (match t_foreign t with
        | None => {[range_for_table map (t_id t)]} ∪ out
        | Some _ => out
        end).

(** [cluster/src/range/router.rs:810-882] collect_expr_ranges *)
Fixpoint collect_expr_ranges (ctx : CteRangeCtx) (e : Expr) (out : gset Z) {struct e}
  : result ExecError (gset Z) :=
  match e with
  | ScalarSubquery q | ExistsQuery q => collect_query_expr_ranges ctx q out
  | InSubquery x q _ | Quantified x _ _ q =>
      out ← collect_expr_ranges ctx x out;
      collect_query_expr_ranges ctx q out
  | Unary _ x | IsNull x _ | Cast x _ => collect_expr_ranges ctx x out
  | Binary _ l r => out ← collect_expr_ranges ctx l out; collect_expr_ranges ctx r out
  | Func _ _ args => collect_args_ranges ctx args out
  | InList x l _ =>
      out ← collect_expr_ranges ctx x out;
      foldM (fun out x => collect_expr_ranges ctx x out) out l
  | Between x low high _ =>
      out ← collect_expr_ranges ctx x out;
      out ← collect_expr_ranges ctx low out;
      collect_expr_ranges ctx high out
  | Like x pattern _ _ => out ← collect_expr_ranges ctx x out; collect_expr_ranges ctx pattern out
  | Case operand whens else_result =>
      out ← match operand with Some o => collect_expr_ranges ctx o out | None => Ok out end;
      out ← foldM (fun out (w : Expr * Expr) =>
                     let '(c, r) := w in
                     out ← collect_expr_ranges ctx c out; collect_expr_ranges ctx r out) out whens;
      match else_result with Some x => collect_expr_ranges ctx x out | None => Ok out end
  | IntLiteral _ | NumericLiteral _ | StringLiteral _ | BoolLiteral _ | NullLiteral
  | ColumnRef _ _ | ParamRef _ | Const _ _ => Ok out
  end
with collect_args_ranges (ctx : CteRangeCtx) (a : FuncArgs) (out : gset Z) {struct a}
  : result ExecError (gset Z) :=
  match a with
  | ArgExprs l => foldM (fun out x => collect_expr_ranges ctx x out) out l
  | ArgStar => Ok out
  end
with collect_order_ranges (ctx : CteRangeCtx) (o : OrderItem) (out : gset Z) {struct o}
  : result ExecError (gset Z) :=
  let '(mkOrderItem e _) := o in collect_expr_ranges ctx e out
with collect_item_ranges (ctx : CteRangeCtx) (it : SelectItem) (out : gset Z) {struct it}
  : result ExecError (gset Z) :=
  match it with ItemExpr e _ => collect_expr_ranges ctx e out | _ => Ok out end
(** [cluster/src/range/router.rs:676-688] collect_query_expr_ranges *)
with collect_query_expr_ranges (ctx : CteRangeCtx) (q : QueryExpr) (out : gset Z) {struct q}
  : result ExecError (gset Z) :=
  let '(mkQueryExpr w body order_by _ _ _) := q in
  '(query_ctx, out) ← match w with
                      | Some w => collect_with_ranges ctx w out
                      | None => Ok (ctx, out)
                      end;
  out ← collect_set_expr_ranges query_ctx body out;
  foldM (fun out item => collect_order_ranges query_ctx item out) out order_by
(** [cluster/src/range/router.rs:655-674] collect_with_ranges *)
with collect_with_ranges (ctx : CteRangeCtx) (w : WithClause) (out : gset Z) {struct w}
  : result ExecError (CteRangeCtx * gset Z) :=
  let '(mkWithClause recursive ctes) := w in
  if recursive then Err (EUnsupported "WITH RECURSIVE is not supported")
  else foldM (fun '(next, out) cte => collect_cte_ranges next cte out) (ctx, out) ctes
with collect_cte_ranges (next : CteRangeCtx) (c : Cte) (out : gset Z) {struct c}
  : result ExecError (CteRangeCtx * gset Z) :=
  let '(mkCte name _ query) := c in
  out ← collect_query_expr_ranges next query out;
  Ok (next ++ [name], out)
(** [cluster/src/range/router.rs:737-764] collect_set_expr_ranges, with the query
    bodies (719-734) *)
with collect_set_expr_ranges (ctx : CteRangeCtx) (e : SetExpr) (out : gset Z) {struct e}
  : result ExecError (gset Z) :=
  match e with
  | SetQuery (BodySelect s) => collect_select_ranges_with_ctes ctx s out
  | SetQuery (BodyValues rows) =>
      foldM (fun out row => foldM (fun out x => collect_expr_ranges ctx x out) out row) out rows
  | SetQuery (BodyNested q) => collect_query_expr_ranges ctx q out
  | SetOperation _ _ l r =>
      out ← collect_set_expr_ranges ctx l out;
      collect_set_expr_ranges ctx r out
  end
(** [cluster/src/range/router.rs:690-718] collect_select_ranges_with_ctes *)
with collect_select_ranges_with_ctes (ctx : CteRangeCtx) (s : SelectStmt) (out : gset Z) {struct s}
  : result ExecError (gset Z) :=
  let '(mkSelectStmt projection from filter _ group_by having order_by _ _ _) := s in
  out ← foldM (fun out te => collect_table_expr_ranges ctx te out) out from;
  out ← foldM (fun out it => collect_item_ranges ctx it out) out projection;
  out ← match filter with Some f => collect_expr_ranges ctx f out | None => Ok out end;
  out ← match having with Some h => collect_expr_ranges ctx h out | None => Ok out end;
  out ← foldM (fun out g => collect_expr_ranges ctx g out) out group_by;
  foldM (fun out o => collect_order_ranges ctx o out) out order_by
(** [cluster/src/range/router.rs:766-805] collect_table_expr_ranges *)
with collect_table_expr_ranges (ctx : CteRangeCtx) (te : TableExpr) (out : gset Z) {struct te}
  : result ExecError (gset Z) :=
  match te with
  | TableRef name _ => collect_table ctx name out
  | Derived q _ _ => collect_query_expr_ranges ctx q out
  | Join l r _ constraint =>
      out ← collect_table_expr_ranges ctx l out;
      out ← collect_table_expr_ranges ctx r out;
      collect_constraint_ranges ctx constraint out
  end
with collect_constraint_ranges (ctx : CteRangeCtx) (c : JoinConstraint) (out : gset Z) {struct c}
  : result ExecError (gset Z) :=
  match c with JoinOn e => collect_expr_ranges ctx e out | _ => Ok out end.

Definition spans_ranges (q : QueryExpr) : ExecError :=
  EUnsupported match q_body q with
               | SetOperation _ _ _ _ => "set operations spanning ranges are not supported"
               | _ => "cross-range joins or subqueries are not supported"
               end.

(** [cluster/src/range/router.rs:290-337] pinning_range *)
Definition pinning_range (stmt : Statement) : result ExecError (option RangeId) :=
  match stmt with
  | Insert table _ _ | Update table _ _ | DeleteFrom table _ => r ← range_of table; Ok (Some r)
  | Ast.Query q =>
      ranges ← collect_query_expr_ranges [] q ∅;
      match btree_list ranges with
      | [] => Ok None
      | [r] => Ok (Some r)
      | _ => Err (spans_ranges q)
      end
  | _ => Ok None
  end.

End Ranges.

(** ** Nodes *)

Section Node.
Context `{ExtCal}.

(** An engine of this node: what its sessions change, and what its sessions are made
    with. *)
Record Engine : Type := mkEngine {
  eg_state : EngineState;
  eg_mode : PersistMode;
  eg_barrier : bool;
  eg_scanner : option ForeignScanner
}.

(** A node: its engines, by range; its replica of range 0's store, which the engines of
    all ranges read the catalog and the global commit log from; the transaction manager
    that they share; and everything else. *)
Record Node (R : Type) : Type := mkNode {
  nd_engines : gmap Z Engine;
  nd_range0 : MemKv;
  nd_gtm : option Gtm;
  nd_rest : R
}.
End Node.
Arguments mkNode {_ _ R} _ _ _ _.
Arguments nd_engines {_ _ R} _.
Arguments nd_range0 {_ _ R} _.
Arguments nd_gtm {_ _ R} _.
Arguments nd_rest {_ _ R} _.

(** The state an engine shows to its sessions: range 0's store is the same store
    whichever engine looks at it. *)
Definition engine_view (range0 : MemKv) (r : RangeId) (e : EngineState) : EngineState :=
  if r =? 0 then mkShared range0 None (sh_pa e) (sh_seq e) (sh_locks e)
  else mkShared (sh_kv e) (Some range0) (sh_pa e) (sh_seq e) (sh_locks e).

Section Nodes.
Context `{ExtCal} {R : Type}.

Definition put_engine (r : RangeId) (eg : Engine) (e : EngineState) (nd : Node R) : Node R :=
  mkNode (<[r := mkEngine e (eg_mode eg) (eg_barrier eg) (eg_scanner eg)]> (nd_engines nd))
    (if r =? 0 then sh_kv e else default (nd_range0 nd) (sh_range0 e)) (nd_gtm nd) (nd_rest nd).

Definition set_gtm (g : Gtm) (nd : Node R) : Node R :=
  mkNode (nd_engines nd) (nd_range0 nd) (Some g) (nd_rest nd).

(** An action on the engine of a range; there must be one. *)
Definition on_engine {A} (r : RangeId) (m : io A) : act (Node R) A := fun nd =>
  match nd_engines nd !! r with
  | None => (nd, Err Panicked)
  | Some eg =>
      let '(e, res) := m (engine_view (nd_range0 nd) r (eg_state eg)) in (put_engine r eg e nd, res)
  end.

Definition the_gtm : act (Node R) Gtm := fun nd => (nd, panic_or (nd_gtm nd)).

(** [cluster/src/range/router.rs:43-52] GlobalCoordinator *)
Record GlobalCoordinator : Type := mkCoordinator {
  co_begin_global : act (Node R) Z;
  co_stage_remote : Z -> RangeId -> string -> act (Node R) ();
  co_commit_global : Z -> bool -> act (Node R) bool;
  co_release_remote : Z -> RangeId -> bool -> act (Node R) ()
}.

(** What surrounds a gateway: whether this node leads a range, the gate that a range is
    behind while it recovers, the forwarding of a statement to another node, and the
    coordinator of global transactions. *)
Class Gateway : Type := {
  gw_leads : Node R -> RangeId -> bool;
  gw_serving : option (Node R -> RangeId -> bool);
  gw_forward : RangeId -> string -> act (Node R) QueryResult;
  gw_coordinator : option GlobalCoordinator
}.

Context `{!Awaits}.

(** [executor/src/lib.rs:260-270] begin_global_durable, on the engine of range 0 *)
Definition node_begin_global : act (Node R) Z :=
  gtm ← the_gtm;
  let '(g, gtm) := begin_global gtm in
  _ ← io_modify (set_gtm gtm);
  _ ← on_engine 0 (io_commit [next_global_xid_op gtm]);
  mret g.

(** [executor/src/lib.rs:283-303] commit_global_decision, on the engine of range 0 *)
Definition node_commit_decision (g : Z) (status : XidStatus) : act (Node R) XidStatus :=
  gtm ← the_gtm;
  on_engine 0 (_ ← io_commit [clog_put_op g status; next_global_xid_op gtm];
               e ← io_get;
               io_lift (lift (map_err EKv (clog_get (sh_kv e) g)))).

(** [executor/src/lib.rs:502-507] finish_global *)
Definition node_finish_global (g : Z) : act (Node R) () :=
  gtm ← the_gtm; io_modify (set_gtm (gtm_finish_global gtm g)).

(** The one error of a coordinator without remote ranges. *)
Definition no_remote {A} (range : RangeId) : act (Node R) A :=
  io_raise (EUnsupported ("local coordinator has no remote range " +:+ z_to_string range)).

(** [cluster/src/range/router.rs:56-90] LocalCoordinator, its operations *)
Definition LocalCoordinator : GlobalCoordinator := {|
  co_begin_global := node_begin_global;
  co_stage_remote _ range _ := no_remote range;
  co_commit_global g commit :=
    effective ← node_commit_decision g (if commit then Committed else Aborted);
    _ ← node_finish_global g;
    mret (match effective with Committed => true | _ => false end);
  co_release_remote _ range _ := no_remote range
|}.

(** [cluster/src/range/router.rs:121-135] RejectForward, its operation *)
Definition RejectForward (range : RangeId) (_ : string) : act (Node R) QueryResult :=
  io_raise (EUnsupported ("range " +:+ z_to_string range +:+ " is not led locally; remote forwarding lands in T4")).

(** [cluster/src/range/router.rs:263-282] connect, what surrounds the router *)
Definition in_process : Gateway := {|
  gw_leads _ _ := true;
  gw_serving := None;
  gw_forward := RejectForward;
  gw_coordinator := Some LocalCoordinator
|}.

End Nodes.
Arguments GlobalCoordinator {_ _} R.
Arguments Gateway {_ _} R.

(** ** The router *)

(** [cluster/src/range/router.rs:143-159] Pin *)
Inductive Pin : Type :=
| PinNone
| PinOpen
| PinRange (p : RangeId)
| PinGlobal (ranges : gset Z) (g : Z).

Section RouterState.
Context `{ExtCal}.

(** [cluster/src/range/router.rs:164-199] RangeRouter; the engines, the catalog store
    and the handles are in [Node] and [Gateway] *)
Record RangeRouter : Type := mkRouter {
  rt_sessions : gmap Z SqlSession;
  rt_pin : Pin;
  rt_map : RangeMap;
  rt_cur_sql : string
}.

End RouterState.

Section Router.
Context `{ExtCal} `{MathLib} `{Unicode} `{!ExtPow}.
Context (default_ctx : EvalCtx) `{!Awaits} (clock : EngineState -> Timestamp).
Context {R : Type} `{!Gateway R}.
Implicit Types stmt : Statement.

(** [cluster/src/range/router.rs:205-228] RangeRouter::new *)
Definition router_new (map : RangeMap) : RangeRouter := mkRouter ∅ PinNone map "".

Definition set_sessions (s : gmap Z SqlSession) (rt : RangeRouter) : RangeRouter :=
  mkRouter s (rt_pin rt) (rt_map rt) (rt_cur_sql rt).
Definition set_pin (p : Pin) (rt : RangeRouter) : RangeRouter :=
  mkRouter (rt_sessions rt) p (rt_map rt) (rt_cur_sql rt).
Definition set_cur_sql (sql : string) (rt : RangeRouter) : RangeRouter :=
  mkRouter (rt_sessions rt) (rt_pin rt) (rt_map rt) sql.

(** Actions of a router on its own state and its node. *)
Abbreviation ract := (act (RangeRouter * Node R)).

Definition node {A} (m : act (Node R) A) : ract A := fun '(rt, nd) => let '(nd, r) := m nd in ((rt, nd), r).
Definition router : ract RangeRouter := fun st => (st, Ok st.1).
Definition set_router (f : RangeRouter -> RangeRouter) : ract () := fun '(rt, nd) => ((f rt, nd), Ok ()).

(** [executor/src/lib.rs:535-551] connect *)
Definition connect (eg : Engine) (gtm : option Gtm) : SqlSession :=
  session_new (eg_mode eg) (bool_decide (is_Some gtm)) (eg_barrier eg) (eg_scanner eg).

(** An action of the session of a range of this node.
    [cluster/src/range/router.rs:610-620] session_mut *)
Definition session_mut {A} (r : RangeId) (m : act (SqlSession * EngineState) A) : ract A := fun '(rt, nd) =>
  match nd_engines nd !! r with
  | None => ((rt, nd), Err Panicked)
  | Some eg =>
      let s := default (connect eg (nd_gtm nd)) (rt_sessions rt !! r) in
      let '((s, e), res) := m (s, engine_view (nd_range0 nd) r (eg_state eg)) in
      ((set_sessions (<[r := s]> (rt_sessions rt)) rt, put_engine r eg e nd), res)
  end.

(** [self.engines.contains_key(&r) && self.leads.leads(r)] *)
Definition leads_here (nd : Node R) (r : RangeId) : bool :=
  bool_decide (is_Some (nd_engines nd !! r)) && gw_leads nd r.

(** The gate of a range is closed. *)
Definition recovering (nd : Node R) (r : RangeId) : bool :=
  match gw_serving with Some is_serving => negb (is_serving nd r) | None => false end.

Definition the_coordinator : ract (GlobalCoordinator R) := io_lift (panic_or gw_coordinator).

(** [cluster/src/range/router.rs:535-537] can_escalate *)
Definition can_escalate : bool := bool_decide (is_Some gw_coordinator).

(** [cluster/src/range/router.rs:543-545] ensure_began_on *)
Definition ensure_began_on (r : RangeId) : ract () := session_mut r (ensure_began clock).

(** [cluster/src/range/router.rs:549-582] stage_on *)
Definition stage_on (r g : Z) stmt : ract QueryResult :=
  nd ← node io_get;
  if leads_here nd r then
    if recovering nd r then io_raise ENotLeader
    else
      _ ← ensure_began_on r;
      _ ← session_mut r (join_global g);
      session_mut r (run_one default_ctx clock stmt)
  else
    coord ← the_coordinator;
    rt ← router;
    _ ← node (co_stage_remote coord g r (rt_cur_sql rt));
    mret (QCommand "OK").

(** [cluster/src/range/router.rs:599-606] run_on *)
Definition run_on (r : RangeId) stmt : ract QueryResult :=
  nd ← node io_get;
  if leads_here nd r then session_mut r (run_one default_ctx clock stmt)
  else rt ← router; node (gw_forward r (rt_cur_sql rt)).

(** One participant of a decided transaction. *)
Definition release_on (coord : GlobalCoordinator R) (g : Z) (committed : bool) (r : RangeId) : ract () :=
  nd ← node io_get;
  if leads_here nd r then session_mut r (if committed then commit_release else abort_release)
  else _ ← io_try (node (co_release_remote coord g r committed)); mret ().

(** [cluster/src/range/router.rs:481-529] finish_txn *)
Definition finish_txn stmt : ract QueryResult :=
  rt ← router;
  _ ← set_router (set_pin PinNone);
  match rt_pin rt with
  | PinGlobal ranges g =>
      let commit := match stmt with Commit => true | _ => false end in
      coord ← the_coordinator;
      committed ← node (co_commit_global coord g commit);
      _ ← io_fold (fun _ r => release_on coord g committed r) () (btree_list ranges);
      mret (QCommand (if committed : bool then "COMMIT" else "ROLLBACK"))
  | PinRange p => run_on p stmt
  | PinOpen | PinNone => run_on 0 stmt
  end.

Definition not_yet : ExecError := EUnsupported "a transaction may not span ranges yet (D3b)".

(** [Insert], [Update] and [Delete]: the statements that the gate holds back. *)
Definition gated stmt : bool :=
  match stmt with Insert _ _ _ | Update _ _ _ | DeleteFrom _ _ => true | _ => false end.

(** [cluster/src/range/router.rs:389-475] dispatch, a statement within a transaction or
    in autocommit *)
Definition route stmt (pin : Pin) (pinning : option RangeId) : ract QueryResult :=
  match pin, pinning with
  | PinNone, _ => run_on (default 0 pinning) stmt
  | PinOpen, Some r =>
      nd ← node io_get;
      if leads_here nd r then
        _ ← set_router (set_pin (PinRange r));
        _ ← ensure_began_on r;
        run_on r stmt
      else if negb can_escalate then io_raise not_yet
      else
        coord ← the_coordinator;
        g ← node (co_begin_global coord);
        _ ← set_router (set_pin (PinGlobal {[r]} g));
        stage_on r g stmt
  | PinOpen, None => run_on 0 stmt
  | PinRange p, Some r =>
      if r =? p then run_on p stmt
      else if negb can_escalate then io_raise not_yet
      else
        coord ← the_coordinator;
        g ← node (co_begin_global coord);
        _ ← session_mut p (join_global g);
        _ ← set_router (set_pin (PinGlobal ({[r]} ∪ {[p]}) g));
        stage_on r g stmt
  | PinRange p, None => run_on p stmt
  | PinGlobal ranges g, Some r =>
      _ ← set_router (set_pin (PinGlobal ({[r]} ∪ ranges) g));
      stage_on r g stmt
  | PinGlobal _ _, None => run_on 0 stmt
  end.

(** [cluster/src/range/router.rs:356-476] dispatch *)
Definition dispatch stmt : ract QueryResult :=
  rt ← router;
  nd ← node io_get;
  pinning ← io_lift (lift (pinning_range (nd_range0 nd) (rt_map rt) stmt));
  if gated stmt && match pinning with Some r => leads_here nd r && recovering nd r | None => false end
  then io_raise ENotLeader
  else
    match stmt with
    | Begin _ =>
        _ ← set_router (fun rt => match rt_pin rt with PinNone => set_pin PinOpen rt | _ => rt end);
        run_on 0 stmt
    | Commit | Rollback => finish_txn stmt
    | _ => route stmt (rt_pin rt) pinning
    end.

(** The statements of a query string, each with its text; as for [parse_sql], the
    [Panicked] case never happens. *)
Definition parse_sources (sql : string) : xresult (list (Statement * string)) :=
  match parse_with_source sql with
  | Some r => lift (map_err EParse r)
  | None => Err Panicked
  end.

Definition dispatch_source (stmt : Statement) (src : string) : ract QueryResult :=
  _ ← set_router (set_cur_sql src); dispatch stmt.

(** [cluster/src/range/router.rs:624-633] simple, with the errors of the executor *)
Definition simple (sql : string) : ract QueryResult :=
  stmts ← io_lift (parse_sources sql);
  io_fold (fun _ '(stmt, src) => dispatch_source stmt src) (QCommand "OK") stmts.

(** [cluster/src/range/router.rs:888-903] simple_query, with the errors of the executor *)
Definition router_simple_query (sql : string) : ract (list QueryResult) :=
  if String.eqb (trim sql) "" then mret [QEmpty]
  else
    stmts ← io_lift (parse_sources sql);
    match stmts with
    | [] => mret [QEmpty]
    | _ =>
        io_fold (fun results '(stmt, src) => r ← dispatch_source stmt src; mret (results ++ [r])) [] stmts
    end.

(** [cluster/src/range/router.rs:908-914] describe *)
Definition router_describe (sql : string) : ract (list FieldDescription) :=
  stmts ← io_lift (parse_sql sql);
  nd ← node io_get;
  io_lift (describe default_ctx (nd_range0 nd) stmts).

(** [cluster/src/range/router.rs:916-923] tx_status *)
Definition router_tx_status (rt : RangeRouter) : TxStatus :=
  match rt_pin rt with PinNone => TxIdle | _ => TxInTransaction end.

End Router.
