(* ===== verification/TwoPc.v ===== *)
(** * The two-phase commit service (cluster/src/twopc.rs, transport/server.rs)

    The requests of a cross-range transaction on the node port: the client that sends
    one to the leader of a range and tries once more when that fails, the coordinator
    that drives a transaction with them, and the participant, which keeps a session per
    transaction and range until the transaction is decided. *)
From Stdlib Require Import ZArith Lia Ascii.
From stdpp Require Import base list gmap strings.
From S2P Require Import Lexer Parser.
From S2P Require Import Prelude Text Chars Keys Store Datum Float DateTimeBin ExtArith DateTime.
From S2P Require Import Calendar Numeric NumericFn Ops Cast Mvcc Errors Catalog Scope XidAlloc LockMgr.
From S2P Require Import Exec Engine Ast AggCall EvalOps Func DateTimeFn FormatFn Eval Wire Project.
From S2P Require Import Join Aggregate Values SetOps ScanBounds Describe Query RangeMap Act Write Session Router.
Open Scope Z_scope.

(** ** Requests *)

(** [cluster/src/transport/protocol.rs:71-88] TxnRpc *)
Inductive TxnRpc : Type :=
| BeginGlobal
| Stage (g : Z) (range : RangeId) (sql : string)
| CommitGlobal (g : Z) (commit : bool)
| Release (g : Z) (range : RangeId) (commit : bool)
| GlobalBarrier.

(** [cluster/src/transport/protocol.rs:91-110] TxnResp *)
Inductive TxnResp : Type :=
| RespBegan (g : Z)
| RespStaged
| RespCommitted
| RespAborted
| RespReleased
| RespBarrier (applied_index : Z)
| RespNotLeader
| RespRetryable
| RespErr (e : string).

(** ** Leaders *)

(** The part before the first bar of a text, and the parts between bars. *)
Fixpoint split_bar (s : string) : list string :=
  match s with
  | EmptyString => [EmptyString]
  | String c rest =>
      if Ascii.eqb c "|" then EmptyString :: split_bar rest
      else match split_bar rest with
           | part :: parts => String c part :: parts
           | [] => [String c EmptyString]
           end
  end.

(** [cluster/src/addr.rs:8-10] node_dial_addr *)
Definition node_dial_addr (addr : string) : string := default addr (head (split_bar addr)).

(** [cluster/src/addr.rs:14-16] sql_addr_part *)
Definition sql_addr_part (addr : string) : option string := split_bar addr !! 1%nat.

(** [cluster/src/addr.rs:19-21] pack *)
Definition pack (node_addr sql_addr : string) : string := node_addr +:+ "|" +:+ sql_addr.

(** What a node reads of the metrics of a Raft group. *)
Record RaftMetrics : Type := mkMetrics {
  rm_current_leader : option Z;
  rm_is_leader_state : bool;
  rm_current_term : Z;
  rm_nodes : gmap Z string
}.

(** [cluster/src/twopc.rs:57-76] resolve_leader *)
Definition resolve_leader (raft : option RaftMetrics) (blocked : Z -> bool) : option (Z * string) :=
  m ← raft;
  leader ← rm_current_leader m;
  if blocked leader then None
  else addr ← rm_nodes m !! leader; Some (leader, node_dial_addr addr).

(** ** The client *)

Section Client.
Context {W : Type}.
Context (await_leader : RangeId -> act W (option (Z * string))).
Context (exchange : Z -> string -> RangeId -> TxnRpc -> act W (result () TxnResp)).

(** One attempt of [call]. *)
Definition attempt (target_range : RangeId) (rpc : TxnRpc) : act W (option (result () TxnResp)) :=
  l ← await_leader target_range;
  match l with
  | None => mret None
  | Some (leader, addr) => r ← exchange leader addr target_range rpc; mret (Some r)
  end.

(** [cluster/src/twopc.rs:101-116] call *)
Definition call (target_range : RangeId) (rpc : TxnRpc) : act W (result () TxnResp) :=
  first ← attempt target_range rpc;
  match first with
  | None => mret (Err ())
  | Some (Ok RespNotLeader) | Some (Err ()) =>
      second ← attempt target_range rpc;
      mret (default (Err ()) second)
  | Some (Ok resp) => mret (Ok resp)
  end.
End Client.

Section Coordinator.
Context `{ExtCal} {R : Type}.
Context (call : RangeId -> TxnRpc -> act (Node R) (result () TxnResp)).

(** [cluster/src/twopc.rs:226-232] begin_global *)
Definition net_begin_global : act (Node R) Z :=
  r ← call 0 BeginGlobal;
  match r with
  | Ok (RespBegan g) => mret g
  | Ok RespNotLeader => io_raise ENotLeader
  | _ => io_raise EUnavailable
  end.

(** [cluster/src/twopc.rs:233-252] stage_remote *)
Definition net_stage_remote (g : Z) (range : RangeId) (sql : string) : act (Node R) () :=
  r ← call range (Stage g range sql);
  match r with
  | Ok RespStaged => mret ()
  | Ok RespNotLeader => io_raise ENotLeader
  | Ok RespRetryable => io_raise ESerializationFailure
  | Ok (RespErr e) => io_raise (EUnsupported e)
  | _ => io_raise EUnavailable
  end.

(** [cluster/src/twopc.rs:253-264] commit_global *)
Definition net_commit_global (g : Z) (commit : bool) : act (Node R) bool :=
  r ← call 0 (CommitGlobal g commit);
  match r with
  | Ok RespCommitted => mret true
  | Ok RespAborted => mret false
  | Ok RespNotLeader => io_raise ENotLeader
  | _ => io_raise EUnavailable
  end.

(** [cluster/src/twopc.rs:265-275] release_remote *)
Definition net_release_remote (g : Z) (range : RangeId) (commit : bool) : act (Node R) () :=
  r ← call range (Release g range commit);
  match r with
  | Ok RespReleased => mret ()
  | Ok RespNotLeader => io_raise ENotLeader
  | _ => io_raise EUnavailable
  end.

(** [cluster/src/twopc.rs:225-276] NetCoordinator, its operations *)
Definition NetCoordinator : GlobalCoordinator R :=
  mkCoordinator net_begin_global net_stage_remote net_commit_global net_release_remote.

(** [cluster/src/twopc.rs:187-208] Range0Barrier::ensure_readable, over the Raft group of
    range 0: whether this node leads it, its linearizable read and its wait for an
    applied index *)
Definition range0_ensure_readable (leads0 : Node R -> bool)
    (ensure_linearizable : act (Node R) (result () (option Z)))
    (applied_index_at_least : Z -> act (Node R) (result () ())) : act (Node R) () :=
  nd ← io_get;
  barrier_index ←
    (if leads0 nd then
       r ← ensure_linearizable;
       match r with Ok l => mret (default 0 l) | Err () => io_raise EUnavailable end
     else
       r ← call 0 GlobalBarrier;
       match r with
       | Ok (RespBarrier applied_index) => mret applied_index
       | Ok RespNotLeader => io_raise ENotLeader
       | _ => io_raise EUnavailable
       end);
  r ← applied_index_at_least barrier_index;
  match r with Ok () => mret () | Err () => io_raise EUnavailable end.
End Coordinator.

(** ** The participant *)

(** What becomes of a request on the network: the request or its answer may be lost. *)
Inductive Fate : Type := Delivered | RequestLost | ReplyLost.

Section Held.
Context `{ExtCal}.

(** [cluster/src/twopc.rs:291-294] HeldEntry *)
Record HeldEntry : Type := mkHeld { he_session : SqlSession; he_joined_at : Z }.

(** [cluster/src/twopc.rs:297-303] TxnService, with the clock and the fates of the
    requests to come *)
Record TxnService : Type := mkService {
  sv_held : gmap (Z * Z) HeldEntry;
  sv_now : Z;
  sv_net : list Fate
}.
End Held.

Section Service.
Context `{ExtCal} `{MathLib} `{Unicode} `{!ExtPow}.
Context (default_ctx : EvalCtx) `{!Awaits} (clock : EngineState -> Timestamp).
(** The text of an error, and the gate, if there is one. *)
Context (debug : ExecError -> string) (gate : option (Node TxnService -> RangeId -> bool)).
(** The linearizable read of the Raft group of range 0, if this node has one. *)
Context (linearize0 : option (act (Node TxnService) (result () (option Z)))).

Abbreviation svc := (act (Node TxnService)).

Definition set_rest (sv : TxnService) (nd : Node TxnService) : Node TxnService :=
  mkNode (nd_engines nd) (nd_range0 nd) (nd_gtm nd) sv.
Definition held (nd : Node TxnService) : gmap (Z * Z) HeldEntry := sv_held (nd_rest nd).
Definition set_held (h : gmap (Z * Z) HeldEntry) (nd : Node TxnService) : Node TxnService :=
  set_rest (mkService h (sv_now (nd_rest nd)) (sv_net (nd_rest nd))) nd.

(** [cluster/src/twopc.rs:328-330] is_serving *)
Definition is_serving (nd : Node TxnService) (range : RangeId) : bool :=
  match gate with Some g => g nd range | None => true end.

(** [cluster/src/twopc.rs:335-341] register_engine *)
Definition register_engine (range : RangeId) (eg : Engine) (nd : Node TxnService) : Node TxnService :=
  mkNode (<[range := eg]> (nd_engines nd)) (nd_range0 nd) (nd_gtm nd) (nd_rest nd).

(** An action of a session that is held; the session stays held. *)
Definition held_session {A} (g : Z) (range : RangeId) (m : act (SqlSession * EngineState) A) : svc A := fun nd =>
  match held nd !! (g, range), nd_engines nd !! range with
  | Some he, Some eg =>
      let '((s, e), res) := m (he_session he, engine_view (nd_range0 nd) range (eg_state eg)) in
      (put_engine range eg e (set_held (<[(g, range) := mkHeld s (he_joined_at he)]> (held nd)) nd), res)
  | _, _ => (nd, Err Panicked)
  end.

(** A session that is no longer held gives up its transaction: [commit_release] and
    [abort_release] do the same. *)
Definition let_go (g : Z) (range : RangeId) : svc () :=
  nd ← io_get;
  match held nd !! (g, range) with
  | None => mret ()
  | Some _ =>
      _ ← held_session g range finish_current_txn;
      io_modify (fun nd => set_held (delete (g, range) (held nd)) nd)
  end.

Definition keys_of (range : RangeId) (nd : Node TxnService) : list (Z * Z) :=
  filter (fun k => k.2 = range) (fst <$> map_to_list (held nd)).

(** [cluster/src/twopc.rs:353-365] release_all_for_range *)
Definition release_all_for_range (range : RangeId) : svc () :=
  nd ← io_get; io_fold (fun _ k => let_go k.1 k.2) () (keys_of range nd).

(** [cluster/src/twopc.rs:535-542] map_exec_err *)
Definition map_exec_err (e : ExecError) : TxnResp :=
  match e with
  | ENotLeader => RespNotLeader
  | ESerializationFailure | EDeadlock => RespRetryable
  | other => RespErr (debug other)
  end.

(** [cluster/src/twopc.rs:446-458] session_handle *)
Definition session_handle (g : Z) (range : RangeId) : svc bool :=
  nd ← io_get;
  match nd_engines nd !! range with
  | None => mret false
  | Some eg =>
      _ ← (match held nd !! (g, range) with
           | Some _ => mret ()
           | None =>
               io_modify (fun nd => set_held
                 (<[(g, range) := mkHeld (connect eg (nd_gtm nd)) (sv_now (nd_rest nd))]> (held nd)) nd)
           end);
      mret true
  end.

(** [cluster/src/twopc.rs:505-515] stage, on the held session *)
Definition stage_run (g : Z) (range : RangeId) (stmt : Statement) : svc TxnResp :=
  began ← io_try (held_session g range (ensure_began clock));
  match began with
  | Err e => mret (map_exec_err e)
  | Ok _ =>
      joined ← io_try (held_session g range (join_global g));
      match joined with
      | Err e => mret (map_exec_err e)
      | Ok _ =>
          r ← io_try (held_session g range (run_one default_ctx clock stmt));
          mret (match r with Ok _ => RespStaged | Err e => map_exec_err e end)
      end
  end.

(** [cluster/src/twopc.rs:495-515] stage, once it is not a retry *)
Definition stage_statement (g : Z) (range : RangeId) (sql : string) : svc TxnResp :=
  match Parser.parse sql with
  | Some (Ok [stmt]) =>
      hosted ← session_handle g range;
      if hosted : bool then stage_run g range stmt else mret RespNotLeader
  | Some _ => mret (RespErr "stage expects exactly one statement")
  | None => io_lift (Err Panicked)
  end.

(** [cluster/src/twopc.rs:460-516] stage *)
Definition stage (g : Z) (range : RangeId) (sql : string) : svc TxnResp :=
  nd ← io_get;
  match nd_engines nd !! range with
  | None => mret RespNotLeader
  | Some eg =>
      if negb (is_serving nd range) then mret RespNotLeader
      else
        match held nd !! (g, range) with
        | Some _ => stage_statement g range sql
        | None =>
            staged ← io_lift (panic_or
              (staged_local_for (sh_kv (engine_view (nd_range0 nd) range (eg_state eg))) g));
            match staged with
            | Ok (Some _) => mret RespStaged
            | Ok None => stage_statement g range sql
            | Err e => mret (map_exec_err e)
            end
        end
  end.

(** [cluster/src/twopc.rs:518-529] release *)
Definition release (g : Z) (range : RangeId) (commit : bool) : svc TxnResp :=
  _ ← let_go g range; mret RespReleased.

(** [cluster/src/twopc.rs:432-442] handle *)
Definition handle (rpc : TxnRpc) : svc TxnResp :=
  match rpc with
  | Stage g r sql => stage g r sql
  | Release g r commit => release g r commit
  | _ => mret (RespErr "non-participant rpc routed to TxnService")
  end.

Definition status_debug (st : XidStatus) : string :=
  match st with
  | InProgress => "InProgress"
  | Committed => "Committed"
  | Aborted => "Aborted"
  | Prepared g => "Prepared(" +:+ z_to_string g +:+ ")"
  end.

(** [cluster/src/transport/server.rs:235-294] handle_txn *)
Definition handle_txn (rpc : TxnRpc) : svc TxnResp :=
  nd ← io_get;
  match rpc with
  | BeginGlobal =>
      if negb (is_serving nd 0) then mret RespNotLeader
      else
        match nd_engines nd !! 0 with
        | None => mret (RespErr "no range-0 engine")
        | Some _ =>
            r ← io_try node_begin_global;
            mret (match r with
                  | Ok g => RespBegan g
                  | Err ENotLeader => RespNotLeader
                  | Err e => RespErr (debug e)
                  end)
        end
  | CommitGlobal g commit =>
      match nd_engines nd !! 0 with
      | None => mret (RespErr "no range-0 engine")
      | Some _ =>
          r ← io_try (node_commit_decision g (if commit then Committed else Aborted));
          match r with
          | Ok effective =>
              _ ← node_finish_global g;
              mret (match effective with
                    | Committed => RespCommitted
                    | Aborted => RespAborted
                    | other => RespErr ("non-terminal effective decision " +:+ status_debug other)
                    end)
          | Err ENotLeader => mret RespNotLeader
          | Err e => mret (RespErr (debug e))
          end
      end
  | GlobalBarrier =>
      match linearize0 with
      | None => mret (RespErr "no range-0 group")
      | Some ensure_linearizable =>
          r ← ensure_linearizable;
          mret (match r with Ok l => RespBarrier (default 0 l) | Err () => RespNotLeader end)
      end
  | Stage _ _ _ | Release _ _ _ => handle rpc
  end.

(** ** The node port, on one node *)

Definition next_fate : svc Fate := fun nd =>
  let sv := nd_rest nd in
  match sv_net sv with
  | [] => (nd, Ok Delivered)
  | f :: fs => (set_rest (mkService (sv_held sv) (sv_now sv) fs) nd, Ok f)
  end.

(** A request to this node's own port. A handler that panics closes the connection. *)
Definition serve (fate : Fate) (rpc : TxnRpc) : svc (result () TxnResp) := fun nd =>
  match fate with
  | RequestLost => (nd, Ok (Err ()))
  | Delivered =>
      match handle_txn rpc nd with
      | (nd, Ok resp) => (nd, Ok (Ok resp))
      | (nd, Err _) => (nd, Ok (Err ()))
      end
  | ReplyLost => ((handle_txn rpc nd).1, Ok (Err ()))
  end.

Definition loopback (leader : Z) (addr : string) (range : RangeId) (rpc : TxnRpc) : svc (result () TxnResp) :=
  fate ← next_fate; serve fate rpc.

(** ** Recovery of silent transactions *)

Context (call : RangeId -> TxnRpc -> svc (result () TxnResp)).

(** [cluster/src/twopc.rs:393-411] resolve_in_doubt *)
Definition resolve_in_doubt (g : Z) (range : RangeId) : svc () :=
  r ← call 0 (CommitGlobal g false);
  match r with
  | Ok RespCommitted | Ok RespAborted => let_go g range
  | _ => mret ()
  end.

(** [cluster/src/twopc.rs:379-387] resolve_and_release_for_range *)
Definition resolve_and_release_for_range (range : RangeId) : svc () :=
  nd ← io_get; io_fold (fun _ k => resolve_in_doubt k.1 k.2) () (keys_of range nd).

(** [cluster/src/twopc.rs:416-428] sweep_stale *)
Definition sweep_stale (timeout : Z) : svc () :=
  nd ← io_get;
  let stale := omap (fun '(k, he) => if timeout <=? sv_now (nd_rest nd) - he_joined_at he then Some k else None)
                 (map_to_list (held nd)) in
  io_fold (fun _ k => resolve_in_doubt k.1 k.2) () stale.

End Service.
