(* ===== verification/Recovery.v ===== *)
(** * Recovery of a range on a new leader (cluster/src/recovery_gate.rs, server_node.rs)

    A node that starts to lead a range first settles what the range inherited: it waits
    until its store has everything that was committed, lifts its counters, locks the rows
    of the transactions in doubt, has each of them decided, and only when none is left
    opens the gate that holds writes back. *)
From Stdlib Require Import ZArith Lia Ascii.
From stdpp Require Import base list gmap strings.
From S2P Require Import Prelude Text Keys Store Datum ExtArith Mvcc Errors XidAlloc.
From S2P Require Import LockMgr Exec Engine.
From S2P Require Import DateTimeBin Calendar EvalOps Act Write Session Router TwoPc.
From S2P Require Import ExtModel.
From S2P Require Import LibModel SessionProps.
Open Scope Z_scope.

(** ** The gate *)

(** [cluster/src/recovery_gate.rs:20-20] UNSETTLED *)
Definition UNSETTLED : Z := 0.

(** [cluster/src/recovery_gate.rs:26-33] RecoveryGate: the last settled term of each
    range *)
Record RecoveryGate : Type := mkGate { rg_served : gmap Z Z; rg_id : Z }.

(** [cluster/src/recovery_gate.rs:36-41] RecoveryGate::new *)
Definition gate_new (id : Z) : RecoveryGate := mkGate ∅ id.

(** [cluster/src/recovery_gate.rs:46-53] register_range *)
Definition register_range (range : RangeId) (gate : RecoveryGate) : RecoveryGate :=
  match rg_served gate !! range with
  | Some _ => gate
  | None => mkGate (<[range := UNSETTLED]> (rg_served gate)) (rg_id gate)
  end.

(** [cluster/src/recovery_gate.rs:63-77] is_serving *)
Definition gate_is_serving (gate : RecoveryGate) (range : RangeId) (m : RaftMetrics) : bool :=
  match rg_served gate !! range with
  | None => true
  | Some served =>
      bool_decide (rm_current_leader m = Some (rg_id gate)) && rm_is_leader_state m
      && (served =? rm_current_term m)
  end.

(** [cluster/src/recovery_gate.rs:81-85] mark_served *)
Definition mark_served (range : RangeId) (term : Z) (gate : RecoveryGate) : RecoveryGate :=
  match rg_served gate !! range with
  | Some _ => mkGate (<[range := term]> (rg_served gate)) (rg_id gate)
  | None => gate
  end.

(** [cluster/src/server_node.rs:653-658] leads *)
Definition node_leads (raft : option RaftMetrics) (id : Z) : bool :=
  match raft with
  | Some m => bool_decide (rm_current_leader m = Some id)
  | None => false
  end.

Section Sweeps.
Context `{ExtCal} `{!Awaits} {R : Type}.
(** The metrics of the Raft group of a range, its linearizable read and its wait for an
    applied index, each within its time limit, and the client of the node port. *)
Context (metrics : Node R -> RangeId -> RaftMetrics).
Context (ensure_linearizable : RangeId -> act (Node R) (result () (option Z))).
Context (applied_index_at_least : RangeId -> option Z -> act (Node R) (result () ())).
Context (call : RangeId -> TxnRpc -> act (Node R) (result () TxnResp)).

Abbreviation nact := (act (Node R)).

(** [?] on a result whose error is dropped. *)
Definition or_fail {A B} (r : result () A) (k : A -> nact (result () B)) : nact (result () B) :=
  match r with Ok a => k a | Err () => mret (Err ()) end.
Definition or_err {A B} (m : nact A) (k : A -> nact (result () B)) : nact (result () B) :=
  r ← io_try m;
  match r with Ok a => k a | Err _ => mret (Err ()) end.

(** The reads of the recovery scans, which fail when the store cannot be decoded. *)
Definition scan_io {A} (r : option (result ExecError A)) : io A := r ← io_lift (panic_or r); io_lift (lift r).

(** [executor/src/lib.rs:274-279] reseed_gtm, on the shared transaction manager *)
Definition node_reseed_gtm : nact () := fun nd =>
  match reseed_gtm (nd_gtm nd) (nd_range0 nd) with
  | Ok gtm => (mkNode (nd_engines nd) (nd_range0 nd) gtm (nd_rest nd), Ok ())
  | Err e => (nd, Err (Raised e))
  end.

(** [executor/src/lib.rs:173-177] reseed_counters *)
Definition reseed_counters : io () := fun e =>
  match procarray_reseed (sh_pa e) (sh_kv e) with
  | Ok pa => (mkShared (sh_kv e) (sh_range0 e) pa (seq_reseed (sh_seq e)) (sh_locks e), Ok ())
  | Err err => (e, Err (Raised err))
  end.

(** [executor/src/lib.rs:381-430] reacquire_in_doubt_locks, on the engine *)
Definition io_reacquire : io (list (Z * Z)) :=
  e ← io_get;
  '(in_doubt, lm) ← scan_io (reacquire_in_doubt_locks (sh_kv e) (catalog_kv e) (sh_locks e));
  _ ← io_modify (set_locks lm);
  mret in_doubt.

(** [executor/src/lib.rs:318-349] in_doubt_globals_from, on the engine *)
Definition io_in_doubt (scan_lo : Z) : io (list Z * Z) :=
  e ← io_get; scan_io (in_doubt_globals_from (sh_kv e) (catalog_kv e) scan_lo).

(** [executor/src/lib.rs:489-499] advance_clog_scan_lo, through the committer *)
Definition io_advance (lo : Z) : io () :=
  e ← io_get;
  if lo <=? clog_scan_lo (sh_kv e) then mret ()
  else io_commit [Put clog_scan_lo_key (be_bytes 8 lo)].

(** The loop that has every transaction in doubt decided: those that got an answer. *)
Definition abort_race (gs : list Z) : nact (gset Z) :=
  io_fold (fun resolved g =>
    r ← call 0 (CommitGlobal g false);
    mret (match r with Ok _ => {[g]} ∪ resolved | Err _ => resolved end)) ∅ gs.

(** The loop that frees the rows of the decided ones. *)
Definition free_resolved (in_doubt : list (Z * Z)) (resolved : gset Z) (lm : Inner) : Inner :=
  foldl (fun lm p => if bool_decide (p.2 ∈ resolved) then release_in_doubt_lock lm p.1 else lm) lm in_doubt.

Definition io_free (in_doubt : list (Z * Z)) (resolved : gset Z) : io () :=
  io_modify (fun e => set_locks (free_resolved in_doubt resolved (sh_locks e)) e).

Definition io_scan_lo : io Z := e ← io_get; mret (clog_scan_lo (sh_kv e)).

(** [cluster/src/server_node.rs:804-814] resolve_in_doubt_on_leadership, from the second
    scan on *)
Definition settle_check (range : RangeId) (scan_lo : Z) : nact (result () ()) :=
  or_err (on_engine range (io_in_doubt scan_lo)) (fun '(still_in_doubt, new_lo) =>
  match still_in_doubt with
  | _ :: _ => mret (Err ())
  | [] => _ ← io_try (on_engine range (io_advance new_lo)); mret (Ok ())
  end).

(** [cluster/src/server_node.rs:756-814] resolve_in_doubt_on_leadership, from the locks
    on *)
Definition settle_locks (range : RangeId) : nact (result () ()) :=
  or_err (on_engine range io_reacquire) (fun in_doubt =>
  scan_lo ← on_engine range io_scan_lo;
  or_err (on_engine range (io_in_doubt scan_lo)) (fun '(gs, _) =>
  resolved ← abort_race gs;
  _ ← on_engine range (io_free in_doubt resolved);
  settle_check range scan_lo)).

(** [cluster/src/server_node.rs:729-750] resolve_in_doubt_on_leadership, up to the
    locks *)
Definition settle_ready (range : RangeId) : nact (result () ()) :=
  wait_to ← ensure_linearizable range;
  or_fail wait_to (fun wait_to =>
  applied ← applied_index_at_least range wait_to;
  or_fail applied (fun _ =>
  or_err node_reseed_gtm (fun _ =>
  or_err (on_engine range reseed_counters) (fun _ => mret (Ok ()))))).

(** [cluster/src/server_node.rs:729-815] resolve_in_doubt_on_leadership, the block that
    settles *)
Definition settle (range : RangeId) : nact (result () ()) :=
  ready ← settle_ready range;
  or_fail ready (fun _ => settle_locks range).

(** [cluster/src/server_node.rs:700-840] resolve_in_doubt_on_leadership, a turn of its
    loop *)
Definition rise_turn (range : RangeId) : act (RecoveryGate * Node R) () := fun '(gate, nd) =>
  let m := metrics nd range in
  if bool_decide (rm_current_leader m = Some (rg_id gate)) && negb (gate_is_serving gate range m) then
    match settle range nd with
    | (nd, Ok (Ok ())) => ((mark_served range (rm_current_term m) gate, nd), Ok ())
    | (nd, Ok (Err ())) => ((gate, nd), Ok ())
    | (nd, Err e) => ((gate, nd), Err e)
    end
  else ((gate, nd), Ok ()).

(** [cluster/src/server_node.rs:860-877] reseed_on_leadership, a turn of its loop *)
Definition reseed_turn (range : RangeId) (id : Z) (was_leader : bool) : nact bool :=
  nd ← io_get;
  let m := metrics nd range in
  let is_leader := rm_is_leader_state m && bool_decide (rm_current_leader m = Some id) in
  _ ← (if is_leader && negb was_leader then
         _ ← io_try (on_engine range reseed_counters);
         _ ← io_try node_reseed_gtm;
         mret ()
       else mret ());
  mret is_leader.

End Sweeps.

Section Participants.
Context `{ExtCal}.
Context (metrics : Node TxnService -> RangeId -> RaftMetrics).
Context (call : RangeId -> TxnRpc -> act (Node TxnService) (result () TxnResp)).

(** [cluster/src/server_node.rs:665-689] release_on_leadership_loss, a turn of its loop *)
Definition loss_turn (range : RangeId) (id : Z) (was_leader : bool) : act (Node TxnService) bool :=
  nd ← io_get;
  let is_leader := bool_decide (rm_current_leader (metrics nd range) = Some id) in
  _ ← (if was_leader && negb is_leader then resolve_and_release_for_range call range else mret ());
  mret is_leader.

(** [cluster/src/twopc.rs:29-29] PARTICIPANT_SILENCE_TIMEOUT, in seconds *)
Definition PARTICIPANT_SILENCE_TIMEOUT : Z := 5.

(** [cluster/src/server_node.rs:846-856] participant_silence_sweeper, a tick *)
Definition silence_tick : act (Node TxnService) () := sweep_stale call PARTICIPANT_SILENCE_TIMEOUT.

End Participants.

(** ** What recovery guarantees

    The gate of a range opens only when nothing that the range inherited is in doubt; a
    participant's session ends only after its transaction is decided; and where the
    sweep and the client fall short of that. *)
(** ** What a successful scan shows *)

Lemma in_doubt_fold_incl cat l : forall acc gs fu ml,
  foldM (in_doubt_step cat) acc l = Ok (gs, fu, ml) ->
  acc.1.1 ⊆ gs /\
  forall e li g, In e l -> clog_xid_of e.1 = Some li -> in_doubt_entry cat e.2 = Ok (Some g) -> g ∈ gs.
Proof.
  induction l as [|e l IH]; intros [[gs0 fu0] ml0] gs fu ml; cbn [foldM].
  { intros [= <- <- <-]. split; [done|]. by intros e li g []. }
  intros ([[gs1 fu1] ml1] & E1 & E2)%bind_Ok. destruct (IH _ _ _ _ E2) as [Hs Hl]. cbn [fst] in *.
  unfold in_doubt_step in E1. destruct (clog_xid_of e.1) as [li0|] eqn:Ex.
  - apply bind_Ok in E1 as (u & Eu & E1). split.
    + destruct u as [g|]; simplify_eq; set_solver.
    + intros e' li g [<-|He] Hx Hg; [|by eapply Hl]. rewrite Eu in Hg. injection Hg as ->. simplify_eq. set_solver.
  - simplify_eq. split; [done|]. intros e' li g [<-|He] Hx Hg; [congruence|by eapply Hl].
Qed.

(** A scan names every undecided transaction. *)
Lemma in_doubt_all kv cat lo gs lo' :
  keys_ok kv -> u64_ok lo -> in_doubt_globals_from kv cat lo = Some (Ok (gs, lo')) ->
  forall li g, lo <= li < GLOBAL_XID_BASE -> undecided kv cat li g -> In g gs.
Proof.
  intros Hk Hlo. unfold in_doubt_globals_from.
  destruct (scan_range kv (clog_key lo) (clog_key GLOBAL_XID_BASE)) as [l|] eqn:El; [|done].
  cbn [mbind option_bind]. intros [= E]. destruct (foldM _ _ l) as [[[gset fu] ml]|] eqn:Ef; [|done].
  cbn in E. injection E as <- _. destruct (in_doubt_fold_incl _ _ _ _ _ _ Ef) as [_ Hin].
  intros li g Hr [Hm Hd]. apply clog_get_Prepared in Hm as (v & Hg & Hv).
  destruct (proj2 (In_clog_scan kv lo l (clog_key li) v Hk Hlo El li)) as [Hl Hx]; [done|].
  apply elem_of_btree_list. eapply Hin; [exact Hl|exact Hx|by apply in_doubt_entry_Some].
Qed.

Section RecoveryProps.
Context `{ExtCal} `{!Awaits} {R : Type}.
Context (metrics : Node R -> RangeId -> RaftMetrics).
Context (ensure_linearizable : RangeId -> act (Node R) (result () (option Z))).
Context (applied_index_at_least : RangeId -> option Z -> act (Node R) (result () ())).
Context (call : RangeId -> TxnRpc -> act (Node R) (result () TxnResp)).

Local Abbreviation settle := (settle ensure_linearizable applied_index_at_least call).
Local Abbreviation settle_ready := (settle_ready ensure_linearizable applied_index_at_least).
Local Abbreviation rise_turn := (rise_turn metrics ensure_linearizable applied_index_at_least call).
Local Abbreviation nact := (act (Node R)).

(** ** A run, step after step *)

Lemma run_bind {A B} (m : nact A) (f : A -> nact B) nd nd' b :
  (m ≫= f) nd = (nd', Ok b) -> exists a nd1, m nd = (nd1, Ok a) /\ f a nd1 = (nd', Ok b).
Proof.
  unfold mbind, act_bind. destruct (m nd) as [nd1 [a|e]]; [|done]. intros E. by exists a, nd1.
Qed.

Lemma run_or_fail {A B} (r : result () A) (k : A -> nact (result () B)) nd nd' b :
  or_fail r k nd = (nd', Ok (Ok b)) -> exists a, r = Ok a /\ k a nd = (nd', Ok (Ok b)).
Proof. destruct r as [a|[]]; [|done]. intros E. by exists a. Qed.

Lemma run_or_err {A B} (m : nact A) (k : A -> nact (result () B)) nd nd' b :
  or_err m k nd = (nd', Ok (Ok b)) -> exists a nd1, m nd = (nd1, Ok a) /\ k a nd1 = (nd', Ok (Ok b)).
Proof.
  unfold or_err, mbind, act_bind, io_try. destruct (m nd) as [nd1 [a|[e|]]]; [|done..].
  intros E. by exists a, nd1.
Qed.

(** The store of a range and the global commit log, as the range's engine has them. *)
Definition range_stores (nd : Node R) (range : RangeId) : option (MemKv * MemKv) :=
  (fun eg => let e := engine_view (nd_range0 nd) range (eg_state eg) in (sh_kv e, catalog_kv e))
    <$> nd_engines nd !! range.

(** An action of the engine that leaves the stores as they are. *)
Lemma on_engine_stores {A} range (m : io A) (nd nd' : Node R) a :
  on_engine range m nd = (nd', Ok a) ->
  (forall e, sh_kv (m e).1 = sh_kv e /\ sh_range0 (m e).1 = sh_range0 e) ->
  range_stores nd' range = range_stores nd range.
Proof.
  unfold on_engine, range_stores. destruct (nd_engines nd !! range) as [eg|]; [|done]. intros Hrun Hm.
  destruct (Hm (engine_view (nd_range0 nd) range (eg_state eg))) as [Hk Hr].
  destruct (m _) as [e' r]. injection Hrun as <- _. cbn in *. rewrite lookup_insert_eq. cbn.
  unfold engine_view, catalog_kv in *. by destruct (range =? 0); cbn in *; rewrite ?Hk, ?Hr.
Qed.

(** The scan of the commit log reads what the range has. *)
Lemma on_engine_in_doubt range lo (nd nd' : Node R) gs lo' :
  on_engine range (io_in_doubt lo) nd = (nd', Ok (gs, lo')) ->
  range_stores nd' range = range_stores nd range /\
  exists kv cat, range_stores nd range = Some (kv, cat) /\ in_doubt_globals_from kv cat lo = Some (Ok (gs, lo')).
Proof.
  intros Hrun. split.
  { eapply on_engine_stores; [exact Hrun|]. intros e. unfold io_in_doubt, mbind, act_bind, io_get, scan_io, mbind, act_bind, io_lift.
    by destruct (in_doubt_globals_from _ _ _) as [[]|]. }
  unfold on_engine, range_stores in *. destruct (nd_engines nd !! range) as [eg|]; [|done].
  unfold io_in_doubt, mbind, act_bind, io_get, scan_io, mbind, act_bind, io_lift in Hrun.
  set (e := engine_view (nd_range0 nd) range (eg_state eg)) in *. exists (sh_kv e), (catalog_kv e). split; [done|].
  destruct (in_doubt_globals_from _ _ _) as [[[gs0 lo0]|err]|]; cbn in Hrun; [|done..]. by injection Hrun as _ <- <-.
Qed.

(** Range 0 is asked to abort each transaction in turn. *)
Inductive raced : Node R -> list Z -> Node R -> Prop :=
| raced_nil nd : raced nd [] nd
| raced_cons nd g gs r nd1 nd2 :
    call 0 (CommitGlobal g false) nd = (nd1, Ok r) -> raced nd1 gs nd2 -> raced nd (g :: gs) nd2.

Lemma abort_race_raced gs nd nd' resolved : abort_race call gs nd = (nd', Ok resolved) -> raced nd gs nd'.
Proof.
  unfold abort_race. generalize (∅ : gset Z). revert nd.
  induction gs as [|g gs IH]; intros nd acc; cbn [io_fold]; [intros [= -> _]; constructor|].
  intros (acc1 & nd1 & E1 & E2)%run_bind. apply run_bind in E1 as (r & nd2 & Ec & [= <- _]).
  econstructor; [exact Ec|by eapply IH].
Qed.

(** No marker of the range from [lo] on is for an undecided transaction. *)
Definition none_in_doubt (kv cat : MemKv) (lo : Z) : Prop :=
  keys_ok kv -> u64_ok lo -> forall li g, lo <= li < GLOBAL_XID_BASE -> ~ undecided kv cat li g.

Lemma settle_check_none range lo nd nd' :
  settle_check range lo nd = (nd', Ok (Ok ())) ->
  exists kv cat, range_stores nd range = Some (kv, cat) /\ none_in_doubt kv cat lo.
Proof.
  unfold settle_check. intros ([gs lo'] & nd1 & E1 & E2)%run_or_err. destruct gs as [|g gs]; [|done].
  apply on_engine_in_doubt in E1 as (_ & kv & cat & Hst & Hs). exists kv, cat. split; [done|].
  intros Hk Hlo li g Hli Hu. exact (in_doubt_all _ _ _ _ _ Hk Hlo Hs li g Hli Hu).
Qed.

(** What a successful settle has done before and after its locks. *)
Lemma settle_ready_run range nd nd4 :
  settle_ready range nd = (nd4, Ok (Ok ())) ->
  exists wait_to nd1 nd2 nd3,
    ensure_linearizable range nd = (nd1, Ok (Ok wait_to)) /\
    applied_index_at_least range wait_to nd1 = (nd2, Ok (Ok ())) /\
    node_reseed_gtm nd2 = (nd3, Ok ()) /\ on_engine range reseed_counters nd3 = (nd4, Ok ()).
Proof.
  unfold Recovery.settle_ready. intros (r1 & nd1 & E1 & E)%run_bind. apply run_or_fail in E as (wait_to & -> & E).
  apply run_bind in E as (r2 & nd2 & E2 & E). apply run_or_fail in E as ([] & -> & E).
  apply run_or_err in E as ([] & nd3 & E3 & E). apply run_or_err in E as ([] & nd5 & E4 & [= ->]).
  by exists wait_to, nd1, nd2, nd3.
Qed.

(** From the state in which everything committed is applied: the locks of the transactions
    in doubt, the race for each of them, and the second scan from the same watermark. *)
Definition settled (range : RangeId) (nd4 nd' : Node R) : Prop :=
  exists in_doubt nd5 kv0 cat0 gs new_lo nd6 nd7 kv1 cat1 resolved nd8,
    on_engine range io_reacquire nd4 = (nd5, Ok in_doubt) /\ range_stores nd5 range = Some (kv0, cat0) /\
    let lo := clog_scan_lo kv0 in
    (keys_ok kv0 -> u64_ok lo ->
     forall li g, lo <= li < GLOBAL_XID_BASE -> undecided kv0 cat0 li g -> In g gs) /\
    on_engine range (io_in_doubt lo) (on_engine range io_scan_lo nd5).1 = (nd6, Ok (gs, new_lo)) /\
    raced nd6 gs nd7 /\
    range_stores nd7 range = Some (kv1, cat1) /\ none_in_doubt kv1 cat1 lo /\
    on_engine range (io_free in_doubt resolved) nd7 = (nd8, Ok ()) /\
    settle_check range lo nd8 = (nd', Ok (Ok ())).

Lemma settle_locks_settled range nd4 nd' :
  settle_locks call range nd4 = (nd', Ok (Ok ())) -> settled range nd4 nd'.
Proof.
  unfold settle_locks. intros (in_doubt & nd5 & E5 & E)%run_or_err. apply run_bind in E as (lo & nd6 & E6 & E).
  assert (range_stores nd6 range = range_stores nd5 range) as Hs6 by (by eapply on_engine_stores).
  apply run_or_err in E as ([gs lo1] & nd7 & E7 & E). pose proof E7 as E7'. apply run_bind in E as (resolved & nd8 & E8 & E).
  apply run_bind in E as ([] & nd9 & E9 & E).
  assert (range_stores nd9 range = range_stores nd8 range) as Hs9 by (by eapply on_engine_stores).
  apply on_engine_in_doubt in E7 as (Hs7 & kv0 & cat0 & Hst0 & Hscan).
  destruct (settle_check_none _ _ _ _ E) as (kv1 & cat1 & Hst1 & Hn).
  assert (lo = clog_scan_lo kv0) as ->.
  { rewrite Hs6 in Hst0. unfold on_engine, range_stores in *. destruct (nd_engines nd5 !! range) as [eg|]; [|done].
    injection E6 as _ <-. by injection Hst0 as <- _. }
  exists in_doubt, nd5, kv0, cat0, gs, lo1, nd7, nd8, kv1, cat1, resolved, nd9. cbn zeta.
  split_and!; [done|congruence|intros; by eapply in_doubt_all|by rewrite E6|by eapply abort_race_raced|congruence|done..].
Qed.

(** C14: A range serves writes only when nothing it inherited is in doubt. If a turn of the
    recovery loop turns the gate of a range from closed to open, then in that turn the node
    made a linearizable read, waited until its store had what was committed by then, and
    lifted its counters; it locked the rows in doubt; it asked range 0 to abort each
    transaction that a marker from the watermark on left undecided; and when all had been
    asked, no marker from that watermark on was for an undecided transaction. (The gate
    then stays open for that term only.) *)
Theorem gate_opens_when_settled range gate nd gate' nd' r :
  rise_turn range (gate, nd) = ((gate', nd'), r) ->
  gate_is_serving gate range (metrics nd range) = false ->
  gate_is_serving gate' range (metrics nd range) = true ->
  (forall m, rm_current_term m <> rm_current_term (metrics nd range) -> gate_is_serving gate' range m = false) /\
  exists wait_to nd1 nd2 nd3 nd4,
    ensure_linearizable range nd = (nd1, Ok (Ok wait_to)) /\
    applied_index_at_least range wait_to nd1 = (nd2, Ok (Ok ())) /\
    node_reseed_gtm nd2 = (nd3, Ok ()) /\ on_engine range reseed_counters nd3 = (nd4, Ok ()) /\
    settled range nd4 nd'.
Proof.
  intros Hrun Hclosed Hopen. unfold Recovery.rise_turn in Hrun.
  destruct (bool_decide _ && _); [|simplify_eq; congruence].
  destruct (settle range nd) as [nd5 [[[]|[]]|f]] eqn:Es; injection Hrun as <- <- <-; [|congruence..]. split.
  - intros m Hm. unfold gate_is_serving, mark_served in *.
    destruct (rg_served gate !! range) as [t|] eqn:Ht; [|done].
    cbn. rewrite lookup_insert_eq. rewrite andb_comm.
    destruct (Z.eqb_spec (rm_current_term (metrics nd range)) (rm_current_term m)); [congruence|done].
  - unfold Recovery.settle in Es. apply run_bind in Es as (ready & nd4 & Er & E).
    apply run_or_fail in E as ([] & -> & E). apply settle_ready_run in Er as (wait_to & nd1 & nd2 & nd3 & Hr).
    exists wait_to, nd1, nd2, nd3, nd4. split_and!; [apply Hr..|by apply settle_locks_settled].
Qed.

End RecoveryProps.

Section Sweep.
Context `{ExtCal} `{!Awaits} {R : Type}.
Context (metrics : Node R -> RangeId -> RaftMetrics).
Context (ensure_linearizable : RangeId -> act (Node R) (result () (option Z))).
Context (applied_index_at_least : RangeId -> option Z -> act (Node R) (result () ())).
Context (await_leader : RangeId -> act (Node R) (option (Z * string))).
Context (exchange : Z -> string -> RangeId -> TxnRpc -> act (Node R) (result () TxnResp)).

Local Abbreviation call := (call await_leader exchange).
Local Abbreviation settle_ready := (settle_ready ensure_linearizable applied_index_at_least).
Local Abbreviation rise_turn := (rise_turn metrics ensure_linearizable applied_index_at_least call).

(** ** One engine, action after action *)

(** The engine state has the shape that its range gives it. *)
Definition fits (range : RangeId) (e : EngineState) : Prop :=
  if range =? 0 then sh_range0 e = None else is_Some (sh_range0 e).

Lemma view_fits (nd : Node R) range e : fits range (engine_view (nd_range0 nd) range e).
Proof. unfold fits, engine_view. by destruct (range =? 0). Qed.

Lemma on_engine_first {A} range (m : io A) (nd : Node R) eg :
  nd_engines nd !! range = Some eg ->
  on_engine range m nd
  = (let '(e, res) := m (engine_view (nd_range0 nd) range (eg_state eg)) in (put_engine range eg e nd, res)).
Proof. intros Heg. unfold on_engine. by rewrite Heg. Qed.

Lemma on_engine_next {A} range (m : io A) (nd : Node R) eg e :
  fits range e -> fits range (m e).1 ->
  on_engine range m (put_engine range eg e nd) = (let '(e', res) := m e in (put_engine range eg e' nd, res)).
Proof.
  intros Hf Hf'. unfold on_engine. cbn [put_engine nd_engines]. rewrite lookup_insert_eq.
  assert (engine_view (nd_range0 (put_engine range eg e nd)) range e = e) as Hv.
  { unfold engine_view, fits in *. cbn [put_engine nd_range0]. destruct e as [kv r0 pa sq lm]. cbn in *.
    destruct (range =? 0); [by subst|]. by destruct Hf as [kv0 ->]. }
  cbn [eg_state put_engine nd_range0] in *. rewrite Hv. destruct (m e) as [e' res]. f_equal.
  unfold put_engine. cbn. rewrite insert_insert_eq. unfold fits in *. f_equal.
  destruct (range =? 0); [done|]. cbn in Hf'. by destruct Hf' as [kv1 ->].
Qed.

(** ** Locks *)

Lemma release_all_sub lm xid row x : holds (release_all lm xid).1 row x -> holds lm row x.
Proof.
  intros (l & El & Hx). simpl in El. apply lookup_omap_Some in El as (l0 & El & Hl).
  unfold release_lock in El. case_decide; simplify_eq. exists l0. split; [done|]. simpl in Hx. set_solver.
Qed.

Lemma free_resolved_holds l resolved lm row x :
  holds (free_resolved l resolved lm) row x -> holds lm row x.
Proof.
  revert lm. induction l as [|p l IH]; intros lm; [done|]. unfold free_resolved in *. cbn [foldl].
  intros Hh%IH. case_bool_decide; [|done]. by apply release_all_sub in Hh.
Qed.

Lemma free_resolved_frees l resolved lm row li g :
  In (li, g) l -> g ∈ resolved -> ~ holds (free_resolved l resolved lm) row li.
Proof.
  revert lm. induction l as [|p l IH]; intros lm; [done|]. intros [->|Hin] Hg.
  - unfold free_resolved. cbn [foldl snd fst]. rewrite bool_decide_eq_true_2 by done.
    intros Hh%(free_resolved_holds l resolved). by apply release_all_holds in Hh.
  - by apply IH.
Qed.

(** A race in which every request ends the same way, and changes nothing. *)
Lemma abort_race_same r gs nd (acc : gset Z) :
  (forall g nd, call 0 (CommitGlobal g false) nd = (nd, Ok r)) ->
  io_fold (fun resolved g =>
    r ← call 0 (CommitGlobal g false);
    mret (match r with Ok _ => {[g]} ∪ resolved | Err _ => resolved end)) acc gs nd
  = (nd, Ok (match r with Ok _ => list_to_set (reverse gs) ∪ acc | Err _ => acc end)).
Proof.
  intros Hc. revert acc. induction gs as [|g gs IH]; intros acc; cbn [io_fold].
  - unfold mret, act_ret. do 2 f_equal. destruct r; [set_solver|done].
  - unfold mbind at 1, act_bind at 1, mbind at 1, act_bind at 1. rewrite Hc. cbn [mret act_ret].
    rewrite IH. do 2 f_equal. destruct r; [|done]. rewrite reverse_cons, list_to_set_app_L. set_solver.
Qed.

(** A client that finds no leader, and one whose leader answers. *)
Lemma call_no_leader g nd :
  (forall nd, await_leader 0 nd = (nd, Ok None)) -> call 0 (CommitGlobal g false) nd = (nd, Ok (Err ())).
Proof. intros Hl. unfold TwoPc.call, attempt, mbind, act_bind. by rewrite Hl. Qed.

Lemma call_answered leader addr resp g nd :
  (forall nd, await_leader 0 nd = (nd, Ok (Some (leader, addr)))) ->
  (forall g nd, exchange leader addr 0 (CommitGlobal g false) nd = (nd, Ok (Ok resp))) ->
  call 0 (CommitGlobal g false) nd = (nd, Ok (Ok resp)).
Proof.
  intros Hl Hx. unfold TwoPc.call, attempt, mbind, act_bind. rewrite Hl, Hx. cbn. destruct resp; try done.
  by rewrite Hl, Hx.
Qed.

(** The locks of a range with a transaction in doubt, when no request of the race changes
    anything: the sweep fails, and frees what it takes for decided. *)
Lemma settle_locks_fails r range (nd : Node R) eg li g :
  (forall g nd, call 0 (CommitGlobal g false) nd = (nd, Ok r)) ->
  nd_engines nd !! range = Some eg ->
  let e := engine_view (nd_range0 nd) range (eg_state eg) in
  let lo := clog_scan_lo (sh_kv e) in
  keys_ok (sh_kv e) -> clog_readable (sh_kv e) (catalog_kv e) -> u64_ok lo -> lo <= li < GLOBAL_XID_BASE ->
  undecided (sh_kv e) (catalog_kv e) li g ->
  exists pairs lm gs, reacquire_in_doubt_locks (sh_kv e) (catalog_kv e) (sh_locks e) = Some (Ok (pairs, lm)) /\
    In (li, g) pairs /\ In g gs /\
    let resolved := match r with Ok _ => list_to_set (reverse gs) | Err _ => ∅ end in
    settle_locks call range nd = (put_engine range eg (set_locks (free_resolved pairs resolved lm) e) nd, Ok (Err ())).
Proof.
  intros Hc Heg e lo Hk Hrd Hlo Hli Hu.
  destruct (reacquire_ok (sh_kv e) (catalog_kv e) (sh_locks e)) as (m & vl & lm & Er & _ & _ & Hm); [done|done|done|lia|].
  set (pairs := btree_map_list m) in Er.
  destruct (in_doubt_scan_complete (sh_kv e) (catalog_kv e) lo) as (gs & lo' & Es & _ & Hgs & _); [done|done|done|lia|].
  set (resolved := match r with Ok _ => list_to_set (reverse gs) | Err _ => ∅ end : gset Z).
  set (e1 := set_locks lm e). set (e2 := set_locks (free_resolved pairs resolved lm) e).
  assert (fits range e1 /\ fits range e2) as [Hf1 Hf2].
  { pose proof (view_fits nd range (eg_state eg)) as Hf. split; exact Hf. }
  assert (In g gs) as Hg by (apply Hgs; eauto).
  exists pairs, lm, gs. split_and!; [done|by apply In_btree_map_list, Hm|done|]. cbn zeta. fold resolved e2.
  unfold settle_locks, or_err, mbind, act_bind, io_try.
  rewrite (on_engine_first range _ nd eg Heg). fold e.
  assert (io_reacquire e = (e1, Ok pairs)) as ->
    by (unfold io_reacquire, mbind, act_bind, io_get, scan_io, mbind, act_bind, io_lift; rewrite Er; done).
  rewrite (on_engine_next range io_scan_lo nd eg e1) by done.
  change (io_scan_lo e1) with (e1, Ok (E := fault ExecError) (clog_scan_lo (sh_kv e1))). cbv beta iota.
  assert (forall e0, sh_kv e0 = sh_kv e -> catalog_kv e0 = catalog_kv e ->
    io_in_doubt (clog_scan_lo (sh_kv e1)) e0 = (e0, Ok (gs, lo'))) as Hid.
  { intros e0 Hk0 Hc0. unfold io_in_doubt, mbind, act_bind, io_get, scan_io, mbind, act_bind, io_lift.
    rewrite Hk0, Hc0. change (clog_scan_lo (sh_kv e1)) with lo. by rewrite Es. }
  rewrite (on_engine_next range _ nd eg e1) by (by rewrite ?Hid). rewrite Hid by done.
  unfold abort_race. rewrite (abort_race_same r) by done.
  assert (match r with Ok _ => list_to_set (reverse gs) ∪ ∅ | Err _ => ∅ end = resolved) as ->
    by (unfold resolved; destruct r; [set_solver|done]).
  rewrite (on_engine_next range _ nd eg e1) by done. cbn [io_free io_modify].
  change (set_locks _ e1) with e2. unfold settle_check, or_err, mbind, act_bind, io_try.
  rewrite (on_engine_next range _ nd eg e2) by (by rewrite ?Hid). rewrite Hid by done.
  destruct gs; [done|reflexivity].
Qed.

(** A turn of the recovery loop whose sweep of the locks fails. *)
Lemma rise_turn_fails range gate nd0 nd nd' :
  rm_current_leader (metrics nd0 range) = Some (rg_id gate) ->
  gate_is_serving gate range (metrics nd0 range) = false ->
  settle_ready range nd0 = (nd, Ok (Ok ())) -> settle_locks call range nd = (nd', Ok (Err ())) ->
  rise_turn range (gate, nd0) = ((gate, nd'), Ok ()).
Proof.
  intros Hl Hg Hr Hs. unfold Recovery.rise_turn. rewrite Hg, bool_decide_eq_true_2 by done. cbn [andb negb].
  unfold settle, mbind, act_bind. rewrite Hr. cbn [or_fail]. by rewrite Hs.
Qed.

Lemma free_resolved_none pairs lm : free_resolved pairs ∅ lm = lm.
Proof.
  revert lm. induction pairs as [|p pairs IH]; intros lm; [done|]. unfold free_resolved in *. cbn [foldl].
  rewrite bool_decide_eq_false_2 by set_solver. apply IH.
Qed.

(** C33: The recovery sweep frees rows that are still in doubt. A turn of the recovery loop
    of a range that has inherited an undecided transaction, in which range 0 decides
    nothing, leaves the gate closed. If the client finds no leader of range 0, the rows
    stay locked, as the comments promise. But if the node it takes for the leader
    answers, and be it that it is not the leader or that an error occurred, the answer
    counts as a decision: the row locks of the transaction are released, and it is still
    undecided. *)
Theorem sweep_frees_rows_in_doubt range gate nd0 nd eg li g :
  rm_current_leader (metrics nd0 range) = Some (rg_id gate) ->
  gate_is_serving gate range (metrics nd0 range) = false ->
  settle_ready range nd0 = (nd, Ok (Ok ())) -> nd_engines nd !! range = Some eg ->
  let e := engine_view (nd_range0 nd) range (eg_state eg) in
  let lo := clog_scan_lo (sh_kv e) in
  keys_ok (sh_kv e) -> clog_readable (sh_kv e) (catalog_kv e) -> u64_ok lo -> lo <= li < GLOBAL_XID_BASE ->
  undecided (sh_kv e) (catalog_kv e) li g ->
  ((forall nd, await_leader 0 nd = (nd, Ok None)) ->
   exists pairs lm, reacquire_in_doubt_locks (sh_kv e) (catalog_kv e) (sh_locks e) = Some (Ok (pairs, lm)) /\
     rise_turn range (gate, nd0) = ((gate, put_engine range eg (set_locks lm e) nd), Ok ())) /\
  (forall leader addr resp, resp = RespNotLeader \/ (exists err, resp = RespErr err) ->
   (forall nd, await_leader 0 nd = (nd, Ok (Some (leader, addr)))) ->
   (forall g nd, exchange leader addr 0 (CommitGlobal g false) nd = (nd, Ok (Ok resp))) ->
   exists e', rise_turn range (gate, nd0) = ((gate, put_engine range eg e' nd), Ok ()) /\
     undecided (sh_kv e') (catalog_kv e') li g /\ forall row, ~ holds (sh_locks e') row li).
Proof.
  intros Hlead Hgate Hready Heg e lo Hk Hrd Hlo Hli Hu. split.
  - intros Hl. destruct (settle_locks_fails (Err ()) range nd eg li g (fun g nd => call_no_leader g nd Hl) Heg Hk Hrd Hlo Hli Hu)
      as (pairs & lm & gs & Er & _ & _ & Hs). exists pairs, lm. split; [done|].
    cbn zeta in Hs. rewrite free_resolved_none in Hs. by apply (rise_turn_fails _ _ _ nd).
  - intros leader addr resp _ Hl Hx.
    destruct (settle_locks_fails (Ok resp) range nd eg li g (fun g nd => call_answered leader addr resp g nd Hl Hx) Heg Hk Hrd Hlo Hli Hu)
      as (pairs & lm & gs & _ & Hp & Hg & Hs). cbn zeta in Hs. eexists. split; [by apply (rise_turn_fails _ _ _ nd)|].
    split; [exact Hu|]. intros row. apply (free_resolved_frees _ _ _ _ li g); [done|].
    apply elem_of_list_to_set, elem_of_reverse, list_elem_of_In, Hg.
Qed.

End Sweep.

(** ** A range with one transaction in doubt *)

Definition doubt_engine : Engine (H := model_ext) :=
  mkEngine (mkShared doubt_kv None (mkProcArray 6 ∅ PReplicated) (seq_new PReplicated) lockmgr_new) PReplicated true None.

(** Range 1 of this node has the marker of transaction 5, and range 0 no decision. *)
Definition doubt_node : Node (H := model_ext) () :=
  mkNode {[1 := doubt_engine]} kv_new (Some doubt_gtm) ().

Definition lead (term : Z) : RaftMetrics := mkMetrics (Some 0) true term ∅.

Definition linear (range : RangeId) : act (Node (H := model_ext) ()) (result () (option Z)) := mret (Ok (Some 1)).
Definition applied (range : RangeId) (l : option Z) : act (Node (H := model_ext) ()) (result () ()) := mret (Ok ()).

(** Range 0 decides: the transaction is aborted. *)
Definition decides (range : RangeId) (rpc : TxnRpc) : act (Node (H := model_ext) ()) (result () TxnResp) := fun nd =>
  match rpc with
  | CommitGlobal g _ =>
      (mkNode (nd_engines nd) (local_commit (nd_range0 nd) [clog_put_op g Aborted]) (nd_gtm nd) (nd_rest nd),
       Ok (Ok RespAborted))
  | _ => (nd, Ok (Err ()))
  end.

(** A client that takes node 3 for the leader of range 0, which it no longer is. *)
Definition stale_hint (range : RangeId) : act (Node (H := model_ext) ()) (option (Z * string)) :=
  mret (Some (3, "node3")).
Definition not_leader (leader : Z) (addr : string) (range : RangeId) (rpc : TxnRpc) :
    act (Node (H := model_ext) ()) (result () TxnResp) := mret (Ok RespNotLeader).

Lemma gate_opens_when_settled_witness :
  let '((gate', nd'), r) := rise_turn (H2 := solo true) (fun _ _ => lead 3) linear applied decides 1
                              (register_range 1 (gate_new 0), doubt_node) in
  gate_is_serving gate' 1 (lead 3) = true /\ gate_is_serving gate' 1 (lead 4) = false.
Proof.
  assert (gate_is_serving (rise_turn (H2 := solo true) (fun _ _ => lead 3) linear applied decides 1
            (register_range 1 (gate_new 0), doubt_node)).1.1 1 (lead 3) = true) as Hopen by (vm_compute; reflexivity).
  destruct (rise_turn _ _ _ _ 1 _) as [[gate' nd'] r] eqn:E. cbn [fst] in Hopen. split; [exact Hopen|].
  destruct (gate_opens_when_settled (H2 := solo true) (fun _ _ => lead 3) linear applied decides 1
    (register_range 1 (gate_new 0)) doubt_node gate' nd' r E eq_refl Hopen) as [Hterm _].
  by apply Hterm.
Defined.

Lemma sweep_frees_rows_in_doubt_witness :
  exists e' nd', rise_turn (H2 := solo true) (fun _ _ => lead 3) linear applied (call stale_hint not_leader) 1
      (register_range 1 (gate_new 0), doubt_node) = ((register_range 1 (gate_new 0), nd'), Ok ()) /\
    undecided (sh_kv e') (catalog_kv e') 5 doubt_g /\ forall row, ~ holds (sh_locks e') row 5.
Proof.
  destruct (sweep_frees_rows_in_doubt (H2 := solo true) (fun _ _ => lead 3) linear applied stale_hint not_leader 1
    (register_range 1 (gate_new 0)) doubt_node
    (settle_ready linear applied 1 doubt_node).1
    (default doubt_engine (nd_engines (settle_ready linear applied 1 doubt_node).1 !! 1)) 5 doubt_g)
    as [_ Hfree];
    [reflexivity|reflexivity|reflexivity|reflexivity|exact doubt_keys|exact doubt_readable
    |vm_compute; split; [discriminate|reflexivity]|vm_compute; split; [discriminate|reflexivity]|exact doubt_undecided|].
  destruct (Hfree 3 "node3" RespNotLeader) as (e' & Hrun & Hu & Hh); [by left|done|done|].
  eexists e', _. split; [exact Hrun|]. by split.
Defined.
