(* ===== verification/JoinSpec.v ===== *)
(** * Joins against their definition

    The rows of a join, with their multiplicities: every pair that matches, and for
    an outer join the rows of a side that match nothing, padded with NULLs. *)
From Stdlib Require Import ZArith Lia Ascii.
From stdpp Require Import base list gmap strings.
From S2P Require Import Prelude Text Chars Keys Store Datum Float DateTimeBin ExtModel ExtArith.
From S2P Require Import DateTime LibModel Calendar Numeric NumericFn Ops Cast Errors Catalog Scope.
From S2P Require Import Ast AggCall EvalOps Func DateTimeFn FormatFn Eval Wire Project Join.
Open Scope Z_scope.

Lemma mapR_map {E A B} (f : A -> result E B) (g : A -> B) l :
  (forall x, In x l -> f x = Ok (g x)) -> mapR f l = Ok (map g l).
Proof.
  induction l as [|x l IH]; intros Hf; [done|]. simpl. rewrite Hf by (by left). simpl.
  rewrite IH; [done|]. intros. apply Hf. by right.
Qed.

Lemma foldM_filter {E A} (f : A -> result E bool) (g : A -> bool) l acc :
  (forall x, In x l -> f x = Ok (g x)) ->
  foldM (fun acc x => b ← f x; Ok (if b : bool then acc ++ [x] else acc)) acc l = Ok (acc ++ List.filter g l).
Proof.
  revert acc. induction l as [|x l IH]; intros acc Hf; simpl; [by rewrite app_nil_r|].
  rewrite Hf by (by left). simpl. rewrite IH by (intros; apply Hf; by right).
  destruct (g x); [by rewrite <- app_assoc|done].
Qed.

(** Positions do not matter to what a list is filtered by its elements. *)
Lemma filter_enumerate {A} (g : A -> bool) (l : list A) :
  map snd (List.filter (fun p : nat * A => g p.2) (enumerate l)) = List.filter g l.
Proof.
  unfold enumerate. generalize 0%nat. induction l as [|x l IH]; intros i; [done|]. simpl.
  destruct (g x); simpl; by rewrite IH.
Qed.

Lemma enumerate_lookup {A} (l : list A) i x : In (i, x) (enumerate l) <-> l !! i = Some x.
Proof.
  unfold enumerate.
  enough (forall k, In (k + i, x)%nat (zip (seq k (length l)) l) <-> l !! i = Some x) as He by apply (He 0%nat).
  revert i. induction l as [|y l IH]; intros i k; [by rewrite lookup_nil|]. simpl.
  destruct i as [|i]; simpl.
  - rewrite Nat.add_0_r. split; [|intros [= ->]; by left]. intros [[= ->]|Hin]; [done|].
    apply in_combine_l, in_seq in Hin. lia.
  - specialize (IH i (S k)). replace (S k + i)%nat with (k + S i)%nat in IH by lia.
    rewrite <- IH. split; [intros [[= E _]|?]; [lia|done]|by right].
Qed.

Lemma flat_map_split {A B} (p : A -> bool) (f g : A -> list B) l :
  (forall x, In x l -> p x = true -> f x = []) ->
  flat_map (fun x => if p x then g x else f x) l ≡ₚ flat_map f l ++ flat_map g (List.filter p l).
Proof.
  induction l as [|x l IH]; intros Hf; [done|]. simpl. rewrite IH by (intros; apply Hf; [by right|done]).
  destruct (p x) eqn:E; simpl; [rewrite (Hf x (or_introl eq_refl) E); simpl|by rewrite app_assoc].
  by rewrite !app_assoc, (Permutation_app_comm (g x)).
Qed.

Lemma flat_map_map {A B C} (f : B -> list C) (g : A -> B) l : flat_map f (map g l) = flat_map (fun x => f (g x)) l.
Proof. induction l; simpl; congruence. Qed.

Lemma flat_map_single {A B} (f : A -> B) l : flat_map (fun x => [f x]) l = map f l.
Proof. induction l; simpl; congruence. Qed.

Section JoinSpec.
Context `{ExtCal} `{MathLib} `{Unicode} `{!ExtPow}.

(** The join of two lists of rows under a condition. *)
Definition join_spec (m : Row -> Row -> bool) (kind : JoinKind) (lw rw : nat) (left_ right_ : list Row)
  : list Row :=
  flat_map (fun l => map (app l) (List.filter (m l) right_)) left_ ++
  (if bool_decide (kind = JLeft \/ kind = JFull)
   then map (fun l => l ++ null_row rw) (List.filter (fun l => negb (existsb (m l) right_)) left_) else []) ++
  (if bool_decide (kind = JRight \/ kind = JFull)
   then map (app (null_row lw)) (List.filter (fun r => negb (existsb (fun l => m l r) left_)) right_) else []).

Section Rows.
Context (matches : Row -> Row -> xresult bool) (m : Row -> Row -> bool) (left_ right_ : list Row).
Context (Hm : forall l r, In l left_ -> In r right_ -> matches l r = Ok (m l r)).

Definition matched (l : Row) : list (nat * Row) := List.filter (fun p => m l p.2) (enumerate right_).

Lemma left_matches_ok l : In l left_ -> left_matches matches l right_ = Ok (matched l).
Proof.
  intros Hl. unfold left_matches. rewrite (foldM_filter (fun p => matches l p.2) (fun p => m l p.2)); [done|].
  intros [i r] Hr. apply Hm; [done|]. apply enumerate_lookup in Hr.
  by apply list_elem_of_In, (list_elem_of_lookup_2 _ i).
Qed.

Lemma matched_nil l : matched l = [] <-> existsb (m l) right_ = false.
Proof.
  unfold matched. split.
  - intros E. apply not_true_is_false. intros Ht. apply existsb_exists in Ht as (r & Hr & Hmr).
    apply list_elem_of_In, list_elem_of_lookup_1 in Hr as [i Hi].
    assert (In (i, r) (List.filter (fun p => m l p.2) (enumerate right_))) as Hin.
    { apply filter_In. split; [by apply enumerate_lookup|done]. }
    by rewrite E in Hin.
  - intros E. apply List.incl_l_nil. intros [i r] Hin. apply filter_In in Hin as [Hin Hmr].
    apply enumerate_lookup in Hin. assert (existsb (m l) right_ = true); [|congruence].
    apply existsb_exists. exists r. split; [by apply list_elem_of_In, (list_elem_of_lookup_2 _ i)|done].
Qed.

(** The rows of the right side that no row of the left side has matched. *)
Lemma remaining_unmatched :
  remaining (flat_map (fun l => map fst (matched l)) left_) right_ =
  List.filter (fun r => negb (existsb (fun l => m l r) left_)) right_.
Proof.
  unfold remaining. rewrite <- (filter_enumerate _ right_). f_equal. apply filter_ext_in. intros [i r] Hir. simpl. f_equal.
  apply eq_true_iff_eq. rewrite bool_decide_eq_true, list_elem_of_In, in_flat_map, existsb_exists.
  split; intros (l & Hl & Hx); exists l; (split; [done|]).
  - apply in_map_iff in Hx as ([j r'] & Ej & Hx). simpl in Ej. subst j. apply filter_In in Hx as [Hx Hmr].
    apply enumerate_lookup in Hx, Hir. simpl in Hmr. by simplify_eq.
  - apply in_map_iff. exists (i, r). split; [done|]. by apply filter_In.
Qed.

Lemma join_rows_ok kind lw rw :
  exists rows, join_rows matches kind lw rw left_ right_ = Ok rows /\
    rows ≡ₚ join_spec m kind lw rw left_ right_.
Proof.
  unfold join_rows.
  rewrite (mapR_map _ (fun l => (l, matched l))) by (intros l Hl; by rewrite left_matches_ok).
  simpl. eexists. split; [done|]. unfold join_spec.
  rewrite !flat_map_map. cbv beta iota. pose proof remaining_unmatched as Hr.
  pose proof matched_nil as Hnil. unfold Row in *. rewrite Hr, app_assoc.
  apply Permutation_app; [|done].
  set (want := bool_decide (kind = JLeft \/ kind = JFull)).
  assert (forall l, map (fun p : nat * list Datum => l ++ p.2) (matched l) = map (app l) (List.filter (m l) right_)) as Hpairs.
  { intros l. unfold matched. by rewrite <- (filter_enumerate _ right_), map_map. }
  rewrite (flat_map_ext _ (fun l => if negb (existsb (m l) right_)
    then (if want then [l ++ null_row rw] else []) else map (app l) (List.filter (m l) right_))).
  - rewrite flat_map_split.
    + apply Permutation_app; [done|]. destruct want.
      * by rewrite flat_map_single.
      * induction (List.filter _ left_); done.
    + intros l _ E. apply negb_true_iff, Hnil in E. by rewrite <- Hpairs, E.
  - intros l. rewrite <- Hpairs. destruct (existsb (m l) right_) eqn:E; simpl.
    + destruct (matched l) eqn:El; [|done]. apply Hnil in El. congruence.
    + apply Hnil in E. by rewrite E.
Qed.

End Rows.

Definition is_true_datum (d : Datum) : bool := match d with DBool true => true | _ => false end.

(** C36: A join ON a condition returns exactly the rows its kind defines, with their
    multiplicities: every pair of rows for which the condition is true (NULL counts
    as false), each row of the left side that matches nothing, padded with NULLs,
    for LEFT and FULL, and each unmatched row of the right side for RIGHT and FULL,
    over the columns of the left side followed by those of the right side. *)
Theorem join_on_correct left_ right_ kind e ctx (cond : Row -> Row -> Datum) :
  let ls := rel_scope left_ in
  let rs := rel_scope right_ in
  shared_qualifier ls rs = None ->
  (forall l r, In l (rel_rows left_) -> In r (rel_rows right_) ->
     eval e (ls ++ rs) (l ++ r) ctx = Ok (cond l r) /\ (cond l r = DNull \/ exists b, cond l r = DBool b)) ->
  exists rows, join_relations left_ right_ kind (JoinOn e) ctx = Ok (mkRelation (ls ++ rs) rows) /\
    rows ≡ₚ join_spec (fun l r => is_true_datum (cond l r)) kind (length ls) (length rs)
              (rel_rows left_) (rel_rows right_).
Proof.
  intros ls rs Hq Hc. unfold join_relations. fold ls rs. rewrite Hq. simpl.
  destruct (join_rows_ok (join_matches [] (Some e) (ls ++ rs) ctx) (fun l r => is_true_datum (cond l r))
    (rel_rows left_) (rel_rows right_)) with (kind := kind) (lw := scope_width ls) (rw := scope_width rs)
    as (rows & -> & Hrows).
  - intros l r Hl Hr. destruct (Hc l r Hl Hr) as [He Hb]. simpl. rewrite He. simpl.
    destruct Hb as [->|[[] ->]]; done.
  - exists rows. by split.
Qed.

End JoinSpec.

(** ** Two tables with a row on each side that matches nothing *)

Definition dept_scope : Scope := [mkBinding (Some "d") "id" TInt4].
Definition emp_scope : Scope := [mkBinding (Some "e") "dept" TInt4].
Definition same_dept : Expr := Binary OpEq (ColumnRef (Some "d") "id") (ColumnRef (Some "e") "dept").

Lemma join_on_correct_witness :
  exists rows,
    join_relations (mkRelation dept_scope [[DInt4 1]; [DInt4 2]])
      (mkRelation emp_scope [[DInt4 2]; [DNull]]) JFull (JoinOn same_dept) epoch_ctx =
    Ok (mkRelation (dept_scope ++ emp_scope) rows) /\
    rows ≡ₚ [[DInt4 2; DInt4 2]; [DInt4 1; DNull]; [DNull; DNull]].
Proof.
  apply (join_on_correct (mkRelation dept_scope [[DInt4 1]; [DInt4 2]])
    (mkRelation emp_scope [[DInt4 2]; [DNull]]) JFull same_dept epoch_ctx
    (fun l r => match l, r with
                | [DInt4 a], [DInt4 b] => DBool (a =? b)
                | _, _ => DNull
                end)); [reflexivity|].
  simpl. intros l r [<-|[<-|[]]] [<-|[<-|[]]]; (split; [reflexivity|eauto]).
Defined.
