(* ===== verification/OrderBy.v ===== *)
(** * ORDER BY, OFFSET and LIMIT

    The order ORDER BY asks for, stated item by item: ascending or descending, NULLs
    last or first, later items deciding ties. The rows of VALUES and set operations,
    of a SELECT, of a SELECT DISTINCT and of a grouped SELECT come back in it, rows
    with equal keys in the order they had, and OFFSET and LIMIT cut out a stretch. *)
From Stdlib Require Import ZArith Lia Ascii.
From stdpp Require Import base list gmap strings sorting.
From S2P Require Import Prelude Text Chars Keys Store Datum Float DateTimeBin ExtModel ExtArith.
From S2P Require Import DateTime LibModel Calendar Numeric NumericFn Ops OpsProps Cast Errors Catalog.
From S2P Require Import Scope Ast AggCall EvalOps Func DateTimeFn FormatFn Eval Wire Project Join JoinSpec.
From S2P Require Import Values Aggregate.
Open Scope Z_scope.

(** ** Sorting by a comparison that is a total preorder on the elements *)

Section Sort.
Context {A : Type} (cmp : A -> A -> comparison) (P : A -> Prop).
Context (Hflip : forall x y, P x -> P y -> cmp y x = CompOpp (cmp x y)).
Context (Htrans : forall x y z, P x -> P y -> P z -> cmp x y <> Gt -> cmp y z <> Gt -> cmp x z <> Gt).

Definition le_by (x y : A) : Prop := cmp x y <> Gt.

Lemma insert_by_perm x l : insert_by cmp x l ≡ₚ x :: l.
Proof.
  induction l as [|y l IH]; simpl; [done|]. destruct (cmp y x); try done. by rewrite IH, Permutation_swap.
Qed.

Lemma sort_by_perm l : sort_by cmp l ≡ₚ l.
Proof. induction l as [|x l IH]; simpl; [done|]. by rewrite insert_by_perm, IH. Qed.

Lemma insert_by_sorted x l :
  P x -> Forall P l -> StronglySorted le_by l -> StronglySorted le_by (insert_by cmp x l).
Proof.
  intros Hx Hl Hs. induction Hs as [|y l Hs IH Hy]; simpl; [by repeat constructor|].
  apply Forall_cons in Hl as [Py Hl]. destruct (cmp y x) eqn:E.
  - constructor; [by constructor|]. constructor; [unfold le_by; by rewrite (Hflip y x), E|].
    rewrite Forall_forall in Hy, Hl |- *. intros z Hz. apply (Htrans x y z); auto; [by rewrite (Hflip y x), E|].
    by apply Hy.
  - constructor; [by apply IH|]. rewrite insert_by_perm. constructor; [unfold le_by; by rewrite E|done].
  - constructor; [by constructor|]. constructor; [unfold le_by; by rewrite (Hflip y x), E|].
    rewrite Forall_forall in Hy, Hl |- *. intros z Hz. apply (Htrans x y z); auto; [by rewrite (Hflip y x), E|].
    by apply Hy.
Qed.

Lemma sort_by_Forall l : Forall P l -> Forall P (sort_by cmp l).
Proof. intros Hl. by rewrite sort_by_perm. Qed.

Lemma sort_by_sorted l : Forall P l -> StronglySorted le_by (sort_by cmp l).
Proof.
  induction 1 as [|x l Hx Hl IH]; simpl; [constructor|]. apply insert_by_sorted; auto using sort_by_Forall.
Qed.

(** Elements equal to a third are equal. *)
Lemma cmp_eq_trans x y z : P x -> P y -> P z -> cmp x y = Eq -> cmp x z = Eq -> cmp y z = Eq.
Proof.
  intros Px Py Pz Hy Hz.
  assert (cmp y z <> Gt) as H1.
  { apply (Htrans y x z); auto; rewrite ?(Hflip x y), ?Hy, ?Hz by done; done. }
  assert (cmp z y <> Gt) as H2.
  { apply (Htrans z x y); auto; rewrite ?(Hflip x z), ?Hy, ?Hz by done; done. }
  rewrite (Hflip y z) in H2 by done. destruct (cmp y z); done.
Qed.

Definition eq_by (x y : A) : bool := match cmp x y with Eq => true | _ => false end.

Lemma insert_by_stable k x l :
  P k -> P x -> Forall P l -> List.filter (eq_by k) (insert_by cmp x l) = List.filter (eq_by k) (x :: l).
Proof.
  intros Pk Px. induction 1 as [|y l Py Hl IH]; [done|]. simpl. destruct (cmp y x) eqn:E; [done| |done].
  simpl. rewrite IH. simpl. unfold eq_by. destruct (cmp k y) eqn:Ey; [|done|done].
  destruct (cmp k x) eqn:Ex; [|done|done].
  by rewrite (cmp_eq_trans k y x) in E.
Qed.

(** Elements that compare equal stay in their order. *)
Lemma sort_by_stable k l :
  P k -> Forall P l -> List.filter (eq_by k) (sort_by cmp l) = List.filter (eq_by k) l.
Proof.
  intros Pk. induction 1 as [|x l Px Hl IH]; [done|]. simpl sort_by.
  rewrite insert_by_stable by auto using sort_by_Forall. simpl. by rewrite IH.
Qed.

End Sort.

Section OrderBy.
Context `{ExtCal} `{MathLib} `{Unicode} `{!ExtPow} `{!ExtArithLaws}.

(** ** The order of keys *)

(** NULL, or a value of the type. *)
Definition key_of (t : ColumnType) (d : Datum) : Prop := d = DNull \/ order_class d = Some t.

Lemma order_class_not_null d t : order_class d = Some t -> is_null d = false.
Proof. by destruct d. Qed.

Lemma key_cmp_class asc x y t :
  order_class x = Some t -> order_class y = Some t ->
  key_cmp asc x y = if asc then class_cmp x y else CompOpp (class_cmp x y).
Proof.
  intros Hx Hy. unfold key_cmp. rewrite (order_class_not_null _ _ Hx), (order_class_not_null _ _ Hy).
  by rewrite (compare_class x y t Hx Hy).
Qed.

Lemma key_cmp_null_l asc y t : order_class y = Some t -> key_cmp asc DNull y = if asc then Gt else Lt.
Proof. intros Hy. unfold key_cmp. simpl. by rewrite (order_class_not_null _ _ Hy). Qed.

Lemma key_cmp_null_r asc x t : order_class x = Some t -> key_cmp asc x DNull = if asc then Lt else Gt.
Proof. intros Hx. unfold key_cmp. simpl. by rewrite (order_class_not_null _ _ Hx). Qed.

Lemma key_cmp_flip asc t x y : key_of t x -> key_of t y -> key_cmp asc y x = CompOpp (key_cmp asc x y).
Proof.
  intros [->|Hx] [->|Hy]; [done| | |].
  - rewrite (key_cmp_null_l _ _ _ Hy), (key_cmp_null_r _ _ _ Hy). by destruct asc.
  - rewrite (key_cmp_null_l _ _ _ Hx), (key_cmp_null_r _ _ _ Hx). by destruct asc.
  - rewrite (key_cmp_class asc x y t), (key_cmp_class asc y x t), (class_cmp_flip x y t) by done.
    by destruct asc.
Qed.

Lemma opp_not_gt c : CompOpp c <> Gt <-> c <> Lt.
Proof. by destruct c. Qed.

Lemma key_cmp_trans asc t x y z :
  key_of t x -> key_of t y -> key_of t z ->
  key_cmp asc x y <> Gt -> key_cmp asc y z <> Gt -> key_cmp asc x z <> Gt.
Proof.
  intros [->|Hx] [->|Hy] [->|Hz];
    rewrite ?(key_cmp_null_l _ _ _ Hx), ?(key_cmp_null_r _ _ _ Hx), ?(key_cmp_null_l _ _ _ Hy),
      ?(key_cmp_null_r _ _ _ Hy), ?(key_cmp_null_l _ _ _ Hz), ?(key_cmp_null_r _ _ _ Hz);
    try (by destruct asc).
  rewrite (key_cmp_class asc x y t), (key_cmp_class asc y z t), (key_cmp_class asc x z t) by done.
  destruct asc; [by apply (class_cmp_trans x y z t)|].
  rewrite <- (class_cmp_flip x y t), <- (class_cmp_flip y z t), <- (class_cmp_flip x z t) by done.
  intros. by apply (class_cmp_trans z y x t).
Qed.

Definition keys_of (ts : list ColumnType) (ks : list Datum) : Prop := Forall2 key_of ts ks.

Lemma order_cmp_flip ob ts a b :
  keys_of ts a -> keys_of ts b -> order_cmp b a ob = CompOpp (order_cmp a b ob).
Proof.
  intros Ha. revert ob b. induction Ha as [|t x ts a Hx Ha IH]; intros ob b Hb; inversion_clear Hb;
    destruct ob; try done. simpl. rewrite (key_cmp_flip _ t x) by done.
  destruct (key_cmp (is_asc o) x y); simpl; auto.
Qed.

Lemma order_cmp_trans ob ts a b c :
  keys_of ts a -> keys_of ts b -> keys_of ts c ->
  order_cmp a b ob <> Gt -> order_cmp b c ob <> Gt -> order_cmp a c ob <> Gt.
Proof.
  intros Ha. revert ob b c. induction Ha as [|t x ts a Hx Ha IH]; intros ob b c Hb Hc;
    inversion Hb as [|? y ? b' Hy Hb']; inversion Hc as [|? z ? c' Hz Hc']; subst; destruct ob as [|o ob]; try done.
  simpl. pose proof (key_cmp_trans (is_asc o) t x y z Hx Hy Hz) as Ht.
  pose proof (key_cmp_trans (is_asc o) t y z x Hy Hz Hx) as Ht1.
  pose proof (key_cmp_trans (is_asc o) t z x y Hz Hx Hy) as Ht2.
  rewrite (key_cmp_flip _ t x z), (key_cmp_flip _ t x y) in Ht1 by done.
  rewrite (key_cmp_flip _ t x z), (key_cmp_flip _ t y z) in Ht2 by done.
  specialize (IH ob b' c' Hb' Hc').
  destruct (key_cmp (is_asc o) x y), (key_cmp (is_asc o) y z), (key_cmp (is_asc o) x z); simpl in *; naive_solver.
Qed.

(** ** The rows of a query in order *)

Definition limit_count (limit : option Z) (n : nat) : nat :=
  match limit with Some l => Z.to_nat (Z.max l 0) | None => n end.

Lemma offset_limit_slice {A} (rows : list A) offset limit :
  apply_offset_limit rows offset limit =
  take (limit_count limit (length rows)) (drop (Z.to_nat (Z.max (default 0 offset) 0)) rows).
Proof.
  unfold apply_offset_limit, limit_count. destruct offset as [off|]; simpl.
  - assert (drop (Nat.min (Z.to_nat (Z.max off 0)) (length rows)) rows =
            drop (Z.to_nat (Z.max off 0)) rows) as ->.
    { destruct (Nat.le_ge_cases (Z.to_nat (Z.max off 0)) (length rows)) as [Hl|Hl].
      - by rewrite Nat.min_l.
      - rewrite Nat.min_r by done. by rewrite !drop_ge. }
    destruct limit; [done|]. rewrite take_ge; [done|]. rewrite length_drop. lia.
  - rewrite drop_0. destruct limit; [done|]. by rewrite take_ge.
Qed.

Lemma slice_map {A B} (f : A -> B) rows offset limit :
  map f (apply_offset_limit rows offset limit) = apply_offset_limit (map f rows) offset limit.
Proof. rewrite !offset_limit_slice, length_map, skipn_map, firstn_map. done. Qed.

(** ** The order that the items ask for *)

(** Whether one item puts a row with [x] before a row with [y]: smaller values first
    when ascending, larger ones when descending, NULL behind every value when
    ascending and in front of every value when descending. *)
Definition value_before (asc : bool) (x y : Datum) : bool :=
  match x, y with
  | DNull, DNull => false
  | DNull, _ => negb asc
  | _, DNull => asc
  | _, _ => match class_cmp x y with Lt => asc | Gt => negb asc | Eq => false end
  end.

(** Equal values of a type; NULLs count as equal. *)
Definition value_same (x y : Datum) : bool :=
  match x, y with
  | DNull, DNull => true
  | DNull, _ | _, DNull => false
  | _, _ => match class_cmp x y with Eq => true | _ => false end
  end.

(** The first item whose values differ decides. *)
Fixpoint sorts_before (ob : list OrderItem) (a b : list Datum) : bool :=
  match ob, a, b with
  | mkOrderItem _ asc :: ob, x :: a, y :: b =>
      value_before asc x y || (value_same x y && sorts_before ob a b)
  | _, _, _ => false
  end.

Fixpoint same_keys (ob : list OrderItem) (a b : list Datum) : bool :=
  match ob, a, b with
  | _ :: ob, x :: a, y :: b => value_same x y && same_keys ob a b
  | _, _, _ => true
  end.

(** [sorted] holds the rows of [input], each with its keys; no row stands behind one
    that sorts after it; rows with the same keys stand as they stood in [input]. *)
Definition ordered_by (ob : list OrderItem) (input sorted : list (list Datum * Row)) : Prop :=
  sorted ≡ₚ input /\
  StronglySorted (fun a b => sorts_before ob b.1 a.1 = false) sorted /\
  (forall k, In k input ->
     List.filter (fun r => same_keys ob k.1 r.1) sorted = List.filter (fun r => same_keys ob k.1 r.1) input).

(** The rows of the order from OFFSET on, LIMIT of them at most, a negative count
    standing for zero. *)
Definition in_order (ob : list OrderItem) (offset limit : option Z) (input : list (list Datum * Row))
    (out : list Row) : Prop :=
  exists sorted, ordered_by ob input sorted /\
    out = take (limit_count limit (length input))
            (drop (Z.to_nat (Z.max (default 0 offset) 0)) (map snd sorted)).

Lemma value_before_cmp asc t x y :
  key_of t x -> key_of t y -> value_before asc x y = match key_cmp asc x y with Lt => true | _ => false end.
Proof.
  intros [->|Hx] [->|Hy]; [done| | |].
  - rewrite (key_cmp_null_l _ _ _ Hy). by destruct y, asc.
  - rewrite (key_cmp_null_r _ _ _ Hx). by destruct x, asc.
  - rewrite (key_cmp_class asc x y t) by done.
    assert (value_before asc x y = match class_cmp x y with Lt => asc | Gt => negb asc | Eq => false end) as ->
      by (by destruct x, y).
    by destruct asc, (class_cmp x y).
Qed.

Lemma value_same_cmp asc t x y :
  key_of t x -> key_of t y -> value_same x y = match key_cmp asc x y with Eq => true | _ => false end.
Proof.
  intros [->|Hx] [->|Hy]; [done| | |].
  - rewrite (key_cmp_null_l _ _ _ Hy). by destruct y, asc.
  - rewrite (key_cmp_null_r _ _ _ Hx). by destruct x, asc.
  - rewrite (key_cmp_class asc x y t) by done.
    assert (value_same x y = match class_cmp x y with Eq => true | _ => false end) as -> by (by destruct x, y).
    by destruct asc, (class_cmp x y).
Qed.

Lemma sorts_before_cmp ob ts a b :
  keys_of ts a -> keys_of ts b ->
  sorts_before ob a b = match order_cmp a b ob with Lt => true | _ => false end.
Proof.
  intros Ha. revert ob b. induction Ha as [|t x ts a Hx Ha IH]; intros ob b Hb;
    inversion Hb as [|? y ? b' Hy Hb']; subst; destruct ob as [|[e asc] ob]; try done.
  simpl. rewrite (value_before_cmp asc t x y), (value_same_cmp asc t x y), (IH ob b') by done.
  by destruct (key_cmp asc x y).
Qed.

Lemma same_keys_cmp ob ts a b :
  keys_of ts a -> keys_of ts b -> same_keys ob a b = match order_cmp a b ob with Eq => true | _ => false end.
Proof.
  intros Ha. revert ob b. induction Ha as [|t x ts a Hx Ha IH]; intros ob b Hb;
    inversion Hb as [|? y ? b' Hy Hb']; subst; destruct ob as [|[e asc] ob]; try done.
  simpl. rewrite (value_same_cmp asc t x y), (IH ob b') by done.
  by destruct (key_cmp asc x y).
Qed.

(** The sort of the code puts the rows in that order. *)
Lemma sort_by_ordered ob ts (keyed : list (list Datum * Row)) :
  Forall (fun r => keys_of ts r.1) keyed ->
  ordered_by ob keyed (sort_by (fun a b => order_cmp a.1 b.1 ob) keyed).
Proof.
  intros HP. set (cmp := fun a b : list Datum * Row => order_cmp a.1 b.1 ob).
  set (P := fun a : list Datum * Row => keys_of ts a.1).
  assert (forall x y, P x -> P y -> cmp y x = CompOpp (cmp x y)) as Hflip.
  { intros x y Hx Hy. by apply (order_cmp_flip ob ts). }
  assert (forall x y z, P x -> P y -> P z -> cmp x y <> Gt -> cmp y z <> Gt -> cmp x z <> Gt) as Htrans.
  { intros x y z Hx Hy Hz. by apply (order_cmp_trans ob ts). }
  assert (Forall P (sort_by cmp keyed)) as HPs by (by apply sort_by_Forall).
  split_and!.
  - apply sort_by_perm.
  - assert (StronglySorted (le_by cmp) (sort_by cmp keyed)) as Hs by (by apply (sort_by_sorted cmp P)).
    clear -Hs HPs Hflip. induction Hs as [|x l Hs IH Hx]; [constructor|].
    apply Forall_cons in HPs as [Px HPl]. constructor; [by apply IH|].
    rewrite Forall_forall in Hx, HPl |- *. intros y Hy.
    rewrite (sorts_before_cmp ob ts) by (try apply (HPl y Hy); done).
    fold (cmp y x). rewrite (Hflip x y) by auto. specialize (Hx y Hy). unfold le_by in Hx.
    by destruct (cmp x y).
  - intros k Hk. assert (P k) as Pk by (by apply (proj1 (Forall_forall P keyed) HP), list_elem_of_In).
    assert (forall l, Forall P l ->
      List.filter (fun r => same_keys ob k.1 r.1) l = List.filter (eq_by cmp k) l) as Hf.
    { intros l. induction 1 as [|x l Px Hl IH]; [done|]. simpl. unfold eq_by at 1, cmp at 1.
      by rewrite (same_keys_cmp ob ts), IH. }
    rewrite !Hf by done. by apply (sort_by_stable cmp P).
Qed.

(** With no items every row keeps its place. *)
Lemma unordered keyed : ordered_by [] keyed keyed.
Proof. split_and!; [done| |done]. induction keyed; constructor; [done|]. by apply Forall_true. Qed.

Definition arranged (ob : list OrderItem) (keyed : list (list Datum * Row)) : list (list Datum * Row) :=
  match ob with [] => keyed | _ => sort_by (fun a b => order_cmp a.1 b.1 ob) keyed end.

Lemma arranged_in_order ob ts offset limit keyed :
  Forall (fun r => keys_of ts r.1) keyed ->
  in_order ob offset limit keyed (apply_offset_limit (map snd (arranged ob keyed)) offset limit).
Proof.
  intros HP. exists (arranged ob keyed).
  assert (ordered_by ob keyed (arranged ob keyed)) as Ho.
  { unfold arranged. destruct ob; [apply unordered|by apply (sort_by_ordered _ ts)]. }
  split; [done|]. rewrite offset_limit_slice, length_map.
  by rewrite (Permutation_length (proj1 Ho)).
Qed.

Lemma keyed_rows (f : Row -> xresult (list Datum)) rows ks :
  mapR f rows = Ok ks -> mapR (fun r => keys ← f r; Ok (keys, r)) rows = Ok (zip ks rows).
Proof.
  revert ks. induction rows as [|r rows IH]; intros ks E; simpl in *; [by simplify_eq|].
  destruct (f r); [|done]. simpl in *. destruct (mapR f rows) as [ks'|]; [|done]. simpl in *.
  simplify_eq. by rewrite (IH ks').
Qed.

Lemma keyed_snd (f : Row -> xresult (list Datum)) rows ks : mapR f rows = Ok ks -> map snd (zip ks rows) = rows.
Proof. intros E%mapR_Ok_length. apply snd_zip. lia. Qed.

Lemma keyed_typed ts ks (rows : list Row) :
  Forall (keys_of ts) ks -> Forall (fun r => keys_of ts r.1) (zip ks rows).
Proof.
  intros Hk. revert rows. induction Hk; intros [|r rows]; simpl; constructor; auto.
Qed.

(** C38: ORDER BY with keys of one type each returns the rows in the order it asks for,
    and OFFSET and LIMIT then return the stretch of that order that they name. The
    order is item by item: smaller values first when ascending and larger ones first
    when descending, NULLs last when ascending and first when descending, a later
    item deciding between rows that earlier ones leave equal, and rows with equal
    keys in the order they had. This holds for the rows of VALUES, of a set operation
    and of a parenthesized query; for a SELECT, which sorts its source rows and
    projects the stretch; for a SELECT DISTINCT, which sorts the distinct output
    rows; and for a grouped SELECT, which sorts the groups. *)
Theorem order_by_correct scope ts ctx :
  (forall rows ob offset limit ks,
     mapR (fun row => mapR (fun o => let '(mkOrderItem e _) := o in order_key e scope row ctx) ob) rows = Ok ks ->
     Forall (keys_of ts) ks ->
     exists out, order_rows scope rows ob offset limit ctx = Ok out /\
       in_order ob offset limit (zip ks rows) out) /\
  (forall ob offset limit p kept order_keys ks,
     resolve_select_order_keys ob scope p false = Ok order_keys ->
     mapR (source_keys order_keys (pr_exprs p) scope ctx) kept = Ok ks ->
     Forall (keys_of ts) ks ->
     exists out,
       project_rows_ordered (mkRowClauses false ob limit offset) scope p kept ctx =
         project_rows (pr_exprs p) scope out ctx /\
       in_order ob offset limit (zip ks kept) out) /\
  (forall ob offset limit p kept order_keys projected ks,
     resolve_select_order_keys ob scope p true = Ok order_keys ->
     project_rows (pr_exprs p) scope kept ctx = Ok projected ->
     mapR (output_keys order_keys) (dedup_on id [] projected) = Ok ks ->
     Forall (keys_of ts) ks ->
     exists out,
       project_rows_ordered (mkRowClauses true ob limit offset) scope p kept ctx = Ok out /\
       in_order ob offset limit (zip ks (dedup_on id [] projected)) out) /\
  (forall projection from filter distinct group_by having ob limit offset lock kept groups,
     let s := mkSelectStmt projection from filter distinct group_by having ob limit offset lock in
     group_output s scope kept ctx = Ok groups ->
     Forall (fun g => keys_of ts g.1) groups ->
     exists out, aggregate_rows s scope kept ctx = Ok out /\ in_order ob offset limit groups out).
Proof.
  split_and!.
  - intros rows ob offset limit ks Hks Hts.
    eexists. split; [|by apply (arranged_in_order _ ts), keyed_typed].
    unfold order_rows. rewrite (keyed_rows _ _ _ Hks). destruct ob; simpl; [|done].
    by rewrite (keyed_snd _ _ _ Hks).
  - intros ob offset limit p kept order_keys ks Hok Hks Hts.
    eexists. split; [|by apply (arranged_in_order _ ts), keyed_typed].
    unfold project_rows_ordered. simpl. rewrite Hok. simpl. rewrite (keyed_rows _ _ _ Hks).
    destruct ob; simpl; [|done]. by rewrite (keyed_snd _ _ _ Hks).
  - intros ob offset limit p kept order_keys projected ks Hok Hp Hks Hts.
    eexists. split; [|by apply (arranged_in_order _ ts), keyed_typed].
    unfold project_rows_ordered. simpl. rewrite Hok. simpl. rewrite Hp. simpl. rewrite (keyed_rows _ _ _ Hks).
    destruct ob; simpl; [|done]. by rewrite (keyed_snd _ _ _ Hks).
  - intros projection from filter distinct group_by having ob limit offset lock kept groups s Hg Hts.
    eexists. split; [|by apply (arranged_in_order _ ts)].
    unfold aggregate_rows, s. fold s. rewrite Hg. simpl. by rewrite slice_map.
Qed.

End OrderBy.

(** [VALUES (2), (NULL), (1) ORDER BY 1 DESC OFFSET 1], and
    [SELECT k FROM t GROUP BY k ORDER BY k LIMIT 2] over the rows 3, NULL, 1, 3 *)
Lemma order_by_correct_witness :
  (exists out,
    order_rows [mkBinding None "k" TInt4] [[DInt4 2]; [DNull]; [DInt4 1]]
      [mkOrderItem (IntLiteral "1") false] (Some 1) None epoch_ctx = Ok out /\
    in_order [mkOrderItem (IntLiteral "1") false] (Some 1) None
      [([DInt4 2], [DInt4 2]); ([DNull], [DNull]); ([DInt4 1], [DInt4 1])] out /\
    out = [[DInt4 2]; [DInt4 1]]) /\
  (exists out,
    aggregate_rows (mkSelectStmt [ItemExpr (ColumnRef None "k") None] [] None false [ColumnRef None "k"] None
        [mkOrderItem (ColumnRef None "k") true] (Some 2) None None)
      [mkBinding None "k" TInt4] [[DInt4 3]; [DNull]; [DInt4 1]; [DInt4 3]] epoch_ctx = Ok out /\
    in_order [mkOrderItem (ColumnRef None "k") true] None (Some 2)
      [([DInt4 3], [DInt4 3]); ([DNull], [DNull]); ([DInt4 1], [DInt4 1])] out /\
    out = [[DInt4 1]; [DInt4 3]]).
Proof.
  assert (forall A (x y : A), Ok (E := fault ExecError) x = Ok y -> x = y) as Hinj by (by intros ? ? ? [=]).
  destruct (order_by_correct [mkBinding None "k" TInt4] [TInt4] epoch_ctx) as (Hv & _ & _ & Hg). split.
  - destruct (Hv [[DInt4 2]; [DNull]; [DInt4 1]] [mkOrderItem (IntLiteral "1") false] (Some 1) None
      [[DInt4 2]; [DNull]; [DInt4 1]]) as (out & E & Ho).
    + reflexivity.
    + repeat constructor; first [by left|by right].
    + exists out. split_and!; [done|done|]. apply Hinj. rewrite <- E. reflexivity.
  - edestruct (Hg [ItemExpr (ColumnRef None "k") None] [] None false [ColumnRef None "k"] None
      [mkOrderItem (ColumnRef None "k") true] (Some 2) None None [[DInt4 3]; [DNull]; [DInt4 1]; [DInt4 3]])
      as (out & E & Ho).
    + reflexivity.
    + repeat constructor; first [by left|by right].
    + exists out. split_and!; [done|done|]. apply Hinj. rewrite <- E. reflexivity.
Defined.
