(* ===== verification/IntervalProps.v ===== *)
(** * Interval text (pgtypes/src/datetime.rs)

    What [interval_to_text] prints, [parse_interval] reads back; and what the
    unit names mean to [accumulate_unit]. *)
From Stdlib Require Import ZArith Lia Ascii.
From stdpp Require Import base list gmap strings.
From S2P Require Import Prelude Text Chars Datum Float DateTimeBin ExtArith ExtModel DateTime.
From S2P Require Import Calendar DateTimeFmt.
Open Scope Z_scope.

(** ** Digits *)

Lemma char_neq_digit c d : is_digit c = true -> is_digit d = false -> c <> d.
Proof. intros Hc Hd ->. congruence. Qed.

Lemma split_on_none c s : digits_ok s = true -> is_digit c = false -> split_on c s = [s].
Proof. eauto using split_on_lacks, digits_lacks. Qed.

Lemma split_on_digits c s t :
  digits_ok s = true -> is_digit c = false -> split_on c (s +:+ String c t) = s :: split_on c t.
Proof. eauto using split_on_app, digits_lacks. Qed.

Lemma find_char_digits c s t :
  digits_ok s = true -> is_digit c = false ->
  find_char (fun d => bool_decide (d = c)) (s +:+ String c t) = Some (String.length s).
Proof.
  intros Hs Hc. induction s as [|d s IH].
  - change ("" +:+ String c t) with (String c t). cbn [find_char].
    by rewrite bool_decide_true.
  - cbn [digits_ok] in Hs. apply andb_prop in Hs as [Hd Hs].
    rewrite str_app_cons. cbn [find_char]. rewrite IH by done.
    by rewrite bool_decide_false by (by apply char_neq_digit).
Qed.

Lemma find_char_none c s :
  digits_ok s = true -> is_digit c = false -> find_char (fun d => bool_decide (d = c)) s = None.
Proof.
  intros Hs Hc. induction s as [|d s IH]; [done|].
  cbn [digits_ok] in Hs. apply andb_prop in Hs as [Hd Hs]. cbn [find_char].
  by rewrite IH, bool_decide_false by (done || by apply char_neq_digit).
Qed.

Lemma str_take_app s t : str_take (String.length s) (s +:+ t) = s.
Proof. induction s as [|c s IH]; [by destruct t|]. rewrite str_app_cons. cbn. by rewrite IH. Qed.

Lemma str_drop_app s t : str_drop (String.length s) (s +:+ t) = t.
Proof. by induction s as [|c s IH]. Qed.

Lemma str_drop_app_S s c t : str_drop (S (String.length s)) (s +:+ String c t) = t.
Proof. by induction s as [|d s IH]. Qed.

Lemma split_once_digits c s t :
  digits_ok s = true -> is_digit c = false -> split_once c (s +:+ String c t) = Some (s, t).
Proof.
  intros. unfold split_once. rewrite find_char_digits by done. cbn [mbind option_bind].
  by rewrite str_take_app, str_drop_app_S.
Qed.

Lemma split_once_none c s : digits_ok s = true -> is_digit c = false -> split_once c s = None.
Proof. intros. unfold split_once. by rewrite find_char_none. Qed.

(** ** Padded numbers *)

Lemma pad_int_digits w n : 0 <= n -> digits_ok (pad_int w n) = true /\ pad_int w n <> "" /\
  digits_val 0 (pad_int w n) = n.
Proof.
  intros Hn. unfold pad_int. rewrite (proj2 (Z.ltb_ge n 0)), Z.abs_eq by lia.
  change "0"%char with (digit_char 0).
  rewrite digits_ok_app, digits_val_app, digits_ok_zeros, digits_val_zeros.
  rewrite dec_string_digits, dec_string_val by lia. split_and!; try done.
  pose proof (dec_string_nonempty n). by destruct (str_repeat _ _), (dec_string n).
Qed.

(** [parse] reads digits in front of which there is no sign. *)
Lemma parse_i64_digits s :
  digits_ok s = true -> s <> "" -> digits_val 0 s <= 9223372036854775807 -> 0 <= digits_val 0 s ->
  parse_i64 s = Some (digits_val 0 s).
Proof.
  intros Hs Hne Hhi Hlo. unfold parse_i64, parse_int.
  assert (match s with
          | String "+"%char s' => (false, s')
          | String "-"%char s' => if -9223372036854775808 <? 0 then (true, s') else (false, s)
          | _ => (false, s)
          end = (false, s)) as ->.
  { destruct s as [|c s]; [done|]. cbn [digits_ok] in Hs. apply andb_prop in Hs as [Hc _].
    by destruct c as [[] [] [] [] [] [] [] []]. }
  rewrite Hs, bool_decide_false by done. cbn [negb andb].
  by rewrite (proj2 (Z.leb_le _ _)), (proj2 (Z.leb_le _ _)) by lia.
Qed.

Lemma parse_i64_pad w n : 0 <= n <= 9223372036854775807 -> parse_i64 (pad_int w n) = Some n.
Proof.
  intros Hn. destruct (pad_int_digits w n) as (Hd & Hne & Hv); [lia|].
  rewrite parse_i64_digits; rewrite ?Hv; auto; lia.
Qed.

Lemma dec_go_length k fuel n s :
  (0 < k)%nat -> 0 <= n < 10 ^ Z.of_nat k ->
  (String.length (dec_go fuel n s) <= k + String.length s)%nat.
Proof.
  revert k n s; induction fuel as [|fuel IH]; intros k n s Hk Hn; cbn [dec_go]; [lia|].
  destruct (Z.ltb_spec n 10); [cbn [String.length]; lia|].
  destruct k as [|[|k]]; [lia|change (10 ^ Z.of_nat 1) with 10 in Hn; lia|].
  etransitivity; [apply (IH (S k)); [lia|]|cbn [String.length]; lia].
  rewrite (Nat2Z.inj_succ (S k)), Z.pow_succ_r in Hn by lia.
  split; [apply Z.div_pos; lia|apply Z.div_lt_upper_bound; lia].
Qed.

Lemma pad_int_length w n :
  (0 < w)%nat -> 0 <= n < 10 ^ Z.of_nat w -> String.length (pad_int w n) = w.
Proof.
  intros Hw Hn. unfold pad_int. rewrite (proj2 (Z.ltb_ge n 0)), Z.abs_eq by lia.
  rewrite str_length_app, str_length_repeat.
  pose proof (dec_go_length w (S (Z.to_nat (Z.log2 n))) n "" Hw Hn) as Hl.
  fold (dec_string n) in Hl. cbn [String.length] in Hl. lia.
Qed.

(** What trimming took off the end was repetitions of the character. *)
Lemma trim_end_repeat c s :
  trim_end_char c s +:+ str_repeat (String.length s - String.length (trim_end_char c s)) c = s.
Proof.
  induction s as [|d s IH]; [done|]. cbn [trim_end_char].
  destruct (trim_end_char c s) as [|e t] eqn:E.
  - cbn [String.length] in IH. rewrite Nat.sub_0_r in IH.
    change ("" +:+ str_repeat (String.length s) c) with (str_repeat (String.length s) c) in IH.
    case_bool_decide as Hd; cbn [String.length].
    + subst. change ("" +:+ ?x) with x. cbn [Nat.sub str_repeat]. by rewrite IH.
    + rewrite str_app_cons. cbn [Nat.sub]. rewrite Nat.sub_0_r.
      change ("" +:+ ?x) with x. by rewrite IH.
  - rewrite str_app_cons. cbn [String.length Nat.sub]. f_equal. exact IH.
Qed.

Lemma trim_end_length c s : (String.length (trim_end_char c s) <= String.length s)%nat.
Proof.
  induction s as [|d s IH]; [done|]. cbn [trim_end_char].
  destruct (trim_end_char c s); [case_bool_decide|]; cbn [String.length] in *; lia.
Qed.

Lemma digits_bytes s i b : digits_ok s = true -> str_bytes s !! i = Some b -> 48 <= b <= 57.
Proof.
  revert i; induction s as [|c s IH]; intros i; [done|]. cbn [digits_ok str_bytes].
  intros [Hc Hs]%andb_true_iff. destruct i as [|i]; [|by apply IH]. intros [= <-].
  unfold is_digit, in_range in Hc. lia.
Qed.

(** The fraction of a clock text reads back in microseconds. *)
Lemma fraction_back us :
  0 <= us < 1000000 ->
  let frac := trim_zeros (pad_int 6 us) in
  slice 0 6 (frac +:+ str_repeat (6 - String.length frac) "0"%char) ≫= parse_i64 = Some us.
Proof.
  intros Hus frac. pose proof (pad_int_length 6 us ltac:(lia) ltac:(lia)) as Hl.
  assert (frac +:+ str_repeat (6 - String.length frac) "0"%char = pad_int 6 us) as ->.
  { unfold frac, trim_zeros. rewrite <- Hl at 2. apply trim_end_repeat. }
  unfold slice. rewrite Hl. unfold is_char_boundary. rewrite Hl. cbn [Nat.leb Nat.eqb orb andb].
  cbn [mbind option_bind]. change (6 - 0)%nat with 6%nat. rewrite <- Hl at 1. cbn [str_drop].
  rewrite <- (str_app_nil_r (pad_int 6 us)) at 2. rewrite str_take_app.
  apply parse_i64_pad. lia.
Qed.

(** ** Clock terms *)

Lemma wrap64_congr a b : a mod 2 ^ 64 = b mod 2 ^ 64 -> wrap_signed 64 a = wrap_signed 64 b.
Proof. unfold wrap_signed. by intros ->. Qed.

Lemma wrap64_mod v : wrap_signed 64 v mod 2 ^ 64 = v mod 2 ^ 64.
Proof.
  unfold wrap_signed, to_signed. destruct (Z.ltb_spec (v mod 2 ^ 64) (2 ^ (64 - 1))).
  - apply Z.mod_mod. lia.
  - rewrite <- (Z.mod_add _ 1), Z.mul_1_l, Z.sub_add by lia. apply Z.mod_mod. lia.
Qed.

Lemma wrap64_add_l a b : wrap_signed 64 (wrap_signed 64 a + b) = wrap_signed 64 (a + b).
Proof. apply wrap64_congr. by rewrite <- Zplus_mod_idemp_l, wrap64_mod, Zplus_mod_idemp_l. Qed.

Lemma wrap64_add_r a b : wrap_signed 64 (a + wrap_signed 64 b) = wrap_signed 64 (a + b).
Proof. by rewrite Z.add_comm, wrap64_add_l, Z.add_comm. Qed.

Lemma wrap64_mul_r a b : wrap_signed 64 (a * wrap_signed 64 b) = wrap_signed 64 (a * b).
Proof. apply wrap64_congr. by rewrite <- Zmult_mod_idemp_r, wrap64_mod, Zmult_mod_idemp_r. Qed.

(** The seconds part of a clock text. *)
Definition sec_text (s us : Z) : string :=
  pad_int 2 s +:+ (if us =? 0 then "" else "." +:+ trim_zeros (pad_int 6 us)).

Lemma clock_seconds_back s us :
  0 <= s < 60 -> 0 <= us < 1000000 -> clock_seconds (sec_text s us) = Some (Some (s, us)).
Proof.
  intros Hs Hus. unfold sec_text, clock_seconds.
  destruct (pad_int_digits 2 s) as (Hd & _ & _); [lia|].
  destruct (Z.eqb_spec us 0) as [->|Hne].
  - rewrite str_app_nil_r, split_once_none, parse_i64_pad by (done || lia). done.
  - change ("." +:+ ?t) with (String "."%char t).
    rewrite split_once_digits, parse_i64_pad by (done || lia).
    pose proof (fraction_back us Hus) as Hf. cbn zeta in Hf.
    destruct (slice 0 6 _) as [f6|]; [|done]. cbn [mbind option_bind] in *. by rewrite Hf.
Qed.

Lemma format_clock_eq v :
  let a := Z.abs v in
  format_clock v =
  (if v <? 0 then "-" else "") +:+ pad_int 2 (a / 3600000000) +:+ ":" +:+
  pad_int 2 (a mod 3600000000 / 60000000) +:+ ":" +:+
  sec_text (a mod 60000000 / 1000000) (a mod 1000000).
Proof.
  cbn zeta. unfold format_clock, push_subsecond, sec_text.
  set (a := Z.abs v).
  assert (a mod 3600000000 mod 60000000 = a mod 60000000) as ->
    by (Z.div_mod_to_equations; lia).
  assert (a mod 60000000 mod 1000000 = a mod 1000000) as -> by (Z.div_mod_to_equations; lia).
  rewrite Z.quot_mul by lia. destruct (a mod 1000000 =? 0).
  - by rewrite str_app_nil_r.
  - by rewrite !str_app_assoc.
Qed.

Lemma sign_of_clock neg body :
  (exists c t, body = String c t /\ is_digit c = true) ->
  (match (if neg : bool then "-" else "") +:+ body with
   | String "-"%char r => (-1, r)
   | String "+"%char r => (1, r)
   | _ => (1, (if neg then "-" else "") +:+ body)
   end) = (if neg then -1 else 1, body).
Proof.
  intros (c & t & -> & Hc). destruct neg; [done|]. change ("" +:+ ?x) with x.
  by destruct c as [[] [] [] [] [] [] [] []].
Qed.

Lemma digits_head s t :
  digits_ok s = true -> s <> "" -> exists c u, s +:+ t = String c u /\ is_digit c = true.
Proof.
  destruct s as [|c s]; [done|]. cbn [digits_ok]. intros [Hc _]%andb_true_iff _.
  rewrite str_app_cons. eauto.
Qed.

Lemma digits_ok_trim c s : digits_ok s = true -> digits_ok (trim_end_char c s) = true.
Proof. rewrite <- (trim_end_repeat c s) at 1. rewrite digits_ok_app. by intros [? _]%andb_true_iff. Qed.

Lemma split_on_prefix c s t :
  digits_ok s = true -> is_digit c = false -> split_on c t = [t] -> split_on c (s +:+ t) = [s +:+ t].
Proof.
  intros Hs Hc Ht. induction s as [|d s IH]; [done|].
  cbn [digits_ok] in Hs. apply andb_prop in Hs as [Hd Hs]. rewrite str_app_cons. cbn [split_on].
  by rewrite IH, bool_decide_false by (done || by apply char_neq_digit).
Qed.

Lemma sec_text_no_colon s us :
  0 <= s -> 0 <= us -> split_on ":"%char (sec_text s us) = [sec_text s us].
Proof.
  intros Hs Hus. unfold sec_text. destruct (pad_int_digits 2 s) as (Hd & _ & _); [lia|].
  apply split_on_prefix; [done..|]. destruct (Z.eqb_spec us 0); [done|].
  change ("." +:+ ?x) with (String "."%char x). cbn [split_on].
  rewrite split_on_none; [done| |done]. apply digits_ok_trim, pad_int_digits. lia.
Qed.

Lemma colon_app t : ":" +:+ t = String ":"%char t.
Proof. done. Qed.

Lemma parse_clock_parts (neg : bool) h m s us :
  0 <= h <= 2562047788 -> 0 <= m < 60 -> 0 <= s < 60 -> 0 <= us < 1000000 ->
  parse_clock_term ((if neg then "-" else "") +:+ pad_int 2 h +:+ ":" +:+ pad_int 2 m +:+ ":" +:+
    sec_text s us) =
  Some (Some (wrap_signed 64 ((if neg then -1 else 1) *
    (h * 3600000000 + m * 60000000 + s * 1000000 + us)))).
Proof.
  intros Hh Hm Hs Hus. unfold parse_clock_term.
  destruct (pad_int_digits 2 h) as (Dh & Nh & _); [lia|].
  destruct (pad_int_digits 2 m) as (Dm & _ & _); [lia|].
  rewrite sign_of_clock by (by apply digits_head).
  rewrite !colon_app, split_on_digits, split_on_digits, sec_text_no_colon by (done || lia).
  cbn [lookup list_lookup mbind option_bind].
  rewrite !parse_i64_pad, clock_seconds_back by lia. cbn [length Nat.ltb Nat.leb mbind option_bind].
  do 2 f_equal. by rewrite (wrap64_add_r _ (m * _)), (wrap64_add_l (h * _)),
    (wrap64_add_r _ (s * _)), (wrap64_add_l (h * _ + _)), (wrap64_add_l (_ + s * _)), wrap64_mul_r.
Qed.

Lemma parse_format_clock v : i64_ok v -> parse_clock_term (format_clock v) = Some (Some v).
Proof.
  intros Hv. rewrite format_clock_eq. cbn zeta. set (a := Z.abs v).
  assert (0 <= a <= 9223372036854775808) by (unfold i64_ok in Hv; lia).
  rewrite parse_clock_parts by (Z.div_mod_to_equations; lia).
  do 2 f_equal.
  replace (_ * _) with v; [by apply wrap_signed_64_small|].
  assert (a = a / 3600000000 * 3600000000 + a mod 3600000000 / 60000000 * 60000000 +
    a mod 60000000 / 1000000 * 1000000 + a mod 1000000) as <- by (Z.div_mod_to_equations; lia).
  unfold a. destruct (Z.ltb_spec v 0); lia.
Qed.

(** ** Quantities and units *)

Lemma wrap128_small v : - 2 ^ 127 <= v < 2 ^ 127 -> wrap_signed 128 v = v.
Proof.
  intros Hv. unfold wrap_signed, to_signed. change (128 - 1) with 127.
  destruct (Z.ltb_spec (v mod 2 ^ 128) (2 ^ 127)); Z.div_mod_to_equations; lia.
Qed.

Lemma f64_as_i64_of_Z n : exact_int n -> f64_as_i64 (f64_of_Z n) = n.
Proof. intros. apply f64_as_int_of_Z; [done|]. unfold exact_int in *. lia. Qed.

Lemma find_colon_int n : find_char (fun d => bool_decide (d = ":"%char)) (z_to_string n) = None.
Proof.
  unfold z_to_string. destruct (Z.ltb_spec n 0).
  - change ("-" +:+ ?x) with (String "-"%char x). cbn [find_char].
    by rewrite find_char_none by (done || apply dec_string_digits; lia).
  - apply find_char_none; [apply dec_string_digits; lia|done].
Qed.

(** A whole quantity and its unit. *)
Lemma terms_quantity n unit rest a a' :
  n <> 0 -> accumulate_unit (f64_of_Z n) unit a = Some a' ->
  interval_terms (z_to_string n :: unit :: rest) a = interval_terms rest a'.
Proof.
  intros Hn Ha. cbn [interval_terms]. rewrite find_colon_int, bool_decide_false by (by intros []).
  by rewrite f64_parse_int, Ha.
Qed.

Lemma accumulate_year (n : Z) unit m d u :
  exact_int n -> to_ascii_lowercase (trim_end_char "s"%char unit) = "year" ->
  i64_ok (n * 12) -> i64_ok (m + n * 12) ->
  accumulate_unit (f64_of_Z n) unit (mkSum m d u) = Some (mkSum (m + n * 12) d u).
Proof.
  intros Hn Hu H1 H2. unfold accumulate_unit. rewrite Hu, f64_trunc_of_Z, f64_fract_of_Z by done.
  rewrite f64_as_i64_of_Z by (done || unfold i64_ok, exact_int in *; lia).
  change (one_of "year" ["year"; "yr"]) with true. cbv iota.
  replace (f64_as_i64 _) with 0 by (symmetry; vm_compute; reflexivity).
  unfold add_months. cbn [s_months s_days s_micros].
  rewrite (wrap_signed_64_small (n * 12)), (wrap_signed_64_small (m + n * 12)), Z.add_0_r by done.
  by rewrite wrap_signed_64_small.
Qed.

Lemma accumulate_month (n : Z) unit m d :
  exact_int n -> to_ascii_lowercase (trim_end_char "s"%char unit) = "mon" ->
  i64_ok n -> i64_ok (m + n) -> i64_ok d ->
  accumulate_unit (f64_of_Z n) unit (mkSum m d 0) = Some (mkSum (m + n) d 0).
Proof.
  intros Hn Hu H1 H2 H3. unfold accumulate_unit. rewrite Hu, f64_trunc_of_Z, f64_fract_of_Z by done.
  rewrite f64_as_i64_of_Z by (done || unfold i64_ok, exact_int in *; lia).
  change (one_of "mon" ["year"; "yr"]) with false.
  change (one_of "mon" ["month"; "mon"]) with true. cbv iota zeta.
  replace (scaled_i128 _ _) with 0 by (symmetry; vm_compute; reflexivity).
  replace (f64_as_i64 _) with 0 by (symmetry; vm_compute; reflexivity).
  unfold add_months, add_days, add_micros. cbn [s_months s_days s_micros].
  rewrite !Z.add_0_r, (wrap_signed_64_small (m + n)), (wrap_signed_64_small d) by done. done.
Qed.

Lemma accumulate_day (n : Z) unit m :
  exact_int n -> to_ascii_lowercase (trim_end_char "s"%char unit) = "day" -> i64_ok n ->
  accumulate_unit (f64_of_Z n) unit (mkSum m 0 0) = Some (mkSum m n 0).
Proof.
  intros Hn Hu H1. unfold accumulate_unit. rewrite Hu, f64_trunc_of_Z, f64_fract_of_Z by done.
  rewrite f64_as_i64_of_Z by (done || unfold i64_ok, exact_int in *; lia).
  change (one_of "day" ["year"; "yr"]) with false.
  change (one_of "day" ["month"; "mon"]) with false.
  change (one_of "day" ["week"; "wk"]) with false. change (one_of "day" ["day"]) with true.
  cbv iota zeta. replace (scaled_i128 _ _) with 0 by (symmetry; vm_compute; reflexivity).
  unfold add_days, add_micros. cbn [s_months s_days s_micros].
  rewrite Z.add_0_l, (wrap_signed_64_small n) by done. done.
Qed.

(** ** The printed words *)

Definition pair_words (p : string * string) : list string := [p.1; p.2].
Definition pair_text (p : string * string) : string := p.1 +:+ " " +:+ p.2.

Definition quantity_pairs (n : Z) (unit : string) : list (string * string) :=
  if n =? 0 then [] else [(z_to_string n, unit +:+ (if n =? 1 then "" else "s"))].

Lemma quantity_text n unit : quantity n unit = map pair_text (quantity_pairs n unit).
Proof. unfold quantity, quantity_pairs. by destruct (n =? 0). Qed.

Lemma str_join_pairs ps tl :
  str_join " " (map pair_text ps ++ tl) = str_join " " (flat_map pair_words ps ++ tl).
Proof.
  induction ps as [|[a b] ps IH]; [done|]. cbn [map flat_map pair_words app fst snd].
  destruct (map pair_text ps ++ tl) as [|x l] eqn:E.
  - apply app_eq_nil in E as [Ep ->]. by destruct ps.
  - assert (flat_map pair_words ps ++ tl <> []) as Hne.
    { destruct ps as [|[] ps]; [|done]. cbn in *. by subst. }
    rewrite (str_join_cons _ a) by done. rewrite (str_join_cons _ b), str_join_cons, IH by done.
    unfold pair_text. cbn [fst snd]. by rewrite !str_app_assoc.
Qed.

Definition interval_pairs (iv : Interval) : list (string * string) :=
  quantity_pairs (Z.quot (months iv) 12) "year" ++ quantity_pairs (Z.rem (months iv) 12) "mon" ++
  quantity_pairs (days iv) "day".

(** The words of the text. *)
Definition interval_words (iv : Interval) : list string :=
  match flat_map pair_words (interval_pairs iv) ++
        (if micros iv =? 0 then [] else [format_clock (micros iv)]) with
  | [] => ["00:00:00"]
  | l => l
  end.

Lemma interval_to_text_words iv : interval_to_text iv = str_join " " (interval_words iv).
Proof.
  unfold interval_to_text, interval_words. rewrite !quantity_text, !app_assoc, <- !map_app.
  rewrite <- (app_assoc (quantity_pairs _ _)). fold (interval_pairs iv).
  set (tl := if micros iv =? 0 then _ else _). rewrite str_join_pairs.
  destruct (interval_pairs iv) as [|p ps]; [by destruct tl|done].
Qed.

Lemma plain_digits s : digits_ok s = true -> plain_str s = true.
Proof.
  unfold plain_str. induction s as [|c s IH]; [done|]. cbn [digits_ok str_bytes forallb].
  intros [Hc Hs]%andb_true_iff. rewrite IH, andb_true_r by done.
  unfold is_digit, plain, in_range in *. lia.
Qed.

Lemma plain_str_app s t : plain_str (s +:+ t) = plain_str s && plain_str t.
Proof. unfold plain_str. by rewrite str_bytes_app, forallb_app. Qed.

Lemma word_app s t : word s = true -> plain_str t = true -> word (s +:+ t) = true.
Proof.
  unfold word. rewrite plain_str_app. intros [-> Hs]%andb_true_iff ->.
  destruct s; [by rewrite bool_decide_true in Hs|]. done.
Qed.

Lemma word_digits s : digits_ok s = true -> s <> "" -> word s = true.
Proof. intros. unfold word. by rewrite plain_digits, bool_decide_false. Qed.

Lemma word_int n : word (z_to_string n) = true.
Proof.
  unfold z_to_string. destruct (Z.ltb_spec n 0).
  - apply word_app; [done|]. apply plain_digits, dec_string_digits. lia.
  - apply word_digits; [apply dec_string_digits; lia|apply dec_string_nonempty].
Qed.

Lemma word_sec s us : 0 <= s -> 0 <= us -> plain_str (sec_text s us) = true.
Proof.
  intros. unfold sec_text. rewrite plain_str_app, plain_digits by (apply pad_int_digits; lia).
  destruct (us =? 0); [done|]. rewrite plain_str_app. cbn [andb].
  apply andb_true_intro. split; [done|]. apply plain_digits, digits_ok_trim, pad_int_digits. lia.
Qed.

Lemma word_clock v : word (format_clock v) = true.
Proof.
  rewrite format_clock_eq. cbn zeta. set (a := Z.abs v).
  assert (0 <= a) by lia.
  assert (forall w n, 0 <= n -> plain_str (pad_int w n) = true) as Hp
    by (intros; apply plain_digits, pad_int_digits; lia).
  assert (plain_str (":" +:+ pad_int 2 (a mod 3600000000 / 60000000) +:+ ":" +:+
    sec_text (a mod 60000000 / 1000000) (a mod 1000000)) = true).
  { rewrite !plain_str_app, Hp, word_sec; try done; Z.div_mod_to_equations; lia. }
  destruct (pad_int_digits 2 (a / 3600000000)) as (? & ? & _); [Z.div_mod_to_equations; lia|].
  destruct (v <? 0); [|change ("" +:+ ?x) with x];
    repeat apply word_app; auto using word_digits, plain_digits.
  rewrite plain_str_app, Hp; [done|Z.div_mod_to_equations; lia].
Qed.

Lemma words_ok iv : forallb word (interval_words iv) = true.
Proof.
  assert (forall n unit, word unit = true ->
    forallb word (flat_map pair_words (quantity_pairs n unit)) = true) as Hq.
  { intros n unit Hu. unfold quantity_pairs. destruct (n =? 0); [done|]. cbn [flat_map pair_words app forallb fst snd].
    rewrite word_int, word_app; [done|done|by destruct (n =? 1)]. }
  unfold interval_words, interval_pairs. rewrite !flat_map_app, <- !app_assoc.
  set (l := _ ++ _). assert (forallb word l = true) as Hl; [|by destruct l].
  unfold l. rewrite !forallb_app, !Hq by done. cbn [andb].
  destruct (micros iv =? 0); [done|]. cbn [forallb]. by rewrite word_clock.
Qed.

Lemma word_bytes s : word s = true -> str_bytes s <> [] /\ forallb plain (str_bytes s) = true.
Proof.
  unfold word, plain_str. intros [Hp Hn]%andb_true_iff. split; [|done].
  destruct s; [by rewrite bool_decide_true in Hn|done].
Qed.

(** A joined text starts and ends with a visible character. *)
Lemma join_ends l :
  l <> [] -> forallb word l = true ->
  let b := str_bytes (str_join " " l) in
  (exists c t, b = c :: t /\ plain c = true) /\ (exists d, last b = Some d /\ plain d = true) /\
  Forall (fun x => x < 128) b.
Proof.
  induction l as [|x l IH]; [done|]. intros _ [[Hn Hp]%word_bytes Hw]%andb_true_iff.
  assert (forall c, c ∈ str_bytes x -> plain c = true) as Hp'.
  { intros c Hc. eapply forallb_forall; [exact Hp|]. by apply list_elem_of_In. }
  assert (Forall (fun x => x < 128) (str_bytes x)) as Hx.
  { apply Forall_forall. intros c Hc%Hp'.
    unfold plain, in_range in Hc. lia. }
  assert (exists c t, str_bytes x = c :: t /\ plain c = true) as (c & t & Ec & Hc).
  { destruct (str_bytes x) as [|c t]; [done|]. cbn in Hp. apply andb_prop in Hp as [? _]. eauto. }
  destruct l as [|y l].
  - cbn [str_join]. split_and!; [eauto| |done].
    destruct (last (str_bytes x)) as [d|] eqn:E; [|by apply last_None in E].
    exists d. split; [done|]. apply Hp'. apply last_Some_elem_of in E. done.
  - destruct (IH ltac:(done) Hw) as (_ & (d & Ed & Hd) & Hl).
    rewrite str_join_cons by done. cbn zeta. rewrite !str_bytes_app. change (str_bytes " ") with [32].
    split_and!.
    + rewrite Ec. eauto.
    + exists d. split; [|done]. rewrite !last_app, Ed. done.
    + apply Forall_app; split; [done|]. apply Forall_app; split; [|done].
      by repeat constructor.
Qed.

Lemma trim_join l : l <> [] -> forallb word l = true -> trim (str_join " " l) = str_join " " l.
Proof.
  intros Hn Hw. destruct (join_ends l Hn Hw) as ((c & t & E & Hc) & (d & Ed & Hd) & Hl).
  apply (trim_plain_ends c t d Hc Hd); [|done|by rewrite <- E].
  cbn zeta in Hl. rewrite E in Hl. apply Forall_cons in Hl as [_ Hl]. by apply Forall_forall.
Qed.

(** Each part of the text adds its part of the interval. *)
Lemma terms_years y rest :
  Z.abs y <= 200000000 ->
  interval_terms (flat_map pair_words (quantity_pairs y "year") ++ rest) (mkSum 0 0 0) =
  interval_terms rest (mkSum (y * 12) 0 0).
Proof.
  intros Hy. unfold quantity_pairs. destruct (Z.eqb_spec y 0) as [->|Hne]; [done|].
  apply terms_quantity; [done|]. apply accumulate_year; [| |unfold i64_ok; lia..].
  - unfold exact_int. lia.
  - by destruct (y =? 1).
Qed.

Lemma terms_months y k rest :
  Z.abs y <= 200000000 -> Z.abs k < 12 ->
  interval_terms (flat_map pair_words (quantity_pairs k "mon") ++ rest) (mkSum (y * 12) 0 0) =
  interval_terms rest (mkSum (y * 12 + k) 0 0).
Proof.
  intros Hy Hk. unfold quantity_pairs. destruct (Z.eqb_spec k 0) as [->|Hne].
  { by rewrite Z.add_0_r. }
  apply terms_quantity; [done|]. apply accumulate_month; [| |unfold i64_ok; lia..].
  - unfold exact_int. lia.
  - by destruct (k =? 1).
Qed.

Lemma terms_days m d rest :
  i32_ok d ->
  interval_terms (flat_map pair_words (quantity_pairs d "day") ++ rest) (mkSum m 0 0) =
  interval_terms rest (mkSum m d 0).
Proof.
  unfold i32_ok. intros Hd. unfold quantity_pairs.
  destruct (Z.eqb_spec d 0) as [->|Hne]; [done|].
  apply terms_quantity; [done|]. apply accumulate_day; [| |unfold i64_ok; lia].
  - unfold exact_int. lia.
  - by destruct (d =? 1).
Qed.

Lemma find_colon_clock v :
  bool_decide (find_char (fun d => bool_decide (d = ":"%char)) (format_clock v) <> None) = true.
Proof.
  rewrite format_clock_eq. cbn zeta.
  destruct (pad_int_digits 2 (Z.abs v / 3600000000)) as (Hd & _ & _); [apply Z.div_pos; lia|].
  apply bool_decide_eq_true. rewrite colon_app. destruct (v <? 0).
  - change ("-" +:+ ?x) with (String "-"%char x). cbn [find_char].
    by rewrite find_char_digits.
  - change ("" +:+ ?x) with x. by rewrite find_char_digits.
Qed.

Lemma terms_clock m d u :
  i64_ok u -> interval_terms [format_clock u] (mkSum m d 0) = Some (Some (mkSum m d u)).
Proof.
  intros Hu. cbn [interval_terms]. rewrite find_colon_clock, parse_format_clock by done.
  cbn [mbind option_bind]. unfold add_micros. cbn [s_months s_days s_micros].
  rewrite Z.add_0_l, wrap128_small; [done|]. unfold i64_ok in Hu. lia.
Qed.

Lemma terms_words iv :
  interval_ok iv ->
  interval_terms (interval_words iv) (mkSum 0 0 0) =
  Some (Some (mkSum (months iv) (days iv) (micros iv))).
Proof.
  intros (Hm & Hd & Hu). unfold i32_ok in Hm.
  assert (Z.abs (Z.quot (months iv) 12) <= 200000000 /\ Z.abs (Z.rem (months iv) 12) < 12)
    as [Hy Hk] by (pose proof (Z.quot_rem' (months iv) 12);
                   pose proof (Z.rem_bound_abs (months iv) 12); lia).
  assert (interval_terms (flat_map pair_words (interval_pairs iv) ++
    (if micros iv =? 0 then [] else [format_clock (micros iv)])) (mkSum 0 0 0) =
    Some (Some (mkSum (months iv) (days iv) (micros iv)))) as E.
  { unfold interval_pairs. rewrite !flat_map_app, <- !app_assoc.
    rewrite terms_years, terms_months, terms_days by done.
    rewrite Z.mul_comm, <- Z.quot_rem'.
    destruct (Z.eqb_spec (micros iv) 0) as [->|_]; [done|]. by apply terms_clock. }
  unfold interval_words. destruct (_ ++ _) as [|w l] eqn:El; [|done].
  cbn in E. injection E as Em Ed Eu. rewrite <- Em, <- Ed, <- Eu. done.
Qed.

Lemma interval_words_nonempty iv : interval_words iv <> [].
Proof. unfold interval_words. by destruct (_ ++ _). Qed.

(** Every interval reads back from the text it is printed as, sign by sign and
    down to the microsecond: [parse_interval] inverts [interval_to_text]. *)
Theorem interval_text_round_trip (iv : Interval) :
  interval_ok iv -> parse_interval (interval_to_text iv) = Ok iv.
Proof.
  intros Hok. rewrite interval_to_text_words. pose proof (interval_words_nonempty iv) as Hne.
  pose proof (words_ok iv) as Hw. unfold parse_interval. rewrite trim_join by done.
  destruct (join_ends _ Hne Hw) as ((c & t & Eb & _) & _ & _).
  rewrite bool_decide_false by (intros E; by rewrite E in Eb).
  rewrite split_whitespace_join, terms_words by done. destruct Hok as (Hm & Hd & Hu).
  cbn -[checked_i32 checked_i64]. rewrite !checked_i32_ok, checked_i64_ok by done.
  by destruct iv.
Qed.

Lemma interval_text_round_trip_witness :
  parse_interval (interval_to_text (mkInterval (-14) 3 (-5000001))) = Ok (mkInterval (-14) 3 (-5000001)).
Proof. apply interval_text_round_trip. unfold interval_ok, i32_ok, i64_ok. cbn. lia. Defined.

(** ** The unit names *)

Lemma accumulate_minutes (n : Z) :
  exact_int n -> - 2 ^ 63 <= n * 60000000 < 2 ^ 63 ->
  accumulate_unit (f64_of_Z n) "ms" (mkSum 0 0 0) = Some (mkSum 0 0 (n * 60000000)).
Proof.
  intros Hn Hr. unfold accumulate_unit. rewrite f64_trunc_of_Z, f64_fract_of_Z, f64_as_i64_of_Z by done.
  change (to_ascii_lowercase (trim_end_char "s"%char "ms")) with "m".
  change (one_of "m" ["year"; "yr"]) with false. change (one_of "m" ["month"; "mon"]) with false.
  change (one_of "m" ["week"; "wk"]) with false. change (one_of "m" ["day"]) with false.
  change (one_of "m" ["hour"; "hr"; "h"]) with false.
  change (one_of "m" ["minute"; "min"; "m"]) with true.
  cbv iota zeta. replace (scaled_i128 _ _) with 0 by (symmetry; vm_compute; reflexivity).
  unfold add_micros. cbn [s_months s_days s_micros].
  rewrite Z.add_0_l, Z.add_0_r, !wrap128_small by (rewrite ?wrap128_small by lia; lia). done.
Qed.

(** The unit [ms] of an interval text means minutes: the code strips every
    trailing [s] before it compares the name, so [n ms] is read as [n] minutes,
    and the units [s] and [us], left as the empty text and [u], are refused. *)
Theorem interval_ms_is_minutes (n : Z) :
  n <> 0 -> exact_int n -> i64_ok (n * 60000000) ->
  parse_interval (z_to_string n +:+ " ms") = Ok (mkInterval 0 0 (n * 60000000)) /\
  forall unit, unit = "s" \/ unit = "us" ->
    parse_interval (z_to_string n +:+ " " +:+ unit) =
    Err (Raised (InvalidDatetimeFormat "interval" (z_to_string n +:+ " " +:+ unit))).
Proof.
  intros Hn He Hi.
  assert (forall unit, word unit = true ->
    trim (z_to_string n +:+ " " +:+ unit) = z_to_string n +:+ " " +:+ unit /\
    split_whitespace (z_to_string n +:+ " " +:+ unit) = [z_to_string n; unit] /\
    bool_decide (z_to_string n +:+ " " +:+ unit = "") = false) as Hsp.
  { intros unit Hu. change (z_to_string n +:+ " " +:+ unit) with (str_join " " [z_to_string n; unit]).
    assert (forallb word [z_to_string n; unit] = true) as Hw by (cbn; by rewrite word_int, Hu).
    split_and!; [by apply trim_join|by apply split_whitespace_join|].
    apply bool_decide_eq_false. intros E. destruct (join_ends [z_to_string n; unit]) as ((c & t & Eb & _) & _);
      [done..|]. by rewrite E in Eb. }
  split.
  - change (z_to_string n +:+ " ms") with (z_to_string n +:+ " " +:+ "ms").
    destruct (Hsp "ms") as (Ht & Hs & Hb); [done|]. unfold parse_interval. rewrite Ht, Hb, Hs.
    rewrite (terms_quantity _ _ [] _ (mkSum 0 0 (n * 60000000)));
      [|done|apply accumulate_minutes; [done|unfold i64_ok in Hi; lia]].
    cbn -[checked_i32 checked_i64]. by rewrite checked_i64_ok.
  - intros unit Hu. destruct (Hsp unit) as (Ht & Hs & Hb); [by destruct Hu; subst|].
    unfold parse_interval. rewrite Ht, Hb, Hs. cbn [interval_terms].
    rewrite find_colon_int, bool_decide_false by (by intros []). rewrite f64_parse_int by done.
    by destruct Hu; subst.
Qed.

Lemma interval_ms_is_minutes_witness :
  parse_interval "5 ms" = Ok (mkInterval 0 0 300000000).
Proof.
  apply (interval_ms_is_minutes 5); [lia|unfold exact_int; lia|unfold i64_ok; lia].
Defined.

(** ** Justified intervals

    [justify_interval] (pgtypes/src/datetime.rs) against its definition: the interval
    of whole 30-day months, days and microseconds that has the same length. *)
Definition USECS_PER_MONTH : Z := 30 * USECS_PER_DAY.

(** The months, days and microseconds of a length, rounded toward zero. *)
Definition justified (t : Z) : Z * Z * Z :=
  (Z.quot t USECS_PER_MONTH, Z.quot (Z.rem t USECS_PER_MONTH) USECS_PER_DAY, Z.rem t USECS_PER_DAY).

Local Ltac Zify.zify_post_hook ::= Z.to_euclidean_division_equations.

(** Fields that have one sign and are within their units are the justified ones. *)
Lemma justified_unique m d us :
  (0 <= m /\ 0 <= d < 30 /\ 0 <= us < USECS_PER_DAY) \/ (m <= 0 /\ -30 < d <= 0 /\ - USECS_PER_DAY < us <= 0) ->
  justified ((m * 30 + d) * USECS_PER_DAY + us) = (m, d, us).
Proof.
  intros Hs. unfold justified, USECS_PER_MONTH. unfold USECS_PER_DAY in *.
  f_equal; [f_equal|]; lia.
Qed.

(** The two steps that make the signs agree. *)
Definition settle_months (m d us : Z) : Z * Z :=
  if (0 <? m) && ((d <? 0) || ((d =? 0) && (us <? 0))) then (m - 1, d + 30)
  else if (m <? 0) && ((0 <? d) || ((d =? 0) && (0 <? us))) then (m + 1, d - 30)
  else (m, d).

Definition settle_days (d us : Z) : Z * Z :=
  if (0 <? d) && (us <? 0) then (d - 1, us + USECS_PER_DAY)
  else if (d <? 0) && (0 <? us) then (d + 1, us - USECS_PER_DAY)
  else (d, us).

Definition one_sign (m d us : Z) : Prop :=
  (0 <= m /\ 0 <= d < 30 /\ 0 <= us < USECS_PER_DAY) \/ (m <= 0 /\ -30 < d <= 0 /\ - USECS_PER_DAY < us <= 0).

Lemma settled m d us :
  -30 < d < 30 -> - USECS_PER_DAY < us < USECS_PER_DAY ->
  let '(m', d1) := settle_months m d us in
  let '(d', us') := settle_days d1 us in
  one_sign m' d' us' /\ (m' * 30 + d') * USECS_PER_DAY + us' = (m * 30 + d) * USECS_PER_DAY + us.
Proof.
  unfold settle_months, settle_days, one_sign, USECS_PER_DAY. intros Hd Hus.
  repeat case_match; simplify_eq; lia.
Qed.

(** [justify_interval] is division: it returns the whole 30-day months, the whole
    days of the rest and the microseconds left of the length of the interval (a month
    counted as 30 days and a day as 24 hours), all of one sign and each within its
    unit, and fails with interval-out-of-range exactly when the months do not fit 32
    bits; so intervals that compare equal are justified to the same interval. *)
Theorem justify_interval_is_division iv :
  let '(m, d, us) := justified (canonical_micros iv) in
  justify_interval iv = (m ← narrow_i32 "justify_interval" m; Ok (mkInterval m d us)) /\
  one_sign m d us /\ canonical_micros iv = (m * 30 + d) * USECS_PER_DAY + us.
Proof.
  unfold justify_interval. set (d0 := days iv + Z.quot (micros iv) USECS_PER_DAY).
  set (us := Z.rem (micros iv) USECS_PER_DAY). set (m := months iv + Z.quot d0 30). set (d := Z.rem d0 30).
  fold (settle_months m d us).
  assert (canonical_micros iv = (m * 30 + d) * USECS_PER_DAY + us) as Ht.
  { unfold canonical_micros, m, d, d0, us, USECS_PER_DAY. lia. }
  pose proof (settled m d us ltac:(unfold d; lia) ltac:(unfold us, USECS_PER_DAY; lia)) as Hs.
  destruct (settle_months m d us) as [m' d1]. fold (settle_days d1 us).
  destruct (settle_days d1 us) as [d' us']. destruct Hs as [Hs Ht'].
  rewrite Ht, <- Ht', justified_unique by exact Hs. split_and!; [|done|done].
  assert (narrow_i32 "justify_interval" d' = Ok d') as ->; [|done].
  unfold narrow_i32, checked_i32. unfold one_sign in Hs. rewrite decide_True by width_lia. done.
Qed.
