(* ===== verification/Grouping.v ===== *)
(** * GROUP BY

    The hash aggregation of executor/src/agg.rs against its definition: one group per
    distinct key, in the order the keys appear, each aggregated over its rows. *)
From Stdlib Require Import ZArith Lia Ascii.
From stdpp Require Import base list gmap strings.
From S2P Require Import Prelude Text Chars Keys Store Datum Float DateTimeBin ExtModel ExtArith.
From S2P Require Import DateTime LibModel Calendar Numeric NumericFn Ops Cast Errors Catalog Scope.
From S2P Require Import Ast AggCall EvalOps Func DateTimeFn FormatFn Eval Wire Project Join Aggregate SetOps.
Open Scope Z_scope.

Lemma foldM_app {E A S} (f : S -> A -> result E S) s l l' :
  foldM f s (l ++ l') = (s ← foldM f s l; foldM f s l').
Proof. revert s. induction l as [|x l IH]; intros s; simpl; [done|]. destruct (f s x); simpl; auto. Qed.

Section Grouping.
Context `{ExtCal} `{MathLib} `{Unicode} `{!ExtPow} `{!ExtLaws}.

(** Keys that are pairwise different. *)
Inductive distinct_keys : list Row -> Prop :=
| distinct_nil : distinct_keys []
| distinct_cons k ks :
    (forall k', In k' ks -> row_eqb k k' = false) -> distinct_keys ks -> distinct_keys (k :: ks).

Lemma dedup_on_snoc seen (l : list Row) x :
  dedup_on id seen (l ++ [x]) =
  if existsb (row_eqb x) (seen ++ dedup_on id seen l) then dedup_on id seen l
  else dedup_on id seen l ++ [x].
Proof.
  revert seen. induction l as [|y l IH]; intros seen; simpl.
  - rewrite app_nil_r. by destruct (existsb (row_eqb x) seen).
  - destruct (existsb (row_eqb y) seen); [apply IH|]. rewrite IH.
    assert (existsb (row_eqb x) ((y :: seen) ++ dedup_on id (y :: seen) l) =
            existsb (row_eqb x) (seen ++ y :: dedup_on id (y :: seen) l)) as ->.
    { simpl. rewrite !existsb_app. simpl. destruct (row_eqb x y), (existsb (row_eqb x) seen); done. }
    by destruct (existsb _ _).
Qed.

Lemma dedup_on_fresh seen (l : list Row) k : In k (dedup_on id seen l) -> existsb (row_eqb k) seen = false.
Proof.
  revert seen. induction l as [|y l IH]; intros seen; simpl; [done|].
  destruct (existsb (row_eqb y) seen) eqn:E; [apply IH|]. intros [<-|Hin]; [done|].
  apply IH in Hin. simpl in Hin. by apply orb_false_iff in Hin as [_ ?].
Qed.

Lemma dedup_on_distinct seen (l : list Row) : distinct_keys (dedup_on id seen l).
Proof.
  revert seen. induction l as [|y l IH]; intros seen; simpl; [constructor|].
  destruct (existsb (row_eqb y) seen); [done|]. constructor; [|done].
  intros k' Hk. apply dedup_on_fresh in Hk. simpl in Hk.
  apply orb_false_iff in Hk as [Hk _]. by rewrite row_eqb_comm.
Qed.

Section Groups.
Context (specs : list AggSpec) (scope : Scope) (ctx : EvalCtx) (key : Row -> Row).

(** The accumulators of a list of rows. *)
Definition aggregate_of (rows : list Row) : xresult (list AccSeen) :=
  foldM (fun accs row => fold_group specs scope row ctx accs) (map acc_new specs) rows.

Definition rows_of_key (k : Row) (rows : list Row) : list Row := List.filter (fun r => row_eqb k (key r)) rows.

Definition groups_ok (rows : list Row) (groups : list Group) : Prop :=
  Forall (fun g : Group => aggregate_of (rows_of_key g.1 rows) = Ok g.2) groups.

Lemma rows_of_key_snoc k rows row :
  rows_of_key k (rows ++ [row]) = rows_of_key k rows ++ (if row_eqb k (key row) then [row] else []).
Proof. unfold rows_of_key. by rewrite List.filter_app. Qed.

(** A row that belongs to none of the groups leaves them as they are. *)
Lemma groups_ok_other rows row groups :
  groups_ok rows groups -> (forall k, In k (map fst groups) -> row_eqb k (key row) = false) ->
  groups_ok (rows ++ [row]) groups.
Proof.
  intros Hg Hk. unfold groups_ok in *. rewrite Forall_forall in Hg |- *. intros g Hin.
  rewrite rows_of_key_snoc, Hk by (by apply in_map, list_elem_of_In). rewrite app_nil_r. by apply Hg.
Qed.

Lemma update_group_ok rows row groups groups' :
  groups_ok rows groups -> distinct_keys (map fst groups) ->
  (existsb (row_eqb (key row)) (map fst groups) = false -> rows_of_key (key row) rows = []) ->
  update_group specs scope row ctx (key row) groups = Ok groups' ->
  map fst groups' =
    (if existsb (row_eqb (key row)) (map fst groups) then map fst groups else map fst groups ++ [key row]) /\
  groups_ok (rows ++ [row]) groups'.
Proof.
  intros Hg Hd Hnew. revert groups'. induction groups as [|[k accs] groups IH]; intros groups' Hu; simpl in Hu.
  - apply bind_Ok in Hu as (accs & Ha & Hu). injection Hu as <-. split; [done|].
    constructor; [|constructor]. simpl. rewrite rows_of_key_snoc, Hnew, row_eqb_refl by done. simpl.
    unfold aggregate_of. simpl. by rewrite Ha.
  - apply Forall_cons in Hg as [Hk Hg]. inversion_clear Hd as [|? ? Hdk Hd'].
    destruct (row_eqb k (key row)) eqn:E.
    + apply bind_Ok in Hu as (accs' & Ha & Hu). injection Hu as <-. simpl.
      rewrite row_eqb_comm, E. split; [done|]. constructor.
      * simpl in *. rewrite rows_of_key_snoc, E. unfold aggregate_of in *. rewrite foldM_app, Hk. simpl.
        by rewrite Ha.
      * apply groups_ok_other; [done|]. intros k' Hk'. rewrite <- (row_eqb_congr k (key row) k' E).
        rewrite row_eqb_comm. by apply Hdk.
    + apply bind_Ok in Hu as (gs & Hgs & Hu). injection Hu as <-. simpl in Hnew |- *.
      rewrite row_eqb_comm, E in Hnew |- *. simpl in Hnew |- *.
      destruct (IH Hg Hd' Hnew gs Hgs) as [Hm Ho]. split.
      * rewrite Hm. by destruct (existsb _ _).
      * constructor; [|done]. simpl in *. by rewrite rows_of_key_snoc, E, app_nil_r.
Qed.

Lemma no_rows_of_new_key rows k :
  existsb (row_eqb k) (dedup_on id [] (map key rows)) = false -> rows_of_key k rows = [].
Proof.
  intros He. destruct (rows_of_key k rows) as [|r l] eqn:Er; [done|]. exfalso.
  assert (In r (rows_of_key k rows)) as Hr by (rewrite Er; by left).
  apply filter_In in Hr as [Hr Hk].
  assert (row_count (dedup_on id [] (map key rows)) k = 0%nat) as Hc.
  { unfold row_count. destruct (List.filter (row_eqb k) _) as [|x xs] eqn:Ex; [done|].
    assert (In x (List.filter (row_eqb k) (dedup_on id [] (map key rows)))) as Hx by (rewrite Ex; by left).
    apply filter_In in Hx as [Hx Hkx].
    assert (existsb (row_eqb k) (dedup_on id [] (map key rows)) = true); [|congruence].
    apply existsb_exists. by exists x. }
  rewrite dedup_on_count in Hc. cbn [existsb] in Hc.
  assert (row_count (map key rows) k <> 0%nat) as Hn; [|lia].
  unfold row_count. intros Hz. apply length_zero_iff_nil in Hz.
  assert (In (key r) (List.filter (fun r => row_eqb k r) (map key rows))) as Hin
    by (apply filter_In; split; [by apply in_map|done]).
  unfold Row in *. by rewrite Hz in Hin.
Qed.

Lemma fold_groups_ok rows groups :
  foldM (fun groups row => update_group specs scope row ctx (key row) groups) [] rows = Ok groups ->
  map fst groups = dedup_on id [] (map key rows) /\ groups_ok rows groups.
Proof.
  revert groups. induction rows as [|row rows IH] using rev_ind; intros groups Hf.
  { injection Hf as <-. split; [done|constructor]. }
  rewrite foldM_app in Hf. apply bind_Ok in Hf as (gs & Hgs & Hf). simpl in Hf.
  apply bind_Ok in Hf as (gs' & Hu & Hf). injection Hf as <-.
  destruct (IH gs Hgs) as [Hk Hg].
  destruct (update_group_ok rows row gs gs' Hg) as [Hm Ho]; [|rewrite Hk; apply no_rows_of_new_key|done|].
  { rewrite Hk. apply dedup_on_distinct. }
  split; [|done]. rewrite Hm, Hk, map_app. simpl. rewrite dedup_on_snoc. simpl. by destruct (existsb _ _).
Qed.

End Groups.

(** C37: GROUP BY makes one group per distinct key, in the order in which the keys
    first appear (keys are the same when their values are not distinct, so NULLs
    group together), and the accumulators of a group are those of a fold over
    exactly the rows with its key, in their order; without GROUP BY there is one
    group, also over no rows. *)
Theorem group_by_correct group_by specs scope ctx (key : Row -> Row) rows groups :
  (forall row, In row rows -> mapR (fun g => eval g scope row ctx) group_by = Ok (key row)) ->
  fold_groups group_by specs scope ctx rows = Ok groups ->
  map fst groups =
    (match group_by, rows with [], [] => [[]] | _, _ => dedup_on id [] (map key rows) end) /\
  Forall (fun g => aggregate_of specs scope ctx (rows_of_key key g.1 rows) = Ok g.2) groups.
Proof.
  intros Hkey Hf. unfold fold_groups in Hf. apply bind_Ok in Hf as (gs & Hgs & Hf).
  rewrite (foldM_ext _ (fun groups row => update_group specs scope row ctx (key row) groups)) in Hgs.
  2: { intros g row Hr. rewrite Hkey; [done|]. by apply list_elem_of_In. }
  destruct (fold_groups_ok specs scope ctx key rows gs Hgs) as [Hk Hg]. injection Hf as <-.
  destruct group_by as [|e group_by]; [|by destruct rows].
  destruct gs as [|g gs]; [|by destruct rows].
  destruct rows as [|row rows]; [|done]. split; [done|]. constructor; [done|constructor].
Qed.

End Grouping.

(** [SELECT count( * ) ... GROUP BY k] over the keys 1, NULL, 1, NULL, NULL *)
Definition sample_groups : list Group :=
  [([DInt4 1], [(AccCount 2, None)]); ([DNull], [(AccCount 3, None)])].

Lemma group_by_correct_witness :
  map fst sample_groups = dedup_on id [] [[DInt4 1]; [DNull]; [DInt4 1]; [DNull]; [DNull]].
Proof.
  exact (proj1 (group_by_correct [ColumnRef None "k"] [mkSpec AgCount None None false]
    [mkBinding None "k" TInt4] epoch_ctx id [[DInt4 1]; [DNull]; [DInt4 1]; [DNull]; [DNull]] sample_groups
    ltac:(simpl; intros row Hr; destruct Hr as [<-|[<-|[<-|[<-|[<-|[]]]]]]; reflexivity)
    ltac:(reflexivity))).
Defined.
