(* ===== verification/TypeSim.v ===== *)
(** * Expressions of the same type

    The passes over a query rewrite its expressions: subqueries become constants,
    typed when the query is described and valued when it runs. The relation [erel]
    holds of two rewritings of one expression, and inference gives them types that
    look the same on the wire. *)
From Stdlib Require Import ZArith Lia Ascii.
From stdpp Require Import base list gmap strings.
From S2P Require Import Prelude Text Chars Keys Store Datum Float DateTimeBin ExtArith DateTime.
From S2P Require Import Calendar Numeric NumericFn Ops Cast Errors Catalog Scope Ast AggCall.
From S2P Require Import EvalOps Func DateTimeFn FormatFn Eval.
Open Scope Z_scope.

(** ** Results related when both succeed *)

Definition rel_ok {E A B} (R : A -> B -> Prop) (x : result E A) (y : result E B) : Prop :=
  forall a b, x = Ok a -> y = Ok b -> R a b.

Create HintDb rel.

Lemma rel_ret {E A B} (R : A -> B -> Prop) a b : R a b -> rel_ok (E:=E) R (Ok a) (Ok b).
Proof. by intros ? ? ? [= <-] [= <-]. Qed.

Lemma rel_err_l {E A B} (R : A -> B -> Prop) e y : rel_ok (E:=E) R (Err e) y.
Proof. by intros ? ? ?. Qed.

Lemma rel_err_r {E A B} (R : A -> B -> Prop) x e : rel_ok (E:=E) R x (Err e).
Proof. by intros ? ? _ ?. Qed.

Lemma rel_bind {E A B C D} (R : A -> B -> Prop) (S : C -> D -> Prop)
    (x : result E A) (y : result E B) (f : A -> result E C) (g : B -> result E D) :
  rel_ok R x y -> (forall a b, R a b -> rel_ok S (f a) (g b)) -> rel_ok S (x ≫= f) (y ≫= g).
Proof.
  intros Hxy Hfg c d Hc Hd. apply bind_Ok in Hc as (a & Ha & Hc). apply bind_Ok in Hd as (b & Hb & Hd).
  exact (Hfg a b (Hxy a b Ha Hb) c d Hc Hd).
Qed.

Lemma rel_unit {E} (x y : result E ()) : rel_ok eq x y.
Proof. by intros [] [] _ _. Qed.

Lemma rel_refl {E A} (x : result E A) : rel_ok eq x x.
Proof. intros a b -> [= <-]. done. Qed.

Lemma rel_lift {E A B} (R : A -> B -> Prop) (x : result E A) (y : result E B) :
  rel_ok R x y -> rel_ok R (lift x) (lift y).
Proof. intros Hr a b. destruct x, y; try done. intros [= <-] [= <-]. by apply Hr. Qed.

#[export] Hint Resolve rel_unit | 0 : rel.
#[export] Hint Resolve rel_refl | 5 : rel.

(** Lists related element by element, as a function of the first. *)
Section All2.
Context {A B : Type} (R : A -> B -> Prop).

Fixpoint all2 (l : list A) (l' : list B) : Prop :=
  match l, l' with
  | [], [] => True
  | x :: l, y :: l' => R x y /\ all2 l l'
  | _, _ => False
  end.

Lemma all2_Forall2 l l' : all2 l l' <-> Forall2 R l l'.
Proof.
  split.
  - revert l'; induction l as [|x l IH]; intros [|y l']; simpl; try done.
    intros [? ?]. constructor; auto.
  - induction 1; simpl; auto.
Qed.

End All2.

Lemma rel_mapR {E A A' B B'} (R : A -> A' -> Prop) (S : B -> B' -> Prop)
    (f : A -> result E B) (g : A' -> result E B') l l' :
  Forall2 R l l' -> (forall a a', a ∈ l -> R a a' -> rel_ok S (f a) (g a')) ->
  rel_ok (Forall2 S) (mapR f l) (mapR g l').
Proof.
  intros Hl. induction Hl as [|a a' l l' Ha Hl IH]; intros Hfg; simpl.
  { by apply rel_ret. }
  eapply rel_bind; [apply Hfg; [set_solver|done]|]. intros b b' Hb.
  eapply rel_bind; [apply IH; intros; apply Hfg; [set_solver|done]|]. intros bs bs' Hbs.
  apply rel_ret. by constructor.
Qed.

Lemma rel_mapR_same {E A B B'} (S : B -> B' -> Prop) (f : A -> result E B) (g : A -> result E B') l :
  (forall a, a ∈ l -> rel_ok S (f a) (g a)) -> rel_ok (Forall2 S) (mapR f l) (mapR g l).
Proof.
  intros Hfg. apply (rel_mapR (fun a a' => a = a')); [clear Hfg; by induction l; constructor|].
  intros a a' Ha <-. auto.
Qed.

Lemma Forall2_impl_elem {A B} (R S : A -> B -> Prop) l l' :
  Forall2 R l l' -> (forall a b, a ∈ l -> R a b -> S a b) -> Forall2 S l l'.
Proof. induction 1; intros Hs; constructor; [apply Hs|apply IHForall2; intros; apply Hs]; set_solver. Qed.

Lemma rel_foldM {E A A' S S'} (R : A -> A' -> Prop) (T : S -> S' -> Prop)
    (f : S -> A -> result E S) (g : S' -> A' -> result E S') l l' s s' :
  Forall2 R l l' -> T s s' ->
  (forall s s' a a', a ∈ l -> T s s' -> R a a' -> rel_ok T (f s a) (g s' a')) ->
  rel_ok T (foldM f s l) (foldM g s' l').
Proof.
  intros Hl. revert s s'. induction Hl as [|a a' l l' Ha Hl IH]; intros s s' Hs Hfg; simpl.
  { by apply rel_ret. }
  eapply rel_bind; [apply Hfg; [set_solver|done|done]|]. intros t t' Ht.
  apply IH; [done|]. intros. apply Hfg; [set_solver|done|done].
Qed.

Lemma rel_foldM_same {E A S S'} (T : S -> S' -> Prop) (f : S -> A -> result E S)
    (g : S' -> A -> result E S') l s s' :
  T s s' -> (forall s s' a, a ∈ l -> T s s' -> rel_ok T (f s a) (g s' a)) ->
  rel_ok T (foldM f s l) (foldM g s' l).
Proof.
  intros Hs Hfg. apply (rel_foldM (fun a a' => a = a') T); [clear; by induction l; constructor|done|].
  intros t t' a a' Ha Ht <-. auto.
Qed.

(** ** Types that differ in the modifier of a numeric only *)

Definition ty_sim (t u : ColumnType) : Prop :=
  match t, u with TNumeric _, TNumeric _ => True | _, _ => t = u end.

#[export] Instance ty_sim_equiv : Equivalence ty_sim.
Proof.
  split.
  - by intros [].
  - by intros [] []; simpl.
  - by intros [] [] []; simpl.
Qed.

Lemma ty_sim_oid t u : ty_sim t u <-> oid t = oid u.
Proof. destruct t, u; simpl; split; intros; try done; lia. Qed.

#[export] Hint Extern 0 (ty_sim _ _) => done : rel.

(** Decide what a pair of related types allows. *)
Ltac sim_types :=
  repeat match goal with
    | S : ty_sim ?t ?u |- _ => destruct t, u; simpl in S; try discriminate S; clear S
    end.

Lemma unify_types_sim a a' b b' :
  ty_sim a a' -> ty_sim b b' -> rel_ok ty_sim (unify_types a b) (unify_types a' b').
Proof.
  intros Ha Hb x y. unfold unify_types. sim_types; simpl; intros Hx Hy;
    repeat case_bool_decide; simpl in *; simplify_eq; try done; by destruct (bool_decide _).
Qed.

Lemma numeric_result_type_sim a a' b b' :
  ty_sim a a' -> ty_sim b b' -> ty_sim (numeric_result_type a b) (numeric_result_type a' b').
Proof. intros Ha Hb. unfold numeric_result_type. by sim_types. Qed.

Lemma datetime_result_type_sim op a a' b b' :
  ty_sim a a' -> ty_sim b b' -> datetime_result_type op a b = datetime_result_type op a' b'.
Proof. intros Ha Hb. unfold datetime_result_type. by sim_types. Qed.

(** Scopes with the same names, qualifiers and types on the wire. *)
Definition binding_sim (c d : ColumnBinding) : Prop :=
  b_qualifier c = b_qualifier d /\ b_name c = b_name d /\ ty_sim (b_ty c) (b_ty d).

Definition scope_sim (s s' : Scope) : Prop := Forall2 binding_sim s s'.

Lemma scope_sim_refl s : scope_sim s s.
Proof. unfold scope_sim. induction s; constructor; auto. split_and!; done. Qed.

Lemma resolve_loop_sim q name i s s' found :
  scope_sim s s' -> resolve_loop q name i s found = resolve_loop q name i s' found.
Proof.
  intros Hs. revert i found. induction Hs as [|c d s s' (Hq & Hn & _) Hs IH]; intros i found; [done|].
  simpl. unfold binding_matches, has_qualifier. rewrite Hq, Hn.
  destruct (_ && _); [destruct found|]; auto.
Qed.

Lemma has_qualifier_sim q s s' :
  scope_sim s s' -> existsb (has_qualifier q) s = existsb (has_qualifier q) s'.
Proof.
  induction 1 as [|c d s s' (Hq & _) Hs IH]; [done|]. simpl. unfold has_qualifier at 1 3.
  by rewrite Hq, IH.
Qed.

Lemma resolve_sim s s' q name : scope_sim s s' -> resolve s q name = resolve s' q name.
Proof.
  intros Hs. unfold resolve. rewrite (resolve_loop_sim q name 0 s s' None Hs).
  destruct q as [q|]; [|done]. by rewrite (has_qualifier_sim q s s' Hs).
Qed.

Lemma ty_at_sim {E} s s' i :
  scope_sim s s' -> rel_ok (E:=fault E) ty_sim (panic_or (ty_at s i)) (panic_or (ty_at s' i)).
Proof.
  intros Hs a b. unfold ty_at, panic_or.
  destruct (s !! i) as [c|] eqn:Ec, (s' !! i) as [d|] eqn:Ed; simpl; try done.
  intros [= <-] [= <-]. by destruct (Forall2_lookup_lr _ _ _ _ _ _ Hs Ec Ed) as (_ & _ & ?).
Qed.

Section ExprSim.
Context `{ExtCal} `{MathLib} `{Unicode} `{!ExtPow}.

(** Operators whose result type comes from their operands. *)
Definition typed_op (op : BinaryOp) : bool :=
  match op with OpAdd | OpSub | OpMul | OpDiv | OpConcat => true | _ => false end.

(** Expressions that are boolean whatever their parts are. *)
Definition bool_node (e : Expr) : bool :=
  match e with
  | Unary UNot _ | IsNull _ _ | InList _ _ _ | Between _ _ _ _ | Like _ _ _ _
  | ExistsQuery _ | InSubquery _ _ _ | Quantified _ _ _ _ | Const _ TBool => true
  | Binary op _ _ => negb (typed_op op)
  | _ => false
  end.

(** Two rewritings of one expression. A scalar subquery that is left in the first
    has no type there, and is a constant of any type in the second. *)
Fixpoint erel (e e' : Expr) {struct e} : Prop :=
  match e with
  | Const _ t => match e' with Const _ t' => ty_sim t t' | _ => False end
  | ScalarSubquery _ => match e' with Const _ _ | ScalarSubquery _ => True | _ => False end
  | Unary UNeg x => match e' with Unary UNeg x' => erel x x' | _ => False end
  | Binary op l r =>
      if typed_op op then
        match e' with Binary op' l' r' => op' = op /\ erel l l' /\ erel r r' | _ => False end
      else bool_node e' = true
  | Func name distinct args =>
      match e' with
      | Func name' distinct' args' => name' = name /\ distinct' = distinct /\ args_rel args args'
      | _ => False
      end
  | Case _ whens else_result =>
      match e' with
      | Case _ whens' else_result' =>
          all2 (fun w w' => erel w.2 w'.2) whens whens' /\
          match else_result, else_result' with
          | Some x, Some x' => erel x x'
          | None, None => True
          | _, _ => False
          end
      | _ => False
      end
  | Cast x t => match e' with Cast x' t' => t' = t /\ erel x x' | _ => False end
  | IntLiteral _ | NumericLiteral _ | StringLiteral _ | BoolLiteral _ | NullLiteral
  | ColumnRef _ _ | ParamRef _ => e' = e
  | _ => bool_node e' = true
  end
with args_rel (a a' : FuncArgs) {struct a} : Prop :=
  match a, a' with
  | ArgStar, ArgStar => True
  | ArgExprs l, ArgExprs l' => all2 erel l l'
  | _, _ => False
  end.

Lemma erel_null e e' : erel e e' -> e = NullLiteral <-> e' = NullLiteral.
Proof.
  intros He. split; intros ->; [by simpl in He|]. destruct e; simpl in He; repeat case_match; done.
Qed.

Lemma bool_node_type f scope e : bool_node e = true -> infer_step f scope e = Ok TBool.
Proof. destruct e; simpl; try done; repeat case_match; try done. Qed.

(** ** Inference on related expressions *)

Definition option_sim (a b : option ColumnType) : Prop :=
  match a, b with Some t, Some u => ty_sim t u | None, None => True | _, _ => False end.

Section Infer.
Context (f g : Expr -> xresult ColumnType).

(** Related arguments have related types. *)
Definition infers (e e' : Expr) : Prop := erel e e' /\ rel_ok ty_sim (f e) (g e').

Lemma unify_branch_rel acc acc' e e' :
  option_sim acc acc' -> infers e e' -> rel_ok option_sim (unify_branch f acc e) (unify_branch g acc' e').
Proof.
  intros Hacc [He Hi].
  assert (forall acc e, e <> NullLiteral -> forall h, unify_branch h acc e =
    (t ← h e; match acc with None => Ok (Some t) | Some a => u ← lift (unify_types a t); Ok (Some u) end))
    as Hu by (by intros a []).
  assert (e = NullLiteral \/ e <> NullLiteral) as [->|Hn] by (destruct e; auto).
  { rewrite (proj1 (erel_null _ _ He) eq_refl). by apply rel_ret. }
  rewrite !Hu by (rewrite <- ?(erel_null _ _ He); done).
  eapply rel_bind; [done|]. intros t u Htu. destruct acc as [a|], acc' as [a'|]; try done.
  - eapply rel_bind; [by apply rel_lift, unify_types_sim|]. intros. by apply rel_ret.
  - by apply rel_ret.
Qed.

Lemma arg_at_rel args args' i :
  Forall2 infers args args' -> rel_ok infers (arg_at args i) (arg_at args' i).
Proof.
  intros Ha a b. unfold arg_at, panic_or.
  destruct (args !! i) eqn:E, (args' !! i) eqn:E'; try done. intros [= <-] [= <-].
  by eapply Forall2_lookup_lr.
Qed.

Lemma require_numeric_rel a a' :
  infers a a' -> rel_ok ty_sim (require_numeric f a) (require_numeric g a').
Proof.
  intros [_ Hi]. unfold require_numeric. eapply rel_bind; [done|]. intros t u Htu.
  repeat case_match; try apply rel_err_l; try apply rel_err_r. by apply rel_ret.
Qed.

Lemma require_int_or_numeric_rel a a' :
  infers a a' -> rel_ok ty_sim (require_int_or_numeric f a) (require_int_or_numeric g a').
Proof.
  intros [_ Hi]. unfold require_int_or_numeric. eapply rel_bind; [done|]. intros t u Htu.
  repeat case_match; try apply rel_err_l; try apply rel_err_r. by apply rel_ret.
Qed.

Lemma require_int_rel a a' : infers a a' -> rel_ok ty_sim (require_int f a) (require_int g a').
Proof.
  intros [_ Hi]. unfold require_int. eapply rel_bind; [done|]. intros t u Htu.
  repeat case_match; try apply rel_err_l; try apply rel_err_r. by apply rel_ret.
Qed.

Lemma infers_type a a' : infers a a' -> rel_ok ty_sim (f a) (g a').
Proof. by intros []. Qed.

(** The type of the first argument of [nullif]. *)
Lemma nullif_rel a a' :
  infers a a' ->
  rel_ok ty_sim (match a with NullLiteral => Ok TText | _ => f a end)
    (match a' with NullLiteral => Ok TText | _ => g a' end).
Proof.
  intros [He Hi]. pose proof (erel_null _ _ He) as Hn.
  destruct a; try (rewrite (proj1 Hn eq_refl); by apply rel_ret);
    destruct a'; first [done | by specialize (proj2 Hn eq_refl)].
Qed.

End Infer.

Hint Resolve arg_at_rel require_numeric_rel require_int_rel require_int_or_numeric_rel infers_type nullif_rel : rel.

Lemma promote_sim a a' b b' : ty_sim a a' -> ty_sim b b' -> ty_sim (promote a b) (promote a' b').
Proof. intros Ha Hb. by sim_types. Qed.

Lemma power_result_type_sim a a' b b' :
  ty_sim a a' -> ty_sim b b' -> ty_sim (power_result_type a b) (power_result_type a' b').
Proof. intros Ha Hb. by sim_types. Qed.

(** Step through two runs of a result type in parallel. *)
Ltac rel_types :=
  repeat first
    [ apply rel_err_l | apply rel_err_r
    | apply rel_ret; first [done | by auto using promote_sim, power_result_type_sim | by sim_types]
    | solve [eauto with rel]
    | eapply rel_bind; [solve [eauto with rel]|]; intros
    | case_match ].

Lemma scalar_result_type_rel f g name distinct args args' :
  Forall2 (infers f g) args args' ->
  rel_ok ty_sim (scalar_result_type f (unify_branch f) (mkFuncCall name distinct (ArgExprs args)))
    (scalar_result_type g (unify_branch g) (mkFuncCall name distinct (ArgExprs args'))).
Proof.
  intros Ha. unfold scalar_result_type, checked_args, exprs_of. simpl.
  eapply rel_bind; [apply rel_refl|]. intros s _ <-. destruct distinct; [apply rel_err_l|]. simpl.
  rewrite <- (Forall2_length _ _ _ Ha).
  assert (rel_ok ty_sim (unify_args (unify_branch f) args) (unify_args (unify_branch g) args')) as Hu.
  { unfold unify_args. eapply rel_bind.
    - eapply (rel_foldM _ option_sim); [done|done|]. intros. by apply unify_branch_rel.
    - intros [a|] [b|] Hab; try done; by apply rel_ret. }
  destruct s; rel_types.
Qed.

Lemma datetime_func_result_type_rel f g name distinct args args' :
  Forall2 (infers f g) args args' ->
  rel_ok ty_sim (datetime_func_result_type f (mkFuncCall name distinct (ArgExprs args)))
    (datetime_func_result_type g (mkFuncCall name distinct (ArgExprs args'))).
Proof.
  intros Ha. unfold datetime_func_result_type, exprs_of. simpl.
  eapply rel_bind; [apply rel_refl|]. intros s _ <-. rewrite <- (Forall2_length _ _ _ Ha).
  destruct s; rel_types.
Qed.

Lemma format_func_result_type_rel f g name distinct args args' :
  Forall2 (infers f g) args args' ->
  rel_ok ty_sim (format_func_result_type f (mkFuncCall name distinct (ArgExprs args)))
    (format_func_result_type g (mkFuncCall name distinct (ArgExprs args'))).
Proof.
  intros Ha. unfold format_func_result_type, exprs_of. simpl.
  eapply rel_bind; [apply rel_refl|]. intros s _ <-. rewrite <- (Forall2_length _ _ _ Ha).
  destruct s; rel_types.
Qed.

Lemma func_result_type_rel f g name distinct args args' :
  Forall2 (infers f g) args args' ->
  rel_ok ty_sim (func_result_type f (mkFuncCall name distinct (ArgExprs args)))
    (func_result_type g (mkFuncCall name distinct (ArgExprs args'))).
Proof.
  intros Ha. unfold func_result_type, single_value_arg, count_arity. simpl.
  destruct Ha as [|a a' ? ? Hi [|b b' ? ? Hb Hl]]; destruct (aggregate_func name) as [[]|]; simpl;
    rel_types.
Qed.

Lemma rel_ty_refl {E} (x : result E ColumnType) : rel_ok ty_sim x x.
Proof. intros a b -> [= <-]. done. Qed.

Section Cases.
Context (s s' : Scope).

Local Abbreviation inf e e' := (infers (fun x => infer_type x s) (fun x => infer_type x s') e e').
Local Abbreviation step scope e := (infer_step (fun x => infer_type x scope) scope e).

Lemma infer_binary_rel op l r e' :
  (forall x x', (expr_height x < expr_height (Binary op l r))%nat -> erel x x' -> inf x x') ->
  erel (Binary op l r) e' -> rel_ok ty_sim (step s (Binary op l r)) (step s' e').
Proof.
  simpl expr_height. intros Hx He. simpl in He. destruct (typed_op op) eqn:Eop.
  2: { rewrite (bool_node_type _ _ e') by done. destruct op; try done; by apply rel_ret. }
  destruct e' as [| | | | | | | |op' l' r'| | | | | | | | | | | |]; try done.
  destruct He as (-> & Hl & Hr).
  assert (inf l l' /\ inf r r') as [[_ Il] [_ Ir]] by (split; apply Hx; [lia|done|lia|done]).
  destruct op; try done; simpl; (eapply rel_bind; [exact Il|]; intros t u Ht);
    (eapply rel_bind; [exact Ir|]; intros t' u' Ht').
  5: { repeat case_bool_decide; simpl; first [apply rel_err_l | apply rel_err_r | by apply rel_ret]. }
  all: rewrite (datetime_result_type_sim _ t u t' u' Ht Ht'); apply rel_ret;
    destruct (datetime_result_type _ _ _); simpl; [done|by apply numeric_result_type_sim].
Qed.

Lemma infer_func_rel name distinct args e' :
  (forall x x', (expr_height x < expr_height (Func name distinct args))%nat -> erel x x' -> inf x x') ->
  erel (Func name distinct args) e' -> rel_ok ty_sim (step s (Func name distinct args)) (step s' e').
Proof.
  intros Hx He. simpl in He. destruct e' as [| | | | | | | | |name' distinct' args'| | | | | | | | | | |]; try done.
  destruct He as (-> & -> & Ha). simpl.
  destruct args as [|l], args' as [|l']; simpl in Ha; try done.
  { unfold scalar_result_type, datetime_func_result_type, format_func_result_type, func_result_type,
      checked_args, exprs_of, single_value_arg. simpl.
    repeat case_match; try (eapply rel_bind; [apply rel_refl|]; intros ? _ <-);
      first [apply rel_err_l | by apply rel_ret]. }
  assert (Forall2 (infers (fun x => infer_type x s) (fun x => infer_type x s')) l l') as Hl.
  { apply all2_Forall2 in Ha. eapply Forall2_impl_elem; [exact Ha|].
    intros x x' Hin Hr. apply Hx; [|done]. simpl. pose proof (list_max_elem expr_height l x Hin). lia. }
  destruct (is_scalar name); [by apply scalar_result_type_rel|].
  destruct (is_datetime_func name); [by apply datetime_func_result_type_rel|].
  destruct (is_format_func name); [by apply format_func_result_type_rel|].
  by apply func_result_type_rel.
Qed.

Lemma infer_case_rel operand whens else_result e' :
  (forall x x', (expr_height x < expr_height (Case operand whens else_result))%nat -> erel x x' -> inf x x') ->
  erel (Case operand whens else_result) e' ->
  rel_ok ty_sim (step s (Case operand whens else_result)) (step s' e').
Proof.
  intros Hx He. simpl in He, Hx.
  destruct e' as [| | | | | | | | | | | | | |operand' whens' else'| | | | | |]; try done.
  destruct He as [Hw Hels]. simpl. unfold infer_case_type.
  eapply rel_bind.
  { eapply (rel_foldM (fun w w' : Expr * Expr => inf w.2 w'.2) option_sim); [|done|].
    - apply all2_Forall2 in Hw. eapply Forall2_impl_elem; [exact Hw|]. intros w w' Hin Hr.
      apply Hx; [|done].
      pose proof (list_max_elem (fun p => Nat.max (expr_height p.1) (expr_height p.2)) whens w Hin).
      simpl in *. lia.
    - intros. by apply unify_branch_rel. }
  intros a a' Haa. eapply (rel_bind option_sim).
  { destruct else_result as [x|], else' as [x'|]; try done; [|by apply rel_ret].
    apply unify_branch_rel; [done|]. apply Hx; [simpl; lia|done]. }
  intros [t|] [u|] Htu; try done; by apply rel_ret.
Qed.

End Cases.

(** Inference gives two rewritings of an expression types that look the same on
    the wire, when it types both. *)
Lemma infer_type_rel e e' s s' :
  scope_sim s s' -> erel e e' -> rel_ok ty_sim (infer_type e s) (infer_type e' s').
Proof.
  intros Hs. remember (expr_height e) as n eqn:En. revert e e' En.
  induction n as [n IH] using lt_wf_ind. intros e e' -> He. rewrite !infer_type_eq.
  assert (forall x x', (expr_height x < expr_height e)%nat -> erel x x' ->
    infers (fun x => infer_type x s) (fun x => infer_type x s') x x') as Hx.
  { intros x x' Hlt Hr. split; [done|]. by eapply IH. }
  clear IH. destruct e; simpl in He; simpl in Hx.
  all: try (rewrite (bool_node_type _ _ _ He); by apply rel_ret).
  all: try (subst e'; simpl; first [by apply rel_ty_refl | by apply rel_err_l]).
  - subst e'. simpl. rewrite (resolve_sim s s' _ _ Hs).
    eapply rel_bind; [apply rel_refl|]. intros i _ <-. by apply ty_at_sim.
  - destruct op; [by rewrite (bool_node_type _ _ _ He); apply rel_ret|].
    destruct e' as [| | | | | | |[] x'| | | | | | | | | | | | |]; try done. simpl. apply Hx; [lia|done].
  - exact (infer_binary_rel s s' op e1 e2 e' Hx He).
  - exact (infer_func_rel s s' name distinct args e' Hx He).
  - exact (infer_case_rel s s' operand whens else_result e' Hx He).
  - destruct e'; try done. destruct He as [-> He]. simpl.
    eapply rel_bind; [apply Hx; [lia|done]|]. intros t u Htu.
    destruct (cast_allowed t ty), (cast_allowed u ty);
      first [apply rel_err_l | apply rel_err_r | by apply rel_ret].
  - apply rel_err_l.
  - destruct e'; try done. by apply rel_ret.
Qed.

End ExprSim.
