(* ===== verification/DescribeAgrees.v ===== *)
(** * Describe announces what the query returns

    The schema-only passes of Describe and the passes that run a query are separate
    code. They agree: when a query is described and then runs, the columns of its
    result are the ones that were announced. *)
From Stdlib Require Import ZArith Lia Ascii.
From stdpp Require Import base list gmap strings.
From S2P Require Import Prelude Text Chars Keys Store Datum Float DateTimeBin ExtModel ExtArith.
From S2P Require Import DateTime LibModel.
From S2P Require Import Calendar Numeric NumericFn Ops Cast Mvcc Errors Catalog Scope Exec Ast.
From S2P Require Import AggCall EvalOps Func DateTimeFn FormatFn Eval TypeSim Wire.
From S2P Require Import Project Join.
From S2P Require Import Aggregate Values SetOps ScanBounds Describe Query.
Open Scope Z_scope.

(** ** Sizes of the syntax that Describe looks at *)

Section Sum.
Context {A : Type} (f : A -> nat).

Fixpoint sum_by (l : list A) : nat := match l with [] => 0%nat | x :: l => (f x + sum_by l)%nat end.

Lemma sum_by_elem l x : x ∈ l -> (f x <= sum_by l)%nat.
Proof. induction 1; simpl; lia. Qed.

End Sum.

Lemma rel_any {E A B} (x : result E A) (y : result E B) : rel_ok (fun _ _ => True) x y.
Proof. by intros ? ? _ _. Qed.

Section Agrees.
Context `{ExtCal} `{MathLib} `{Unicode} `{!ExtPow}.

Fixpoint esize (e : Expr) : nat :=
  match e with
  | Unary _ x | Cast x _ => S (esize x)
  | Binary _ l r => S (esize l + esize r)
  | ScalarSubquery q => S (qsize q)
  | _ => 1
  end
with qsize (q : QueryExpr) : nat :=
  let '(mkQueryExpr w body _ _ _ _) := q in
  S (match w with Some w => wsize w | None => 0 end + bsize body)
with wsize (w : WithClause) : nat := let '(mkWithClause _ l) := w in S (sum_by csize l)
with csize (c : Cte) : nat := let '(mkCte _ _ q) := c in S (qsize q)
with bsize (e : SetExpr) : nat :=
  match e with
  | SetQuery (BodySelect s) => S (ssize s)
  | SetQuery (BodyValues rows) => S (sum_by (sum_by esize) rows)
  | SetQuery (BodyNested q) => S (qsize q)
  | SetOperation _ _ l r => S (bsize l + bsize r)
  end
with ssize (s : SelectStmt) : nat :=
  let '(mkSelectStmt p from _ _ _ _ _ _ _ _) := s in S (sum_by isize p + sum_by tsize from)
with isize (it : SelectItem) : nat := match it with ItemExpr e _ => S (esize e) | _ => 1%nat end
with tsize (te : TableExpr) : nat :=
  match te with
  | TableRef _ _ => 1
  | Derived q _ _ => S (qsize q)
  | Join l r _ _ => S (tsize l + tsize r)
  end.

(** ** Which queries *)

(** The quantified comparisons of an expression compare (the parser makes no
    others). *)
Fixpoint quantifiers_ok (e : Expr) : bool :=
  match e with
  | Unary _ x | Cast x _ => quantifiers_ok x
  | Binary _ l r => quantifiers_ok l && quantifiers_ok r
  | Func _ _ a => quantifiers_ok_args a
  | Case _ whens else_result =>
      forallb (fun w => quantifiers_ok w.2) whens &&
      match else_result with Some x => quantifiers_ok x | None => true end
  | Quantified _ op _ _ => negb (typed_op op)
  | _ => true
  end
with quantifiers_ok_args (a : FuncArgs) : bool :=
  match a with ArgStar => true | ArgExprs l => forallb quantifiers_ok l end.

(** A query is [describable] when no SELECT that sees a common table expression has
    a scalar subquery in its select list: Describe types those without the WITH
    clause. The flag says whether a WITH clause is in scope. *)
Fixpoint describable (in_with : bool) (q : QueryExpr) : bool :=
  let '(mkQueryExpr w body _ _ _ _) := q in
  let in_with := match w with Some _ => true | None => in_with end in
  match w with Some w => describable_with w | None => true end &&
  match body with
  | SetQuery (BodySelect s) => describable_select in_with s
  | SetQuery (BodyValues rows) => forallb (forallb (describable_expr true in_with)) rows
  | SetQuery (BodyNested q) => describable in_with q
  | SetOperation _ _ _ _ => true
  end
with describable_with (w : WithClause) : bool :=
  let '(mkWithClause _ l) := w in forallb describable_cte l
with describable_cte (c : Cte) : bool := let '(mkCte _ _ q) := c in describable true q
with describable_select (in_with : bool) (s : SelectStmt) : bool :=
  let '(mkSelectStmt p from _ _ _ _ _ _ _ _) := s in
  forallb (describable_item in_with) p && forallb (describable_table in_with) from
with describable_item (in_with : bool) (it : SelectItem) : bool :=
  match it with ItemExpr e _ => describable_expr (negb in_with) in_with e | _ => true end
with describable_table (in_with : bool) (te : TableExpr) : bool :=
  match te with
  | TableRef _ _ => true
  | Derived q _ _ => describable in_with q
  | Join l r _ _ => describable_table in_with l && describable_table in_with r
  end
with describable_expr (scalars in_with : bool) (e : Expr) : bool :=
  quantifiers_ok e &&
  match e with
  | Unary _ x | Cast x _ => describable_expr scalars in_with x
  | Binary _ l r => describable_expr scalars in_with l && describable_expr scalars in_with r
  | ScalarSubquery q => scalars && describable in_with q
  | _ => true
  end.

(** ** Rewritings are related *)

Lemma erel_refl e : erel e e.
Proof.
  remember (expr_height e) as n eqn:En. revert e En.
  induction n as [n IH] using lt_wf_ind. intros e ->.
  assert (forall x, (expr_height x < expr_height e)%nat -> erel x x) as Hx by (intros; by eapply IH).
  clear IH. destruct e; simpl in *; try done.
  - destruct op; [done|]. apply Hx. lia.
  - destruct (typed_op op) eqn:E; simpl; [|done]. split_and!; [done|apply Hx; lia|apply Hx; lia].
  - split_and!; [done|done|]. destruct args as [|l]; simpl in *; [done|].
    apply all2_Forall2. assert (Forall (fun x => erel x x) l) as Hl.
    { apply Forall_forall. intros x Hin. apply Hx. pose proof (list_max_elem expr_height l x Hin). lia. }
    clear Hx. induction Hl; constructor; auto.
  - split.
    + apply all2_Forall2. assert (Forall (fun w : Expr * Expr => erel w.2 w.2) whens) as Hl.
      { apply Forall_forall. intros w Hin. apply Hx.
        pose proof (list_max_elem (fun p => Nat.max (expr_height p.1) (expr_height p.2)) whens w Hin).
        simpl in *. lia. }
      clear Hx. induction Hl; constructor; auto.
    + destruct else_result; [apply Hx; simpl; lia|done].
  - split; [done|]. apply Hx. lia.
Qed.

Lemma lower_quantified_bool lhs op all ty values :
  typed_op op = false -> bool_node (lower_quantified lhs op all ty values) = true.
Proof.
  intros Hop. destruct values as [|v vs]; [done|]. simpl.
  assert (bool_node (Binary op lhs (Const v ty)) = true) as Hb by (simpl; by rewrite Hop).
  revert Hb. generalize (Binary op lhs (Const v ty)).
  induction vs as [|w vs IH]; intros e He; simpl; [done|]. apply IH. by destruct all.
Qed.

Section Exec.
Context (default_ctx : EvalCtx) (env : ReadEnv).

Local Abbreviation resolve_expr := (resolve_expr default_ctx env).
Local Abbreviation run := (query_to_relation_with_ctes default_ctx env).
Local Abbreviation describe := (describe_query default_ctx (en_catalog_kv env)).
Local Abbreviation types_of := (resolve_types_in_expr default_ctx (en_catalog_kv env)).

(** Split the successful steps of a computation. *)
Ltac split_ok :=
  repeat match goal with
    | E : (_ ≫= _) = Ok _ |- _ => apply bind_Ok in E as (? & ? & E)
    | E : Ok _ = Ok _ |- _ => injection E as <-
    | x : (_ * _)%type |- _ => destruct x
    end.

(** What an expression becomes when its subqueries have run. *)
Lemma resolve_expr_erel ctes e e' :
  quantifiers_ok e = true -> resolve_expr ctes e = Ok e' -> erel e e'.
Proof.
  remember (expr_height e) as n eqn:En. revert e e' En.
  induction n as [n IH] using lt_wf_ind. intros e e' -> Hq Hr.
  assert (forall x x', (expr_height x < expr_height e)%nat -> quantifiers_ok x = true ->
    resolve_expr ctes x = Ok x' -> erel x x') as Hx by (intros; by eapply IH).
  clear IH. destruct e; simpl in Hq, Hr, Hx; split_ok; try done; simpl.
  - destruct op; [done|]. by apply Hx; [lia|..].
  - apply andb_true_iff in Hq as [? ?]. destruct (typed_op op); [|done].
    split_and!; [done|by apply Hx; [lia|..]..].
  - split_and!; [done|done|]. destruct args as [|l]; simpl in *; split_ok; [done|].
    apply all2_Forall2. eapply Forall2_impl_elem; [by eapply mapR_Ok_Forall2|]. simpl.
    intros a b Ha Hb. apply Hx; [|eapply forallb_forall, list_elem_of_In; eauto|done].
    pose proof (list_max_elem expr_height l a Ha). lia.
  - apply andb_true_iff in Hq as [Hw Hels]. split.
    + apply all2_Forall2. eapply Forall2_impl_elem; [by eapply mapR_Ok_Forall2|]. simpl.
      intros [c r] w' Hin Hr. split_ok. simpl. apply Hx; [| |done].
      * pose proof (list_max_elem (fun p => Nat.max (expr_height p.1) (expr_height p.2)) whens (c, r) Hin).
        simpl in *. lia.
      * rewrite forallb_forall in Hw. by apply (Hw (c, r)), list_elem_of_In.
    + destruct else_result; split_ok; [apply Hx; [simpl; lia|done|done]|done].
  - split; [done|]. by apply Hx; [lia|..].
  - apply lower_quantified_bool. by apply negb_true_iff.
  - reflexivity.
Qed.

(** ** Relations over scopes *)

Definition rel_sim (r r' : Relation) : Prop := scope_sim (rel_scope r) (rel_scope r').

(** Common table expressions by the same names, with the same columns. *)
Definition ctes_sim (c c' : CteContext) : Prop :=
  forall name, match c !! name, c' !! name with
               | Some r, Some r' => rel_sim r r'
               | None, None => True
               | _, _ => False
               end.

Lemma ctes_sim_insert c c' name r r' :
  ctes_sim c c' -> rel_sim r r' -> ctes_sim (<[name := r]> c) (<[name := r']> c').
Proof.
  intros Hc Hr n. unfold CteContext in *. destruct (decide (n = name)) as [->|Hn]; [by rewrite !lookup_insert_eq|].
  rewrite !lookup_insert_ne by done. apply Hc.
Qed.

Lemma ctes_sim_refl c : ctes_sim c c.
Proof. intros n. destruct (c !! n); [|done]. apply scope_sim_refl. Qed.

(** Columns with the same names and types on the wire. *)
Definition cols_sim (s s' : Scope) : Prop :=
  Forall2 (fun c d => b_name c = b_name d /\ ty_sim (b_ty c) (b_ty d)) s s'.

Definition scope_fields (s : Scope) : list FieldDescription :=
  map (fun c => field (b_name c) (b_ty c)) s.

Lemma field_sim name t u : ty_sim t u -> field name t = field name u.
Proof. destruct t, u; simpl; intros; simplify_eq; done. Qed.

Lemma cols_sim_fields s s' : cols_sim s s' -> scope_fields s = scope_fields s'.
Proof.
  induction 1 as [|c d s s' [Hn Ht] Hs IH]; [done|]. simpl. rewrite Hn, IH.
  f_equal. by apply field_sim.
Qed.

Lemma scope_cols_sim s s' : scope_sim s s' -> cols_sim s s'.
Proof. intros Hs. eapply Forall2_impl; [exact Hs|]. by intros c d (_ & ? & ?). Qed.

Lemma column_type_from_oid_sim t u : column_type_from_oid (oid t) = Ok u -> ty_sim u t.
Proof. destruct t; vm_compute; intros; simplify_eq; done. Qed.

(** A described column is read back with the type it announces. *)
Lemma bindings_of_fields_sim s sc : bindings_of_fields (scope_fields s) = Ok sc -> cols_sim sc s.
Proof.
  unfold bindings_of_fields. intros Hm. apply mapR_Ok_Forall2 in Hm. unfold scope_fields in Hm.
  rewrite Forall2_fmap_l in Hm. apply Forall2_flip.
  eapply Forall2_impl; [exact Hm|]. simpl. intros c d Hd. split_ok. simpl. split; [done|].
  apply column_type_from_oid_sim. destruct (column_type_from_oid _) eqn:E; by simplify_eq/=.
Qed.

Lemma requalify_sim alias s s' : cols_sim s s' -> scope_sim (requalify alias s) (requalify alias s').
Proof.
  intros Hs. unfold requalify, scope_sim. apply Forall2_fmap.
  eapply Forall2_impl; [exact Hs|]. by intros c d [? ?].
Qed.

Lemma requalify_derived_sim s s' rows rows' alias columns :
  cols_sim s s' ->
  rel_ok rel_sim (requalify_derived (mkRelation s rows) alias columns)
    (requalify_derived (mkRelation s' rows') alias columns).
Proof.
  intros Hs. unfold requalify_derived, scope_width. simpl.
  rewrite (Forall2_length _ _ _ Hs). destruct columns as [names|].
  2: { apply rel_ret. by apply requalify_sim. }
  destruct (negb _); [apply rel_err_l|]. apply rel_ret. apply requalify_sim. simpl.
  unfold cols_sim. rewrite Forall2_fmap. revert names.
  induction Hs as [|c d s s' [Hn Ht] Hs IH]; intros [|n names]; simpl; constructor; eauto.
Qed.

(** ** Joins and select lists *)

Lemma remaining_sim {A B} (R : A -> B -> Prop) skip l l' :
  Forall2 R l l' -> Forall2 R (remaining skip l) (remaining skip l').
Proof.
  intros Hl. unfold remaining, enumerate. rewrite <- (Forall2_length _ _ _ Hl). generalize 0%nat.
  induction Hl as [|a b l l' Hab Hl IH]; intros i; simpl; [constructor|].
  destruct (negb _); simpl; [constructor; auto|auto].
Qed.

Lemma natural_common_columns_sim s s' t t' :
  scope_sim s s' -> scope_sim t t' -> natural_common_columns s t = natural_common_columns s' t'.
Proof.
  intros Hs Ht. unfold natural_common_columns.
  assert (forall n, existsb (fun rc => bool_decide (b_name rc = n)) t =
                    existsb (fun rc => bool_decide (b_name rc = n)) t') as He.
  { intros n. induction Ht as [|c d t t' (_ & Hn & _) Ht IH]; [done|]. simpl. by rewrite Hn, IH. }
  generalize (@nil string) at 2 4. induction Hs as [|c d s s' (_ & Hn & _) Hs IH]; intros out; [done|].
  simpl. rewrite Hn, He. apply IH.
Qed.

Lemma shared_qualifier_sim s s' t t' :
  scope_sim s s' -> scope_sim t t' -> shared_qualifier s t = shared_qualifier s' t'.
Proof.
  intros Hs Ht. unfold shared_qualifier. f_equal.
  induction Ht as [|c d t t' (Hq & _ & _) Ht IH]; [done|]. csimpl. rewrite Hq.
  destruct (b_qualifier d) as [q|]; simpl; [|exact IH]. rewrite (has_qualifier_sim q s s' Hs).
  destruct (existsb _ _); [f_equal|]; exact IH.
Qed.

Lemma coalesce_sim s s' t t' pairs names rows rows' :
  scope_sim s s' -> scope_sim t t' ->
  rel_ok rel_sim (coalesce_join_columns s t pairs names rows) (coalesce_join_columns s' t' pairs names rows').
Proof.
  intros Hs Ht. unfold coalesce_join_columns.
  eapply rel_bind.
  { apply (rel_mapR_same binding_sim). intros p _.
    eapply rel_bind; [by apply ty_at_sim|]. intros. apply rel_ret. by split_and!. }
  intros m m' Hm. eapply rel_bind; [apply rel_any|]. intros ? ? _. apply rel_ret. unfold rel_sim. simpl.
  repeat apply Forall2_app; [done| |]; by apply remaining_sim.
Qed.

Lemma join_relations_sim l l' r r' kind c ctx ctx' :
  rel_sim l l' -> rel_sim r r' ->
  rel_ok rel_sim (join_relations l r kind c ctx) (join_relations l' r' kind c ctx').
Proof.
  intros Hl Hr. unfold join_relations. rewrite <- (shared_qualifier_sim _ _ _ _ Hl Hr).
  destruct (shared_qualifier _ _); [apply rel_err_l|].
  rewrite <- (natural_common_columns_sim _ _ _ _ Hl Hr). set (cols := match c with JoinUsing _ => _ | _ => _ end).
  eapply (rel_bind eq).
  { intros p p' Hp Hp'. rewrite (mapR_ext _ (fun jc =>
      li ← lift (resolve (rel_scope l) None jc); ri ← lift (resolve (rel_scope r) None jc); Ok (li, ri)))
      in Hp' by (intros; by rewrite <- (resolve_sim _ _ _ _ Hl), <- (resolve_sim _ _ _ _ Hr)).
    congruence. }
  intros pairs _ <-. eapply rel_bind; [apply rel_any|]. intros rows rows' _.
  destruct pairs; [apply rel_ret; by apply Forall2_app|by apply coalesce_sim].
Qed.

(** Select lists with the same announced fields and types on the wire. *)
Definition output_sim (x y : FieldDescription * Expr * ColumnType) : Prop :=
  x.1.1 = y.1.1 /\ ty_sim x.2 y.2 /\ is_unknown_literal x.1.2 = is_unknown_literal y.1.2 /\
  x.1.1 = field (f_name x.1.1) x.2.

Definition item_rel (i i' : SelectItem) : Prop :=
  match i with
  | ItemExpr e alias => exists e', i' = ItemExpr e' alias /\ erel e e'
  | _ => i' = i
  end.

Lemma erel_unknown e e' : erel e e' -> is_unknown_literal e = is_unknown_literal e'.
Proof. intros He. destruct e; simpl in He; try destruct op; repeat case_match; simplify_eq/=; try done; by destruct e'. Qed.

Lemma erel_name e e' : erel e e' -> derived_name e = derived_name e'.
Proof.
  intros He. destruct e; simpl in He; try destruct op; repeat case_match; simplify_eq/=; try done;
    first [destruct e'; naive_solver | naive_solver].
Qed.

Lemma column_output_sim s s' :
  scope_sim s s' -> Forall2 output_sim (map column_output s) (map column_output s').
Proof.
  intros Hs. apply Forall2_fmap. eapply Forall2_impl; [exact Hs|].
  intros c d (Hq & Hn & Ht). unfold output_sim; simpl. rewrite Hn, (field_sim _ _ _ Ht). by split_and!.
Qed.

Lemma resolve_item_rel s s' i i' :
  scope_sim s s' -> item_rel i i' -> rel_ok (Forall2 output_sim) (resolve_item s i) (resolve_item s' i').
Proof.
  intros Hs Hi. destruct i as [|q|e alias]; simpl in Hi.
  - subst i'. simpl. pose proof (column_output_sim s s' Hs) as Ho.
    destruct Hs; [apply rel_err_l|by apply rel_ret].
  - subst i'. simpl.
    assert (scope_sim (List.filter (has_qualifier q) s) (List.filter (has_qualifier q) s')) as Hf.
    { induction Hs as [|c d s s' Hc Hs IH]; simpl; [constructor|].
      assert (has_qualifier q c = has_qualifier q d) as ->
        by (unfold has_qualifier; by rewrite (proj1 Hc)).
      destruct (has_qualifier q d); [by constructor|done]. }
    pose proof (column_output_sim _ _ Hf) as Ho. destruct Hf; [apply rel_err_l|by apply rel_ret].
  - destruct Hi as (e' & -> & He). simpl. eapply rel_bind; [by apply infer_type_rel|].
    intros t u Htu. apply rel_ret. constructor; [|constructor]. unfold output_sim; simpl.
    rewrite (erel_name _ _ He), (field_sim _ _ _ Htu). split_and!; [done|done|by apply erel_unknown|].
    by rewrite <- (field_sim _ _ _ Htu).
Qed.

Lemma resolve_projection_rel s s' p p' :
  scope_sim s s' -> Forall2 item_rel p p' ->
  rel_ok (Forall2 output_sim) (resolve_projection p s) (resolve_projection p' s').
Proof.
  intros Hs Hp. unfold resolve_projection. eapply rel_bind.
  { eapply rel_mapR; [exact Hp|]. intros. by apply resolve_item_rel. }
  intros o o' Ho. apply rel_ret. induction Ho; simpl; [constructor|by apply Forall2_app].
Qed.

(** ** VALUES *)

Lemma unify_values_row_rel width cols cols' row row' :
  Forall2 (fun c c' : ColumnType * bool => ty_sim c.1 c'.1 /\ c.2 = c'.2) cols cols' ->
  Forall2 erel row row' ->
  rel_ok (Forall2 (fun c c' : ColumnType * bool => ty_sim c.1 c'.1 /\ c.2 = c'.2))
    (unify_values_row width cols row) (unify_values_row width cols' row').
Proof.
  intros Hc Hr. unfold unify_values_row. rewrite (Forall2_length _ _ _ Hr).
  destruct (negb _); [apply rel_err_l|].
  eapply (rel_mapR (fun p p' : (ColumnType * bool) * Expr =>
    (ty_sim p.1.1 p'.1.1 /\ p.1.2 = p'.1.2) /\ erel p.2 p'.2)).
  { revert row row' Hr. induction Hc; intros ? ? []; simpl; constructor; auto. }
  intros [[t k] e] [[t' k'] e'] _ [[Ht Hk] He]; simpl in *. subst k'.
  eapply rel_bind; [apply infer_type_rel; [constructor|exact He]|]. intros v v' Hv.
  apply rel_lift. rewrite (erel_unknown _ _ He). unfold unify_values_col.
  destruct k, (is_unknown_literal e'); try (by apply rel_ret).
  eapply rel_bind; [by apply unify_types_sim|]. intros. by apply rel_ret.
Qed.

Lemma describe_values_rel rows rows' :
  Forall2 (Forall2 erel) rows rows' ->
  rel_ok (fun a b => cols_sim (scope_from_schema a None) (scope_from_schema b None))
    (describe_values rows) (describe_values rows').
Proof.
  intros Hr. unfold describe_values, analyze_values.
  assert (match rows with [] => 0%nat | row :: _ => length row end =
          match rows' with [] => 0%nat | row :: _ => length row end) as <-.
  { destruct Hr as [|? ? ? ? Hr]; [done|]. by rewrite (Forall2_length _ _ _ Hr). }
  set (width := match rows with [] => 0%nat | row :: _ => length row end).
  eapply rel_bind.
  { eapply (rel_foldM _ (Forall2 (fun c c' : ColumnType * bool => ty_sim c.1 c'.1 /\ c.2 = c'.2)));
      [exact Hr| |intros; by apply unify_values_row_rel].
    by apply Forall2_replicate. }
  intros cols cols' Hc. apply rel_ret. unfold scope_from_schema, cols_sim. simpl.
  apply Forall2_fmap. generalize (map (fun n => "column" +:+ z_to_string (Z.of_nat n)) (seq 1 width)).
  induction Hc as [|[t k] [t' k'] ? ? [Ht Hk]]; intros [|n names]; simpl; constructor; simpl in *; auto.
  subst k'. by destruct k.
Qed.

(** ** Describe under related contexts *)

Definition col_sim (c d : ResolvedCol) : Prop :=
  rcol_name c = rcol_name d /\ rcol_unknown c = rcol_unknown d /\ ty_sim (rcol_ty c) (rcol_ty d).

Lemma unify_columns_sim op l l' r r' :
  Forall2 col_sim l l' -> Forall2 col_sim r r' ->
  rel_ok (Forall2 col_sim) (unify_columns op l r) (unify_columns op l' r').
Proof.
  intros Hl Hr. unfold unify_columns. rewrite (Forall2_length _ _ _ Hl), (Forall2_length _ _ _ Hr).
  destruct (negb _); [apply rel_err_l|].
  eapply (rel_mapR (fun p p' => col_sim p.1 p'.1 /\ col_sim p.2 p'.2)).
  { revert r r' Hr. induction Hl; intros ? ? []; simpl; constructor; auto. }
  intros [c d] [c' d'] _ [(Hn & Hk & Ht) (_ & Hk' & Ht')]; simpl in *. rewrite Hn, Hk, Hk'.
  eapply (rel_bind (fun u u' : ColumnType * bool => ty_sim u.1 u'.1 /\ u.2 = u'.2)).
  - unfold unify_col. destruct (rcol_unknown c'), (rcol_unknown d'); try (by apply rel_ret).
    eapply rel_bind; [by apply unify_types_sim|]. intros. by apply rel_ret.
  - intros u u' [? ?]. apply rel_ret. by split_and!.
Qed.

Lemma cols_fields_sim l l' :
  Forall2 col_sim l l' ->
  map (fun c => field (rcol_name c) (output_type c)) l = map (fun c => field (rcol_name c) (output_type c)) l'.
Proof.
  induction 1 as [|c d l l' (Hn & Hk & Ht) Hl IH]; [done|]. simpl. rewrite IH, Hn. f_equal.
  apply field_sim. unfold output_type. rewrite Hk. by destruct (rcol_unknown d).
Qed.

Lemma table_schema_sim c c' name alias :
  ctes_sim c c' ->
  rel_ok rel_sim (table_schema (en_catalog_kv env) c name alias) (table_schema (en_catalog_kv env) c' name alias).
Proof.
  intros Hc. unfold table_schema. specialize (Hc name). unfold CteContext in *.
  destruct (c !! name) as [r|], (c' !! name) as [r'|]; try done.
  - apply rel_ret. by apply requalify_sim, scope_cols_sim.
  - eapply rel_bind; [apply rel_refl|]. intros t _ <-. apply rel_ret. apply scope_sim_refl.
Qed.

Section Congruence.
Context (N : nat).
Context (IH : forall q c c' al, (qsize q < N)%nat -> ctes_sim c c' -> rel_ok eq (describe al c q) (describe al c' q)).

Lemma describe_scope_sim {A B} (R : A -> B -> Prop) q c c' al k k' :
  (qsize q < N)%nat -> ctes_sim c c' ->
  (forall sc sc', cols_sim sc sc' -> rel_ok R (k sc) (k' sc')) ->
  rel_ok R (f ← describe al c q; sc ← bindings_of_fields f; k sc)
    (f ← describe al c' q; sc ← bindings_of_fields f; k' sc).
Proof.
  intros Hq Hc Hk. eapply rel_bind; [by apply IH|]. intros f _ <-.
  eapply rel_bind; [apply rel_refl|]. intros sc _ <-. apply Hk, scope_cols_sim, scope_sim_refl.
Qed.

Lemma types_sim e c c' :
  (esize e <= N)%nat -> ctes_sim c c' -> rel_ok erel (types_of c e) (types_of c' e).
Proof.
  intros He Hc. induction e; simpl in He |- *; try (apply rel_ret; apply erel_refl).
  - eapply rel_bind; [apply IHe; lia|]. intros. apply rel_ret. by destruct op.
  - eapply rel_bind; [apply IHe1; lia|]. intros. eapply rel_bind; [apply IHe2; lia|]. intros.
    apply rel_ret. simpl. by destruct (typed_op op).
  - eapply rel_bind; [apply IHe; lia|]. intros. by apply rel_ret.
  - eapply rel_bind; [apply IH; [lia|done]|]. intros f _ <-.
    destruct f as [|f [|]]; try apply rel_err_l.
    eapply rel_bind; [apply rel_refl|]. intros t _ <-. apply rel_ret. simpl. reflexivity.
Qed.

Lemma table_expr_sim te c c' :
  (tsize te <= N)%nat -> ctes_sim c c' ->
  rel_ok rel_sim (table_expr_schema default_ctx (en_catalog_kv env) c te)
    (table_expr_schema default_ctx (en_catalog_kv env) c' te).
Proof.
  intros Ht Hc. induction te; simpl in Ht |- *.
  - by apply table_schema_sim.
  - apply describe_scope_sim; [lia|done|]. intros. by apply rel_lift, requalify_derived_sim.
  - eapply rel_bind; [apply IHte1; lia|]. intros. eapply rel_bind; [apply IHte2; lia|]. intros.
    by apply join_relations_sim.
Qed.

Lemma values_sim rows c c' :
  (sum_by (sum_by esize) rows < N)%nat -> ctes_sim c c' ->
  rel_ok (Forall2 (Forall2 erel)) (mapR (mapR (types_of c)) rows) (mapR (mapR (types_of c')) rows).
Proof.
  intros Hr Hc. apply rel_mapR_same. intros row Hrow. apply rel_mapR_same. intros e He.
  pose proof (sum_by_elem (sum_by esize) rows row Hrow).
  pose proof (sum_by_elem esize row e He). apply types_sim; [lia|done].
Qed.

Lemma select_schema_sim s c c' t t' :
  (ssize s <= N)%nat -> ctes_sim c c' -> ctes_sim t t' ->
  rel_ok (Forall2 output_sim) (select_schema default_ctx (en_catalog_kv env) c t s)
    (select_schema default_ctx (en_catalog_kv env) c' t' s).
Proof.
  intros Hs Hc Ht. destruct s as [p from]. simpl in Hs |- *.
  eapply (rel_bind scope_sim).
  { destruct from as [|te from]; simpl in Hs; [apply rel_ret; constructor|].
    eapply rel_bind; [apply table_expr_sim; [lia|done]|]. intros r r' Hr.
    eapply (rel_bind rel_sim); [|intros; by apply rel_ret].
    apply (rel_foldM_same rel_sim); [done|].
    intros a a' u Hu Ha. pose proof (sum_by_elem tsize from u Hu).
    eapply rel_bind; [apply table_expr_sim; [lia|done]|]. intros. by apply join_relations_sim. }
  intros sc sc' Hsc. eapply rel_bind.
  { apply (rel_mapR_same item_rel). intros it Hit. pose proof (sum_by_elem isize p it Hit).
    destruct it as [| |e alias]; simpl in *; try (by apply rel_ret).
    eapply rel_bind; [apply types_sim; [lia|done]|]. intros e1 e2 He. apply rel_ret. simpl. eauto. }
  intros. by apply resolve_projection_rel.
Qed.

Lemma set_columns_sim e c c' d :
  (bsize e <= N)%nat -> ctes_sim c c' ->
  rel_ok (Forall2 col_sim) (resolve_set_columns default_ctx (en_catalog_kv env) c d e)
    (resolve_set_columns default_ctx (en_catalog_kv env) c' d e).
Proof.
  intros He Hc. revert d. induction e as [b|op all l IHl r IHr]; intros d.
  - cbn [resolve_set_columns]. destruct (Nat.ltb _ _); [apply rel_err_l|].
    destruct b as [s|rows|q]; simpl in He.
    + eapply rel_bind; [apply rel_unit|]. intros _ _ _.
      eapply rel_bind; [by apply select_schema_sim; [lia|..]|]. intros p p' Hp. apply rel_ret.
      apply Forall2_fmap. eapply Forall2_impl; [exact Hp|]. intros x y (Hf & Ht & Hu & _).
      unfold col_sim; simpl. by rewrite Hf.
    + eapply rel_bind; [by apply values_sim; [lia|]|]. intros rs rs' Hr.
      eapply rel_bind; [by apply describe_values_rel|]. intros sc sc' Hs. apply rel_ret.
      apply Forall2_fmap. eapply Forall2_impl; [exact Hs|]. intros x y [Hn Ht]. by split_and!.
    + apply describe_scope_sim; [lia|done|]. intros sc sc' Hs. apply rel_ret.
      apply Forall2_fmap. eapply Forall2_impl; [exact Hs|]. intros x y [Hn Ht]. by split_and!.
  - cbn [resolve_set_columns]. simpl in He. destruct (Nat.ltb _ _); [apply rel_err_l|].
    eapply rel_bind; [apply IHl; lia|]. intros. eapply rel_bind; [apply IHr; lia|]. intros.
    by apply rel_lift, unify_columns_sim.
Qed.

Lemma with_sim w c c' :
  (wsize w <= N)%nat -> ctes_sim c c' ->
  rel_ok ctes_sim (describe_with_clause default_ctx (en_catalog_kv env) c w)
    (describe_with_clause default_ctx (en_catalog_kv env) c' w).
Proof.
  intros Hw Hc. destruct w as [recursive l]. simpl in *. eapply rel_bind; [apply rel_unit|]. intros _ _ _.
  apply rel_foldM_same; [done|]. intros o o' x Hx Ho.
  pose proof (sum_by_elem csize l x Hx). destruct x as [name columns q]. simpl in *.
  apply describe_scope_sim; [lia|done|]. intros sc sc' Hs.
  eapply rel_bind; [by apply rel_lift, requalify_derived_sim|]. intros r r' Hr.
  apply rel_ret. by apply ctes_sim_insert.
Qed.

End Congruence.

(** Describe sees the common table expressions by their columns only. *)
Lemma describe_sim q c c' al : ctes_sim c c' -> rel_ok eq (describe al c q) (describe al c' q).
Proof.
  remember (qsize q) as n eqn:En. revert q c c' al En.
  induction n as [n IHn] using lt_wf_ind. intros q c c' al -> Hc.
  assert (forall x d d' a, (qsize x < qsize q)%nat -> ctes_sim d d' ->
    rel_ok eq (describe a d x) (describe a d' x)) as IH by (intros; by eapply IHn).
  clear IHn. destruct q as [w body order_by limit offset locking]. simpl in IH.
  cbn [describe_query]. eapply rel_bind; [apply rel_unit|]. intros _ _ _.
  eapply (rel_bind ctes_sim).
  { destruct w as [w|]; [|by apply rel_ret]. eapply with_sim; [exact IH|lia|done]. }
  intros d d' Hd. destruct body as [[s|rows|q]|op all l r]; simpl in IH.
  - eapply rel_bind; [apply rel_unit|]. intros _ _ _. eapply rel_bind.
    { eapply select_schema_sim; [exact IH|lia|done|apply ctes_sim_refl]. }
    intros p p' Hp. apply rel_ret. induction Hp as [|x y ? ? (Hf & _)]; [done|]. simpl. by f_equal.
  - eapply rel_bind; [eapply values_sim; [exact IH|lia|done]|]. intros.
    eapply rel_bind; [by apply describe_values_rel|]. intros. apply rel_ret. by apply cols_sim_fields.
  - apply IH; [lia|done].
  - eapply rel_bind; [eapply set_columns_sim; [exact IH|lia|done]|]. intros.
    eapply rel_bind; [eapply set_columns_sim; [exact IH|lia|done]|]. intros.
    eapply rel_bind; [by apply rel_lift, unify_columns_sim|]. intros. apply rel_ret. by apply cols_fields_sim.
Qed.

(** ** Describe against the run *)

(** The contexts of the two passes; without a WITH clause they are empty. *)
Definition ctx_ok (in_with : bool) (cD cX : CteContext) : Prop :=
  ctes_sim cD cX /\ (in_with = false -> cD = ∅).

Definition announced (fs : list FieldDescription) (rel : Relation) : Prop :=
  fs = scope_fields (rel_scope rel).

(** The rows of FROM. *)
Definition from_relation (ctes : CteContext) (bounds : option ScanBounds) (from : list TableExpr)
  : xresult Relation :=
  match from with
  | [] => Ok (mkRelation scope_empty [[]])
  | first :: rest =>
      acc ← build_table_expr default_ctx env ctes bounds first;
      foldM (fun acc te =>
        next ← build_table_expr default_ctx env ctes None te;
        join_relations acc next JCross JoinNone (en_ctx env)) acc rest
  end.

(** What a SELECT that ran has resolved on the way. *)
Lemma select_run ctes tail_ s rel :
  select_to_relation_with_ctes default_ctx env ctes tail_ s = Ok rel ->
  let '(mkSelectStmt p from _ _ _ _ _ _ _ _) := s in
  exists p' bounds relation pr,
    mapR (resolve_item_expr default_ctx env ctes) p = Ok p' /\
    from_relation ctes bounds from = Ok relation /\
    resolve_projection p' (rel_scope relation) = Ok pr /\
    rel_scope rel = map (fun x => mkBinding None (f_name x.1.1) x.2) pr.
Proof.
  destruct s as [p from filter distinct group_by having oo ol ofs olock].
  cbn [select_to_relation_with_ctes].
  destruct (match tail_ with Some _ => _ | None => _ end) as [[[order limit] offset] lock].
  intros Hr. apply bind_Ok in Hr as (_ & _ & Hr). apply bind_Ok in Hr as (p' & Hp & Hr).
  apply bind_Ok in Hr as (f' & _ & Hr). apply bind_Ok in Hr as (h' & _ & Hr).
  apply bind_Ok in Hr as (g' & _ & Hr). apply bind_Ok in Hr as (o' & _ & Hr).
  apply bind_Ok in Hr as (relation & Hrel & Hr). unfold run_select in Hr.
  apply bind_Ok in Hr as (kept & _ & Hr). apply bind_Ok in Hr as (pr & Hpr & Hr).
  apply bind_Ok in Hr as (rows & _ & Hr). injection Hr as <-.
  eexists p', _, relation, pr. split_and!; [done|exact Hrel|done|done].
Qed.

Section Run.
Context (N : nat).
Context (IH : forall q u al cD cX, (qsize q < N)%nat -> describable u q = true -> ctx_ok u cD cX ->
              rel_ok announced (describe al cD q) (run cX q)).

(** A described query, its columns read back, against the relation it runs to. *)
Lemma announced_scope {B C} (R : B -> C -> Prop) q u al cD cX k k' :
  (qsize q < N)%nat -> describable u q = true -> ctx_ok u cD cX ->
  (forall sc rel, cols_sim sc (rel_scope rel) -> rel_ok R (k sc) (k' rel)) ->
  rel_ok R (f ← describe al cD q; sc ← bindings_of_fields f; k sc) (rel ← run cX q; k' rel).
Proof.
  intros Hq Hd Hc Hk. eapply rel_bind; [by eapply IH|]. intros f rel ->.
  intros b c Hb Hc'. apply bind_Ok in Hb as (sc & Hsc & Hb).
  exact (Hk sc rel (bindings_of_fields_sim _ _ Hsc) b c Hb Hc').
Qed.

Lemma types_run e scalars u tD cX :
  (esize e <= N)%nat -> describable_expr scalars u e = true -> (scalars = true -> ctx_ok u tD cX) ->
  rel_ok erel (types_of tD e) (resolve_expr cX e).
Proof.
  intros He Hd Hc.
  assert (quantifiers_ok e = true) as Hq by (destruct e; by apply andb_true_iff in Hd as [? _]).
  induction e; try (intros ? ? [= <-] Hb; eapply resolve_expr_erel; [exact Hq|exact Hb]); simpl in He, Hq |- *; cbn [describable_expr] in Hd;
    apply andb_true_iff in Hd as [_ Hd].
  - eapply rel_bind; [apply IHe; [lia|done|done]|]. intros. apply rel_ret. by destruct op.
  - apply andb_true_iff in Hd as [? ?]. apply andb_true_iff in Hq as [? ?].
    eapply rel_bind; [apply IHe1; [lia|done|done]|]. intros.
    eapply rel_bind; [apply IHe2; [lia|done|done]|]. intros. apply rel_ret. simpl. by destruct (typed_op op).
  - eapply rel_bind; [apply IHe; [lia|done|done]|]. intros. by apply rel_ret.
  - apply andb_true_iff in Hd as [-> Hd]. specialize (Hc eq_refl).
    intros a b Ha Hb. apply bind_Ok in Ha as (f & Hf & Ha). apply bind_Ok in Hb as (_ & _ & Hb).
    apply bind_Ok in Hb as (rel & Hrel & Hb).
    pose proof (IH q u false tD cX ltac:(lia) Hd Hc f rel Hf Hrel) as ->.
    unfold scalar_of in Hb. destruct (rel_scope rel) as [|c [|]]; simpl in Ha; try done.
    apply bind_Ok in Ha as (t & Ht & Ha). apply bind_Ok in Hb as ([v t'] & Hv & Hb). simplify_eq/=.
    assert (t' = b_ty c) as ->.
    { destruct (rel_rows rel) as [|row [|]]; split_ok; by simplify_eq/=. }
    apply column_type_from_oid_sim. destruct (column_type_from_oid _); by simplify_eq/=.
Qed.

Lemma table_run te u cD cX bounds :
  (tsize te <= N)%nat -> describable_table u te = true -> ctx_ok u cD cX ->
  rel_ok rel_sim (table_expr_schema default_ctx (en_catalog_kv env) cD te)
    (build_table_expr default_ctx env cX bounds te).
Proof.
  intros Ht Hd Hc. revert bounds. induction te; intros bounds; simpl in Ht, Hd |- *.
  - destruct Hc as [Hc _]. unfold table_schema, table_relation. specialize (Hc name).
    unfold CteContext in *. destruct (cD !! name) as [r|], (cX !! name) as [r'|]; try done.
    + apply rel_ret. by apply requalify_sim, scope_cols_sim.
    + eapply rel_bind; [apply rel_refl|]. intros t _ <-.
      intros r r' [= <-] Hr'. apply bind_Ok in Hr' as (rows & _ & Hr'). injection Hr' as <-.
      apply scope_sim_refl.
  - eapply announced_scope; [lia|done|done|]. intros sc [s rows] Hs. simpl in Hs.
    by apply rel_lift, requalify_derived_sim.
  - apply andb_true_iff in Hd as [? ?].
    eapply rel_bind; [apply IHte1; [lia|done]|]. intros. eapply rel_bind; [apply IHte2; [lia|done]|]. intros.
    by apply join_relations_sim.
Qed.

Lemma from_run from u cD cX bounds :
  (sum_by tsize from <= N)%nat -> forallb (describable_table u) from = true -> ctx_ok u cD cX ->
  rel_ok (fun sc rel => scope_sim sc (rel_scope rel))
    (match from with
     | [] => Ok scope_empty
     | first :: rest =>
         acc ← table_expr_schema default_ctx (en_catalog_kv env) cD first;
         rel ← foldM (fun acc te =>
           next ← table_expr_schema default_ctx (en_catalog_kv env) cD te;
           join_relations acc next JCross JoinNone default_ctx) acc rest;
         Ok (rel_scope rel)
     end)
    (from_relation cX bounds from).
Proof.
  intros Hs Hd Hc. destruct from as [|te from]; [apply rel_ret; constructor|]. simpl in Hs, Hd.
  apply andb_true_iff in Hd as [Hd Hds]. rewrite forallb_forall in Hds. unfold from_relation.
  eapply rel_bind; [eapply table_run; [lia|done|done]|]. intros r r' Hr.
  assert (rel_ok rel_sim
    (foldM (fun acc te => next ← table_expr_schema default_ctx (en_catalog_kv env) cD te;
       join_relations acc next JCross JoinNone default_ctx) r from)
    (foldM (fun acc te => next ← build_table_expr default_ctx env cX None te;
       join_relations acc next JCross JoinNone (en_ctx env)) r' from)) as Hf.
  { apply rel_foldM_same; [done|]. intros a a' x Hx Ha. pose proof (sum_by_elem tsize from x Hx).
    eapply rel_bind; [eapply table_run; [lia|by apply Hds, list_elem_of_In|done]|].
    intros. by apply join_relations_sim. }
  intros sc rel Hsc Hrel. apply bind_Ok in Hsc as (f & Hf1 & Hsc). injection Hsc as <-.
  exact (Hf _ _ Hf1 Hrel).
Qed.

Lemma select_schema_run s u cD cX tail_ :
  (ssize s <= N)%nat -> describable_select u s = true -> ctx_ok u cD cX ->
  rel_ok (fun p rel => announced (pr_fields p) rel)
    (select_schema default_ctx (en_catalog_kv env) cD ∅ s)
    (select_to_relation_with_ctes default_ctx env cX tail_ s).
Proof.
  intros Hs Hd Hc p rel Hp Hrel. apply select_run in Hrel. destruct s as [items from].
  simpl in Hs, Hd. apply andb_true_iff in Hd as [Hdi Hdf]. rewrite forallb_forall in Hdi.
  destruct Hrel as (items' & bounds & relation & pr & Hi & Hf & Hpr & Hscope).
  cbn [select_schema] in Hp. apply bind_Ok in Hp as (sc & Hsc & Hp). apply bind_Ok in Hp as (it & Hit & Hp).
  pose proof (from_run from u cD cX bounds ltac:(lia) Hdf Hc sc relation Hsc Hf) as Hsim.
  assert (Forall2 item_rel it items') as Hitems.
  { eapply (rel_mapR_same item_rel); [|exact Hit|exact Hi]. intros x Hx.
    pose proof (sum_by_elem isize items x Hx). specialize (Hdi x ltac:(by apply list_elem_of_In)).
    destruct x as [| |e alias]; simpl in *; try (by apply rel_ret).
    eapply rel_bind; [eapply types_run; [lia|exact Hdi|]|].
    - destruct u; [done|]. intros _. destruct Hc as [Hc He]. by rewrite <- (He eq_refl).
    - intros e1 e2 He. apply rel_ret. simpl. eauto. }
  pose proof (resolve_projection_rel _ _ _ _ Hsim Hitems p pr Hp Hpr) as Ho.
  unfold announced. rewrite Hscope. unfold scope_fields, pr_fields. clear -Ho.
  induction Ho as [|x y ? ? (Hf & Ht & _ & Hn)]; [done|]. simpl. f_equal; [|done].
  rewrite Hn, (field_sim _ _ _ Ht). by rewrite Hf.
Qed.

Lemma values_run rows u cD cX :
  (sum_by (sum_by esize) rows < N)%nat -> forallb (forallb (describable_expr true u)) rows = true ->
  ctx_ok u cD cX ->
  rel_ok (Forall2 (Forall2 erel)) (mapR (mapR (types_of cD)) rows) (mapR (mapR (resolve_expr cX)) rows).
Proof.
  intros Hr Hd Hc. rewrite forallb_forall in Hd. apply rel_mapR_same. intros row Hrow.
  specialize (Hd row ltac:(by apply list_elem_of_In)). rewrite forallb_forall in Hd.
  apply rel_mapR_same. intros e He.
  pose proof (sum_by_elem (sum_by esize) rows row Hrow). pose proof (sum_by_elem esize row e He).
  eapply types_run; [lia|by apply Hd, list_elem_of_In|done].
Qed.

Lemma with_run w cD cX :
  (wsize w <= N)%nat -> describable_with w = true -> ctes_sim cD cX ->
  rel_ok ctes_sim (describe_with_clause default_ctx (en_catalog_kv env) cD w)
    (evaluate_with_clause default_ctx env cX w).
Proof.
  intros Hw Hd Hc. destruct w as [recursive l]. simpl in Hw, Hd |- *. rewrite forallb_forall in Hd.
  eapply rel_bind; [apply rel_unit|]. intros _ _ _. apply rel_foldM_same; [done|]. intros o o' x Hx Ho.
  pose proof (sum_by_elem csize l x Hx). specialize (Hd x ltac:(by apply list_elem_of_In)).
  destruct x as [name columns q]. simpl in *.
  intros a b Ha Hb. apply bind_Ok in Hb as (_ & _ & Hb). revert a b Ha Hb.
  eapply (announced_scope ctes_sim); [lia|exact Hd|split; [done|done]|]. intros sc [s rows] Hs. simpl in Hs.
  eapply rel_bind; [by apply rel_lift, requalify_derived_sim|]. intros r r' Hr.
  apply rel_ret. by apply ctes_sim_insert.
Qed.

End Run.

Lemma apply_query_order_scope rel order_by offset limit ctx rel' :
  apply_query_order rel order_by offset limit ctx = Ok rel' -> rel_scope rel' = rel_scope rel.
Proof. unfold apply_query_order. intros Hr. apply bind_Ok in Hr as (rows & _ & Hr). by injection Hr as <-. Qed.

(** Set operations announce the columns the run resolves first. *)
Lemma set_agrees op all l r order_by limit offset d d' :
  ctes_sim d d' ->
  rel_ok announced
    (lc ← resolve_set_columns default_ctx (en_catalog_kv env) d 1 l;
     rc ← resolve_set_columns default_ctx (en_catalog_kv env) d 1 r;
     cs ← lift (unify_columns op lc rc);
     Ok (map (fun c => field (rcol_name c) (output_type c)) cs))
    (ob ← mapR (resolve_order_item default_ctx env d') order_by;
     cols ← resolve_set_columns default_ctx (en_catalog_kv env) d' 0 (SetOperation op all l r);
     lr ← fold_set default_ctx env d' (map output_type cols) 1 l;
     rr ← fold_set default_ctx env d' (map output_type cols) 1 r;
     finish_set cols (combine_rows op all lr rr) ob offset limit (en_ctx env)).
Proof.
  intros Hd fs rel Hfs Hrel.
  apply bind_Ok in Hrel as (ob & _ & Hrel). apply bind_Ok in Hrel as (cols & Hcols & Hrel).
  apply bind_Ok in Hrel as (lr & _ & Hrel). apply bind_Ok in Hrel as (rr & _ & Hrel).
  unfold announced, finish_set in *. rewrite (apply_query_order_scope _ _ _ _ _ _ Hrel).
  apply bind_Ok in Hfs as (lc & Hlc & Hfs). apply bind_Ok in Hfs as (rc & Hrc & Hfs).
  apply bind_Ok in Hfs as (cs & Hcs & Hfs). injection Hfs as <-.
  assert (resolve_set_columns default_ctx (en_catalog_kv env) d 0 (SetOperation op all l r) = Ok cs) as Hcs'.
  { cbn [resolve_set_columns]. apply bind_Ok. exists lc. split; [exact Hlc|].
    apply bind_Ok. exists rc. split; [exact Hrc|exact Hcs]. }
  pose proof (set_columns_sim _ (fun q c c' al _ => describe_sim q c c' al) (SetOperation op all l r)
    d d' 0 ltac:(reflexivity) Hd cs cols Hcs' Hcols) as Hsim.
  rewrite (cols_fields_sim _ _ Hsim). unfold scope_fields. simpl. by rewrite map_map.
Qed.

Lemma describe_agrees q u al cD cX :
  describable u q = true -> ctx_ok u cD cX -> rel_ok announced (describe al cD q) (run cX q).
Proof.
  remember (qsize q) as n eqn:En. revert q u al cD cX En.
  induction n as [n IHn] using lt_wf_ind. intros q u al cD cX -> Hd Hc.
  assert (forall x v a d d', (qsize x < qsize q)%nat -> describable v x = true -> ctx_ok v d d' ->
    rel_ok announced (describe a d x) (run d' x)) as IH by (intros; by eapply IHn).
  clear IHn. destruct q as [w body order_by limit offset locking]. simpl in IH. cbn [describable] in Hd.
  apply andb_true_iff in Hd as [Hdw Hdb].
  set (v := match w with Some _ => true | None => u end) in *.
  intros fs rel Hfs Hrel. cbn [describe_query] in Hfs. cbn [query_to_relation_with_ctes] in Hrel.
  apply bind_Ok in Hfs as (_ & _ & Hfs). apply bind_Ok in Hfs as (d & Hw & Hfs).
  apply bind_Ok in Hrel as (d' & Hw' & Hrel).
  assert (ctx_ok v d d') as Hdd.
  { destruct w as [w|]; [|injection Hw as <-; injection Hw' as <-; exact Hc]. split; [|done]. simpl in IH.
    eapply (with_run _ IH w cD cX); [lia|exact Hdw|apply Hc|exact Hw|exact Hw']. }
  clear Hw Hw' Hc. destruct body as [[s|rows|q]|op all l r]; simpl in IH.
  - apply bind_Ok in Hfs as (_ & _ & Hfs). apply bind_Ok in Hfs as (p & Hp & Hfs). injection Hfs as <-.
    apply bind_Ok in Hrel as (_ & _ & Hrel).
    eapply (select_schema_run _ IH s v d d'); [lia|exact Hdb|exact Hdd|exact Hp|exact Hrel].
  - apply bind_Ok in Hfs as (rs & Hrs & Hfs). apply bind_Ok in Hfs as (sch & Hsch & Hfs). injection Hfs as <-.
    apply bind_Ok in Hrel as (rs' & Hrs' & Hrel). apply bind_Ok in Hrel as (vr & Hvr & Hrel).
    apply bind_Ok in Hrel as (ob & _ & Hrel). unfold announced.
    rewrite (apply_query_order_scope _ _ _ _ _ _ Hrel).
    unfold values_to_relation in Hvr. apply bind_Ok in Hvr as (sch' & Hsch' & Hvr).
    unfold values_to_relation_with_schema in Hvr. apply bind_Ok in Hvr as (out & _ & Hvr). injection Hvr as <-.
    apply cols_sim_fields. eapply describe_values_rel; [|exact Hsch|exact Hsch'].
    eapply (values_run _ IH rows v d d'); [lia|exact Hdb|exact Hdd|exact Hrs|exact Hrs'].
  - apply bind_Ok in Hrel as (_ & _ & Hrel). apply bind_Ok in Hrel as (rn & Hrn & Hrel).
    apply bind_Ok in Hrel as (ob & _ & Hrel). unfold announced.
    rewrite (apply_query_order_scope _ _ _ _ _ _ Hrel). eapply IH; [|exact Hdb|exact Hdd|exact Hfs|exact Hrn]. lia.
  - eapply (set_agrees op all l r order_by limit offset d d'); [apply Hdd|exact Hfs|exact Hrel].
Qed.

(** C35: Describe announces what the query returns: when the schema-only passes
    describe a query and the query then runs, the row description of its result is
    the one announced, column by column (name, type OID and size), through joins,
    derived tables, subqueries, VALUES, set operations and common table expressions.
    The query may have no scalar subquery in the select list of a SELECT that sees a
    WITH clause. *)
Theorem described_fields_are_returned q fs fields rows tag :
  describable false q = true ->
  Describe.describe default_ctx (en_catalog_kv env) [Ast.Query q] = Ok fs ->
  execute_read default_ctx env (Ast.Query q) = Ok (QRows fields rows tag) ->
  fields = fs.
Proof.
  intros Hd Hfs Hrun. apply bind_Ok in Hrun as (rel & Hrel & Hrun).
  unfold relation_to_rows_result, rows_result in Hrun. apply bind_Ok in Hrun as (cells & _ & Hrun).
  injection Hrun as <- _ _. symmetry.
  by eapply (describe_agrees q false true ∅ ∅); [|split; [apply ctes_sim_refl|]|..].
Qed.

End Exec.
End Agrees.

(** ** A query that is described and runs *)

Definition empty_env : ReadEnv :=
  mkEnv kv_new kv_new kv_new NO_GLOBAL_SNAPSHOT (mkSnapshot 1 1 []) None epoch_ctx foreign_none.

Definition select_of (items : list SelectItem) (from : list TableExpr) : SelectStmt :=
  mkSelectStmt items from None false [] None [] None None None.
Definition query_of (w : option WithClause) (s : SelectStmt) : QueryExpr :=
  mkQueryExpr w (SetQuery (BodySelect s)) [] None None None.

(** [WITH t AS (SELECT 1 AS x) SELECT x + 2.5 AS y, a.b FROM t, (VALUES ('k')) AS a (b)] *)
Definition sample_query : QueryExpr :=
  query_of
    (Some (mkWithClause false
      [mkCte "t" None (query_of None (select_of [ItemExpr (IntLiteral "1") (Some "x")] []))]))
    (select_of
      [ItemExpr (Binary OpAdd (ColumnRef None "x") (NumericLiteral "2.5")) (Some "y");
       ItemExpr (ColumnRef (Some "a") "b") None]
      [TableRef "t" None;
       Derived (mkQueryExpr None (SetQuery (BodyValues [[StringLiteral "k"]])) [] None None None)
         "a" (Some ["b"])]).

Lemma described_fields_are_returned_witness :
  exists fields rows tag,
    execute_read epoch_ctx empty_env (Ast.Query sample_query) = Ok (QRows fields rows tag) /\
    fields = [field "y" (TNumeric None); field "b" TText] /\ length rows = 1%nat.
Proof.
  destruct (execute_read epoch_ctx empty_env (Ast.Query sample_query)) as [[fields rows tag| | ]|] eqn:E.
  2-4: by vm_compute in E.
  exists fields, rows, tag. split_and!; [done| |].
  - apply (described_fields_are_returned epoch_ctx empty_env sample_query _ fields rows tag);
      [vm_compute; reflexivity|vm_compute; reflexivity|exact E].
  - vm_compute in E. by injection E as <- <- <-.
Defined.

(** ** Where queries do not do what they should

    Three places where the query layer departs from what its comments or the
    protocol say: quantified comparisons over many rows, values of CASE whose type
    is not the announced one, and Describe under a WITH clause. *)
Section Gaps.
Context `{ExtCal} `{MathLib} `{Unicode} `{!ExtPow}.

(** A left-nested chain of comparisons deeper than the levels left. *)
Lemma chain_too_deep scope row ctx levels join (cmp : Datum -> Expr) op l r vs :
  (levels <= S (length vs))%nat ->
  eval_depth levels scope row ctx (fold_left (fun prev v => Binary join prev (cmp v)) vs (Binary op l r)) =
  raise EStackDepthExceeded.
Proof.
  revert levels. induction vs as [|v vs IH] using rev_ind; intros levels Hl.
  { simpl in Hl. by destruct levels as [|[|]]; [..|lia]. }
  rewrite length_app in Hl. simpl in Hl. destruct levels as [|levels]; [done|].
  rewrite fold_left_app. simpl. by rewrite IH by lia.
Qed.

(** A comparison with ANY or ALL of a subquery of 151 rows or more always fails
    with a stack depth error (54001), whatever the values are: the comparison is
    lowered to a chain of OR or AND that is one level deeper per row, and the
    evaluator stops at 150 levels. *)
Theorem quantified_over_many_rows_fails lhs op all ty values scope row ctx :
  (151 <= length values)%nat ->
  eval (lower_quantified lhs op all ty values) scope row ctx = raise EStackDepthExceeded.
Proof.
  destruct values as [|v vs]; simpl length; intros Hl; [lia|].
  apply chain_too_deep. unfold MAX_EVAL_DEPTH. lia.
Qed.

End Gaps.

(** [SELECT 1 = ANY (VALUES (7), (7), ...)], of 151 rows *)
Lemma quantified_over_many_rows_fails_witness :
  eval (lower_quantified (IntLiteral "1") OpEq false TInt4 (replicate 151 (DInt4 7))) [] [] epoch_ctx =
  raise EStackDepthExceeded.
Proof. apply quantified_over_many_rows_fails. rewrite length_replicate. lia. Defined.

(** [CASE WHEN true THEN 1 ELSE 2.5 END] *)
Definition mixed_case : Expr := Case None [(BoolLiteral true, IntLiteral "1")] (Some (NumericLiteral "2.5")).

(** The branches of a CASE are typed together but their values are not converted
    to the common type: SELECT CASE WHEN true THEN 1 ELSE 2.5 END announces a numeric
    column (OID 1700) and sends an int4 in it, four bytes that are not the binary
    form of any numeric, since that starts with an eight-byte header. *)
Theorem case_value_not_of_announced_type :
  infer_type mixed_case [] = Ok (TNumeric None) /\
  eval mixed_case [] [] epoch_ctx = Ok (DInt4 1) /\
  execute_read epoch_ctx empty_env (Ast.Query (query_of None (select_of [ItemExpr mixed_case None] []))) =
    Ok (QRows [field "?column?" (TNumeric None)] [[Some (mkCell [49] [0; 0; 0; 1])]] "SELECT 1") /\
  (forall d b, encode_binary (DNumeric d) = Some b -> (8 <= length b)%nat).
Proof.
  split_and!; [reflexivity|reflexivity|vm_compute; reflexivity|].
  intros d b [= <-]. unfold binary.
  assert (forall n, length (be16 n) = 2%nat) as H16 by (intros; apply be_bytes_length).
  repeat case_match; rewrite !length_app, !H16; lia.
Qed.

(** [WITH t AS (SELECT 1 AS x) SELECT (SELECT x FROM t) AS y] *)
Definition cte_in_subquery : QueryExpr :=
  query_of
    (Some (mkWithClause false
      [mkCte "t" None (query_of None (select_of [ItemExpr (IntLiteral "1") (Some "x")] []))]))
    (select_of [ItemExpr (ScalarSubquery (query_of None (select_of [ItemExpr (ColumnRef None "x") None]
       [TableRef "t" None]))) (Some "y")] []).

(** A scalar subquery of a select list that reads a common table expression runs,
    but cannot be described: Describe types it without the WITH clause and reports
    that the table does not exist, so the statement fails in the extended protocol
    and works in the simple one. *)
Theorem describe_misses_with_clause :
  execute_read epoch_ctx empty_env (Ast.Query cte_in_subquery) =
    Ok (QRows [field "y" TInt4] [[Some (mkCell [49] [0; 0; 0; 1])]] "SELECT 1") /\
  describe epoch_ctx (en_catalog_kv empty_env) [Ast.Query cte_in_subquery] =
    raise (ECatalog (UndefinedTable "t")).
Proof. split; vm_compute; reflexivity. Qed.
