(* ===== verification/RouterReads.v ===== *)
(** * A routed query reads one range

    The gateway decides where a query runs from the tables it names. The decision is
    sound: the answer depends on no stored table of any other range. *)
From Stdlib Require Import ZArith Lia Ascii.
From stdpp Require Import base list gmap strings.
From S2P Require Import Prelude Text Chars Keys Store Datum Float DateTimeBin ExtArith DateTime.
From S2P Require Import Calendar Numeric NumericFn Ops Cast Mvcc Errors Catalog Scope XidAlloc.
From S2P Require Import Exec Ast AggCall EvalOps Func DateTimeFn FormatFn Eval Wire Project.
From S2P Require Import Join Aggregate Values SetOps ScanBounds Describe Query RangeMap Router DescribeAgrees.
From S2P Require Import ExtModel LibModel.
Open Scope Z_scope.

(** ** Collecting into a set *)

Section Sound.
Context (S : gset Z).

(** A pass over a piece of syntax that adds the ranges it reads: it only adds, and when
    they are all in [S] the piece has the property. *)
Definition sound (c : gset Z -> result ExecError (gset Z)) (P : Prop) : Prop :=
  forall out out', c out = Ok out' -> out ⊆ out' /\ (out' ⊆ S -> P).

Lemma sound_mono c (P Q : Prop) : (P -> Q) -> sound c P -> sound c Q.
Proof. intros HPQ Hc out out' E. destruct (Hc _ _ E). auto. Qed.

Lemma sound_none (P : Prop) : P -> sound (fun out => Ok out) P.
Proof. intros HP out out' [= <-]. auto. Qed.

Lemma sound_seq c1 c2 P1 P2 :
  sound c1 P1 -> sound c2 P2 -> sound (fun out => out ← c1 out; c2 out) (P1 /\ P2).
Proof.
  intros H1 H2 out out' (mid & E1 & E2)%bind_Ok.
  destruct (H1 _ _ E1) as [Hs1 HP1], (H2 _ _ E2) as [Hs2 HP2].
  split; [set_solver|]. intros Hs. split; [apply HP1; set_solver|auto].
Qed.

Lemma sound_fold {A} (f : gset Z -> A -> result ExecError (gset Z)) (P : A -> Prop) l :
  (forall x, x ∈ l -> sound (fun out => f out x) (P x)) -> sound (fun out => foldM f out l) (Forall P l).
Proof.
  induction l as [|x l IH]; intros Hf; cbn [foldM]; [by apply sound_none|].
  apply (sound_mono _ (P x /\ Forall P l)); [intros [? ?]; by constructor|].
  apply sound_seq; [apply Hf; set_solver|]. apply IH. intros y Hy. apply Hf. set_solver.
Qed.

Lemma sound_option {A} (f : gset Z -> A -> result ExecError (gset Z)) (P : A -> Prop) (o : option A) :
  (forall x, o = Some x -> sound (fun out => f out x) (P x)) ->
  sound (fun out => match o with Some x => f out x | None => Ok out end) (forall x, o = Some x -> P x).
Proof.
  intros Hf. destruct o as [x|]; [|by apply sound_none].
  eapply sound_mono; [|by apply Hf]. intros Hx y [= <-]. done.
Qed.
End Sound.

Lemma mapR_same {E A B} (f g : A -> result E B) l : Forall (fun x => f x = g x) l -> mapR f l = mapR g l.
Proof. rewrite Forall_forall. apply mapR_ext. Qed.

Lemma bind_cong {E A B} (m m' : result E A) (f g : A -> result E B) :
  m = m' -> (forall x, f x = g x) -> m ≫= f = m' ≫= g.
Proof. intros -> Hf. destruct m'; simpl; auto. Qed.

Lemma foldM_same {E A B} (f g : B -> A -> result E B) l b :
  Forall (fun x => forall b, f b x = g b x) l -> foldM f b l = foldM g b l.
Proof. rewrite Forall_forall. intros Hl. apply foldM_ext. auto. Qed.

(** ** Sizes *)

Section Reads.
Context `{ExtCal} `{MathLib} `{Unicode} `{!ExtPow}.

Definition opt_by {A} (f : A -> nat) (o : option A) : nat := match o with Some x => f x | None => 0 end.

Fixpoint whole_expr (e : Expr) : nat :=
  S match e with
    | Unary _ x | IsNull x _ | Cast x _ => whole_expr x
    | Binary _ l r | Like l r _ _ => whole_expr l + whole_expr r
    | Func _ _ a => whole_args a
    | InList x l _ => whole_expr x + sum_by whole_expr l
    | Between x l h _ => whole_expr x + whole_expr l + whole_expr h
    | Case o whens x =>
        opt_by whole_expr o + sum_by (fun w => whole_expr w.1 + whole_expr w.2)%nat whens + opt_by whole_expr x
    | ScalarSubquery q | ExistsQuery q => whole_query q
    | InSubquery x q _ | Quantified x _ _ q => whole_expr x + whole_query q
    | _ => 0
    end
with whole_args (a : FuncArgs) : nat := match a with ArgStar => 0%nat | ArgExprs l => sum_by whole_expr l end
with whole_order (o : OrderItem) : nat := let '(mkOrderItem e _) := o in whole_expr e
with whole_query (q : QueryExpr) : nat :=
  let '(mkQueryExpr w body order _ _ _) := q in
  S (opt_by whole_with w + whole_set body + sum_by whole_order order)
with whole_with (w : WithClause) : nat := let '(mkWithClause _ l) := w in S (sum_by whole_cte l)
with whole_cte (c : Cte) : nat := let '(mkCte _ _ q) := c in whole_query q
with whole_set (e : SetExpr) : nat :=
  S match e with
    | SetQuery (BodySelect s) => whole_select s
    | SetQuery (BodyValues rows) => sum_by (sum_by whole_expr) rows
    | SetQuery (BodyNested q) => whole_query q
    | SetOperation _ _ l r => whole_set l + whole_set r
    end
with whole_select (s : SelectStmt) : nat :=
  let '(mkSelectStmt p from filter _ group having order _ _ _) := s in
  S (sum_by whole_item p + sum_by whole_table from + opt_by whole_expr filter + sum_by whole_expr group
     + opt_by whole_expr having + sum_by whole_order order)
with whole_item (it : SelectItem) : nat := match it with ItemExpr e _ => whole_expr e | _ => 0 end
with whole_table (te : TableExpr) : nat :=
  S match te with
    | TableRef _ _ => 0
    | Derived q _ _ => whole_query q
    | Join l r _ c => whole_table l + whole_table r + whole_constraint c
    end
with whole_constraint (c : JoinConstraint) : nat := match c with JoinOn e => whole_expr e | _ => 0 end.

(** ** Two readers that agree on the tables of some ranges *)

Context (default_ctx : EvalCtx) (map : RangeMap) (S : gset Z) (env env' : ReadEnv).
Hypothesis same_catalog : en_catalog_kv env' = en_catalog_kv env.
Hypothesis same_ctx : en_ctx env' = en_ctx env.
Hypothesis same_fctx : en_fctx env' = en_fctx env.

(** The rows of a table, as a reader sees them. *)
Definition table_rows (env : ReadEnv) (t : Table) :=
  scan_live (en_kv env) (en_global env) (en_gsnap env) (en_snapshot env) (en_own env) t.

Hypothesis same_rows : forall name t,
  get_table (en_catalog_kv env) name = Ok t -> t_foreign t = None ->
  range_for_table map (t_id t) ∈ S -> table_rows env' t = table_rows env t.

(** The names of a query's WITH clauses that the two passes have in scope. *)
Definition same_names (ctx : CteRangeCtx) (ctes : CteContext) : Prop :=
  forall name, ctx_contains ctx name = bool_decide (is_Some (ctes !! name)).

Lemma same_names_insert ctx ctes name (rel : Relation) :
  same_names ctx ctes -> same_names (ctx ++ [name]) (<[name := rel]> ctes).
Proof.
  intros Hn n. unfold CteContext in *. unfold ctx_contains. rewrite rev_app_distr. cbn [rev app existsb].
  specialize (Hn n). unfold ctx_contains in Hn. rewrite Hn.
  destruct (String.eqb_spec n name) as [->|Hne].
  - rewrite lookup_insert_eq. symmetry. by apply bool_decide_eq_true_2.
  - by rewrite lookup_insert_ne.
Qed.

Local Abbreviation cat_kv := (en_catalog_kv env).

Lemma sound_table ctx ctes name alias bounds :
  same_names ctx ctes ->
  sound S (collect_table cat_kv map ctx name)
    (table_relation env ctes name alias bounds = table_relation env' ctes name alias bounds).
Proof.
  intros Hn out out'. unfold same_names, table_relation, scan_foreign, collect_table, cat, CteContext in *.
  rewrite Hn, same_catalog, same_ctx, same_fctx. destruct (ctes !! name) as [rel|] eqn:Ec.
  { rewrite bool_decide_eq_true_2 by done. intros [= <-]. split; [set_solver|done]. }
  rewrite bool_decide_eq_false_2 by (intros [? ?]; done).
  destruct (get_table cat_kv name) as [t|e] eqn:Et; cbn [map_err lift mbind result_bind]; [|done].
  intros [= <-]. destruct (t_foreign t) as [meta|] eqn:Ef; (split; [set_solver|]); [done|]. intros Hs.
  assert (table_rows env' t = table_rows env t) as Hr by (apply (same_rows name); [done|done|set_solver]).
  unfold table_rows in Hr. by rewrite Hr.
Qed.

Definition agree_expr (e : Expr) : Prop := forall ctx ctes, same_names ctx ctes ->
  sound S (collect_expr_ranges cat_kv map ctx e)
    (resolve_expr default_ctx env ctes e = resolve_expr default_ctx env' ctes e).
Definition agree_query (q : QueryExpr) : Prop := forall ctx ctes, same_names ctx ctes ->
  sound S (collect_query_expr_ranges cat_kv map ctx q)
    (query_to_relation_with_ctes default_ctx env ctes q = query_to_relation_with_ctes default_ctx env' ctes q).
Definition agree_set (e : SetExpr) : Prop := forall ctx ctes, same_names ctx ctes ->
  sound S (collect_set_expr_ranges cat_kv map ctx e)
    (forall tys depth, fold_set default_ctx env ctes tys depth e = fold_set default_ctx env' ctes tys depth e).
Definition agree_select (s : SelectStmt) : Prop := forall ctx ctes, same_names ctx ctes ->
  sound S (collect_select_ranges_with_ctes cat_kv map ctx s)
    (forall tail, select_to_relation_with_ctes default_ctx env ctes tail s
                  = select_to_relation_with_ctes default_ctx env' ctes tail s).
Definition agree_table (te : TableExpr) : Prop := forall ctx ctes, same_names ctx ctes ->
  sound S (collect_table_expr_ranges cat_kv map ctx te)
    (forall bounds, build_table_expr default_ctx env ctes bounds te
                    = build_table_expr default_ctx env' ctes bounds te).
Definition agree_with (w : WithClause) : Prop := forall ctx ctes out ctx' out', same_names ctx ctes ->
  collect_with_ranges cat_kv map ctx w out = Ok (ctx', out') ->
  out ⊆ out' /\
  (out' ⊆ S ->
   evaluate_with_clause default_ctx env ctes w = evaluate_with_clause default_ctx env' ctes w /\
   forall ctes', evaluate_with_clause default_ctx env ctes w = Ok ctes' -> same_names ctx' ctes').

(** Everything up to a size. *)
Definition agree_upto (n : nat) : Prop :=
  (forall e, (whole_expr e < n)%nat -> agree_expr e) /\
  (forall q, (whole_query q < n)%nat -> agree_query q) /\
  (forall e, (whole_set e < n)%nat -> agree_set e) /\
  (forall s, (whole_select s < n)%nat -> agree_select s) /\
  (forall te, (whole_table te < n)%nat -> agree_table te) /\
  (forall w, (whole_with w < n)%nat -> agree_with w).

Lemma agree_exprs n ctx ctes l :
  agree_upto n -> same_names ctx ctes -> (sum_by whole_expr l < n)%nat ->
  sound S (fun out => foldM (fun out x => collect_expr_ranges cat_kv map ctx x out) out l)
    (Forall (fun x => resolve_expr default_ctx env ctes x = resolve_expr default_ctx env' ctes x) l).
Proof.
  intros (IHe & _) Hn Hl. apply sound_fold. intros x Hx. apply IHe; [|done].
  pose proof (sum_by_elem whole_expr l x Hx). lia.
Qed.

Lemma agree_orders n ctx ctes l :
  agree_upto n -> same_names ctx ctes -> (sum_by whole_order l < n)%nat ->
  sound S (fun out => foldM (fun out o => collect_order_ranges cat_kv map ctx o out) out l)
    (mapR (resolve_order_item default_ctx env ctes) l = mapR (resolve_order_item default_ctx env' ctes) l).
Proof.
  intros (IHe & _) Hn Hl. eapply sound_mono; [apply mapR_same|]. apply sound_fold. intros [x asc] Hx.
  pose proof (sum_by_elem whole_order l _ Hx) as Hs. simpl in Hs |- *.
  eapply sound_mono; [|apply IHe; [lia|done]]. intros E. simpl. by rewrite E.
Qed.

Lemma agree_option n ctx ctes o :
  agree_upto n -> same_names ctx ctes -> (opt_by whole_expr o < n)%nat ->
  sound S (fun out => match o with Some x => collect_expr_ranges cat_kv map ctx x out | None => Ok out end)
    (match o with Some x => x ← resolve_expr default_ctx env ctes x; Ok (Some x) | None => Ok None end
     = match o with Some x => x ← resolve_expr default_ctx env' ctes x; Ok (Some x) | None => Ok None end).
Proof.
  intros (IHe & _) Hn Hl. destruct o as [x|]; [|by apply sound_none].
  eapply sound_mono; [|by apply IHe]. by intros ->.
Qed.

Arguments run_select : simpl never.

Ltac sub IH := eapply IH; [cbn; lia|done].

Lemma agree_expr_step n e : agree_upto n -> (whole_expr e <= n)%nat -> agree_expr e.
Proof.
  intros Hup Hle ctx ctes Hn. pose proof Hup as (IHe & IHq & _).
  destruct e; try destruct args as [|args]; simpl in Hle |- *; try (by apply sound_none).
  - eapply sound_mono; [|sub IHe]. by intros ->.
  - eapply sound_mono; [|apply sound_seq; sub IHe]. by intros [-> ->].
  - eapply sound_mono; [|eapply (agree_exprs n); [done|done|lia]]. by intros ->%mapR_same.
  - eapply sound_mono; [|sub IHe]. by intros ->.
  - eapply sound_mono; [|apply sound_seq; [sub IHe|eapply (agree_exprs n); [done|done|lia]]].
    by intros [-> ->%mapR_same].
  - eapply sound_mono; [|apply sound_seq; [|apply sound_seq]; sub IHe]. by intros (-> & -> & ->).
  - eapply sound_mono; [|apply sound_seq; sub IHe]. by intros [-> ->].
  - eapply sound_mono; [|apply sound_seq; [eapply (agree_option n); [done|done|lia]|]].
    2: apply sound_seq; [|eapply (agree_option n); [done|done|lia]].
    2: apply (sound_fold _ _ (fun w : Expr * Expr =>
         resolve_expr default_ctx env ctes w.1 = resolve_expr default_ctx env' ctes w.1 /\
         resolve_expr default_ctx env ctes w.2 = resolve_expr default_ctx env' ctes w.2)).
    2: { intros [c r] Hx. pose proof (sum_by_elem (fun w => whole_expr w.1 + whole_expr w.2)%nat whens _ Hx) as Hs.
         cbn in Hs |- *. apply sound_seq; sub IHe. }
    intros (-> & Hw & ->). erewrite (mapR_same _ _ whens); [done|].
    eapply Forall_impl; [exact Hw|]. intros [c r] [Hc Hr]. simpl in Hc, Hr |- *. by rewrite Hc, Hr.
  - eapply sound_mono; [|sub IHe]. by intros ->.
  - eapply sound_mono; [|sub IHq]. by intros ->.
  - eapply sound_mono; [|sub IHq]. by intros ->.
  - eapply sound_mono; [|apply sound_seq; [sub IHe|sub IHq]]. by intros [-> ->].
  - eapply sound_mono; [|apply sound_seq; [sub IHe|sub IHq]]. by intros [-> ->].
Qed.

Lemma agree_table_step n te : agree_upto n -> (whole_table te <= n)%nat -> agree_table te.
Proof.
  intros (IHe & IHq & _ & _ & IHt & _) Hle ctx ctes Hn.
  destruct te as [name alias|q alias columns|l r kind c]; simpl in Hle.
  - intros out out' E. split; [by eapply (sound_table ctx ctes name alias None)|].
    intros Hs bounds. simpl. by eapply (sound_table ctx ctes name alias bounds).
  - simpl. eapply sound_mono; [|sub IHq]. by intros -> _.
  - assert (sound S (collect_constraint_ranges cat_kv map ctx c) True) as Hc.
    { destruct c; simpl in Hle |- *; try by apply sound_none. eapply sound_mono; [|sub IHe]. done. }
    simpl. eapply sound_mono; [|apply sound_seq; [sub IHt|apply sound_seq; [sub IHt|exact Hc]]].
    intros (El & Er & _) _. by rewrite El, Er, same_ctx.
Qed.

Lemma agree_set_step n e : agree_upto n -> (whole_set e <= n)%nat -> agree_set e.
Proof.
  intros Hup Hle ctx ctes Hn. pose proof Hup as (IHe & IHq & IHb & IHs & _).
  destruct e as [[s|rows|q]|op all l r]; simpl in Hle |- *.
  - eapply sound_mono; [|sub IHs]. intros E tys depth. by rewrite E, same_ctx.
  - eapply sound_mono; [|apply sound_fold; intros row Hrow; eapply (agree_exprs n); [done|done|]].
    + intros E tys depth. rewrite same_ctx. erewrite (mapR_same _ _ rows); [done|].
      eapply Forall_impl; [exact E|]. intros row. apply mapR_same.
    + pose proof (sum_by_elem (sum_by whole_expr) rows row Hrow). lia.
  - eapply sound_mono; [|sub IHq]. intros E tys depth. by rewrite E, same_ctx.
  - eapply sound_mono; [|apply sound_seq; sub IHb]. intros [El Er] tys depth. by rewrite El, Er.
Qed.

Lemma agree_items n ctx ctes l :
  agree_upto n -> same_names ctx ctes -> (sum_by whole_item l < n)%nat ->
  sound S (fun out => foldM (fun out it => collect_item_ranges cat_kv map ctx it out) out l)
    (mapR (resolve_item_expr default_ctx env ctes) l = mapR (resolve_item_expr default_ctx env' ctes) l).
Proof.
  intros (IHe & _) Hn Hl. eapply sound_mono; [apply mapR_same|]. apply sound_fold. intros it Hx.
  pose proof (sum_by_elem whole_item l _ Hx) as Hs. destruct it as [| |x alias]; simpl in Hs |- *;
    try (by apply sound_none).
  eapply sound_mono; [|apply IHe; [lia|done]]. intros E. simpl. by rewrite E.
Qed.

Lemma single_foreign_same from ctes :
  is_single_foreign_table env' from ctes = is_single_foreign_table env from ctes.
Proof. unfold is_single_foreign_table. by rewrite same_catalog, same_fctx. Qed.

Lemma agree_select_step n s : agree_upto n -> (whole_select s <= n)%nat -> agree_select s.
Proof.
  intros Hup Hle ctx ctes Hn. pose proof Hup as (IHe & IHq & IHb & IHs & IHt & _).
  destruct s as [projection from filter distinct group_by having order limit offset lock]; simpl in Hle |- *.
  eapply sound_mono;
    [|apply (sound_seq _ _ _ (Forall (fun te => forall bounds, build_table_expr default_ctx env ctes bounds te
                                          = build_table_expr default_ctx env' ctes bounds te) from));
      [|apply sound_seq; [eapply (agree_items n); [done|done|lia]|
      apply sound_seq; [eapply (agree_option n); [done|done|lia]|
      apply sound_seq; [eapply (agree_option n); [done|done|lia]|
      apply sound_seq; [eapply (agree_exprs n); [done|done|lia]|
      eapply (agree_orders n); [done|done|lia]]]]]]].
  - intros (Hf & Hp & Hfi & Hh & Hg%mapR_same & Ho) tail. cbn zeta. rewrite Ho, single_foreign_same, same_ctx.
    destruct (match tail with Some (o, l, f) => _ | None => _ end) as [[[order_ limit_] offset_] lock_].
    repeat (apply bind_cong; [done|intros ?]). apply bind_cong; [|done].
    destruct from as [|first rest]; [done|]. inversion Hf as [|?? Hfirst Hrest]; subst.
    apply bind_cong; [apply Hfirst|]. intros rel. apply foldM_same.
    eapply Forall_impl; [exact Hrest|]. intros te Hte acc. by rewrite Hte.
  - apply sound_fold. intros te Hte. apply IHt; [|done].
    pose proof (sum_by_elem whole_table from te Hte). lia.
Qed.

Lemma agree_ctes n l : agree_upto n -> (sum_by whole_cte l < n)%nat -> forall ctx ctes out ctx' out',
  same_names ctx ctes ->
  foldM (fun '(next, out) cte => collect_cte_ranges cat_kv map next cte out) (ctx, out) l = Ok (ctx', out') ->
  out ⊆ out' /\
  (out' ⊆ S ->
   foldM (evaluate_cte default_ctx env) ctes l = foldM (evaluate_cte default_ctx env') ctes l /\
   forall ctes', foldM (evaluate_cte default_ctx env) ctes l = Ok ctes' -> same_names ctx' ctes').
Proof.
  intros Hup. pose proof Hup as (_ & IHq & _). induction l as [|[name columns q] l IH]; intros Hl ctx ctes out ctx' out' Hn E.
  { injection E as <- <-. split; [done|]. intros _. split; [done|]. by intros ctes' [= <-]. }
  simpl in Hl, E |- *. apply bind_Ok in E as ([ctx1 out1] & E1 & E2). apply bind_Ok in E1 as (out2 & E1 & [= <- <-]).
  destruct (IHq q ltac:(lia) ctx ctes Hn _ _ E1) as [Hs1 Hq].
  assert (forall rel : Relation, same_names (ctx ++ [name]) (<[name := rel]> ctes)) as Hn'
    by (intros; by apply same_names_insert).
  pose proof (fun rel => IH ltac:(lia) _ _ _ _ _ (Hn' rel) E2) as IH'.
  split; [etrans; [done|apply (IH' (mkRelation [] []))]|]. intros Hs.
  assert (out2 ⊆ S) as Hs2 by (etrans; [apply (IH' (mkRelation [] []))|done]). rewrite (Hq Hs2).
  destruct (match q_locking q with Some _ => _ | None => Ok () end) as [[]|?]; simpl; [|done].
  destruct (query_to_relation_with_ctes default_ctx env' ctes q) as [rel|?]; simpl; [|done].
  destruct (apply_cte_column_aliases rel name columns) as [rel'|?]; simpl; [|done].
  by apply (IH' rel').
Qed.

Lemma agree_with_step n w : agree_upto n -> (whole_with w <= n)%nat -> agree_with w.
Proof.
  intros Hup Hle ctx ctes out ctx' out' Hn E. destruct w as [recursive l]. simpl in Hle, E |- *.
  destruct recursive; [done|]. simpl. eapply (agree_ctes n); [done|lia|done|done].
Qed.

(** The body and the tail of a query, once its WITH clause is in scope. *)
Definition query_rest (env : ReadEnv) (ctes : CteContext) (q : QueryExpr) : xresult Relation :=
  query_to_relation_with_ctes default_ctx env ctes (set_with None q).

Lemma agree_rest n ctx ctes body order limit offset locking :
  agree_upto n -> (whole_set body + sum_by whole_order order < n)%nat -> same_names ctx ctes ->
  sound S (fun out => out ← collect_set_expr_ranges cat_kv map ctx body out;
                      foldM (fun out item => collect_order_ranges cat_kv map ctx item out) out order)
    (forall w, query_rest env ctes (mkQueryExpr w body order limit offset locking)
               = query_rest env' ctes (mkQueryExpr w body order limit offset locking)).
Proof.
  intros Hup Hle Hn. pose proof Hup as (IHe & IHq & IHb & IHs & IHt & IHw).
  pose proof (agree_orders n ctx ctes order Hup Hn ltac:(lia)) as Ho.
  destruct body as [[s|rows|q]|op all l r]; simpl in Hle |- *; unfold query_rest; simpl.
  - eapply sound_mono; [|apply sound_seq; [sub IHs|exact Ho]]. intros [Es Eo] _. rewrite Eo.
    apply bind_cong; [done|]. intros _. apply Es.
  - eapply sound_mono; [|apply sound_seq; [apply sound_fold; intros row Hrow|exact Ho]].
    + intros [Er Eo] _. rewrite Eo, same_ctx. apply bind_cong; [|done]. apply mapR_same.
      eapply Forall_impl; [exact Er|]. intros row. apply mapR_same.
    + eapply (agree_exprs n); [done|done|]. pose proof (sum_by_elem (sum_by whole_expr) rows row Hrow). lia.
  - eapply sound_mono; [|apply sound_seq; [sub IHq|exact Ho]]. intros [Eq Eo] _. by rewrite Eq, Eo, same_ctx.
  - eapply sound_mono; [|apply sound_seq; [apply sound_seq; sub IHb|exact Ho]].
    intros [[El Er] Eo] _. rewrite Eo, same_catalog, same_ctx. by repeat (apply bind_cong; [done|intros ?]).
Qed.

Lemma same_names_exists ctx : exists ctes, same_names ctx ctes.
Proof.
  induction ctx as [|name ctx [ctes Hn]] using rev_ind.
  2: { exists (<[name := mkRelation [] []]> ctes). by apply same_names_insert. }
  exists ∅. intros n. symmetry. apply bool_decide_eq_false_2. intros [? Hl]. done.
Qed.

Lemma agree_query_step n q : agree_upto n -> (whole_query q <= n)%nat -> agree_query q.
Proof.
  intros Hup Hle ctx ctes Hn out out'. pose proof Hup as (IHe & IHq & IHb & IHs & IHt & IHw).
  destruct q as [w body order limit offset locking].
  cut (whole_set body + sum_by whole_order order < n)%nat; [intros Hb|simpl in Hle; lia].
  pose proof (fun ctx ctes => agree_rest n ctx ctes body order limit offset locking Hup Hb) as Hrest.
  unfold sound, query_rest in Hrest. simpl in Hle, Hrest |- *.
  intros ([ctx1 out1] & Ew & E)%bind_Ok.
  assert (out1 ⊆ out') as Hs2 by (destruct (same_names_exists ctx1) as [ctes0 Hn0]; by eapply Hrest).
  destruct w as [w|].
  - destruct (IHw w ltac:(simpl in Hle; lia) ctx ctes out ctx1 out1 Hn Ew) as [Hs1 Hw].
    split; [by etrans|]. intros Hs. destruct (Hw ltac:(by etrans)) as [<- Hn1].
    destruct (evaluate_with_clause default_ctx env ctes w) as [ctes1|e]; simpl; [|done].
    exact (proj2 (Hrest ctx1 ctes1 (Hn1 _ eq_refl) _ _ E) Hs None).
  - injection Ew as <- <-. split; [done|]. intros Hs. exact (proj2 (Hrest ctx ctes Hn _ _ E) Hs None).
Qed.

Lemma agree_all n : agree_upto n.
Proof.
  induction n as [|n IH]; [unfold agree_upto; split_and!; intros; lia|].
  unfold agree_upto; split_and!; intros x Hx;
    [apply (agree_expr_step n)|apply (agree_query_step n)|apply (agree_set_step n)|apply (agree_select_step n)
    |apply (agree_table_step n)|apply (agree_with_step n)]; by (done || lia).
Qed.

Lemma routed_query_same q ctx out :
  collect_query_expr_ranges cat_kv map ctx q ∅ = Ok out -> out ⊆ S -> ctx = [] ->
  query_to_relation default_ctx env q = query_to_relation default_ctx env' q.
Proof.
  intros Hc Hs ->. destruct (agree_all (Datatypes.S (whole_query q))) as (_ & IHq & _).
  eapply (IHq q); [lia| |exact Hc|exact Hs]. intros n. symmetry. apply bool_decide_eq_false_2. by intros [? ?].
Qed.

End Reads.

Section Routed.
Context `{ExtCal} `{MathLib} `{Unicode} `{!ExtPow}.
Context (default_ctx : EvalCtx).

(** C12: A routed query needs the range it is routed to and no other. When the gateway
    sends a query to one range (or, for a query without stored tables, to range 0), its
    answer is the same for every reader with the same catalog, session settings and
    foreign tables that sees the same rows in the stored tables of that range: whatever
    the tables of the other ranges hold, and whichever common table expressions,
    subqueries, joins and set operations the query is made of. *)
Theorem routed_query_reads_one_range map env env' q pin :
  pinning_range (en_catalog_kv env) map (Ast.Query q) = Ok pin ->
  en_catalog_kv env' = en_catalog_kv env -> en_ctx env' = en_ctx env -> en_fctx env' = en_fctx env ->
  (forall name t, get_table (en_catalog_kv env) name = Ok t -> t_foreign t = None ->
     pin = Some (range_for_table map (t_id t)) -> table_rows env' t = table_rows env t) ->
  execute_read default_ctx env' (Ast.Query q) = execute_read default_ctx env (Ast.Query q).
Proof.
  intros Hp Hk Hc Hf Hr. unfold pinning_range in Hp. apply bind_Ok in Hp as (ranges & Ec & Hp).
  simpl. rewrite Hc. f_equal. symmetry.
  eapply (routed_query_same default_ctx map ranges env env' Hk Hc Hf); [|exact Ec|done|done].
  intros name t Ht Hl Hin. eapply Hr; [done|done|].
  rewrite <- elem_of_btree_list in Hin. destruct (btree_list ranges) as [|r [|]]; [done| |done].
  destruct Hin as [->|[]]. by injection Hp as <-.
Qed.

End Routed.

(** ** A cluster of two ranges *)

(** Tables from 100 on are in range 1; the catalog has one table, in range 0. *)
Definition two_ranges : RangeMap := mkRangeMap [100].
Definition one_table : MemKv := kv_put kv_new (catalog_key "t") (serialize_schema 1 [] None).

(** A row of a table of range 1, which a reader of range 0 need not have. *)
Definition elsewhere : MemKv := kv_put kv_new (version_key_xid 150 1 3) [0].

Definition read_env (kv : MemKv) : ReadEnv (H := model_ext) :=
  mkEnv one_table kv one_table NO_GLOBAL_SNAPSHOT (mkSnapshot 3 4 [3]) None epoch_ctx (mkForeignCtx None "public").

Definition select_from_t : QueryExpr :=
  mkQueryExpr None (SetQuery (BodySelect (mkSelectStmt [ItemExpr (IntLiteral "1") None] [TableRef "t" None]
    None false [] None [] None None None))) [] None None None.

Lemma one_table_only name t : get_table one_table name = Ok t -> t_id t = 1.
Proof.
  unfold get_table, one_table. intros (b & Hb & Ht)%bind_Ok.
  assert (b = serialize_schema 1 [] None) as ->.
  { unfold kv_put, kv_get in Hb. cbn [kv_map] in Hb. destruct (decide (catalog_key name = catalog_key "t")) as [Heq|Hne].
    - rewrite Heq, lookup_insert_eq in Hb. by injection Hb as <-.
    - rewrite lookup_insert_ne in Hb by done. done. }
  assert (deserialize_schema (serialize_schema 1 [] None) = Ok (1, [], None)) as Hd by (vm_compute; reflexivity).
  rewrite Hd in Ht. by injection Ht as <-.
Qed.

Lemma routed_query_reads_one_range_witness :
  execute_read epoch_ctx (read_env elsewhere) (Ast.Query select_from_t)
  = execute_read epoch_ctx (read_env kv_new) (Ast.Query select_from_t).
Proof.
  apply (routed_query_reads_one_range epoch_ctx two_ranges (read_env kv_new) (read_env elsewhere) select_from_t (Some 0));
    [vm_compute; reflexivity|reflexivity..|].
  intros name t Ht _ _. unfold table_rows, scan_live. rewrite (one_table_only name t Ht).
  assert (scan_prefix (en_kv (read_env elsewhere)) (table_prefix 1) = []) as -> by (vm_compute; reflexivity).
  assert (scan_prefix (en_kv (read_env kv_new)) (table_prefix 1) = []) as -> by (vm_compute; reflexivity).
  reflexivity.
Defined.
