(* ===== verification/RouterProps.v ===== *)
(** * What the gateway guarantees, and where it does not

    Theorems about the statements of a connection to a node that leads every range, over
    every behaviour of the parts its sessions wait for (of the committer: that a batch it
    reports as committed is applied): COMMIT or ROLLBACK of a transaction that spans
    ranges reports the decision that is recorded and leaves no participant behind;
    and three ways in which blocks that leave range 0 differ from those that do not. *)
From Stdlib Require Import ZArith Lia Ascii.
From stdpp Require Import base list gmap strings sorting.
From S2P Require Import Prelude Text Chars Keys Store Datum Float DateTimeBin ExtModel ExtArith DateTime.
From S2P Require Import Calendar Numeric NumericFn Ops Cast Mvcc StateMachine Errors Catalog Scope XidAlloc LockMgr.
From S2P Require Import Exec Ast AggCall EvalOps Func DateTimeFn FormatFn Eval Wire Project.
From S2P Require Import Join Aggregate Values SetOps ScanBounds Describe Query RangeMap Act Write Session.
From S2P Require Import LibModel SessionProps Router RouterReads.
Open Scope Z_scope.

Lemma NoDup_btree_list s : NoDup (btree_list s).
Proof. unfold btree_list. rewrite merge_sort_Permutation. apply NoDup_elements. Qed.

Definition terminal (d : XidStatus) : Prop := d = Committed \/ d = Aborted.

(** A store after the batches of other sessions. No batch deletes from the commit log. *)
Definition later (kv : MemKv) (ops : list WriteOp) (kv' : MemKv) : Prop :=
  apply_ops kv ops = Some kv' /\ forall x, ~ deletes (clog_key x) ops.

(** What a replicated committer promises: a batch that is acknowledged has been applied to
    the leader's store by the state machine, with what others commit before and after. *)
Definition commit_applies `{!Awaits} : Prop := forall ops e e',
  (forall x, ~ deletes (clog_key x) ops) -> aw_commit ops e = (e', Ok ()) ->
  exists before kv after, later (sh_kv e) before kv /\ later kv (ops ++ after) (sh_kv e').

(** The first decision on a transaction is the one that stays. *)
Lemma decision_applied kv g st ops kv' :
  terminal st -> later kv (clog_put_op g st :: ops) kv' ->
  exists d, terminal d /\ clog_get kv' g = Ok d /\ (d = st \/ clog_get kv g = Ok d).
Proof.
  intros Hst [E Hnd]. cbn [apply_ops] in E. apply bind_Some in E as (kv1 & E1 & E2).
  assert (~ deletes (clog_key g) ops) as Hg by (intros Hd; apply (Hnd g); by right).
  assert (exists d, terminal d /\ clog_get kv1 g = Ok d /\ (d = st \/ clog_get kv g = Ok d)) as (d & Hd & Hg1 & Hor).
  { unfold clog_get. rewrite (apply_op_get _ _ _ _ E1). rewrite decide_True by done. cbn [clog_put_op].
    unfold merge_value. assert (is_counter_key (clog_key g) = false) as ->.
    { destruct (is_counter_key (clog_key g)) eqn:Ec; [|done]. apply counter_not_clog in Ec. by rewrite is_clog_key_clog in Ec. }
    rewrite is_clog_key_clog.
    destruct (kv_get kv (clog_key g)) as [b|]; [destruct (is_terminal b) eqn:Et|].
    - apply is_terminal_spec in Et as [Et|Et]; eexists; (split_and!; [|exact Et|right; exact Et]); [by left|by right].
    - exists st. split_and!; [done| |by left]. by destruct Hst as [-> | ->].
    - exists st. split_and!; [done| |by left]. by destruct Hst as [-> | ->]. }
  exists d. split_and!; [done| |done]. by eapply clog_terminal_stays.
Qed.

Section RouterProps.
Context `{ExtCal} `{MathLib} `{Unicode} `{!ExtPow}.
Context (default_ctx : EvalCtx) `{!Awaits} (clock : EngineState -> Timestamp) {R : Type}.

#[local] Existing Instance in_process.

Local Abbreviation state := (RangeRouter * Node R)%type.
Local Abbreviation ract := (act state).

(** ** Rules for the actions of a router *)

Lemma wp_node {A} (m : act (Node R) A) (Q : A -> state -> Prop) E rt nd :
  wp m (fun a nd => Q a (rt, nd)) (fun e nd => E e (rt, nd)) nd -> wp (node m) Q E (rt, nd).
Proof. unfold wp, node. by destruct (m nd) as [nd' [a|e]]. Qed.

Lemma wp_node_get (Q : Node R -> state -> Prop) E rt nd : Q nd (rt, nd) -> wp (node io_get) Q E (rt, nd).
Proof. done. Qed.

Lemma wp_router (Q : RangeRouter -> state -> Prop) E rt nd : Q rt (rt, nd) -> wp router Q E (rt, nd).
Proof. done. Qed.

Lemma wp_set_router f (Q : () -> state -> Prop) E rt nd : Q () (f rt, nd) -> wp (set_router f) Q E (rt, nd).
Proof. done. Qed.

(** The session of a range, which is opened at its first use. *)
Definition session_of (st : state) (eg : Engine) (r : RangeId) : SqlSession :=
  default (connect eg (nd_gtm st.2)) (rt_sessions st.1 !! r).

Lemma wp_session {A} r (m : act (SqlSession * EngineState) A) (Q : A -> state -> Prop)
    (E : fault ExecError -> state -> Prop) rt nd :
  (nd_engines nd !! r = None -> E Panicked (rt, nd)) ->
  (forall eg, nd_engines nd !! r = Some eg ->
     wp m (fun a s => Q a (set_sessions (<[r := s.1]> (rt_sessions rt)) rt, put_engine r eg s.2 nd))
       (fun e s => E e (set_sessions (<[r := s.1]> (rt_sessions rt)) rt, put_engine r eg s.2 nd))
       (session_of (rt, nd) eg r, engine_view (nd_range0 nd) r (eg_state eg))) ->
  wp (session_mut r m) Q E (rt, nd).
Proof.
  intros HN HS. unfold wp, session_mut, session_of in *. destruct (nd_engines nd !! r) as [eg|]; [|auto].
  specialize (HS eg eq_refl). cbn [fst snd] in HS. by destruct (m _) as [[s e] [a|f]].
Qed.

Lemma wp_gtm (Q : Gtm -> Node R -> Prop) E nd :
  (forall gtm, nd_gtm nd = Some gtm -> Q gtm nd) -> E Panicked nd -> wp the_gtm Q E nd.
Proof. intros HQ HE. unfold wp, the_gtm. destruct (nd_gtm nd) as [gtm|]; [by apply HQ|done]. Qed.

Lemma wp_on_engine {A} r (m : io A) (Q : A -> Node R -> Prop) (E : fault ExecError -> Node R -> Prop) nd :
  (nd_engines nd !! r = None -> E Panicked nd) ->
  (forall eg, nd_engines nd !! r = Some eg ->
     wp m (fun a e => Q a (put_engine r eg e nd)) (fun f e => E f (put_engine r eg e nd))
       (engine_view (nd_range0 nd) r (eg_state eg))) ->
  wp (on_engine r m) Q E nd.
Proof.
  intros HN HS. unfold wp, on_engine in *. destruct (nd_engines nd !! r) as [eg|]; [|auto].
  specialize (HS eg eq_refl). by destruct (m _) as [e [a|f]].
Qed.

(** ** The end of a global transaction *)

Lemma wp_finish_current s sh (Q : () -> SqlSession * EngineState -> Prop) E :
  (forall s' sh', ss_state s' = Idle -> ss_global_xid s' = None -> sh_kv sh' = sh_kv sh ->
     sh_range0 sh' = sh_range0 sh -> (forall x, local_xid s = Some x -> released x sh') -> Q () (s', sh')) ->
  wp finish_current_txn Q E (s, sh).
Proof.
  intros HQ. unfold finish_current_txn. wp_step. apply wp_self. wp_step. destruct (local_xid s) as [x|].
  - apply wp_shared. unfold finish_xid. wp_step. apply wp_set_self. apply HQ; try done.
    intros y [= <-]. split; [simpl; set_solver|apply release_all_holds].
  - wp_step. apply wp_set_self. by apply HQ.
Qed.

(** A participant has left the transaction: its session is idle, its transaction id is
    no longer running and holds no row lock. *)
Definition left_behind (st st' : state) (r : RangeId) : Prop :=
  exists s eg, rt_sessions st'.1 !! r = Some s /\ ss_state s = Idle /\ ss_global_xid s = None /\
    nd_engines st'.2 !! r = Some eg /\
    forall s0 x, rt_sessions st.1 !! r = Some s0 -> local_xid s0 = Some x -> released x (eg_state eg).

Definition untouched (st st' : state) (r : RangeId) : Prop :=
  rt_sessions st'.1 !! r = rt_sessions st.1 !! r /\ nd_engines st'.2 !! r = nd_engines st.2 !! r.

Lemma release_on_done coord g committed r rt nd :
  is_Some (nd_engines nd !! r) ->
  wp (release_on coord g committed r)
    (fun _ st' => rt_pin st'.1 = rt_pin rt /\ nd_range0 st'.2 = nd_range0 nd /\ left_behind (rt, nd) st' r /\
       forall r', r' <> r -> untouched (rt, nd) st' r')
    (fun _ _ => False) (rt, nd).
Proof.
  intros [eg Hr]. unfold release_on. wp_step. apply wp_node_get. unfold leads_here. rewrite Hr.
  rewrite bool_decide_eq_true_2 by done. cbn [andb gw_leads in_process].
  assert ((if committed then commit_release else abort_release) = finish_current_txn) as -> by (by destruct committed).
  apply wp_session; [congruence|]. intros eg' Heg. rewrite Hr in Heg. injection Heg as <-.
  apply wp_finish_current. intros s' sh' Hs Hg Hkv Hr0 Hrel. cbn [fst snd rt_pin set_sessions].
  split_and!; [done| | |].
  - simpl. rewrite Hkv, Hr0. unfold engine_view. by destruct (r =? 0).
  - exists s', (mkEngine sh' (eg_mode eg) (eg_barrier eg) (eg_scanner eg)). simpl. rewrite !lookup_insert_eq.
    split_and!; try done. intros s0 x Hs0 Hx. apply Hrel. unfold session_of. simpl. by rewrite Hs0.
  - intros r' Hne. unfold untouched. simpl. by rewrite !lookup_insert_ne.
Qed.

Lemma release_all_done coord g committed l rt nd :
  NoDup l -> (forall r, r ∈ l -> is_Some (nd_engines nd !! r)) ->
  wp (io_fold (fun _ r => release_on coord g committed r) () l)
    (fun _ st' => rt_pin st'.1 = rt_pin rt /\ nd_range0 st'.2 = nd_range0 nd /\
       forall r, (r ∈ l -> left_behind (rt, nd) st' r) /\ (r ∉ l -> untouched (rt, nd) st' r))
    (fun _ _ => False) (rt, nd).
Proof.
  intros Hl; revert rt nd. induction Hl as [|r l Hr Hl IH]; intros rt nd He; cbn [io_fold].
  { wp_step. split_and!; [done..|]. intros r. split; [by intros ?%not_elem_of_nil|by split]. }
  wp_step. eapply wp_mono; [apply release_on_done, He; set_solver| |done].
  intros [] [rt1 nd1] (Hp1 & Hk1 & Hb1 & Hu1). cbn [fst snd] in *. eapply wp_mono; [apply IH| |done].
  { intros r' Hr'. destruct (Hu1 r') as [_ Hsame]; [by intros ->|]. cbn [snd] in Hsame. rewrite Hsame. apply He. set_solver. }
  intros [] [rt2 nd2] (Hp2 & Hk2 & Hb2). cbn [fst snd] in *. split_and!; [congruence..|].
  intros r'. destruct (Hb2 r') as [Hin Hout]. split.
  - intros [->|Hr']%elem_of_cons.
    + destruct Hb1 as (s & eg & ? & ? & ? & ? & ?). destruct (Hout Hr) as [Hs Heg]. cbn [fst snd] in *.
      exists s, eg. cbn [fst snd]. by rewrite Hs, Heg.
    + assert (r' <> r) as Hne by (by intros ->). destruct (Hu1 r' Hne) as [Hs Heg]. cbn [fst snd] in *.
      destruct (Hin Hr') as (s & eg & ? & ? & ? & ? & ?). exists s, eg. cbn [fst snd] in *. by rewrite <- Hs.
  - intros [Hne Hr']%not_elem_of_cons. destruct (Hout Hr') as [Hs Heg], (Hu1 r' Hne) as [Hs1 Heg1].
    unfold untouched. cbn [fst snd] in *. by rewrite Hs, Heg.
Qed.

(** The decision asked for, or the one another session has recorded first. *)
Definition decided (g : Z) (want : XidStatus) (kv kv' : MemKv) (d : XidStatus) : Prop :=
  terminal d /\ clog_get kv' g = Ok d /\
  (d = want \/ exists before kv1, later kv before kv1 /\ clog_get kv1 g = Ok d).

Definition is_commit (d : XidStatus) : bool := match d with Committed => true | _ => false end.

Lemma local_commit_recorded g commit rt (nd : Node R) :
  commit_applies ->
  wp (node (co_commit_global LocalCoordinator g commit))
    (fun committed st => st.1 = rt /\ dom (nd_engines st.2) = dom (nd_engines nd) /\
       exists d, decided g (if commit then Committed else Aborted) (nd_range0 nd) (nd_range0 st.2) d /\
         committed = is_commit d)
    (fun _ _ => True) (rt, nd).
Proof.
  intros Happ. apply wp_node. cbn [co_commit_global LocalCoordinator]. wp_step. unfold node_commit_decision. wp_step.
  apply wp_gtm; [|done]. intros gtm _. apply wp_on_engine; [done|]. intros eg Heg. wp_step.
  apply wp_await; [|done]. intros e [] Hc. wp_step. wp_step. apply wp_lift; [|done].
  assert (forall x, ~ deletes (clog_key x) [clog_put_op g (if commit then Committed else Aborted); next_global_xid_op gtm])
    as Hnd by (intros x Hd; by destruct Hd as [Hd|[Hd|[]]]).
  destruct (Happ _ _ _ Hnd Hc) as (before & kv & after & Hb & Ha). cbn [app] in Ha.
  apply decision_applied in Ha as (d & Ht & Hd & Hor); [|destruct commit; [by left|by right]].
  intros d' Hd'. rewrite Hd in Hd'. injection Hd' as <-.
  wp_step. unfold node_finish_global. wp_step. apply wp_gtm; [|done]. intros gtm' _. wp_step. wp_step.
  simpl. split_and!; [done| |].
  - rewrite dom_insert_L. apply subseteq_union_1_L, singleton_subseteq_l, elem_of_dom. by eexists.
  - exists d. split; [|done]. split_and!; [done..|]. destruct Hor as [|Hor]; [by left|right]. by exists before, kv.
Qed.

Lemma global_end stmt ranges g rt (nd : Node R) rt' nd' res :
  commit_applies -> ends_transaction stmt = true -> rt_pin rt = PinGlobal ranges g ->
  (forall r, r ∈ ranges -> is_Some (nd_engines nd !! r)) ->
  dispatch default_ctx clock stmt (rt, nd) = ((rt', nd'), Ok res) ->
  rt_pin rt' = PinNone /\
  (exists d, decided g (match stmt with Commit => Committed | _ => Aborted end) (nd_range0 nd) (nd_range0 nd') d /\
     res = QCommand (match d with Committed => "COMMIT" | _ => "ROLLBACK" end)) /\
  forall r, r ∈ ranges -> left_behind (rt, nd) (rt', nd') r.
Proof.
  intros Happ Hend Hpin Heng Hrun.
  assert (dispatch default_ctx clock stmt (rt, nd) = finish_txn default_ctx clock stmt (rt, nd)) as Hd
    by (by destruct stmt).
  rewrite Hd in Hrun. clear Hd.
  refine (wp_run _ (fun res st => rt_pin st.1 = PinNone /\
    (exists d, decided g (match stmt with Commit => Committed | _ => Aborted end) (nd_range0 nd) (nd_range0 st.2) d /\
       res = QCommand (match d with Committed => "COMMIT" | _ => "ROLLBACK" end)) /\
    forall r, r ∈ ranges -> left_behind (rt, nd) st r) (fun _ _ => True) _ _ _ _ Hrun).
  unfold finish_txn. wp_step. apply wp_router. wp_step. apply wp_set_router. rewrite Hpin. wp_step.
  apply wp_lift; [|done]. intros coord [= <-]. wp_step. eapply wp_mono; [by apply local_commit_recorded| |done].
  intros committed [rt1 nd1] (Hrt & Hdom & d & Hd & Hc). cbn [fst snd] in *. subst rt1. wp_step.
  eapply wp_mono; [apply release_all_done; [apply NoDup_btree_list|]| |done].
  { intros r Hr%list_elem_of_In%elem_of_btree_list. apply Heng in Hr. rewrite <- elem_of_dom in *. by rewrite Hdom. }
  intros [] [rt2 nd2] (Hp & Hk & Hb). cbn [fst snd] in *. wp_step. cbn [fst snd]. split_and!; [done| |].
  - exists d. rewrite Hk. split; [by destruct stmt|]. subst committed. by destruct d.
  - intros r Hr. apply Hb. by apply list_elem_of_In, elem_of_btree_list.
Qed.


(** ** Blocks that leave range 0 *)

(** An action that keeps the pin and the ranges that have an engine here. *)
Definition keeps {A} (m : ract A) : Prop := forall rt nd,
  let same (st : state) := rt_pin st.1 = rt_pin rt /\ dom (nd_engines st.2) = dom (nd_engines nd) in
  wp m (fun _ => same) (fun _ => same) (rt, nd).

Lemma keeps_bind {A B} (m : ract A) (f : A -> ract B) : keeps m -> (forall a, keeps (f a)) -> keeps (m ≫= f).
Proof.
  intros Hm Hf rt nd. apply wp_bind. eapply wp_mono; [apply Hm| |done].
  intros a [rt1 nd1] [Hp He]. eapply wp_mono; [apply Hf| |]; intros ? [rt2 nd2] [? ?]; cbn [fst snd] in *;
    split; congruence.
Qed.

Lemma keeps_session {A} r (m : act (SqlSession * EngineState) A) : keeps (session_mut r m).
Proof.
  intros rt nd same. apply wp_session; [done|]. intros eg Heg.
  assert (forall s e, same (set_sessions (<[r := s]> (rt_sessions rt)) rt, put_engine r eg e nd)) as Hs.
  { intros s e. split; [done|]. simpl. rewrite dom_insert_L.
    apply subseteq_union_1_L, singleton_subseteq_l, elem_of_dom. by eexists. }
  unfold wp. destruct (m _) as [[s e] [a|f]]; apply Hs.
Qed.

Lemma keeps_run_on r stmt : keeps (run_on default_ctx clock r stmt).
Proof.
  unfold run_on. apply keeps_bind; [by intros rt nd|]. intros nd. destruct (leads_here nd r); [apply keeps_session|].
  apply keeps_bind; [by intros rt nd'|]. by intros rt rt' nd'.
Qed.

Lemma keeps_stage_on r g stmt : keeps (stage_on default_ctx clock r g stmt).
Proof.
  unfold stage_on. apply keeps_bind; [by intros rt nd|]. intros nd. destruct (leads_here nd r).
  - apply keeps_bind; [apply keeps_session|]. intros _. apply keeps_bind; [apply keeps_session|].
    intros _. apply keeps_session.
  - intros rt nd' same. wp_step. apply wp_lift; [|done]. intros coord [= <-]. wp_step. apply wp_router.
    wp_step. apply wp_node. cbn [co_stage_remote LocalCoordinator]. by apply wp_raise.
Qed.

(** The connection is in the global transaction [g], which has at least these ranges. *)
Definition in_global (g : Z) (ranges : gset Z) (st : state) : Prop :=
  exists ranges1, rt_pin st.1 = PinGlobal ranges1 g /\ ranges ⊆ ranges1.

Lemma global_run_on g ranges r stmt st :
  in_global g ranges st ->
  wp (run_on default_ctx clock r stmt) (fun _ => in_global g ranges) (fun _ => in_global g ranges) st.
Proof.
  destruct st as [rt nd]. intros (r1 & Hp & Hs). cbn [fst] in Hp.
  eapply wp_mono; [apply keeps_run_on| |]; intros ? [rt2 nd2] [Hp2 _]; exists r1; cbn [fst snd] in *; (split; [congruence|done]).
Qed.

Lemma global_route g ranges stmt pinning rt nd :
  rt_pin rt = PinGlobal ranges g ->
  wp (route default_ctx clock stmt (rt_pin rt) pinning) (fun _ => in_global g ranges) (fun _ => in_global g ranges) (rt, nd).
Proof.
  intros Hpin. rewrite Hpin. destruct pinning as [r|]; cbn [route]; [|apply global_run_on; by exists ranges].
  wp_step. apply wp_set_router. eapply wp_mono; [apply keeps_stage_on| |]; intros ? [rt2 nd2] [Hp2 _];
    (exists ({[r]} ∪ ranges); cbn [fst snd rt_pin set_pin] in *; split; [done|set_solver]).
Qed.

(** No statement but COMMIT and ROLLBACK ends a global transaction. *)
Lemma global_stays g ranges stmt rt nd :
  ends_transaction stmt = false -> rt_pin rt = PinGlobal ranges g ->
  wp (dispatch default_ctx clock stmt) (fun _ => in_global g ranges) (fun _ => in_global g ranges) (rt, nd).
Proof.
  intros Hend Hpin. assert (in_global g ranges (rt, nd)) as Hst by (by exists ranges).
  unfold dispatch. wp_step. apply wp_router. wp_step. apply wp_node_get. wp_step.
  apply wp_lift; [|done]. intros pinning _.
  assert (gated stmt && match pinning with Some r => leads_here nd r && recovering nd r | None => false end = false) as ->.
  { unfold recovering. cbn [gw_serving in_process]. destruct pinning; [rewrite andb_false_r|]; apply andb_false_r. }
  destruct stmt; try done; try by apply global_route.
  wp_step. apply wp_set_router. rewrite Hpin. by apply global_run_on.
Qed.


(** A statement on one range leaves the sessions of the others alone. *)
Lemma run_on_other r stmt rt (nd : Node R) r' :
  r' <> r ->
  wp (run_on default_ctx clock r stmt) (fun _ st => rt_sessions st.1 !! r' = rt_sessions rt !! r')
    (fun _ st => rt_sessions st.1 !! r' = rt_sessions rt !! r') (rt, nd).
Proof.
  intros Hne. unfold run_on. wp_step. apply wp_node_get. destruct (leads_here nd r).
  - apply wp_session; [done|]. intros eg _. unfold wp.
    destruct (run_one _ _ _ _) as [[s e] [a|f]]; simpl; by rewrite lookup_insert_ne.
  - wp_step. apply wp_router. by apply wp_node.
Qed.

Lemma leads_engine (nd : Node R) r : is_Some (nd_engines nd !! r) -> leads_here nd r = true.
Proof. intros Hr. unfold leads_here. by rewrite bool_decide_eq_true_2. Qed.

(** A statement that names a stored table is routed by its range. *)
Lemma dispatch_table stmt rt (nd : Node R) r :
  pinning_range (nd_range0 nd) (rt_map rt) stmt = Ok (Some r) ->
  dispatch default_ctx clock stmt (rt, nd) = route default_ctx clock stmt (rt_pin rt) (Some r) (rt, nd).
Proof.
  intros Hr. unfold dispatch, mbind, act_bind. cbn [router node io_get fst io_lift]. rewrite Hr. unfold lift. cbn [map_err].
  assert (gated stmt && (leads_here nd r && recovering nd r) = false) as ->.
  { unfold recovering. cbn [gw_serving in_process]. by rewrite !andb_false_r. }
  by destruct stmt.
Qed.

Lemma dispatch_autocommit stmt rt (nd : Node R) r :
  rt_pin rt = PinNone -> pinning_range (nd_range0 nd) (rt_map rt) stmt = Ok (Some r) ->
  dispatch default_ctx clock stmt (rt, nd) = run_on default_ctx clock r stmt (rt, nd).
Proof. intros Hpin Hr. by rewrite (dispatch_table _ _ _ _ Hr), Hpin. Qed.

(** A block that leaves range 0 leaves range 0's session inside a block. BEGIN opens
    one on range 0; when the block is then pinned to another range, COMMIT (and ROLLBACK)
    end it there only. The connection reports that it is idle, but the next INSERT,
    UPDATE or DELETE on a table of range 0 runs inside the forgotten block: it is
    answered as if it had been committed, and is not. *)
Theorem commit_leaves_range0_open stmt p rt (nd : Node R) rt1 nd1 res s0 c0 :
  ends_transaction stmt = true -> rt_pin rt = PinRange p -> p <> 0 ->
  rt_sessions rt !! 0 = Some s0 -> ss_state s0 = InTransaction c0 ->
  dispatch default_ctx clock stmt (rt, nd) = ((rt1, nd1), res) ->
  router_tx_status rt1 = TxIdle /\ rt_sessions rt1 !! 0 = Some s0 /\
  forall write rt2 nd2 res2, is_write write = true ->
    pinning_range (nd_range0 nd1) (rt_map rt1) write = Ok (Some 0) -> is_Some (nd_engines nd1 !! 0) ->
    dispatch default_ctx clock write (rt1, nd1) = ((rt2, nd2), Ok res2) ->
    router_tx_status rt2 = TxIdle /\
    exists s c, rt_sessions rt2 !! 0 = Some s /\ ss_state s = InTransaction c /\ same_block c0 c.
Proof.
  intros Hend Hpin Hp Hs0 Hst0 Hrun.
  assert (run_on default_ctx clock p stmt (set_pin PinNone rt, nd) = ((rt1, nd1), res)) as Hon.
  { rewrite <- Hrun. destruct stmt; try done; unfold dispatch, finish_txn, mbind, act_bind; cbn; by rewrite Hpin. }
  assert (rt_pin rt1 = PinNone) as Hpin1.
  { pose proof (wp_run _ _ _ _ _ _ (keeps_run_on p stmt (set_pin PinNone rt) nd) Hon) as Hk.
    by destruct res; destruct Hk as [Hk _]; cbn [fst rt_pin set_pin] in Hk. }
  assert (rt_sessions rt1 !! 0 = Some s0) as Hs1.
  { pose proof (wp_run _ _ _ _ _ _ (run_on_other p stmt (set_pin PinNone rt) nd 0 ltac:(done)) Hon) as Hk.
    by destruct res; cbn [fst] in Hk; rewrite Hk. }
  unfold router_tx_status. rewrite Hpin1. split_and!; [done..|].
  intros write rt2 nd2 res2 Hw Hr Heng Hrun2. rewrite (dispatch_autocommit _ _ _ _ Hpin1 Hr) in Hrun2.
  pose proof (wp_run _ _ _ _ _ _ (keeps_run_on 0 write rt1 nd1) Hrun2) as [Hp2 _]. cbn [fst] in Hp2.
  rewrite Hp2, Hpin1. split; [done|].
  unfold run_on, mbind, act_bind in Hrun2. cbn [node io_get] in Hrun2. rewrite (leads_engine _ _ Heng) in Hrun2.
  unfold session_mut in Hrun2. destruct Heng as [eg Heg]. rewrite Heg, Hs1 in Hrun2. cbn [default] in Hrun2.
  destruct (run_one _ _ _ _) as [[s e] r] eqn:Hone. injection Hrun2 as <- <- ->.
  apply (run_one_in_block default_ctx clock c0 (ss_guc s0)) in Hone as (c & Hc & Hsame & _);
    [|by destruct write|by exists c0]. exists s, c. cbn. by rewrite lookup_insert_eq.
Qed.

(** The first statement of a block that names a stored table. *)
Lemma dispatch_first stmt rt (nd : Node R) r :
  rt_pin rt = PinOpen -> pinning_range (nd_range0 nd) (rt_map rt) stmt = Ok (Some r) ->
  is_Some (nd_engines nd !! r) ->
  dispatch default_ctx clock stmt (rt, nd) =
  (_ ← ensure_began_on clock r; run_on default_ctx clock r stmt) (set_pin (PinRange r) rt, nd).
Proof.
  intros Hpin Hr Heng. rewrite dispatch_table with (r := r) by done. rewrite Hpin. cbn [route].
  unfold mbind at 1 2, act_bind at 1 2. cbn [node io_get set_router]. by rewrite (leads_engine _ _ Heng).
Qed.

Lemma begin_default s sh :
  ss_state s = Idle ->
  wp (ensure_began clock) (fun _ st => exists c, ss_state st.1 = InTransaction c /\ tx_rr c = false)
    (fun _ _ => False) (s, sh).
Proof.
  intros Hs. unfold ensure_began. wp_step. apply wp_self. rewrite Hs. wp_step. unfold begin. wp_step. apply wp_self.
  rewrite Hs. wp_step. wp_step. wp_step. apply wp_shared. wp_step. wp_step. wp_step. wp_step. wp_step. wp_step.
  apply wp_shared. wp_step. wp_step. wp_step. wp_step. apply wp_set_self. wp_step. wp_step. by eexists.
Qed.

(** The isolation level of a block is lost on every range but range 0. When the first
    statement of a block goes to another range, that range's session opens its own block
    in READ COMMITTED: a BEGIN ISOLATION LEVEL REPEATABLE READ reaches range 0 only. *)
Theorem isolation_lost_off_range0 stmt r rt (nd : Node R) rt1 nd1 eg res :
  rt_pin rt = PinOpen -> pinning_range (nd_range0 nd) (rt_map rt) stmt = Ok (Some r) ->
  nd_engines nd !! r = Some eg -> ss_state (session_of (rt, nd) eg r) = Idle ->
  dispatch default_ctx clock stmt (rt, nd) = ((rt1, nd1), res) -> res <> Err Panicked ->
  exists s c, rt_sessions rt1 !! r = Some s /\ (ss_state s = InTransaction c \/ ss_state s = Failed c) /\
    tx_rr c = false.
Proof.
  intros Hpin Hr Heg Hidle Hrun Hnp.
  set (lost st := exists s c, rt_sessions (fst (st : state)) !! r = Some s /\
    (ss_state s = InTransaction c \/ ss_state s = Failed c) /\ tx_rr c = false).
  rewrite (dispatch_first stmt rt nd r Hpin Hr) in Hrun by (by eexists).
  assert (wp (_ ← ensure_began_on clock r; run_on default_ctx clock r stmt) (fun _ => lost)
            (fun e st => match e with Raised _ => lost st | Panicked => True end) (set_pin (PinRange r) rt, nd)) as Hw.
  { apply wp_bind, wp_session; [done|].
    intros eg' Heg'. rewrite Heg in Heg'. injection Heg' as <-. eapply wp_mono; [by apply begin_default| |done].
    intros [] [s e] (c & Hc & Hrr). cbn [fst snd] in *. unfold run_on. wp_step. apply wp_node_get.
    rewrite leads_engine by (cbn; by rewrite lookup_insert_eq). apply wp_session; [done|]. intros eg1 _.
    unfold session_of. cbn [rt_sessions set_sessions set_pin fst]. rewrite lookup_insert_eq. cbn [default].
    unfold wp. destruct (run_one _ _ _ _) as [[s1 e1] r1] eqn:Hone.
    apply (run_one_in_block default_ctx clock c (ss_guc s)) in Hone; [| |by exists c].
    - destruct r1 as [a|[f|]]; [| |done]; destruct Hone as (c1 & Hc1 & [Hrr1 _ _ _ _] & _);
        exists s1, c1; cbn; rewrite lookup_insert_eq; (split_and!; [done|auto|congruence]).
    - by destruct stmt. }
  pose proof (wp_run _ _ _ _ _ _ Hw Hrun) as Hl. by destruct res as [a|[f|]].
Qed.

End RouterProps.

(** ** A node with two ranges *)

Definition pair_engine (barrier : bool) : Engine (H := model_ext) :=
  mkEngine (mkShared kv_new None (mkProcArray 6 {[5]} PReplicated) (seq_new PReplicated) lockmgr_new)
    PReplicated barrier None.

(** Table [t] is in range 0 and [u] in range 1. *)
Definition pair_catalog : MemKv :=
  kv_put (kv_put kv_new (catalog_key "t") (serialize_schema 1 [] None)) (catalog_key "u") (serialize_schema 150 [] None).

Definition pair_node : Node (H := model_ext) () :=
  mkNode {[0 := pair_engine false; 1 := pair_engine true]} pair_catalog
    (Some (mkGtm (GLOBAL_XID_BASE + 1) {[GLOBAL_XID_BASE]})) ().

Lemma pair_engines r : r = 0 \/ r = 1 -> is_Some (nd_engines pair_node !! r).
Proof. intros [-> | ->]; by eexists. Qed.

(** A session inside the block of transaction 5, and one at rest. *)
Definition pair_block : TxnCtx (H := model_ext) := mkTxn (Some 5) (mkSnapshot 5 6 [5]) false None [] epoch.
Definition pair_session (st : TxnState) (g : option Z) : SqlSession (H := model_ext) :=
  mkSession st guc_default g PReplicated true true None.

Definition pair_router (pin : Pin) (sessions : gmap Z SqlSession) : RangeRouter (H := model_ext) :=
  mkRouter sessions pin two_ranges "".

(** A committer that applies each batch as the state machine does. *)
Definition replicated : Awaits := {|
  aw_commit ops s :=
    match apply_ops (sh_kv s) ops with
    | Some kv => (set_kv kv s, Ok ())
    | None => (s, Err EUnavailable)
    end;
  aw_readable s := (s, Ok ());
  aw_range0_readable s := (s, Ok ());
  aw_acquire := solo_acquire;
  aw_catalog_lock s := s
|}.

Lemma replicated_applies : commit_applies (H := replicated).
Proof.
  intros ops e e' Hnd. cbn. destruct (apply_ops (sh_kv e) ops) as [kv|] eqn:E; [|done]. intros [= <-].
  exists [], (sh_kv e), []. rewrite app_nil_r. split; [by split; [|intros x []]|by split].
Qed.

Local Abbreviation run stmt st :=
  (dispatch (H5 := replicated) (Gateway0 := in_process (H2 := replicated)) epoch_ctx solo_clock stmt st).

(** An end of a run whose answer is known. *)
Lemma run_answers {S A} (p : S * xresult A) (a : A) : p.2 = Ok a -> p = (p.1, Ok a).
Proof. destruct p. simpl. by intros ->. Qed.

Definition global_router : RangeRouter :=
  pair_router (PinGlobal {[0; 1]} GLOBAL_XID_BASE)
    {[1 := pair_session (InTransaction pair_block) (Some GLOBAL_XID_BASE)]}.


(** A statement on a table that does not exist. *)
Definition on_missing : Statement (H := model_ext) := DeleteFrom "missing" None.


(** A block opened on range 0 and pinned to range 1. *)
Definition pinned_router : RangeRouter :=
  pair_router (PinRange 1)
    {[0 := pair_session (InTransaction (mkTxn None (mkSnapshot 5 6 [5]) false None [] epoch)) None;
      1 := pair_session (InTransaction (mkTxn None (mkSnapshot 5 6 [5]) false None [] epoch)) None]}.

Definition delete_t : Statement (H := model_ext) := DeleteFrom "t" None.

Lemma commit_leaves_range0_open_witness :
  let '(st1, r1) := run Commit (pinned_router, pair_node) in
  let '((rt2, nd2), r2) := run delete_t st1 in
  r1 = Ok (QCommand "COMMIT") /\ r2 = Ok (QCommand "DELETE 0") /\ router_tx_status rt2 = TxIdle /\
  exists s c, rt_sessions rt2 !! 0 = Some s /\ ss_state s = InTransaction c.
Proof.
  assert ((run delete_t (run Commit (pinned_router, pair_node)).1).2 = Ok (QCommand "DELETE 0")) as H2
    by (vm_compute; reflexivity).
  assert ((run Commit (pinned_router, pair_node)).2 = Ok (QCommand "COMMIT")) as H1 by (vm_compute; reflexivity).
  assert (match nd_engines (run Commit (pinned_router, pair_node)).1.2 !! 0 with Some _ => true | None => false end
          = true) as He by (vm_compute; reflexivity).
  assert (pinning_range (nd_range0 (run Commit (pinned_router, pair_node)).1.2)
            (rt_map (run Commit (pinned_router, pair_node)).1.1) delete_t = Ok (Some 0)) as Hr by (vm_compute; reflexivity).
  destruct (run Commit (pinned_router, pair_node)) as [[rt1 nd1] r1] eqn:E1. cbn [fst snd] in *.
  destruct (run delete_t (rt1, nd1)) as [[rt2 nd2] r2] eqn:E2. cbn [fst snd] in *. subst r1 r2.
  destruct (commit_leaves_range0_open (H5 := replicated) epoch_ctx solo_clock Commit 1 pinned_router pair_node rt1 nd1 _
    _ _ eq_refl eq_refl ltac:(done) eq_refl eq_refl E1) as (_ & _ & Hw).
  destruct (Hw delete_t rt2 nd2 _ eq_refl Hr ltac:(destruct (nd_engines nd1 !! 0); [by eexists|done]) E2) as (Hst & s & c & Hs & Hc & _).
  split_and!; [done..|]. by exists s, c.
Defined.

(** A block just opened, before its first statement: [DELETE FROM u WHERE x = 1]. *)
Definition delete_u : Statement (H := model_ext) := DeleteFrom "u" (Some (ColumnRef None "x")).

Lemma isolation_lost_off_range0_witness :
  let '((rt1, nd1), r) := run delete_u (pair_router PinOpen ∅, pair_node) in
  exists s c, rt_sessions rt1 !! 1 = Some s /\ (ss_state s = InTransaction c \/ ss_state s = Failed c) /\
    tx_rr c = false.
Proof.
  destruct (run delete_u (pair_router PinOpen ∅, pair_node)) as [[rt1 nd1] r] eqn:E.
  apply (isolation_lost_off_range0 (H5 := replicated) epoch_ctx solo_clock delete_u 1 (pair_router PinOpen ∅) pair_node
    rt1 nd1 (pair_engine true) r eq_refl ltac:(vm_compute; reflexivity) eq_refl eq_refl E).
  assert (match (run delete_u (pair_router PinOpen ∅, pair_node)).2 with Err Panicked => false | _ => true end = true) as Hp
    by (vm_compute; reflexivity).
  rewrite E in Hp. by intros ->.
Defined.
