(* ===== verification/TwoPcProps.v ===== *)
(** * What the two-phase commit service guarantees

    Over a network that may lose any request and any answer: the coordinator reports the
    decision that is recorded, and a participant gives up a session only after its
    transaction is decided; but a statement whose answer is lost is run again. *)
From Stdlib Require Import ZArith Lia Ascii.
From stdpp Require Import base list gmap strings.
From S2P Require Import Lexer Parser.
From S2P Require Import Prelude Text Keys Store Datum ExtModel ExtArith Mvcc Errors XidAlloc.
From S2P Require Import LockMgr Exec Engine DateTimeBin DateTime Calendar Numeric NumericFn Ops Cast Catalog.
From S2P Require Import Scope Ast EvalOps Func DateTimeFn FormatFn AggCall Eval Wire Project Join Aggregate Values.
From S2P Require Import Act Write Session LibModel SessionProps Router RouterReads RouterProps TwoPc.
Open Scope Z_scope.

Section TwoPcProps.
Context `{ExtCal} `{MathLib} `{Unicode} `{!ExtPow}.
Context (default_ctx : EvalCtx) `{!Awaits} (clock : EngineState -> Timestamp).
Context (debug : ExecError -> string) (gate : option (Node TxnService -> RangeId -> bool)).
Context (linearize0 : option (act (Node TxnService) (result () (option Z)))).
Context (await_leader : RangeId -> act (Node TxnService) (option (Z * string))).

Local Abbreviation svc := (act (Node TxnService)).
Local Abbreviation handle_txn := (handle_txn default_ctx clock debug gate linearize0).
Local Abbreviation stage := (stage default_ctx clock debug gate).
Local Abbreviation stage_run := (stage_run default_ctx clock debug).
Local Abbreviation loopback := (loopback default_ctx clock debug gate linearize0).
Local Abbreviation net_call := (call await_leader loopback).

(** ** Decisions *)

(** The decision on [g] is recorded, and is [committed]. *)
Definition recorded (nd : Node TxnService) (g : Z) (committed : bool) : Prop :=
  clog_get (nd_range0 nd) g = Ok (if committed then Committed else Aborted).

(** The outcome that an answer to [CommitGlobal] announces. *)
Definition announces (resp : TxnResp) : option bool :=
  match resp with RespCommitted => Some true | RespAborted => Some false | _ => None end.

Lemma commit_global_answers g commit nd :
  wp (handle_txn (CommitGlobal g commit))
    (fun resp nd' => nd_rest nd' = nd_rest nd /\ forall b, announces resp = Some b -> recorded nd' g b)
    (fun _ nd' => nd_rest nd' = nd_rest nd) nd.
Proof.
  unfold TwoPc.handle_txn. wp_step. apply wp_get. destruct (nd_engines nd !! 0) as [eg|]; [|by wp_step].
  wp_step. wp_step. unfold node_commit_decision. wp_step. apply wp_gtm; [|done]. intros gtm _.
  apply wp_on_engine; [done|]. intros eg' _. wp_step. apply wp_await.
  2: { intros e err _. by destruct err. }
  intros e [] _. wp_step. wp_step. apply wp_lift.
  2: { intros err _. by destruct err as [[]|]. }
  intros d Hd. destruct (clog_get (sh_kv e) g) as [d'|] eqn:Hd'; [|done]. injection Hd as ->.
  wp_step. unfold node_finish_global. wp_step. apply wp_gtm; [|done]. intros gtm' _. wp_step. wp_step.
  split; [done|]. unfold recorded. cbn. rewrite Hd'. intros b Hb. destruct d; by simplify_eq/=.
Qed.

Lemma loopback_answers leader addr g commit nd :
  wp (loopback leader addr 0 (CommitGlobal g commit))
    (fun r nd' => held nd' = held nd /\
       forall resp b, r = Ok resp -> announces resp = Some b -> recorded nd' g b)
    (fun _ _ => True) nd.
Proof.
  unfold TwoPc.loopback. wp_step.
  assert (exists f nd1, next_fate nd = (nd1, Ok f) /\ held nd1 = held nd) as (f & nd1 & Ef & Hh).
  { unfold next_fate. destruct (sv_net (nd_rest nd)); eauto. }
  unfold wp at 1. rewrite Ef. unfold wp, serve.
  pose proof (commit_global_answers g commit nd1) as Hw. unfold wp in Hw.
  destruct f; cbn.
  - destruct (handle_txn (CommitGlobal g commit) nd1) as [nd2 [resp|e]] eqn:E.
    + destruct Hw as [Hr Hb]. split; [unfold held in *; congruence|]. intros resp' b [= <-]. apply Hb.
    + split; [unfold held in *; congruence|done].
  - done.
  - split; [|done]. destruct (handle_txn (CommitGlobal g commit) nd1) as [nd2 [resp|e]]; cbn;
      [destruct Hw as [Hw _]|]; unfold held in *; congruence.
Qed.

Lemma call_answers g commit nd :
  (forall range nd', held (await_leader range nd').1 = held nd') ->
  wp (net_call 0 (CommitGlobal g commit))
    (fun r nd' => held nd' = held nd /\
       forall resp b, r = Ok resp -> announces resp = Some b -> recorded nd' g b)
    (fun _ _ => True) nd.
Proof.
  intros Hl.
  assert (forall nd, wp (attempt await_leader loopback 0 (CommitGlobal g commit))
    (fun r nd' => held nd' = held nd /\
       forall resp b, r = Some (Ok resp) -> announces resp = Some b -> recorded nd' g b)
    (fun _ _ => True) nd) as Hat.
  { clear nd. intros nd. unfold attempt. wp_step. pose proof (Hl 0 nd) as Hh. unfold wp at 1.
    destruct (await_leader 0 nd) as [nd1 [[[leader addr]|]|e]]; cbn in Hh; [|by wp_step|done].
    wp_step. eapply wp_mono; [apply loopback_answers| |done]. intros r nd2 [Hh2 Hr]. wp_step.
    split; [congruence|]. intros resp b [= ->]. by apply Hr. }
  unfold call. wp_step. eapply wp_mono; [apply Hat| |done]. intros r nd1 [Hh1 Hr1].
  assert (forall Q : _ -> _ -> Prop, (forall r nd2, held nd2 = held nd1 ->
      (forall resp b, r = Some (Ok resp) -> announces resp = Some b -> recorded nd2 g b) -> Q r nd2) ->
    wp (attempt await_leader loopback 0 (CommitGlobal g commit)) Q (fun _ _ => True) nd1) as Hagain.
  { intros Q HQ. eapply wp_mono; [apply Hat| |done]. intros r2 nd2 [? ?]. by apply HQ. }
  destruct r as [[resp|[]]|]; [destruct resp|..]; wp_step;
    try (split; [done|]; intros resp b [= <-]; by apply Hr1);
    (apply Hagain; intros r2 nd2 Hh2 Hr2; wp_step; split; [congruence|];
     intros resp' b Hresp; destruct r2 as [r2|]; [|done]; cbn in Hresp; subst r2; by apply Hr2).
Qed.

Lemma wp_held {A} g range (m : act (SqlSession * EngineState) A) (Q : A -> Node TxnService -> Prop)
    (E : fault ExecError -> Node TxnService -> Prop) nd he :
  held nd !! (g, range) = Some he -> (nd_engines nd !! range = None -> E Panicked nd) ->
  (forall eg, nd_engines nd !! range = Some eg ->
     let put s := put_engine range eg s.2 (set_held (<[(g, range) := mkHeld s.1 (he_joined_at he)]> (held nd)) nd) in
     wp m (fun a s => Q a (put s)) (fun e s => E e (put s))
       (he_session he, engine_view (nd_range0 nd) range (eg_state eg))) ->
  wp (held_session g range m) Q E nd.
Proof.
  intros Hh HN HS. unfold wp, held_session in *. rewrite Hh. destruct (nd_engines nd !! range) as [eg|]; [|by apply HN].
  specialize (HS eg eq_refl). cbn zeta in HS. by destruct (m _) as [[s e] [a|f]].
Qed.

(** The session is no longer held: its transaction id does not run and locks nothing. *)
Definition given_up (g : Z) (range : RangeId) (he : HeldEntry) (nd' : Node TxnService) : Prop :=
  held nd' !! (g, range) = None /\
  exists eg, nd_engines nd' !! range = Some eg /\
    forall x, local_xid (he_session he) = Some x -> released x (eg_state eg).

Lemma let_go_gives_up g range nd he :
  held nd !! (g, range) = Some he ->
  wp (let_go g range) (fun _ nd' => nd_range0 nd' = nd_range0 nd /\ given_up g range he nd') (fun _ _ => True) nd.
Proof.
  intros Hh. unfold let_go. wp_step. apply wp_get. rewrite Hh. wp_step.
  apply (wp_held _ _ _ _ _ _ he); [done|done|]. intros eg Heg put. apply (wp_finish_current clock).
  intros s' sh' _ _ Hkv Hr0 Hrel. wp_step. cbn. split.
  - rewrite Hkv, Hr0. unfold engine_view. by destruct (range =? 0).
  - split; [by apply lookup_delete_eq|]. exists (mkEngine sh' (eg_mode eg) (eg_barrier eg) (eg_scanner eg)).
    split; [apply lookup_insert_eq|exact Hrel].
Qed.


(** ** A lost answer *)

Lemma stage_again g range sql stmt nd he eg :
  Parser.parse sql = Some (Ok [stmt]) -> held nd !! (g, range) = Some he -> nd_engines nd !! range = Some eg ->
  is_serving gate nd range = true ->
  stage g range sql nd = stage_run g range stmt nd.
Proof.
  intros Hp Hh Heg Hs. unfold TwoPc.stage, mbind at 1, act_bind at 1. cbn [io_get]. rewrite Heg, Hs. cbn [negb].
  rewrite Hh. unfold stage_statement. rewrite Hp. unfold mbind at 1, act_bind at 1, session_handle.
  unfold mbind at 1, act_bind at 1. cbn [io_get]. rewrite Heg, Hh. reflexivity.
Qed.

(** A statement may be run twice. The client repeats a request whose answer it did not
    get, and a participant that holds the transaction's session takes the repeated
    request for the transaction's next statement. So when the first answer to a staged
    statement is lost (it times out behind a row lock, say), the statement runs a second
    time in the same transaction, and the client learns of one execution. *)
Theorem lost_answer_runs_twice g range sql stmt nd nd1 he eg leader addr resp nd2 :
  Parser.parse sql = Some (Ok [stmt]) ->
  (forall nd, await_leader range nd = (nd, Ok (Some (leader, addr)))) ->
  sv_net (nd_rest nd) = [ReplyLost] ->
  stage g range sql (next_fate nd).1 = (nd1, Ok RespStaged) ->
  sv_net (nd_rest nd1) = [] -> held nd1 !! (g, range) = Some he -> nd_engines nd1 !! range = Some eg ->
  is_serving gate nd1 range = true ->
  stage_run g range stmt nd1 = (nd2, Ok resp) ->
  net_call range (Stage g range sql) nd = (nd2, Ok (Ok resp)).
Proof.
  intros Hp Hl Hn Hfirst Hn1 Hh Heg Hs Hsecond.
  assert (loopback leader addr range (Stage g range sql) nd = (nd1, Ok (Err ()))) as E1.
  { unfold TwoPc.loopback, mbind, act_bind. unfold next_fate in Hfirst |- *. rewrite Hn in Hfirst |- *.
    cbn [fst serve] in *. change (handle_txn (Stage g range sql)) with (stage g range sql). by rewrite Hfirst. }
  assert (loopback leader addr range (Stage g range sql) nd1 = (nd2, Ok (Ok resp))) as E2.
  { unfold TwoPc.loopback, mbind, act_bind. unfold next_fate. rewrite Hn1. cbn [serve].
    change (handle_txn (Stage g range sql)) with (stage g range sql).
    by rewrite (stage_again g range sql stmt nd1 he eg), Hsecond. }
  unfold call, attempt, mbind, act_bind. rewrite Hl, E1. cbn [mret act_ret]. by rewrite Hl, E2.
Qed.

End TwoPcProps.

(** ** A node that coordinates and takes part *)

Definition service_node (fates : list Fate) : Node (H := model_ext) TxnService :=
  mkNode {[0 := pair_engine false; 1 := pair_engine true]} pair_catalog
    (Some (mkGtm (GLOBAL_XID_BASE + 1) {[GLOBAL_XID_BASE]}))
    (mkService {[(GLOBAL_XID_BASE, 1) := mkHeld (pair_session (InTransaction pair_block) (Some GLOBAL_XID_BASE)) 0]}
       0 fates).

Definition here (range : RangeId) : act (Node (H := model_ext) TxnService) (option (Z * string)) :=
  mret (Some (0, "localhost")).

Local Abbreviation node_call :=
  (call here (loopback (H5 := solo true) epoch_ctx solo_clock (fun _ => "error") None None)).


Lemma found {A} (o : option A) : (match o with Some _ => true | None => false end) = true -> is_Some o.
Proof. destruct o as [a|]; [by exists a|done]. Qed.

Definition delete_sql : string := "DELETE FROM u".

(** The answer to the first request is lost. *)
Definition staged_once : Node (H := model_ext) TxnService :=
  (stage (H5 := solo true) epoch_ctx solo_clock (fun _ => "error") None GLOBAL_XID_BASE 1 delete_sql
     (next_fate (service_node [ReplyLost])).1).1.

Lemma lost_answer_runs_twice_witness :
  exists nd2, node_call 1 (Stage GLOBAL_XID_BASE 1 delete_sql) (service_node [ReplyLost]) = (nd2, Ok (Ok RespStaged)) /\
    stage_run (H5 := solo true) epoch_ctx solo_clock (fun _ => "error") GLOBAL_XID_BASE 1 (DeleteFrom "u" None) staged_once
    = (nd2, Ok RespStaged).
Proof.
  set (nd := service_node [ReplyLost]).
  assert ((stage (H5 := solo true) epoch_ctx solo_clock (fun _ => "error") None GLOBAL_XID_BASE 1 delete_sql
             (next_fate nd).1).2 = Ok RespStaged) as Hfirst by (vm_compute; reflexivity).
  assert (sv_net (nd_rest staged_once) = []) as Hn by (vm_compute; reflexivity).
  assert (is_Some (held staged_once !! (GLOBAL_XID_BASE, 1))) as [he Ehe] by (apply found; vm_compute; reflexivity).
  assert (is_Some (nd_engines staged_once !! 1)) as [eg Eeg] by (apply found; vm_compute; reflexivity).
  assert ((stage_run (H5 := solo true) epoch_ctx solo_clock (fun _ => "error") GLOBAL_XID_BASE 1
             (DeleteFrom "u" None) staged_once).2 = Ok RespStaged) as Hsecond by (vm_compute; reflexivity).
  exists (stage_run (H5 := solo true) epoch_ctx solo_clock (fun _ => "error") GLOBAL_XID_BASE 1
            (DeleteFrom "u" None) staged_once).1.
  split; [|by apply run_answers].
  assert (Parser.parse (H := model_ext) delete_sql = Some (Ok [DeleteFrom "u" None])) as Hp by reflexivity.
  exact (lost_answer_runs_twice (H5 := solo true) epoch_ctx solo_clock (fun _ => "error") None None here
    GLOBAL_XID_BASE 1 delete_sql (DeleteFrom "u" None) nd staged_once he eg 0 "localhost" _ _ Hp (fun _ => eq_refl)
    eq_refl (run_answers _ _ Hfirst) Hn Ehe Eeg eq_refl (run_answers _ _ Hsecond)).
Defined.
