(* ===== verification/Pushdown.v ===== *)
(** * Pushing offsets into a foreign scan does not change the result

    The bounds that [extract_scan_bounds] takes from a WHERE clause only skip rows
    that the clause rejects, as long as no upper bound is the largest offset. *)
From Stdlib Require Import ZArith Lia Ascii.
From stdpp Require Import base list gmap strings.
From S2P Require Import Prelude Text Chars Keys Store Datum Float DateTimeBin ExtModel ExtArith.
From S2P Require Import DateTime Calendar Numeric NumericFn Ops Cast Errors Catalog Scope Ast.
From S2P Require Import EvalOps LibModel Func DateTimeFn FormatFn AggCall Eval Wire Project ScanBounds.
Open Scope Z_scope.

Lemma wrap_i64_id v : i64_ok v -> wrap_signed 64 v = v.
Proof. intros Hv. exact (signed_unsigned_64 v Hv). Qed.

Lemma foldM_keep {E A} (f : A -> result E bool) (l : list A) acc :
  foldM (fun acc x => b ← f x; Ok (if b : bool then acc ++ [x] else acc)) acc l =
  (kept ← foldM (fun acc x => b ← f x; Ok (if b : bool then acc ++ [x] else acc)) [] l; Ok (acc ++ kept)).
Proof.
  revert acc. induction l as [|x l IH]; intros acc; simpl; [by rewrite app_nil_r|].
  destruct (f x) as [[]|]; simpl; [|by rewrite IH|done].
  rewrite IH, (IH [x]). destruct (foldM _ [] l); simpl; [|done]. by rewrite <- app_assoc.
Qed.

Section Pushdown.
Context `{ExtCal} `{MathLib} `{Unicode} `{!ExtPow}.

(** A row of partition [p] at offset [o] is read by a scan with these bounds. *)
Definition within (b : ScanBounds) (p o : Z) : bool :=
  forallb (fun s : Z * Z => negb (s.1 =? p) || (s.2 <=? o)) (start_offsets b) &&
  forallb (fun e : Z * Z => negb (e.1 =? p) || (o <? e.2)) (end_offsets b).

Definition not_max (v : option Z) : bool := negb (bool_decide (v = Some 9223372036854775807)).

(** No literal of a comparison is the largest 64-bit integer. *)
Definition literals_fit (e : Expr) : bool :=
  match e with
  | Binary _ l r => not_max (bound_literal l) && not_max (bound_literal r)
  | Between _ _ high _ => not_max (bound_literal high)
  | _ => true
  end.

(** ** Evaluation of the conjuncts *)

Section Row.
Context (scope : Scope) (row : list Datum) (ctx : EvalCtx).

Local Abbreviation ev n e := (eval_depth n scope row ctx e).

Lemma and_true l r : and_op l r = Ok (DBool true) -> l = DBool true /\ r = DBool true.
Proof.
  unfold and_op, as_bool. destruct l as [|[]| | | | | | | | | | |], r as [|[]| | | | | | | | | | |]; simpl; naive_solver.
Qed.

Lemma ty_ok {A} (r : result TypeError A) a : ty r = Ok a -> r = Ok a.
Proof. destruct r; simpl; naive_solver. Qed.

Lemma conjunct_true n f c :
  ev n f = Ok (DBool true) -> c ∈ collect_conjuncts f -> exists m, ev m c = Ok (DBool true).
Proof.
  revert n c. induction f as [| | | | | |m| |op l IHl r IHr| | | | | | | | | | | |]; intros n c Hf Hc;
    try (apply list_elem_of_singleton in Hc as ->; by exists n).
  destruct (decide (op = OpAnd)) as [->|Hop].
  2: { destruct op; try done; apply list_elem_of_singleton in Hc as ->; by exists n. }
  destruct n as [|n]; [done|]. simpl in Hf.
  apply bind_Ok in Hf as (dl & Hl & Hf). apply bind_Ok in Hf as (dr & Hr & Hf).
  apply ty_ok, and_true in Hf as [-> ->]. simpl in Hc. apply elem_of_app in Hc as [Hc|Hc]; eauto.
Qed.

Definition is_int (d : Datum) (v : Z) : Prop := d = DInt4 v \/ d = DInt8 v.

Lemma parse_int_range lo hi s v : parse_int lo hi s = Some v -> lo <= v <= hi.
Proof. unfold parse_int. repeat case_match; intros; simplify_eq; lia. Qed.

Lemma parse_int_wider lo hi lo' hi' s v :
  lo < 0 -> lo' < 0 -> lo' <= lo -> hi <= hi' -> parse_int lo hi s = Some v -> parse_int lo' hi' s = Some v.
Proof.
  intros H1' H2' H3' H4'. unfold parse_int. rewrite !(proj2 (Z.ltb_lt _ _)) by done.
  destruct (match s with String _ _ => _ | _ => _ end) as [neg body].
  repeat case_match; intros; simplify_eq; first [done|lia].
Qed.

(** A literal is the integer the bounds take it for. *)
Lemma literal_value n e v d :
  bound_literal e = Some v -> ev n e = Ok d -> is_int d v /\ i64_ok v.
Proof.
  revert n v d. induction e as [s| | | | | |m|[] e IHe| | | | | | | | | | | | |]; intros n v d Hv Hd; try done;
    (destruct n as [|n]; [done|]); simpl in Hv, Hd.
  - apply ty_ok in Hd. unfold int_literal in Hd. destruct (parse_i32 s) as [w|] eqn:E4.
    + assert (parse_i64 s = Some w) as E8 by (eapply parse_int_wider; [..|exact E4]; lia).
      rewrite E8 in Hv. simplify_eq/=. split; [by left|]. apply parse_int_range in E8. width_lia.
    + rewrite Hv in Hd. simplify_eq/=. split; [by right|]. apply parse_int_range in Hv. width_lia.
  - destruct (bound_literal e) as [w|] eqn:Ew; simplify_eq/=.
    apply bind_Ok in Hd as (d' & Hd' & Hd). destruct (IHe n w d' eq_refl Hd') as [[-> | ->] Hw];
      unfold tyf, sub, arith in Hd; simpl in Hd; unfold checked2, checked_i32, checked_i64 in Hd;
      case_match; simplify_eq/=.
    + rewrite wrap_i64_id by width_lia. split; [left; f_equal; lia|width_lia].
    + rewrite wrap_i64_id by width_lia. split; [right; f_equal; lia|width_lia].
Qed.

Lemma compare_ints a b x y : is_int a x -> is_int b y -> compare a b = Ok (Some (Z.compare x y)).
Proof. by intros [->| ->] [->| ->]. Qed.

(** What a comparison that is true says. *)
Definition holds (op : BinaryOp) (x y : Z) : Prop :=
  match op with OpLt => x < y | OpLe => x <= y | OpGt => y < x | OpGe => y <= x | _ => True end.

Lemma comparison_holds op a b x y :
  mirror_op op <> None -> is_int a x -> is_int b y -> apply_binary op a b ctx = Ok (DBool true) -> holds op x y.
Proof.
  intros Hop Ha Hb. unfold apply_binary. rewrite (compare_ints a b x y Ha Hb).
  destruct op; try done; simpl; destruct (Z.compare_spec x y); simpl; intros; simplify_eq; lia.
Qed.

(** An envelope column has the datum of its place in the row. *)
Lemma envelope_value name d n e d' :
  (forall q i, resolve scope q name = Ok i -> row !! i = Some d) ->
  is_envelope name e = true -> ev n e = Ok d' -> d' = d.
Proof.
  intros Hd. unfold is_envelope. rewrite bool_decide_eq_true. destruct e; try done. intros [= ->].
  destruct n as [|n]; [done|]. simpl. intros He. apply bind_Ok in He as (i & Hi & He).
  destruct (resolve scope table name) as [j|] eqn:Ej; simplify_eq/=.
  rewrite (Hd _ _ Ej) in He. by simplify_eq/=.
Qed.

Lemma equal_ints a b x y :
  is_int a x -> is_int b y -> apply_binary OpEq a b ctx = Ok (DBool true) -> x = y.
Proof.
  intros Ha Hb. unfold apply_binary. rewrite (compare_ints a b x y Ha Hb). simpl.
  destruct (Z.compare_spec x y); simpl; intros; by simplify_eq.
Qed.

(** A conjunct that anchors the partition is true of that partition alone. *)
Lemma anchor_value pt n c p :
  (forall q i, resolve scope q "_partition" = Ok i -> row !! i = Some (DInt4 pt)) ->
  match_partition_eq c = Some p -> ev n c = Ok (DBool true) -> pt = p.
Proof.
  intros Hp. destruct c as [| | | | | | | |[] l r| | | | | | | | | | | |]; try done. simpl. intros Hm He.
  destruct n as [|n]; [done|]. simpl in He.
  apply bind_Ok in He as (dl & Hl & He). apply bind_Ok in He as (dr & Hr & He).
  destruct (is_envelope "_partition" l) eqn:El; [|destruct (is_envelope "_partition" r) eqn:Er; [|done]].
  - destruct (bound_literal r) as [v|] eqn:Ev; simplify_eq/=. case_decide; simplify_eq.
    rewrite (envelope_value _ _ _ _ _ Hp El Hl) in He.
    eapply equal_ints; [by left|by eapply literal_value|exact He].
  - destruct (bound_literal l) as [v|] eqn:Ev; simplify_eq/=. case_decide; simplify_eq.
    rewrite (envelope_value _ _ _ _ _ Hp Er Hr) in He. symmetry.
    eapply equal_ints; [by eapply literal_value|by left|exact He].
Qed.

Lemma anchor_conjunct found cs p :
  partition_anchor found cs = Some (Some p) ->
  found = Some p \/ exists c, c ∈ cs /\ match_partition_eq c = Some p.
Proof.
  revert found. induction cs as [|c cs IH]; intros found; [simpl; naive_solver|]. cbn [partition_anchor].
  destruct (match_partition_eq c) as [v|] eqn:Ev; [destruct found as [w|]; [destruct (Z.eqb_spec v w)|]|];
    try done; intros E; destruct (IH _ E) as [Hf|(c' & Hc & Hm)]; simplify_eq;
    eauto using list_elem_of_here, list_elem_of_further.
Qed.

Context (o : Z).
Context (Ho : forall q i, resolve scope q "_offset" = Ok i -> row !! i = Some (DInt8 o)).

Lemma offset_value n e d : is_envelope "_offset" e = true -> ev n e = Ok d -> is_int d o.
Proof. intros He Hd. right. by eapply envelope_value. Qed.

(** The offsets a bound lets through. *)
Definition admits (b : OffsetBound) : Prop :=
  match b with
  | StartIncl v => v <= o
  | EndExcl v => o < v
  | OffsetBetween s e => s <= o < e
  end.

Lemma wrap_succ v : i64_ok v -> not_max (Some v) = true -> wrap_signed 64 (v + 1) = v + 1.
Proof.
  unfold not_max. rewrite negb_true_iff, bool_decide_eq_false. intros Hv Hn. apply wrap_i64_id.
  assert (v <> 9223372036854775807) by congruence. width_lia.
Qed.

Lemma bound_admits n c b :
  match_offset_bound c = Some b -> literals_fit c = true -> ev n c = Ok (DBool true) -> admits b.
Proof.
  destruct c as [| | | | | | | |op l r| | | |x low high []| | | | | | | |]; try done; simpl;
    intros Hm Hfit He; (destruct n as [|n]; [done|]); simpl in He.
  - apply andb_true_iff in Hfit as [Hfl Hfr].
    apply bind_Ok in He as (dl & Hl & He). apply bind_Ok in He as (dr & Hr & He).
    destruct (is_envelope "_offset" l) eqn:El.
    + destruct (bound_literal r) as [v|] eqn:Ev; simplify_eq/=.
      destruct (literal_value _ _ _ _ Ev Hr) as [Hi Hv].
      pose proof (fun Hop => comparison_holds op dl dr o v Hop (offset_value _ _ _ El Hl) Hi He) as Hh.
      destruct op; simplify_eq/=; rewrite ?wrap_succ by done; specialize (Hh ltac:(done)); simpl in *; lia.
    + destruct (is_envelope "_offset" r) eqn:Er; [|done].
      destruct (bound_literal l) as [v|] eqn:Ev; [|by destruct op].
      destruct (literal_value _ _ _ _ Ev Hl) as [Hi Hv].
      pose proof (fun Hop => comparison_holds op dl dr v o Hop Hi (offset_value _ _ _ Er Hr) He) as Hh.
      destruct op; simplify_eq/=; rewrite ?wrap_succ by done; specialize (Hh ltac:(done)); simpl in *; lia.
  - destruct (is_envelope "_offset" x) eqn:Ex; [|done].
    destruct (bound_literal low) as [lo|] eqn:El; [|done]. destruct (bound_literal high) as [hi|] eqn:Eh; [|done].
    simplify_eq/=. apply bind_Ok in He as (dx & Hx & He). apply bind_Ok in He as (dlo & Hlo & He).
    apply bind_Ok in He as (dhi & Hhi & He). unfold eval_between in He.
    apply bind_Ok in He as (ge & Hge & He). apply bind_Ok in He as (le & Hle & He).
    apply bind_Ok in He as (res & Hres & He). simplify_eq/=. apply ty_ok, and_true in Hres as [-> ->].
    destruct (literal_value _ _ _ _ El Hlo) as [Il _]. destruct (literal_value _ _ _ _ Eh Hhi) as [Ih Hv].
    pose proof (offset_value _ _ _ Ex Hx) as Io. rewrite wrap_succ by done.
    pose proof (comparison_holds OpGe dx dlo o lo ltac:(done) Io Il Hge).
    pose proof (comparison_holds OpLe dx dhi o hi ltac:(done) Io Ih Hle). simpl in *. lia.
Qed.

Lemma bounds_admit cs acc :
  Forall (fun c => forall b, match_offset_bound c = Some b -> admits b) cs ->
  (forall s, acc.1 = Some s -> s <= o) -> (forall e, acc.2 = Some e -> o < e) ->
  (forall s, (foldl tighten_bound acc cs).1 = Some s -> s <= o) /\
  (forall e, (foldl tighten_bound acc cs).2 = Some e -> o < e).
Proof.
  intros Hcs. revert acc. induction Hcs as [|c cs Hc Hcs IH]; intros acc Hs He; [done|]. simpl.
  assert (forall v, v <= o -> forall s, tighten Z.max acc.1 v = Some s -> s <= o) as Hmax.
  { intros v Hv s. unfold tighten. destruct acc.1 as [t|] eqn:Et; intros; simplify_eq/=; [|done].
    specialize (Hs t eq_refl). lia. }
  assert (forall v, o < v -> forall e, tighten Z.min acc.2 v = Some e -> o < e) as Hmin.
  { intros v Hv e. unfold tighten. destruct acc.2 as [t|] eqn:Et; intros; simplify_eq/=; [|done].
    specialize (He t eq_refl). lia. }
  apply IH; unfold tighten_bound; destruct (match_offset_bound c) as [[v|v|s e]|]; simpl; try done;
    specialize (Hc _ eq_refl); simpl in Hc; intros; first [eapply Hmax|eapply Hmin]; eauto; lia.
Qed.

(** A row that the filter keeps is within the bounds. *)
Lemma kept_within f p :
  forallb literals_fit (collect_conjuncts f) = true ->
  eval f scope row ctx = Ok (DBool true) -> within (extract_scan_bounds (Some f)) p o = true.
Proof.
  intros Hfit Hf. unfold extract_scan_bounds.
  destruct (partition_anchor None (collect_conjuncts f)) as [[q|]|]; try done.
  destruct (bounds_admit (collect_conjuncts f) (None, None)) as [Hs He]; [|done|done|].
  { apply Forall_forall. intros c Hc b Hb. destruct (conjunct_true _ _ _ Hf Hc) as [n Hn].
    rewrite forallb_forall in Hfit. eapply bound_admits; [exact Hb|by apply Hfit, list_elem_of_In|exact Hn]. }
  destruct (foldl tighten_bound (None, None) (collect_conjuncts f)) as [[s|] [e|]]; unfold within; simpl in *;
    rewrite ?andb_true_r, ?andb_true_iff, ?orb_true_iff, ?Z.leb_le, ?Z.ltb_lt; auto.
Qed.

End Row.

Lemma row_matches_true f scope row ctx :
  row_matches (Some f) scope row ctx = Ok true -> eval f scope row ctx = Ok (DBool true).
Proof.
  unfold row_matches. intros Hm. apply bind_Ok in Hm as (v & Hv & Hm). by destruct v; simplify_eq/=.
Qed.

Lemma filter_rows_cons filter scope ctx row rows :
  filter_rows filter scope ctx (row :: rows) =
  (b ← row_matches filter scope row ctx; kept ← filter_rows filter scope ctx rows;
   Ok (if b : bool then row :: kept else kept)).
Proof.
  unfold filter_rows. simpl. destruct (row_matches filter scope row ctx) as [b|]; [|done]. simpl.
  rewrite (foldM_keep (fun row => row_matches filter scope row ctx)). apply bind_ext. by destruct b.
Qed.

(** Rows that the filter rejects can be left out. *)
Lemma filter_rows_drop f scope ctx (keep : Row -> bool) rows kept :
  (forall row, row ∈ rows -> eval f scope row ctx = Ok (DBool true) -> keep row = true) ->
  filter_rows (Some f) scope ctx rows = Ok kept ->
  filter_rows (Some f) scope ctx (List.filter keep rows) = Ok kept.
Proof.
  intros Hkeep. revert kept. induction rows as [|row rows IH]; intros kept Hk; [done|].
  rewrite filter_rows_cons in Hk. apply bind_Ok in Hk as (b & Hb & Hk). apply bind_Ok in Hk as (rest & Hrest & Hk).
  specialize (IH (fun r Hr => Hkeep r (list_elem_of_further _ _ _ Hr)) rest Hrest). cbn [List.filter].
  destruct (keep row) eqn:Ek; [by rewrite filter_rows_cons, Hb, IH|]. destruct b; [|by rewrite IH].
  by rewrite (Hkeep row (list_elem_of_here _ _) (row_matches_true _ _ _ _ Hb)) in Ek.
Qed.

End Pushdown.

(** ** At the largest offset *)

Definition topic_scope : Scope :=
  [mkBinding (Some "t") "_partition" TInt4; mkBinding (Some "t") "_offset" TInt8].

(** [_partition = 0 AND _offset > 3 AND _offset <= n] *)
Definition offsets_up_to (n : string) : Expr :=
  Binary OpAnd
    (Binary OpAnd (Binary OpEq (ColumnRef None "_partition") (IntLiteral "0"))
       (Binary OpGt (ColumnRef None "_offset") (IntLiteral "3")))
    (Binary OpLe (ColumnRef None "_offset") (IntLiteral n)).

Definition topic_rows : list Row := [[DInt4 0; DInt8 3]; [DInt4 0; DInt8 7]; [DInt4 0; DInt8 9]].

(** When the upper bound of a WHERE clause is the largest offset, the exclusive
    end of the pushed bounds wraps around to the smallest integer (in a build
    without overflow checks), the scan reads nothing, and rows that the clause keeps
    are lost: the bounds change the result. *)
Theorem pushdown_wraps_at_largest_offset :
  end_offsets (extract_scan_bounds (Some (offsets_up_to "9223372036854775807"))) = [(0, -9223372036854775808)] /\
  filter_rows (Some (offsets_up_to "9223372036854775807")) topic_scope epoch_ctx topic_rows =
    Ok [[DInt4 0; DInt8 7]; [DInt4 0; DInt8 9]] /\
  (forall o, i64_ok o -> within (extract_scan_bounds (Some (offsets_up_to "9223372036854775807"))) 0 o = false).
Proof.
  split_and!; [reflexivity|reflexivity|]. intros o Ho.
  assert (extract_scan_bounds (Some (offsets_up_to "9223372036854775807")) =
    mkBounds [(0, 4)] [(0, -9223372036854775808)]) as -> by reflexivity.
  unfold within. simpl. apply andb_false_iff. right. rewrite andb_true_r. apply Z.ltb_ge. width_lia.
Qed.
