(* ===== verification/KafkaTypes.v ===== *)
(** * Kafka records as rows (kafka_fdw/src/types.rs, decode.rs, config.rs, error.rs)

    How the options of a foreign table become a connection profile, how a message body is
    decoded, and how schemas and decoded values become columns and datums. The Avro, JSON
    and Protobuf libraries are parameters; of their data types the model has the
    constructors the code names. *)
From Stdlib Require Import ZArith Lia Ascii.
From stdpp Require Import base list gmap strings.
From S2P Require Import Prelude Text Keys Store Datum Float ExtArith Catalog Errors.
Open Scope Z_scope.

(** ** The values of the libraries *)

(** [serde_json::Value] over its numbers; an object has its keys in order. *)
Inductive Json (N : Type) : Type :=
| JNull
| JBool (b : bool)
| JNumber (n : N)
| JString (s : string)
| JArray (l : list (Json N))
| JObject (m : list (string * Json N)).
Arguments JNull {N}. Arguments JBool {N}. Arguments JNumber {N}. Arguments JString {N}.
Arguments JArray {N}. Arguments JObject {N}.

(** The kinds of schema that have a name. *)
Inductive NamedKind : Type := NamedRecord | NamedEnum | NamedFixed.

(** [apache_avro::Schema]. A reference to a schema that stands elsewhere ([Ref]) has the
    kind of what it names; [AvOther] is every schema that the code treats alike and
    whose values it prints by their debug text: enums, UUIDs, durations, times of day,
    local timestamps and nanosecond timestamps. *)
Inductive AvroSchema : Type :=
| AvNull | AvBoolean | AvInt | AvLong | AvFloat | AvDouble | AvBytes | AvString
| AvTimestampMillis | AvTimestampMicros | AvDate
| AvDecimal (scale : Z)
| AvUnion (variants : list AvroSchema)
| AvRecord (fields : list (string * AvroSchema))
| AvArray | AvMap | AvFixed | AvBigDecimal
| AvRef (kind : NamedKind)
| AvOther.

(** [apache_avro::types::Value]; floats by their bits, [VOther] with its debug text. *)
Inductive AvroValue (D : Type) : Type :=
| VNull
| VUnion (inner : AvroValue D)
| VBoolean (b : bool) | VInt (i : Z) | VLong (l : Z) | VFloat (bits : Z) | VDouble (bits : Z)
| VBytes (b : bytes) | VFixed (b : bytes) | VString (s : string)
| VDate (days : Z) | VTimestampMillis (ms : Z) | VTimestampMicros (us : Z)
| VDecimal (unscaled : Z) | VBigDecimal (d : D)
| VRecord (fields : list (string * AvroValue D))
| VArray (items : list (AvroValue D))
| VMap (entries : list (string * AvroValue D))
| VOther (debug : string).
Arguments VNull {D}. Arguments VUnion {D}. Arguments VBoolean {D}. Arguments VInt {D}.
Arguments VLong {D}. Arguments VFloat {D}. Arguments VDouble {D}. Arguments VBytes {D}.
Arguments VFixed {D}. Arguments VString {D}. Arguments VDate {D}. Arguments VTimestampMillis {D}.
Arguments VTimestampMicros {D}. Arguments VDecimal {D}. Arguments VBigDecimal {D}.
Arguments VRecord {D}. Arguments VArray {D}. Arguments VMap {D}. Arguments VOther {D}.

(** [prost_reflect::Kind] *)
Inductive ProtoKind : Type :=
| KInt32 | KSint32 | KSfixed32 | KUint32 | KFixed32 | KInt64 | KSint64 | KUint64 | KFixed64
| KSfixed64 | KFloat | KDouble | KBool | KString | KBytes | KEnum | KMessage.

(** [prost_reflect::Value]; a message by its set fields, a map key by its debug text. *)
Inductive ProtoValue : Type :=
| PBool (b : bool) | PI32 (i : Z) | PI64 (i : Z) | PU32 (u : Z) | PU64 (u : Z)
| PF32 (bits : Z) | PF64 (bits : Z) | PString (s : string) | PBytes (b : bytes) | PEnumNumber (n : Z)
| PMessage (fields : list (string * ProtoValue))
| PList (items : list ProtoValue)
| PMap (entries : list (string * ProtoValue)).

(** [prost_reflect::MessageDescriptor]: a field's name, whether it is repeated or a map,
    and its kind. *)
Definition MessageDescriptor : Type := list (string * bool * ProtoKind).

(** A [DynamicMessage]: [has_field_by_name] and [get_field_by_name]. *)
Record DynamicMessage : Type := mkMessage {
  dm_has : string -> bool;
  dm_get : string -> option ProtoValue
}.

(** The functions of the libraries. *)
Class KafkaLibs `{Ext} : Type := {
  (* serde_json *)
  JNum : Type;
  jnum_of_int : Z -> JNum;
  jnum_from_f64 : Z -> option JNum;
  jnum_as_i64 : JNum -> option Z;
  jnum_as_f64 : JNum -> option Z;
  json_display : Json JNum -> string;
  json_to_string : Json JNum -> option string;
  json_from_slice : bytes -> result string (Json JNum);
  json_from_str : string -> option (Json JNum);
  (* jiff: 1970-01-01 and a signed duration in seconds, instants in milliseconds *)
  epoch_date_add_secs : Z -> option Date;
  ts_from_millisecond : Z -> result string Timestamp;
  (* bigdecimal *)
  bd_new : Z -> Z -> BigDecimal;
  (* crabka_schema_serde::wire *)
  wire_decode : bytes -> result string (Z * bytes);
  wire_decode_protobuf : bytes -> result string (Z * list Z * bytes);
  (* apache_avro *)
  avro_parse_schema : string -> result string AvroSchema;
  avro_from_datum : AvroSchema -> bytes -> result string (AvroValue BigDecimal)
}.

(** [f64::from(f32)], on the bits. *)
Definition f64_of_f32 (b : Z) : Z :=
  let sign := Z.shiftr b 31 in
  let exp := Z.land (Z.shiftr b 23) 255 in
  let frac := Z.land b 8388607 in
  if exp =? 255 then Z.shiftl sign 63 + Z.shiftl 2047 52 + Z.shiftl frac 29
  else if exp =? 0 then
    if frac =? 0 then Z.shiftl sign 63
    else f64_round (if sign =? 1 then - frac else frac) (-149) false
  else Z.shiftl sign 63 + Z.shiftl (exp + 896) 52 + Z.shiftl frac 29.

(** ** Errors and options *)

(** [kafka_fdw/src/error.rs:5-11] KafkaFdwError *)
Inductive KafkaFdwError : Type := KConfig (s : string) | KOther (s : string).

(** Its [Display]. *)
Definition kafka_error_text (e : KafkaFdwError) : string :=
  match e with
  | KConfig s => "kafka fdw config error: " +:+ s
  | KOther s => "kafka fdw error: " +:+ s
  end.

(** [kafka_fdw/src/decode.rs:49-58] Wire *)
Inductive WireFormat : Type := WRaw | WAvro | WJson | WProtobuf.

#[export] Instance WireFormat_eq_dec : EqDecision WireFormat.
Proof. solve_decision. Defined.

(** [crabka_security::ListenerProtocol] *)
Inductive ListenerProtocol : Type := Plaintext | Ssl | SaslPlaintext | SaslSsl.
Definition requires_tls (p : ListenerProtocol) : bool := match p with Ssl | SaslSsl => true | _ => false end.
Definition requires_sasl (p : ListenerProtocol) : bool :=
  match p with SaslPlaintext | SaslSsl => true | _ => false end.

(** [crabka_client_core::security]: credentials, and the server name of a TLS connection. *)
Inductive SaslCredentials : Type :=
| SaslPlain (username password : string)
| SaslScram256 (username password : string)
| SaslScram512 (username password : string).

Record ClientSecurity : Type := mkSecurity {
  cs_protocol : ListenerProtocol;
  cs_tls : option string;
  cs_sasl : option SaslCredentials
}.

(** The first value of an option. *)
Definition option_of (options : list (string * string)) (key : string) : option string :=
  snd <$> List.find (fun '(k, _) => String.eqb k key) options.

Section Config.
Context `{Ext}.

(** [kafka_fdw/src/config.rs:166-176] parse_wire *)
Definition parse_wire (s : string) : result KafkaFdwError WireFormat :=
  if String.eqb s "raw" then Ok WRaw
  else if String.eqb s "avro" then Ok WAvro
  else if String.eqb s "json" then Ok WJson
  else if String.eqb s "protobuf" then Ok WProtobuf
  else Err (KConfig ("unknown wire format: " +:+ str_debug s
              +:+ "; expected one of: raw, avro, json, protobuf")).

(** [kafka_fdw/src/config.rs:178-188] parse_listener_protocol *)
Definition parse_listener_protocol (s : string) : result KafkaFdwError ListenerProtocol :=
  if String.eqb s "PLAINTEXT" then Ok Plaintext
  else if String.eqb s "SSL" then Ok Ssl
  else if String.eqb s "SASL_PLAINTEXT" then Ok SaslPlaintext
  else if String.eqb s "SASL_SSL" then Ok SaslSsl
  else Err (KConfig ("unknown security_protocol: " +:+ str_debug s
              +:+ "; expected one of: PLAINTEXT, SSL, SASL_PLAINTEXT, SASL_SSL")).

(** The host of an address: [rsplit_once(':')]. *)
Fixpoint host_of (addr : string) : option string :=
  match addr with
  | EmptyString => None
  | String c t =>
      match host_of t with
      | Some h => Some (String c h)
      | None => if bool_decide (c = ":"%char) then Some "" else None
      end
  end.

Definition sasl_credentials (options : list (string * string)) : result KafkaFdwError SaslCredentials :=
  mechanism ← ok_or (option_of options "sasl_mechanism")
    (KConfig "SASL protocol requires sasl_mechanism in the user mapping");
  username ← ok_or (option_of options "username") (KConfig "SASL protocol requires username in the user mapping");
  password ← ok_or (option_of options "password") (KConfig "SASL protocol requires password in the user mapping");
  if String.eqb mechanism "PLAIN" then Ok (SaslPlain username password)
  else if String.eqb mechanism "SCRAM-SHA-256" then Ok (SaslScram256 username password)
  else if String.eqb mechanism "SCRAM-SHA-512" then Ok (SaslScram512 username password)
  else Err (KConfig ("unknown sasl_mechanism: " +:+ str_debug mechanism
              +:+ "; expected one of: PLAIN, SCRAM-SHA-256, SCRAM-SHA-512")).

(** [kafka_fdw/src/config.rs:198-286] build_security *)
Definition build_security (protocol : ListenerProtocol) (bootstrap : list string)
    (mapping_options : list (string * string)) : result KafkaFdwError (option ClientSecurity) :=
  match protocol with
  | Plaintext => Ok None
  | _ =>
      let tls :=
        if requires_tls protocol
        then Some (from_option (fun addr => default addr (host_of addr)) "" (head bootstrap)) else None in
      sasl ← (if requires_sasl protocol then c ← sasl_credentials mapping_options; Ok (Some c) else Ok None);
      Ok (Some (mkSecurity protocol tls sasl))
  end.

(** [kafka_fdw/src/config.rs:115-122] ServerProfile *)
Record ServerProfile : Type := mkServerProfile {
  sp_bootstrap : list string;
  sp_registry_url : string;
  sp_security : option ClientSecurity
}.

(** [kafka_fdw/src/config.rs:12-25] ConnProfile *)
Record ConnProfile : Type := mkProfile {
  cp_bootstrap : list string;
  cp_registry_url : string;
  cp_security : option ClientSecurity;
  cp_topic : string;
  cp_value_format : WireFormat;
  cp_key_format : WireFormat
}.

Definition parse_bootstrap (raw : string) : list string :=
  List.filter (fun s => negb (String.eqb s "")) (trim <$> split_on "," raw).

Definition mapping_options (mapping : option UserMapping) : list (string * string) :=
  from_option um_options [] mapping.

(** [kafka_fdw/src/config.rs:132-164] resolve_server *)
Definition resolve_server (server : ForeignServer) (mapping : option UserMapping)
  : result KafkaFdwError ServerProfile :=
  raw ← ok_or (option_of (srv_options server) "bootstrap") (KConfig "missing required option: bootstrap");
  let bootstrap := parse_bootstrap raw in
  let registry_url := default "" (option_of (srv_options server) "registry_url") in
  protocol ← parse_listener_protocol (default "PLAINTEXT" (option_of (srv_options server) "security_protocol"));
  security ← build_security protocol bootstrap (mapping_options mapping);
  Ok (mkServerProfile bootstrap registry_url security).

(** [kafka_fdw/src/config.rs:50-107] resolve *)
Definition resolve_profile (server : ForeignServer) (mapping : option UserMapping)
    (table_options : list (string * string)) : result KafkaFdwError ConnProfile :=
  raw ← ok_or (option_of (srv_options server) "bootstrap") (KConfig "missing required option: bootstrap");
  let bootstrap := parse_bootstrap raw in
  let registry_url := default "" (option_of (srv_options server) "registry_url") in
  topic ← ok_or (option_of table_options "topic") (KConfig "missing required option: topic");
  value_format ← parse_wire (default "raw" (option_of table_options "value_format"));
  key_format ← parse_wire (default "raw" (option_of table_options "key_format"));
  protocol ← parse_listener_protocol (default "PLAINTEXT" (option_of (srv_options server) "security_protocol"));
  security ← build_security protocol bootstrap (mapping_options mapping);
  Ok (mkProfile bootstrap registry_url security topic value_format key_format).
End Config.

(** ** Decoding (decode.rs) *)

(** [kafka_fdw/src/decode.rs:61-70] DecodedValue *)
Inductive DecodedValue `{KafkaLibs} : Type :=
| DecAvro (v : AvroValue BigDecimal)
| DecJson (v : Json JNum)
| DecRaw (b : bytes)
| DecProtobuf (m : DynamicMessage).

(** What [SchemaCache::writer_schema] says: the text, not yet fetched, or an error. *)
Inductive SchemaAnswer : Type := SchemaText (s : string) | SchemaPending | SchemaError (e : string).

Section Types.
Context `{KafkaLibs}.

(** [kafka_fdw/src/decode.rs:26-45] resolve_writer_schema: the answers come one for each
    poll until the deadline *)
Fixpoint resolve_writer_schema (answers : list SchemaAnswer) (schema_id : Z) : result KafkaFdwError string :=
  match answers with
  | SchemaText text :: _ => Ok text
  | SchemaPending :: answers => resolve_writer_schema answers schema_id
  | SchemaError e :: _ => Err (KOther ("schema registry: " +:+ e))
  | [] => Err (KOther ("schema registry: writer schema for id " +:+ z_to_string schema_id
                +:+ " not fetched within 10s"))
  end.

(** [kafka_fdw/src/decode.rs:174-184] build_message_descriptor *)
Definition build_message_descriptor (schema_text : string) (msg_index : Z) : result string MessageDescriptor :=
  Err ("live Protobuf registry-descriptor fetch not yet implemented: compiling .proto source text at runtime"
       +:+ " requires protox or an external protoc; wire the dep in a follow-up task").

Definition other (what : string) {A} (r : result string A) : result KafkaFdwError A :=
  map_err (fun e => KOther (what +:+ ": " +:+ e)) r.

(** [kafka_fdw/src/decode.rs:92-157] decode_value, with what the cache answers for a schema
    and the decoder of dynamic messages *)
Definition decode_value (cache : Z -> list SchemaAnswer)
    (message_decode : MessageDescriptor -> bytes -> result string DynamicMessage)
    (fmt : WireFormat) (b : bytes) : result KafkaFdwError (DecodedValue * option AvroSchema) :=
  match fmt with
  | WRaw => Ok (DecRaw b, None)
  | WAvro =>
      '(schema_id, body) ← other "avro wire decode" (wire_decode b);
      schema_text ← resolve_writer_schema (cache schema_id) schema_id;
      schema ← other "avro schema parse" (avro_parse_schema schema_text);
      value ← other "avro datum decode" (avro_from_datum schema body);
      Ok (DecAvro value, Some schema)
  | WJson =>
      '(_, body) ← other "json wire decode" (wire_decode b);
      value ← other "json decode" (json_from_slice body);
      Ok (DecJson value, None)
  | WProtobuf =>
      '(schema_id, msg_index, body) ← other "protobuf wire decode" (wire_decode_protobuf b);
      schema_text ← resolve_writer_schema (cache schema_id) schema_id;
      let index := to_unsigned 64 (default 0 (head msg_index)) in
      descriptor ← other "protobuf descriptor" (build_message_descriptor schema_text index);
      msg ← other "protobuf decode" (message_decode descriptor body);
      Ok (DecProtobuf msg, None)
  end.

(** ** Columns (types.rs) *)

(** [kafka_fdw/src/types.rs:63-74] nullable_union_type *)
Definition nullable_union_type (column_type : AvroSchema -> option ColumnType) (variants : list AvroSchema)
  : option ColumnType :=
  match variants with
  | [AvNull; other] => column_type other
  | [other; AvNull] => column_type other
  | _ => None
  end.

(** [kafka_fdw/src/types.rs:35-59] avro_to_column_type *)
Fixpoint avro_to_column_type (schema : AvroSchema) : option ColumnType :=
  match schema with
  | AvNull => None
  | AvBoolean => Some TBool
  | AvInt => Some TInt4
  | AvLong => Some TInt8
  | AvFloat | AvDouble => Some TFloat8
  | AvBytes => Some TBytea
  | AvString => Some TText
  | AvTimestampMillis | AvTimestampMicros => Some TTimestamptz
  | AvDate => Some TDate
  | AvDecimal _ => Some (TNumeric None)
  | AvUnion variants => nullable_union_type avro_to_column_type variants
  | AvRecord _ | AvArray | AvMap => Some TText
  | AvFixed | AvBigDecimal | AvRef _ | AvOther => Some TText
  end.

(** [kafka_fdw/src/types.rs:80-93] avro_schema_to_columns *)
Definition avro_schema_to_columns (schema : AvroSchema) : list Column :=
  match schema with
  | AvRecord fields => omap (fun '(name, s) => mkColumn name <$> avro_to_column_type s) fields
  | _ => []
  end.

(** [kafka_fdw/src/types.rs:100-107] json_type_to_column_type *)
Definition json_type_to_column_type (type_str : string) : ColumnType :=
  if String.eqb type_str "boolean" then TBool
  else if String.eqb type_str "integer" then TInt8
  else if String.eqb type_str "number" then TFloat8
  else TText.

(** [Value::get] of a key, [as_object], [as_str]. *)
Definition json_get (key : string) (v : Json JNum) : option (Json JNum) :=
  match v with JObject m => snd <$> List.find (fun '(k, _) => String.eqb k key) m | _ => None end.
Definition json_object (v : Json JNum) : option (list (string * Json JNum)) :=
  match v with JObject m => Some m | _ => None end.
Definition json_str (v : Json JNum) : option string := match v with JString s => Some s | _ => None end.

(** [kafka_fdw/src/types.rs:113-131] json_schema_to_columns *)
Definition json_schema_to_columns (schema : Json JNum) : list Column :=
  match json_get "properties" schema ≫= json_object with
  | None => []
  | Some props =>
      (fun '(name, prop) =>
         mkColumn name (default TText (json_type_to_column_type <$> (json_get "type" prop ≫= json_str)))) <$> props
  end.

(** [kafka_fdw/src/types.rs:142-161] proto_kind_to_column_type *)
Definition proto_kind_to_column_type (kind : ProtoKind) : ColumnType :=
  match kind with
  | KInt32 | KSint32 | KSfixed32 => TInt4
  | KUint32 | KFixed32 => TInt8
  | KInt64 | KSint64 | KUint64 | KFixed64 | KSfixed64 => TInt8
  | KFloat | KDouble => TFloat8
  | KBool => TBool
  | KString => TText
  | KBytes => TBytea
  | KEnum => TInt4
  | KMessage => TText
  end.

(** [kafka_fdw/src/types.rs:168-184] protobuf_message_to_columns *)
Definition protobuf_message_to_columns (descriptor : MessageDescriptor) : list Column :=
  (fun '(name, repeated, kind) =>
     mkColumn name (if repeated : bool then TText else proto_kind_to_column_type kind)) <$> descriptor.

(** ** Values *)

(** Collecting entries into a [serde_json::Map]: sorted by key, the last of equal keys. *)
Fixpoint map_insert (k : string) (v : Json JNum) (m : list (string * Json JNum)) : list (string * Json JNum) :=
  match m with
  | [] => [(k, v)]
  | (k', v') :: m =>
      if String.eqb k k' then (k, v) :: m
      else if lex_leb (str_bytes k) (str_bytes k') then (k, v) :: (k', v') :: m
      else (k', v') :: map_insert k v m
  end.
Definition json_map (entries : list (string * Json JNum)) : list (string * Json JNum) :=
  foldl (fun m '(k, v) => map_insert k v m) [] entries.

(** [serde_json::to_string(..).unwrap_or_default()] *)
Definition json_text (v : Json JNum) : string := default "" (json_to_string v).

Definition json_float (bits : Z) : Json JNum := from_option JNumber JNull (jnum_from_f64 bits).

(** [format!("{byte:02x}")] of each byte *)
Definition hex2 (b : Z) : string :=
  let digit d := str_of_bytes [if d <? 10 then 48 + d else 87 + d] in digit (b / 16) +:+ digit (b mod 16).
Definition hex_text (b : bytes) : string := foldr (fun x s => hex2 x +:+ s) "" b.
Definition json_bytes (b : bytes) : Json JNum := JString ("\x" +:+ hex_text b).

(** [kafka_fdw/src/types.rs:236-271] proto_value_to_json *)
Fixpoint proto_value_to_json (value : ProtoValue) : Json JNum :=
  match value with
  | PBool b => JBool b
  | PI32 i | PI64 i | PU32 i | PU64 i | PEnumNumber i => JNumber (jnum_of_int i)
  | PF32 f => json_float (f64_of_f32 f)
  | PF64 f => json_float f
  | PString s => JString s
  | PBytes b => json_bytes b
  | PMessage fields | PMap fields => JObject (json_map (map (fun '(k, v) => (k, proto_value_to_json v)) fields))
  | PList l => JArray (map proto_value_to_json l)
  end.

(** [kafka_fdw/src/types.rs:194-232] proto_value_to_datum *)
Definition proto_value_to_datum (value : ProtoValue) : Datum :=
  match value with
  | PBool b => DBool b
  | PI32 i => DInt4 i
  | PI64 i => DInt8 i
  | PU32 u => DInt8 u
  | PU64 u => DInt8 (to_signed 64 u)
  | PF32 f => DFloat8 (f64_of_f32 f)
  | PF64 f => DFloat8 f
  | PString s => DText s
  | PBytes b => DBytea b
  | PEnumNumber n => DInt4 n
  | PMessage _ | PList _ | PMap _ => DText (json_text (proto_value_to_json value))
  end.

(** [kafka_fdw/src/types.rs:380-419] avro_value_to_json *)
Fixpoint avro_value_to_json (value : AvroValue BigDecimal) : Json JNum :=
  match value with
  | VNull => JNull
  | VUnion inner => avro_value_to_json inner
  | VBoolean b => JBool b
  | VInt i | VLong i | VDate i | VTimestampMillis i | VTimestampMicros i => JNumber (jnum_of_int i)
  | VFloat f => json_float (f64_of_f32 f)
  | VDouble f => json_float f
  | VBytes b | VFixed b => json_bytes b
  | VString s => JString s
  | VRecord fields | VMap fields => JObject (json_map (map (fun '(k, v) => (k, avro_value_to_json v)) fields))
  | VArray l => JArray (map avro_value_to_json l)
  | VDecimal _ | VBigDecimal _ | VOther _ => JNull
  end.

(** [kafka_fdw/src/types.rs:284-376] avro_value_to_datum *)
Fixpoint avro_value_to_datum (value : AvroValue BigDecimal) (decimal_scale : option Z) : Datum :=
  match value with
  | VNull => DNull
  | VUnion inner => avro_value_to_datum inner decimal_scale
  | VBoolean b => DBool b
  | VInt i => DInt4 i
  | VLong l => DInt8 l
  | VFloat f => DFloat8 (f64_of_f32 f)
  | VDouble d => DFloat8 d
  | VBytes b | VFixed b => DBytea b
  | VString s => DText s
  | VDate days => from_option DDate DNull (epoch_date_add_secs (days * 86400))
  | VTimestampMillis ms => match ts_from_millisecond ms with Ok ts => DTimestamptz ts | Err _ => DNull end
  | VTimestampMicros us => from_option DTimestamptz DNull (ts_from_microsecond us)
  | VDecimal unscaled => DNumeric (bd_new unscaled (default 0 decimal_scale))
  | VBigDecimal d => DNumeric d
  | VRecord _ | VArray _ | VMap _ => DText (json_text (avro_value_to_json value))
  | VOther debug => DText debug
  end.

(** [kafka_fdw/src/types.rs:425-449] json_value_to_datum *)
Definition json_value_to_datum (value : Json JNum) (col_ty : ColumnType) : Datum :=
  match value, col_ty with
  | JNull, _ => DNull
  | JBool b, TBool => DBool b
  | JNumber n, TInt4 => from_option (fun i => DInt4 (wrap_signed 32 i)) DNull (jnum_as_i64 n)
  | JNumber n, TInt8 => from_option DInt8 DNull (jnum_as_i64 n)
  | JNumber n, TFloat8 => from_option DFloat8 DNull (jnum_as_f64 n)
  | JString s, TText => DText s
  | v, _ => DText (json_display v)
  end.

(** The scale of a decimal field of the writer schema, also of a nullable one. *)
Definition is_av_null (s : AvroSchema) : bool := match s with AvNull => true | _ => false end.
Definition decimal_scale_for (schema : option AvroSchema) (name : string) : option Z :=
  match schema with
  | Some (AvRecord fields) =>
      field ← snd <$> List.find (fun '(n, _) => String.eqb n name) fields;
      inner ← match field with
              | AvUnion variants => List.find (fun s => negb (is_av_null s)) variants
              | s => Some s
              end;
      match inner with AvDecimal scale => Some scale | _ => None end
  | _ => None
  end.

(** [kafka_fdw/src/types.rs:469-560] project *)
Definition project (decoded : DecodedValue) (value_columns : list Column) (avro_schema : option AvroSchema)
  : list Datum :=
  match decoded with
  | DecRaw b => [DBytea b]
  | DecAvro (VRecord fields) =>
      (fun col =>
         from_option (fun '(name, v) => avro_value_to_datum v (decimal_scale_for avro_schema name)) DNull
           (List.find (fun '(name, _) => String.eqb name (c_name col)) fields)) <$> value_columns
  | DecAvro _ => (fun _ => DNull) <$> value_columns
  | DecJson (JObject m) =>
      (fun col => from_option (fun v => json_value_to_datum v (c_ty col)) DNull (json_get (c_name col) (JObject m)))
        <$> value_columns
  | DecJson _ => (fun _ => DNull) <$> value_columns
  | DecProtobuf msg =>
      (fun col => if dm_has msg (c_name col)
                  then from_option proto_value_to_datum DNull (dm_get msg (c_name col)) else DNull) <$> value_columns
  end.

End Types.

(** ** Datums of the announced types *)

(** NULL, or a datum of the type. *)
Definition fits `{Ext} (ty : ColumnType) (d : Datum) : bool :=
  match column_type d with None => true | Some t => bool_decide (t = ty) end.

(** The values of a schema, as [from_avro_datum] returns them. *)
Inductive avro_value {D} : AvroSchema -> AvroValue D -> Prop :=
| av_null : avro_value AvNull VNull
| av_boolean b : avro_value AvBoolean (VBoolean b)
| av_int i : avro_value AvInt (VInt i)
| av_long l : avro_value AvLong (VLong l)
| av_float f : avro_value AvFloat (VFloat f)
| av_double d : avro_value AvDouble (VDouble d)
| av_bytes b : avro_value AvBytes (VBytes b)
| av_string s : avro_value AvString (VString s)
| av_millis n : avro_value AvTimestampMillis (VTimestampMillis n)
| av_micros n : avro_value AvTimestampMicros (VTimestampMicros n)
| av_date n : avro_value AvDate (VDate n)
| av_decimal scale n : avro_value (AvDecimal scale) (VDecimal n)
| av_union variants s v : s ∈ variants -> avro_value s v -> avro_value (AvUnion variants) (VUnion v)
| av_record fields values :
    Forall2 (fun f v => f.1 = v.1 /\ avro_value f.2 v.2) fields values -> avro_value (AvRecord fields) (VRecord values)
| av_array l : avro_value AvArray (VArray l)
| av_map m : avro_value AvMap (VMap m)
| av_fixed b : avro_value AvFixed (VFixed b)
| av_bigdecimal d : avro_value AvBigDecimal (VBigDecimal d)
| av_ref_record fields : avro_value (AvRef NamedRecord) (VRecord fields)
| av_ref_enum s : avro_value (AvRef NamedEnum) (VOther s)
| av_ref_fixed b : avro_value (AvRef NamedFixed) (VFixed b)
| av_other s : avro_value AvOther (VOther s).

(** The schemas whose values come out as announced. *)
Fixpoint well_announced (s : AvroSchema) : bool :=
  match s with
  | AvFixed | AvBigDecimal | AvRef NamedFixed => false
  | AvUnion variants => forallb well_announced variants
  | _ => true
  end.

Lemma nullable_union_other f variants s ty :
  nullable_union_type f variants = Some ty -> s ∈ variants -> is_av_null s = false -> f s = Some ty.
Proof.
  destruct variants as [|a [|b [|? ?]]]; [done|by destruct a| |by destruct a, b].
  intros E Hs Hn. apply elem_of_cons in Hs as [->|[->|[]%elem_of_nil]%elem_of_cons].
  - destruct a; try done; destruct b; done.
  - destruct b; try done; destruct a; done.
Qed.

Section Announced.
Context `{KafkaLibs}.

Lemma avro_datum_fits s v ty scale :
  avro_value s v -> well_announced s = true -> avro_to_column_type s = Some ty ->
  fits ty (avro_value_to_datum v scale) = true.
Proof.
  intros Hv. revert ty. induction Hv; intros ty Hw Ht; cbn [avro_to_column_type] in Ht; try done;
    try (injection Ht as <-; cbn; by rewrite ?bool_decide_true).
  - injection Ht as <-. cbn. destruct (ts_from_millisecond n); [|done]. unfold fits. cbn. by rewrite bool_decide_true.
  - injection Ht as <-. cbn. destruct (ts_from_microsecond n); [|done]. unfold fits. cbn. by rewrite bool_decide_true.
  - injection Ht as <-. cbn. destruct (epoch_date_add_secs _); [|done]. unfold fits. cbn. by rewrite bool_decide_true.
  - cbn [avro_value_to_datum]. cbn [well_announced] in Hw. rewrite forallb_forall in Hw.
    assert (well_announced s = true) as Hs by (by apply Hw, list_elem_of_In).
    destruct (is_av_null s) eqn:En; [destruct s; try done; by inversion Hv|].
    apply IHHv; [done|]. by eapply nullable_union_other.
Qed.

(** The column of a field finds the field. *)
Lemma find_field {A} (fields : list (string * A)) name v :
  NoDup fields.*1 -> (name, v) ∈ fields ->
  List.find (fun '(n, _) => String.eqb n name) fields = Some (name, v).
Proof.
  induction fields as [|[n w] fields IH]; [by intros _ ?%elem_of_nil|].
  rewrite fmap_cons, NoDup_cons. intros [Hn Hd] Hin. cbn [List.find].
  apply elem_of_cons in Hin as [[= <- <-]|Hin]; [by rewrite String.eqb_refl|].
  destruct (String.eqb_spec n name) as [->|]; [|by apply IH].
  destruct Hn. apply list_elem_of_fmap. by exists (name, v).
Qed.

(** A record's datums are of the types its schema announces. *)
Lemma avro_record_fits fields values ty name :
  NoDup fields.*1 -> forallb (fun f => well_announced f.2) fields = true ->
  Forall2 (fun f v => f.1 = v.1 /\ avro_value f.2 v.2) fields values ->
  mkColumn name ty ∈ avro_schema_to_columns (AvRecord fields) ->
  fits ty (from_option (fun '(n, v) => avro_value_to_datum v (decimal_scale_for (Some (AvRecord fields)) n)) DNull
             (List.find (fun '(n, _) => String.eqb n name) values)) = true.
Proof.
  intros Hd Hw Hv Hc. apply list_elem_of_omap in Hc as ([n s] & Hin & Hs).
  destruct (avro_to_column_type s) as [ty'|] eqn:Et; [|done]. injection Hs as <- <-.
  apply list_elem_of_lookup in Hin as [i Hi].
  destruct (Forall2_lookup_l _ _ _ _ _ Hv Hi) as ([n' v] & Hi' & [En Ev]). cbn [fst snd] in *. subst n'.
  assert (values.*1 = fields.*1) as En.
  { clear -Hv. induction Hv as [|f v fs vs [E _] _ IH]; [done|]. by rewrite !fmap_cons, E, IH. }
  rewrite (find_field values n v); [|by rewrite En|by eapply list_elem_of_lookup_2].
  eapply avro_datum_fits; [done| |done].
  rewrite forallb_forall in Hw. apply (Hw (n, s)), list_elem_of_In. by eapply list_elem_of_lookup_2.
Qed.

(** Every projection but a raw one has a datum for each column. *)
Lemma project_length decoded cols schema :
  (forall b, decoded <> DecRaw b) -> length (project decoded cols schema) = length cols.
Proof.
  intros Hr. destruct decoded as [v|v|b|m]; [| |by destruct (Hr b)|].
  - destruct v; apply length_fmap.
  - destruct v; apply length_fmap.
  - apply length_fmap.
Qed.
End Announced.

(** A fixed-size field is announced as text and comes out as bytes. *)
Lemma fixed_misannounced `{KafkaLibs} b scale :
  avro_to_column_type AvFixed = Some TText /\ fits TText (avro_value_to_datum (VFixed b) scale) = false.
Proof. done. Qed.
