(* ===== verification/KafkaScan.v ===== *)
(** * Scanning a topic (kafka_fdw/src/source.rs, scan.rs, lib.rs)

    The offsets a scan reads of each partition, the fetch loop, the rows made of the
    records, and the import of topics as tables. The broker and the schema registry are
    parameters. *)
From Stdlib Require Import ZArith Lia Ascii Sorted.
From stdpp Require Import base list gmap strings sorting.
From S2P Require Import Prelude Text Chars Keys Store Datum Float DateTimeBin ExtModel ExtArith.
From S2P Require Import DateTime Calendar Numeric NumericFn Ops Cast Errors Catalog Scope Ast.
From S2P Require Import EvalOps LibModel Func DateTimeFn FormatFn AggCall Eval Wire Project ScanBounds.
From S2P Require Import Pushdown KafkaTypes.
Open Scope Z_scope.

(** ** Fetch plans (source.rs) *)

(** [kafka_fdw/src/source.rs:25-45] RawRecord *)
Record RawRecord : Type := mkRaw {
  rr_partition : Z;
  rr_offset : Z;
  rr_timestamp_ms : Z;
  rr_key : option bytes;
  rr_value : option bytes;
  rr_headers : list (string * option bytes)
}.

(** [kafka_fdw/src/source.rs:49-57] FetchPlan *)
Record FetchPlan : Type := mkPlan {
  fp_start : Z;
  fp_stop : Z;
  fp_max_records : option Z
}.

Definition bound_for (partition : Z) (bounds : list (Z * Z)) : option Z :=
  snd <$> List.find (fun '(p, _) => p =? partition) bounds.

(** [kafka_fdw/src/source.rs:74-117] plan_fetch *)
Definition plan_fetch (earliest hwm partition : Z) (bounds : ScanBounds) : FetchPlan :=
  let start := from_option (fun lo => Z.max lo earliest) earliest (bound_for partition (start_offsets bounds)) in
  let stop := from_option (fun hi => Z.min hi hwm) hwm (bound_for partition (end_offsets bounds)) in
  let max_records :=
    (fun hi => let count := wrap_signed 64 (Z.min hi hwm - start) in if 0 <? count then count else 0)
      <$> bound_for partition (end_offsets bounds) in
  mkPlan start stop max_records.

(** ** The broker *)

(** [crabka_client_core::FetchedRecord] *)
Record Fetched : Type := mkFetched {
  fe_offset : Z;
  fe_timestamp : Z;
  fe_key : option bytes;
  fe_value : option bytes
}.

(** A topic of a metadata response: its error, if any, by name and code. *)
Record TopicMeta : Type := mkTopic {
  tm_name : string;
  tm_error : option (string * Z);
  tm_partition_count : Z
}.

(** What the brokers of a cluster answer: to the connection of the admin client, the
    resolution of a host, a connection, and the requests Metadata (of the named topics, of
    all for an empty list), ListOffsets (for each topic its partitions with their error
    codes and offsets) and Fetch. *)
Record Broker : Type := mkBroker {
  bk_admin : list string -> option ClientSecurity -> result string ();
  bk_lookup_host : string -> result string (list string);
  bk_connect : string -> option ClientSecurity -> result string ();
  bk_metadata : list string -> result string (list TopicMeta);
  bk_list_offsets : Z -> string -> list Z -> result string (list (string * list (Z * Z * Z)));
  bk_fetch : string -> Z -> Z -> result string (list Fetched)
}.

(** [kafka_fdw/src/source.rs:124-124] EARLIEST, *)
Definition EARLIEST : Z := -2.
(** [kafka_fdw/src/source.rs:126-126] LATEST, *)
Definition LATEST : Z := -1.

Definition to_raw (partition : Z) (fr : Fetched) : RawRecord :=
  mkRaw partition (fe_offset fr) (fe_timestamp fr) (fe_key fr) (fe_value fr) [].

Definition reached (max : option Z) (records : list RawRecord) : bool :=
  match max with Some m => m <=? Z.of_nat (length records) | None => false end.

(** [kafka_fdw/src/source.rs:351-377] scan_topic, the loop over the records of one answer: the next offset, whether it moved, and the
    records so far. *)
Fixpoint take_fetched (plan : FetchPlan) (partition : Z) (fetched : list Fetched) (next : Z) (advanced : bool)
    (records : list RawRecord) : Z * bool * list RawRecord :=
  match fetched with
  | [] => (next, advanced, records)
  | fr :: rest =>
      if fp_stop plan <=? fe_offset fr then (next, advanced, records)
      else
        let '(next, advanced) :=
          if next <=? fe_offset fr then (fe_offset fr + 1, true) else (next, advanced) in
        let records := records ++ [to_raw partition fr] in
        if reached (fp_max_records plan) records then (next, advanced, records)
        else take_fetched plan partition rest next advanced records
  end.

Section Topic.
Context `{Ext} (broker : Broker).

(** [kafka_fdw/src/source.rs:398-421] open_connection *)
Definition open_connection (profile : ConnProfile) : result KafkaFdwError () :=
  host_port ← ok_or (head (cp_bootstrap profile)) (KConfig "no bootstrap address in connection profile");
  addrs ← other ("DNS lookup " +:+ host_port) (bk_lookup_host broker host_port);
  addr ← ok_or (head addrs) (KOther ("no addresses for " +:+ host_port));
  other ("connect to " +:+ host_port) (bk_connect broker addr (cp_security profile)).

(** [kafka_fdw/src/source.rs:309-385] scan_topic, the loop over the answers for one partition; a turn that goes on moves the next offset
    towards the end. *)
Fixpoint fetch_loop (fuel : nat) (topic : string) (plan : FetchPlan) (partition next : Z) (records : list RawRecord)
  : result KafkaFdwError (list RawRecord) :=
  match fuel with
  | O => Ok records
  | S fuel =>
      if fp_stop plan <=? next then Ok records
      else if reached (fp_max_records plan) records then Ok records
      else
        fetched ← map_err (fun e => KOther ("fetch partition " +:+ z_to_string partition +:+ " offset "
                             +:+ z_to_string next +:+ ": " +:+ e)) (bk_fetch broker topic partition next);
        match fetched with
        | [] => Ok records
        | _ =>
            let '(next, advanced, records) := take_fetched plan partition fetched next false records in
            if advanced : bool then fetch_loop fuel topic plan partition next records else Ok records
        end
  end.

Definition insert_offset (m : gmap Z Z) (answer : Z * Z * Z) : gmap Z Z :=
  let '(p, code, off) := answer in if code =? 0 then <[p := off]> m else m.

(** [kafka_fdw/src/source.rs:271-292] scan_topic, the offsets of the topic's partitions without an error; the last one counts. *)
Definition offset_map (topic : string) (answer : list (string * list (Z * Z * Z))) : gmap Z Z :=
  foldl insert_offset ∅ (concat ((fun '(name, ps) => if String.eqb name topic then ps else []) <$> answer)).

(** [kafka_fdw/src/source.rs:194-215] scan_topic, the partitions of a scan: all, or those with a bound. *)
Definition scan_partitions (count : Z) (bounds : ScanBounds) : list Z :=
  let all := Z.of_nat <$> seq 0 (Z.to_nat count) in
  match start_offsets bounds, end_offsets bounds with
  | [], [] => all
  | _, _ =>
      let ids : gset Z := list_to_set ((start_offsets bounds).*1 ++ (end_offsets bounds).*1) in
      List.filter (fun p => p <? count) (merge_sort Z.le (elements ids))
  end.

Definition scan_partition (topic : string) (earliest hwm : gmap Z Z) (bounds : ScanBounds)
    (records : list RawRecord) (partition : Z) : result KafkaFdwError (list RawRecord) :=
  let plan := plan_fetch (default 0 (earliest !! partition)) (default 0 (hwm !! partition)) partition bounds in
  if fp_stop plan <=? fp_start plan then Ok records
  else fetch_loop (S (Z.to_nat (fp_stop plan - fp_start plan))) topic plan partition (fp_start plan) records.

(** [kafka_fdw/src/source.rs:155-389] scan_topic; the topic's id goes with its name *)
Definition scan_topic (profile : ConnProfile) (topic : string) (bounds : ScanBounds)
  : result KafkaFdwError (list RawRecord) :=
  _ ← other "admin connect" (bk_admin broker (cp_bootstrap profile) (cp_security profile));
  topics ← other "metadata" (bk_metadata broker [topic]);
  meta ← ok_or (List.find (fun t => String.eqb (tm_name t) topic) topics)
    (KOther ("topic " +:+ str_debug topic +:+ " not found in metadata response"));
  match tm_error meta with
  | Some (name, code) =>
      Err (KOther ("metadata error for topic " +:+ str_debug topic +:+ ": " +:+ name +:+ " ("
             +:+ z_to_string code +:+ ")"))
  | None =>
      match scan_partitions (tm_partition_count meta) bounds with
      | [] => Ok []
      | partitions =>
          _ ← open_connection profile;
          earliest ← other "ListOffsets(earliest)" (bk_list_offsets broker EARLIEST topic partitions);
          latest ← other "ListOffsets(latest)" (bk_list_offsets broker LATEST topic partitions);
          foldM (scan_partition topic (offset_map topic earliest) (offset_map topic latest) bounds) [] partitions
      end
  end.
End Topic.

(** ** Rows (scan.rs) *)

(** A schema registry: the latest id of a subject, the schema of an id, and what the cache
    answers when asked for the schema a record was written with. *)
Record Registry : Type := mkRegistry {
  rg_latest_id : string -> option Z;
  rg_schema_by_id : Z -> option string;
  rg_writer_schema : Z -> list SchemaAnswer
}.

Section Rows.
Context `{ExtArith} `{!KafkaLibs} (message_decode : MessageDescriptor -> bytes -> result string DynamicMessage).

(** [kafka_fdw/src/scan.rs:21-21] ENVELOPE_COLS, *)
Definition ENVELOPE_COLS : nat := 5.

(** [kafka_fdw/src/scan.rs:85-100] headers_to_json *)
Definition headers_to_json (headers : list (string * option bytes)) : string :=
  default "{}" (json_to_string (JObject (json_map
    ((fun '(k, v) => (k, from_option json_bytes JNull v)) <$> headers)))).

Definition value_datums (registry : Registry) (profile : ConnProfile) (value_columns : list Column) (value : option bytes)
  : result KafkaFdwError (list Datum) :=
  match value with
  | Some ((_ :: _) as b) =>
      '(decoded, schema) ← decode_value (rg_writer_schema registry) message_decode (cp_value_format profile) b;
      Ok (project decoded value_columns schema)
  | _ => Ok ((fun _ => DNull) <$> value_columns)
  end.

(** The row of a record. *)
Definition assemble_row (registry : Registry) (table : Table) (profile : ConnProfile) (raw : RawRecord)
  : result KafkaFdwError (list Datum) :=
  let value_columns := drop ENVELOPE_COLS (t_columns table) in
  ts ← map_err (fun e => KOther ("timestamp " +:+ z_to_string (rr_timestamp_ms raw) +:+ " out of range: " +:+ e))
    (ts_from_millisecond (rr_timestamp_ms raw));
  values ← value_datums registry profile value_columns (rr_value raw);
  Ok ([DInt4 (rr_partition raw); DInt8 (rr_offset raw); DTimestamptz ts;
       from_option DBytea DNull (rr_key raw); DText (headers_to_json (rr_headers raw))] ++ values).

(** [kafka_fdw/src/scan.rs:38-79] assemble_rows *)
Definition assemble_rows (table : Table) (raws : list RawRecord) (profile : ConnProfile) (registry : Registry)
  : result KafkaFdwError (list (list Datum)) := mapR (assemble_row registry table profile) raws.

(** ** The wrapper (lib.rs) *)

(** [kafka_fdw/src/lib.rs:41-43] to_exec_err *)
Definition to_exec_err (err : KafkaFdwError) : ExecError := EUnsupported (kafka_error_text err).

Definition to_exec {A} (r : result KafkaFdwError A) : xresult A := lift (map_err to_exec_err r).

Context (broker : Broker) (registry_at : string -> Registry).

(** [kafka_fdw/src/lib.rs:54-86] KafkaFdw::scan *)
Definition kafka_scan (table : Table) (server : ForeignServer) (mapping : option UserMapping)
    (bounds : ScanBounds) (ctx : EvalCtx) : xresult (list (list Datum)) :=
  foreign ← lift (ok_or (t_foreign table)
    (EUnsupported ("table " +:+ quoted (t_name table) +:+ " is not a foreign table")));
  profile ← to_exec (resolve_profile server mapping (fm_options foreign));
  raws ← to_exec (scan_topic broker profile (cp_topic profile) bounds);
  to_exec (assemble_rows table raws profile (registry_at (cp_registry_url profile))).

(** [kafka_fdw/src/lib.rs:171-178] wire_option *)
Definition wire_option (wire : WireFormat) : string :=
  match wire with WRaw => "raw" | WAvro => "avro" | WJson => "json" | WProtobuf => "protobuf" end.

(** [kafka_fdw/src/lib.rs:181-186] raw_value_column *)
Definition raw_value_column : Column := mkColumn "value" TBytea.

(** [kafka_fdw/src/lib.rs:194-221] fetch_value_columns *)
Definition fetch_value_columns (registry : Registry) (subject : string) : option (list Column * WireFormat) :=
  id ← rg_latest_id registry subject;
  schema_text ← rg_schema_by_id registry id;
  let avro := match avro_parse_schema schema_text with Ok s => avro_schema_to_columns s | Err _ => [] end in
  let json := from_option json_schema_to_columns [] (json_from_str schema_text) in
  match avro, json with
  | _ :: _, _ => Some (avro, WAvro)
  | [], _ :: _ => Some (json, WJson)
  | [], [] => None
  end.

(** [kafka_fdw/src/lib.rs:162-168] value_columns_for_topic *)
Definition value_columns_for_topic (registry : Registry) (topic : string) : list Column * WireFormat :=
  match fetch_value_columns registry (topic +:+ "-value") with
  | Some ((_ :: _) as cols, wire) => (cols, wire)
  | _ => ([raw_value_column], WRaw)
  end.

Definition import_table (registry : Registry) (name : string) : ImportedTable :=
  let '(columns, wire) := value_columns_for_topic registry name in
  mkImported name columns [("topic", name); ("value_format", wire_option wire)].

Definition importable (filter : ImportFilter) (entry : TopicMeta) : bool :=
  match tm_error entry with Some _ => false | None => true end &&
  negb (str_starts (tm_name entry) "__") && retains filter (tm_name entry).

(** [kafka_fdw/src/lib.rs:88-151] KafkaFdw::import_schema *)
Definition kafka_import_schema (server : ForeignServer) (mapping : option UserMapping) (filter : ImportFilter)
  : xresult (list ImportedTable) :=
  profile ← to_exec (resolve_server server mapping);
  _ ← lift (map_err (fun e => EUnsupported ("import: admin connect: " +:+ e))
              (bk_admin broker (sp_bootstrap profile) (sp_security profile)));
  topics ← lift (map_err (fun e => EUnsupported ("import: list topics metadata: " +:+ e))
              (bk_metadata broker []));
  Ok (sort_by (fun a b => str_cmp (im_name a) (im_name b))
        ((fun entry => import_table (registry_at (sp_registry_url profile)) (tm_name entry))
           <$> List.filter (importable filter) topics)).

(** [kafka_fdw/src/lib.rs:36-36] KafkaFdw *)
Definition KafkaFdw : ForeignScanner := mkScanner kafka_scan kafka_import_schema.
End Rows.

(** ** A scan reads the topic between its offsets *)

Definition from_offset (off : Z) (log : list Fetched) : list Fetched :=
  List.filter (fun fr => off <=? fe_offset fr) log.
Definition below (stop : Z) (log : list Fetched) : list Fetched :=
  List.filter (fun fr => fe_offset fr <? stop) log.
Definition window (start stop : Z) (log : list Fetched) : list Fetched := below stop (from_offset start log).

Definition ascending : list Fetched -> Prop := StronglySorted (fun a b => fe_offset a < fe_offset b).

Lemma filter_all {A} (P : A -> bool) l : Forall (fun x => P x = true) l -> List.filter P l = l.
Proof. induction 1 as [|x l Hx _ IH]; [done|]. simpl. by rewrite Hx, IH. Qed.

Lemma filter_none {A} (P : A -> bool) l : Forall (fun x => P x = false) l -> List.filter P l = [].
Proof. induction 1 as [|x l Hx _ IH]; [done|]. simpl. by rewrite Hx, IH. Qed.

Lemma list_filter_filter {A} (P Q : A -> bool) l :
  List.filter P (List.filter Q l) = List.filter (fun x => Q x && P x) l.
Proof. induction l as [|x l IH]; [done|]. simpl. destruct (Q x); simpl; [destruct (P x); by rewrite IH|done]. Qed.

Lemma filter_ascending P l : ascending l -> ascending (List.filter P l).
Proof.
  induction 1 as [|x l Hl IH Hx]; simpl; [constructor|]. destruct (P x); [|done]. constructor; [done|].
  rewrite Forall_forall in *. intros y Hy. apply list_elem_of_In, filter_In in Hy as [Hy _].
  by apply Hx, list_elem_of_In.
Qed.

Lemma from_offset_ge off log : Forall (fun fr => off <= fe_offset fr) (from_offset off log).
Proof. apply Forall_forall. intros x Hx. apply list_elem_of_In, filter_In in Hx as [_ Hx]. lia. Qed.

Lemma from_offset_later off off' log : off <= off' -> from_offset off' (from_offset off log) = from_offset off' log.
Proof.
  intros Ho. unfold from_offset. rewrite list_filter_filter. apply List.filter_ext. intros x. lia.
Qed.

(** How far the rest of the window fits into the record limit. *)
Definition budget (plan : FetchPlan) (next : Z) (records : list RawRecord) : Prop :=
  match fp_max_records plan with
  | Some m => Z.of_nat (length records) + (fp_stop plan - next) <= m
  | None => True
  end.

Lemma budget_reached plan next records :
  budget plan next records -> reached (fp_max_records plan) records = true -> fp_stop plan <= next.
Proof. unfold budget, reached. destruct (fp_max_records plan); [lia|done]. Qed.

(** One answer: some first records of the rest are taken, all below the end; the next offset
    is behind them; nothing is taken only when the rest starts at the end. *)
Lemma take_fetched_spec plan partition rest n next advanced records :
  ascending rest -> Forall (fun fr => next <= fe_offset fr) rest -> budget plan next records ->
  exists k next',
    take_fetched plan partition (take n rest) next advanced records =
      (next', advanced || (0 <? k)%nat, records ++ (to_raw partition <$> take k rest)) /\
    budget plan next' (records ++ (to_raw partition <$> take k rest)) /\
    below (fp_stop plan) (take k rest) = take k rest /\
    from_offset next' rest = drop k rest /\
    next + Z.of_nat k <= next' /\
    (k = 0%nat -> (0 < n)%nat -> below (fp_stop plan) rest = []).
Proof.
  intros Hs. revert n next advanced records. induction Hs as [|fr rest Hs IH Hlt]; intros n next advanced records Hge Hb.
  { exists 0%nat, next. rewrite take_nil. cbn. rewrite app_nil_r, orb_false_r. split_and!; try done; lia. }
  apply Forall_cons in Hge as [Hfr Hge].
  assert (from_offset next rest = rest) as Hall.
  { apply filter_all. eapply Forall_impl; [exact Hge|]. simpl. lia. }
  destruct n as [|n].
  { exists 0%nat, next. cbn. rewrite app_nil_r, orb_false_r. split_and!; try done; [|lia|lia].
    rewrite (proj2 (Z.leb_le _ _)) by done. by f_equal. }
  cbn [take take_fetched]. destruct (Z.leb_spec (fp_stop plan) (fe_offset fr)) as [Hstop|Hstop].
  { exists 0%nat, next. cbn. rewrite app_nil_r, orb_false_r, !(proj2 (Z.ltb_ge _ _)) by lia.
    rewrite (proj2 (Z.leb_le _ _)) by done. split_and!; try done; [by f_equal|lia|]. intros _ _. apply filter_none.
    eapply Forall_impl; [exact Hlt|]. simpl. lia. }
  rewrite (proj2 (Z.leb_le next _)) by done.
  assert (budget plan (fe_offset fr + 1) (records ++ [to_raw partition fr])) as Hb'.
  { revert Hb. unfold budget. destruct (fp_max_records plan); [|done]. rewrite length_app. simpl. lia. }
  assert (from_offset (fe_offset fr + 1) rest = rest) as Hnext.
  { apply filter_all. eapply Forall_impl; [exact Hlt|]. simpl. lia. }
  destruct (reached _ _) eqn:Er.
  - exists 1%nat, (fe_offset fr + 1). cbn. rewrite orb_true_r, !(proj2 (Z.ltb_lt _ _)) by lia.
    rewrite (proj2 (Z.leb_gt _ _)) by lia. rewrite !take_0, drop_0. split_and!; try done; lia.
  - destruct (IH n (fe_offset fr + 1) true (records ++ [to_raw partition fr])) as (k & next' & E & Hb2 & Hbel & Hfrom & Hle & _).
    { eapply Forall_impl; [exact Hlt|]. simpl. lia. }
    { done. }
    exists (S k), next'. rewrite E. cbn [take fmap list_fmap drop]. rewrite <- app_assoc in *. cbn [app] in *.
    rewrite orb_true_r. cbn [below List.filter from_offset]. rewrite (proj2 (Z.ltb_lt _ _)) by lia.
    rewrite (proj2 (Z.leb_gt _ _)) by lia. split_and!; try done; [|lia].
    unfold below in Hbel. by rewrite Hbel.
Qed.

(** What a topic answers while it does not change: [count] partitions, the earliest and the
    end offset of each, and its records. A fetch gives at least one of the records from its
    offset on, in order, if there is one. A partition the topic lacks has no offsets. *)
Record serves `{Ext} (broker : Broker) (profile : ConnProfile) (topic : string) (count : Z)
    (earliest latest : Z -> Z) (log : Z -> list Fetched) : Prop := {
  sv_admin : bk_admin broker (cp_bootstrap profile) (cp_security profile) = Ok ();
  sv_metadata : exists topics, bk_metadata broker [topic] = Ok topics /\
    List.find (fun t => String.eqb (tm_name t) topic) topics = Some (mkTopic topic None count);
  sv_connects : open_connection broker profile = Ok ();
  sv_earliest ps : exists answer, bk_list_offsets broker EARLIEST topic ps = Ok answer /\
    (forall p, p ∈ ps -> default 0 (offset_map topic answer !! p) = earliest p);
  sv_latest ps : exists answer, bk_list_offsets broker LATEST topic ps = Ok answer /\
    (forall p, p ∈ ps -> default 0 (offset_map topic answer !! p) = latest p);
  sv_offsets p : 0 <= earliest p /\ latest p <= 9223372036854775807;
  sv_unknown p : ~ 0 <= p < count -> latest p <= earliest p;
  sv_ascending p : ascending (log p);
  sv_fetch p off : exists n, bk_fetch broker topic p off = Ok (take (S n) (from_offset off (log p)))
}.

Lemma below_nil_offset start stop log : stop <= start -> window start stop log = [].
Proof.
  intros Hs. apply filter_none. eapply Forall_impl; [apply from_offset_ge|]. simpl. lia.
Qed.

Section Reads.
Context `{Ext} (broker : Broker) (profile : ConnProfile) (topic : string) (count : Z).
Context (earliest latest : Z -> Z) (log : Z -> list Fetched).
Context (Hserves : serves broker profile topic count earliest latest log).

Lemma fetch_loop_reads fuel plan partition next records :
  budget plan next records -> fp_stop plan - next < Z.of_nat fuel ->
  fetch_loop broker fuel topic plan partition next records =
    Ok (records ++ (to_raw partition <$> window next (fp_stop plan) (log partition))).
Proof.
  revert next records. induction fuel as [|fuel IH]; intros next records Hb Hf.
  { rewrite below_nil_offset by lia. cbn. by rewrite app_nil_r. }
  cbn [fetch_loop]. destruct (Z.leb_spec (fp_stop plan) next).
  { rewrite below_nil_offset by done. cbn. by rewrite app_nil_r. }
  destruct (reached _ _) eqn:Er; [by pose proof (budget_reached _ _ _ Hb Er); lia|].
  destruct (sv_fetch _ _ _ _ _ _ _ Hserves partition next) as [n ->]. cbn [map_err].
  unfold window. set (rest := from_offset next (log partition)).
  destruct (take_fetched_spec plan partition rest (S n) next false records) as (k & next' & E & Hb' & Hbel & Hrest & Hk & Hnone).
  { apply filter_ascending, (sv_ascending _ _ _ _ _ _ _ Hserves). }
  { apply from_offset_ge. }
  { done. }
  destruct (take (S n) rest) as [|fr frs] eqn:Et.
  { destruct rest; [|done]. cbn. by rewrite app_nil_r. }
  cbn [mbind result_bind]. rewrite E. destruct k as [|k]; cbn [Nat.ltb Nat.leb orb].
  - rewrite Hnone by lia. by rewrite take_0.
  - cbn. rewrite IH by (done || lia). rewrite <- app_assoc. do 2 f_equal. unfold window.
    rewrite <- (from_offset_later next next') by lia. fold rest. rewrite Hrest.
    rewrite <- fmap_app. f_equal. rewrite <- (take_drop (S k) rest) at 3.
    unfold below at 2. rewrite List.filter_app. by f_equal.
Qed.

(** The records a scan with these bounds reads of a partition. *)
Definition partition_reads (bounds : ScanBounds) (p : Z) : list RawRecord :=
  let plan := plan_fetch (earliest p) (latest p) p bounds in
  to_raw p <$> window (fp_start plan) (fp_stop plan) (log p).

Lemma plan_budget bounds p records :
  end_offsets bounds = [] \/ records = [] ->
  let plan := plan_fetch (earliest p) (latest p) p bounds in
  fp_start plan < fp_stop plan -> budget plan (fp_start plan) records.
Proof.
  intros Hr plan Hlt. unfold budget. subst plan. unfold plan_fetch in *. cbn [fp_start fp_stop fp_max_records] in *.
  destruct Hr as [->| ->]; [done|]. destruct (bound_for p (end_offsets bounds)) as [hi|]; cbn in *; [|done].
  destruct (sv_offsets _ _ _ _ _ _ _ Hserves p) as [H0 H1]. rewrite wrap_i64_id.
  - case_match; lia.
  - destruct (bound_for p (start_offsets bounds)); cbn in *; width_lia.
Qed.

Lemma scan_partition_reads bounds e l records p :
  default 0 (e !! p) = earliest p -> default 0 (l !! p) = latest p ->
  end_offsets bounds = [] \/ records = [] ->
  scan_partition broker topic e l bounds records p = Ok (records ++ partition_reads bounds p).
Proof.
  intros He Hl Hr. unfold scan_partition, partition_reads. rewrite He, Hl.
  destruct (Z.leb_spec (fp_stop (plan_fetch (earliest p) (latest p) p bounds)) (fp_start (plan_fetch (earliest p) (latest p) p bounds))).
  - rewrite below_nil_offset by done. cbn. by rewrite app_nil_r.
  - apply fetch_loop_reads; [by apply plan_budget|lia].
Qed.

Lemma scan_partitions_read bounds e l records ps :
  (forall p, p ∈ ps -> default 0 (e !! p) = earliest p) -> (forall p, p ∈ ps -> default 0 (l !! p) = latest p) ->
  end_offsets bounds = [] \/ (records = [] /\ (length ps <= 1)%nat) ->
  foldM (scan_partition broker topic e l bounds) records ps = Ok (records ++ concat (partition_reads bounds <$> ps)).
Proof.
  revert records. induction ps as [|p ps IH]; intros records He Hl Hr; cbn; [by rewrite app_nil_r|].
  rewrite scan_partition_reads; [|by apply He, list_elem_of_here|by apply Hl, list_elem_of_here|naive_solver].
  cbn. destruct Hr as [Hr|[-> Hlen]].
  - rewrite IH by eauto using list_elem_of_further. by rewrite app_assoc.
  - destruct ps as [|q ps]; [|simpl in Hlen; lia]. cbn. by rewrite app_nil_r.
Qed.

(** With at most one limited partition a scan reads the window of each of its partitions. *)
Lemma scan_topic_reads bounds :
  end_offsets bounds = [] \/ (length (scan_partitions count bounds) <= 1)%nat ->
  scan_topic broker profile topic bounds = Ok (concat (partition_reads bounds <$> scan_partitions count bounds)).
Proof.
  intros Hb. unfold scan_topic. rewrite (sv_admin _ _ _ _ _ _ _ Hserves).
  destruct (sv_metadata _ _ _ _ _ _ _ Hserves) as (topics & Em & Ef). cbn. rewrite Em. cbn. rewrite Ef.
  cbn [ok_or mbind result_bind tm_error tm_partition_count].
  destruct (scan_partitions count bounds) as [|p ps]; [done|].
  rewrite (sv_connects _ _ _ _ _ _ _ Hserves).
  destruct (sv_earliest _ _ _ _ _ _ _ Hserves (p :: ps)) as (e & Ee & He).
  destruct (sv_latest _ _ _ _ _ _ _ Hserves (p :: ps)) as (l & El & Hl).
  cbn [mbind result_bind]. rewrite Ee. cbn [mbind result_bind other map_err]. rewrite El.
  cbn [mbind result_bind other map_err]. apply (scan_partitions_read bounds _ _ [] (p :: ps)); naive_solver.
Qed.
End Reads.

(** ** Bounds of a WHERE clause *)

(** The bounds let a scan read the record at an offset of a partition. *)
Definition in_scan (b : ScanBounds) (p o : Z) : bool :=
  match start_offsets b, end_offsets b with
  | [], [] => true
  | _, _ => existsb (fun x => x =? p) ((start_offsets b).*1 ++ (end_offsets b).*1)
  end && within b p o.

(** The bounds of a WHERE clause are about one partition. *)
Definition single_partition (b : ScanBounds) : Prop :=
  b = no_bounds \/ exists p s e, b = mkBounds (match s with Some s => [(p, s)] | None => [] end)
                                           (match e with Some e => [(p, e)] | None => [] end).

Lemma extract_single `{Ext} (f : option Expr) : single_partition (extract_scan_bounds f).
Proof.
  unfold single_partition, extract_scan_bounds. destruct f as [f|]; [|by left].
  destruct (partition_anchor None (collect_conjuncts f)) as [[p|]|]; [|by left..].
  destruct (foldl tighten_bound (None, None) (collect_conjuncts f)) as [s e]. right. by exists p, s, e.
Qed.

Lemma filter_concat {A B} (P : B -> bool) (g : A -> list B) l :
  List.filter P (concat (g <$> l)) = concat ((fun x => List.filter P (g x)) <$> l).
Proof. induction l as [|x l IH]; [done|]. cbn. by rewrite List.filter_app, IH. Qed.

Lemma concat_only {A B} `{EqDecision A} (p : A) (g : A -> list B) l :
  NoDup l -> (forall q, q ≠ p -> g q = []) ->
  concat (g <$> l) = if decide (p ∈ l) then g p else [].
Proof.
  intros Hd Hg. induction Hd as [|q l Hq Hd IH]; [done|]. cbn. rewrite IH.
  destruct (decide (q = p)) as [->|Hn].
  - rewrite decide_False by done. rewrite decide_True by apply list_elem_of_here. apply app_nil_r.
  - rewrite (Hg q Hn). apply decide_ext. rewrite elem_of_cons. naive_solver.
Qed.

Lemma filter_map {A B} (f : A -> B) (P : B -> bool) l :
  List.filter P (f <$> l) = f <$> List.filter (fun x => P (f x)) l.
Proof. induction l as [|x l IH]; [done|]. cbn. destruct (P (f x)); cbn; by rewrite IH. Qed.

Section Bounded.
Context `{Ext} (broker : Broker) (profile : ConnProfile) (topic : string) (count : Z).
Context (earliest latest : Z -> Z) (log : Z -> list Fetched).
Context (Hserves : serves broker profile topic count earliest latest log).

Local Abbreviation reads := (partition_reads earliest latest log).

Definition one_bound (p : Z) (v : option Z) : list (Z * Z) := match v with Some v => [(p, v)] | None => [] end.

Lemma in_scan_one p s e q o :
  s <> None \/ e <> None ->
  in_scan (mkBounds (one_bound p s) (one_bound p e)) q o =
    (q =? p) && from_option (fun s => s <=? o) true s && from_option (fun e => o <? e) true e.
Proof using Type.
  intros Hse. unfold in_scan, within. destruct s as [s|], e as [e|]; cbn; [..|naive_solver];
    rewrite ?orb_false_r, ?andb_true_r; destruct (Z.eqb_spec p q), (Z.eqb_spec q p); subst; try done; try lia;
    by rewrite ?andb_false_r.
Qed.

Lemma partition_reads_one p s e :
  s <> None \/ e <> None ->
  reads (mkBounds (one_bound p s) (one_bound p e)) p =
  List.filter (fun r => in_scan (mkBounds (one_bound p s) (one_bound p e)) (rr_partition r) (rr_offset r)) (reads no_bounds p).
Proof using Type.
  intros Hse. unfold partition_reads. rewrite filter_map. f_equal. unfold window, below, from_offset.
  rewrite !list_filter_filter. apply List.filter_ext. intros fr. cbn [rr_partition rr_offset to_raw].
  rewrite in_scan_one, Z.eqb_refl by done. unfold plan_fetch. cbn.
  destruct s as [s|], e as [e|]; cbn; rewrite ?Z.eqb_refl; cbn; lia.
Qed.

Lemma other_partition_reads p s e q :
  s <> None \/ e <> None -> q <> p ->
  List.filter (fun r => in_scan (mkBounds (one_bound p s) (one_bound p e)) (rr_partition r) (rr_offset r)) (reads no_bounds q) = [].
Proof using Type.
  intros Hse Hq. apply filter_none, Forall_fmap, Forall_forall. intros fr _. cbn.
  rewrite in_scan_one by done. by rewrite (proj2 (Z.eqb_neq _ _)).
Qed.

Lemma scan_partitions_one p s e :
  s <> None \/ e <> None ->
  scan_partitions count (mkBounds (one_bound p s) (one_bound p e)) = if p <? count then [p] else [].
Proof using Type.
  intros Hse. clear - Hse. unfold scan_partitions.
  assert (forall l : list Z, NoDup l -> (forall q, q ∈ l <-> q = p) -> l = [p]) as Hone.
  { intros l Hd Hl. destruct l as [|a [|b l]].
    - exfalso. by apply (not_elem_of_nil p), Hl.
    - f_equal. apply Hl, list_elem_of_here.
    - assert (a = p) by apply Hl, list_elem_of_here. assert (b = p) by (apply Hl; set_solver).
      apply NoDup_cons in Hd as [Hd _]. subst. set_solver. }
  set (ids := list_to_set _ : gset Z).
  assert (merge_sort Z.le (elements ids) = [p]) as Hs.
  { apply Hone; [rewrite merge_sort_Permutation; apply NoDup_elements|]. intros q.
    rewrite merge_sort_Permutation, elem_of_elements. subst ids. destruct s, e; cbn; set_solver. }
  rewrite Hs. cbn. destruct s, e; cbn; try done.
Qed.

(** A scan within the bounds of one partition reads what a full scan reads there. *)
Lemma bounded_reads b :
  single_partition b ->
  concat (reads b <$> scan_partitions count b) =
  List.filter (fun r => in_scan b (rr_partition r) (rr_offset r)) (concat (reads no_bounds <$> scan_partitions count no_bounds)).
Proof.
  intros [->|(p & s & e & ->)]; [by rewrite filter_all by by apply Forall_true|].
  fold (one_bound p s) (one_bound p e).
  destruct (decide (s = None /\ e = None)) as [[-> ->]|Hse]; [by rewrite filter_all by by apply Forall_true|].
  assert (s <> None \/ e <> None) as Hse' by (destruct s, e; naive_solver).
  rewrite filter_concat, (concat_only p (fun q => List.filter _ (reads no_bounds q))); [..|by intros; apply other_partition_reads].
  2: { cbn. apply NoDup_fmap; [intros ? ?; lia|apply NoDup_seq]. }
  rewrite <- partition_reads_one by done. rewrite scan_partitions_one by done.
  cbn [scan_partitions no_bounds start_offsets end_offsets]. destruct (Z.ltb_spec p count), (decide _) as [Hp|Hp].
  - cbn. apply app_nil_r.
  - cbn. rewrite app_nil_r. unfold partition_reads, plan_fetch. cbn [fp_start fp_stop].
    rewrite below_nil_offset; [done|]. assert (latest p <= earliest p).
    { apply (sv_unknown _ _ _ _ _ _ _ Hserves). intros Hr. apply Hp, list_elem_of_fmap.
      exists (Z.to_nat p). rewrite elem_of_seq. lia. }
    destruct (bound_for _ _), (bound_for _ _); cbn; lia.
  - exfalso. apply list_elem_of_fmap in Hp as (n & -> & Hn). apply elem_of_seq in Hn. lia.
  - done.
Qed.

Lemma single_limited b :
  single_partition b -> end_offsets b = [] \/ (length (scan_partitions count b) <= 1)%nat.
Proof using Type.
  intros [->|(p & s & e & ->)]; [by left|]. destruct e as [e|]; [right|by left].
  fold (one_bound p s) (one_bound p (Some e)). rewrite scan_partitions_one by (by right).
  destruct (p <? count); cbn; lia.
Qed.
End Bounded.

(** ** The rows of a scan *)

Section Pushed.
Context `{ExtCal} `{MathLib} `{Unicode} `{!ExtPow} `{!KafkaLibs}.
Context (message_decode : MessageDescriptor -> bytes -> result string DynamicMessage).

Definition row_in_scan (b : ScanBounds) (row : Row) : bool :=
  match row with DInt4 p :: DInt8 o :: _ => in_scan b p o | _ => true end.

Lemma assemble_row_envelope registry table profile raw row :
  assemble_row message_decode registry table profile raw = Ok row ->
  row !! 0%nat = Some (DInt4 (rr_partition raw)) /\ row !! 1%nat = Some (DInt8 (rr_offset raw)) /\
  (forall b, row_in_scan b row = in_scan b (rr_partition raw) (rr_offset raw)).
Proof.
  unfold assemble_row. intros E. apply bind_Ok in E as (ts & _ & E). apply bind_Ok in E as (vs & _ & E).
  by injection E as <-.
Qed.

Lemma assemble_rows_filter registry table profile b raws rows :
  assemble_rows message_decode table raws profile registry = Ok rows ->
  assemble_rows message_decode table (List.filter (fun r => in_scan b (rr_partition r) (rr_offset r)) raws) profile registry
    = Ok (List.filter (row_in_scan b) rows).
Proof.
  unfold assemble_rows. revert rows. induction raws as [|raw raws IH]; intros rows E; cbn in E; [by injection E as <-|].
  apply bind_Ok in E as (row & Er & E). apply bind_Ok in E as (rows' & Es & E). injection E as <-.
  cbn. rewrite (proj2 (proj2 (assemble_row_envelope _ _ _ _ _ Er)) b).
  destruct (in_scan b _ _); [|exact (IH _ Es)]. cbn. rewrite Er. cbn. by rewrite (IH _ Es).
Qed.

(** A name of the envelope is the column of the envelope or ambiguous. *)
Lemma resolve_nth scope q name i j c :
  resolve scope q name = Ok i -> scope !! j = Some c -> binding_matches q name c = true -> i = j.
Proof.
  unfold resolve. rewrite resolve_loop_spec. intros E Hc Hm.
  assert (j ∈ matching q name scope) as Hj.
  { unfold matching. apply list_elem_of_filter. rewrite Hc. split; [done|]. apply elem_of_seq.
    apply lookup_lt_Some in Hc. lia. }
  case_match; [done|]. destruct (matching q name scope) as [|k [|? ?]]; [by apply not_elem_of_nil in Hj| |done].
  apply list_elem_of_singleton in Hj as ->. by injection E as <-.
Qed.

Lemma resolve_envelope table alias cols q name i j ty :
  t_columns table = envelope_columns ++ cols -> envelope_columns !! j = Some (mkColumn name ty) ->
  resolve (scope_single table alias) q name = Ok i -> i = j.
Proof.
  intros Hc Hj Hr.
  assert (scope_single table alias !! j = Some (mkBinding (Some alias) name ty)) as Hs.
  { unfold scope_single, Scope. rewrite Hc, map_app, lookup_app_l.
    - change (map ?f ?l) with (f <$> l). by rewrite list_lookup_fmap, Hj.
    - rewrite length_map. by apply lookup_lt_Some in Hj. }
  eapply resolve_nth; [exact Hr|exact Hs|].
  unfold binding_matches. cbn. rewrite bool_decide_true, andb_true_r by done.
  destruct q as [q|]; [|done]. unfold resolve in Hr. destruct (existsb (has_qualifier q) _) eqn:Eq; [|done].
  apply existsb_exists in Eq as (c & Hin & Hq). unfold scope_single in Hin. apply in_map_iff in Hin as (c' & <- & _).
  exact Hq.
Qed.

Lemma kept_in_scan table alias cols f ctx row p o :
  t_columns table = envelope_columns ++ cols ->
  row !! 0%nat = Some (DInt4 p) -> row !! 1%nat = Some (DInt8 o) ->
  forallb literals_fit (collect_conjuncts f) = true ->
  eval f (scope_single table alias) row ctx = Ok (DBool true) ->
  in_scan (extract_scan_bounds (Some f)) p o = true.
Proof.
  intros Hc Hp Ho Hfit He.
  assert (within (extract_scan_bounds (Some f)) p o = true) as Hw.
  { eapply (kept_within (scope_single table alias) row ctx o); [|exact Hfit|exact He].
    intros q i Hr. by rewrite (resolve_envelope _ _ _ _ _ _ 1 TInt8 Hc eq_refl Hr). }
  unfold in_scan. rewrite Hw, andb_true_r. unfold extract_scan_bounds.
  destruct (partition_anchor None (collect_conjuncts f)) as [[r|]|] eqn:Ea; [|done..].
  assert (p = r) as ->.
  { destruct (anchor_conjunct _ _ _ Ea) as [|(c & Hin & Hm)]; [done|].
    destruct (conjunct_true _ _ _ _ _ _ He Hin) as [n Hn]. eapply anchor_value; [|exact Hm|exact Hn].
    intros q i Hr. by rewrite (resolve_envelope _ _ _ _ _ _ 0 TInt4 Hc eq_refl Hr). }
  destruct (foldl tighten_bound (None, None) (collect_conjuncts f)) as [[s|] [e|]]; cbn; by rewrite ?Z.eqb_refl.
Qed.

(** The rows of a scan are those of the windows it reads. *)
Lemma kafka_scan_reads broker registry_at table server mapping meta profile b ctx count earliest latest log :
  t_foreign table = Some meta -> resolve_profile server mapping (fm_options meta) = Ok profile ->
  serves broker profile (cp_topic profile) count earliest latest log -> single_partition b ->
  kafka_scan message_decode broker registry_at table server mapping b ctx =
  to_exec (assemble_rows message_decode table
    (concat (partition_reads earliest latest log b <$> scan_partitions count b)) profile
    (registry_at (cp_registry_url profile))).
Proof.
  intros Hm Hr Hs Hb. unfold kafka_scan, to_exec, lift. rewrite Hm. cbn [ok_or map_err mbind result_bind].
  rewrite Hr. cbn [map_err mbind result_bind].
  by rewrite (scan_topic_reads _ _ _ _ _ _ _ Hs) by by apply single_limited.
Qed.

(** C39: Pushing the offsets of a WHERE clause into the scan of a Kafka topic does not change
    the rows the query keeps. When a scan of the whole topic succeeds and the clause keeps
    some of its rows, a scan within the bounds that [extract_scan_bounds] takes from the
    clause succeeds too, and the clause keeps the same rows of it in the same order. The
    topic does not change between the scans and answers fetches with the records from the
    offset on, in pieces of any size; no literal of the clause is the largest 64-bit
    integer. *)
Theorem pushdown_keeps_results broker registry_at table server mapping meta profile cols alias f ctx
    count earliest latest log rows kept :
  t_foreign table = Some meta -> t_columns table = envelope_columns ++ cols ->
  resolve_profile server mapping (fm_options meta) = Ok profile ->
  serves broker profile (cp_topic profile) count earliest latest log ->
  forallb literals_fit (collect_conjuncts f) = true ->
  kafka_scan message_decode broker registry_at table server mapping no_bounds ctx = Ok rows ->
  filter_rows (Some f) (scope_single table alias) ctx rows = Ok kept ->
  exists rows',
    kafka_scan message_decode broker registry_at table server mapping (extract_scan_bounds (Some f)) ctx = Ok rows' /\
    filter_rows (Some f) (scope_single table alias) ctx rows' = Ok kept /\
    rows' = List.filter (row_in_scan (extract_scan_bounds (Some f))) rows.
Proof.
  intros Hm Hc Hr Hs Hfit Hscan Hk. set (b := extract_scan_bounds (Some f)).
  assert (single_partition b) as Hb by exact (extract_single (Some f)).
  erewrite kafka_scan_reads in Hscan |- * by (done || by left).
  rewrite (bounded_reads _ _ _ _ _ _ _ Hs) by done.
  destruct (assemble_rows _ _ _ _ _) as [rows0|] eqn:Ea; [|done]. injection Hscan as <-.
  rewrite (assemble_rows_filter _ _ _ b _ _ Ea). eexists. split_and!; [reflexivity| |reflexivity].
  apply filter_rows_drop; [|done]. intros row Hrow He.
  apply list_elem_of_lookup in Hrow as [i Hi].
  destruct (Forall2_lookup_r _ _ _ _ _ (mapR_Ok_Forall2 _ _ _ Ea) Hi) as (raw & _ & Hraw).
  destruct (assemble_row_envelope _ _ _ _ _ Hraw) as (Hp & Ho & ->). by eapply kept_in_scan.
Qed.
End Pushed.

(** ** The rows of an imported table *)

Section Imported.
Context `{ExtArith} `{!KafkaLibs}.
Context (message_decode : MessageDescriptor -> bytes -> result string DynamicMessage).

Definition server_registry (registry_at : string -> Registry) (server : ForeignServer) : Registry :=
  registry_at (default "" (option_of (srv_options server) "registry_url")).

Lemma resolve_profile_options server mapping options profile :
  resolve_profile server mapping options = Ok profile ->
  cp_registry_url profile = default "" (option_of (srv_options server) "registry_url") /\
  parse_wire (default "raw" (option_of options "value_format")) = Ok (cp_value_format profile).
Proof.
  unfold resolve_profile. intros E. repeat (apply bind_Ok in E as (? & ? & E)). by injection E as <-.
Qed.

Lemma resolve_server_url server mapping profile :
  resolve_server server mapping = Ok profile ->
  sp_registry_url profile = default "" (option_of (srv_options server) "registry_url").
Proof. unfold resolve_server. intros E. repeat (apply bind_Ok in E as (? & ? & E)). by injection E as <-. Qed.

Lemma to_exec_Ok {A} (r : result KafkaFdwError A) a : to_exec r = Ok a -> r = Ok a.
Proof. destruct r; [by intros [= ->]|done]. Qed.

Lemma insert_by_elem {A} cmp (x y : A) l : y ∈ insert_by cmp x l -> y = x \/ y ∈ l.
Proof.
  induction l as [|z l IH]; cbn; [rewrite list_elem_of_singleton; auto|].
  destruct (cmp z x); rewrite !elem_of_cons; naive_solver.
Qed.

Lemma sort_by_elem {A} cmp (y : A) l : y ∈ sort_by cmp l -> y ∈ l.
Proof.
  induction l as [|x l IH]; [done|]. intros [->|Hy]%insert_by_elem; rewrite elem_of_cons; auto.
Qed.

Lemma import_table_name registry name : im_name (import_table registry name) = name.
Proof. unfold import_table. by destruct (value_columns_for_topic _ _). Qed.

(** An imported table is the one its topic's subject describes. *)
Lemma imported_from_subject broker registry_at server mapping filter ims im :
  kafka_import_schema broker registry_at server mapping filter = Ok ims -> im ∈ ims ->
  im = import_table (server_registry registry_at server) (im_name im).
Proof.
  unfold kafka_import_schema. intros E Him. apply bind_Ok in E as (profile & Hp & E).
  apply bind_Ok in E as (? & _ & E). apply bind_Ok in E as (topics & _ & E). injection E as <-.
  apply sort_by_elem, list_elem_of_fmap in Him as (entry & -> & _).
  unfold server_registry. rewrite <- (resolve_server_url _ _ _ (to_exec_Ok _ _ Hp)).
  by rewrite import_table_name.
Qed.

Lemma parse_wire_option w : parse_wire (wire_option w) = Ok w.
Proof. by destruct w. Qed.

(** What a scan of a table imported from a topic makes of a record. *)
Lemma imported_scan_row broker registry_at table server mapping srv name b ctx rows row :
  t_foreign table = Some (mkForeignMeta srv (im_options (import_table (server_registry registry_at server) name))) ->
  kafka_scan message_decode broker registry_at table server mapping b ctx = Ok rows -> row ∈ rows ->
  exists raw profile,
    cp_value_format profile = snd (value_columns_for_topic (server_registry registry_at server) name) /\
    assemble_row message_decode (server_registry registry_at server) table profile raw = Ok row.
Proof.
  intros Hf E Hrow. unfold kafka_scan in E. rewrite Hf in E. apply bind_Ok in E as (meta & [= <-] & E).
  apply bind_Ok in E as (profile & Hp%to_exec_Ok & E). apply bind_Ok in E as (raws & _ & E%to_exec_Ok).
  destruct (resolve_profile_options _ _ _ _ Hp) as [Hurl Hfmt]. rewrite Hurl in E.
  apply list_elem_of_lookup in Hrow as [i Hi].
  destruct (Forall2_lookup_r _ _ _ _ _ (mapR_Ok_Forall2 _ _ _ E) Hi) as (raw & _ & Hraw).
  exists raw, profile. split; [|exact Hraw]. unfold import_table in Hfmt. destruct (value_columns_for_topic _ _) as [cols w].
  cbn in Hfmt. rewrite parse_wire_option in Hfmt. by injection Hfmt.
Qed.

Lemma raw_import_column registry name :
  snd (value_columns_for_topic registry name) = WRaw -> fst (value_columns_for_topic registry name) = [raw_value_column].
Proof.
  unfold value_columns_for_topic, fetch_value_columns. destruct (rg_latest_id _ _) as [id|]; [|done]. cbn.
  destruct (rg_schema_by_id _ _) as [text|]; [|done]. cbn. destruct (match avro_parse_schema text with Ok _ => _ | _ => _ end);
    [destruct (from_option _ _ _)|]; done.
Qed.

Lemma decode_not_raw cache fmt b decoded schema :
  decode_value cache message_decode fmt b = Ok (decoded, schema) -> fmt <> WRaw -> forall b', decoded <> DecRaw b'.
Proof.
  destruct fmt; [done|..]; cbn; intros E _ b' ->;
    repeat (let x := fresh in let Hx := fresh in apply bind_Ok in E as (x & Hx & E); try destruct x as [[? ?] ?];
            try destruct x as [? ?]); simplify_eq.
Qed.

Lemma value_datums_length registry profile cols value vs :
  (cp_value_format profile = WRaw -> length cols = 1%nat) ->
  value_datums message_decode registry profile cols value = Ok vs -> length vs = length cols.
Proof.
  intros Hraw. destruct value as [[|x b]|]; cbn; [intros [= <-]; apply length_fmap| |intros [= <-]; apply length_fmap].
  intros E. apply bind_Ok in E as ([decoded schema] & Hd & E). injection E as <-.
  destruct (decide (cp_value_format profile = WRaw)) as [Ew|Ew].
  - rewrite Ew in Hd. injection Hd as <- <-. by rewrite Hraw.
  - by eapply project_length, decode_not_raw.
Qed.

(** Every row that a scan of an imported table returns has a datum for each column of
    the table, as the executor requires, whatever format the import found: the columns an
    import derives and the format it stores in the options of the table agree. *)
Theorem imported_rows_have_all_columns broker registry_at table server mapping filter srv ims im b ctx rows :
  kafka_import_schema broker registry_at server mapping filter = Ok ims -> im ∈ ims ->
  t_columns table = envelope_columns ++ im_columns im ->
  t_foreign table = Some (mkForeignMeta srv (im_options im)) ->
  kafka_scan message_decode broker registry_at table server mapping b ctx = Ok rows ->
  Forall (fun row => length row = length (t_columns table)) rows.
Proof.
  intros Himp Him Hc Hf Hscan. apply Forall_forall. intros row Hrow.
  rewrite (imported_from_subject _ _ _ _ _ _ _ Himp Him) in Hf, Hc.
  destruct (imported_scan_row _ _ _ _ _ _ _ _ _ _ _ Hf Hscan Hrow) as (raw & profile & Hw & E).
  unfold assemble_row in E. apply bind_Ok in E as (ts & _ & E). apply bind_Ok in E as (vs & Hvs & E). injection E as <-.
  rewrite Hc in Hvs |- *. change (drop ENVELOPE_COLS (envelope_columns ++ ?l)) with l in Hvs.
  apply value_datums_length in Hvs; [cbn; by rewrite Hvs|]. intros Er. rewrite Hw in Er.
  apply raw_import_column in Er. unfold import_table. destruct (value_columns_for_topic _ _). cbn in *. by rewrite Er.
Qed.

Lemma project_avro_fits fields decoded :
  NoDup fields.*1 -> forallb (fun f => well_announced f.2) fields = true -> avro_value (AvRecord fields) decoded ->
  Forall2 (fun c d => fits (c_ty c) d = true) (avro_schema_to_columns (AvRecord fields))
    (project (DecAvro decoded) (avro_schema_to_columns (AvRecord fields)) (Some (AvRecord fields))).
Proof.
  intros Hd Hw Hv. inversion Hv as [| | | | | | | | | | | | |? values Hvs| | | | | | | |]; subst. cbn [project].
  apply Forall2_fmap_r, Forall_Forall2_diag, Forall_forall. intros [name ty] Hc. cbn. by apply avro_record_fits.
Qed.

Lemma avro_subject_columns registry name id text fields :
  rg_latest_id registry (name +:+ "-value") = Some id -> rg_schema_by_id registry id = Some text ->
  avro_parse_schema text = Ok (AvRecord fields) -> avro_schema_to_columns (AvRecord fields) <> [] ->
  value_columns_for_topic registry name = (avro_schema_to_columns (AvRecord fields), WAvro).
Proof.
  intros Hid Htext Hparse Hne. unfold value_columns_for_topic, fetch_value_columns.
  rewrite Hid. cbn [mbind option_bind]. rewrite Htext. cbn [mbind option_bind]. rewrite Hparse.
  by destruct (avro_schema_to_columns (AvRecord fields)).
Qed.

Lemma avro_datums_fit registry profile text fields value vs :
  cp_value_format profile = WAvro -> avro_parse_schema text = Ok (AvRecord fields) ->
  NoDup fields.*1 -> forallb (fun f => well_announced f.2) fields = true ->
  (forall k t, resolve_writer_schema (rg_writer_schema registry k) k = Ok t -> t = text) ->
  (forall body v, avro_from_datum (AvRecord fields) body = Ok v -> avro_value (AvRecord fields) v) ->
  value_datums message_decode registry profile (avro_schema_to_columns (AvRecord fields)) value = Ok vs ->
  Forall2 (fun c d => fits (c_ty c) d = true) (avro_schema_to_columns (AvRecord fields)) vs.
Proof.
  intros Hfmt Hparse Hd Hw Hwriter Hvalue. unfold value_datums.
  assert (forall cols : list Column, Forall2 (fun c d => fits (c_ty c) d = true) cols ((fun _ => DNull) <$> cols)) as Hnull.
  { intros cols. apply Forall2_fmap_r, Forall_Forall2_diag, Forall_forall. done. }
  destruct value as [[|x b]|]; [intros [= <-]; apply Hnull| |intros [= <-]; apply Hnull].
  intros E. apply bind_Ok in E as ([decoded schema] & Hdec & E). injection E as <-.
  rewrite Hfmt in Hdec. cbn [decode_value] in Hdec.
  apply bind_Ok in Hdec as ([k body] & _ & Hdec). apply bind_Ok in Hdec as (t & Ht & Hdec).
  rewrite (Hwriter _ _ Ht), Hparse in Hdec. apply bind_Ok in Hdec as (s & [= <-] & Hdec).
  apply bind_Ok in Hdec as (v & Hv & Hdec). injection Hdec as <- <-. apply project_avro_fits; [done..|].
  destruct (avro_from_datum (AvRecord fields) body) eqn:Ea; [|done]. injection Hv as <-. eauto.
Qed.

(** C40: The rows of a table imported from a topic with an Avro record schema have in each
    column NULL or a datum of the column's type, when the records were written with that
    schema: the types that the import announces are those the scan delivers. The Avro
    decoder returns values of the schema, and the schema has no field of a fixed size and
    no big decimal. *)
Theorem imported_avro_rows_typed broker registry_at table server mapping filter srv ims im b ctx rows
    id text fields :
  kafka_import_schema broker registry_at server mapping filter = Ok ims -> im ∈ ims ->
  t_columns table = envelope_columns ++ im_columns im ->
  t_foreign table = Some (mkForeignMeta srv (im_options im)) ->
  rg_latest_id (server_registry registry_at server) (im_name im +:+ "-value") = Some id ->
  rg_schema_by_id (server_registry registry_at server) id = Some text ->
  avro_parse_schema text = Ok (AvRecord fields) -> avro_schema_to_columns (AvRecord fields) <> [] ->
  NoDup fields.*1 -> forallb (fun f => well_announced f.2) fields = true ->
  (forall k t, resolve_writer_schema (rg_writer_schema (server_registry registry_at server) k) k = Ok t -> t = text) ->
  (forall body v, avro_from_datum (AvRecord fields) body = Ok v -> avro_value (AvRecord fields) v) ->
  kafka_scan message_decode broker registry_at table server mapping b ctx = Ok rows ->
  Forall (Forall2 (fun c d => fits (c_ty c) d = true) (t_columns table)) rows.
Proof.
  intros Himp Him Hc Hf Hid Htext Hparse Hne Hd Hw Hwriter Hvalue Hscan. apply Forall_forall. intros row Hrow.
  pose proof (imported_from_subject _ _ _ _ _ _ _ Himp Him) as Eim.
  set (registry := server_registry registry_at server) in *.
  pose proof (avro_subject_columns _ _ _ _ _ Hid Htext Hparse Hne) as Hcols.
  rewrite Eim in Hf, Hc. destruct (imported_scan_row _ _ _ _ _ _ _ _ _ _ _ Hf Hscan Hrow) as (raw & profile & Hfmt & E).
  fold registry in Hfmt, E. rewrite Hcols in Hfmt. cbn [snd] in Hfmt.
  unfold import_table in Hc. rewrite Hcols in Hc. cbn [im_columns] in Hc. unfold assemble_row in E.
  apply bind_Ok in E as (ts & _ & E). apply bind_Ok in E as (vs & Hvs & E). injection E as <-.
  rewrite Hc in Hvs |- *. change (drop ENVELOPE_COLS (envelope_columns ++ ?l)) with l in Hvs.
  do 5 (constructor; [by destruct (rr_key raw)|]). by eapply avro_datums_fit.
Qed.
End Imported.

(** ** A sample topic *)

(** Libraries that know the empty object, one schema and its one-byte bodies. *)
#[local] Instance sample_libs : KafkaLibs := {|
  JNum := Z;
  jnum_of_int n := n;
  jnum_from_f64 _ := None;
  jnum_as_i64 n := Some n;
  jnum_as_f64 _ := None;
  json_display _ := "";
  json_to_string v := match v with JObject [] => Some "{}" | _ => None end;
  json_from_slice _ := Err "no JSON";
  json_from_str _ := None;
  epoch_date_add_secs s := Some (s / 86400 - 10957 : @Date model_ext);
  ts_from_millisecond ms := ok_or (ts_from_microsecond (ms * 1000)) "out of range";
  bd_new n scale := (n, - scale) : @BigDecimal model_ext;
  wire_decode b := match b with 0 :: body => Ok (1, body) | _ => Err "no magic byte" end;
  wire_decode_protobuf _ := Err "no Protobuf";
  avro_parse_schema s := if String.eqb s "counter" then Ok (AvRecord [("n", AvLong)]) else Err "no schema";
  avro_from_datum s b :=
    match s, b with AvRecord [("n", AvLong)], [n] => Ok (VRecord [("n", VLong n)]) | _, _ => Err "no datum" end
|}.

Definition no_messages (d : MessageDescriptor) (b : bytes) : result string DynamicMessage := Err "no messages".

Definition sample_record (off : Z) : Fetched := mkFetched off 0 None (Some [0; off]).

(** Partition 0 has four records, from offset 3 on, and partition 1 has one. *)
Definition sample_log (p : Z) : list Fetched :=
  if p =? 0 then sample_record <$> [3; 5; 7; 9] else if p =? 1 then sample_record <$> [0] else [].
Definition sample_earliest (p : Z) : Z := if p =? 0 then 3 else 0.
Definition sample_latest (p : Z) : Z := if p =? 0 then 10 else if p =? 1 then 1 else 0.

(** The broker of the topic, which gives two records at a time. *)
Definition sample_broker : Broker := {|
  bk_admin _ _ := Ok ();
  bk_lookup_host _ := Ok ["10.0.0.1:9092"];
  bk_connect _ _ := Ok ();
  bk_metadata _ := Ok [mkTopic "__offsets" None 1; mkTopic "ticks" None 2];
  bk_list_offsets at_ topic ps :=
    Ok [(topic, (fun p => (p, if (0 <=? p) && (p <? 2) then 0 else 3,
                           if at_ =? EARLIEST then sample_earliest p else sample_latest p)) <$> ps)];
  bk_fetch _ p off := Ok (take 2 (from_offset off (sample_log p)))
|}.

(** The value subject of the topic has a schema, which its records are written with. *)
Definition sample_registry (url : string) : Registry := {|
  rg_latest_id s := if String.eqb s "ticks-value" then Some 1 else None;
  rg_schema_by_id _ := Some "counter";
  rg_writer_schema _ := [SchemaPending; SchemaText "counter"]
|}.

Definition sample_server : ForeignServer := mkServer "k" "kafka" [("bootstrap", "kafka:9092")].

Definition sample_table (columns : list Column) (format : string) : Table :=
  mkTable 1 "ticks" (envelope_columns ++ columns)
    (Some (mkForeignMeta "k" [("topic", "ticks"); ("value_format", format)])).

Lemma offsets_known (code off : Z -> Z) (ps : list Z) m p :
  p ∈ ps \/ m !! p = (if code p =? 0 then Some (off p) else None) ->
  m !! p = None \/ m !! p = (if code p =? 0 then Some (off p) else None) ->
  foldl insert_offset m ((fun p => (p, code p, off p)) <$> ps) !! p = (if code p =? 0 then Some (off p) else None).
Proof.
  revert m. induction ps as [|q ps IH]; intros m Hp Hm; cbn; [by destruct Hp as [[]%elem_of_nil|Hp]|].
  apply IH; destruct (decide (q = p)) as [->|Hn].
  - right. destruct (code p =? 0); [apply lookup_insert_eq|naive_solver].
  - destruct Hp as [Hp|Hp]; [left; set_solver|right]. destruct (code q =? 0); [by rewrite lookup_insert_ne|done].
  - destruct (code p =? 0); [right; apply lookup_insert_eq|naive_solver].
  - destruct (code q =? 0); [by rewrite lookup_insert_ne|done].
Qed.

Lemma sample_serves profile :
  cp_bootstrap profile = ["kafka:9092"] ->
  serves sample_broker profile "ticks" 2 sample_earliest sample_latest sample_log.
Proof.
  intros Hb.
  assert (forall p : Z, p = 0 \/ p = 1 \/ (p <> 0 /\ p <> 1)) as Hcase by lia.
  assert (forall at_ ps p, p ∈ ps ->
    default 0 (offset_map "ticks" [("ticks", (fun p => (p, if (0 <=? p) && (p <? 2) then 0 else 3,
      if at_ =? EARLIEST then sample_earliest p else sample_latest p)) <$> ps)] !! p) =
    if at_ =? EARLIEST then sample_earliest p else sample_latest p) as Hoffsets.
  { intros at_ ps p Hp. change (offset_map "ticks" [("ticks", ?l)]) with (foldl insert_offset ∅ (l ++ [])).
    rewrite app_nil_r, (offsets_known (fun p => if (0 <=? p) && (p <? 2) then 0 else 3)) by (by left).
    unfold sample_earliest, sample_latest. destruct (Hcase p) as [->|[->|[H0 H1]]]; [done|done|].
    rewrite (proj2 (Z.eqb_neq p 0)), (proj2 (Z.eqb_neq p 1)) by done. by repeat case_match. }
  split; cbn [sample_broker bk_admin bk_metadata bk_list_offsets bk_fetch].
  - done.
  - eexists. split; [reflexivity|]. done.
  - unfold open_connection. by rewrite Hb.
  - intros ps. eexists. split; [reflexivity|]. apply (Hoffsets EARLIEST).
  - intros ps. eexists. split; [reflexivity|]. apply (Hoffsets LATEST).
  - intros p. unfold sample_earliest, sample_latest. repeat case_match; lia.
  - intros p Hp. unfold sample_earliest, sample_latest. repeat case_match; lia.
  - intros p. unfold sample_log. repeat case_match; repeat constructor.
  - intros p off. by exists 1%nat.
Qed.

Definition sample_columns : list Column := [mkColumn "value" TBytea].

Lemma pushdown_keeps_results_witness :
  exists rows kept,
    kafka_scan no_messages sample_broker sample_registry (sample_table sample_columns "raw") sample_server None
      (extract_scan_bounds (Some (offsets_up_to "8"))) epoch_ctx = Ok rows /\
    filter_rows (Some (offsets_up_to "8")) (scope_single (sample_table sample_columns "raw") "ticks") epoch_ctx rows
      = Ok kept /\
    (fun row => take 2 row) <$> kept = [[DInt4 0; DInt8 5]; [DInt4 0; DInt8 7]].
Proof.
  destruct (kafka_scan no_messages sample_broker sample_registry (sample_table sample_columns "raw") sample_server
    None no_bounds epoch_ctx) as [all|] eqn:Eall; [|discriminate Eall].
  destruct (filter_rows (Some (offsets_up_to "8")) (scope_single (sample_table sample_columns "raw") "ticks")
    epoch_ctx all) as [kept|] eqn:Ekept; [|injection Eall as <-; discriminate Ekept].
  destruct (pushdown_keeps_results no_messages sample_broker sample_registry (sample_table sample_columns "raw")
    sample_server None (mkForeignMeta "k" [("topic", "ticks"); ("value_format", "raw")])
    (mkProfile ["kafka:9092"] "" None "ticks" WRaw WRaw) sample_columns "ticks" (offsets_up_to "8") epoch_ctx
    2 sample_earliest sample_latest sample_log all kept) as (rows & Hrows & Hkept & _);
    [reflexivity..|by apply sample_serves|reflexivity|exact Eall|exact Ekept|].
  exists rows, kept. split_and!; [exact Hrows|exact Hkept|].
  injection Eall as <-. injection Ekept as <-. reflexivity.
Defined.

Definition ticks_import : ImportedTable :=
  mkImported "ticks" [mkColumn "n" TInt8] [("topic", "ticks"); ("value_format", "avro")].

Lemma imported_rows_have_all_columns_witness :
  exists rows,
    kafka_scan no_messages sample_broker sample_registry (sample_table (im_columns ticks_import) "avro")
      sample_server None no_bounds epoch_ctx = Ok rows /\
    length rows = 5%nat /\ Forall (fun row => length row = 6%nat) rows.
Proof.
  destruct (kafka_scan no_messages sample_broker sample_registry (sample_table (im_columns ticks_import) "avro")
    sample_server None no_bounds epoch_ctx) as [rows|] eqn:E; [|discriminate E].
  exists rows. split_and!; [reflexivity|by injection E as <-|].
  apply (imported_rows_have_all_columns no_messages sample_broker sample_registry
    (sample_table (im_columns ticks_import) "avro") sample_server None FilterAll "k" [ticks_import] ticks_import
    no_bounds epoch_ctx rows); [reflexivity|by apply list_elem_of_singleton|reflexivity|reflexivity|exact E].
Defined.

Lemma imported_avro_rows_typed_witness :
  exists rows,
    kafka_scan no_messages sample_broker sample_registry (sample_table (im_columns ticks_import) "avro")
      sample_server None no_bounds epoch_ctx = Ok rows /\
    (fun row => row !! 5%nat) <$> rows = (fun n => Some (DInt8 n)) <$> [3; 5; 7; 9; 0] /\
    Forall (Forall2 (fun c d => fits (c_ty c) d = true) (envelope_columns ++ im_columns ticks_import)) rows.
Proof.
  destruct (kafka_scan no_messages sample_broker sample_registry (sample_table (im_columns ticks_import) "avro")
    sample_server None no_bounds epoch_ctx) as [rows|] eqn:E; [|discriminate E].
  exists rows. split_and!; [reflexivity|by injection E as <-|].
  apply (imported_avro_rows_typed no_messages sample_broker sample_registry
    (sample_table (im_columns ticks_import) "avro") sample_server None FilterAll "k" [ticks_import] ticks_import
    no_bounds epoch_ctx rows 1 "counter" [("n", AvLong)]);
    [reflexivity|by apply list_elem_of_singleton|reflexivity..|done|by repeat constructor; apply not_elem_of_nil|reflexivity| |
     |exact E].
  - intros k t Ht. by injection Ht as <-.
  - intros [|n [|? ?]] v Hv; try discriminate Hv. injection Hv as <-. constructor. by repeat constructor.
Defined.
